(* ===== verification/_CoqProject ===== *)
-Q . S2P
Prelude.v
GF.v
Linear.v
KodrData.v
KodrMatrix.v
RLNCDecoder.v
RLNCEncoder.v
Xnc.v
ByteOrder.v
Protocol.v
Wire.v
StreamSorter.v
ReceivedPackets.v
FlowControl.v
AckCodec.v
PublicHeader.v
PacketUnpacker.v
Handshake.v
RTTStats.v
SentPackets.v
CubicSender.v
OliaSender.v
Stream.v
StreamsMap.v
StreamFramer.v
NullAEAD.v
PacketNumberGenerator.v
Path.v
PacketPacker.v
SessionState.v
PathManager.v
Scheduler.v
Session.v
SessionPaths.v
KeyDerivation.v
ServerConfig.v
CryptoSetup.v
CryptoSetupServer.v
CryptoSetupClient.v
CryptoHello.v
CryptoAnswers.v
CryptoHandshake.v
Listener.v
Dialer.v
Float64.v
RateAdaptation.v
QoE.v
