(* ===== verification/Prelude.v ===== *)
(** * RLNC_Streaming: a verification of its coding, transfer and transport core

    The repository streams files over multipath QUIC and codes them with
    random linear network coding (RLNC).  These layers carry its own logic and
    are modelled here, from the code that runs:

    - the coding library src/kodr (data.go, matrix/, full/, systematic/);
    - the file-transfer protocol src/xnc, the program that uses the library;
    - the state machines of the transport src/mp-quic: integer and frame
      formats, packet headers and numbers, streams and their reassembly, flow
      control, acknowledgement, loss detection, congestion control, packets,
      paths and their scheduling, sessions, the QUIC handshake, and the server and
      the client that take datagrams to sessions;
    - the choice of a bitrate and the quality scores of the player src/godash.

    ** The files

    - Prelude.v: results and panics, machine integers ([u8] ... [u64], [i64]),
      Go slices ([slice], [index], [make_bytes], [go_copy]), loops that may
      panic ([for_each], [scan]), bytes as numbers, list lemmas.
    - GF.v: the class [GaloisField] with its laws [GaloisFieldLaws], the
      package galoisfield (a dependency), and [DefaultGF256], a concrete field.
    - Linear.v: row operations, [dot], [lincomb], solutions and rank of a set
      of coding vectors: the specification level.
    - KodrData.v: kodr/data.go and errors.go.
    - KodrMatrix.v: kodr/matrix/matrix.go and decoder_state.go, loop by loop
      ([clean_forward], [clean_backward], [remove_zero_rows], [Rref]).
    - RLNCDecoder.v: Modules [Full] (kodr/full/decoder.go) and [Systematic]
      (kodr/systematic/decoder.go).
    - RLNCEncoder.v: Modules [FullEncoder], [SystematicEncoder] and [Recoder]
      (kodr/full/encoder.go, kodr/systematic/encoder.go, kodr/full/recoder.go);
      the class [PieceSource] is what a decoder relies on from any of them.
    - Xnc.v: xnc/xnc.go, utils.go, config.go, client.go and server.go: packets,
      [SpiltFile], [sendFile], [handle_stream] and [Client].
    - ByteOrder.v: mp-quic/internal/utils/byteorder*.go and float16.go; the
      class [ByteOrderLaws] is the interface the frame formats are proved
      against, with one instance for each byte order.
    - Protocol.v: mp-quic/internal/protocol/packet_number.go and version.go.
    - Wire.v: ten frame types of mp-quic/internal/wire (all but ACK and
      CLOSE_PATH), each with its writer, parser and MinLength.
    - StreamSorter.v: mp-quic/stream_frame_sorter.go.
    - ReceivedPackets.v: mp-quic/ackhandler/received_packet_history.go,
      received_packet_handler.go, stop_waiting_manager.go and the predicates of
      AckFrame.
    - FlowControl.v: mp-quic/internal/flowcontrol.
    - AckCodec.v: ack_frame.go and close_path_frame.go of internal/wire, blocks and
      gaps included.
    - PublicHeader.v: public_header.go and version_negotiation.go.
    - PacketUnpacker.v: packet_unpacker.go; the sum [Frame] of all frame types.
    - Handshake.v: handshake_message.go, tags.go and
      connection_parameters_manager.go of internal/handshake, and
      internal/wire/public_reset.go.
    - RTTStats.v: rtt_stats.go, hybrid_slow_start.go and prr_sender.go of
      mp-quic/congestion; the class [SendAlgorithm] is interface.go.
    - SentPackets.v: mp-quic/ackhandler/sent_packet_handler.go, packet.go and
      retransmittable.go, for any instance of [SendAlgorithm].
    - CubicSender.v: cubic.go, cubic_sender.go, stats.go and bandwidth.go of
      mp-quic/congestion; [cubic_algorithm] is its [SendAlgorithm].
    - OliaSender.v: olia.go and olia_sender.go, the coupled control of the paths
      of a connection.
    - Stream.v: mp-quic/stream.go, reading, writing and the ends of a stream.
    - StreamsMap.v: mp-quic/streams_map.go, and newStream and
      garbageCollectStreams of session.go.
    - StreamFramer.v: mp-quic/stream_framer.go; [sender] is a sending connection of
      streams, framer and windows.
    - NullAEAD.v: AEAD.go and null_aead*.go of mp-quic/internal/crypto; the class
      [AEADLaws] is what a packet's sender and receiver rely on.
    - PacketNumberGenerator.v: mp-quic/packet_number_generator.go.
    - Path.v: mp-quic/path.go (handlePacketImpl is in Session.v); a path has the numbers,
      packets and congestion control of its own.
    - PacketPacker.v: mp-quic/packet_packer.go; [packing] is the packer with the framer,
      streams and windows it takes frames from.
    - SessionState.v: the state of mp-quic/session.go, what the next four files share of its
      methods, and the monad they are written in.
    - PathManager.v: mp-quic/path_manager.go, conn.go and the setup of a session.
    - Scheduler.v: mp-quic/scheduler.go.
    - Session.v: the handlers, timers, loop and end of mp-quic/session.go, and
      handlePacketImpl of path.go.
    - SessionPaths.v: [session_step], a session with everything that acts on it, and what
      holds over any run of it.
    - KeyDerivation.v: curve_25519.go, key_derivation*.go and aesgcm*.go of
      mp-quic/internal/crypto, over the record [primitives] with the class [PrimitiveLaws].
    - ServerConfig.v: server_config*.go, cookie_generator.go, ephermal_cache.go and tags.go of
      mp-quic/internal/handshake, source_address_token.go of internal/crypto, and the check of
      cookies in server.go.
    - CryptoSetup.v: the state and the monad of the crypto setups, the class [CertManager],
      and crypto_setup_tls.go.
    - CryptoSetupServer.v, CryptoSetupClient.v: crypto_setup_server.go, crypto_setup_client.go.
    - CryptoHello.v, CryptoAnswers.v: what a hello says, and what the server answers.
    - CryptoHandshake.v: the steps of the client, [handshake_run], and what holds of it.
    - Listener.v: mp-quic/server.go and the datagrams of pconn_manager.go: what a server
      does with a datagram, its table of sessions, and their end.
    - Dialer.v: mp-quic/client.go: dialing, version negotiation and public resets.
    - Float64.v: float64 (IEEE 754) and Go's conversions.
    - RateAdaptation.v: godash/algorithms and godash/utils/calcFunctions.go.
    - QoE.v: godash/qoe, and the fields of the log of godash/logging that it reads.

    A Go struct is a Record with its fields, a method a Definition of the same
    name, a loop a Fixpoint over what it ranges over.  Where two structs have
    methods of one name and share a file, the smaller one's carries a prefix
    ([fc_], [history_], [handler_], [state_]).

    ** How the parts meet

    [Client] of Xnc.v feeds the decoder of RLNCDecoder.v, [sendFile] draws from
    the encoder of RLNCEncoder.v; both decoders reduce with [Rref] of
    KodrMatrix.v.  STREAM frames of Wire.v are what StreamSorter.v orders; the
    offsets it accepts are counted by FlowControl.v; WINDOW_UPDATE and
    STOP_WAITING frames of Wire.v carry the windows of FlowControl.v and the
    limits of ReceivedPackets.v.  ACK frames are built by ReceivedPackets.v, written
    and parsed by AckCodec.v and taken by SentPackets.v, which tells a
    [SendAlgorithm] what was sent, acknowledged and lost and feeds RTTStats.v.
    PacketUnpacker.v parses every frame type behind a header of PublicHeader.v.
    CubicSender.v is a [SendAlgorithm]; OliaSender.v shares its windows and losses,
    over a table of senders, one for each path.  A stream of Stream.v owns a sorter of
    StreamSorter.v and passes along the flow control manager of FlowControl.v that all
    streams share; StreamsMap.v holds the streams and the order in which they send.
    StreamFramer.v takes their data in that order, as far as FlowControl.v lets it, and
    the frames SentPackets.v gave up; what it pops is what a stream of Stream.v reads.
    PacketPacker.v puts these frames, the ACK frames of ReceivedPackets.v and control frames
    behind a header of PublicHeader.v, with the number PacketNumberGenerator.v gives, and
    seals them: what PacketUnpacker.v opens.

    A [session] of SessionState.v has all of these: its paths (Path.v), the packing of
    PacketPacker.v, which has the streams and windows, and the parameters of Handshake.v.
    Its methods end with a value or an error and a new state, panic, or block; the rules for
    [preserves] go through them call by call.  [run_turn] of Session.v takes an event,
    lets [sendPacket] of Scheduler.v send, and looks at the timers; PathManager.v makes the
    paths that Scheduler.v chooses from.

    The keys of KeyDerivation.v are AEADs of NullAEAD.v.  CryptoSetupServer.v and
    CryptoSetupClient.v exchange messages of Handshake.v, which carry its parameters, the
    configs and tokens of ServerConfig.v and what the keys are derived from; each is a
    [CryptoSetup], which is all that PacketPacker.v and a session see of them.

    Listener.v and Dialer.v parse the headers of PublicHeader.v and decide which session a
    datagram goes to; they know a session by the class [packetHandler] and exchange version negotiation packets of PublicHeader.v and public resets of
    Handshake.v.  RateAdaptation.v and QoE.v stand alone, over Float64.v.

    ** What the theorems show

    - Decoding: [decode_recovers] and [decoded_iff_full_rank] (a decoder
      returns exactly the original pieces, and exactly when the received vectors
      have full rank), [Rref_schedule_independent] (goroutine schedules do not
      matter), [encode_decode_data], [systematic_data_roundtrip] and
      [recode_decode] (every producer composed with the decoder).
    - Transfer: [uncoded_transfer] and [coded_transfer] compose request, server
      and client over any segmentation of the byte stream; round trips of the
      packet formats; termination of the client loop.
    - Transport: round trips of the frames in both byte orders with their exact
      lengths; [reassembly] (a stream is delivered in order, without gaps,
      repetitions or loss, for every arrival order); [ack_frames_exact] (the
      handler refines a set of packet numbers, and fails exactly when the set has too many
      runs); [flow_accounting],
      [sends_within_windows] and [window_update_grants] (windows are respected,
      by an account of the calls, and granted in time); packet numbers and versions; [packet_unpacked] (a
      packet of frames of every type survives encryption, writing and parsing);
      [acks_delivered] (an ACK arrives and acknowledges only what was received).
    - Sending: [packets_conserved] (over the step relation [reachable] no packet is
      lost track of), [sent_invariant], [ack_processed] (each ACK takes out what it
      acknowledges and queues what is overdue), [alarms_drain] (without ACKs the
      alarms retransmit everything); as lemmas [rto_backoff], [min_rtt_of_samples].
    - Congestion: [one_cutback_per_round], [cubic_window_bounded],
      [getEpsilon_shares] (the loop computes the shares OLIA defines),
      [getEpsilon_overflows] (on real round-trip times it does not) and
      [olia_senders_well_formed].
    - Streams: [written_is_read] (what the application writes is what the peer reads,
      through framing, loss, retransmission and reordering), [popped_frames_fit],
      [retransmissions_conserved]; [stream_reads] (what is read is a prefix of what was
      sent, and all of it once it arrived), [read_is_woken]; [streams_opened_once],
      [GetOrOpenStream_cases], [round_robin_no_starvation]; and where the code fails,
      [accept_blocked_by_collected], [incoming_limit], [lost_wakeups],
      [round_robin_unfair], [cut_fin_truncates].
    - Packets: [packet_delivered] (what is packed fits, never fails, and is what the peer
      unpacks), [packet_numbers] (never repeated on a path), [nonces_of_packets] (they alone
      make the nonces, which paths repeat), [null_aead_detects], and the fault [ping_drops_ack].
    - Sessions: [numbers_never_reused] (an invariant of everything a session does),
      [packet_feeds_streams] (what was packed is opened and arrives in the streams),
      [lowest_latency_selected] and [retransmissions_handed_over] (the scheduler); and where
      the code fails, [unknown_path_panics] and [closed_path_blocks] (over any run, after
      the first packet on a path that was closed).
    - Server and client: [datagram_dispatched] (what each datagram does),
      [closed_sessions_collected] (the table has the open sessions and the closed ones that
      wait), [version_negotiated] (composed: an unsupported version, the answer, a new
      session) and [version_settled].
    - Player: as lemmas [selected_rate], [arbiter_first_fit], [conventional_smooths],
      [scores_of_last]; and where the code fails, [logistic_avoids_best],
      [averages_tested], [yu_ignores_switching], [stall_rewarded].
    - Handshake: round trips of messages and public resets and
      [parameters_negotiated] (both sides agree on windows, streams and timeouts);
      [handshake_completes] (three hellos, and both sides have matching keys),
      [levels_never_fall] (encryption is never given up), [downgrade_detected], and the faults
      [second_server_hello_panics] and [honest_server_refused] (a version the client does not
      know makes it refuse an honest server); as lemmas [server_config_read], [token_accepted].
    - Faults of the code, as theorems about what it does: the inverted test of
      [GetPiece], [Required], [PieceLength], silent loss of an undecoded chunk,
      acceptance of truncated streams, panics of the packet decoders, a
      [MinLength] that wraps; and as lemmas: a FIN that survives a cut, a window
      that shrinks, a reason phrase its own parser rejects.

    ** Bounds, fuel and hypotheses

    - [None] is a run-time panic; a Go [error] is an [Err] or a second component.
      Integers have the width of the source, with wrap-around written out.
      Slices are values with capacity equal to length; where the source aliases
      a buffer (frame data, pieces) the modelled calls only read it.
    - [split_loop] gets one unit of fuel per byte and one more, [client_loop] as
      many as the events can hold frames: [SpiltFile] and [Client] pass these
      themselves, and [Client_fuel_enough] and the transfer theorems show that
      they never run out.  [unpack_frames] gets one unit per byte of the payload,
      [Read] one per byte asked for and frame queued, [open_up_to] one per stream to
      open: every iteration uses up one, and [unpack_terminates], [stream_reads] and
      [GetOrOpenStream_cases] show that they are enough.  [retransmit_loop] gets one unit
      per lost packet and one more, enough by [retransmissions_handed_over].  The loops of
      [run] and [sendPacket] need not end and are relations.
    - The field is any with the laws; goroutine schedules, worker orders, map
      iteration orders, random symbols, read segmentation and the clock are
      arguments.  Full rank of the drawn vectors is a hypothesis where the code
      leaves it to chance.
    - Files are below 2 ^ 45 bytes, stream offsets below the maximum byte count,
      flow-control windows and offsets below 2 ^ 62, packet numbers below
      2 ^ 64 - 1; limits given to the packet handler come from STOP_WAITING
      frames of received packets.

    ** What is not modelled

    - Sockets and files: opening and resolving addresses, loading certificates, h2quic and
      the set-up of src/server.  Datagrams come to [server_handlePacket] and
      [client_handlePacket]; the errors of a session's sockets are answers of [surroundings].
    - Cryptography and TLS: Curve25519, HKDF, AES-GCM, ASN.1 and mint are arguments with the
      laws the code relies on.  The certificates of a server and the client's check of them
      (cert_*.go, server_proof.go) are interfaces, their implementations, which are calls of
      x509 and zlib, are left out; so is ChaCha20, which no build uses.
    - A session takes any [CryptoSetup], which any of its steps may find changed; a run of a
      session is not composed with a run of one of the three setups.
    - Goroutines: a session and its paths are steps that interleave ([session_step]), but
      no step of one is split by another; logging, buffers and the timers themselves.
    - The loop of the godash player, its network, logs and HLS, and the P.1203 program.
    - Generated linked lists (Rocq lists here), examples and benchmarks.

    Frames are values: a stream frame that is queued for retransmission twice is two
    frames, where the code has two pointers to one.  A packet without a time of arrival,
    which only tests make, does not occur. *)

From Stdlib Require Import ZArith Lia.
From Stdlib Require Import Strings.Byte.
From stdpp Require Import prelude numbers list.

(** * Notations *)

Declare Scope go_scope.
Delimit Scope go_scope with go.
Open Scope go_scope.

(** A call that can panic yields an [option]: [None] is the run-time panic
    (index or slice bounds out of range, explicit [panic]).  An [error]
    returned beside a value is a [result]. *)
Inductive result (E A : Type) : Type :=
| Ok (a : A)
| Err (e : E).
Arguments Ok {E A} a.
Arguments Err {E A} e.

Definition result_bind {E A B} (m : result E A) (f : A → result E B) : result E B :=
  match m with Ok a => f a | Err e => Err e end.

Notation "'let*' x ':=' m 'in' k" := (result_bind m (fun x => k))
  (at level 10, x pattern, m at level 100, k at level 200) : go_scope.

Lemma result_bind_ok {E A B} (m : result E A) (f : A → result E B) b :
  result_bind m f = Ok b ↔ ∃ a, m = Ok a ∧ f a = Ok b.
Proof.
  destruct m as [a|e]; simpl; [|split; [done|by intros (? & ? & _)]].
  split; [by eauto|]. by intros (a' & [= <-] & ?).
Qed.

(** * Bytes *)

#[export] Instance byte_eq_decision : EqDecision byte := byte_eq_dec.
#[export] Instance byte_inhabited : Inhabited byte := populate x00.

(** The value of a [byte] and the conversion [byte(z)], which keeps the low
    eight bits. *)
Definition byte_val (b : byte) : Z := Z.of_N (Byte.to_N b).
Definition byte_of (z : Z) : byte :=
  match Byte.of_N (Z.to_N (z mod 256)) with Some b => b | None => x00 end.

Lemma byte_val_range b : (0 ≤ byte_val b < 256)%Z.
Proof. unfold byte_val. pose proof (Byte.to_N_bounded b). lia. Qed.

Lemma byte_val_of z : byte_val (byte_of z) = (z mod 256)%Z.
Proof.
  unfold byte_val, byte_of. pose proof (Z.mod_pos_bound z 256 eq_refl).
  destruct (Byte.of_N _) as [b|] eqn:Hb.
  - apply Byte.to_of_N in Hb. rewrite Hb. lia.
  - apply Byte.of_N_None_iff in Hb. lia.
Qed.

Lemma byte_of_val b : byte_of (byte_val b) = b.
Proof.
  unfold byte_of, byte_val. rewrite Z.mod_small by (pose proof (Byte.to_N_bounded b); lia).
  by rewrite N2Z.id, Byte.of_to_N.
Qed.

Lemma byte_val_inj a b : byte_val a = byte_val b → a = b.
Proof. intros H. by rewrite <-(byte_of_val a), H, byte_of_val. Qed.

Lemma byte_of_mod z : byte_of (z mod 256) = byte_of z.
Proof. unfold byte_of. by rewrite Z.mod_mod. Qed.

(** * Machine integers: [uint64], [int64] (Go's [uint] and [int]), [uint32],
    [uint16], [uint8] conversions. *)
Definition u8 (z : Z) : Z := (z mod 2 ^ 8)%Z.
Definition u16 (z : Z) : Z := (z mod 2 ^ 16)%Z.
Definition u32 (z : Z) : Z := (z mod 2 ^ 32)%Z.
Definition u64 (z : Z) : Z := (z mod 2 ^ 64)%Z.
Definition i64 (z : Z) : Z := ((z + 2 ^ 63) mod 2 ^ 64 - 2 ^ 63)%Z.

Lemma u64_small z : (0 ≤ z < 2 ^ 64)%Z → u64 z = z.
Proof. apply Z.mod_small. Qed.
Lemma u32_small z : (0 ≤ z < 2 ^ 32)%Z → u32 z = z.
Proof. apply Z.mod_small. Qed.
Lemma u16_small z : (0 ≤ z < 2 ^ 16)%Z → u16 z = z.
Proof. apply Z.mod_small. Qed.
Lemma u8_small z : (0 ≤ z < 2 ^ 8)%Z → u8 z = z.
Proof. apply Z.mod_small. Qed.
Lemma u64_range z : (0 ≤ u64 z < 2 ^ 64)%Z.
Proof. by apply Z.mod_pos_bound. Qed.
Lemma i64_small z : (- 2 ^ 63 ≤ z < 2 ^ 63)%Z → i64 z = z.
Proof. intros. unfold i64. rewrite Z.mod_small; lia. Qed.

(** * Slices *)

(** [l[lo:hi]], [l[i]], [make([]byte, n)] and [copy(dst, src)].  A slice is
    modelled with its capacity equal to its length. *)
Definition slice {A} (l : list A) (lo hi : Z) : option (list A) :=
  if decide (0 ≤ lo ≤ hi ∧ hi ≤ Z.of_nat (length l))%Z
  then Some (take (Z.to_nat (hi - lo)) (drop (Z.to_nat lo) l))
  else None.

Definition index {A} (l : list A) (i : Z) : option A :=
  if decide (0 ≤ i)%Z then l !! Z.to_nat i else None.

(** [make] panics on a negative length and on one beyond the address space. *)
Definition max_alloc : Z := 2 ^ 48.
Definition make_bytes (n : Z) : option (list byte) :=
  if decide (0 ≤ n ≤ max_alloc)%Z then Some (replicate (Z.to_nat n) x00) else None.

Definition go_copy {A} (dst src : list A) : list A :=
  take (length dst) src ++ drop (length src) dst.

Definition zlen {A} (l : list A) : Z := Z.of_nat (length l).

Lemma go_copy_full {A} (dst src : list A) : length dst = length src → go_copy dst src = src.
Proof.
  intros Hl. unfold go_copy. rewrite take_ge, drop_ge by lia. apply app_nil_r.
Qed.

Lemma length_go_copy {A} (dst src : list A) : length (go_copy dst src) = length dst.
Proof. unfold go_copy. rewrite length_app, length_take, length_drop. lia. Qed.

Lemma slice_ok {A} (l : list A) lo hi :
  (0 ≤ lo ≤ hi)%Z → (hi ≤ zlen l)%Z →
  slice l lo hi = Some (take (Z.to_nat (hi - lo)) (drop (Z.to_nat lo) l)).
Proof. intros. unfold slice, zlen in *. by rewrite decide_True by lia. Qed.

Lemma slice_panic {A} (l : list A) lo hi :
  (lo < 0 ∨ hi < lo ∨ zlen l < hi)%Z → slice l lo hi = None.
Proof. intros. unfold slice, zlen in *. rewrite decide_False by lia. done. Qed.

Lemma slice_length {A} (l l' : list A) lo hi :
  slice l lo hi = Some l' → zlen l' = (hi - lo)%Z.
Proof.
  unfold slice, zlen. case_decide; [|done]. intros [= <-].
  rewrite length_take, length_drop. lia.
Qed.

Lemma index_nat {A} (l : list A) (k : nat) : index l (Z.of_nat k) = l !! k.
Proof. unfold index. by rewrite decide_True, Nat2Z.id by lia. Qed.

(** A slice of a concatenation whose bounds fall on the seams. *)
Lemma slice_mid {A} (a b c : list A) lo hi :
  lo = zlen a → hi = (zlen a + zlen b)%Z → slice (a ++ b ++ c) lo hi = Some b.
Proof.
  intros -> ->. unfold zlen. rewrite slice_ok by (unfold zlen; rewrite ?length_app; lia).
  rewrite Nat2Z.id, drop_app_length.
  replace (Z.to_nat _) with (length b) by lia. by rewrite take_app_length.
Qed.

Lemma slice_all {A} (l : list A) n : n = zlen l → slice l 0 n = Some l.
Proof.
  intros ->. rewrite <-(app_nil_r l) at 1. apply (slice_mid [] l []); unfold zlen; simpl; lia.
Qed.

Lemma slice_end {A} (a b : list A) lo hi :
  lo = zlen a → hi = zlen (a ++ b) → slice (a ++ b) lo hi = Some b.
Proof.
  intros -> ->. rewrite <-(app_nil_r b) at 1. apply (slice_mid a b []); [done|].
  unfold zlen. rewrite length_app. lia.
Qed.

Lemma zlen_app {A} (a b : list A) : zlen (a ++ b) = (zlen a + zlen b)%Z.
Proof. unfold zlen. rewrite length_app. lia. Qed.
Lemma zlen_cons {A} (x : A) l : zlen (x :: l) = (1 + zlen l)%Z.
Proof. unfold zlen. simpl. lia. Qed.
Lemma zlen_nonneg {A} (l : list A) : (0 ≤ zlen l)%Z.
Proof. unfold zlen. lia. Qed.
Lemma zlen_replicate {A} n (x : A) : zlen (replicate n x) = Z.of_nat n.
Proof. unfold zlen. by rewrite length_replicate. Qed.
Lemma zlen_take {A} (l : list A) n : zlen (take n l) = Z.min (Z.of_nat n) (zlen l).
Proof. unfold zlen. rewrite length_take. lia. Qed.
Lemma zlen_drop {A} (l : list A) n : zlen (drop n l) = Z.max 0 (zlen l - Z.of_nat n).
Proof. unfold zlen. rewrite length_drop. lia. Qed.

(** The [c] consecutive blocks of [w] elements at the front of [l]. *)
Fixpoint chunks {A} (w c : nat) (l : list A) : list (list A) :=
  match c with 0 => [] | S c => take w l :: chunks w c (drop w l) end.

Lemma length_chunks {A} w c (l : list A) : length (chunks w c l) = c.
Proof. revert l. induction c; simpl; auto. Qed.

Lemma concat_chunks {A} w c (l : list A) : length l = c * w → concat (chunks w c l) = l.
Proof.
  revert l. induction c as [|c IH]; intros l Hl; simpl; [by destruct l|].
  rewrite IH by (rewrite length_drop; lia). apply take_drop.
Qed.

Lemma chunks_concat {A} w (ls : list (list A)) :
  Forall (λ p, length p = w) ls → chunks w (length ls) (concat ls) = ls.
Proof.
  induction 1 as [|p ls Hp _ IH]; simpl; [done|]. subst w.
  by rewrite take_app_length, drop_app_length, IH.
Qed.

Lemma chunks_widths {A} w c (l : list A) :
  c * w ≤ length l → Forall (λ p, length p = w) (chunks w c l).
Proof.
  revert l. induction c as [|c IH]; intros l Hl; simpl; constructor.
  - rewrite length_take. lia.
  - apply IH. rewrite length_drop. lia.
Qed.

Lemma mapM_seqZ_chunks {A} (l : list A) (w : Z) (c o : nat) :
  (0 ≤ w)%Z → (w * (Z.of_nat o + Z.of_nat c) ≤ zlen l)%Z →
  mapM (λ i, slice l (w * i) (w * (i + 1))) (seqZ (Z.of_nat o) (Z.of_nat c)) =
    Some (chunks (Z.to_nat w) c (drop (Z.to_nat w * o) l)).
Proof.
  intros Hw. revert o. induction c as [|c IH]; intros o Hl; [done|].
  rewrite seqZ_cons by lia. simpl.
  rewrite slice_ok by nia. simpl.
  replace (Z.succ (Z.of_nat o)) with (Z.of_nat (S o)) by lia.
  replace (Z.pred (Z.of_nat (S c))) with (Z.of_nat c) by lia.
  rewrite IH by nia. simpl. do 2 f_equal.
  - by replace (w * (Z.of_nat o + 1) - w * Z.of_nat o)%Z with w by lia;
      replace (Z.to_nat (w * Z.of_nat o)) with (Z.to_nat w * o) by lia.
  - rewrite drop_drop. f_equal. f_equal. lia.
Qed.

Lemma mapM_seqZ_chunks_0 {A} (l : list A) (w c : Z) :
  (0 ≤ w)%Z → (0 ≤ c)%Z → (w * c ≤ zlen l)%Z →
  mapM (λ i, slice l (w * i) (w * (i + 1))) (seqZ 0 c) =
    Some (chunks (Z.to_nat w) (Z.to_nat c) l).
Proof.
  intros Hw Hc Hl. pose proof (mapM_seqZ_chunks l w (Z.to_nat c) 0) as Hm.
  rewrite Nat.mul_0_r, drop_0, Z2Nat.id in Hm by done. apply Hm; lia.
Qed.

(** * Loops *)

(** [for _, x := range xs { body }] over a state; a panicking iteration stops
    the loop. *)
Fixpoint for_each {A St} (xs : list A) (body : A → St → option St) (s : St) : option St :=
  match xs with
  | [] => Some s
  | x :: xs => s' ← body x s; for_each xs body s'
  end.

Lemma for_each_app {A St} (xs ys : list A) (body : A → St → option St) s :
  for_each (xs ++ ys) body s = (s' ← for_each xs body s; for_each ys body s').
Proof. revert s. induction xs as [|x xs IH]; intros s; [done|]. simpl.
  destruct (body x s); simpl; auto. Qed.

Lemma for_each_ext {A St} (xs : list A) (f g : A → St → option St) s :
  (∀ x s, x ∈ xs → f x s = g x s) → for_each xs f s = for_each xs g s.
Proof.
  revert s. induction xs as [|x xs IH]; intros s H; [done|]. simpl.
  rewrite H by set_solver. destruct (g x s); simpl; [apply IH; set_solver|done].
Qed.

(** Loop invariants: counting up over [lo, lo+n), and down from [n-1] to 0. *)
Lemma for_each_up {St} (I : nat → St → Prop) (body : nat → St → option St) lo n s :
  I lo s →
  (∀ i s, lo ≤ i < lo + n → I i s → ∃ s', body i s = Some s' ∧ I (S i) s') →
  ∃ s', for_each (seq lo n) body s = Some s' ∧ I (lo + n) s'.
Proof.
  revert lo s. induction n as [|n IH]; intros lo s HI Hstep; simpl.
  { exists s. by rewrite Nat.add_0_r. }
  destruct (Hstep lo s) as (s1 & -> & H1); [lia|done|]. simpl.
  destruct (IH (S lo) s1) as (s2 & Hs2 & H2); [done| |].
  - intros i s' Hi. apply Hstep. lia.
  - exists s2. split; [done|]. by replace (lo + S n) with (S lo + n) by lia.
Qed.

Lemma for_each_down {St} (I : nat → St → Prop) (body : nat → St → option St) n s :
  I n s →
  (∀ i s, i < n → I (S i) s → ∃ s', body i s = Some s' ∧ I i s') →
  ∃ s', for_each (reverse (seq 0 n)) body s = Some s' ∧ I 0 s'.
Proof.
  revert s. induction n as [|n IH]; intros s HI Hstep.
  { by exists s. }
  rewrite seq_S, reverse_app. simpl.
  destruct (Hstep n s) as (s1 & -> & H1); [lia|done|]. simpl.
  apply IH; [done|]. intros i s' Hi. apply Hstep. lia.
Qed.

(** Two loops whose bodies agree on the states the invariant allows. *)
Lemma for_each_up_eq {St} (I : nat → St → Prop) (f g : nat → St → option St) lo n s :
  I lo s →
  (∀ i s, lo ≤ i < lo + n → I i s → f i s = g i s ∧ ∃ s', f i s = Some s' ∧ I (S i) s') →
  for_each (seq lo n) f s = for_each (seq lo n) g s.
Proof.
  revert lo s. induction n as [|n IH]; intros lo s HI Hstep; simpl; [done|].
  destruct (Hstep lo s) as (<- & s1 & -> & H1); [lia|done|]. simpl.
  apply IH; [done|]. intros i s' Hi. apply Hstep. lia.
Qed.

Lemma for_each_down_eq {St} (I : nat → St → Prop) (f g : nat → St → option St) n s :
  I n s →
  (∀ i s, i < n → I (S i) s → f i s = g i s ∧ ∃ s', f i s = Some s' ∧ I i s') →
  for_each (reverse (seq 0 n)) f s = for_each (reverse (seq 0 n)) g s.
Proof.
  revert s. induction n as [|n IH]; intros s HI Hstep; [done|].
  rewrite seq_S, reverse_app. simpl.
  destruct (Hstep n s) as (<- & s1 & -> & H1); [lia|done|]. simpl.
  apply IH; [done|]. intros i s' Hi. apply Hstep. lia.
Qed.

(** * Big-endian integers ([encoding/binary]) *)

Fixpoint be_bytes (n : nat) (v : Z) : list byte :=
  match n with
  | 0 => []
  | S n' => byte_of (Z.shiftr v (8 * Z.of_nat n')) :: be_bytes n' v
  end.

Fixpoint be_val_acc (acc : Z) (l : list byte) : Z :=
  match l with [] => acc | b :: l => be_val_acc (acc * 256 + byte_val b) l end.
Definition be_val (l : list byte) : Z := be_val_acc 0 l.

Lemma length_be_bytes n v : length (be_bytes n v) = n.
Proof. induction n; simpl; auto. Qed.

Lemma be_val_acc_eq acc l :
  be_val_acc acc l = (acc * 256 ^ Z.of_nat (length l) + be_val l)%Z.
Proof.
  unfold be_val. revert acc. induction l as [|b l IH]; intros acc; simpl be_val_acc; [simpl; lia|].
  rewrite IH, (IH (0 * 256 + byte_val b)%Z). simpl length.
  rewrite Nat2Z.inj_succ, Z.pow_succ_r by lia. lia.
Qed.

Lemma be_val_cons b l :
  be_val (b :: l) = (byte_val b * 256 ^ Z.of_nat (length l) + be_val l)%Z.
Proof. unfold be_val at 1. simpl. by rewrite be_val_acc_eq. Qed.

Lemma be_val_app l1 l2 :
  be_val (l1 ++ l2) = (be_val l1 * 256 ^ Z.of_nat (length l2) + be_val l2)%Z.
Proof.
  induction l1 as [|b l1 IH]; [done|]. simpl.
  rewrite !be_val_cons, IH, length_app, Nat2Z.inj_add, Z.pow_add_r by lia. lia.
Qed.

Lemma be_val_range l : (0 ≤ be_val l < 256 ^ Z.of_nat (length l))%Z.
Proof.
  induction l as [|b l IH]; [done|]. rewrite be_val_cons. simpl length.
  rewrite Nat2Z.inj_succ, Z.pow_succ_r by lia.
  pose proof (byte_val_range b). nia.
Qed.

Lemma be_val_bytes n v : be_val (be_bytes n v) = (v mod 256 ^ Z.of_nat n)%Z.
Proof.
  induction n as [|n IH]; [by rewrite Z.mod_1_r|]. simpl be_bytes.
  rewrite be_val_cons, IH, length_be_bytes, byte_val_of, Z.shiftr_div_pow2 by lia.
  replace (2 ^ (8 * Z.of_nat n))%Z with (256 ^ Z.of_nat n)%Z
    by (rewrite Z.pow_mul_r by lia; done).
  rewrite Nat2Z.inj_succ, Z.pow_succ_r by lia.
  rewrite (Z.mul_comm 256), Z.rem_mul_r by (lia || (apply Z.pow_nonzero; lia)). lia.
Qed.

Lemma be_val_bytes_small n v :
  (0 ≤ v < 256 ^ Z.of_nat n)%Z → be_val (be_bytes n v) = v.
Proof. intros. by rewrite be_val_bytes, Z.mod_small. Qed.

(** [binary.LittleEndian]: [PutUint32], [PutUint64] and [Uint32], [Uint64]. *)
Definition le_bytes (n : nat) (v : Z) : list byte := reverse (be_bytes n v).
Definition le_val (l : list byte) : Z := be_val (reverse l).

Lemma le_val_bytes n v : (0 ≤ v < 256 ^ Z.of_nat n)%Z → le_val (le_bytes n v) = v.
Proof. intros Hv. unfold le_val, le_bytes. by rewrite reverse_involutive, be_val_bytes_small. Qed.
Lemma length_le_bytes n v : length (le_bytes n v) = n.
Proof. unfold le_bytes. by rewrite length_reverse, length_be_bytes. Qed.

Lemma be_val_inj l1 l2 : length l1 = length l2 → be_val l1 = be_val l2 → l1 = l2.
Proof.
  revert l2. induction l1 as [|a l1 IH]; intros [|b l2]; try done.
  rewrite !be_val_cons. simpl. intros [= Hl]. rewrite Hl. intros Hv.
  pose proof (be_val_range l1). pose proof (be_val_range l2). rewrite Hl in *.
  assert (byte_val a = byte_val b) by nia. f_equal; [by apply byte_val_inj|].
  apply IH; [done|lia].
Qed.

Lemma be_bytes_ext n v w :
  (v mod 256 ^ Z.of_nat n = w mod 256 ^ Z.of_nat n)%Z → be_bytes n v = be_bytes n w.
Proof.
  intros H. apply be_val_inj; [by rewrite !length_be_bytes|]. by rewrite !be_val_bytes.
Qed.

Lemma be_bytes_val l : be_bytes (length l) (be_val l) = l.
Proof.
  apply be_val_inj; [by rewrite length_be_bytes|].
  rewrite be_val_bytes. apply Z.mod_small, be_val_range.
Qed.
