(* ===== verification/GF.v ===== *)
(** The Galois field of the coding library.

    The field is the package [galoisfield] (a dependency, not under src/): the
    development takes its [Add], [Mul] and [Div] as the operations of the class
    [GaloisField] and the documented laws of GF(2^8) as [GaloisFieldLaws].
    [DefaultGF256] is a concrete field (shift-and-xor products modulo 0x11d) for
    which the laws hold; the witnesses and the examples of src/kodr/matrix/matrix_test.go are
    evaluated in it. *)

From Stdlib Require Import ZArith Lia Ring.
From Stdlib Require Import Strings.Byte.
From stdpp Require Import prelude numbers list.
From S2P Require Import Prelude.

Class GaloisField : Type := {
  gf_add : byte → byte → byte;
  gf_mul : byte → byte → byte;
  gf_div : byte → byte → byte
}.

Class GaloisFieldLaws `{GaloisField} : Prop := {
  gf_add_comm a b : gf_add a b = gf_add b a;
  gf_add_assoc a b c : gf_add a (gf_add b c) = gf_add (gf_add a b) c;
  gf_add_0_l a : gf_add x00 a = a;
  gf_add_diag a : gf_add a a = x00;
  gf_mul_comm a b : gf_mul a b = gf_mul b a;
  gf_mul_assoc a b c : gf_mul a (gf_mul b c) = gf_mul (gf_mul a b) c;
  gf_mul_1_l a : gf_mul x01 a = a;
  gf_mul_add_l a b c : gf_mul (gf_add a b) c = gf_add (gf_mul a c) (gf_mul b c);
  gf_div_mul a b : b ≠ x00 → gf_mul (gf_div a b) b = a
}.

Section laws.
Context `{GaloisFieldLaws}.

(** In characteristic two a byte is its own opposite. *)
Lemma gf_ring_theory :
  ring_theory x00 x01 gf_add gf_mul gf_add (λ a, a) (@eq byte).
Proof.
  split; auto using gf_add_0_l, gf_add_comm, gf_add_assoc, gf_mul_1_l, gf_mul_comm,
    gf_mul_assoc, gf_mul_add_l, gf_add_diag.
Qed.
Add Ring gf_ring : gf_ring_theory.

Lemma gf_mul_0_l a : gf_mul x00 a = x00.
Proof. ring. Qed.
Lemma gf_mul_0_r a : gf_mul a x00 = x00.
Proof. ring. Qed.
Lemma gf_add_0_r a : gf_add a x00 = a.
Proof. ring. Qed.
Lemma gf_mul_1_r a : gf_mul a x01 = a.
Proof. ring. Qed.

Lemma gf_add_eq_0 a b : gf_add a b = x00 → a = b.
Proof.
  intros E. assert (a = gf_add (gf_add a b) b) as ->.
  { rewrite <-gf_add_assoc, gf_add_diag, gf_add_0_r. done. }
  by rewrite E, gf_add_0_l.
Qed.

Lemma gf_add_cancel a b : gf_add (gf_add a b) b = a.
Proof. by rewrite <-gf_add_assoc, gf_add_diag, gf_add_0_r. Qed.

(** The quotient used by an elimination step cancels the entry. *)
Lemma gf_eliminate c p : p ≠ x00 → gf_add c (gf_mul p (gf_div c p)) = x00.
Proof. intros Hp. by rewrite (gf_mul_comm p), gf_div_mul, gf_add_diag. Qed.

Lemma gf_inverse p : p ≠ x00 → gf_mul p (gf_div x01 p) = x01.
Proof. intros Hp. by rewrite gf_mul_comm, gf_div_mul. Qed.

Lemma gf_mul_eq_0 a b : gf_mul a b = x00 → a ≠ x00 → b = x00.
Proof.
  intros E Ha. rewrite <-(gf_mul_1_l b), <-(gf_inverse a Ha).
  rewrite (gf_mul_comm a), <-gf_mul_assoc, E. ring.
Qed.

Lemma gf_inverse_nonzero p : p ≠ x00 → gf_div x01 p ≠ x00.
Proof.
  intros Hp E. pose proof (gf_inverse p Hp) as Hi. rewrite E, gf_mul_0_r in Hi. done.
Qed.
End laws.

Create Rewrite HintDb gf.
#[export] Hint Rewrite @gf_mul_0_l @gf_mul_0_r @gf_add_0_l @gf_add_0_r @gf_mul_1_l
  @gf_mul_1_r @gf_add_diag using typeclasses eauto : gf.

(** * A concrete field *)

Module GF256.
Definition xor (a b : byte) : byte := byte_of (Z.lxor (byte_val a) (byte_val b)).

(** Multiplication by the generator 2 modulo x^8 + x^4 + x^3 + x^2 + 1. *)
Definition xtime (a : byte) : byte :=
  let d := (2 * byte_val a)%Z in
  byte_of (if (256 <=? d)%Z then Z.lxor d 0x11d else d).

Fixpoint peasant (n : nat) (a : byte) (b : Z) : byte :=
  match n with
  | 0 => x00
  | S n => xor (if Z.odd b then a else x00) (peasant n (xtime a) (Z.div2 b))
  end.
Definition mul (a b : byte) : byte := peasant 8 a (byte_val b).

Definition all_bytes : list byte := Eval vm_compute in byte_of <$> seqZ 0 256.
Definition inv_table : list byte := Eval vm_compute in
  (λ b, default x00 (snd <$> list_find (λ a, mul a b = x01) all_bytes)) <$> all_bytes.
Definition inv (b : byte) : byte := nth (Z.to_nat (byte_val b)) inv_table x00.
Definition div (a b : byte) : byte := mul a (inv b).

Lemma forall_bytes (f : byte → bool) : forallb f all_bytes = true → ∀ b, f b = true.
Proof.
  intros Hf b. rewrite forallb_forall in Hf. apply Hf.
  rewrite <-(byte_of_val b). apply list_elem_of_In.
  replace all_bytes with (byte_of <$> seqZ 0 256) by (by vm_compute).
  apply list_elem_of_fmap. exists (byte_val b). split; [done|].
  apply elem_of_seqZ. pose proof (byte_val_range b). lia.
Qed.

Lemma eqb_true a b : Byte.eqb a b = true ↔ a = b.
Proof. split; [apply Byte.byte_dec_bl|apply Byte.byte_dec_lb]. Qed.

Lemma testbit_high a n : (0 ≤ a < 256)%Z → (8 ≤ n)%Z → Z.testbit a n = false.
Proof.
  intros Ha Hn. rewrite <-(Z.mod_small a (2 ^ 8)) by (simpl; lia).
  by apply Z.mod_pow2_bits_high.
Qed.

Lemma byte_val_xor a b : byte_val (xor a b) = Z.lxor (byte_val a) (byte_val b).
Proof.
  unfold xor. rewrite byte_val_of. apply Z.bits_inj'. intros n Hn.
  change 256%Z with (2 ^ 8)%Z. destruct (decide (n < 8)%Z).
  - by rewrite Z.mod_pow2_bits_low.
  - rewrite Z.mod_pow2_bits_high, Z.lxor_spec by lia.
    by rewrite !testbit_high by (apply byte_val_range || lia).
Qed.

Lemma xor_comm a b : xor a b = xor b a.
Proof. unfold xor. by rewrite Z.lxor_comm. Qed.
Lemma xor_assoc a b c : xor a (xor b c) = xor (xor a b) c.
Proof. apply byte_val_inj. by rewrite !byte_val_xor, Z.lxor_assoc. Qed.
Lemma xor_0_l a : xor x00 a = a.
Proof. apply byte_val_inj. by rewrite byte_val_xor. Qed.
Lemma xor_0_r a : xor a x00 = a.
Proof. by rewrite xor_comm, xor_0_l. Qed.
Lemma xor_diag a : xor a a = x00.
Proof. apply byte_val_inj. by rewrite byte_val_xor, Z.lxor_nilpotent. Qed.
Lemma xor_swap a b c d : xor (xor a b) (xor c d) = xor (xor a c) (xor b d).
Proof.
  rewrite !xor_assoc. f_equal. rewrite <-!xor_assoc. f_equal. apply xor_comm.
Qed.

(** The reduction is linear: it adds 0x1d exactly when the top bit leaves. *)
Lemma xtime_val a :
  byte_val (xtime a) =
    Z.lxor ((byte_val a * 2) mod 2 ^ 8) (if Z.testbit (byte_val a) 7 then 0x1d else 0).
Proof.
  apply Z.eqb_eq. revert a.
  apply (forall_bytes (λ a, Z.eqb (byte_val (xtime a))
    (Z.lxor ((byte_val a * 2) mod 2 ^ 8) (if Z.testbit (byte_val a) 7 then 0x1d else 0)))).
  by vm_compute.
Qed.

Lemma xtime_xor a b : xtime (xor a b) = xor (xtime a) (xtime b).
Proof.
  apply byte_val_inj. rewrite byte_val_xor, !xtime_val, byte_val_xor, Z.lxor_spec.
  set (x := byte_val a). set (y := byte_val b).
  assert ((Z.lxor x y * 2) mod 2 ^ 8 = Z.lxor ((x * 2) mod 2 ^ 8) ((y * 2) mod 2 ^ 8))%Z as ->.
  { apply Z.bits_inj'. intros n Hn. rewrite Z.lxor_spec.
    destruct (decide (n < 8)%Z).
    - rewrite !Z.mod_pow2_bits_low by lia. change 2%Z with (2 ^ 1)%Z.
      rewrite !Z.mul_pow2_bits by lia. by rewrite Z.lxor_spec.
    - by rewrite !Z.mod_pow2_bits_high by lia. }
  destruct (Z.testbit x 7), (Z.testbit y 7); simpl xorb; cbv iota;
    rewrite ?Z.lxor_0_r; rewrite ?Z.lxor_assoc; f_equal;
    rewrite ?(Z.lxor_comm 29), ?Z.lxor_assoc, ?Z.lxor_nilpotent, ?Z.lxor_0_r; done.
Qed.

Lemma peasant_xor n a a' z : peasant n (xor a a') z = xor (peasant n a z) (peasant n a' z).
Proof.
  revert a a' z. induction n as [|n IH]; intros a a' z; simpl; [by rewrite xor_0_l|].
  rewrite xtime_xor, IH. destruct (Z.odd z); [apply xor_swap|by rewrite !xor_0_l].
Qed.

Lemma mul_xor_l a b c : mul (xor a b) c = xor (mul a c) (mul b c).
Proof. apply peasant_xor. Qed.

Lemma peasant_lxor n a x y : peasant n a (Z.lxor x y) = xor (peasant n a x) (peasant n a y).
Proof.
  revert a x y. induction n as [|n IH]; intros a x y; simpl; [by rewrite xor_0_l|].
  rewrite !Z.div2_spec, Z.shiftr_lxor, IH, <-!Z.bit0_odd, Z.lxor_spec.
  assert ((if xorb (Z.testbit x 0) (Z.testbit y 0) then a else x00) =
    xor (if Z.testbit x 0 then a else x00) (if Z.testbit y 0 then a else x00)) as ->.
  { destruct (Z.testbit x 0), (Z.testbit y 0); simpl;
      by rewrite ?xor_diag, ?xor_0_l, ?xor_0_r. }
  apply xor_swap.
Qed.

Lemma mul_xor_r a b c : mul a (xor b c) = xor (mul a b) (mul a c).
Proof. unfold mul. rewrite byte_val_xor. apply peasant_lxor. Qed.

(** Every byte is a sum of the eight powers of two. *)
Definition basis : list byte := [x01; x02; x04; x08; x10; x20; x40; x80].

Definition bits (a : byte) : list byte :=
  List.filter (λ e, negb (Z.eqb (Z.land (byte_val a) (byte_val e)) 0)) basis.

Lemma byte_basis a : a = foldr xor x00 (bits a).
Proof.
  apply eqb_true. revert a.
  apply (forall_bytes (λ a, Byte.eqb a (foldr xor x00 (bits a)))). by vm_compute.
Qed.

Lemma linear_ind (P : byte → Prop) :
  P x00 → (∀ a b, P a → P b → P (xor a b)) → Forall P basis → ∀ a, P a.
Proof.
  intros H0 Hx Hb a. rewrite (byte_basis a).
  assert (Forall P (bits a)) as Hf.
  { rewrite Forall_forall in *. intros x Hin%list_elem_of_In. unfold bits in Hin.
    apply List.filter_In in Hin as [Hin%list_elem_of_In _]. auto. }
  induction Hf; simpl; auto.
Qed.

Lemma mul_0_l b : mul x00 b = x00.
Proof. rewrite <-(xor_diag x00), mul_xor_l. apply xor_diag. Qed.
Lemma mul_0_r a : mul a x00 = x00.
Proof. rewrite <-(xor_diag x00), mul_xor_r. apply xor_diag. Qed.

Lemma mul_comm a b : mul a b = mul b a.
Proof.
  revert b. pattern a. apply linear_ind.
  - intros b. by rewrite mul_0_l, mul_0_r.
  - intros x y Hx Hy b. by rewrite mul_xor_l, mul_xor_r, Hx, Hy.
  - repeat constructor; intros b; pattern b; (apply linear_ind;
      [by rewrite mul_0_l, mul_0_r
      |by intros x y Hx Hy; rewrite mul_xor_l, mul_xor_r, Hx, Hy
      |repeat constructor]).
Qed.

Lemma mul_assoc_basis :
  forallb (λ a, forallb (λ b, forallb (λ c,
    Byte.eqb (mul a (mul b c)) (mul (mul a b) c)) basis) basis) basis = true.
Proof. by vm_compute. Qed.

Lemma mul_assoc a b c : mul a (mul b c) = mul (mul a b) c.
Proof.
  pose proof mul_assoc_basis as Hall. rewrite forallb_forall in Hall.
  revert b c. pattern a. apply linear_ind; [..|apply Forall_forall; intros a' Ha].
  { intros b c. by rewrite !mul_0_l. }
  { intros x y Hx Hy b c. by rewrite !mul_xor_l, Hx, Hy. }
  specialize (Hall a' (proj1 (list_elem_of_In _ _) Ha)). rewrite forallb_forall in Hall.
  intros b. pattern b. apply linear_ind; [..|apply Forall_forall; intros b' Hb].
  { intros c. by rewrite mul_0_l, mul_0_r, mul_0_l. }
  { intros x y Hx Hy c. by rewrite mul_xor_l, !mul_xor_r, mul_xor_l, Hx, Hy. }
  specialize (Hall b' (proj1 (list_elem_of_In _ _) Hb)). rewrite forallb_forall in Hall.
  intros c. pattern c. apply linear_ind; [..|apply Forall_forall; intros c' Hc].
  { by rewrite !mul_0_r. }
  { intros x y Hx Hy. by rewrite !mul_xor_r, Hx, Hy. }
  by apply eqb_true, Hall, list_elem_of_In.
Qed.

Lemma inv_mul b : b ≠ x00 → mul (inv b) b = x01.
Proof.
  assert (Byte.eqb b x00 || Byte.eqb (mul (inv b) b) x01 = true) as Hf.
  { revert b. apply forall_bytes. by vm_compute. }
  intros Hb. rewrite <-eqb_true in Hb. apply not_true_is_false in Hb.
  rewrite Hb in Hf. by apply eqb_true.
Qed.
End GF256.

#[export] Instance DefaultGF256 : GaloisField := {|
  gf_add := GF256.xor; gf_mul := GF256.mul; gf_div := GF256.div |}.

#[export] Instance DefaultGF256_laws : GaloisFieldLaws.
Proof.
  split; simpl; auto using GF256.xor_comm, GF256.xor_assoc, GF256.xor_0_l, GF256.xor_diag,
    GF256.mul_comm, GF256.mul_assoc, GF256.mul_xor_l.
  - intros a. apply GF256.eqb_true. revert a.
    apply (GF256.forall_bytes (λ a, Byte.eqb (GF256.mul x01 a) a)). by vm_compute.
  - intros a b Hb. unfold GF256.div.
    rewrite <-GF256.mul_assoc, GF256.inv_mul, GF256.mul_comm by done.
    apply GF256.eqb_true. revert a.
    apply (GF256.forall_bytes (λ a, Byte.eqb (GF256.mul x01 a) a)). by vm_compute.
Qed.
