(* ===== verification/Linear.v ===== *)
(** Linear algebra over byte vectors: the specification level of the decoder.

    Rows are lists of bytes.  [axpy q src dst] is the row operation of the
    elimination loops (dst += q * src), [dot] the product of a coding vector
    with a column and [lincomb] the combination of pieces a coding vector
    denotes.  A relation between coefficient rows and coded rows is [linear]
    when row operations preserve it; [consistent] (the coded row is the
    combination of the original pieces) and [annihilates] (the row is
    orthogonal to a vector) are the two that the decoder's theorems use. *)

From Stdlib Require Import ZArith Lia Ring.
From Stdlib Require Import Strings.Byte.
From stdpp Require Import prelude numbers list.
From S2P Require Import Prelude GF.

Definition byte_at (v : list byte) (i : nat) : byte := nth i v x00.
Definition zeros (n : nat) : list byte := replicate n x00.

Lemma vec_eq u v :
  length u = length v → (∀ i, i < length u → byte_at u i = byte_at v i) → u = v.
Proof.
  unfold byte_at. revert v. induction u as [|a u IH]; intros [|b v]; try done.
  simpl. intros [= Hl] H. f_equal; [by apply (H 0); lia|].
  apply IH; [done|]. intros i Hi. apply (H (S i)). lia.
Qed.

Lemma byte_at_lookup v i b : v !! i = Some b → byte_at v i = b.
Proof. intros H. unfold byte_at. by apply nth_lookup_Some. Qed.

Lemma lookup_byte_at v i : i < length v → v !! i = Some (byte_at v i).
Proof.
  intros Hi. destruct (lookup_lt_is_Some_2 v i Hi) as [b Hb].
  by rewrite Hb, (byte_at_lookup _ _ _ Hb).
Qed.

Lemma byte_at_zeros n i : byte_at (zeros n) i = x00.
Proof. unfold byte_at, zeros. revert i. by induction n; intros [|i]; simpl. Qed.

Lemma byte_at_insert v i j b :
  i < length v → byte_at (<[i:=b]> v) j = if decide (i = j) then b else byte_at v j.
Proof.
  intros Hi. unfold byte_at. rewrite !nth_lookup. case_decide as Hij.
  - subst. by rewrite list_lookup_insert_eq.
  - by rewrite list_lookup_insert_ne.
Qed.

Lemma all_zero v n : length v = n → (∀ i, i < n → byte_at v i = x00) → v = zeros n.
Proof.
  intros Hl H. apply vec_eq; unfold zeros; rewrite ?length_replicate; [done|].
  intros i Hi. rewrite H by lia. symmetry. apply byte_at_zeros.
Qed.

Section linear.
Context `{GaloisFieldLaws}.
Add Ring gf_ring_linear : gf_ring_theory.

(** * Row operations *)

Definition axpy (q : byte) (src dst : list byte) : list byte :=
  zip_with (λ d s, gf_add d (gf_mul s q)) dst src.
Definition vscale (q : byte) (v : list byte) : list byte := (λ a, gf_mul a q) <$> v.
Fixpoint dot (c x : list byte) : byte :=
  match c, x with
  | a :: c, b :: x => gf_add (gf_mul a b) (dot c x)
  | _, _ => x00
  end.
Definition column (i : nat) (P : list (list byte)) : list byte := (λ p, byte_at p i) <$> P.

(** The combination of the pieces [P] (each of [L] bytes) with coefficients [c]. *)
Fixpoint lincomb_acc (acc c : list byte) (P : list (list byte)) : list byte :=
  match c, P with
  | a :: c, p :: P => lincomb_acc (axpy a p acc) c P
  | _, _ => acc
  end.
Definition lincomb (L : nat) (c : list byte) (P : list (list byte)) : list byte :=
  lincomb_acc (zeros L) c P.

Lemma length_axpy q s d : length s = length d → length (axpy q s d) = length d.
Proof. intros. unfold axpy. rewrite length_zip_with. lia. Qed.
Lemma length_vscale q v : length (vscale q v) = length v.
Proof. apply length_fmap. Qed.
Lemma length_column i P : length (column i P) = length P.
Proof. apply length_fmap. Qed.

Lemma byte_at_axpy q s d i :
  length s = length d → byte_at (axpy q s d) i = gf_add (byte_at d i) (gf_mul (byte_at s i) q).
Proof.
  unfold byte_at, axpy. revert s i. induction d as [|b d IH]; intros [|a s] [|i]; try done;
    simpl; intros Hl; try ring. apply IH. lia.
Qed.

Lemma byte_at_vscale q v i : byte_at (vscale q v) i = gf_mul (byte_at v i) q.
Proof.
  unfold byte_at, vscale. revert i. induction v as [|b v IH]; intros [|i]; simpl; try ring.
  apply IH.
Qed.

Lemma axpy_involutive q s d : length s = length d → axpy q s (axpy q s d) = d.
Proof.
  intros Hl. apply vec_eq.
  - rewrite !length_axpy; auto using length_axpy. by rewrite length_axpy.
  - intros i _. rewrite !byte_at_axpy by (rewrite ?length_axpy; done). apply gf_add_cancel.
Qed.

Lemma vscale_inverse p v : p ≠ x00 → vscale p (vscale (gf_div x01 p) v) = v.
Proof.
  intros Hp. apply vec_eq; rewrite !length_vscale; [done|]. intros i _.
  rewrite !byte_at_vscale, <-gf_mul_assoc, (gf_mul_comm _ p), gf_inverse by done. ring.
Qed.

(** * Dot products and combinations *)

Lemma dot_axpy q c c' x :
  length c = length c' → dot (axpy q c c') x = gf_add (dot c' x) (gf_mul (dot c x) q).
Proof.
  unfold axpy. revert c x. induction c' as [|b c' IH]; intros [|a c] [|y x]; try done; simpl;
    intros Hl; try ring. rewrite IH by lia. ring.
Qed.

Lemma dot_vscale q c x : dot (vscale q c) x = gf_mul (dot c x) q.
Proof.
  unfold vscale. revert x. induction c as [|a c IH]; intros [|y x]; simpl; try ring.
  rewrite IH. ring.
Qed.

Lemma dot_zeros_l n x : dot (zeros n) x = x00.
Proof.
  unfold zeros. revert x. induction n as [|n IH]; intros [|y x]; simpl; try done.
  rewrite IH. ring.
Qed.

Lemma dot_zeros_r n c : dot c (zeros n) = x00.
Proof.
  unfold zeros. revert c. induction n as [|n IH]; intros [|y x]; simpl; try done.
  rewrite IH. ring.
Qed.

(** A row with a single one selects an entry. *)
Lemma dot_unit c x i :
  length c = length x → i < length c → byte_at c i = x01 →
  (∀ j, j ≠ i → byte_at c j = x00) → dot c x = byte_at x i.
Proof.
  unfold byte_at. revert x i. induction c as [|a c IH]; intros [|y x] i Hl Hi Hone Hz;
    simpl in *; try lia. destruct i as [|i].
  - rewrite Hone. assert (c = zeros (length c)) as ->.
    { apply all_zero; [done|]. intros j Hj. apply (Hz (S j)). done. }
    rewrite dot_zeros_l. ring.
  - rewrite (Hz 0) by done. rewrite (IH x i); try lia; try done.
    + ring.
    + intros j Hj. apply (Hz (S j)). lia.
Qed.

Lemma length_lincomb_acc acc c P :
  Forall (λ p, length p = length acc) P → length (lincomb_acc acc c P) = length acc.
Proof.
  revert acc c. induction P as [|p P IH]; intros acc [|a c] HP; simpl; try done.
  apply Forall_cons in HP as [Hp HP]. rewrite IH; rewrite ?length_axpy; done.
Qed.

Lemma length_lincomb L c P : Forall (λ p, length p = L) P → length (lincomb L c P) = L.
Proof.
  intros HP. unfold lincomb. rewrite length_lincomb_acc; unfold zeros;
    by rewrite length_replicate.
Qed.

Lemma byte_at_lincomb_acc acc c P i :
  Forall (λ p, length p = length acc) P →
  byte_at (lincomb_acc acc c P) i = gf_add (byte_at acc i) (dot c (column i P)).
Proof.
  revert acc c. induction P as [|p P IH]; intros acc [|a c] HP; simpl; try ring.
  apply Forall_cons in HP as [Hp HP].
  rewrite IH by (rewrite length_axpy; done). rewrite byte_at_axpy by done. ring.
Qed.

Lemma byte_at_lincomb L c P i :
  Forall (λ p, length p = L) P → byte_at (lincomb L c P) i = dot c (column i P).
Proof.
  intros HP. unfold lincomb. rewrite byte_at_lincomb_acc.
  - rewrite byte_at_zeros. ring.
  - unfold zeros. by rewrite length_replicate.
Qed.

Lemma lincomb_axpy L q c c' P :
  Forall (λ p, length p = L) P → length c = length c' →
  lincomb L (axpy q c c') P = axpy q (lincomb L c P) (lincomb L c' P).
Proof.
  intros HP Hl. apply vec_eq.
  - rewrite length_axpy; by rewrite !length_lincomb.
  - intros i _. rewrite byte_at_axpy by (by rewrite !length_lincomb).
    by rewrite !byte_at_lincomb, dot_axpy.
Qed.

Lemma lincomb_vscale L q c P :
  Forall (λ p, length p = L) P → lincomb L (vscale q c) P = vscale q (lincomb L c P).
Proof.
  intros HP. apply vec_eq.
  - by rewrite length_vscale, !length_lincomb.
  - intros i _. by rewrite byte_at_vscale, !byte_at_lincomb, dot_vscale.
Qed.

Lemma byte_at_column i P k : byte_at (column i P) k = byte_at (nth k P []) i.
Proof.
  unfold byte_at, column. revert k. induction P as [|p P IH]; intros [|k]; simpl; try done;
    by destruct i.
Qed.

Lemma lincomb_unit L c P k :
  Forall (λ p, length p = L) P → length c = length P → k < length P →
  byte_at c k = x01 → (∀ j, j ≠ k → byte_at c j = x00) → lincomb L c P = nth k P [].
Proof.
  intros HP Hl Hk Hone Hz. apply vec_eq.
  - rewrite length_lincomb by done. destruct (nth_lookup_or_length P k []) as [Hn|]; [|lia].
    symmetry. by apply (Forall_lookup_1 _ _ _ _ HP Hn).
  - intros i _. rewrite byte_at_lincomb by done.
    rewrite (dot_unit _ _ k); rewrite ?length_column; try done; [|lia].
    apply byte_at_column.
Qed.

(** * Linear relations between coefficient rows and coded rows *)

Record linear (n L : nat) (R : list byte → list byte → Prop) : Prop := {
  linear_axpy q c p c' p' :
    length c = n → length c' = n → length p = L → length p' = L →
    R c p → R c' p' → R (axpy q c c') (axpy q p p');
  linear_vscale q c p : length c = n → length p = L → R c p → R (vscale q c) (vscale q p)
}.

Definition consistent (L : nat) (P : list (list byte)) (c p : list byte) : Prop :=
  p = lincomb L c P.
Definition annihilates (x : list byte) (c p : list byte) : Prop := dot c x = x00.

Lemma consistent_linear n L P : Forall (λ p, length p = L) P → linear n L (consistent L P).
Proof.
  intros HP. split; unfold consistent.
  - intros q c p c' p' Hc Hc' _ _ -> ->. by rewrite lincomb_axpy by (done || lia).
  - intros q c p _ _ ->. by rewrite lincomb_vscale.
Qed.

Lemma annihilates_linear n L x : linear n L (annihilates x).
Proof.
  split; unfold annihilates.
  - intros q c p c' p' Hc Hc' _ _ H1 H2. rewrite dot_axpy, H1, H2 by lia. ring.
  - intros q c p _ _ H1. rewrite dot_vscale, H1. ring.
Qed.

(** * A system with fewer equations than unknowns has a nonzero solution *)

Lemma dot_cross a b d : a ≠ x00 → gf_mul b (gf_div d a) = gf_mul d (gf_div b a).
Proof.
  intros Ha. apply gf_add_eq_0. apply (gf_mul_eq_0 a); [|done].
  replace (gf_mul a (gf_add (gf_mul b (gf_div d a)) (gf_mul d (gf_div b a))))
    with (gf_add (gf_mul b (gf_mul (gf_div d a) a)) (gf_mul d (gf_mul (gf_div b a) a))) by ring.
  rewrite !gf_div_mul by done. rewrite (gf_mul_comm b d). apply gf_add_diag.
Qed.

Definition reduce_row (a : byte) (r row : list byte) : list byte :=
  axpy (gf_div (byte_at row 0) a) r (tail row).

Lemma nonzero_head_or (M : list (list byte)) :
  Forall (λ c, byte_at c 0 = x00) M ∨
  ∃ M1 c M2, M = M1 ++ c :: M2 ∧ byte_at c 0 ≠ x00.
Proof.
  induction M as [|c M [IH|(M1 & c' & M2 & -> & Hc)]]; [by left|..].
  - destruct (decide (byte_at c 0 = x00)); [by left; constructor|].
    right. by exists [], c, M.
  - right. by exists (c :: M1), c', M2.
Qed.

Lemma underdetermined n (M : list (list byte)) :
  Forall (λ c, length c = n) M → length M < n →
  ∃ x, length x = n ∧ x ≠ zeros n ∧ Forall (λ c, dot c x = x00) M.
Proof.
  revert M. induction n as [|n IH]; intros M HM Hlen; [lia|].
  destruct (nonzero_head_or M) as [Hz|(M1 & c & M2 & -> & Hc)].
  - exists (x01 :: zeros n). split_and!; [simpl; unfold zeros; by rewrite length_replicate|done|].
    rewrite Forall_forall in *. intros c Hin. specialize (HM c Hin). specialize (Hz c Hin).
    destruct c as [|a c]; [done|]. unfold byte_at in Hz. simpl in *. subst a.
    rewrite dot_zeros_r. ring.
  - destruct c as [|a r]; [done|]. unfold byte_at in Hc. simpl in Hc.
    apply Forall_app in HM as [HM1 [Hr HM2]%Forall_cons].
    assert (Forall (λ c, length c = S n) (M1 ++ M2)) as HM by (by apply Forall_app).
    destruct (IH (reduce_row a r <$> (M1 ++ M2))) as (x & Hx & Hnz & Hk).
    + apply Forall_fmap. eapply Forall_impl; [exact HM|]. intros [|b s] Hs; [done|]. simpl in *.
      unfold reduce_row. rewrite length_axpy; simpl; lia.
    + rewrite length_fmap, length_app. rewrite length_app in Hlen. simpl in Hlen. lia.
    + exists (gf_div (dot r x) a :: x). split_and!; [by simpl; rewrite Hx|by intros [=]|].
      assert (∀ c, c ∈ M1 ++ M2 → dot c (gf_div (dot r x) a :: x) = x00) as Hrest.
      { intros c Hin. rewrite Forall_fmap, Forall_forall in Hk. specialize (Hk c Hin).
        rewrite Forall_forall in HM. specialize (HM c Hin).
        destruct c as [|b s]; [done|]. simpl in *. unfold reduce_row in Hk.
        unfold byte_at in Hk. simpl in Hk. rewrite dot_axpy in Hk by lia.
        rewrite dot_cross by done. rewrite gf_add_comm. exact Hk. }
      apply Forall_app; split; [|apply Forall_cons; split].
      * apply Forall_forall. intros c Hin. apply Hrest. set_solver.
      * simpl. rewrite (gf_mul_comm a), gf_div_mul by done. apply gf_add_diag.
      * apply Forall_forall. intros c Hin. apply Hrest. set_solver.
Qed.
End linear.
