(* ===== verification/KodrData.v ===== *)
(** Pieces, coded pieces and the splitting of a chunk (src/kodr/data.go,
    src/kodr/errors.go).

    Lengths and counts are the machine integers of the source ([uint] and
    [int] of 64 bits, with their conversions).  The float64 quotient under
    [math.Ceil] is the exact ceiling: for operands below 2^53 the rounding of
    the quotient never crosses an integer. *)

From Stdlib Require Import ZArith Lia.
From Stdlib Require Import Strings.Byte.
From stdpp Require Import prelude numbers list.
From S2P Require Import Prelude GF Linear.

Inductive KodrError : Type :=
| ErrMatrixDimensionMismatch
| ErrAllUsefulPiecesReceived
| ErrMoreUsefulPiecesRequired
| ErrCopyFailedDuringPieceConstruction
| ErrPieceCountMoreThanTotalBytes
| ErrZeroPieceSize
| ErrBadPieceCount
| ErrCodedDataLengthMismatch
| ErrCodingVectorLengthMismatch
| ErrPieceNotDecodedYet
| ErrPieceOutOfBound.

#[export] Instance KodrError_eq_dec : EqDecision KodrError.
Proof. solve_decision. Defined.

Abbreviation Piece := (list byte) (only parsing).

Record CodedPiece : Type := { Vector : list byte; Data : Piece }.

#[export] Instance CodedPiece_eq_dec : EqDecision CodedPiece.
Proof. solve_decision. Defined.

Open Scope Z_scope.

(** [p.Multiply(piece, by)]: p[i] += piece[i] * by for every index of piece;
    writing past the end of p panics. *)
Definition Multiply `{GaloisField} (p piece : Piece) (by_ : byte) : option Piece :=
  for_each (seq 0 (length piece)) (λ i p,
    d ← p !! i; s ← piece !! i; Some (<[i := gf_add d (gf_mul s by_)]> p)) p.

Definition Len (c : CodedPiece) : Z := u64 (zlen (Vector c) + zlen (Data c)).

Definition Flatten (c : CodedPiece) : option (list byte) :=
  res ← make_bytes (Len c);
  head ← slice res 0 (zlen (Vector c));
  tail ← slice res (zlen (Vector c)) (zlen res);
  Some (go_copy head (Vector c) ++ go_copy tail (Data c)).

(** The scan of [IsSystematic]: [pos] is -1 until the single 1 is found; the
    function returns early on a second 1 or on another symbol. *)
Fixpoint systematic_scan (i pos : Z) (v : list byte) : option Z :=
  match v with
  | [] => Some pos
  | b :: v =>
      if decide (b = x00) then systematic_scan (i + 1) pos v
      else if decide (b = x01) then
        if decide (pos ≠ -1) then None else systematic_scan (i + 1) i v
      else None
  end.

Definition IsSystematic (c : CodedPiece) : bool :=
  match systematic_scan 0 (-1) (Vector c) with
  | None => false
  | Some pos => bool_decide (0 ≤ pos) && bool_decide (pos < zlen (Vector c))
  end.

(** [rand.Read] fills the vector: the random source is the argument. *)
Definition GenerateCodingVector (rand : nat → list byte) (n : nat) : list byte := rand n.

(** [int(math.Ceil(float64(a) / float64(b)))] *)
Definition ceil_div (a b : Z) : Z := (a + b - 1) / b.

Definition OriginalPiecesFromDataAndPieceSize (data : list byte) (pieceSize : Z)
    : option (result KodrError (list Piece * Z)) :=
  if decide (pieceSize = 0) then Some (Err ErrZeroPieceSize)
  else if decide (zlen data ≤ i64 pieceSize) then Some (Err ErrBadPieceCount)
  else
    let pieceCount := ceil_div (zlen data) pieceSize in
    let total := i64 (pieceCount * i64 pieceSize) in
    let padding := u64 (total - zlen data) in
    data_ ← (if decide (0 < padding) then
               d ← make_bytes total;
               if decide (Z.min (zlen d) (zlen data) ≠ zlen data) then Some None
               else Some (Some (go_copy d data))
             else Some (Some data));
    match data_ with
    | None => Some (Err ErrCopyFailedDuringPieceConstruction)
    | Some data_ =>
        pieces ← mapM (λ i, slice data_ (i64 pieceSize * i) (i64 pieceSize * (i + 1)))
                   (seqZ 0 pieceCount);
        Some (Ok (pieces, padding))
    end.

Definition OriginalPiecesFromDataAndPieceCount (data : list byte) (pieceCount : Z)
    : option (result KodrError (list Piece * Z)) :=
  if decide (pieceCount < 2) then Some (Err ErrBadPieceCount)
  else if decide (zlen data < i64 pieceCount) then Some (Err ErrPieceCountMoreThanTotalBytes)
  else
    let pieceSize := ceil_div (zlen data) pieceCount in
    let padding := u64 (pieceCount * pieceSize - zlen data) in
    data_ ← (if decide (0 < padding) then
               d ← make_bytes (u64 (pieceSize * pieceCount));
               if decide (Z.min (zlen d) (zlen data) ≠ zlen data) then Some None
               else Some (Some (go_copy d data))
             else Some (Some data));
    match data_ with
    | None => Some (Err ErrCopyFailedDuringPieceConstruction)
    | Some data_ =>
        r ← OriginalPiecesFromDataAndPieceSize data_ pieceSize;
        match r with
        | Ok (splitted, _) => Some (Ok (splitted, padding))
        | Err e => Some (Err e)
        end
    end.

(** One coded piece of the byte string: its first [pct] bytes are the vector. *)
Definition parse_coded (pct : Z) (block : list byte) : option CodedPiece :=
  vector ← slice block 0 pct;
  piece ← slice block pct (zlen block);
  Some {| Vector := vector; Data := piece |}.

Definition CodedPiecesForRecoding (data : list byte) (pieceCount piecesCodedTogether : Z)
    : option (result KodrError (list CodedPiece)) :=
  if decide (i64 pieceCount = 0) then None
  else
    let codedPieceLength := Z.quot (zlen data) (i64 pieceCount) in
    if decide (i64 (codedPieceLength * i64 pieceCount) ≠ zlen data)
    then Some (Err ErrCodedDataLengthMismatch)
    else if decide (¬ piecesCodedTogether < u64 codedPieceLength)
    then Some (Err ErrCodingVectorLengthMismatch)
    else
      _ ← (if decide (0 ≤ i64 pieceCount) then Some tt else None);
      pieces ← mapM (λ i,
        codedPiece ← slice data (codedPieceLength * i) (codedPieceLength * (i + 1));
        parse_coded piecesCodedTogether codedPiece) (seqZ 0 (i64 pieceCount));
      Some (Ok pieces).

Close Scope Z_scope.

(** * Multiply accumulates a multiple of a piece *)

Lemma Multiply_axpy `{GaloisFieldLaws} (p piece : list byte) q :
  length p = length piece → Multiply p piece q = Some (axpy q piece p).
Proof.
  intros Hl. unfold Multiply.
  destruct (for_each_up
    (λ k v, length v = length p ∧ ∀ j, byte_at v j =
       if decide (j < k) then byte_at (axpy q piece p) j else byte_at p j)
    (λ i p, d ← p !! i; s ← piece !! i; Some (<[i := gf_add d (gf_mul s q)]> p))
    0 (length piece) p) as (v & -> & Hv & Hat).
  - split; [done|]. intros j. by rewrite decide_False by lia.
  - intros i v Hi [Hv Hat]. rewrite (lookup_byte_at v) by lia.
    rewrite (lookup_byte_at piece) by lia. simpl. eexists. split; [done|].
    split; [by rewrite length_insert|]. intros j. rewrite byte_at_insert by lia.
    case_decide as Hij.
    + subst j. rewrite decide_True, byte_at_axpy, Hat, decide_False by lia. done.
    + rewrite Hat. by repeat case_decide; try lia.
  - f_equal. apply vec_eq; [rewrite length_axpy; lia|]. intros i Hi.
    rewrite Hat, decide_True by lia. done.
Qed.

(** * Flatten *)

Lemma Flatten_spec c :
  (zlen (Vector c) + zlen (Data c) ≤ max_alloc)%Z → Flatten c = Some (Vector c ++ Data c).
Proof.
  unfold max_alloc. intros Hl. unfold Flatten, Len, make_bytes.
  unfold zlen in *. rewrite u64_small by lia. rewrite decide_True by (unfold max_alloc; lia).
  simpl. rewrite slice_ok by (unfold zlen; rewrite ?length_replicate; lia). simpl.
  rewrite slice_ok by (unfold zlen; rewrite ?length_replicate; lia). simpl.
  f_equal. unfold zlen.
  rewrite !go_copy_full by (rewrite ?drop_0, ?length_take, ?length_drop, ?length_replicate; lia).
  done.
Qed.

(** * IsSystematic recognises unit vectors *)

Definition is_unit (v : list byte) (k : nat) : Prop :=
  k < length v ∧ byte_at v k = x01 ∧ ∀ j, j ≠ k → byte_at v j = x00.

Lemma is_unit_cons_0 v k : is_unit (x00 :: v) (S k) ↔ is_unit v k.
Proof.
  unfold is_unit, byte_at. simpl. split; intros (Hk & Hone & Hz); split_and!; try lia; try done.
  - intros j Hj. apply (Hz (S j)). lia.
  - intros [|j] Hj; [done|]. apply Hz. lia.
Qed.

Lemma all_zero_cons b v : (∀ j, byte_at (b :: v) j = x00) ↔ b = x00 ∧ ∀ j, byte_at v j = x00.
Proof.
  unfold byte_at. split.
  - intros H. split; [exact (H 0)|]. intros j. exact (H (S j)).
  - intros [-> H] [|j]; [done|]. apply H.
Qed.

(** After a 1 was found at [pos], only zeros are accepted. *)
Lemma systematic_scan_found i pos v r :
  (pos ≠ -1)%Z →
  systematic_scan i pos v = Some r ↔ r = pos ∧ ∀ j, byte_at v j = x00.
Proof.
  intros Hpos. revert i. induction v as [|b v IH]; intros i; simpl.
  { split; [intros [= <-]|by intros [-> _]]. split; [done|]. by intros [|j]. }
  rewrite all_zero_cons. case_decide as Hb.
  - rewrite IH. tauto.
  - repeat case_decide; (split; [done|]); intros (_ & ? & _); done.
Qed.

Lemma systematic_scan_start i v r :
  (0 ≤ i)%Z →
  systematic_scan i (-1) v = Some r ↔
    (r = -1 ∧ ∀ j, byte_at v j = x00)%Z ∨
    (∃ k, r = i + Z.of_nat k ∧ is_unit v k)%Z.
Proof.
  revert i. induction v as [|b v IH]; intros i Hi; simpl.
  { split.
    - intros [= <-]. left. split; [done|]. by intros [|j].
    - intros [[-> _]|(k & _ & Hk & _)]; [done|simpl in Hk; lia]. }
  rewrite all_zero_cons. case_decide as Hb0; [subst|case_decide as Hb1].
  - rewrite IH by lia. split.
    + intros [(-> & Hz)|(k & -> & Hk)]; [by left|]. right. exists (S k).
      split; [lia|]. by apply is_unit_cons_0.
    + intros [(-> & _ & Hz)|([|k] & -> & Hk)]; [by left|by destruct Hk as (_ & ? & _)|].
      right. exists k. split; [lia|]. by apply is_unit_cons_0.
  - subst. rewrite systematic_scan_found by lia. split.
    + intros [-> Hz]. right. exists 0. split; [lia|]. split; [simpl; lia|]. split; [done|].
      intros [|j] Hj; [done|]. apply Hz.
    + intros [(_ & Habs & _)|([|k] & -> & Hk & Hone & Hz)]; [done| |].
      * split; [lia|]. intros j. by apply (Hz (S j)).
      * specialize (Hz 0). by discriminate Hz.
  - split; [done|]. intros [(_ & Habs & _)|([|k] & -> & Hk & Hone & Hz)]; [done|done|].
    by specialize (Hz 0 ltac:(done)).
Qed.

(** [IsSystematic] accepts exactly the coded pieces whose coding vector has
    a single nonzero symbol, equal to 1. *)
Theorem IsSystematic_spec c : IsSystematic c = true ↔ ∃ k, is_unit (Vector c) k.
Proof.
  unfold IsSystematic. destruct (systematic_scan 0 (-1) (Vector c)) as [r|] eqn:Hs.
  - apply systematic_scan_start in Hs as [[-> Hz]|(k & -> & Hk)]; [|split; [by eauto|]|done].
    + rewrite bool_decide_false by lia. split; [done|]. intros (k & _ & Hone & _). by rewrite Hz in Hone.
    + intros _. destruct Hk as (Hk & _). unfold zlen.
      by rewrite !bool_decide_true by lia.
  - split; [done|]. intros (k & Hk).
    assert (systematic_scan 0 (-1) (Vector c) = Some (0 + Z.of_nat k)%Z) as Hk'; [|congruence].
    apply systematic_scan_start; [done|]. right. eauto.
Qed.

(** * Splitting a chunk *)

Lemma ceil_div_spec a b :
  (0 < b → 0 ≤ a → a ≤ b * ceil_div a b < a + b)%Z.
Proof.
  intros Hb Ha. unfold ceil_div. pose proof (Z.div_mod (a + b - 1) b).
  pose proof (Z.mod_pos_bound (a + b - 1) b). lia.
Qed.

Lemma ceil_div_exact k b : (0 < b → ceil_div (k * b) b = k)%Z.
Proof.
  intros Hb. unfold ceil_div. replace (k * b + b - 1)%Z with (b - 1 + k * b)%Z by lia.
  rewrite Z.div_add, Z.div_small by lia. lia.
Qed.

(** Data whose length is a multiple of the piece size is cut without padding. *)
Lemma split_by_size_exact (data : list byte) (w c : Z) :
  (0 < w → 2 ≤ c → zlen data = c * w → c * w ≤ max_alloc →
  OriginalPiecesFromDataAndPieceSize data w =
    Some (Ok (chunks (Z.to_nat w) (Z.to_nat c) data, 0)))%Z.
Proof.
  unfold max_alloc. intros Hw Hc Hl Hmax. unfold OriginalPiecesFromDataAndPieceSize.
  assert (w ≤ c * w)%Z by nia. assert (w < c * w)%Z by nia.
  rewrite decide_False by lia. rewrite (i64_small w) by lia.
  rewrite decide_False by lia. rewrite Hl, ceil_div_exact by lia.
  rewrite i64_small by lia. rewrite Z.sub_diag. simpl.
  by rewrite mapM_seqZ_chunks_0 by lia.
Qed.

Lemma split_by_count_pieces (data : list byte) (pieceCount : Z) :
  (2 ≤ pieceCount ≤ zlen data)%Z → (2 * zlen data ≤ max_alloc)%Z →
  ∃ pieces padding w,
    OriginalPiecesFromDataAndPieceCount data pieceCount = Some (Ok (pieces, padding)) ∧
    zlen pieces = pieceCount ∧ 0 < w ∧ Forall (λ p, length p = w) pieces ∧
    concat pieces = data ++ zeros (Z.to_nat padding) ∧ (0 ≤ padding < pieceCount)%Z.
Proof.
  unfold max_alloc. intros Hpc Hmax. unfold OriginalPiecesFromDataAndPieceCount.
  pose proof (ceil_div_spec (zlen data) pieceCount) as Hc.
  set (w := ceil_div (zlen data) pieceCount) in *.
  assert (0 < w)%Z by nia. assert (pieceCount * w ≤ 2 * zlen data)%Z by nia.
  set (pad := (pieceCount * w - zlen data)%Z).
  assert (∃ data_, (if decide (0 < pad)%Z then
             d ← make_bytes (u64 (w * pieceCount));
             if decide (Z.min (zlen d) (zlen data) ≠ zlen data)%Z then Some None
             else Some (Some (go_copy d data))
           else Some (Some data)) = Some (Some data_) ∧
          data_ = data ++ zeros (Z.to_nat pad)) as (data_ & Hdata & Hd).
  { case_decide as Hp.
    - unfold make_bytes. rewrite u64_small, decide_True by (unfold max_alloc; lia). simpl.
      rewrite decide_False by (unfold zlen in *; rewrite length_replicate; lia).
      eexists. split; [done|]. unfold go_copy, zeros, zlen in *.
      rewrite length_replicate, take_ge, drop_replicate by lia. do 2 f_equal. lia.
    - exists data. split; [done|]. replace (Z.to_nat pad) with 0 by lia.
      by rewrite app_nil_r. }
  assert (zlen data_ = pieceCount * w)%Z as Hlen.
  { subst data_. unfold zlen, zeros in *. rewrite length_app, length_replicate. lia. }
  exists (chunks (Z.to_nat w) (Z.to_nat pieceCount) data_), pad, (Z.to_nat w).
  split_and!; try lia.
  - rewrite decide_False by lia. rewrite i64_small by lia. rewrite decide_False by lia.
    rewrite u64_small by lia. fold pad. rewrite Hdata. simpl.
    by rewrite (split_by_size_exact data_ w pieceCount) by (unfold max_alloc; lia).
  - unfold zlen. rewrite length_chunks. lia.
  - apply chunks_widths. unfold zlen in Hlen. nia.
  - rewrite concat_chunks; [done|]. unfold zlen in Hlen. nia.
Qed.

(** Splitting a chunk by piece count succeeds for every count between 2 and
    the length of the data; it returns that many pieces of equal size whose
    concatenation is the data followed by [padding] zero bytes, fewer of them
    than there are pieces. *)
Theorem split_by_count (data : list byte) (pieceCount : Z) :
  (2 ≤ pieceCount ≤ zlen data)%Z → (2 * zlen data ≤ max_alloc)%Z →
  ∃ pieces padding w,
    OriginalPiecesFromDataAndPieceCount data pieceCount = Some (Ok (pieces, padding)) ∧
    zlen pieces = pieceCount ∧ 0 < w ∧ Forall (λ p, length p = w) pieces ∧
    concat pieces = data ++ zeros (Z.to_nat padding) ∧ (0 ≤ padding < pieceCount)%Z.
Proof. apply split_by_count_pieces. Qed.

Lemma split_by_count_witness :
  (2 ≤ 3 ≤ zlen [x01; x02; x03; x04])%Z ∧
  OriginalPiecesFromDataAndPieceCount [x01; x02; x03; x04] 3 =
    Some (Ok ([[x01; x02]; [x03; x04]; [x00; x00]], 2%Z)) ∧
  ∃ pieces padding w,
    OriginalPiecesFromDataAndPieceCount [x01; x02; x03; x04] 3 = Some (Ok (pieces, padding)) ∧
    zlen pieces = 3%Z ∧ 0 < w ∧ Forall (λ p, length p = w) pieces ∧
    concat pieces = [x01; x02; x03; x04] ++ zeros (Z.to_nat padding) ∧ (0 ≤ padding < 3)%Z.
Proof.
  split; [by vm_compute|]. split; [by vm_compute|].
  apply (split_by_count [x01; x02; x03; x04] 3); by vm_compute.
Defined.

(** * Flattened coded pieces are parsed back *)

Definition flat (c : CodedPiece) : list byte := Vector c ++ Data c.

Lemma parse_coded_flat (n : nat) c :
  length (Vector c) = n → parse_coded (Z.of_nat n) (flat c) = Some c.
Proof.
  intros Hn. unfold parse_coded, flat, zlen. destruct c as [v d]; simpl in *.
  rewrite length_app. subst n.
  rewrite slice_ok by (unfold zlen; rewrite ?length_app; lia). simpl.
  rewrite slice_ok by (unfold zlen; rewrite ?length_app; lia). simpl.
  rewrite Z.sub_0_r, !Nat2Z.id, drop_0, take_app_length, drop_app_length.
  rewrite take_ge by lia. done.
Qed.

Lemma mapM_compose {A B C} (f : A → option B) (g : B → option C) l l' :
  mapM f l = Some l' → mapM (λ x, y ← f x; g y) l = mapM g l'.
Proof.
  intros H. apply mapM_Some in H. induction H as [|x y l l' Hx _ IH]; [done|].
  simpl. rewrite Hx. simpl. by rewrite IH.
Qed.

Lemma mapM_parse_coded n (cs : list CodedPiece) :
  Forall (λ c, length (Vector c) = n) cs →
  mapM (parse_coded (Z.of_nat n)) (flat <$> cs) = Some cs.
Proof.
  intros Hcs. apply mapM_Some, Forall2_fmap_l, Forall_Forall2_diag.
  eapply Forall_impl; [exact Hcs|]. intros c Hc. by apply parse_coded_flat.
Qed.

Lemma CodedPiecesForRecoding_parse (cs : list CodedPiece) (n L : nat) :
  cs ≠ [] → 0 < L → (Z.of_nat (length cs * (n + L)) < 2 ^ 63)%Z →
  Forall (λ c, length (Vector c) = n ∧ length (Data c) = L) cs →
  CodedPiecesForRecoding (concat (flat <$> cs)) (zlen cs) (Z.of_nat n) = Some (Ok cs).
Proof.
  intros Hne HL Hmax Hcs.
  assert (Forall (λ p, length p = n + L) (flat <$> cs)) as Hw.
  { apply Forall_fmap. eapply Forall_impl; [exact Hcs|]. intros c [Hv Hd]. simpl.
    unfold flat. rewrite length_app. lia. }
  assert (length (concat (flat <$> cs)) = length cs * (n + L)) as Hlen.
  { clear -Hw. induction cs as [|c cs IH]; [done|]. csimpl. rewrite fmap_cons in Hw.
    apply Forall_cons in Hw as [Hc Hw]. rewrite length_app, Hc, IH by done. done. }
  assert (0 < length cs) by (destruct cs; [done|simpl; lia]).
  unfold CodedPiecesForRecoding, zlen. rewrite Hlen.
  rewrite (i64_small (Z.of_nat (length cs))) by nia. rewrite decide_False by lia.
  assert (Z.quot (Z.of_nat (length cs * (n + L))) (Z.of_nat (length cs)) = Z.of_nat (n + L)) as ->.
  { rewrite Nat2Z.inj_mul, Z.mul_comm. apply Z.quot_mul. lia. }
  rewrite i64_small by nia. rewrite decide_False by (rewrite Nat2Z.inj_mul; lia).
  rewrite u64_small by nia. rewrite decide_False by lia. rewrite decide_True by lia. simpl.
  assert (mapM (λ i, slice (concat (flat <$> cs)) (Z.of_nat (n + L) * i)
      (Z.of_nat (n + L) * (i + 1))) (seqZ 0 (Z.of_nat (length cs))) = Some (flat <$> cs)) as Hm.
  { rewrite mapM_seqZ_chunks_0 by (unfold zlen; rewrite ?Hlen; nia).
    rewrite !Nat2Z.id. rewrite <-(length_fmap flat cs) at 1. by rewrite chunks_concat. }
  rewrite (mapM_compose _ (parse_coded (Z.of_nat n)) _ _ Hm).
  rewrite mapM_parse_coded; [done|].
  eapply Forall_impl; [exact Hcs|]. by intros c [Hv _].
Qed.

(** a byte string made of flattened coded pieces of one shape is parsed back
    into exactly these coded pieces. *)
Theorem CodedPiecesForRecoding_flat (cs : list CodedPiece) (n L : nat) :
  cs ≠ [] → 0 < L → (Z.of_nat (length cs * (n + L)) < 2 ^ 63)%Z →
  Forall (λ c, length (Vector c) = n ∧ length (Data c) = L) cs →
  CodedPiecesForRecoding (concat (flat <$> cs)) (zlen cs) (Z.of_nat n) = Some (Ok cs).
Proof. apply CodedPiecesForRecoding_parse. Qed.

Lemma CodedPiecesForRecoding_flat_witness :
  CodedPiecesForRecoding [x01; x00; x05; x06; x00; x01; x07; x08] 2 2 =
    Some (Ok [{| Vector := [x01; x00]; Data := [x05; x06] |};
              {| Vector := [x00; x01]; Data := [x07; x08] |}]).
Proof.
  apply (CodedPiecesForRecoding_flat
    [{| Vector := [x01; x00]; Data := [x05; x06] |};
     {| Vector := [x00; x01]; Data := [x07; x08] |}] 2 2); [done|lia|by vm_compute|].
  by repeat constructor.
Defined.
