(* ===== verification/KodrMatrix.v ===== *)
(** Matrices of bytes and the decoder state (src/kodr/matrix/matrix.go,
    src/kodr/matrix/decoder_state.go).

    The loops are the source's loops, over an [option] state in which an index
    out of range panics.  The goroutines spawned for the rows of one pivot (and
    the workers of [Multiply]) run in an order chosen by a [Scheduler]: every
    theorem holds for each of them.  The first half of the file holds the
    definitions; the second relates every loop to the row operations of
    Linear.v and shows that [Rref] keeps the solutions of the system. *)

From Stdlib Require Import ZArith Lia.
From Stdlib Require Import Strings.Byte.
From stdpp Require Import prelude numbers list.
From S2P Require Import Prelude GF Linear KodrData.

Abbreviation Matrix := (list (list byte)) (only parsing).

(** The order in which the spawned tasks run. *)
Class Scheduler : Type := {
  schedule : list nat → list nat;
  schedule_perm l : schedule l ≡ₚ l
}.

#[export] Instance sequential : Scheduler := {| schedule := λ l, l; schedule_perm l := reflexivity l |}.
#[export] Instance reversed : Scheduler | 100 :=
  {| schedule := reverse; schedule_perm l := reverse_Permutation l |}.

Section definitions.
Context `{GaloisField} `{Scheduler}.

(** ** matrix.go *)

Definition Rows (m : Matrix) : nat := length m.
Definition Cols (m : Matrix) : option nat := r ← m !! 0; Some (length r).

(** m[i][j] and m[i][j] = v *)
Definition get (m : Matrix) (i j : nat) : option byte := r ← m !! i; r !! j.
Definition set (m : Matrix) (i j : nat) (v : byte) : option Matrix :=
  r ← m !! i; _ ← r !! j; Some (<[i := <[j := v]> r]> m).

(** A scan with an early return: [None] when the loop runs to its end. *)
Fixpoint scan {A} (xs : list nat) (body : nat → option (option A)) : option (option A) :=
  match xs with
  | [] => Some None
  | x :: xs =>
      r ← body x;
      match r with Some a => Some (Some a) | None => scan xs body end
  end.

Definition Cmp (m m' : Matrix) : option bool :=
  c ← (if decide (Rows m = Rows m') then
         c1 ← Cols m; c2 ← Cols m'; Some (bool_decide (c1 = c2))
       else Some false);
  if c : bool then
    r ← scan (seq 0 (length m)) (λ i,
          row ← m !! i;
          scan (seq 0 (length row)) (λ j,
            a ← get m i j; b ← get m' i j;
            Some (if decide (a = b) then None else Some false)));
    Some (default true r)
  else Some false.

(** One row task of the worker pool. *)
Definition multiply_row (m with_ : Matrix) (wcols mcols i : nat) (mult : Matrix)
    : option Matrix :=
  for_each (seq 0 wcols) (λ j mult,
    for_each (seq 0 mcols) (λ k mult,
      d ← get mult i j; a ← get m i k; b ← get with_ k j;
      set mult i j (gf_add d (gf_mul a b))) mult) mult.

Definition MatrixMultiply (m with_ : Matrix) : option (result KodrError Matrix) :=
  mcols ← Cols m;
  if decide (mcols ≠ Rows with_) then Some (Err ErrMatrixDimensionMismatch)
  else
    wcols ← Cols with_;
    mult ← for_each (schedule (seq 0 (Rows m)))
             (λ i mult, multiply_row m with_ wcols mcols i mult)
             (replicate (Rows m) (zeros wcols));
    Some (Ok mult).

(** ** decoder_state.go *)

Record DecoderState : Type := {
  pieceCount : Z;
  coeffs : Matrix;
  coded : Matrix
}.

Definition swap_rows (m : Matrix) (i j : nat) : option Matrix :=
  a ← m !! i; b ← m !! j; Some (<[j := a]> (<[i := b]> m)).

(** for k := lo; k < hi; k++ { m[dst][k] = Add(m[dst][k], Mul(m[src][k], q)) } *)
Definition add_multiple (q : byte) (src dst lo hi : nat) (m : Matrix) : option Matrix :=
  for_each (seq lo (hi - lo)) (λ k m,
    d ← get m dst k; s ← get m src k; set m dst k (gf_add d (gf_mul s q))) m.

(** The goroutine that clears column [i] of row [j]. *)
Definition row_task (i cols j : nat) (st : Matrix * Matrix) : option (Matrix * Matrix) :=
  c ← get st.1 j i;
  p ← get st.1 i i;
  let quotient := gf_div c p in
  coeffs ← add_multiple quotient i j i cols st.1;
  first ← st.2 !! 0;
  coded ← add_multiple quotient i j 0 (length first) st.2;
  Some (coeffs, coded).

(** The rows for which a task is spawned: those with a nonzero entry. *)
Fixpoint spawned (m : Matrix) (i : nat) (js : list nat) : option (list nat) :=
  match js with
  | [] => Some []
  | j :: js =>
      c ← get m j i;
      tasks ← spawned m i js;
      Some (if decide (c = x00) then tasks else j :: tasks)
  end.

Definition eliminate (i cols : nat) (js : list nat) (st : Matrix * Matrix)
    : option (Matrix * Matrix) :=
  tasks ← spawned st.1 i js;
  for_each (schedule tasks) (λ j st, row_task i cols j st) st.

(** The search for a row with a nonzero entry in the pivot column. *)
Definition find_pivot (m : Matrix) (i : nat) (ps : list nat) : option (option nat) :=
  scan ps (λ p, c ← get m p i; Some (if decide (c ≠ x00) then Some p else None)).

Definition forward_column (rows cols i : nat) (st : Matrix * Matrix)
    : option (Matrix * Matrix) :=
  p ← get st.1 i i;
  if decide (p = x00) then
    pivot ← find_pivot st.1 i (seq (i + 1) (rows - (i + 1)));
    match pivot with
    | None => Some st
    | Some pivot =>
        coeffs ← swap_rows st.1 i pivot;
        coded ← swap_rows st.2 i pivot;
        eliminate i cols (seq (i + 1) (rows - (i + 1))) (coeffs, coded)
    end
  else eliminate i cols (seq (i + 1) (rows - (i + 1))) st.

Definition clean_forward (st : Matrix * Matrix) : option (Matrix * Matrix) :=
  let rows := Rows st.1 in
  cols ← Cols st.1;
  for_each (seq 0 (rows `min` cols)) (λ i st, forward_column rows cols i st) st.

(** The goroutine that divides the pivot row by the pivot. *)
Definition scale_task (i cols : nat) (inv : byte) (st : Matrix * Matrix)
    : option (Matrix * Matrix) :=
  coeffs ← for_each (seq (i + 1) (cols - (i + 1))) (λ j m,
    c ← get m i j;
    if decide (c = x00) then Some m else set m i j (gf_mul c inv)) st.1;
  first ← st.2 !! 0;
  coded ← for_each (seq 0 (length first)) (λ j m,
    c ← get m i j; set m i j (gf_mul c inv)) st.2;
  Some (coeffs, coded).

Definition backward_column (cols i : nat) (st : Matrix * Matrix) : option (Matrix * Matrix) :=
  p ← get st.1 i i;
  if decide (p = x00) then Some st
  else
    st ← eliminate i cols (seq 0 i) st;
    p ← get st.1 i i;
    if decide (p = x01) then Some st
    else
      let inv := gf_div x01 p in
      coeffs ← set st.1 i i x01;
      scale_task i cols inv (coeffs, st.2).

Definition clean_backward (st : Matrix * Matrix) : option (Matrix * Matrix) :=
  let rows := Rows st.1 in
  cols ← Cols st.1;
  for_each (reverse (seq 0 (rows `min` cols))) (λ i st, backward_column cols i st) st.

Definition row_is_zero (m : Matrix) (cols i : nat) : option bool :=
  r ← scan (seq 0 cols) (λ j,
    c ← get m i j; Some (if decide (c ≠ x00) then Some false else None));
  Some (default true r).

(** Removing row [i] shifts the later rows up and leaves [i] in place. *)
Fixpoint remove_loop (fuel cols i : nat) (st : Matrix * Matrix) : option (Matrix * Matrix) :=
  match fuel with
  | 0 => Some st
  | S fuel =>
      if decide (i < length st.1) then
        yes ← row_is_zero st.1 cols i;
        if yes : bool then
          _ ← st.2 !! i;
          remove_loop fuel cols i (delete i st.1, delete i st.2)
        else remove_loop fuel cols (i + 1) st
      else Some st
  end.

Definition remove_zero_rows (st : Matrix * Matrix) : option (Matrix * Matrix) :=
  cols ← Cols st.1;
  remove_loop (length st.1) cols 0 st.

Definition Rref (d : DecoderState) : option DecoderState :=
  st ← clean_forward (coeffs d, coded d);
  st ← clean_backward st;
  st ← remove_zero_rows st;
  Some {| pieceCount := pieceCount d; coeffs := st.1; coded := st.2 |}.

Definition Rank (d : DecoderState) : Z := Z.of_nat (Rows (coeffs d)).
Definition CoefficientMatrix (d : DecoderState) : Matrix := coeffs d.
Definition CodedPieceMatrix (d : DecoderState) : Matrix := coded d.

Definition state_AddPiece (d : DecoderState) (c : CodedPiece) : DecoderState :=
  {| pieceCount := pieceCount d;
     coeffs := coeffs d ++ [Vector c];
     coded := coded d ++ [Data c] |}.

(** The switch of [GetPiece]: [Some false] leaves the loop with decoded = false. *)
Definition decoded_cell (d : DecoderState) (idx : Z) (i : nat) : option (option bool) :=
  c ← get (coeffs d) (Z.to_nat idx) i;
  Some (if decide (Z.of_nat i = idx)
        then if decide (c ≠ x01) then Some false else None
        else if decide (c = x00) then Some false else None).

Definition state_GetPiece (d : DecoderState) (idx : Z) : option (result KodrError Piece) :=
  if decide (pieceCount d ≤ idx)%Z then Some (Err ErrPieceOutOfBound)
  else if decide (Z.of_nat (Rows (coeffs d)) ≤ idx)%Z then Some (Err ErrPieceNotDecodedYet)
  else if decide (pieceCount d ≤ Rank d)%Z then
    p ← index (coded d) idx; Some (Ok p)
  else
    cols ← Cols (coeffs d);
    decoded ← scan (seq 0 cols) (decoded_cell d idx);
    if default true decoded : bool then
      n ← Cols (coded d);
      p ← index (coded d) idx;
      Some (Ok (go_copy (zeros n) p))
    else Some (Err ErrPieceNotDecodedYet).

Definition NewDecoderStateWithPieceCount (n : Z) : DecoderState :=
  {| pieceCount := n; coeffs := []; coded := [] |}.
Definition NewDecoderState (c d : Matrix) : DecoderState :=
  {| pieceCount := Z.of_nat (length c); coeffs := c; coded := d |}.
End definitions.

(** * Rows, cells and shapes *)

Definition row (m : Matrix) (i : nat) : list byte := nth i m [].
Definition cell (m : Matrix) (i j : nat) : byte := byte_at (row m i) j.

Definition shape (r n L : nat) (st : Matrix * Matrix) : Prop :=
  length st.1 = r ∧ length st.2 = r ∧
  Forall (λ c, length c = n) st.1 ∧ Forall (λ p, length p = L) st.2.

Lemma lookup_row m i : i < length m → m !! i = Some (row m i).
Proof.
  intros Hi. destruct (lookup_lt_is_Some_2 m i Hi) as [v Hv]. rewrite Hv. f_equal.
  symmetry. by apply nth_lookup_Some.
Qed.

Lemma row_lookup m i v : m !! i = Some v → row m i = v.
Proof. intros. by apply nth_lookup_Some. Qed.

Lemma row_overflow m i : length m ≤ i → row m i = [].
Proof. apply nth_overflow. Qed.

Lemma row_insert m i v k :
  i < length m → row (<[i:=v]> m) k = if decide (i = k) then v else row m k.
Proof.
  intros Hi. unfold row. rewrite !nth_lookup. case_decide.
  - subst. by rewrite list_lookup_insert_eq.
  - by rewrite list_lookup_insert_ne.
Qed.

Lemma length_row w (m : Matrix) i : Forall (λ c, length c = w) m → i < length m → length (row m i) = w.
Proof. intros Hm Hi. apply (Forall_lookup_1 _ m i _ Hm (lookup_row m i Hi)). Qed.

Lemma byte_at_overflow v i : length v ≤ i → byte_at v i = x00.
Proof. apply nth_overflow. Qed.

Lemma cell_overflow_row m i j : length m ≤ i → cell m i j = x00.
Proof. intros. unfold cell. rewrite row_overflow by done. by destruct j. Qed.

Lemma cell_overflow_col w (m : Matrix) i j : Forall (λ c, length c = w) m → w ≤ j → cell m i j = x00.
Proof.
  intros Hm Hj. destruct (decide (i < length m)).
  - unfold cell. apply byte_at_overflow. by rewrite (length_row w).
  - apply cell_overflow_row. lia.
Qed.

Lemma get_cell m i j :
  i < length m → j < length (row m i) → get m i j = Some (cell m i j).
Proof.
  intros Hi Hj. unfold get. rewrite lookup_row by done. simpl. by apply lookup_byte_at.
Qed.

Lemma set_ok m i j v :
  i < length m → j < length (row m i) → set m i j v = Some (<[i := <[j:=v]> (row m i)]> m).
Proof.
  intros Hi Hj. unfold set. rewrite lookup_row by done. simpl.
  by rewrite lookup_byte_at.
Qed.

Lemma insert_row_id m i : i < length m → <[i:=row m i]> m = m.
Proof. intros Hi. apply list_insert_id. by apply lookup_row. Qed.

Lemma Forall_insert_row w (m : Matrix) i v :
  Forall (λ c, length c = w) m → length v = w → Forall (λ c, length c = w) (<[i:=v]> m).
Proof. intros Hm Hv. by apply Forall_insert. Qed.

Lemma Cols_ok r n L st : shape r n L st → 0 < r → Cols st.1 = Some n.
Proof.
  intros (Hr & _ & Hn & _) Hpos. unfold Cols. rewrite lookup_row by lia. simpl.
  by rewrite (length_row n) by (done || lia).
Qed.

Lemma coded_first_ok r n L st :
  shape r n L st → 0 < r → ∃ first, st.2 !! 0 = Some first ∧ length first = L.
Proof.
  intros (_ & Hr & _ & HL) Hpos. exists (row st.2 0). split; [apply lookup_row; lia|].
  apply (length_row L); [done|lia].
Qed.

Lemma shape_insert r n L M D i c p :
  shape r n L (M, D) → length c = n → length p = L → shape r n L (<[i:=c]> M, <[i:=p]> D).
Proof.
  intros (H1 & H2 & H3 & H4) Hc Hp. unfold shape; simpl in *.
  rewrite !length_insert. auto using Forall_insert_row.
Qed.

Lemma Forall2_rows R (M D : Matrix) :
  length M = length D → Forall2 R M D ↔ ∀ i, i < length M → R (row M i) (row D i).
Proof.
  intros Hl. split.
  - intros HR i Hi. eapply Forall2_lookup_lr; [exact HR|..]; apply lookup_row; lia.
  - intros HR. apply Forall2_same_length_lookup. split; [done|].
    intros i x y Hx Hy. apply row_lookup in Hx as Hx'. apply row_lookup in Hy as Hy'.
    subst. apply HR. by apply lookup_lt_Some in Hx.
Qed.

(** * States with the same linear relations *)

Section equiv.
Context `{GaloisFieldLaws}.

Definition rows_equiv (n L : nat) (st st' : Matrix * Matrix) : Prop :=
  ∀ R, linear n L R → Forall2 R st.1 st.2 ↔ Forall2 R st'.1 st'.2.

#[global] Instance rows_equiv_equivalence n L : Equivalence (rows_equiv n L).
Proof.
  split.
  - by intros st R HR.
  - intros st st' Heq R HR. by rewrite (Heq R HR).
  - intros st1 st2 st3 H1 H2 R HR. by rewrite (H1 R HR), (H2 R HR).
Qed.

Lemma rows_equiv_axpy r n L M D i j q :
  shape r n L (M, D) → i < r → j < r → i ≠ j →
  rows_equiv n L (M, D)
    (<[j:=axpy q (row M i) (row M j)]> M, <[j:=axpy q (row D i) (row D j)]> D).
Proof.
  intros (HM & HD & Hn & HL) Hi Hj Hij R [Haxpy _]. simpl in *.
  rewrite !Forall2_rows by (rewrite ?length_insert; lia). rewrite length_insert.
  assert (∀ i, i < r → length (row M i) = n) as Hrn
    by (intros; apply length_row; auto with lia).
  assert (∀ i, i < r → length (row D i) = L) as HrL
    by (intros; apply length_row; auto with lia).
  assert (length (row M i) = length (row M j)) by (rewrite !Hrn by done; done).
  assert (length (row D i) = length (row D j)) by (rewrite !HrL by done; done).
  split; intros HR k Hk.
  - rewrite !row_insert by lia. case_decide; [subst k|by apply HR].
    apply Haxpy; auto with lia; apply HR; lia.
  - pose proof (HR k Hk) as HRk. rewrite !row_insert in HRk by lia. case_decide; [subst k|done].
    pose proof (HR i ltac:(lia)) as HRi. rewrite !row_insert in HRi by lia.
    rewrite !decide_False in HRi by done.
    rewrite <-(axpy_involutive q (row M i) (row M j)) by done.
    rewrite <-(axpy_involutive q (row D i) (row D j)) by done.
    apply Haxpy; rewrite ?length_axpy by done; auto.
Qed.

Lemma rows_equiv_vscale r n L M D i p :
  shape r n L (M, D) → i < r → p ≠ x00 →
  rows_equiv n L (M, D)
    (<[i:=vscale (gf_div x01 p) (row M i)]> M, <[i:=vscale (gf_div x01 p) (row D i)]> D).
Proof.
  intros (HM & HD & Hn & HL) Hi Hp R [_ Hscale]. simpl in *.
  rewrite !Forall2_rows by (rewrite ?length_insert; lia). rewrite length_insert.
  assert (length (row M i) = n) by (apply length_row; auto with lia).
  assert (length (row D i) = L) by (apply length_row; auto with lia).
  split; intros HR k Hk.
  - rewrite !row_insert by lia. case_decide; [subst k|by apply HR].
    apply Hscale; auto.
  - pose proof (HR k Hk) as HRk. rewrite !row_insert in HRk by lia. case_decide; [subst k|done].
    rewrite <-(vscale_inverse p (row M i)), <-(vscale_inverse p (row D i)) by done.
    apply Hscale; rewrite ?length_vscale; auto.
Qed.

Definition swapped (m : Matrix) (i j : nat) : Matrix := <[j:=row m i]> (<[i:=row m j]> m).

Lemma row_swapped m i j k :
  i < length m → j < length m →
  row (swapped m i j) k =
    if decide (k = j) then row m i else if decide (k = i) then row m j else row m k.
Proof.
  intros Hi Hj. unfold swapped. rewrite row_insert by (by rewrite length_insert).
  rewrite row_insert by done. by repeat case_decide; subst.
Qed.

Lemma shape_swapped r n L M D i j :
  shape r n L (M, D) → i < r → j < r → shape r n L (swapped M i j, swapped D i j).
Proof.
  intros Hs Hi Hj. unfold swapped. pose proof Hs as (HM & HD & Hn & HL); simpl in *.
  apply shape_insert; [apply shape_insert; [done|..]|..]; apply length_row; auto with lia.
Qed.

Lemma rows_equiv_swapped r n L M D i j :
  shape r n L (M, D) → i < r → j < r →
  rows_equiv n L (M, D) (swapped M i j, swapped D i j).
Proof.
  intros (HM & HD & Hn & HL) Hi Hj R _. simpl in *.
  assert (∀ m, length (swapped m i j) = length m) as Hlen
    by (intros; unfold swapped; by rewrite !length_insert).
  rewrite !Forall2_rows by (rewrite ?Hlen; lia). rewrite Hlen.
  split; intros HR k Hk.
  - rewrite !row_swapped by lia. repeat case_decide; apply HR; lia.
  - destruct (decide (k = i)) as [->|]; [|destruct (decide (k = j)) as [->|]].
    + specialize (HR j). rewrite !row_swapped, !decide_True in HR by lia. apply HR. lia.
    + specialize (HR i). rewrite !row_swapped in HR by lia.
      destruct (decide (i = j)); [lia|]. rewrite !decide_True in HR by lia. apply HR. lia.
    + specialize (HR k). rewrite !row_swapped, !decide_False in HR by lia. auto.
Qed.
End equiv.

(** * The loops perform the row operations *)

Section loops.
Context `{GaloisFieldLaws} `{Scheduler}.

Lemma add_multiple_ok w q src dst lo (m : Matrix) :
  Forall (λ c, length c = w) m → src < length m → dst < length m → src ≠ dst → lo ≤ w →
  (∀ k, k < lo → cell m src k = x00) →
  add_multiple q src dst lo w m = Some (<[dst:=axpy q (row m src) (row m dst)]> m).
Proof.
  intros Hw Hsrc Hdst Hne Hlo Hz.
  assert (length (row m src) = w) as Hls by (by apply length_row).
  assert (length (row m dst) = w) as Hld by (by apply length_row).
  set (target := axpy q (row m src) (row m dst)).
  unfold add_multiple.
  destruct (for_each_up (λ k m', ∃ v, m' = <[dst:=v]> m ∧ length v = w ∧
      ∀ j, byte_at v j = if decide (j < k) then byte_at target j else cell m dst j)
    (λ k m, d ← get m dst k; s ← get m src k; set m dst k (gf_add d (gf_mul s q)))
    lo (w - lo) m) as (m' & -> & v & -> & Hv & Hat).
  - exists (row m dst). split_and!; [by rewrite insert_row_id|done|].
    intros j. case_decide as Hj; [|done].
    unfold target. rewrite byte_at_axpy by congruence.
    change (byte_at (row m src) j) with (cell m src j).
    by rewrite Hz, gf_mul_0_l, gf_add_0_r.
  - intros k m' Hk (v & -> & Hv & Hat).
    assert (row (<[dst:=v]> m) src = row m src) as Hrs
      by (by rewrite row_insert, decide_False by done).
    assert (row (<[dst:=v]> m) dst = v) as Hrd
      by (by rewrite row_insert, decide_True by done).
    rewrite !get_cell by (rewrite ?length_insert, ?Hrs, ?Hrd; lia). simpl.
    rewrite set_ok by (rewrite ?length_insert, ?Hrd; lia).
    eexists. split; [done|]. unfold cell. rewrite Hrs, Hrd.
    exists (<[k:=gf_add (byte_at v k) (gf_mul (byte_at (row m src) k) q)]> v).
    split_and!; [by rewrite list_insert_insert_eq|by rewrite length_insert|].
    intros j. rewrite byte_at_insert by lia. case_decide as Hkj.
    + subst j. rewrite decide_True by lia. unfold target.
      rewrite byte_at_axpy, Hat, decide_False by (congruence || lia). done.
    + rewrite Hat. by repeat case_decide; try lia.
  - do 2 f_equal. apply vec_eq; [unfold target; rewrite length_axpy; congruence|].
    intros k Hk. rewrite Hat, decide_True by lia. done.
Qed.

(** The row a task leaves at [j]. *)
Definition quotient (M : Matrix) (i j : nat) : byte := gf_div (cell M j i) (cell M i i).
Definition reduced (M : Matrix) (q : byte) (i j : nat) : list byte :=
  axpy q (row M i) (row M j).

Lemma row_task_ok r n L M D i j :
  shape r n L (M, D) → i < r → j < r → i ≠ j → i < n →
  (∀ k, k < i → cell M i k = x00) →
  row_task i n j (M, D) =
    Some (<[j:=reduced M (quotient M i j) i j]> M, <[j:=reduced D (quotient M i j) i j]> D).
Proof.
  intros Hs Hi Hj Hij Hin Hz. pose proof Hs as (HM & HD & Hn & HL); simpl in *.
  unfold row_task; simpl.
  rewrite !get_cell by (rewrite ?(length_row n); auto with lia). simpl.
  rewrite (add_multiple_ok n) by (auto with lia). simpl.
  destruct (coded_first_ok r n L (M, D) Hs) as (first & Hf & HfL); [lia|]. simpl in Hf.
  rewrite Hf. simpl. rewrite HfL. rewrite (add_multiple_ok L) by (auto with lia). done.
Qed.

Lemma length_reduced w (m : Matrix) q i j :
  Forall (λ c, length c = w) m → i < length m → j < length m → length (reduced m q i j) = w.
Proof.
  intros Hw Hi Hj. unfold reduced. rewrite length_axpy; by rewrite !(length_row w).
Qed.

Lemma cell_reduced w (m : Matrix) q i j k :
  Forall (λ c, length c = w) m → i < length m → j < length m →
  byte_at (reduced m q i j) k = gf_add (cell m j k) (gf_mul (cell m i k) q).
Proof.
  intros Hw Hi Hj. unfold reduced. rewrite byte_at_axpy; [done|]. by rewrite !(length_row w).
Qed.

(** Running the tasks of distinct rows, in the given order. *)
Lemma run_tasks_ok r n L i tasks st :
  shape r n L st → NoDup tasks → (∀ j, j ∈ tasks → j < r ∧ j ≠ i) → i < r → i < n →
  (∀ k, k < i → cell st.1 i k = x00) →
  ∃ st', for_each tasks (λ j st, row_task i n j st) st = Some st' ∧
    shape r n L st' ∧ rows_equiv n L st st' ∧
    (∀ j, row st'.1 j =
      if decide (j ∈ tasks) then reduced st.1 (quotient st.1 i j) i j else row st.1 j) ∧
    (∀ j, row st'.2 j =
      if decide (j ∈ tasks) then reduced st.2 (quotient st.1 i j) i j else row st.2 j).
Proof.
  intros Hs Hnd. revert st Hs. induction Hnd as [|j tasks Hj Hnd IH]; intros [M D] Hs Ht Hi Hin Hz.
  { exists (M, D). split_and!; try done; intros k; by rewrite decide_False by set_solver. }
  destruct (Ht j) as [Hjr Hji]; [set_solver|].
  pose proof Hs as (HM & HD & Hn & HL); simpl in *.
  rewrite (row_task_ok r n L) by auto. simpl.
  set (M1 := <[j:=_]> M). set (D1 := <[j:=_]> D).
  assert (∀ k, row M1 k = if decide (j = k) then reduced M (quotient M i j) i j else row M k) as Hr1
    by (intros; apply row_insert; lia).
  assert (∀ k, row D1 k = if decide (j = k) then reduced D (quotient M i j) i j else row D k) as Hd1
    by (intros; apply row_insert; lia).
  destruct (IH (M1, D1)) as (st' & Hrun & Hs' & Heq & Hrows & Hdrows).
  - apply shape_insert; [done|apply length_reduced; auto with lia..].
  - intros k Hk. apply Ht. set_solver.
  - done.
  - done.
  - intros k Hk. unfold cell. simpl. rewrite Hr1, decide_False by done. by apply Hz.
  - assert (∀ k, k ∈ j :: tasks ↔ k = j ∨ k ∈ tasks) as Hcons by (intros; apply elem_of_cons).
    exists st'. split_and!; [done|done| | |].
    + etransitivity; [|exact Heq]. by apply (rows_equiv_axpy r).
    + intros k. rewrite Hrows, (decide_ext _ _ _ _ (Hcons k)).
      unfold quotient, reduced, cell. simpl.
      rewrite !Hr1, (decide_False (P := j = i)) by done.
      by repeat case_decide; subst; naive_solver.
    + intros k. rewrite Hdrows, (decide_ext _ _ _ _ (Hcons k)).
      unfold quotient, reduced, cell. simpl.
      rewrite !Hd1, !Hr1, !(decide_False (P := j = i)) by done.
      by repeat case_decide; subst; naive_solver.
Qed.

Lemma spawned_ok n (m : Matrix) i js :
  Forall (λ c, length c = n) m → i < n → (∀ j, j ∈ js → j < length m) →
  spawned m i js = Some (filter (λ j, cell m j i ≠ x00) js).
Proof.
  intros Hn Hi. induction js as [|j js IH]; intros Hjs; simpl; [done|].
  rewrite get_cell by (rewrite ?(length_row n); auto; apply Hjs; set_solver). simpl.
  rewrite IH by (intros; apply Hjs; set_solver). simpl.
  rewrite filter_cons. repeat case_decide; done.
Qed.

(** The rows of [js] with an entry in column [i] are reduced by row [i]. *)
Lemma eliminate_rows r n L i js st :
  shape r n L st → NoDup js → (∀ j, j ∈ js → j < r ∧ j ≠ i) → i < r → i < n →
  (∀ k, k < i → cell st.1 i k = x00) →
  ∃ st', eliminate i n js st = Some st' ∧
    shape r n L st' ∧ rows_equiv n L st st' ∧
    (∀ j, row st'.1 j = if decide (cell st.1 j i ≠ x00 ∧ j ∈ js)
      then reduced st.1 (quotient st.1 i j) i j else row st.1 j) ∧
    (∀ j, row st'.2 j = if decide (cell st.1 j i ≠ x00 ∧ j ∈ js)
      then reduced st.2 (quotient st.1 i j) i j else row st.2 j).
Proof.
  intros Hs Hnd Hjs Hi Hin Hz. pose proof Hs as (HM & HD & Hn & HL).
  unfold eliminate. rewrite (spawned_ok n) by (auto; intros; rewrite HM; by apply Hjs). simpl.
  set (tasks := filter _ js). pose proof (schedule_perm tasks) as Hperm.
  assert (∀ j, j ∈ schedule tasks ↔ cell st.1 j i ≠ x00 ∧ j ∈ js) as Hin_tasks.
  { intros j. rewrite Hperm. unfold tasks. by rewrite list_elem_of_filter. }
  destruct (run_tasks_ok r n L i (schedule tasks) st)
    as (st' & Hrun & Hs' & Heq & Hrows & Hdrows); auto.
  { rewrite Hperm. by apply NoDup_filter. }
  { intros j [_ Hj]%Hin_tasks. by apply Hjs. }
  exists st'. split_and!; [done..| |]; intros j.
  - rewrite Hrows. by apply decide_ext.
  - rewrite Hdrows. by apply decide_ext.
Qed.

Lemma eliminate_ok r n L i js st :
  shape r n L st → NoDup js → (∀ j, j ∈ js → j < r ∧ j ≠ i) → i < r → i < n →
  (∀ k, k < i → cell st.1 i k = x00) → cell st.1 i i ≠ x00 →
  ∃ st', eliminate i n js st = Some st' ∧
    shape r n L st' ∧ rows_equiv n L st st' ∧
    ∀ j k, cell st'.1 j k =
      if decide (j ∈ js) then gf_add (cell st.1 j k) (gf_mul (cell st.1 i k) (quotient st.1 i j))
      else cell st.1 j k.
Proof.
  intros Hs Hnd Hjs Hi Hin Hz Hp. pose proof Hs as (HM & HD & Hn & HL).
  destruct (eliminate_rows r n L i js st) as (st' & He & Hs' & Heq & Hrows & _); auto.
  exists st'. split_and!; [done..|]. intros j k. unfold cell at 1. rewrite Hrows.
  destruct (decide (j ∈ js)) as [Hj|Hj].
  - destruct (Hjs j Hj) as [Hjr _]. case_decide as Ht.
    + apply (cell_reduced n); auto; lia.
    + assert (cell st.1 j i = x00) as Hzero
        by (destruct (decide (cell st.1 j i = x00)); [done|tauto]).
      assert (quotient st.1 i j = x00) as ->.
      { unfold quotient. rewrite Hzero. apply (gf_mul_eq_0 (cell st.1 i i)); [|done].
        by rewrite gf_mul_comm, gf_div_mul. }
      by rewrite gf_mul_0_r, gf_add_0_r.
  - rewrite decide_False; [done|]. tauto.
Qed.
End loops.

(** * Forward and backward elimination *)

Definition upper_to (b : nat) (m : Matrix) : Prop := ∀ k j, k < b → k < j → cell m j k = x00.

(** The columns from [i] on are cleared: a nonzero pivot is 1 and alone above. *)
Definition cleared_from (i b : nat) (m : Matrix) : Prop :=
  ∀ k, i ≤ k → k < b → cell m k k ≠ x00 →
    cell m k k = x01 ∧ ∀ j, j < k → cell m j k = x00.

Section elimination.
Context `{GaloisFieldLaws} `{Scheduler}.

Lemma find_pivot_ok n (m : Matrix) i ps :
  Forall (λ c, length c = n) m → i < n → (∀ p, p ∈ ps → p < length m) →
  (find_pivot m i ps = Some None ∧ ∀ p, p ∈ ps → cell m p i = x00) ∨
  (∃ p, find_pivot m i ps = Some (Some p) ∧ p ∈ ps ∧ cell m p i ≠ x00).
Proof.
  intros Hn Hi. unfold find_pivot. induction ps as [|p ps IH]; intros Hps; simpl.
  { left. split; [done|]. by intros p Hp%not_elem_of_nil. }
  rewrite get_cell by (rewrite ?(length_row n); auto; apply Hps; set_solver). simpl.
  case_decide as Hp; simpl.
  - right. exists p. split_and!; [done|set_solver|done].
  - destruct IH as [[-> Hall]|(q & -> & Hq & Hc)]; [set_solver|left|right].
    + split; [done|]. intros q [->|Hq]%elem_of_cons; [|auto].
      by destruct (decide (cell m p i = x00)).
    + exists q. split_and!; [done|set_solver|done].
Qed.

Lemma swap_rows_ok (m : Matrix) i j :
  i < length m → j < length m → swap_rows m i j = Some (swapped m i j).
Proof. intros Hi Hj. unfold swap_rows. by rewrite !lookup_row by done. Qed.

Lemma forward_eliminate_ok r n L i st :
  shape r n L st → i < r → i < n → upper_to i st.1 → cell st.1 i i ≠ x00 →
  ∃ st', eliminate i n (seq (i + 1) (r - (i + 1))) st = Some st' ∧
    shape r n L st' ∧ rows_equiv n L st st' ∧ upper_to (S i) st'.1.
Proof.
  intros Hs Hi Hin Hup Hp. pose proof Hs as (HM & HD & Hn & HL).
  destruct (eliminate_ok r n L i (seq (i + 1) (r - (i + 1))) st)
    as (st' & He & Hs' & Heq & Hc); auto.
  { apply NoDup_seq. }
  { intros j Hj%elem_of_seq. lia. }
  exists st'. split_and!; [done..|]. intros k j Hk Hkj. rewrite Hc.
  case_decide as Hj.
  - destruct (decide (k = i)) as [->|Hki]; [by apply gf_eliminate|].
    rewrite (Hup k j), (Hup k i) by lia. by rewrite gf_mul_0_l, gf_add_0_r.
  - destruct (decide (k = i)) as [->|Hki]; [|apply Hup; lia].
    apply cell_overflow_row. rewrite elem_of_seq in Hj. lia.
Qed.

Lemma forward_column_ok r n L i st :
  shape r n L st → i < r → i < n → upper_to i st.1 →
  ∃ st', forward_column r n i st = Some st' ∧
    shape r n L st' ∧ rows_equiv n L st st' ∧ upper_to (S i) st'.1.
Proof.
  intros Hs Hi Hin Hup. pose proof Hs as (HM & HD & Hn & HL).
  unfold forward_column.
  rewrite get_cell by (rewrite ?(length_row n); auto with lia). simpl.
  case_decide as Hp; [|by apply forward_eliminate_ok].
  destruct (find_pivot_ok n st.1 i (seq (i + 1) (r - (i + 1))))
    as [[-> Hall]|(p & -> & Hin_p & Hcp)]; auto; simpl.
  { intros p Hin_p%elem_of_seq. lia. }
  - exists st. split_and!; [done|done|done|]. intros k j Hk Hkj.
    destruct (decide (k = i)) as [->|]; [|apply Hup; lia].
    destruct (decide (j < r)); [apply Hall, elem_of_seq; lia|apply cell_overflow_row; lia].
  - rewrite elem_of_seq in Hin_p. destruct st as [M D]. simpl in *.
    rewrite !swap_rows_ok by lia. simpl.
    assert (shape r n L (swapped M i p, swapped D i p)) as Hs1
      by (apply shape_swapped; [done|lia..]).
    assert (∀ j, row (swapped M i p) j =
      if decide (j = p) then row M i else if decide (j = i) then row M p else row M j) as Hrow
      by (intros; apply row_swapped; lia).
    destruct (forward_eliminate_ok r n L i (swapped M i p, swapped D i p))
      as (st' & He & Hs' & Heq & Hup'); auto; simpl.
    + intros k j Hk Hkj. unfold cell. rewrite Hrow.
      repeat case_decide; apply Hup; lia.
    + unfold cell. rewrite Hrow, decide_False, decide_True by lia. done.
    + exists st'. split_and!; [done..| |done]. etransitivity; [|exact Heq].
      apply (rows_equiv_swapped r); [done|lia..].
Qed.

Lemma upper_to_full r n L st : shape r n L st → upper_to (r `min` n) st.1 → upper_to n st.1.
Proof.
  intros (HM & _ & Hn & _) Hup k j Hk Hkj. destruct (decide (k < r)); [apply Hup; lia|].
  apply cell_overflow_row. lia.
Qed.

Lemma clean_forward_ok r n L st :
  shape r n L st → 0 < r →
  ∃ st', clean_forward st = Some st' ∧
    shape r n L st' ∧ rows_equiv n L st st' ∧ upper_to n st'.1.
Proof.
  intros Hs Hr. unfold clean_forward. rewrite (Cols_ok r n L) by done. simpl.
  unfold Rows. pose proof Hs as (HM & _). rewrite HM.
  destruct (for_each_up (λ i st', shape r n L st' ∧ rows_equiv n L st st' ∧ upper_to i st'.1)
    (λ i st, forward_column r n i st) 0 (r `min` n) st) as (st' & -> & Hs' & Heq & Hup).
  - split_and!; [done|done|]. intros k j Hk. lia.
  - intros i st1 Hi (Hs1 & Heq1 & Hup1).
    destruct (forward_column_ok r n L i st1) as (st2 & -> & Hs2 & Heq2 & Hup2); auto with lia.
    exists st2. split_and!; [done..| |done]. by transitivity st1.
  - exists st'. split_and!; [done..|]. by apply (upper_to_full r n L).
Qed.

(** ** The division of the pivot row *)

Lemma scale_cells_ok w lo v (m : Matrix) i inv :
  Forall (λ c, length c = w) m → i < length m → length v = w → lo ≤ w →
  ∀ body, (∀ j v, lo ≤ j < w → length v = w →
    body j (<[i:=v]> m) = Some (<[i:=<[j:=gf_mul (byte_at v j) inv]> v]> m)) →
  ∃ v', for_each (seq lo (w - lo)) body (<[i:=v]> m) = Some (<[i:=v']> m) ∧ length v' = w ∧
    ∀ j, byte_at v' j = if decide (lo ≤ j) then gf_mul (byte_at v j) inv else byte_at v j.
Proof.
  intros Hw Hi Hv Hlo body Hbody.
  destruct (for_each_up (λ k m', ∃ u, m' = <[i:=u]> m ∧ length u = w ∧
      ∀ j, byte_at u j =
        if decide (lo ≤ j < k) then gf_mul (byte_at v j) inv else byte_at v j)
    body lo (w - lo) (<[i:=v]> m)) as (m' & -> & u & -> & Hu & Hat).
  - exists v. split_and!; [done..|]. intros j. by rewrite decide_False by lia.
  - intros k m' Hk (u & -> & Hu & Hat). rewrite Hbody by lia. eexists. split; [done|].
    eexists. split; [done|]. split; [by rewrite length_insert|]. intros j.
    rewrite byte_at_insert by lia. case_decide as Hkj.
    + subst j. rewrite decide_True, Hat, decide_False by lia. done.
    + rewrite Hat. by repeat case_decide; try lia.
  - exists u. split_and!; [done..|]. intros j. rewrite Hat.
    repeat case_decide; try lia; try done.
    rewrite byte_at_overflow by lia. by rewrite gf_mul_0_l.
Qed.

Lemma get_insert w (m : Matrix) i j v :
  i < length m → length v = w → j < w → get (<[i:=v]> m) i j = Some (byte_at v j).
Proof.
  intros Hi Hv Hj.
  rewrite get_cell; rewrite ?length_insert, ?row_insert, ?decide_True by done; try lia.
  unfold cell. by rewrite row_insert, decide_True by done.
Qed.

Lemma set_insert w (m : Matrix) i j v b :
  i < length m → length v = w → j < w →
  set (<[i:=v]> m) i j b = Some (<[i:=<[j:=b]> v]> m).
Proof.
  intros Hi Hv Hj.
  rewrite set_ok; rewrite ?length_insert, ?row_insert, ?decide_True by done; try lia.
  by rewrite list_insert_insert_eq.
Qed.

Lemma scale_task_ok r n L M D i p :
  shape r n L (M, D) → i < r → i < n → p ≠ x00 → cell M i i = p →
  (∀ k, k < i → cell M i k = x00) →
  ∃ M1, set M i i x01 = Some M1 ∧
    scale_task i n (gf_div x01 p) (M1, D) =
      Some (<[i:=vscale (gf_div x01 p) (row M i)]> M, <[i:=vscale (gf_div x01 p) (row D i)]> D).
Proof.
  intros Hs Hi Hin Hp Hpv Hz. pose proof Hs as (HM & HD & Hn & HL); simpl in *.
  assert (length (row M i) = n) as HMi by (apply length_row; auto with lia).
  assert (length (row D i) = L) as HDi by (apply length_row; auto with lia).
  set (inv := gf_div x01 p).
  exists (<[i:=<[i:=x01]> (row M i)]> M). split; [by rewrite set_ok by lia|].
  unfold scale_task; simpl.
  destruct (scale_cells_ok n (i + 1) (<[i:=x01]> (row M i)) M i inv) with
    (body := λ j m, c ← get m i j; if decide (c = x00) then Some m else set m i j (gf_mul c inv))
    as (v & -> & Hv & Hat); [done|lia|by rewrite length_insert|lia|..].
  { intros j v Hj Hv. rewrite (get_insert n) by lia. simpl. case_decide as Hc.
    - rewrite Hc, gf_mul_0_l, (list_insert_id v j); [done|].
      by rewrite lookup_byte_at, Hc by lia.
    - by rewrite (set_insert n) by lia. }
  simpl. destruct (coded_first_ok r n L (M, D) Hs) as (first & Hf & HfL); [lia|]. simpl in Hf.
  rewrite Hf. simpl. rewrite HfL.
  destruct (scale_cells_ok L 0 (row D i) D i inv) with
    (body := λ j m, c ← get m i j; set m i j (gf_mul c inv))
    as (u & Hfor & Hu & Hatu); [done|lia|done|lia|..].
  { intros j v' Hj Hv'. rewrite (get_insert L) by lia. simpl. by rewrite (set_insert L) by lia. }
  rewrite insert_row_id, Nat.sub_0_r in Hfor by lia. rewrite Hfor. simpl.
  do 2 f_equal; f_equal; apply vec_eq; rewrite ?length_vscale; try congruence; intros k _;
    rewrite byte_at_vscale.
  - rewrite Hat, byte_at_insert by lia. repeat case_decide; try lia; subst; try done.
    + symmetry. apply gf_inverse. done.
    + change (byte_at (row M i) k) with (cell M i k). rewrite Hz by lia. by rewrite gf_mul_0_l.
  - rewrite Hatu, decide_True by lia. done.
Qed.

Lemma backward_column_ok r n L i st b :
  shape r n L st → i < r → i < n → upper_to n st.1 → cleared_from (S i) b st.1 → b ≤ n →
  ∃ st', backward_column n i st = Some st' ∧
    shape r n L st' ∧ rows_equiv n L st st' ∧ upper_to n st'.1 ∧ cleared_from i b st'.1.
Proof.
  intros Hs Hi Hin Hup Hcl Hb. pose proof Hs as (HM & HD & Hn & HL).
  unfold backward_column.
  rewrite get_cell by (rewrite ?(length_row n); auto with lia). simpl.
  case_decide as Hp.
  { exists st. split_and!; [done|done|done|done|]. intros k Hk Hkb Hkp.
    destruct (decide (k = i)) as [->|]; [done|apply Hcl; lia || done]. }
  destruct (eliminate_ok r n L i (seq 0 i) st) as (st1 & -> & Hs1 & Heq1 & Hc1); auto.
  { apply NoDup_seq. }
  { intros j Hj%elem_of_seq. lia. }
  { intros k Hk. apply Hup; lia. }
  simpl. destruct st1 as [M D]. simpl in *. pose proof Hs1 as (HM1 & HD1 & Hn1 & HL1); simpl in *.
  assert (∀ j k, cell M j k = if decide (j < i) then
      gf_add (cell st.1 j k) (gf_mul (cell st.1 i k) (quotient st.1 i j))
      else cell st.1 j k) as Hc.
  { intros j k. rewrite Hc1.
    rewrite (decide_ext (j ∈ seq 0 i) (j < i)) by (rewrite elem_of_seq; lia).
    done. }
  assert (∀ k, cell M i k = cell st.1 i k) as Hci
    by (intros; by rewrite Hc, decide_False by lia).
  assert (upper_to n M) as Hup1.
  { intros k j Hk Hkj. rewrite Hc. case_decide; [|by apply Hup].
    rewrite (Hup k j), (Hup k i) by lia. by rewrite gf_mul_0_l, gf_add_0_r. }
  assert (∀ j, j < i → cell M j i = x00) as Hcol.
  { intros j Hj. rewrite Hc, decide_True by done. by apply gf_eliminate. }
  assert (cleared_from (S i) b M) as Hcl1.
  { intros k Hk Hkb Hkp. rewrite Hc, decide_False in Hkp by lia.
    destruct (Hcl k Hk Hkb Hkp) as [Hone Hzero]. split; [by rewrite Hc, decide_False by lia|].
    intros j Hj. rewrite Hc. rewrite (Hzero j), (Hzero i) by lia.
    case_decide; [|done]. by rewrite gf_mul_0_l, gf_add_0_r. }
  rewrite get_cell by (rewrite ?(length_row n); auto with lia). simpl.
  rewrite Hci. case_decide as Hone.
  { exists (M, D). split_and!; [done|done|done|done|]. intros k Hk Hkb Hkp.
    destruct (decide (k = i)) as [->|]; [by rewrite Hci|apply Hcl1; lia || done]. }
  destruct (scale_task_ok r n L M D i (cell st.1 i i)) as (M2 & -> & Hsc); auto.
  { intros k Hk. rewrite Hci. apply Hup; lia. }
  simpl. rewrite Hsc. eexists. split; [done|].
  set (inv := gf_div x01 (cell st.1 i i)) in *.
  assert (∀ j k, cell (<[i:=vscale inv (row M i)]> M) j k =
    if decide (i = j) then gf_mul (cell M i k) inv else cell M j k) as Hc2.
  { intros j k. unfold cell. rewrite row_insert by lia. case_decide; [|done].
    apply byte_at_vscale. }
  simpl. split_and!.
  - apply shape_insert; [done|..]; rewrite length_vscale; apply length_row; auto with lia.
  - etransitivity; [exact Heq1|]. by apply (rows_equiv_vscale r).
  - intros k j Hk Hkj. rewrite Hc2. case_decide; [subst j|by apply Hup1].
    rewrite Hup1 by lia. apply gf_mul_0_l.
  - intros k Hk Hkb Hkp. rewrite Hc2 in Hkp.
    destruct (decide (k = i)) as [->|Hki].
    + split; [rewrite Hc2, decide_True by done; rewrite Hci; by apply gf_inverse|].
      intros j Hj. rewrite Hc2, decide_False by lia. by apply Hcol.
    + rewrite decide_False in Hkp by done. destruct (Hcl1 k) as [Hk1 Hk0]; [lia|done|done|].
      split; [by rewrite Hc2, decide_False by done|]. intros j Hj. rewrite Hc2.
      case_decide; [|by apply Hk0]. rewrite Hk0 by lia. apply gf_mul_0_l.
Qed.

Lemma clean_backward_ok r n L st :
  shape r n L st → 0 < r → upper_to n st.1 →
  ∃ st', clean_backward st = Some st' ∧
    shape r n L st' ∧ rows_equiv n L st st' ∧
    upper_to n st'.1 ∧ cleared_from 0 (r `min` n) st'.1.
Proof.
  intros Hs Hr Hup. unfold clean_backward. rewrite (Cols_ok r n L) by done. simpl.
  unfold Rows. pose proof Hs as (HM & _). rewrite HM.
  destruct (for_each_down (λ i st', shape r n L st' ∧ rows_equiv n L st st' ∧
      upper_to n st'.1 ∧ cleared_from i (r `min` n) st'.1)
    (λ i st, backward_column n i st) (r `min` n) st) as (st' & -> & Hs' & Heq & Hup' & Hcl).
  - split_and!; [done|done|done|]. intros k Hk Hkb. lia.
  - intros i st1 Hi (Hs1 & Heq1 & Hup1 & Hcl1).
    destruct (backward_column_ok r n L i st1 (r `min` n)) as (st2 & -> & Hs2 & Heq2 & ? & ?);
      auto with lia.
    exists st2. split_and!; [done..| |done|done]. by transitivity st1.
  - exists st'. by split_and!.
Qed.
End elimination.

(** * Removal of the zero rows *)

Fixpoint drop_zero (n : nat) (M D : Matrix) : Matrix * Matrix :=
  match M, D with
  | c :: M, p :: D =>
      let '(M', D') := drop_zero n M D in
      if decide (c = zeros n) then (M', D') else (c :: M', p :: D')
  | _, _ => ([], [])
  end.

Section removal.
Context `{GaloisFieldLaws} `{Scheduler}.

Lemma row_is_zero_ok n (m : Matrix) i :
  i < length m → length (row m i) = n →
  row_is_zero m n i = Some (bool_decide (row m i = zeros n)).
Proof.
  intros Hi Hn. unfold row_is_zero.
  set (body := λ j, c ← get m i j; Some (if decide (c ≠ x00) then Some false else None)).
  assert (∀ j, j < n → body j = Some (if decide (cell m i j ≠ x00) then Some false else None))
    as Hbody by (intros; unfold body; by rewrite get_cell by lia).
  clearbody body.
  assert (∀ js, (∀ j, j ∈ js → j < n) →
    (scan js body = Some None ∧ ∀ j, j ∈ js → cell m i j = x00) ∨
    (scan js body = Some (Some false) ∧ ∃ j, j ∈ js ∧ cell m i j ≠ x00)) as Hscan.
  { induction js as [|j js IH]; intros Hjs; simpl.
    { left. split; [done|]. by intros j Hj%not_elem_of_nil. }
    rewrite Hbody by (apply Hjs; set_solver). simpl.
    case_decide as Hc; simpl.
    - right. split; [done|]. exists j. split; [set_solver|done].
    - destruct IH as [[-> Hall]|[-> (k & Hk & Hck)]]; [set_solver|left|right].
      + split; [done|]. intros k [->|Hk]%elem_of_cons; [|auto].
        by destruct (decide (cell m i j = x00)).
      + split; [done|]. exists k. split; [set_solver|done]. }
  destruct (Hscan (seq 0 n)) as [[-> Hall]|[-> (j & Hj & Hc)]]; simpl.
  - intros j Hj%elem_of_seq. lia.
  - f_equal. symmetry. apply bool_decide_eq_true. apply all_zero; [done|].
    intros j Hj. apply Hall, elem_of_seq. lia.
  - f_equal. symmetry. apply bool_decide_eq_false. intros E. apply Hc.
    unfold cell. rewrite E. apply byte_at_zeros.
Qed.

Lemma remove_loop_ok fuel n (M1 M2 D1 D2 : Matrix) :
  Forall (λ c, length c = n) M2 → length M1 = length D1 → length M2 = length D2 →
  length M2 ≤ fuel →
  remove_loop fuel n (length M1) (M1 ++ M2, D1 ++ D2) =
    Some (M1 ++ (drop_zero n M2 D2).1, D1 ++ (drop_zero n M2 D2).2).
Proof.
  revert M1 M2 D1 D2. induction fuel as [|fuel IH]; intros M1 M2 D1 D2 Hn Hl1 Hl2 Hf; simpl.
  { destruct M2; [|simpl in Hf; lia]. destruct D2; [|done]. by rewrite !app_nil_r. }
  destruct M2 as [|c M2], D2 as [|p D2]; try done.
  { rewrite decide_False by (rewrite app_nil_r; lia). by rewrite !app_nil_r. }
  apply Forall_cons in Hn as [Hc Hn]. simpl in Hl2, Hf.
  rewrite decide_True by (rewrite length_app; simpl; lia).
  assert (row (M1 ++ c :: M2) (length M1) = c) as Hrow
    by (apply row_lookup; by apply list_lookup_middle).
  rewrite row_is_zero_ok by (rewrite ?Hrow, ?length_app; simpl; auto; lia).
  rewrite Hrow. simpl. destruct (drop_zero n M2 D2) as [M' D'] eqn:Hd.
  destruct (decide (c = zeros n)) as [->|Hnz].
  - rewrite bool_decide_true by done.
    assert ((D1 ++ p :: D2) !! length M1 = Some p) as -> by (by apply list_lookup_middle).
    assert (delete (length M1) (D1 ++ p :: D2) = D1 ++ D2) as ->
      by (rewrite Hl1; apply delete_middle).
    simpl. rewrite delete_middle, IH by (done || lia). by rewrite Hd.
  - rewrite bool_decide_false by done.
    replace (length M1 + 1) with (length (M1 ++ [c])) by (rewrite length_app; simpl; lia).
    rewrite (cons_middle c M1 M2), (cons_middle p D1 D2), (app_assoc M1), (app_assoc D1).
    rewrite IH by (rewrite ?length_app; simpl; done || lia). by rewrite Hd, <-!app_assoc.
Qed.

Lemma remove_zero_rows_ok r n L M D :
  shape r n L (M, D) → 0 < r → remove_zero_rows (M, D) = Some (drop_zero n M D).
Proof.
  intros Hs Hr. unfold remove_zero_rows. rewrite (Cols_ok r n L) by done. simpl.
  destruct Hs as (HM & HD & Hn & _); simpl in *.
  pose proof (remove_loop_ok (length M) n [] M [] D) as Hloop. simpl in Hloop.
  rewrite Hloop by (done || lia). by destruct (drop_zero n M D).
Qed.

Lemma drop_zero_length n M D :
  length M = length D →
  length (drop_zero n M D).1 = length (drop_zero n M D).2 ∧
  length (drop_zero n M D).1 ≤ length M.
Proof.
  revert D. induction M as [|c M IH]; intros [|p D] Hl; simpl in *; try lia.
  destruct (IH D ltac:(lia)) as [IH1 IH2].
  destruct (drop_zero n M D) as [M' D']. simpl in *. case_decide; simpl; lia.
Qed.

Lemma drop_zero_unchanged n M D :
  length M = length D → length (drop_zero n M D).1 = length M → drop_zero n M D = (M, D).
Proof.
  revert D. induction M as [|c M IH]; intros [|p D] Hl; simpl in *; try done.
  destruct (drop_zero_length n M D ltac:(lia)) as [_ Hle].
  specialize (IH D ltac:(lia)). destruct (drop_zero n M D) as [M' D']. simpl in *.
  case_decide; simpl; intros Hlen; [lia|]. injection (IH ltac:(lia)) as -> ->. done.
Qed.

Lemma drop_zero_nonzero n M D : Forall (λ c, c ≠ zeros n) (drop_zero n M D).1.
Proof.
  revert D. induction M as [|c M IH]; intros [|p D]; simpl; try constructor.
  specialize (IH D). destruct (drop_zero n M D) as [M' D']. simpl in *.
  case_decide; simpl; [done|]. by constructor.
Qed.

Lemma drop_zero_Forall2 n (R : list byte → list byte → Prop) M D :
  Forall2 R M D → Forall2 R (drop_zero n M D).1 (drop_zero n M D).2.
Proof.
  induction 1 as [|c p M D HR _ IH]; simpl; [constructor|].
  destruct (drop_zero n M D) as [M' D']. simpl in *. case_decide; simpl; [done|].
  by constructor.
Qed.

Lemma drop_zero_kernel n M D x :
  length M = length D →
  Forall (λ c, dot c x = x00) M ↔ Forall (λ c, dot c x = x00) (drop_zero n M D).1.
Proof.
  revert D. induction M as [|c M IH]; intros [|p D] Hl; simpl in *; try done.
  specialize (IH D ltac:(lia)). destruct (drop_zero n M D) as [M' D']. simpl in *.
  rewrite Forall_cons, IH. case_decide as Hc; simpl; [|by rewrite Forall_cons].
  subst c. rewrite dot_zeros_l. tauto.
Qed.

Lemma drop_zero_app n M1 M2 D1 D2 :
  length M1 = length D1 → Forall (λ c, c = zeros n) M2 →
  drop_zero n (M1 ++ M2) (D1 ++ D2) = drop_zero n M1 D1.
Proof.
  revert D1. induction M1 as [|c M1 IH]; intros [|p D1] Hl Hz; simpl in *; try done.
  - revert D2. induction Hz as [|c M2 -> _ IHz]; intros [|p D2]; simpl; try done.
    rewrite IHz. by rewrite decide_True.
  - rewrite IH by (done || lia). done.
Qed.
End removal.

(** * [Rref] *)

Section rref.
Context `{GaloisFieldLaws} `{Scheduler}.

Lemma diagonal_nonzero n (m : Matrix) :
  length m = n → Forall (λ c, length c = n) m → Forall (λ c, c ≠ zeros n) m →
  upper_to n m → cleared_from 0 n m → ∀ k, k < n → cell m k k ≠ x00.
Proof.
  intros Hm Hn Hnz Hup Hcl. assert (∀ d k, k < n → n - k ≤ d → cell m k k ≠ x00) as Hd.
  { induction d as [|d IH]; intros k Hk Hdk; [lia|]. intros Hzero.
    rewrite Forall_forall in Hnz. apply (Hnz (row m k)).
    { apply list_elem_of_lookup. exists k. apply lookup_row. lia. }
    apply all_zero; [apply length_row; auto with lia|]. intros j Hj.
    change (byte_at (row m k) j) with (cell m k j).
    destruct (decide (j < k)); [apply Hup; lia|]. destruct (decide (j = k)) as [->|]; [done|].
    apply (Hcl j); [lia|done| |lia]. apply IH; lia. }
  intros k Hk. by apply (Hd (n - k)).
Qed.

Lemma unit_rows n (m : Matrix) :
  length m = n → Forall (λ c, length c = n) m → Forall (λ c, c ≠ zeros n) m →
  upper_to n m → cleared_from 0 n m → ∀ k, k < n → is_unit (row m k) k.
Proof.
  intros Hm Hn Hnz Hup Hcl k Hk. pose proof (diagonal_nonzero n m Hm Hn Hnz Hup Hcl) as Hd.
  split; [rewrite (length_row n); auto with lia|].
  destruct (Hcl k) as [Hone _]; [lia|done|by apply Hd|]. split; [done|]. intros j Hj.
  change (byte_at (row m k) j) with (cell m k j).
  destruct (decide (j < k)); [apply Hup; lia|].
  destruct (decide (j < n)); [|apply (cell_overflow_col n); [done|lia]].
  apply (Hcl j); [lia|done|by apply Hd|lia].
Qed.

Lemma take_rows_zero n (m : Matrix) :
  Forall (λ c, length c = n) m → upper_to n m → Forall (λ c, c = zeros n) (drop n m).
Proof.
  intros Hn Hup. apply Forall_lookup. intros i c Hc. rewrite lookup_drop in Hc.
  apply all_zero; [by apply (Forall_lookup_1 _ _ _ _ Hn Hc)|]. intros j Hj.
  rewrite <-(row_lookup _ _ _ Hc). apply Hup; lia.
Qed.

Definition dstate (d : DecoderState) : Matrix * Matrix := (coeffs d, coded d).
Definition kernel (m : Matrix) (x : list byte) : Prop := Forall (λ c, dot c x = x00) m.

Lemma kernel_Forall2 (st : Matrix * Matrix) x :
  length st.1 = length st.2 → kernel st.1 x ↔ Forall2 (annihilates x) st.1 st.2.
Proof.
  destruct st as [M D]. simpl. unfold kernel, annihilates. revert D.
  induction M as [|c M IH]; intros [|p D] Hl; simpl in *; try done.
  rewrite Forall_cons, Forall2_cons, (IH D) by lia. done.
Qed.

(** The whole of [Rref]: it returns, keeps the rectangular shape with no zero
    row, every linear relation of the rows and the kernel; when as many rows as
    columns are left, they are the unit rows. *)
Lemma Rref_ok r n L d :
  shape r n L (dstate d) → 0 < r →
  ∃ d' r', Rref d = Some d' ∧ pieceCount d' = pieceCount d ∧
    shape r' n L (dstate d') ∧ r' ≤ r ∧ r' ≤ n ∧
    (∀ R, linear n L R → Forall2 R (coeffs d) (coded d) → Forall2 R (coeffs d') (coded d')) ∧
    (∀ x, kernel (coeffs d) x ↔ kernel (coeffs d') x) ∧
    Forall (λ c, c ≠ zeros n) (coeffs d') ∧
    (r' = n → ∀ k, k < n → is_unit (row (coeffs d') k) k).
Proof.
  intros Hs Hr. unfold Rref.
  destruct (clean_forward_ok r n L (dstate d)) as (st1 & Hf & Hs1 & Heq1 & Hup1); auto.
  destruct (clean_backward_ok r n L st1) as ([M D] & Hb & Hs2 & Heq2 & Hup2 & Hcl2); auto.
  unfold dstate in Hf. rewrite Hf. simpl. rewrite Hb. simpl.
  rewrite (remove_zero_rows_ok r n L) by done. simpl.
  pose proof Hs2 as (HM & HD & Hn & HL); simpl in *.
  destruct (drop_zero_length n M D) as [Hl1 Hl2]; [lia|].
  assert (rows_equiv n L (dstate d) (M, D)) as Heq by (etransitivity; [exact Heq1|exact Heq2]).
  pose proof (take_rows_zero n M Hn Hup2) as Hz.
  assert (drop_zero n M D = drop_zero n (take n M) (take n D)) as Htake.
  { rewrite <-(take_drop n M) at 1. rewrite <-(take_drop n D) at 1.
    apply drop_zero_app; [rewrite !length_take; lia|done]. }
  destruct (drop_zero_length n (take n M) (take n D)) as [_ Hl3]; [rewrite !length_take; lia|].
  rewrite <-Htake, length_take in Hl3.
  eexists _, (length (drop_zero n M D).1). split_and!; [done|done| |lia|lia|..]; simpl.
  - split_and!; simpl; [done|done|..].
    + clear -Hn. revert D. induction Hn as [|c M Hc Hn IH]; intros [|p D]; simpl; try constructor.
      specialize (IH D). destruct (drop_zero n M D). by case_decide; simpl; [|constructor].
    + clear -HL. revert M. induction HL as [|p D Hp HL IH]; intros [|c M]; simpl; try constructor.
      specialize (IH M). destruct (drop_zero n M D). by case_decide; simpl; [|constructor].
  - intros R HR HRd. apply drop_zero_Forall2. by apply (Heq R HR).
  - intros x. unfold kernel at 2. rewrite <-(drop_zero_kernel n M D x) by lia.
    change (kernel (dstate d).1 x ↔ kernel (M, D).1 x).
    rewrite (kernel_Forall2 (dstate d)) by (destruct Hs as (-> & -> & _); done).
    rewrite (kernel_Forall2 (M, D)) by (simpl; lia). apply Heq, annihilates_linear.
  - apply drop_zero_nonzero.
  - intros Hrn. assert (drop_zero n M D = (take n M, take n D)) as Hall.
    { rewrite Htake. apply drop_zero_unchanged; rewrite ?length_take; [lia|].
      rewrite <-Htake. lia. }
    pose proof (drop_zero_nonzero n M D) as Hnz. rewrite Hall in Hnz, Hrn |- *. simpl in *.
    rewrite length_take in Hrn.
    assert (∀ k j, k < n → cell (take n M) k j = cell M k j) as Hcell.
    { intros k j Hk. unfold cell, row. by rewrite !nth_lookup, lookup_take_lt by lia. }
    apply unit_rows; [rewrite length_take; lia|by apply Forall_take|done|..].
    + intros k j Hk Hkj. destruct (decide (j < n)); [rewrite Hcell by lia; by apply Hup2|].
      apply cell_overflow_row. rewrite length_take. lia.
    + intros k Hk0 Hk Hp. rewrite Hcell in Hp |- * by lia.
      destruct (Hcl2 k) as [Hone Hzero]; [lia|lia|done|]. split; [done|].
      intros j Hj. rewrite Hcell by lia. by apply Hzero.
Qed.
End rref.

(** * [Multiply] *)

Section multiply.
Context `{GaloisFieldLaws} `{Scheduler}.
Add Ring gf_ring_multiply : gf_ring_theory.

Lemma dot_take_S (c x : list byte) k :
  k < length c → k < length x →
  dot (take (S k) c) x = gf_add (dot (take k c) x) (gf_mul (byte_at c k) (byte_at x k)).
Proof.
  unfold byte_at. revert x k. induction c as [|a c IH]; intros [|b x] [|k]; simpl; try lia.
  - intros _ _. ring.
  - intros Hc Hx. rewrite (IH x k) by lia. ring.
Qed.

Lemma dot_take_full (c x : list byte) : dot (take (length c) c) x = dot c x.
Proof. by rewrite take_ge. Qed.

(** The product row: entry [j] is the dot product with column [j]. *)
Lemma multiply_row_ok (m w : Matrix) (mult : Matrix) wc i :
  Forall (λ r, length r = length w) m → Forall (λ r, length r = wc) w →
  i < length m → i < length mult → row mult i = zeros wc →
  multiply_row m w wc (length w) i mult = Some (<[i:=lincomb wc (row m i) w]> mult).
Proof.
  intros Hm Hw Him Hi Hz. set (c := row m i).
  assert (length c = length w) as Hc by (by apply length_row).
  unfold multiply_row.
  destruct (for_each_up (λ j mult', ∃ v, mult' = <[i:=v]> mult ∧ length v = wc ∧
      ∀ j', byte_at v j' = if decide (j' < j) then dot c (column j' w) else x00)
    (λ j mult, for_each (seq 0 (length w)) (λ k mult,
      d ← get mult i j; a ← get m i k; b ← get w k j;
      set mult i j (gf_add d (gf_mul a b))) mult) 0 wc mult)
    as (mult' & -> & v & -> & Hv & Hat).
  - exists (zeros wc). rewrite <-Hz, insert_row_id by done.
    rewrite Hz. unfold zeros. split_and!; [done|by rewrite length_replicate|].
    intros j'. rewrite decide_False by lia. apply byte_at_zeros.
  - intros j mult1 Hj (v & -> & Hv & Hat).
    destruct (for_each_up (λ k mult', ∃ u, mult' = <[i:=u]> mult ∧ length u = wc ∧
        ∀ j', byte_at u j' = if decide (j' = j) then dot (take k c) (column j w) else byte_at v j')
      (λ k mult, d ← get mult i j; a ← get m i k; b ← get w k j;
        set mult i j (gf_add d (gf_mul a b))) 0 (length w) (<[i:=v]> mult))
      as (mult2 & -> & u & -> & Hu & Hatu).
    + exists v. split_and!; [done..|]. intros j'. case_decide; [|done]. subst j'.
      by rewrite Hat, decide_False, take_0 by lia.
    + intros k mult2 Hk (u & -> & Hu & Hatu).
      rewrite (get_insert wc) by lia. simpl.
      rewrite (get_cell m) by (fold c; lia). simpl.
      rewrite (get_cell w) by (rewrite ?(length_row wc); auto; lia). simpl.
      rewrite (set_insert wc) by lia. eexists. split; [done|].
      eexists. split; [done|]. split; [by rewrite length_insert|]. intros j'.
      rewrite byte_at_insert by lia. rewrite (decide_ext (j = j') (j' = j)) by lia.
      case_decide; [|by rewrite Hatu, decide_False by done]. subst j'.
      rewrite Hatu, decide_True by done.
      rewrite dot_take_S by (rewrite ?length_column; lia). f_equal. f_equal.
      by rewrite byte_at_column.
    + eexists. split; [done|]. exists u. split_and!; [done..|]. intros j'.
      rewrite Hatu, Hat. simpl. rewrite <-Hc, dot_take_full.
      repeat case_decide; subst; try lia; done.
  - do 2 f_equal. apply vec_eq; [by rewrite length_lincomb|]. intros j Hj.
    rewrite Hat, decide_True, byte_at_lincomb by (done || lia). done.
Qed.

Lemma multiply_tasks_ok (m w : Matrix) wc tasks mult :
  Forall (λ r, length r = length w) m → Forall (λ r, length r = wc) w →
  NoDup tasks → (∀ i, i ∈ tasks → i < length m) → length mult = length m →
  (∀ i, i ∈ tasks → row mult i = zeros wc) →
  ∃ mult', for_each tasks (λ i mult, multiply_row m w wc (length w) i mult) mult = Some mult' ∧
    length mult' = length m ∧
    ∀ i, row mult' i = if decide (i ∈ tasks) then lincomb wc (row m i) w else row mult i.
Proof.
  intros Hm Hw Hnd. revert mult. induction Hnd as [|i tasks Hi Hnd IH]; intros mult Ht Hl Hz.
  { exists mult. split_and!; [done..|]. intros j. by rewrite decide_False by set_solver. }
  assert (i < length m) as Him by (apply Ht; set_solver). simpl.
  rewrite multiply_row_ok by (auto; try lia; apply Hz; set_solver). simpl.
  set (mult1 := <[i:=_]> mult).
  assert (∀ j, row mult1 j = if decide (i = j) then lincomb wc (row m i) w else row mult j) as Hr
    by (intros; apply row_insert; lia).
  destruct (IH mult1) as (mult' & -> & Hlen & Hrows).
  - intros j Hj. apply Ht. set_solver.
  - unfold mult1. by rewrite length_insert.
  - intros j Hj. rewrite Hr, decide_False by (intros ->; done). apply Hz. set_solver.
  - exists mult'. split_and!; [done..|]. intros j.
    assert (j ∈ i :: tasks ↔ j = i ∨ j ∈ tasks) as Hcons by apply elem_of_cons.
    rewrite Hrows, Hr, (decide_ext _ _ _ _ Hcons).
    by repeat case_decide; subst; naive_solver.
Qed.

Lemma MatrixMultiply_ok (m w : Matrix) wc :
  m ≠ [] → w ≠ [] → Forall (λ r, length r = length w) m → Forall (λ r, length r = wc) w →
  MatrixMultiply m w = Some (Ok ((λ c, lincomb wc c w) <$> m)).
Proof.
  intros Hm Hw HFm HFw. unfold MatrixMultiply.
  assert (0 < length m) by (destruct m; [done|simpl; lia]).
  assert (0 < length w) by (destruct w; [done|simpl; lia]).
  unfold Cols, Rows. rewrite (lookup_row m), (lookup_row w) by done. simpl.
  rewrite (length_row (length w) m 0), (length_row wc w 0) by done.
  rewrite decide_False by lia.
  pose proof (schedule_perm (seq 0 (length m))) as Hperm.
  assert (∀ i, i ∈ schedule (seq 0 (length m)) ↔ i < length m) as Hin.
  { intros i. rewrite Hperm, elem_of_seq. lia. }
  destruct (multiply_tasks_ok m w wc (schedule (seq 0 (length m)))
    (replicate (length m) (zeros wc))) as (mult' & -> & Hlen & Hrows); auto.
  - rewrite Hperm. apply NoDup_seq.
  - intros i Hi%Hin. done.
  - by rewrite length_replicate.
  - intros i Hi%Hin. apply row_lookup. by apply lookup_replicate_2.
  - simpl. do 2 f_equal. apply list_eq_same_length with (length m);
      [by rewrite length_fmap|done|].
    intros i x y Hi Hx Hy. apply row_lookup in Hx. rewrite list_lookup_fmap, lookup_row in Hy by done.
    simpl in Hy. injection Hy as <-. rewrite <-Hx, Hrows, decide_True; [done|]. by apply Hin.
Qed.
End multiply.

(** * The schedule of the goroutines does not matter *)

Section schedules.
Context `{GaloisFieldLaws} (S1 S2 : Scheduler).

Lemma matrix_eq (m m' : Matrix) :
  length m = length m' → (∀ i, row m i = row m' i) → m = m'.
Proof.
  intros Hl Hr. apply list_eq_same_length with (length m); [done|done|].
  intros i x y Hi Hx%row_lookup Hy%row_lookup. by rewrite <-Hx, <-Hy.
Qed.

Lemma eliminate_schedule r n L i js st :
  shape r n L st → NoDup js → (∀ j, j ∈ js → j < r ∧ j ≠ i) → i < r → i < n →
  (∀ k, k < i → cell st.1 i k = x00) →
  eliminate (H0:=S1) i n js st = eliminate (H0:=S2) i n js st.
Proof.
  intros Hs Hnd Hjs Hi Hin Hz.
  destruct (eliminate_rows (H1:=S1) r n L i js st)
    as ([M1 D1] & -> & (HM1 & HD1 & _) & _ & Hr1 & Hd1); auto.
  destruct (eliminate_rows (H1:=S2) r n L i js st)
    as ([M2 D2] & -> & (HM2 & HD2 & _) & _ & Hr2 & Hd2); auto. simpl in *.
  do 2 f_equal; apply matrix_eq; try congruence; intros j.
  - by rewrite Hr1, Hr2.
  - by rewrite Hd1, Hd2.
Qed.

Lemma forward_column_schedule r n L i st :
  shape r n L st → i < r → i < n → upper_to i st.1 →
  forward_column (H0:=S1) r n i st = forward_column (H0:=S2) r n i st.
Proof.
  intros Hs Hi Hin Hup. pose proof Hs as (HM & HD & Hn & HL).
  assert (∀ st, shape r n L st → upper_to i st.1 →
    eliminate (H0:=S1) i n (seq (i + 1) (r - (i + 1))) st =
    eliminate (H0:=S2) i n (seq (i + 1) (r - (i + 1))) st) as Helim.
  { intros st' Hs' Hup'. apply (eliminate_schedule r n L); auto using NoDup_seq.
    intros j Hj%elem_of_seq. lia. }
  unfold forward_column.
  rewrite get_cell by (rewrite ?(length_row n); auto with lia). simpl.
  case_decide as Hp; [|by apply Helim].
  destruct (find_pivot_ok n st.1 i (seq (i + 1) (r - (i + 1))))
    as [[-> _]|(p & -> & Hin_p & Hcp)]; auto; simpl.
  { intros p Hin_p%elem_of_seq. lia. }
  rewrite elem_of_seq in Hin_p. destruct st as [M D]. simpl in *.
  rewrite !swap_rows_ok by lia. simpl. apply Helim.
  - apply shape_swapped; [done|lia..].
  - intros k j Hk Hkj. unfold cell. simpl. rewrite row_swapped by lia.
    repeat case_decide; apply Hup; lia.
Qed.

Lemma backward_column_schedule r n L i st :
  shape r n L st → i < r → i < n → upper_to n st.1 →
  backward_column (H0:=S1) n i st = backward_column (H0:=S2) n i st.
Proof.
  intros Hs Hi Hin Hup. pose proof Hs as (HM & HD & Hn & HL).
  unfold backward_column.
  rewrite get_cell by (rewrite ?(length_row n); auto with lia). simpl.
  case_decide as Hp; [done|].
  rewrite (eliminate_schedule r n L); auto using NoDup_seq.
  - intros j Hj%elem_of_seq. lia.
  - intros k Hk. apply Hup; lia.
Qed.

(** C28: the goroutines that clear the rows of one pivot may run in any order:
    on a rectangular state [Rref] gives the same result under every schedule. *)
Theorem Rref_schedule_independent r n L d :
  shape r n L (dstate d) → 0 < r → Rref (H0:=S1) d = Rref (H0:=S2) d.
Proof.
  intros Hs Hr.
  assert (clean_forward (H0:=S1) (dstate d) = clean_forward (H0:=S2) (dstate d)) as Hfwd.
  { unfold clean_forward. rewrite (Cols_ok r n L) by done. simpl.
    unfold Rows. pose proof Hs as (HM & _). simpl in HM. rewrite HM.
    apply for_each_up_eq with (I := λ i st', shape r n L st' ∧ upper_to i st'.1).
    - split; [done|]. intros k j Hk. lia.
    - intros i st Hi (Hs1 & Hup1). split.
      + apply (forward_column_schedule r n L); auto with lia.
      + destruct (forward_column_ok (H1:=S1) r n L i st) as (st2 & -> & Hs2 & _ & Hup2);
          eauto with lia. }
  unfold Rref. change (coeffs d, coded d) with (dstate d). rewrite Hfwd.
  destruct (clean_forward_ok (H1:=S2) r n L (dstate d)) as (st1 & -> & Hs1 & _ & Hup1); auto.
  simpl.
  enough (clean_backward (H0:=S1) st1 = clean_backward (H0:=S2) st1) as -> by done.
  unfold clean_backward. rewrite (Cols_ok r n L) by done. simpl.
  unfold Rows. pose proof Hs1 as (HM & _). rewrite HM.
  apply for_each_down_eq with (I := λ i st', shape r n L st' ∧ upper_to n st'.1 ∧
    cleared_from i (r `min` n) st'.1).
  - split_and!; [done|done|]. intros k Hk Hkb. lia.
  - intros i st Hi (Hs2 & Hup2 & Hcl2). split.
    + apply (backward_column_schedule r n L); auto with lia.
    + destruct (backward_column_ok (H1:=S1) r n L i st (r `min` n))
        as (st3 & -> & Hs3 & _ & Hup3 & Hcl3); eauto with lia.
Qed.
End schedules.

Definition sample_state : DecoderState := {|
  pieceCount := 3;
  coeffs := [[x02; x03; x01]; [x05; x01; x07]; [x01; x09; x04]];
  coded := [[x0a; x0b]; [x0c; x0d]; [x0e; x0f]] |}.

Lemma sample_shape : shape 3 3 2 (dstate sample_state).
Proof. split_and!; by repeat constructor. Qed.

Lemma Rref_schedule_independent_witness :
  Rref (H0:=sequential) sample_state = Rref (H0:=reversed) sample_state.
Proof. apply (Rref_schedule_independent sequential reversed 3 3 2); [apply sample_shape|lia]. Defined.

(** the product of two rectangular matrices has as row [i] the combination of
    the right operand's rows with the coefficients of the left operand's row
    [i], whatever the order in which the workers take the rows; operands whose
    dimensions do not agree are refused. *)
Theorem MatrixMultiply_spec `{GaloisFieldLaws} `{Scheduler} (m w : Matrix) (n wc : nat) :
  m ≠ [] → w ≠ [] → Forall (λ r, length r = n) m → Forall (λ r, length r = wc) w →
  MatrixMultiply m w =
    Some (if decide (n = length w) then Ok ((λ c, lincomb wc c w) <$> m)
          else Err ErrMatrixDimensionMismatch).
Proof.
  intros Hm Hw HFm HFw. case_decide as Hn; [subst n; by apply MatrixMultiply_ok|].
  unfold MatrixMultiply. destruct m as [|r m]; [done|].
  apply Forall_cons in HFm as [<- _]. simpl. by rewrite decide_True.
Qed.

Lemma MatrixMultiply_spec_witness :
  MatrixMultiply [[x66; x52; xa5; x00]]
    [[x9d; xe9; xf7]; [xa0; x1c; xe9]; [x95; xea; x75]; [xc8; xb5; x37]] =
    Some (Ok [[xba; x17; x0b]]) ∧
  MatrixMultiply [[x01; x02; x03]]
    [[x9d; xe9; xf7]; [xa0; x1c; xe9]; [x95; xea; x75]; [xc8; xb5; x37]] =
    Some (Err ErrMatrixDimensionMismatch).
Proof.
  split.
  - rewrite (MatrixMultiply_spec _ _ 4 3) by (done || by repeat constructor). by vm_compute.
  - rewrite (MatrixMultiply_spec _ _ 3 3) by (done || by repeat constructor). by vm_compute.
Defined.
