(* ===== verification/RLNCDecoder.v ===== *)
(** The RLNC decoders (src/kodr/full/decoder.go and its copy
    src/kodr/systematic/decoder.go).

    [AddPiece] returns the error of the call, if any, beside the new decoder.
    The theorems are about whole runs: [feed] adds a sequence of received coded
    pieces to a fresh decoder, the way the client loop does. *)

From Stdlib Require Import ZArith Lia.
From Stdlib Require Import Strings.Byte.
From stdpp Require Import prelude numbers list.
From S2P Require Import Prelude GF Linear KodrData KodrMatrix.

Open Scope Z_scope.

(** * The decoder of full RLNC *)

Module Full.
Record FullRLNCDecoder : Type := {
  expected : Z;
  useful : Z;
  received : Z;
  state : DecoderState
}.

Section definitions.
Context `{GaloisField} `{Scheduler}.

Definition GetRecv (d : FullRLNCDecoder) : Z := received d.
Definition GetExpt (d : FullRLNCDecoder) : Z := expected d.

Definition PieceLength (d : FullRLNCDecoder) : option Z :=
  if decide (0 < received d) then n ← Cols (CodedPieceMatrix (state d)); Some (Z.of_nat n)
  else Some 0.

Definition IsDecoded (d : FullRLNCDecoder) : bool := bool_decide (expected d ≤ useful d).

Definition Required (d : FullRLNCDecoder) : Z := u64 (expected d - useful d).

Definition AddPiece (d : FullRLNCDecoder) (piece : CodedPiece)
    : option (option KodrError * FullRLNCDecoder) :=
  if IsDecoded d then Some (Some ErrAllUsefulPiecesReceived, d)
  else
    let st := state_AddPiece (state d) piece in
    let received := u64 (received d + 1) in
    if decide (¬ 1 < received) then
      Some (None, {| expected := expected d; useful := u64 (useful d + 1);
                     received := received; state := st |})
    else
      st ← Rref st;
      Some (None, {| expected := expected d; useful := Rank st;
                     received := received; state := st |}).

Definition GetPiece (d : FullRLNCDecoder) (i : Z) : option (result KodrError Piece) :=
  state_GetPiece (state d) i.

(** The loop of [GetPieces] over the remaining indices. *)
Fixpoint get_pieces (d : FullRLNCDecoder) (is_ : list Z) (pieces : list Piece)
    : option (result KodrError (list Piece)) :=
  match is_ with
  | [] => Some (Ok pieces)
  | i :: is_ =>
      r ← GetPiece d i;
      match r with
      | Err e => Some (Err e)
      | Ok piece => get_pieces d is_ (pieces ++ [piece])
      end
  end.

Definition GetPieces (d : FullRLNCDecoder) : option (result KodrError (list Piece)) :=
  if IsDecoded d then get_pieces d (seqZ 0 (useful d)) []
  else Some (Err ErrMoreUsefulPiecesRequired).

Definition NewFullRLNCDecoder (n : Z) : FullRLNCDecoder :=
  {| expected := n; useful := 0; received := 0; state := NewDecoderStateWithPieceCount n |}.

(** The pieces received so far are added one after the other. *)
Definition feed (d : FullRLNCDecoder) (cs : list CodedPiece) : option FullRLNCDecoder :=
  for_each cs (λ c d, r ← AddPiece d c; Some r.2) d.
End definitions.
End Full.

(** The systematic decoder is a copy of the full decoder, function by function. *)
Module Systematic.
Definition SystematicRLNCDecoder : Type := Full.FullRLNCDecoder.
Section definitions.
Context `{GaloisField} `{Scheduler}.
Definition PieceLength : SystematicRLNCDecoder → option Z := Full.PieceLength.
Definition IsDecoded : SystematicRLNCDecoder → bool := Full.IsDecoded.
Definition Required : SystematicRLNCDecoder → Z := Full.Required.
Definition AddPiece : SystematicRLNCDecoder → CodedPiece →
    option (option KodrError * SystematicRLNCDecoder) := Full.AddPiece.
Definition GetPiece : SystematicRLNCDecoder → Z → option (result KodrError Piece) :=
  Full.GetPiece.
Definition GetPieces : SystematicRLNCDecoder → option (result KodrError (list Piece)) :=
  Full.GetPieces.
Definition NewSystematicRLNCDecoder (n : Z) : SystematicRLNCDecoder :=
  Full.NewFullRLNCDecoder n.
End definitions.
End Systematic.

Close Scope Z_scope.

(** * Specification *)

(** A coded piece of the shape a decoder for [n] pieces of [L] bytes expects. *)
Definition well_shaped (n L : nat) (c : CodedPiece) : Prop :=
  length (Vector c) = n ∧ length (Data c) = L.

(** It carries the combination of the original pieces its vector denotes. *)
Definition codes `{GaloisField} (L : nat) (P : list Piece) (c : CodedPiece) : Prop :=
  consistent L P (Vector c) (Data c).

(** The vectors determine [n] unknowns: only the zero vector is orthogonal to all. *)
Definition full_rank `{GaloisField} (n : nat) (vs : list (list byte)) : Prop :=
  ∀ x, length x = n → kernel vs x → x = zeros n.

Section decoder.
Context `{GaloisFieldLaws} `{Scheduler}.
Import Full.

(** The invariant of a decoder for [n] pieces of [L] bytes. *)
Record decoder_inv (n L : nat) (d : FullRLNCDecoder) : Prop := {
  inv_expected : expected d = Z.of_nat n;
  inv_pieceCount : pieceCount (state d) = Z.of_nat n;
  inv_useful : useful d = Z.of_nat (length (coeffs (state d)));
  inv_received : (0 ≤ received d)%Z ∧ (received d = 0%Z → coeffs (state d) = []);
  inv_shape : shape (length (coeffs (state d))) n L (dstate (state d));
  inv_bound : length (coeffs (state d)) ≤ n;
  inv_unit : length (coeffs (state d)) = n → ∀ k, k < n → is_unit (row (coeffs (state d)) k) k
}.

Lemma new_decoder_inv n L : 0 < n → decoder_inv n L (NewFullRLNCDecoder (Z.of_nat n)).
Proof. intros Hn. split; simpl; try done; lia. Qed.

Lemma IsDecoded_rows n L d :
  decoder_inv n L d → IsDecoded d = true ↔ length (coeffs (state d)) = n.
Proof.
  intros [He _ Hu _ _ Hb _]. unfold IsDecoded. rewrite bool_decide_eq_true. lia.
Qed.

Lemma shape_snoc r n L (st : Matrix * Matrix) c :
  shape r n L st → well_shaped n L c → shape (S r) n L (st.1 ++ [Vector c], st.2 ++ [Data c]).
Proof.
  intros (HM & HD & Hn & HL) [Hv Hd]. unfold shape. simpl. rewrite !length_app. simpl.
  split_and!; [lia|lia|..]; apply Forall_app; auto.
Qed.

(** Adding a piece to a decoder that is not done: no error, no panic, the
    invariant holds again, linear relations survive and the kernel is cut by
    the new vector. *)
Lemma AddPiece_ok n L d c :
  2 ≤ n → (Z.of_nat n < 2 ^ 64)%Z → decoder_inv n L d → well_shaped n L c →
  IsDecoded d = false → (received d + 1 < 2 ^ 64)%Z →
  ∃ d', AddPiece d c = Some (None, d') ∧ decoder_inv n L d' ∧
    received d' = (received d + 1)%Z ∧
    (∀ R, linear n L R → Forall2 R (coeffs (state d)) (coded (state d)) →
      R (Vector c) (Data c) → Forall2 R (coeffs (state d')) (coded (state d'))) ∧
    (∀ x, kernel (coeffs (state d')) x ↔ kernel (coeffs (state d)) x ∧ dot (Vector c) x = x00).
Proof.
  intros Hn Hn64 Hinv Hc Hdec Hrecv.
  assert (length (coeffs (state d)) ≠ n) as Hne
    by (intros Hlen%(IsDecoded_rows n L d Hinv); congruence).
  destruct Hinv as [He Hp Hu [Hr0 Hrz] Hs Hb Hunit].
  pose proof (shape_snoc _ _ _ _ _ Hs Hc) as Hs1. simpl in Hs1.
  unfold AddPiece. rewrite Hdec. rewrite (u64_small (received d + 1)) by lia.
  assert (∀ R : list byte → list byte → Prop,
    Forall2 R (coeffs (state d)) (coded (state d)) → R (Vector c) (Data c) →
    Forall2 R (coeffs (state d) ++ [Vector c]) (coded (state d) ++ [Data c])) as Hsnoc
    by (intros R HR HRc; apply Forall2_app; [done|by constructor]).
  assert (∀ x, kernel (coeffs (state d) ++ [Vector c]) x ↔
    kernel (coeffs (state d)) x ∧ dot (Vector c) x = x00) as Hker.
  { intros x. unfold kernel. by rewrite Forall_app, Forall_singleton. }
  case_decide as Hfirst.
  - assert (coeffs (state d) = []) as Hnil by (apply Hrz; lia).
    eexists. split; [done|]. simpl. split_and!; [|done|auto|done].
    rewrite Hnil in *. simpl in *. split; simpl; rewrite ?Hnil; simpl; try done; try lia.
    + rewrite Hu, u64_small by lia. lia.
    + unfold shape, dstate. simpl. by rewrite Hnil.
  - destruct (Rref_ok _ n L (state_AddPiece (state d) c) Hs1) as
      (d' & r' & -> & Hpc & Hs' & Hr' & Hrn & HR & Hk & _ & Hun); [lia|]. simpl.
    pose proof Hs' as (Hlen & _). simpl in Hlen.
    eexists. split; [done|]. simpl. split_and!; [|done|auto|].
    + split; simpl; rewrite ?Hlen; try done; try lia.
      * by rewrite Hpc.
      * unfold Rank, Rows. by rewrite Hlen.
    + intros x. by rewrite <-Hk, <-Hker.
Qed.

Lemma AddPiece_decoded d c :
  IsDecoded d = true → AddPiece d c = Some (Some ErrAllUsefulPiecesReceived, d).
Proof. intros Hd. unfold AddPiece. by rewrite Hd. Qed.

(** ** Whole runs *)

Record run_inv (n L : nat) (cs : list CodedPiece) (d : FullRLNCDecoder) : Prop := {
  run_decoder : decoder_inv n L d;
  run_received : (received d ≤ Z.of_nat (length cs))%Z;
  run_relations R : linear n L R → Forall (λ c, R (Vector c) (Data c)) cs →
    Forall2 R (coeffs (state d)) (coded (state d));
  run_kernel x : IsDecoded d = false →
    kernel (coeffs (state d)) x ↔ kernel (Vector <$> cs) x;
  run_rank : IsDecoded d = true → full_rank n (Vector <$> cs)
}.

Lemma unit_kernel n (m : Matrix) x :
  length m = n → (∀ k, k < n → is_unit (row m k) k) → Forall (λ c, length c = n) m →
  length x = n → kernel m x → x = zeros n.
Proof.
  intros Hm Hu Hn Hx Hk. apply all_zero; [done|]. intros i Hi.
  destruct (Hu i Hi) as (_ & Hone & Hz). unfold kernel in Hk. rewrite Forall_forall in Hk.
  assert (row m i ∈ m) as Hin by (apply list_elem_of_lookup; exists i; apply lookup_row; lia).
  rewrite <-(Hk _ Hin). symmetry.
  apply dot_unit; rewrite ?(length_row n); auto; lia.
Qed.

Lemma kernel_snoc vs v x : kernel (vs ++ [v]) x ↔ kernel vs x ∧ dot v x = x00.
Proof. unfold kernel. by rewrite Forall_app, Forall_singleton. Qed.

Lemma feed_ok n L d0 cs0 cs :
  2 ≤ n → (Z.of_nat n < 2 ^ 64)%Z → Forall (well_shaped n L) cs →
  (Z.of_nat (length cs0 + length cs) < 2 ^ 64)%Z → run_inv n L cs0 d0 →
  ∃ d, feed d0 cs = Some d ∧ run_inv n L (cs0 ++ cs) d.
Proof.
  intros Hn Hn64 Hcs. revert d0 cs0. induction Hcs as [|c cs Hc Hcs IH]; intros d0 cs0 Hlen Hrun.
  { exists d0. by rewrite app_nil_r. }
  simpl. simpl in Hlen. destruct Hrun as [Hinv Hrecv Hrel Hker Hrank].
  assert (∀ d, run_inv n L (cs0 ++ [c]) d →
    ∃ d', feed d cs = Some d' ∧ run_inv n L (cs0 ++ c :: cs) d') as Hrest.
  { intros d Hd. rewrite (cons_middle c cs0 cs), app_assoc. apply IH; [|done].
    rewrite length_app. simpl. lia. }
  destruct (IsDecoded d0) eqn:Hdec.
  - unfold feed. simpl. rewrite AddPiece_decoded by done. simpl. apply Hrest.
    split; [done|rewrite length_app; simpl; lia|..].
    + intros R HR [HRs _]%Forall_app. auto.
    + congruence.
    + intros _ x Hx Hk. apply Hrank; [done|done|]. rewrite fmap_app in Hk.
      by apply kernel_snoc in Hk as [Hk _].
  - destruct (AddPiece_ok n L d0 c) as (d1 & Ha & Hinv1 & Hr1 & HR1 & Hk1); auto; [lia|].
    unfold feed. simpl. rewrite Ha. simpl. apply Hrest.
    assert (∀ x, kernel (coeffs (state d1)) x ↔ kernel (Vector <$> (cs0 ++ [c])) x) as Hk.
    { intros x. rewrite Hk1, fmap_app. simpl. rewrite kernel_snoc. by rewrite Hker. }
    split; [done|rewrite length_app; simpl; lia|..].
    + intros R HR [HRs [HRc _]%Forall_cons]%Forall_app.
      exact (HR1 R HR (Hrel R HR HRs) HRc).
    + intros x _. apply Hk.
    + intros Hd1 x Hx Hkx. apply (IsDecoded_rows n L d1 Hinv1) in Hd1.
      apply Hk in Hkx. destruct Hinv1 as [_ _ _ _ (_ & _ & Hshape & _) _ Hu].
      by apply (unit_kernel n (coeffs (state d1))); auto.
Qed.

Lemma feed_new n L cs :
  2 ≤ n → (Z.of_nat n < 2 ^ 64)%Z → Forall (well_shaped n L) cs →
  (Z.of_nat (length cs) < 2 ^ 64)%Z →
  ∃ d, feed (NewFullRLNCDecoder (Z.of_nat n)) cs = Some d ∧ run_inv n L cs d.
Proof.
  intros Hn Hn64 Hcs Hlen. apply (feed_ok n L _ []); auto.
  split; simpl; try done; try lia.
  - apply new_decoder_inv. lia.
  - intros Hd. unfold IsDecoded in Hd. simpl in Hd. apply bool_decide_eq_true in Hd. lia.
Qed.

(** A decoder that is not done has a nonzero vector in its kernel. *)
Lemma not_decoded_kernel n L d :
  decoder_inv n L d → IsDecoded d = false →
  ∃ x, length x = n ∧ x ≠ zeros n ∧ kernel (coeffs (state d)) x.
Proof.
  intros Hinv Hd. pose proof (inv_shape _ _ _ Hinv) as (_ & _ & Hn & _).
  apply underdetermined; [done|]. pose proof (inv_bound _ _ _ Hinv).
  enough (length (coeffs (state d)) ≠ n) by lia.
  intros Hl%(IsDecoded_rows n L d Hinv). congruence.
Qed.

(** ** Reading the pieces back *)

Lemma state_GetPiece_full n L d (i : nat) :
  decoder_inv n L d → IsDecoded d = true → i < n →
  GetPiece d (Z.of_nat i) = Some (Ok (row (coded (state d)) i)).
Proof.
  intros Hinv Hd Hi. apply (IsDecoded_rows n L d Hinv) in Hd.
  destruct Hinv as [He Hp Hu _ (_ & Hl & _) _ _]. simpl in Hl.
  unfold GetPiece, state_GetPiece, Rank, Rows. rewrite Hp, Hd.
  rewrite !decide_False by lia. rewrite decide_True by lia.
  unfold index. rewrite decide_True, Nat2Z.id by lia. by rewrite lookup_row by lia.
Qed.

Lemma get_pieces_ok n L d (k m : nat) acc :
  decoder_inv n L d → IsDecoded d = true → k + m = n →
  get_pieces d (seqZ (Z.of_nat k) (Z.of_nat m)) acc =
    Some (Ok (acc ++ drop k (coded (state d)))).
Proof.
  intros Hinv Hd. pose proof (IsDecoded_rows n L d Hinv) as [Hrows _]. specialize (Hrows Hd).
  pose proof (inv_shape _ _ _ Hinv) as (_ & Hl & _). simpl in Hl.
  revert k acc. induction m as [|m IH]; intros k acc Hkm.
  { simpl. rewrite drop_ge by lia. by rewrite app_nil_r. }
  rewrite seqZ_cons by lia. simpl.
  rewrite (state_GetPiece_full n L) by (done || lia). simpl.
  replace (Z.succ (Z.of_nat k)) with (Z.of_nat (S k)) by lia.
  replace (Z.pred (Z.of_nat (S m))) with (Z.of_nat m) by lia.
  rewrite IH by lia. do 2 f_equal. rewrite <-app_assoc. f_equal.
  symmetry. apply drop_S. apply lookup_row. lia.
Qed.

Lemma GetPieces_ok n L d :
  decoder_inv n L d → IsDecoded d = true → GetPieces d = Some (Ok (coded (state d))).
Proof.
  intros Hinv Hd. unfold GetPieces. rewrite Hd.
  pose proof (IsDecoded_rows n L d Hinv) as [Hrows _]. specialize (Hrows Hd).
  rewrite (inv_useful _ _ _ Hinv), Hrows.
  apply (get_pieces_ok n L d 0 n []); auto.
Qed.

Lemma decoded_rows n L d P :
  decoder_inv n L d → IsDecoded d = true → length P = n → Forall (λ p, length p = L) P →
  Forall2 (consistent L P) (coeffs (state d)) (coded (state d)) → coded (state d) = P.
Proof.
  intros Hinv Hd HP HL HR. apply (IsDecoded_rows n L d Hinv) in Hd.
  destruct Hinv as [_ _ _ _ (_ & Hl & Hn & _) _ Hu]. simpl in *.
  rewrite Forall2_rows in HR by lia.
  apply matrix_eq; [congruence|]. intros i. destruct (decide (i < n)).
  - rewrite HR by lia. destruct (Hu Hd i) as (_ & Hone & Hz); [done|].
    apply lincomb_unit; rewrite ?(length_row n); auto; lia.
  - rewrite !row_overflow by lia. done.
Qed.
End decoder.

(** * Theorems *)

Section theorems.
Context `{GaloisFieldLaws} `{Scheduler}.
Import Full.

(** C1: a decoder for n >= 2 pieces that receives coded pieces of the original
    pieces P whose coding vectors have full rank finishes, without panicking,
    and [GetPieces] returns exactly P, whatever the order, the number and the
    redundancy of the pieces received and whatever the schedule of the
    elimination goroutines. *)
Theorem decode_recovers n L (P : list Piece) cs :
  2 ≤ n → (Z.of_nat n < 2 ^ 64)%Z → length P = n → Forall (λ p, length p = L) P →
  Forall (well_shaped n L) cs → Forall (codes L P) cs → (Z.of_nat (length cs) < 2 ^ 64)%Z →
  full_rank n (Vector <$> cs) →
  ∃ d, feed (NewFullRLNCDecoder (Z.of_nat n)) cs = Some d ∧ IsDecoded d = true ∧
    GetPieces d = Some (Ok P).
Proof.
  intros Hn Hn64 HP HL Hcs Hcodes Hlen Hrank.
  destruct (feed_new n L cs) as (d & Hfeed & [Hinv _ Hrel Hker _]); auto.
  exists d. split; [done|]. destruct (IsDecoded d) eqn:Hd.
  - split; [done|]. rewrite (GetPieces_ok n L) by done. do 2 f_equal.
    apply (decoded_rows n L); auto. apply Hrel; [by apply consistent_linear|done].
  - destruct (not_decoded_kernel n L d Hinv Hd) as (x & Hx & Hnz & Hk).
    destruct Hnz. apply Hrank; [done|]. by apply Hker.
Qed.

(** C9: a decoder for n >= 2 pieces is done exactly when the coding vectors it
    received have full rank: no innovative piece is lost, and no dependent set
    of pieces is taken for a complete one. *)
Theorem decoded_iff_full_rank n L cs :
  2 ≤ n → (Z.of_nat n < 2 ^ 64)%Z → Forall (well_shaped n L) cs →
  (Z.of_nat (length cs) < 2 ^ 64)%Z →
  ∃ d, feed (NewFullRLNCDecoder (Z.of_nat n)) cs = Some d ∧
    (IsDecoded d = true ↔ full_rank n (Vector <$> cs)).
Proof.
  intros Hn Hn64 Hcs Hlen.
  destruct (feed_new n L cs) as (d & Hfeed & [Hinv _ _ Hker Hrank]); auto.
  exists d. split; [done|]. split; [done|]. intros Hfull.
  destruct (IsDecoded d) eqn:Hd; [done|].
  destruct (not_decoded_kernel n L d Hinv Hd) as (x & Hx & Hnz & Hk).
  destruct Hnz. apply Hfull; [done|]. by apply Hker.
Qed.

(** along every run the counters stay in range: [useful] never exceeds
    [expected], so the unsigned difference [Required] does not wrap, it is 0
    exactly when the decoder is done, and a decoder that is done refuses
    further pieces and stays as it is. *)
Theorem Required_in_range n L cs c :
  2 ≤ n → (Z.of_nat n < 2 ^ 64)%Z → Forall (well_shaped n L) cs →
  (Z.of_nat (length cs) < 2 ^ 64)%Z →
  ∃ d, feed (NewFullRLNCDecoder (Z.of_nat n)) cs = Some d ∧
    (0 ≤ useful d ≤ Z.of_nat n)%Z ∧ Required d = (Z.of_nat n - useful d)%Z ∧
    (Required d = 0%Z ↔ IsDecoded d = true) ∧
    (IsDecoded d = true → AddPiece d c = Some (Some ErrAllUsefulPiecesReceived, d)).
Proof.
  intros Hn Hn64 Hcs Hlen.
  destruct (feed_new n L cs) as (d & Hfeed & [Hinv _ _ _ _]); auto.
  exists d. pose proof (IsDecoded_rows n L d Hinv) as Hdec.
  destruct Hinv as [He _ Hu _ _ Hb _].
  assert (Required d = Z.of_nat n - useful d)%Z as HReq.
  { unfold Required. rewrite He. apply u64_small. lia. }
  split_and!; auto; try lia.
  - rewrite HReq, Hdec. lia.
  - apply AddPiece_decoded.
Qed.

(** The scan of a partially decoded row accepts it only when every entry off
    the diagonal is nonzero. *)
Lemma GetPiece_partial n L d (i j : nat) :
  decoder_inv n L d → IsDecoded d = false → i < length (coeffs (state d)) →
  j < n → j ≠ i → cell (coeffs (state d)) i j = x00 →
  GetPiece d (Z.of_nat i) = Some (Err ErrPieceNotDecodedYet).
Proof.
  intros Hinv Hd Hi Hj Hji Hz.
  assert (length (coeffs (state d)) ≠ n) as Hne
    by (intros Hlen%(IsDecoded_rows n L d Hinv); congruence).
  destruct Hinv as [He Hp Hu _ Hs Hb _].
  unfold GetPiece, state_GetPiece, Rank, Rows. rewrite Hp.
  rewrite !decide_False by lia.
  pose proof (Cols_ok _ _ _ _ Hs) as Hcols. simpl in Hcols. rewrite Hcols by lia. simpl.
  set (body := decoded_cell (state d) (Z.of_nat i)).
  enough (∀ js, j ∈ js → (∀ k, k ∈ js → k < n) → scan js body = Some (Some false)) as ->; [done|..].
  { apply elem_of_seq. lia. }
  { intros k Hk%elem_of_seq. lia. }
  destruct Hs as (_ & _ & Hn & _).
  assert (∀ k, k < n → body k = Some (if decide (k = i) then
      if decide (cell (coeffs (state d)) i k ≠ x01) then Some false else None
      else if decide (cell (coeffs (state d)) i k = x00) then Some false else None)) as Hbody.
  { intros k Hk. unfold body, decoded_cell. rewrite Nat2Z.id.
    rewrite get_cell by (rewrite ?(length_row n); auto). simpl.
    by rewrite (decide_ext (Z.of_nat k = Z.of_nat i) (k = i)) by lia. }
  clearbody body. induction js as [|k js IH]; intros Hin Hlt; [by apply not_elem_of_nil in Hin|].
  simpl. rewrite Hbody by (apply Hlt; set_solver). simpl.
  apply elem_of_cons in Hin as [<-|Hin].
  - rewrite decide_False, decide_True by done. done.
  - assert (scan js body = Some (Some false)) as Hrest
      by (apply IH; [done|intros; apply Hlt; set_solver]).
    by repeat case_decide.
Qed.

(** the partial read is inverted: as long as decoding is not complete,
    [GetPiece] refuses precisely the rows that are decoded (a unit coding
    vector) with [ErrPieceNotDecodedYet]. *)
Theorem GetPiece_refuses_decoded n L d (i : nat) :
  2 ≤ n → decoder_inv n L d → IsDecoded d = false → i < length (coeffs (state d)) →
  is_unit (row (coeffs (state d)) i) i →
  GetPiece d (Z.of_nat i) = Some (Err ErrPieceNotDecodedYet).
Proof.
  intros Hn Hinv Hd Hi (_ & _ & Hz).
  apply (GetPiece_partial n L d i (if decide (i = 0) then 1 else 0)); auto.
  - case_decide; lia.
  - case_decide; lia.
  - apply Hz. case_decide; lia.
Qed.

(** [useful] may exceed the rank: after the same coding vector was received
    twice by a decoder for three pieces, [Required] says one more piece is
    enough, but no piece completes the decoding. *)
Theorem Required_underestimates (c' : CodedPiece) :
  let c := {| Vector := [x00; x00; x01]; Data := [x07] |} in
  well_shaped 3 1 c' →
  ∃ d d', feed (NewFullRLNCDecoder 3) [c; c] = Some d ∧ Required d = 1%Z ∧
    feed d [c'] = Some d' ∧ IsDecoded d' = false.
Proof.
  intros c Hc'.
  assert (Forall (well_shaped 3 1) [c; c]) as Hcc by (by repeat constructor).
  destruct (feed_new 3 1 [c; c]) as (d & Hfeed & Hrun); [lia|done|done|done|].
  destruct (feed_ok 3 1 d [c; c] [c']) as (d' & Hfeed' & [Hinv' _ _ _ Hrank']);
    [lia|done|by constructor|done|done|].
  exists d, d'. split_and!; [done| |done|].
  - assert (feed (NewFullRLNCDecoder 3) [c; c] = Some {| expected := 3; useful := 2; received := 2;
      state := {| pieceCount := 3; coeffs := [Vector c; Vector c]; coded := [[x07]; [x07]] |} |}) as Hf.
    { reflexivity. }
    change (Z.of_nat 3) with 3%Z in Hfeed. rewrite Hfeed in Hf. by injection Hf as ->.
  - destruct (IsDecoded d') eqn:Hd'; [|done]. exfalso. specialize (Hrank' eq_refl).
    destruct (underdetermined 3 [Vector c; Vector c']) as (x & Hx & Hnz & Hk).
    + constructor; [done|]. constructor; [apply Hc'|constructor].
    + simpl. lia.
    + apply Hnz, Hrank'; [done|]. apply Forall_cons in Hk as [Hk1 [Hk2 _]%Forall_cons].
      change (Forall (λ v, dot v x = x00) [Vector c; Vector c; Vector c']).
      by repeat apply Forall_cons_2.
Qed.
(** The partial read can hand out a combination as a decoded piece: after
    one coded piece (vector 1 1) of the pieces a and b, [GetPiece 0] returns
    a + b without an error, which is not the piece a unless b is 0. *)
Theorem GetPiece_returns_undecoded (a b : byte) :
  let c := {| Vector := [x01; x01]; Data := lincomb 1 [x01; x01] [[a]; [b]] |} in
  ∃ d, feed (NewFullRLNCDecoder 2) [c] = Some d ∧ IsDecoded d = false ∧
    GetPiece d 0 = Some (Ok [gf_add a b]) ∧ (gf_add a b = a ↔ b = x00).
Proof.
  assert (lincomb 1 [x01; x01] [[a]; [b]] = [gf_add a b]) as ->.
  { unfold lincomb, axpy. cbn. by rewrite gf_add_0_l, !gf_mul_1_r. }
  eexists. split; [reflexivity|]. split_and!; [reflexivity|reflexivity|].
  split; [|intros ->; apply gf_add_0_r].
  intros E. rewrite <-(gf_add_cancel b a), (gf_add_comm b a), E. apply gf_add_diag.
Qed.

(** A decoder whose first two pieces carry the zero vector keeps no row, and
    asking it for the piece length then panics (an index out of range), although
    pieces were received. *)
Theorem PieceLength_panics (b : byte) :
  let c := {| Vector := [x00; x00; x00]; Data := [b] |} in
  ∃ d, feed (NewFullRLNCDecoder 3) [c; c] = Some d ∧
    received d = 2%Z ∧ PieceLength d = None.
Proof. eexists. split; [reflexivity|]. by split_and!. Qed.
End theorems.

(** ** Witnesses and examples *)

Definition ex_pieces : list Piece := [[x05; x06]; [x07; x09]].
Definition ex_coded : list CodedPiece :=
  [{| Vector := [x01; x01]; Data := lincomb 2 [x01; x01] ex_pieces |};
   {| Vector := [x02; x02]; Data := lincomb 2 [x02; x02] ex_pieces |};
   {| Vector := [x00; x03]; Data := lincomb 2 [x00; x03] ex_pieces |}].

Lemma ex_shaped : Forall (well_shaped 2 2) ex_coded.
Proof. by repeat constructor. Qed.

Lemma ex_codes : Forall (codes 2 ex_pieces) ex_coded.
Proof. by repeat constructor. Qed.

Lemma ex_full_rank : full_rank 2 (Vector <$> ex_coded).
Proof.
  intros [|a [|b [|? ?]]] Hl; try done. unfold kernel. cbn [fmap list_fmap ex_coded].
  intros [H1 [_ [H3 _]%Forall_cons]%Forall_cons]%Forall_cons.
  simpl in H1, H3. rewrite !GF256.xor_0_r, GF256.mul_0_l, GF256.xor_0_l in *.
  assert (b = x00) as ->.
  { apply (gf_mul_eq_0 x03); [|done]. exact H3. }
  rewrite GF256.mul_0_r, GF256.xor_0_r in H1.
  assert (a = x00) as ->; [|done].
  apply (gf_mul_eq_0 x01); [|done]. exact H1.
Qed.

Lemma decode_recovers_witness :
  ∃ d, Full.feed (Full.NewFullRLNCDecoder 2) ex_coded = Some d ∧ Full.IsDecoded d = true ∧
    Full.GetPieces d = Some (Ok ex_pieces).
Proof.
  apply (decode_recovers 2 2 ex_pieces ex_coded); [lia|done|done|by repeat constructor|
    apply ex_shaped|apply ex_codes|done|apply ex_full_rank].
Defined.

Lemma decoded_iff_full_rank_witness :
  ∃ d, Full.feed (Full.NewFullRLNCDecoder 2) ex_coded = Some d ∧
    (Full.IsDecoded d = true ↔ full_rank 2 (Vector <$> ex_coded)).
Proof. apply (decoded_iff_full_rank 2 2 ex_coded); [lia|done|apply ex_shaped|done]. Defined.

Lemma Required_in_range_witness :
  ∃ d, Full.feed (Full.NewFullRLNCDecoder 2) ex_coded = Some d ∧
    (0 ≤ Full.useful d ≤ 2)%Z ∧ Full.Required d = (2 - Full.useful d)%Z ∧
    (Full.Required d = 0%Z ↔ Full.IsDecoded d = true) ∧
    (Full.IsDecoded d = true → Full.AddPiece d {| Vector := [x01; x00]; Data := [x05; x06] |} =
      Some (Some ErrAllUsefulPiecesReceived, d)).
Proof. apply (Required_in_range 2 2 ex_coded); [lia|done|apply ex_shaped|done]. Defined.

(** A decoder for three pieces that holds the first two of them uncoded. *)
Definition ex_partial : Full.FullRLNCDecoder := {|
  Full.expected := 3; Full.useful := 2; Full.received := 2;
  Full.state := {| pieceCount := 3; coeffs := [[x01; x00; x00]; [x00; x01; x00]];
                   coded := [[x05]; [x07]] |} |}.

Lemma GetPiece_refuses_decoded_witness :
  Full.feed (Full.NewFullRLNCDecoder 3)
    [{| Vector := [x01; x00; x00]; Data := [x05] |};
     {| Vector := [x00; x01; x00]; Data := [x07] |}] = Some ex_partial ∧
  Full.GetPiece ex_partial 0 = Some (Err ErrPieceNotDecodedYet).
Proof.
  split; [by vm_compute|].
  apply (GetPiece_refuses_decoded 3 1 ex_partial 0); simpl; try lia.
  - split; simpl; try done; try lia. by repeat constructor.
  - done.
  - split_and!; [simpl; lia|done|]. intros [|[|[|[|]]]] Hj; done.
Defined.

Lemma Required_underestimates_witness :
  ∃ d d', Full.feed (Full.NewFullRLNCDecoder 3)
      [{| Vector := [x00; x00; x01]; Data := [x07] |};
       {| Vector := [x00; x00; x01]; Data := [x07] |}] = Some d ∧ Full.Required d = 1%Z ∧
    Full.feed d [{| Vector := [x01; x02; x03]; Data := [x09] |}] = Some d' ∧
    Full.IsDecoded d' = false.
Proof. apply (Required_underestimates {| Vector := [x01; x02; x03]; Data := [x09] |}). done. Defined.

Lemma GetPiece_returns_undecoded_witness :
  ∃ d, Full.feed (Full.NewFullRLNCDecoder 2)
      [{| Vector := [x01; x01]; Data := lincomb 1 [x01; x01] [[x05]; [x07]] |}] = Some d ∧
    Full.IsDecoded d = false ∧
    Full.GetPiece d 0 = Some (Ok [gf_add x05 x07]) ∧ (gf_add x05 x07 = x05 ↔ x07 = x00).
Proof. apply (GetPiece_returns_undecoded x05 x07). Defined.
