(* ===== verification/RLNCEncoder.v ===== *)
(** The producers of coded pieces: the full encoder (src/kodr/full/encoder.go),
    the recoder (src/kodr/full/recoder.go) and the systematic encoder
    (src/kodr/systematic/encoder.go).

    The random source of [rand.Read] is an argument of every emission.  The
    class [PieceSource] is the promise the decoder relies on: whatever symbols
    are drawn, an emission does not panic and yields a well-shaped coded piece
    of the pieces behind the source.  The three producers discharge it, and
    recoders may be stacked on any source. *)

From Stdlib Require Import ZArith Lia.
From Stdlib Require Import Strings.Byte.
From stdpp Require Import prelude numbers list.
From S2P Require Import Prelude GF Linear KodrData KodrMatrix RLNCDecoder.

Open Scope Z_scope.

(** The loop the three [CodedPiece] methods share:
    [for i := range pieces { piece.Multiply(pieces[i], vector[i], field) }]. *)
Definition multiply_all `{GaloisField} (pieces : list Piece) (vector : list byte) (piece : Piece)
    : option Piece :=
  for_each (seq 0 (length pieces)) (λ i piece,
    p ← pieces !! i; v ← vector !! i; Multiply piece p v) piece.

(** * The full encoder *)

Module FullEncoder.
Record FullRLNCEncoder : Type := { pieces : list Piece; extra : Z }.

Section definitions.
Context `{GaloisField}.

Definition PieceCount (f : FullRLNCEncoder) : Z := u64 (zlen (pieces f)).
Definition PieceSize (f : FullRLNCEncoder) : option Z :=
  p ← pieces f !! 0%nat; Some (u64 (zlen p)).
Definition CodedPieceLen (f : FullRLNCEncoder) : option Z :=
  s ← PieceSize f; Some (u64 (PieceCount f + s)).
Definition DecodableLen (f : FullRLNCEncoder) : option Z :=
  l ← CodedPieceLen f; Some (u64 (PieceCount f * l)).
Definition Padding (f : FullRLNCEncoder) : Z := extra f.

Definition CodedPiece (rand : nat → list byte) (f : FullRLNCEncoder) : option CodedPiece :=
  let vector := GenerateCodingVector rand (length (pieces f)) in
  size ← PieceSize f;
  piece ← make_bytes size;
  piece ← multiply_all (pieces f) vector piece;
  Some {| Vector := vector; Data := piece |}.

Definition NewFullRLNCEncoder (ps : list Piece) : FullRLNCEncoder :=
  {| pieces := ps; extra := 0 |}.

(** The constructors differ in the function that splits the data. *)
Definition with_split (r : option (result KodrError (list Piece * Z)))
    : option (result KodrError FullRLNCEncoder) :=
  r ← r;
  match r with
  | Err e => Some (Err e)
  | Ok (ps, padding) => Some (Ok {| pieces := ps; extra := padding |})
  end.
Definition NewFullRLNCEncoderWithPieceCount (data : list byte) (pieceCount : Z) :=
  with_split (OriginalPiecesFromDataAndPieceCount data pieceCount).
Definition NewFullRLNCEncoderWithPieceSize (data : list byte) (pieceSize : Z) :=
  with_split (OriginalPiecesFromDataAndPieceSize data pieceSize).
End definitions.
End FullEncoder.

(** * The systematic encoder *)

Module SystematicEncoder.
Record SystematicRLNCEncoder : Type := {
  currentPieceId : Z;
  pieces : list Piece;
  extra : Z
}.

Section definitions.
Context `{GaloisField}.

Definition PieceCount (s : SystematicRLNCEncoder) : Z := u64 (zlen (pieces s)).
Definition PieceSize (s : SystematicRLNCEncoder) : option Z :=
  p ← pieces s !! 0%nat; Some (u64 (zlen p)).
Definition CodedPieceLen (s : SystematicRLNCEncoder) : option Z :=
  l ← PieceSize s; Some (u64 (PieceCount s + l)).
Definition DecodableLen (s : SystematicRLNCEncoder) : option Z :=
  l ← CodedPieceLen s; Some (u64 (PieceCount s * l)).
Definition Padding (s : SystematicRLNCEncoder) : Z := extra s.

(** A nil vector is an empty one. *)
Definition systematicCodingVector (s : SystematicRLNCEncoder) (idx : Z)
    : option (list byte) :=
  if decide (¬ idx < PieceCount s) then Some []
  else
    vector ← make_bytes (PieceCount s);
    _ ← index vector idx;
    Some (<[Z.to_nat idx := x01]> vector).

Definition CodedPiece (rand : nat → list byte) (s : SystematicRLNCEncoder)
    : option (KodrData.CodedPiece * SystematicRLNCEncoder) :=
  if decide (currentPieceId s < PieceCount s) then
    vector ← systematicCodingVector s (currentPieceId s);
    size ← PieceSize s;
    piece ← make_bytes size;
    p ← index (pieces s) (currentPieceId s);
    Some ({| Vector := vector; Data := go_copy piece p |},
          {| currentPieceId := u64 (currentPieceId s + 1);
             pieces := pieces s; extra := extra s |})
  else
    let vector := GenerateCodingVector rand (length (pieces s)) in
    size ← PieceSize s;
    piece ← make_bytes size;
    piece ← multiply_all (pieces s) vector piece;
    Some ({| Vector := vector; Data := piece |}, s).

Definition NewSystematicRLNCEncoder (ps : list Piece) : SystematicRLNCEncoder :=
  {| currentPieceId := 0; pieces := ps; extra := 0 |}.

Definition with_split (r : option (result KodrError (list Piece * Z)))
    : option (result KodrError SystematicRLNCEncoder) :=
  r ← r;
  match r with
  | Err e => Some (Err e)
  | Ok (ps, padding) => Some (Ok {| currentPieceId := 0; pieces := ps; extra := padding |})
  end.
Definition NewSystematicRLNCEncoderWithPieceCount (data : list byte) (pieceCount : Z) :=
  with_split (OriginalPiecesFromDataAndPieceCount data pieceCount).
Definition NewSystematicRLNCEncoderWithPieceSize (data : list byte) (pieceSize : Z) :=
  with_split (OriginalPiecesFromDataAndPieceSize data pieceSize).
End definitions.
End SystematicEncoder.

(** * The recoder *)

Module Recoder.
Record FullRLNCRecoder : Type := {
  pieces : list KodrData.CodedPiece;
  codingMatrix : Matrix
}.

Section definitions.
Context `{GaloisField} `{Scheduler}.

(** Every row is a copy of the piece's coding vector. *)
Definition fill (ps : list KodrData.CodedPiece) : Matrix :=
  (λ p, go_copy (replicate (length (Vector p)) x00) (Vector p)) <$> ps.

Definition CodedPiece (rand : nat → list byte) (r : FullRLNCRecoder)
    : option (result KodrError KodrData.CodedPiece) :=
  let vector := GenerateCodingVector rand (length (pieces r)) in
  first ← pieces r !! 0%nat;
  piece ← make_bytes (zlen (Data first));
  piece ← multiply_all (Data <$> pieces r) vector piece;
  mult ← MatrixMultiply [vector] (codingMatrix r);
  match mult with
  | Err e => Some (Err e)
  | Ok mult => v ← mult !! 0%nat; Some (Ok {| Vector := v; Data := piece |})
  end.

Definition NewFullRLNCRecoder (ps : list KodrData.CodedPiece) : FullRLNCRecoder :=
  {| pieces := ps; codingMatrix := fill ps |}.

Definition NewFullRLNCRecoderWithFlattenData (data : list byte)
    (pieceCount piecesCodedTogether : Z) : option (result KodrError FullRLNCRecoder) :=
  r ← CodedPiecesForRecoding data pieceCount piecesCodedTogether;
  match r with
  | Err e => Some (Err e)
  | Ok ps => Some (Ok (NewFullRLNCRecoder ps))
  end.
End definitions.
End Recoder.

Close Scope Z_scope.

(** * The interface between producers and decoders *)

(** [rand.Read] fills a vector of the length it is given. *)
Definition fills (rand : nat → list byte) : Prop := ∀ n, length (rand n) = n.

Class PieceSource (Src : Type) : Type := {
  emit : (nat → list byte) → Src → option (result KodrError CodedPiece * Src)
}.

Class PieceSourceLaws `{GaloisField} (Src : Type) `{PieceSource Src} : Type := {
  source_of : nat → nat → list Piece → Src → Prop;
  emit_sound n L P s rand : source_of n L P s → fills rand →
    ∃ c s', emit rand s = Some (Ok c, s') ∧ source_of n L P s' ∧
      well_shaped n L c ∧ codes L P c
}.

(** A run of emissions, one for each random source of the list. *)
Fixpoint emit_all `{PieceSource Src} (rands : list (nat → list byte)) (s : Src)
    : option (result KodrError (list CodedPiece) * Src) :=
  match rands with
  | [] => Some (Ok [], s)
  | rand :: rands =>
      r ← emit rand s;
      match r with
      | (Err e, s) => Some (Err e, s)
      | (Ok c, s) =>
          r ← emit_all rands s;
          match r with
          | (Err e, s) => Some (Err e, s)
          | (Ok cs, s) => Some (Ok (c :: cs), s)
          end
      end
  end.

#[export] Instance FullEncoder_source `{GaloisField} : PieceSource FullEncoder.FullRLNCEncoder := {|
  emit rand f := c ← FullEncoder.CodedPiece rand f; Some (Ok c, f)
|}.
#[export] Instance SystematicEncoder_source `{GaloisField} :
    PieceSource SystematicEncoder.SystematicRLNCEncoder := {|
  emit rand s := r ← SystematicEncoder.CodedPiece rand s; Some (Ok r.1, r.2)
|}.
#[export] Instance Recoder_source `{GaloisField} `{Scheduler} :
    PieceSource Recoder.FullRLNCRecoder := {|
  emit rand r := c ← Recoder.CodedPiece rand r; Some (c, r)
|}.

(** * The combination loop *)

Section combine.
Context `{GaloisFieldLaws}.

Lemma multiply_all_gen (done_ rest : list Piece) (v1 v2 piece : list byte) :
  length v1 = length done_ → length v2 = length rest →
  Forall (λ p, length p = length piece) rest →
  for_each (seq (length done_) (length rest)) (λ i piece,
    p ← (done_ ++ rest) !! i; v ← (v1 ++ v2) !! i; Multiply piece p v) piece =
  Some (lincomb_acc piece v2 rest).
Proof.
  revert done_ v1 v2 piece. induction rest as [|p rest IH]; intros done_ v1 v2 piece H1 H2 HF.
  { by destruct v2. }
  destruct v2 as [|q v2]; [done|]. apply Forall_cons in HF as [Hp HF].
  simpl. rewrite list_lookup_middle by done. simpl. rewrite list_lookup_middle by done. simpl.
  rewrite Multiply_axpy by done. simpl.
  specialize (IH (done_ ++ [p]) (v1 ++ [q]) v2 (axpy q p piece)).
  rewrite <-!app_assoc in IH. simpl in IH. rewrite !length_app in IH. simpl in IH.
  rewrite !Nat.add_1_r in IH. apply IH; [lia|by injection H2|].
  by rewrite length_axpy by done.
Qed.

Lemma multiply_all_ok L (ps : list Piece) v :
  length v = length ps → Forall (λ p, length p = L) ps →
  multiply_all ps v (zeros L) = Some (lincomb L v ps).
Proof.
  intros Hv HL. apply (multiply_all_gen [] ps [] v); [done|done|].
  unfold zeros. by rewrite length_replicate.
Qed.

Lemma make_bytes_ok (L : nat) :
  (Z.of_nat L ≤ max_alloc)%Z → make_bytes (Z.of_nat L) = Some (zeros L).
Proof. intros. unfold make_bytes. by rewrite decide_True, Nat2Z.id by lia. Qed.

Lemma lincomb_cons L a c p P : lincomb L (a :: c) (p :: P) = lincomb_acc (axpy a p (zeros L)) c P.
Proof. done. Qed.

(** Combinations of related rows are related. *)
Lemma linear_combination n L R v (rows coded : list (list byte)) :
  linear n L R → R (zeros n) (zeros L) →
  Forall (λ r, length r = n) rows → Forall (λ p, length p = L) coded → Forall2 R rows coded →
  R (lincomb n v rows) (lincomb L v coded).
Proof.
  intros HR H0R Hrows Hcoded HRs. unfold lincomb.
  assert (length (zeros n) = n) as Hn by apply length_replicate.
  assert (length (zeros L) = L) as HL by apply length_replicate.
  revert v H0R Hn HL Hrows Hcoded. generalize (zeros n) (zeros L).
  induction HRs as [|r p rows coded Hrp _ IH]; intros a b v Hab Ha Hb Hr Hp;
    [by destruct v|].
  apply Forall_cons in Hr as [Hr Hrs]. apply Forall_cons in Hp as [Hp Hps].
  destruct v as [|q v]; [done|]. simpl. apply IH; try done.
  - by apply (linear_axpy n L R HR).
  - by rewrite length_axpy by congruence.
  - by rewrite length_axpy by congruence.
Qed.

Lemma lincomb_zeros L n P : Forall (λ p, length p = L) P → lincomb L (zeros n) P = zeros L.
Proof.
  intros HP. apply all_zero; [by apply length_lincomb|]. intros i _.
  rewrite byte_at_lincomb by done. apply dot_zeros_l.
Qed.
End combine.

(** * The producers discharge the interface *)

(** The pieces behind a source: [n] pieces of [L] bytes that fit in memory. *)
Record pieces_ok (n L : nat) (P : list Piece) : Prop := {
  pieces_count : length P = n;
  pieces_size : Forall (λ p, length p = L) P;
  pieces_some : 0 < n;
  pieces_fit : (Z.of_nat n ≤ max_alloc ∧ Z.of_nat L ≤ max_alloc)%Z
}.

Section sources.
Context `{GaloisFieldLaws}.

Lemma pieces_u64 n L P : pieces_ok n L P → u64 (zlen P) = Z.of_nat n.
Proof.
  intros [Hn _ _ [Hm _]]. unfold max_alloc in Hm. unfold zlen.
  rewrite Hn. apply u64_small. lia.
Qed.

Lemma pieces_head n L P : pieces_ok n L P →
  ∃ p, P !! 0 = Some p ∧ u64 (zlen p) = Z.of_nat L.
Proof.
  intros [Hn HL Hpos [_ Hm]]. unfold max_alloc in Hm. destruct P as [|p P]; simpl in *; [lia|].
  exists p. split; [done|]. apply Forall_cons in HL as [Hp _]. unfold zlen.
  rewrite Hp. apply u64_small. lia.
Qed.

Lemma full_piece_ok n L P rand (f : FullEncoder.FullRLNCEncoder) :
  FullEncoder.pieces f = P → pieces_ok n L P → fills rand →
  FullEncoder.CodedPiece rand f =
    Some {| Vector := rand n; Data := lincomb L (rand n) P |}.
Proof.
  intros Hf HP Hr. unfold FullEncoder.CodedPiece, FullEncoder.PieceSize. rewrite Hf.
  destruct (pieces_head n L P HP) as (p & -> & Hp). simpl. rewrite Hp.
  destruct HP as [Hn HL _ [_ Hm]]. rewrite make_bytes_ok by done. simpl.
  unfold GenerateCodingVector. rewrite (multiply_all_ok L), Hn by (rewrite ?Hr; done). done.
Qed.

Lemma drawn_piece_codes n L P v :
  pieces_ok n L P → length v = n →
  well_shaped n L {| Vector := v; Data := lincomb L v P |} ∧
  codes L P {| Vector := v; Data := lincomb L v P |}.
Proof. intros [Hn HL _ _] Hv. split; [split; simpl; [done|by apply length_lincomb]|done]. Qed.

#[global] Program Instance FullEncoder_laws : PieceSourceLaws FullEncoder.FullRLNCEncoder := {|
  source_of n L P f := FullEncoder.pieces f = P ∧ pieces_ok n L P
|}.
Next Obligation.
  intros n L P f rand [Hf HP] Hr. eexists _, f. simpl.
  rewrite (full_piece_ok n L P) by done. split; [done|].
  split; [done|]. apply drawn_piece_codes; auto.
Qed.

(** The vector of the [k]-th piece in uncoded form. *)
Definition unit_vector (n k : nat) : list byte := <[k := x01]> (zeros n).

Lemma unit_vector_is_unit n k : k < n → is_unit (unit_vector n k) k.
Proof.
  intros Hk. unfold unit_vector. assert (k < length (zeros n)) by (unfold zeros; by rewrite length_replicate).
  split_and!.
  - by rewrite length_insert.
  - rewrite byte_at_insert by done. by rewrite decide_True.
  - intros j Hj. rewrite byte_at_insert by done. rewrite decide_False by done.
    apply byte_at_zeros.
Qed.

Lemma length_unit_vector n k : length (unit_vector n k) = n.
Proof. unfold unit_vector, zeros. by rewrite length_insert, length_replicate. Qed.

Record systematic_ok (n L : nat) (P : list Piece)
    (s : SystematicEncoder.SystematicRLNCEncoder) (k : nat) : Prop := {
  sys_pieces : SystematicEncoder.pieces s = P;
  sys_ok : pieces_ok n L P;
  sys_current : SystematicEncoder.currentPieceId s = Z.of_nat k;
  sys_bound : k ≤ n
}.

Lemma systematic_piece_uncoded n L P rand s k :
  systematic_ok n L P s k → k < n →
  ∃ s', SystematicEncoder.CodedPiece rand s =
      Some ({| Vector := unit_vector n k; Data := nth k P [] |}, s') ∧
    systematic_ok n L P s' (S k).
Proof.
  intros [Hs HP Hk _] Hkn. unfold SystematicEncoder.CodedPiece,
    SystematicEncoder.systematicCodingVector, SystematicEncoder.PieceCount,
    SystematicEncoder.PieceSize. rewrite Hs, (pieces_u64 n L), Hk by done.
  rewrite decide_True, decide_False by lia.
  destruct (pieces_head n L P HP) as (p & -> & Hp). simpl. rewrite Hp.
  pose proof HP as [Hn HL _ [Hm HmL]]. rewrite !make_bytes_ok by done. simpl.
  destruct (lookup_lt_is_Some_2 P k) as [q Hq]; [lia|].
  destruct (lookup_lt_is_Some_2 (zeros n) k) as [z Hz];
    [unfold zeros; rewrite length_replicate; lia|].
  rewrite !index_nat, Hz, Hq, Nat2Z.id. simpl.
  rewrite go_copy_full
    by (unfold zeros; rewrite length_replicate; symmetry; by apply (Forall_lookup_1 _ _ _ _ HL Hq)).
  rewrite (nth_lookup_Some P k [] q Hq). eexists. split; [done|].
  unfold max_alloc in Hm. split; simpl; [done|done| |lia]. rewrite u64_small; lia.
Qed.

Lemma systematic_piece_coded n L P rand s :
  systematic_ok n L P s n → fills rand →
  SystematicEncoder.CodedPiece rand s =
    Some ({| Vector := rand n; Data := lincomb L (rand n) P |}, s).
Proof.
  intros [Hs HP Hk _] Hr. unfold SystematicEncoder.CodedPiece,
    SystematicEncoder.PieceCount, SystematicEncoder.PieceSize.
  rewrite Hs, (pieces_u64 n L), Hk by done. rewrite decide_False by lia.
  destruct (pieces_head n L P HP) as (p & -> & Hp). simpl. rewrite Hp.
  destruct HP as [Hn HL _ [_ Hm]]. rewrite make_bytes_ok by done. simpl.
  unfold GenerateCodingVector. rewrite (multiply_all_ok L), Hn by (rewrite ?Hr; done). done.
Qed.

Lemma uncoded_piece_codes n L P k :
  pieces_ok n L P → k < n →
  well_shaped n L {| Vector := unit_vector n k; Data := nth k P [] |} ∧
  codes L P {| Vector := unit_vector n k; Data := nth k P [] |}.
Proof.
  intros [Hn HL _ _] Hk. destruct (unit_vector_is_unit n k Hk) as (_ & Hone & Hz).
  destruct (lookup_lt_is_Some_2 P k) as [q Hq]; [lia|].
  split; [split|unfold codes, consistent]; simpl.
  - apply length_unit_vector.
  - rewrite (nth_lookup_Some P k [] q Hq). by apply (Forall_lookup_1 _ _ _ _ HL Hq).
  - symmetry. apply lincomb_unit; auto; [|lia]. by rewrite length_unit_vector.
Qed.

#[global] Program Instance SystematicEncoder_laws :
    PieceSourceLaws SystematicEncoder.SystematicRLNCEncoder := {|
  source_of n L P s := ∃ k, systematic_ok n L P s k
|}.
Next Obligation.
  intros n L P s rand [k Hs] Hr. pose proof Hs as [_ HP _ Hk].
  destruct (decide (k < n)) as [Hlt|Hge].
  - destruct (systematic_piece_uncoded n L P rand s k Hs Hlt) as (s' & Hc & Hs').
    eexists _, s'. simpl. rewrite Hc. simpl. split; [done|].
    split; [by eexists|]. by apply uncoded_piece_codes.
  - assert (k = n) as -> by lia. eexists _, s. simpl.
    rewrite (systematic_piece_coded n L P) by done. simpl. split; [done|].
    split; [by eexists|]. apply drawn_piece_codes; auto.
Qed.

(** ** The recoder *)

Context `{Scheduler}.

Lemma fill_ok ps : Recoder.fill ps = Vector <$> ps.
Proof.
  apply list_fmap_ext. intros i c _. apply go_copy_full. by rewrite length_replicate.
Qed.

Record recoder_ok (n L : nat) (P : list Piece) (r : Recoder.FullRLNCRecoder) : Prop := {
  rec_ok : pieces_ok n L P;
  rec_some : Recoder.pieces r ≠ [];
  rec_shape : Forall (well_shaped n L) (Recoder.pieces r);
  rec_codes : Forall (codes L P) (Recoder.pieces r);
  rec_matrix : Recoder.codingMatrix r = Vector <$> Recoder.pieces r
}.

Lemma recoder_piece_ok n L P r rand :
  recoder_ok n L P r → fills rand →
  let v := rand (length (Recoder.pieces r)) in
  Recoder.CodedPiece rand r = Some (Ok {|
    Vector := lincomb n v (Vector <$> Recoder.pieces r);
    Data := lincomb L v (Data <$> Recoder.pieces r) |}).
Proof.
  intros [HP Hne Hsh _ HM] Hr v. unfold Recoder.CodedPiece. rewrite HM.
  destruct (Recoder.pieces r) as [|c cs] eqn:Hcs; [done|].
  change ((c :: cs) !! 0) with (Some c). cbn [mbind option_bind].
  assert (length (Data c) = L) as Hc by (apply Forall_cons in Hsh as [[_ ?] _]; done).
  assert (Forall (λ p, length p = L) (Data <$> c :: cs)) as HL.
  { apply Forall_fmap. eapply Forall_impl; [exact Hsh|]. by intros ? [_ ?]. }
  assert (Forall (λ p, length p = n) (Vector <$> c :: cs)) as Hn.
  { apply Forall_fmap. eapply Forall_impl; [exact Hsh|]. by intros ? [? _]. }
  unfold zlen. rewrite Hc. pose proof HP as [_ _ _ [_ Hm]]. rewrite make_bytes_ok by done.
  cbn [mbind option_bind]. unfold GenerateCodingVector. fold v.
  rewrite (multiply_all_ok L) by (rewrite ?length_fmap; try apply Hr; done).
  cbn [mbind option_bind].
  rewrite (MatrixMultiply_ok [v] (Vector <$> c :: cs) n); [done|done|done| |done].
  constructor; [|done]. rewrite length_fmap. apply Hr.
Qed.

Lemma recoded_codes n L P cs v :
  pieces_ok n L P → Forall (well_shaped n L) cs → Forall (codes L P) cs →
  well_shaped n L {| Vector := lincomb n v (Vector <$> cs); Data := lincomb L v (Data <$> cs) |} ∧
  codes L P {| Vector := lincomb n v (Vector <$> cs); Data := lincomb L v (Data <$> cs) |}.
Proof.
  intros [_ HPL _ _] Hsh Hco.
  assert (Forall (λ p, length p = L) (Data <$> cs)) as HL.
  { apply Forall_fmap. eapply Forall_impl; [exact Hsh|]. by intros ? [_ ?]. }
  assert (Forall (λ p, length p = n) (Vector <$> cs)) as Hn.
  { apply Forall_fmap. eapply Forall_impl; [exact Hsh|]. by intros ? [? _]. }
  split; [split; by apply length_lincomb|].
  apply (linear_combination n L (consistent L P)); try done.
  - by apply consistent_linear.
  - unfold consistent. symmetry. by apply lincomb_zeros.
  - apply Forall2_fmap, Forall_Forall2_diag. exact Hco.
Qed.

#[global] Program Instance Recoder_laws : PieceSourceLaws Recoder.FullRLNCRecoder := {|
  source_of n L P r := recoder_ok n L P r
|}.
Next Obligation.
  intros n L P r rand HR Hr. eexists _, r. simpl.
  rewrite (recoder_piece_ok n L P) by done. split; [done|]. split; [done|].
  destruct HR as [HP _ Hsh Hco _]. by apply recoded_codes.
Qed.
End sources.

(** * Runs of emissions *)

Section runs.
Context `{GaloisFieldLaws} `{Scheduler}.
Import Full.

Lemma emit_all_sound `{HS : !PieceSource Src} `{HL : !PieceSourceLaws Src} n L P rands (s : Src) :
  source_of n L P s → Forall fills rands →
  ∃ cs s', emit_all rands s = Some (Ok cs, s') ∧ source_of n L P s' ∧
    length cs = length rands ∧ Forall (well_shaped n L) cs ∧ Forall (codes L P) cs.
Proof.
  intros Hs HF. revert s Hs. induction HF as [|rand rands Hr _ IH]; intros s Hs.
  { exists [], s. by split_and!. }
  destruct (emit_sound n L P s rand Hs Hr) as (c & s1 & He & Hs1 & Hc & Hco).
  destruct (IH s1 Hs1) as (cs & s2 & Hes & Hs2 & Hlen & Hcs & Hcos).
  exists (c :: cs), s2. simpl. rewrite He. simpl. rewrite Hes. simpl.
  split_and!; auto.
Qed.

(** A run of emissions ends a decoder as soon as its vectors have full rank. *)
Lemma emitted_decode `{HS : !PieceSource Src} `{HL : !PieceSourceLaws Src} n L P rands (s : Src) :
  2 ≤ n → (Z.of_nat n < 2 ^ 64)%Z → length P = n → Forall (λ p, length p = L) P →
  source_of n L P s → Forall fills rands → (Z.of_nat (length rands) < 2 ^ 64)%Z →
  ∃ cs s', emit_all rands s = Some (Ok cs, s') ∧
    (full_rank n (Vector <$> cs) →
     ∃ d, feed (NewFullRLNCDecoder (Z.of_nat n)) cs = Some d ∧ IsDecoded d = true ∧
       GetPieces d = Some (Ok P)).
Proof.
  intros Hn Hn64 HP HPL Hs HF Hlen.
  destruct (emit_all_sound n L P rands s Hs HF) as (cs & s' & He & _ & Hl & Hcs & Hco).
  exists cs, s'. split; [done|]. intros Hrank.
  destruct (feed_new n L cs) as (d & Hfeed & [Hinv _ Hrel Hker _]); [done|done|done|lia|].
  exists d. split; [done|]. destruct (IsDecoded d) eqn:Hd.
  - split; [done|]. rewrite (GetPieces_ok n L) by done. do 2 f_equal.
    apply (decoded_rows n L); auto. apply Hrel; [by apply consistent_linear|done].
  - destruct (not_decoded_kernel n L d Hinv Hd) as (x & Hx & Hnz & Hk).
    destruct Hnz. apply Hrank; [done|]. by apply Hker.
Qed.

(** The unit vectors alone have full rank. *)
Lemma units_full_rank n vs :
  (∀ k, k < n → unit_vector n k ∈ vs) → full_rank n vs.
Proof.
  intros Hvs x Hx Hk. apply all_zero; [done|]. intros i Hi.
  unfold kernel in Hk. rewrite Forall_forall in Hk. rewrite <-(Hk _ (Hvs i Hi)). symmetry.
  destruct (unit_vector_is_unit n i Hi) as (_ & Hone & Hz).
  apply dot_unit; rewrite ?length_unit_vector; auto.
Qed.

(** The first [n - k] emissions of a systematic encoder at position [k]. *)
Lemma systematic_run n L P s k rands :
  systematic_ok n L P s k → Forall fills rands → n ≤ k + length rands →
  ∃ cs s', emit_all rands s = Some (Ok cs, s') ∧
    take (n - k) cs = (λ i, {| Vector := unit_vector n i; Data := nth i P [] |}) <$> seq k (n - k).
Proof.
  intros Hs HF. revert s k Hs. induction HF as [|rand rands Hr HF IH]; intros s k Hs Hlen.
  { exists [], s. simpl in *. pose proof (sys_bound _ _ _ _ _ Hs).
    replace (n - k) with 0 by lia. done. }
  simpl in Hlen. destruct (decide (k < n)) as [Hk|Hk].
  - destruct (systematic_piece_uncoded n L P rand s k Hs Hk) as (s1 & He & Hs1).
    destruct (IH s1 (S k) Hs1) as (cs & s2 & Hes & Htake); [lia|].
    eexists (_ :: cs), s2. simpl. rewrite He. simpl. rewrite Hes. simpl. split; [done|].
    replace (n - k) with (S (n - S k)) by lia. csimpl. by rewrite Htake.
  - assert (k = n) as -> by (pose proof (sys_bound _ _ _ _ _ Hs); lia).
    destruct (emit_all_sound n L P (rand :: rands) s) as (cs & s' & He & _);
      [by exists n|by constructor|].
    exists cs, s'. split; [done|]. by rewrite Nat.sub_diag.
Qed.

Lemma emit_all_det `{HS : !PieceSource Src} rands (s : Src) cs cs' s1 s2 :
  emit_all rands s = Some (Ok cs, s1) → emit_all rands s = Some (Ok cs', s2) → cs = cs'.
Proof. intros -> [= ->]. done. Qed.

(** Splitting gives a set of pieces a producer can serve. *)
Lemma split_pieces_ok (data : list byte) (n : nat) :
  2 ≤ n → (Z.of_nat n ≤ zlen data)%Z → (2 * zlen data ≤ max_alloc)%Z →
  ∃ P padding L,
    OriginalPiecesFromDataAndPieceCount data (Z.of_nat n) = Some (Ok (P, padding)) ∧
    pieces_ok n L P ∧ concat P = data ++ zeros (Z.to_nat padding).
Proof.
  intros Hn Hle Hmax.
  destruct (split_by_count_pieces data (Z.of_nat n)) as (P & pad & w & Hs & Hl & Hw & HF & Hc & Hpad);
    [lia|done|].
  exists P, pad, w. split; [done|]. split; [|done]. unfold zlen in *.
  assert (length P = n) as HP by lia. split; [done|done|lia|].
  assert (length (concat P) = n * w) as Hcl.
  { rewrite <-HP. clear -HF. induction HF as [|p P Hp _ IH]; [done|].
    simpl. rewrite length_app, IH. lia. }
  rewrite Hc, length_app in Hcl. unfold zeros in Hcl. rewrite length_replicate in Hcl.
  split; [lia|]. nia.
Qed.
End runs.

(** * Theorems *)

Section theorems.
Context `{GaloisFieldLaws} `{Scheduler}.
Import Full.

(** C25: data cut into n pieces and sent through the full encoder comes back:
    whatever symbols are drawn, the encoder neither fails nor panics, and
    once the drawn vectors have full rank the decoder returns pieces whose
    concatenation is the data followed by [Padding] zero bytes. *)
Theorem encode_decode_data (data : list byte) (n : nat) rands :
  2 ≤ n → (Z.of_nat n ≤ zlen data)%Z → (2 * zlen data ≤ max_alloc)%Z →
  Forall fills rands → (Z.of_nat (length rands) < 2 ^ 64)%Z →
  ∃ f cs f',
    FullEncoder.NewFullRLNCEncoderWithPieceCount data (Z.of_nat n) = Some (Ok f) ∧
    emit_all rands f = Some (Ok cs, f') ∧
    (full_rank n (Vector <$> cs) →
     ∃ d P, feed (NewFullRLNCDecoder (Z.of_nat n)) cs = Some d ∧ IsDecoded d = true ∧
       GetPieces d = Some (Ok P) ∧
       concat P = data ++ zeros (Z.to_nat (FullEncoder.Padding f))).
Proof.
  intros Hn Hle Hmax HF Hlen.
  destruct (split_pieces_ok data n) as (P & pad & L & Hs & HP & Hc); [done..|].
  unfold FullEncoder.NewFullRLNCEncoderWithPieceCount, FullEncoder.with_split. rewrite Hs. simpl.
  pose proof HP as [HPn HPL _ [Hm _]]. unfold max_alloc in *.
  set (f := {| FullEncoder.pieces := P; FullEncoder.extra := pad |}).
  destruct (emitted_decode n L P rands f) as (cs & f' & He & Hdec); auto; [lia|done|].
  exists f, cs, f'. split_and!; [done|done|]. intros Hrank.
  destruct (Hdec Hrank) as (d & ? & ? & ?). by exists d, P.
Qed.

(** the systematic encoder needs no luck: whatever symbols are drawn, n
    consecutive emissions from a fresh encoder (and possibly more) complete a
    decoder, which returns the data followed by [Padding] zero bytes. *)
Theorem systematic_data_roundtrip (data : list byte) (n : nat) rands :
  2 ≤ n → (Z.of_nat n ≤ zlen data)%Z → (2 * zlen data ≤ max_alloc)%Z →
  Forall fills rands → n ≤ length rands → (Z.of_nat (length rands) < 2 ^ 64)%Z →
  ∃ s cs s' d P,
    SystematicEncoder.NewSystematicRLNCEncoderWithPieceCount data (Z.of_nat n) = Some (Ok s) ∧
    emit_all rands s = Some (Ok cs, s') ∧
    feed (NewFullRLNCDecoder (Z.of_nat n)) cs = Some d ∧ IsDecoded d = true ∧
    GetPieces d = Some (Ok P) ∧
    concat P = data ++ zeros (Z.to_nat (SystematicEncoder.Padding s)).
Proof.
  intros Hn Hle Hmax HF Hrn Hlen.
  destruct (split_pieces_ok data n) as (P & pad & L & Hs & HP & Hc); [done..|].
  unfold SystematicEncoder.NewSystematicRLNCEncoderWithPieceCount, SystematicEncoder.with_split.
  rewrite Hs. simpl. pose proof HP as [HPn HPL _ [Hm _]]. unfold max_alloc in *.
  set (s := {| SystematicEncoder.currentPieceId := 0; SystematicEncoder.pieces := P;
               SystematicEncoder.extra := pad |}).
  assert (systematic_ok n L P s 0) as Hsys by (split; [done|done|done|lia]).
  destruct (systematic_run n L P s 0 rands) as (cs & s' & He & Htake); [done..|].
  destruct (emitted_decode n L P rands s) as (cs' & s'' & He' & Hdec); auto; [lia|by exists 0|].
  assert (cs' = cs) as -> by (symmetry; by eapply emit_all_det).
  rewrite Nat.sub_0_r in Htake. destruct Hdec as (d & ? & ? & ?).
  { apply units_full_rank. intros k Hk. rewrite <-(take_drop n cs), fmap_app, Htake.
    apply elem_of_app. left. rewrite <-list_fmap_compose. apply list_elem_of_fmap.
    exists k. split; [done|]. apply elem_of_seq. lia. }
  exists s, cs, s', d, P. by split_and!.
Qed.

(** C26: recoding preserves the code: a recoder built from a byte string of
    flattened coded pieces of P, without decoding them, emits well-shaped
    coded pieces of the same P for every draw, and a decoder that receives
    only recoded pieces of full rank returns P. *)
Theorem recode_decode n L (P : list Piece) cs rands :
  2 ≤ n → 0 < L → pieces_ok n L P → cs ≠ [] →
  Forall (well_shaped n L) cs → Forall (codes L P) cs →
  (Z.of_nat (length cs * (n + L)) < 2 ^ 63)%Z →
  Forall fills rands → (Z.of_nat (length rands) < 2 ^ 64)%Z →
  ∃ r cs' r',
    Recoder.NewFullRLNCRecoderWithFlattenData (concat (flat <$> cs)) (zlen cs) (Z.of_nat n) =
      Some (Ok r) ∧
    emit_all rands r = Some (Ok cs', r') ∧
    Forall (well_shaped n L) cs' ∧ Forall (codes L P) cs' ∧
    (full_rank n (Vector <$> cs') →
     ∃ d, feed (NewFullRLNCDecoder (Z.of_nat n)) cs' = Some d ∧ GetPieces d = Some (Ok P)).
Proof.
  intros Hn HL HP Hne Hcs Hco Hmax HF Hlen.
  unfold Recoder.NewFullRLNCRecoderWithFlattenData.
  rewrite (CodedPiecesForRecoding_parse cs n L) by (done || exact Hcs). simpl.
  set (r := Recoder.NewFullRLNCRecoder cs).
  pose proof HP as [HPn HPL _ [Hm _]]. unfold max_alloc in *.
  assert (source_of n L P r) as Hr.
  { change (recoder_ok n L P r). split; [done..|apply fill_ok]. }
  destruct (emit_all_sound n L P rands r Hr HF) as (cs' & r' & He & _ & _ & Hcs' & Hco').
  destruct (emitted_decode n L P rands r) as (cs2 & r2 & He2 & Hdec); auto; [lia|].
  assert (cs2 = cs') as -> by exact (emit_all_det _ _ _ _ _ _ He2 He).
  exists r, cs', r'. split_and!; try done. intros Hrank.
  destruct (Hdec Hrank) as (d & ? & _ & ?). by exists d.
Qed.

(** [DecodableLen] is the length of the byte string made of as many
    flattened coded pieces as there are original pieces. *)
Theorem DecodableLen_is_flat_length n L (P : list Piece) rands :
  pieces_ok n L P → (Z.of_nat (n * (n + L)) ≤ max_alloc)%Z →
  Forall fills rands → length rands = n →
  let f := FullEncoder.NewFullRLNCEncoder P in
  ∃ cs f', emit_all rands f = Some (Ok cs, f') ∧
    FullEncoder.DecodableLen f = Some (zlen (concat (flat <$> cs))) ∧
    mapM Flatten cs = Some (flat <$> cs).
Proof.
  intros HP Hmax HF Hlen f. unfold max_alloc in Hmax.
  destruct (emit_all_sound n L P rands f) as (cs & f' & He & _ & Hl & Hcs & _); [done..|].
  exists cs, f'. split; [done|]. rewrite Hlen in Hl. split.
  - unfold FullEncoder.DecodableLen, FullEncoder.CodedPieceLen, FullEncoder.PieceSize,
      FullEncoder.PieceCount. simpl. rewrite (pieces_u64 n L) by done.
    destruct (pieces_head n L P HP) as (p & -> & Hp). simpl. rewrite Hp.
    assert (0 < n) by apply HP. rewrite (u64_small (_ + _)) by nia. rewrite u64_small by nia.
    f_equal. assert (length (concat (flat <$> cs)) = length cs * (n + L)) as Hc.
    { clear -Hcs. induction Hcs as [|c cs [Hv Hd] _ IH]; [done|]. csimpl.
      rewrite length_app, IH. unfold flat. rewrite length_app. lia. }
    unfold zlen. rewrite Hc. lia.
  - apply mapM_Some, Forall2_fmap_r, Forall_Forall2_diag.
    eapply Forall_impl; [exact Hcs|]. intros c [Hv Hd]. apply Flatten_spec.
    unfold zlen, max_alloc. rewrite Hv, Hd. pose proof (pieces_some _ _ _ HP). nia.
Qed.
End theorems.

(** ** Witnesses *)

(** A source that draws the [k]-th unit vector, and one that draws ones. *)
Definition draw_unit (k : nat) : nat → list byte := λ n, unit_vector n k.
Definition draw_ones : nat → list byte := λ n, replicate n x01.

Lemma draw_unit_fills k : fills (draw_unit k).
Proof. intros n. apply length_unit_vector. Qed.
Lemma draw_ones_fills : fills draw_ones.
Proof. intros n. apply length_replicate. Qed.

Definition ex_rands : list (nat → list byte) := [draw_ones; draw_unit 0; draw_unit 1].
Lemma ex_rands_fill : Forall fills ex_rands.
Proof. repeat constructor; auto using draw_ones_fills, draw_unit_fills. Qed.

Lemma encode_decode_data_witness :
  ∃ f cs f' d P,
    FullEncoder.NewFullRLNCEncoderWithPieceCount [x01; x02; x03] 2 = Some (Ok f) ∧
    emit_all ex_rands f = Some (Ok cs, f') ∧
    Full.feed (Full.NewFullRLNCDecoder 2) cs = Some d ∧ Full.IsDecoded d = true ∧
    Full.GetPieces d = Some (Ok P) ∧ concat P = [x01; x02; x03] ++ [x00].
Proof.
  destruct (encode_decode_data [x01; x02; x03] 2 ex_rands) as (f & cs & f' & Hf & He & Hd);
    [lia|done|by vm_compute|apply ex_rands_fill|done|].
  exists f, cs, f'.
  assert (f = {| FullEncoder.pieces := [[x01; x02]; [x03; x00]]; FullEncoder.extra := 1 |}) as ->.
  { assert (Some (Ok f) = FullEncoder.NewFullRLNCEncoderWithPieceCount [x01; x02; x03] 2) as E
      by (by rewrite <-Hf). vm_compute in E. by injection E. }
  destruct Hd as (d & P & Hd).
  - apply units_full_rank. intros k Hk.
    assert (Some (Ok cs, f') = emit_all ex_rands {| FullEncoder.pieces := [[x01; x02]; [x03; x00]];
      FullEncoder.extra := 1 |}) as E by (by rewrite <-He).
    vm_compute in E. injection E as -> _. apply list_elem_of_In.
    destruct k as [|[|k]]; [| |lia]; simpl; auto.
  - by exists d, P.
Defined.

Lemma systematic_data_roundtrip_witness :
  ∃ s cs s' d P,
    SystematicEncoder.NewSystematicRLNCEncoderWithPieceCount [x01; x02; x03] 2 = Some (Ok s) ∧
    emit_all ex_rands s = Some (Ok cs, s') ∧
    Full.feed (Full.NewFullRLNCDecoder 2) cs = Some d ∧ Full.IsDecoded d = true ∧
    Full.GetPieces d = Some (Ok P) ∧
    concat P = [x01; x02; x03] ++ zeros (Z.to_nat (SystematicEncoder.Padding s)).
Proof.
  apply (systematic_data_roundtrip [x01; x02; x03] 2 ex_rands);
    [lia|done|by vm_compute|apply ex_rands_fill|simpl; lia|done].
Defined.

Lemma recode_decode_witness :
  ∃ r cs' r',
    Recoder.NewFullRLNCRecoderWithFlattenData (concat (flat <$> ex_coded)) 3 2 = Some (Ok r) ∧
    emit_all ex_rands r = Some (Ok cs', r') ∧
    Forall (well_shaped 2 2) cs' ∧ Forall (codes 2 ex_pieces) cs' ∧
    (full_rank 2 (Vector <$> cs') →
     ∃ d, Full.feed (Full.NewFullRLNCDecoder 2) cs' = Some d ∧
       Full.GetPieces d = Some (Ok ex_pieces)).
Proof.
  apply (recode_decode 2 2 ex_pieces ex_coded ex_rands);
    [lia|lia|split; [done|by repeat constructor|lia|by vm_compute]|done|apply ex_shaped|
     apply ex_codes|by vm_compute|apply ex_rands_fill|done].
Defined.

Lemma DecodableLen_is_flat_length_witness :
  let f := FullEncoder.NewFullRLNCEncoder ex_pieces in
  ∃ cs f', emit_all [draw_ones; draw_unit 1] f = Some (Ok cs, f') ∧
    FullEncoder.DecodableLen f = Some (zlen (concat (flat <$> cs))) ∧
    mapM Flatten cs = Some (flat <$> cs).
Proof.
  apply (DecodableLen_is_flat_length 2 2 ex_pieces [draw_ones; draw_unit 1]);
    [split; [done|by repeat constructor|lia|by vm_compute]|by vm_compute| |done].
  repeat constructor; auto using draw_ones_fills, draw_unit_fills.
Defined.
