(* ===== verification/Xnc.v ===== *)
(** The file-transfer protocol (src/xnc/xnc.go, utils.go, config.go, client.go,
    server.go): packet formats, file splitting, the packets the server writes
    for a file and the receive loop of the client.

    The QUIC stream under the two programs is the sequence of [event]s its
    reads deliver: pieces of the byte stream cut anywhere, transient read
    errors, and the end of the stream when the sequence is exhausted.  The
    outcome of every write is an argument.  Opening and reading the file, the
    clock, RTT and throughput are outside the model. *)

From Stdlib Require Import ZArith Lia.
From Stdlib Require Import Strings.Byte.
From stdpp Require Import prelude numbers list.
From S2P Require Import Prelude GF Linear KodrData KodrMatrix RLNCDecoder RLNCEncoder.

Open Scope Z_scope.

(** * Constants *)

Definition TYPE_INIT_ENC : byte := x03.
Definition TYPE_INIT : byte := x04.
Definition TYPE_XNC_ENC : byte := x05.
Definition TYPE_XNC : byte := x06.
Definition TYPE_END : byte := x07.

Definition CHUNKSIZE : Z := Z.shiftl 1 14.
Definition TYPESIZE : Z := 1.
Definition IDSIZE : Z := 4.
Definition NUMSIZE : Z := 4.
Definition FILESIZESIZE : Z := 4.
Definition VECTORSIZE : Z := Z.quot CHUNKSIZE 1024.
Definition PIECESIZE : Z := Z.quot CHUNKSIZE VECTORSIZE.
Definition FRAMESIZE_ENC : Z := TYPESIZE + IDSIZE + NUMSIZE + FILESIZESIZE + VECTORSIZE + PIECESIZE.
Definition FRAMESIZE : Z := TYPESIZE + IDSIZE + NUMSIZE + FILESIZESIZE + PIECESIZE.
Definition INITSIZE : Z := 128.
Definition PIECECNT : Z := u64 VECTORSIZE.
Definition CODEDPIECECNT : Z := u64 (PIECECNT + 1).

Lemma xnc_constants :
  CHUNKSIZE = 16384 ∧ VECTORSIZE = 16 ∧ PIECESIZE = 1024 ∧ FRAMESIZE_ENC = 1053 ∧
  FRAMESIZE = 1037 ∧ PIECECNT = 16 ∧ CODEDPIECECNT = 17.
Proof. done. Qed.

Inductive XncError : Type :=
| ErrPacketType
| ErrAckLen
| ErrVectorOrPieceSize
| ErrPieceSize
| ErrPacketSize
| ErrUnknownType
| ErrPieces (e : KodrError).

(** * Packets *)

Record XNC : Type := {
  Type_ : byte; ChunkId : Z; ChunkNum : Z; ChunkSize : Z;
  XVector : list byte; XPiece : list byte; End_ : bool
}.
Record XNC_INIT : Type := { IType : byte; ILen : Z; Filename : list byte }.
Record XNC_INFO : Type := { FType : byte; FChunkNum : Z; FileSize : Z }.

(** [binary.BigEndian.PutUint32(l[off:off+4], uint32(v))] and [Uint32]. *)
Definition put_u32 (off v : Z) (l : list byte) : option (list byte) :=
  _ ← slice l off (off + 4);
  Some (take (Z.to_nat off) l ++ be_bytes 4 (u32 v) ++ drop (Z.to_nat (off + 4)) l).
Definition get_u32 (off : Z) (l : list byte) : option Z :=
  b ← slice l off (off + 4); Some (be_val b).
Definition u32_bytes (v : Z) : list byte := be_bytes 4 (u32 v).

(** [l[i] = b], which panics out of range. *)
Definition set_byte (i : Z) (b : byte) (l : list byte) : option (list byte) :=
  _ ← index l i; Some (<[Z.to_nat i := b]> l).

Definition EncodeInfo (data : XNC_INFO) : list byte :=
  [FType data] ++ u32_bytes (FChunkNum data) ++ u32_bytes (FileSize data).

Definition EncodeInit (data : XNC_INIT) : option (list byte) :=
  pkt ← make_bytes 128;
  pkt ← set_byte 0 (IType data) pkt;
  pkt ← put_u32 1 (ILen data) pkt;
  for_each (seqZ 0 (ILen data)) (λ i pkt,
    b ← index (Filename data) i; set_byte (5 + i) b pkt) pkt.

Definition DecodeInit (data : list byte) : option (result XncError XNC_INIT) :=
  t ← index data 0;
  if decide (t ≠ TYPE_INIT_ENC ∧ t ≠ TYPE_INIT) then Some (Err ErrPacketType)
  else
    len ← get_u32 1 data;
    name ← slice data 5 (5 + len);
    Some (Ok {| IType := t; ILen := len; Filename := name |}).

Definition EncodeEND (id : Z) (encode : bool) : option (list byte) :=
  pkt ← make_bytes (if encode then FRAMESIZE_ENC else FRAMESIZE);
  pkt ← set_byte 0 TYPE_END pkt;
  put_u32 1 id pkt.

Definition DecodeEND (pkt : list byte) (encode : bool) : option (result XncError Z) :=
  if decide (encode = true ∧ zlen pkt ≠ FRAMESIZE_ENC) then Some (Err ErrAckLen)
  else if decide (encode = false ∧ zlen pkt ≠ FRAMESIZE) then Some (Err ErrAckLen)
  else
    t ← index pkt 0;
    if decide (t ≠ TYPE_END) then Some (Err ErrPacketType)
    else id ← get_u32 1 pkt; Some (Ok id).

Definition EncodeXNCPkt (data : XNC) : option (result XncError (list byte)) :=
  if decide (Type_ data = TYPE_XNC_ENC ∧
      (zlen (XVector data) ≠ VECTORSIZE ∨ zlen (XPiece data) ≠ PIECESIZE))
  then Some (Err ErrVectorOrPieceSize)
  else if decide (Type_ data = TYPE_XNC ∧ zlen (XPiece data) ≠ PIECESIZE)
  then Some (Err ErrPieceSize)
  else
    let pkt := [Type_ data] ++ u32_bytes (ChunkId data) ++ u32_bytes (ChunkSize data) ++
               u32_bytes (ChunkNum data) in
    if decide (Type_ data = TYPE_XNC_ENC) then
      v ← slice (XVector data) 0 VECTORSIZE;
      p ← slice (XPiece data) 0 PIECESIZE;
      Some (Ok (pkt ++ v ++ p))
    else if decide (Type_ data = TYPE_XNC) then
      p ← slice (XPiece data) 0 PIECESIZE;
      Some (Ok (pkt ++ p))
    else Some (Ok pkt).

Definition DecodeXNCPkt (data : list byte) : option (result XncError XNC) :=
  if decide (zlen data ≠ FRAMESIZE_ENC ∧ zlen data ≠ FRAMESIZE) then Some (Err ErrPacketSize)
  else
    t ← index data 0;
    if decide (t = TYPE_END) then
      Some (Ok {| Type_ := t; ChunkId := 0; ChunkNum := 0; ChunkSize := 0;
                  XVector := []; XPiece := []; End_ := false |})
    else
      id ← get_u32 1 data;
      size ← get_u32 5 data;
      num ← get_u32 9 data;
      if decide (t = TYPE_XNC_ENC) then
        v ← slice data 13 (13 + VECTORSIZE);
        p ← slice data (13 + VECTORSIZE) (13 + VECTORSIZE + PIECESIZE);
        Some (Ok {| Type_ := t; ChunkId := id; ChunkNum := num; ChunkSize := size;
                    XVector := v; XPiece := p; End_ := false |})
      else if decide (t = TYPE_XNC) then
        p ← slice data 13 (zlen data);
        Some (Ok {| Type_ := t; ChunkId := id; ChunkNum := num; ChunkSize := size;
                    XVector := []; XPiece := p; End_ := false |})
      else Some (Err ErrUnknownType).

Definition GetXNCPkt (size id chunknum : Z) (codepiece : list byte)
    : option (result XncError (list byte)) :=
  EncodeXNCPkt {| Type_ := TYPE_XNC; ChunkId := id; ChunkSize := size; ChunkNum := chunknum;
                  XVector := []; XPiece := codepiece; End_ := false |}.

Definition GetXNCEncPkt (size id chunknum : Z) (codepiece : CodedPiece)
    : option (result XncError (list byte)) :=
  EncodeXNCPkt {| Type_ := TYPE_XNC_ENC; ChunkId := id; ChunkSize := size; ChunkNum := chunknum;
                  XVector := [] ++ Vector codepiece; XPiece := [] ++ Data codepiece;
                  End_ := false |}.

Definition GetFile `{GaloisField} (decoder : Full.FullRLNCDecoder)
    : option (result XncError (list byte)) :=
  r ← Full.GetPieces decoder;
  match r with
  | Err e => Some (Err (ErrPieces e))
  | Ok dec_p => Some (Ok (foldl (λ acc p, acc ++ p) [] dec_p))
  end.

(** * Splitting a file *)

Definition Min (a b : Z) : Z := if decide (a < b) then a else b.

(** The loop of [SpiltFile] from offset [i]: the file is cut at the multiples of
    the chunk size and the last chunk is padded with zeros. *)
Fixpoint split_loop (fuel : nat) (filebytes : list byte) (chunkSize i : Z)
    : option (list (list byte)) :=
  match fuel with
  | O => None
  | S fuel =>
      if decide (i < zlen filebytes) then
        rest ← slice filebytes i (zlen filebytes);
        chunkBytes ← slice filebytes i (Min (i + chunkSize) (i + zlen rest));
        chunkBytes ← (if decide (zlen chunkBytes < chunkSize) then
                        pad ← make_bytes (chunkSize - zlen chunkBytes); Some (chunkBytes ++ pad)
                      else Some chunkBytes);
        chunks ← split_loop fuel filebytes chunkSize (i + chunkSize);
        Some (chunkBytes :: chunks)
      else Some []
  end.

(** One iteration for each started chunk and the final test: fewer than
    [length filebytes + 1] iterations of a positive chunk size. *)
Definition SpiltFile (filebytes : list byte) (chunkSize : Z) : option (list (list byte)) :=
  split_loop (S (length filebytes)) filebytes chunkSize 0.

(** * The server *)

(** What a [stream.Write] reports: success, [io.EOF], or another error. *)
Inductive write_result : Type := Written | WriteEOF | WriteFailed.

(** [sendFile] either runs on, or returns early; the packets written so far are
    kept in both cases. *)
Inductive flow (A : Type) : Type := Continue (a : A) | Return (a : A).
Arguments Continue {A} a.
Arguments Return {A} a.

(** The loop over the pieces of chunk [i]. *)
Fixpoint send_pieces (pkt_of : Z → option (result XncError (list byte)))
    (write : Z → write_result) (ss : list Z) : option (flow (list (list byte))) :=
  match ss with
  | [] => Some (Continue [])
  | s :: ss =>
      r ← pkt_of s;
      match r with
      | Err _ => Some (Return [])
      | Ok pkt =>
          match write s with
          | WriteEOF => Some (Continue [])
          | WriteFailed => send_pieces pkt_of write ss
          | Written =>
              rest ← send_pieces pkt_of write ss;
              Some match rest with
                   | Continue pkts => Continue (pkt :: pkts)
                   | Return pkts => Return (pkt :: pkts)
                   end
          end
      end
  end.

Section server.
Context `{GaloisField} `{Scheduler}.
(** The random symbols of coded piece [j] of chunk [i], and the outcome of
    writing piece [s] of chunk [i]. *)
Context (rands : Z → Z → nat → list byte) (write : Z → Z → write_result).

(** The loop that fills [codedPieces]. *)
Definition coded_pieces (enc : FullEncoder.FullRLNCEncoder) (i : Z) : option (list CodedPiece) :=
  mapM (λ j, FullEncoder.CodedPiece (rands i j) enc) (seqZ 0 CODEDPIECECNT).

(** The body of the loop over the chunks. *)
Definition send_chunk (encode : bool) (filebytes : list byte) (chunks : list (list byte)) (i : Z)
    : option (flow (list (list byte))) :=
  let size := if decide (i = zlen chunks - 1)
              then zlen filebytes - CHUNKSIZE * (zlen chunks - 1) else CHUNKSIZE in
  chunk ← index chunks i;
  if encode then
    r ← FullEncoder.NewFullRLNCEncoderWithPieceCount chunk PIECECNT;
    match r with
    | Err _ => Some (Return [])
    | Ok enc =>
        codedPieces ← coded_pieces enc i;
        send_pieces (λ s, c ← index codedPieces s; GetXNCEncPkt size i (zlen chunks) c)
          (write i) (seqZ 0 CODEDPIECECNT)
    end
  else
    send_pieces (λ s, p ← slice chunk (s * PIECESIZE) ((s + 1) * PIECESIZE);
                      GetXNCPkt size i (zlen chunks) p)
      (write i) (seqZ 0 PIECECNT).

Fixpoint send_chunks (encode : bool) (filebytes : list byte) (chunks : list (list byte))
    (is_ : list Z) : option (flow (list (list byte))) :=
  match is_ with
  | [] => Some (Continue [])
  | i :: is_ =>
      r ← send_chunk encode filebytes chunks i;
      match r with
      | Return pkts => Some (Return pkts)
      | Continue pkts =>
          rest ← send_chunks encode filebytes chunks is_;
          Some match rest with
               | Continue more => Continue (pkts ++ more)
               | Return more => Return (pkts ++ more)
               end
      end
  end.

(** The packets [sendFile] puts on the stream for the file's bytes; the END
    packet is written five times. *)
Definition sendFile (filebytes : list byte) (encode : bool) : option (list (list byte)) :=
  chunks ← SpiltFile filebytes CHUNKSIZE;
  r ← send_chunks encode filebytes chunks (seqZ 0 (zlen chunks));
  match r with
  | Return pkts => Some pkts
  | Continue pkts =>
      endpkt ← EncodeEND (zlen chunks - 1) encode;
      Some (pkts ++ replicate 5 endpkt)
  end.
End server.

(** * Reading from the stream *)

Inductive event : Type := Deliver (bytes : list byte) | Fault.

(** [for accu_recv < n { stream.Read(buf[accu_recv:]) }]: a read delivers at most
    the space left, an error is retried, the end of the stream ends the loop.
    The bytes read and the events left. *)
Fixpoint read_full (space : nat) (evs : list event) : list byte * list event :=
  match space with
  | O => ([], evs)
  | S _ =>
      match evs with
      | [] => ([], [])
      | Fault :: evs => read_full space evs
      | Deliver bs :: evs =>
          if decide (length bs ≤ space)%nat then
            let '(r, evs) := read_full (space - length bs) evs in (bs ++ r, evs)
          else (take space bs, Deliver (drop space bs) :: evs)
      end
  end.

(** The buffer is allocated with zeros before it is filled. *)
Definition read_frame (size : Z) (evs : list event) : list byte * list event :=
  let '(bs, evs) := read_full (Z.to_nat size) evs in
  (go_copy (replicate (Z.to_nat size) x00) bs, evs).

(** The stream handler of [handleSession]: [open] gives the bytes of a file under
    the root directory, if it can be read. *)
Definition handle_stream `{GaloisField} `{Scheduler} (rands : Z → Z → nat → list byte)
    (write : Z → Z → write_result) (open : list byte → option (list byte)) (evs : list event)
    : option (list (list byte)) :=
  let '(buffer, _) := read_frame INITSIZE evs in
  r ← DecodeInit buffer;
  match r with
  | Err _ => Some []
  | Ok init =>
      match open (Filename init) with
      | None => Some []
      | Some filebytes =>
          sendFile rands write filebytes (bool_decide (IType init = TYPE_INIT_ENC))
      end
  end.

(** * The client *)

Record client_state : Type := {
  rFile : list byte;
  chunk : list byte;
  decoders : option (list Full.FullRLNCDecoder)
}.

(** What one iteration of the receive loop does: go on, leave the loop, or
    return nil after an error. *)
Inductive verdict : Type := Next (st : client_state) | Stop (st : client_state) | Failed.

Section client.
Context `{GaloisField} `{Scheduler}.

(** A piece completes the chunk: its bytes are appended up to [ChunkSize]. *)
Definition finish_chunk (xncD : XNC) (bytes : list byte) (st : client_state) : option verdict :=
  part ← slice bytes 0 (ChunkSize xncD);
  let st := {| rFile := rFile st ++ part; chunk := chunk st; decoders := decoders st |} in
  Some (if decide (ChunkId xncD = ChunkNum xncD - 1) then Stop st else Next st).

Definition client_packet (encode : bool) (xncD : XNC) (st : client_state) : option verdict :=
  if encode then
    let ds := match decoders st with
              | Some ds => ds
              | None => replicate (Z.to_nat (ChunkNum xncD)) (Full.NewFullRLNCDecoder PIECECNT)
              end in
    let pieceD := {| Vector := XVector xncD; Data := XPiece xncD |} in
    d ← index ds (ChunkId xncD);
    r ← Full.AddPiece d pieceD;
    let '(err, d) := r in
    let st := {| rFile := rFile st; chunk := chunk st;
                 decoders := Some (<[Z.to_nat (ChunkId xncD) := d]> ds) |} in
    match err with
    | Some e => Some (if decide (e = ErrAllUsefulPiecesReceived) then Next st else Failed)
    | None =>
        if Full.IsDecoded d then
          r ← GetFile d;
          match r with
          | Err _ => Some Failed
          | Ok recvfile => finish_chunk xncD recvfile st
          end
        else Some (Next st)
    end
  else
    let bytes := chunk st ++ XPiece xncD in
    if decide (zlen bytes = CHUNKSIZE) then
      finish_chunk xncD bytes {| rFile := rFile st; chunk := []; decoders := decoders st |}
    else Some (Next {| rFile := rFile st; chunk := bytes; decoders := decoders st |}).

(** The receive loop, [fuel] iterations at most: [Some (Some f)] when it is left
    with the file [f], [Some None] when it returns nil. *)
Fixpoint client_loop (fuel : nat) (encode : bool) (evs : list event) (st : client_state)
    : option (option (list byte)) :=
  match fuel with
  | O => None
  | S fuel =>
      let '(pktE, evs) := read_frame (if encode then FRAMESIZE_ENC else FRAMESIZE) evs in
      r ← DecodeXNCPkt pktE;
      match r with
      | Err _ => Some None
      | Ok xncD =>
          if decide (Type_ xncD = TYPE_END) then Some (Some (rFile st))
          else
            v ← client_packet encode xncD st;
            match v with
            | Next st => client_loop fuel encode evs st
            | Stop st => Some (Some (rFile st))
            | Failed => Some None
            end
      end
  end.

(** The packet the client writes first. *)
Definition client_request (filename : list byte) (encode : bool) : option (list byte) :=
  EncodeInit {| IType := if encode then TYPE_INIT_ENC else TYPE_INIT;
                ILen := zlen filename; Filename := filename |}.

(** The loop with fuel for every frame the events can hold. *)
Definition event_bytes (evs : list event) : list byte :=
  concat ((λ ev, match ev with Deliver bs => bs | Fault => [] end) <$> evs).
Definition Client (encode : bool) (evs : list event) : option (option (list byte)) :=
  client_loop (S (length (event_bytes evs))) encode evs
    {| rFile := []; chunk := []; decoders := None |}.
End client.

Close Scope Z_scope.

(** * Packet formats *)

Lemma u32_bytes_small v : (0 ≤ v < 2 ^ 32)%Z → be_val (u32_bytes v) = v.
Proof. intros Hv. unfold u32_bytes. rewrite u32_small by done. by apply be_val_bytes_small. Qed.

Lemma zlen_u32_bytes v : zlen (u32_bytes v) = 4%Z.
Proof. done. Qed.

Lemma get_u32_mid (a c : list byte) off v :
  off = zlen a → (0 ≤ v < 2 ^ 32)%Z → get_u32 off (a ++ u32_bytes v ++ c) = Some v.
Proof.
  intros Ho Hv. unfold get_u32. rewrite (slice_mid a (u32_bytes v) c) by (done || rewrite Ho; done).
  simpl. f_equal. by apply u32_bytes_small.
Qed.

Lemma put_u32_mid (a m c : list byte) off v :
  off = zlen a → zlen m = 4%Z → put_u32 off v (a ++ m ++ c) = Some (a ++ u32_bytes v ++ c).
Proof.
  intros -> Hm. unfold put_u32. rewrite (slice_mid a m c) by (rewrite ?Hm; done). simpl.
  unfold zlen in *. rewrite Nat2Z.id, take_app_length.
  replace (Z.to_nat (Z.of_nat (length a) + 4)) with (length (a ++ m))
    by (rewrite length_app; lia).
  by rewrite (app_assoc a m c), drop_app_length.
Qed.

Lemma set_byte_mid (a : list byte) x b c i :
  i = zlen a → set_byte i b (a ++ x :: c) = Some (a ++ b :: c).
Proof.
  intros ->. unfold set_byte, zlen. rewrite index_nat, list_lookup_middle by done. simpl.
  by rewrite Nat2Z.id, insert_app_r_alt, Nat.sub_diag by lia.
Qed.

(** The layout of a data packet. *)
Definition frame (t : byte) (id size num : Z) (body : list byte) : list byte :=
  [t] ++ u32_bytes id ++ u32_bytes size ++ u32_bytes num ++ body.

Lemma zlen_frame t id size num body : zlen (frame t id size num body) = (13 + zlen body)%Z.
Proof. unfold frame, zlen. simpl. lia. Qed.

Lemma GetXNCEncPkt_ok size id num c :
  zlen (Vector c) = VECTORSIZE → zlen (Data c) = PIECESIZE →
  GetXNCEncPkt size id num c =
    Some (Ok (frame TYPE_XNC_ENC id size num (Vector c ++ Data c))).
Proof.
  intros Hv Hp. unfold GetXNCEncPkt, EncodeXNCPkt. cbn [Type_ XVector XPiece app].
  rewrite decide_False by (intros [_ [?|?]]; done).
  rewrite decide_False by (intros [? ?]; done). rewrite decide_True by done.
  by rewrite !slice_all by done.
Qed.

Lemma GetXNCPkt_ok size id num p :
  zlen p = PIECESIZE →
  GetXNCPkt size id num p = Some (Ok (frame TYPE_XNC id size num p)).
Proof.
  intros Hp. unfold GetXNCPkt, EncodeXNCPkt. cbn [Type_ XVector XPiece].
  rewrite decide_False by (intros [? _]; done).
  rewrite decide_False by (intros [_ ?]; done). rewrite decide_False, decide_True by done.
  by rewrite !slice_all by done.
Qed.

Definition u32_range (z : Z) : Prop := (0 ≤ z < 2 ^ 32)%Z.

Lemma frame_fields t id size num body :
  u32_range id → u32_range size → u32_range num →
  index (frame t id size num body) 0 = Some t ∧
  get_u32 1 (frame t id size num body) = Some id ∧
  get_u32 5 (frame t id size num body) = Some size ∧
  get_u32 9 (frame t id size num body) = Some num.
Proof.
  intros Hi Hs Hn. unfold frame. split; [done|]. split; [by apply (get_u32_mid [t])|].
  split; [by apply (get_u32_mid ([t] ++ u32_bytes id))|].
  by apply (get_u32_mid ([t] ++ u32_bytes id ++ u32_bytes size)).
Qed.

Definition decoded_packet (t : byte) (id size num : Z) (v p : list byte) : XNC :=
  {| Type_ := t; ChunkId := id; ChunkNum := num; ChunkSize := size;
     XVector := v; XPiece := p; End_ := false |}.

Lemma DecodeXNCPkt_enc id size num v p :
  u32_range id → u32_range size → u32_range num →
  zlen v = VECTORSIZE → zlen p = PIECESIZE →
  DecodeXNCPkt (frame TYPE_XNC_ENC id size num (v ++ p)) =
    Some (Ok (decoded_packet TYPE_XNC_ENC id size num v p)).
Proof.
  intros Hi Hs Hn Hv Hp. unfold DecodeXNCPkt. rewrite zlen_frame, zlen_app, Hv, Hp.
  rewrite decide_False by (intros [? _]; done).
  destruct (frame_fields TYPE_XNC_ENC id size num (v ++ p) Hi Hs Hn) as (-> & -> & -> & ->).
  cbn [mbind option_bind]. rewrite decide_False, decide_True by done. unfold frame.
  set (h := [TYPE_XNC_ENC] ++ u32_bytes id ++ u32_bytes size ++ u32_bytes num).
  assert (zlen h = 13%Z) as Hh by done.
  change ([TYPE_XNC_ENC] ++ u32_bytes id ++ u32_bytes size ++ u32_bytes num ++ v ++ p)
    with (h ++ v ++ p).
  rewrite (slice_mid h v p 13 (13 + VECTORSIZE)) by (rewrite ?Hh, ?Hv; done). cbn [mbind option_bind].
  rewrite (app_assoc h v p), slice_end by (rewrite ?zlen_app, ?Hh, ?Hv, ?Hp; done).
  done.
Qed.

Lemma DecodeXNCPkt_plain id size num p :
  u32_range id → u32_range size → u32_range num → zlen p = PIECESIZE →
  DecodeXNCPkt (frame TYPE_XNC id size num p) =
    Some (Ok (decoded_packet TYPE_XNC id size num [] p)).
Proof.
  intros Hi Hs Hn Hp. unfold DecodeXNCPkt. rewrite zlen_frame, Hp.
  rewrite decide_False by (intros [_ ?]; done).
  destruct (frame_fields TYPE_XNC id size num p Hi Hs Hn) as (-> & -> & -> & ->).
  cbn [mbind option_bind]. rewrite !decide_False, decide_True by done. unfold frame.
  set (h := [TYPE_XNC] ++ u32_bytes id ++ u32_bytes size ++ u32_bytes num).
  assert (zlen h = 13%Z) as Hh by done.
  change ([TYPE_XNC] ++ u32_bytes id ++ u32_bytes size ++ u32_bytes num ++ p) with (h ++ p).
  rewrite slice_end by (rewrite ?zlen_app, ?Hh, ?Hp; done). done.
Qed.

(** The END packet. *)
Definition end_frame (id : Z) (encode : bool) : list byte :=
  [TYPE_END] ++ u32_bytes id ++
    replicate (Z.to_nat ((if encode then FRAMESIZE_ENC else FRAMESIZE) - 5)) x00.

Lemma EncodeEND_ok id encode : EncodeEND id encode = Some (end_frame id encode).
Proof.
  unfold EncodeEND, make_bytes. rewrite decide_True by (by destruct encode). cbn [mbind option_bind].
  assert (replicate (Z.to_nat (if encode then FRAMESIZE_ENC else FRAMESIZE)) x00 =
    [] ++ x00 :: ([x00; x00; x00; x00] ++
      replicate (Z.to_nat ((if encode then FRAMESIZE_ENC else FRAMESIZE) - 5)) x00)) as ->
    by (by destruct encode).
  rewrite (set_byte_mid []) by done. cbn [mbind option_bind app].
  by apply (put_u32_mid [TYPE_END] [x00; x00; x00; x00]).
Qed.

Lemma zlen_end_frame id encode :
  zlen (end_frame id encode) = if encode then FRAMESIZE_ENC else FRAMESIZE.
Proof. by destruct encode. Qed.

Lemma DecodeXNCPkt_end id encode :
  ∃ x, DecodeXNCPkt (end_frame id encode) = Some (Ok x) ∧ Type_ x = TYPE_END.
Proof.
  unfold DecodeXNCPkt. rewrite zlen_end_frame.
  rewrite decide_False by (destruct encode; intros [? ?]; done).
  change (index (end_frame id encode) 0) with (Some TYPE_END). cbn [mbind option_bind].
  rewrite decide_True by done. by eexists.
Qed.

(** * Splitting *)

(** The padded chunks of [r]. *)
Definition padded (C : nat) (r : list byte) : list (list byte) :=
  let k := Z.to_nat (ceil_div (zlen r) (Z.of_nat C)) in
  chunks C k (r ++ zeros (k * C - length r)).

(** The bytes of the file chunk [i] stands for. *)
Definition file_part (C : nat) (file : list byte) (i : nat) : list byte :=
  take C (drop (C * i) file).

Lemma padded_nil C : 0 < C → padded C [] = [].
Proof.
  intros HC. unfold padded, ceil_div, zlen. simpl. by rewrite Z.div_small by lia.
Qed.

Lemma padded_cons C r :
  0 < C → r ≠ [] →
  padded C r = (take C r ++ zeros (C - length r)) :: padded C (drop C r).
Proof.
  intros HC Hr. assert (0 < length r) by (destruct r; [done|simpl; lia]).
  unfold padded. pose proof (ceil_div_spec (zlen r) (Z.of_nat C)) as Hk.
  pose proof (ceil_div_spec (zlen (drop C r)) (Z.of_nat C)) as Hk'.
  rewrite zlen_drop in Hk'. unfold zlen in *. rewrite length_drop in *.
  set (k := ceil_div (Z.of_nat (length r)) (Z.of_nat C)) in *.
  set (k' := ceil_div (Z.of_nat (length r - C)) (Z.of_nat C)) in *.
  assert (k' = k - 1)%Z as Hkk.
  { unfold k, k', ceil_div. destruct (decide (C ≤ length r)).
    - replace (Z.of_nat (length r) + Z.of_nat C - 1)%Z
        with (Z.of_nat (length r - C) + Z.of_nat C - 1 + 1 * Z.of_nat C)%Z by lia.
      rewrite Z.div_add by lia. lia.
    - replace (length r - C) with 0 by lia. rewrite (Z.div_small (0 + _ - 1)) by lia.
      rewrite <-(Z.div_unique (Z.of_nat (length r) + Z.of_nat C - 1) (Z.of_nat C) 1
        (Z.of_nat (length r) - 1)); lia. }
  assert (0 < k)%Z by nia. clearbody k k'. subst k'.
  destruct (Z.to_nat k) as [|m] eqn:Hm; [lia|]. replace (Z.to_nat (k - 1)) with m by lia.
  simpl. destruct (decide (C ≤ length r)).
  - rewrite take_app_le, drop_app_le by lia. replace (C - length r) with 0 by lia.
    rewrite app_nil_r. do 4 f_equal. nia.
  - assert (m = 0) as -> by nia. simpl. f_equal.
    rewrite (take_ge r) by lia. rewrite take_ge; [|rewrite length_app; unfold zeros;
      rewrite length_replicate; lia]. by rewrite Nat.add_0_r.
Qed.

Lemma split_loop_ok fuel (file : list byte) C (i : nat) :
  0 < C → (Z.of_nat C ≤ max_alloc)%Z → length file - i < fuel →
  split_loop fuel file (Z.of_nat C) (Z.of_nat i) = Some (padded C (drop i file)).
Proof.
  intros HC Hmax. revert i. induction fuel as [|fuel IH]; intros i Hf; [lia|]. simpl.
  case_decide as Hi; unfold zlen in Hi.
  - rewrite slice_ok by (unfold zlen; lia). cbn [mbind option_bind].
    assert (drop i file ≠ []) as Hne.
    { intros E. apply (f_equal length) in E. rewrite length_drop in E. simpl in E. lia. }
    rewrite (padded_cons C (drop i file)) by done. rewrite drop_drop.
    assert (take (Z.to_nat (zlen file - Z.of_nat i)) (drop (Z.to_nat (Z.of_nat i)) file) =
      drop i file) as Hrest.
    { rewrite Nat2Z.id. apply take_ge. unfold zlen. rewrite length_drop. lia. }
    rewrite Hrest.
    assert (slice file (Z.of_nat i) (Min (Z.of_nat i + Z.of_nat C)
      (Z.of_nat i + zlen (drop i file))) = Some (take C (drop i file))) as ->.
    { unfold Min, zlen. rewrite length_drop. case_decide;
        (rewrite slice_ok by (unfold zlen; lia)); rewrite Nat2Z.id; f_equal.
      - f_equal. lia.
      - rewrite !take_ge by (rewrite length_drop; lia). done. }
    cbn [mbind option_bind]. specialize (IH (i + C)).
    rewrite Nat2Z.inj_add in IH. rewrite IH by lia.
    rewrite zlen_take. case_decide as Hshort; unfold zlen in Hshort; rewrite length_drop in *.
    + unfold make_bytes, zlen. rewrite length_drop, decide_True by lia.
      cbn [mbind option_bind]. do 4 f_equal. unfold zeros. f_equal.
      lia.
    + cbn [mbind option_bind]. replace (C - (length file - i)) with 0 by lia.
      by rewrite app_nil_r.
  - rewrite drop_ge by lia. by rewrite padded_nil.
Qed.

Lemma lookup_chunks {A} w c (l : list A) i :
  i < c → chunks w c l !! i = Some (take w (drop (w * i) l)).
Proof.
  revert l i. induction c as [|c IH]; intros l i Hi; [lia|]. destruct i as [|i]; simpl.
  - by rewrite Nat.mul_0_r, drop_0.
  - rewrite IH by lia. rewrite drop_drop. do 3 f_equal. lia.
Qed.

Lemma concat_file_parts C (file : list byte) k :
  length file ≤ k * C → concat (file_part C file <$> seq 0 k) = file.
Proof.
  assert (∀ o, length file ≤ (o + k) * C →
    concat (file_part C file <$> seq o k) = drop (C * o) file) as Hgen.
  { induction k as [|k IH]; intros o Hl; simpl.
    - by rewrite drop_ge by lia.
    - rewrite IH by lia. unfold file_part. rewrite <-(take_drop C (drop (C * o) file)) at 2.
      rewrite drop_drop. do 2 f_equal. lia. }
  intros Hl. rewrite Hgen by lia. by rewrite Nat.mul_0_r, drop_0.
Qed.

(** * The packets of a file *)

Definition encode_packet (x : XNC) : list byte :=
  frame (Type_ x) (ChunkId x) (ChunkSize x) (ChunkNum x) (XVector x ++ XPiece x).

Definition frame_size (encode : bool) : nat :=
  Z.to_nat (if encode then FRAMESIZE_ENC else FRAMESIZE).

(** A packet the server can write. *)
Record valid_packet (encode : bool) (x : XNC) : Prop := {
  valid_type : Type_ x = if encode then TYPE_XNC_ENC else TYPE_XNC;
  valid_id : u32_range (ChunkId x);
  valid_size : u32_range (ChunkSize x);
  valid_num : u32_range (ChunkNum x);
  valid_vector : zlen (XVector x) = if encode then VECTORSIZE else 0%Z;
  valid_piece : zlen (XPiece x) = PIECESIZE;
  valid_end : End_ x = false
}.

Lemma valid_packet_decodes encode x :
  valid_packet encode x →
  length (encode_packet x) = frame_size encode ∧
  DecodeXNCPkt (encode_packet x) = Some (Ok x) ∧ Type_ x ≠ TYPE_END.
Proof.
  destruct x as [t id num size v p e]. intros [Ht Hi Hs Hn Hv Hp He]. simpl in *. subst t e.
  unfold encode_packet. cbn [Type_ ChunkId ChunkSize ChunkNum XVector XPiece]. split.
  - unfold frame_size. enough (zlen (frame (if encode then TYPE_XNC_ENC else TYPE_XNC)
      id size num (v ++ p)) = if encode then FRAMESIZE_ENC else FRAMESIZE) as Hl
      by (rewrite <-Hl; unfold zlen; by rewrite Nat2Z.id).
    rewrite zlen_frame, zlen_app, Hv, Hp. by destruct encode.
  - destruct encode; (split; [|done]).
    + rewrite DecodeXNCPkt_enc by done. done.
    + destruct v as [|? v]; [|unfold zlen in Hv; simpl in Hv; lia].
      rewrite app_nil_l, DecodeXNCPkt_plain by done. done.
Qed.

(** The chunk of the code, the pieces it is cut into and the counts. *)
Definition chunk_len : nat := Z.to_nat CHUNKSIZE.
Definition piece_len : nat := Z.to_nat PIECESIZE.
Definition piece_cnt : nat := Z.to_nat VECTORSIZE.

Lemma lens_Z :
  Z.of_nat chunk_len = CHUNKSIZE ∧ Z.of_nat piece_len = PIECESIZE ∧
  Z.of_nat piece_cnt = VECTORSIZE.
Proof. done. Qed.

Lemma lens_mul : piece_cnt * piece_len = chunk_len.
Proof. unfold piece_cnt, piece_len, chunk_len. by rewrite <-Z2Nat.inj_mul. Qed.

#[local] Opaque chunk_len piece_len piece_cnt CHUNKSIZE PIECESIZE VECTORSIZE CODEDPIECECNT
  FRAMESIZE FRAMESIZE_ENC.

Ltac xnc_lia :=
  pose proof lens_Z as (?Hlc & ?Hlp & ?Hlv); pose proof lens_mul as ?Hlm;
  pose proof xnc_constants as (?Hc1 & ?Hc2 & ?Hc3 & ?Hc4 & ?Hc5 & ?Hc6 & ?Hc7);
  unfold zlen, max_alloc, u32_range in *; lia.

Definition pieces_of (ch : list byte) : list Piece := chunks piece_len piece_cnt ch.

Lemma pieces_of_ok ch :
  length ch = chunk_len →
  length (pieces_of ch) = piece_cnt ∧ Forall (λ p, length p = piece_len) (pieces_of ch) ∧
  concat (pieces_of ch) = ch.
Proof.
  intros Hl. unfold pieces_of. split; [apply length_chunks|]. split.
  - apply chunks_widths. pose proof lens_mul. lia.
  - apply concat_chunks. pose proof lens_mul. lia.
Qed.


Definition size_of (file : list byte) (k i : nat) : Z :=
  if decide (Z.of_nat i = Z.of_nat k - 1)%Z
  then (zlen file - CHUNKSIZE * (Z.of_nat k - 1))%Z else CHUNKSIZE.

Definition plain_packets (file ch : list byte) (k i : nat) : list XNC :=
  decoded_packet TYPE_XNC (Z.of_nat i) (size_of file k i) (Z.of_nat k) [] <$> pieces_of ch.

Definition coded_of `{GaloisField} (rands : Z → Z → nat → list byte) (ch : list byte) (i : nat)
    : list CodedPiece :=
  (λ j, {| Vector := rands (Z.of_nat i) j piece_cnt;
           Data := lincomb piece_len (rands (Z.of_nat i) j piece_cnt) (pieces_of ch) |})
    <$> seqZ 0 CODEDPIECECNT.

Definition coded_packets `{GaloisField} (rands : Z → Z → nat → list byte) (file ch : list byte)
    (k i : nat) : list XNC :=
  (λ c, decoded_packet TYPE_XNC_ENC (Z.of_nat i) (size_of file k i) (Z.of_nat k)
          (Vector c) (Data c)) <$> coded_of rands ch i.

Definition packets_of `{GaloisField} (encode : bool) (rands : Z → Z → nat → list byte)
    (file ch : list byte) (k i : nat) : list XNC :=
  if encode then coded_packets rands file ch k i else plain_packets file ch k i.

Lemma send_pieces_ok pkt_of (write : Z → write_result) ss pkts :
  (∀ s, write s = Written) → Forall2 (λ s pkt, pkt_of s = Some (Ok pkt)) ss pkts →
  send_pieces pkt_of write ss = Some (Continue pkts).
Proof.
  intros Hw. induction 1 as [|s pkt ss pkts Hp _ IH]; [done|].
  simpl. rewrite Hp. simpl. rewrite Hw, IH. done.
Qed.

Lemma Forall2_and_r {A B} (P : A → B → Prop) (Q : B → Prop) l k :
  Forall2 P l k → Forall Q k → Forall2 (λ x y, P x y ∧ Q y) l k.
Proof. induction 1; intros HF; [done|]. apply Forall_cons in HF as [? ?]. constructor; auto. Qed.

Lemma Forall2_index {A} (l : list A) : Forall2 (λ s x, index l s = Some x) (seqZ 0 (zlen l)) l.
Proof.
  enough (∀ pre, Forall2 (λ s x, index (pre ++ l) s = Some x) (seqZ (zlen pre) (zlen l)) l) as Hg
    by apply (Hg []).
  induction l as [|x l IH]; intros pre; [done|].
  rewrite seqZ_cons by (unfold zlen; simpl; lia). constructor.
  - unfold zlen. by rewrite index_nat, list_lookup_middle.
  - specialize (IH (pre ++ [x])). rewrite <-app_assoc in IH.
    replace (Z.succ (zlen pre)) with (zlen (pre ++ [x])) by (unfold zlen; rewrite length_app; simpl; lia).
    replace (Z.pred (zlen (x :: l))) with (zlen l) by (unfold zlen; simpl; lia). done.
Qed.

Lemma concat_fmap {A B} (f : A → B) (ls : list (list A)) :
  f <$> concat ls = concat ((λ l : list A, f <$> l) <$> ls).
Proof. induction ls as [|l ls IH]; [done|]. csimpl. by rewrite fmap_app, IH. Qed.

Lemma imap_seq_0 {A B} (f : nat → list A → B) (ls : list (list A)) :
  imap f ls = (λ i, f i (nth i ls [])) <$> seq 0 (length ls).
Proof.
  apply list_eq. intros i. rewrite list_lookup_imap, list_lookup_fmap.
  destruct (ls !! i) as [l|] eqn:Hl; simpl.
  - rewrite lookup_seq_lt by by eapply lookup_lt_Some. simpl. by rewrite (nth_lookup_Some ls i [] l Hl).
  - rewrite lookup_seq_ge by by apply lookup_ge_None_1. done.
Qed.

Section server_proofs.
Context `{GaloisFieldLaws} `{Scheduler}.
Context (rands : Z → Z → nat → list byte) (write : Z → Z → write_result).
Context (rands_fill : ∀ i j, fills (rands i j)) (all_written : ∀ i s, write i s = Written).

Lemma split_chunk ch :
  length ch = chunk_len →
  OriginalPiecesFromDataAndPieceCount ch PIECECNT = Some (Ok (pieces_of ch, 0%Z)).
Proof.
  intros Hl. unfold OriginalPiecesFromDataAndPieceCount.
  assert (zlen ch = CHUNKSIZE) as Hz by xnc_lia. rewrite Hz.
  rewrite decide_False by xnc_lia. rewrite i64_small by xnc_lia.
  rewrite decide_False by xnc_lia.
  assert (ceil_div CHUNKSIZE PIECECNT = PIECESIZE) as -> by done.
  assert (u64 (PIECECNT * PIECESIZE - CHUNKSIZE) = 0%Z) as -> by done. simpl.
  rewrite (split_by_size_exact ch PIECESIZE VECTORSIZE) by xnc_lia. done.
Qed.

Lemma pieces_of_pieces_ok ch :
  length ch = chunk_len → pieces_ok piece_cnt piece_len (pieces_of ch).
Proof.
  intros Hl. destruct (pieces_of_ok ch Hl) as (H1' & H2' & _). split; [done|done|xnc_lia|].
  split; xnc_lia.
Qed.

Lemma coded_pieces_ok ch (i : nat) extra :
  length ch = chunk_len →
  coded_pieces rands {| FullEncoder.pieces := pieces_of ch; FullEncoder.extra := extra |}
    (Z.of_nat i) = Some (coded_of rands ch i).
Proof.
  intros Hl. unfold coded_pieces, coded_of. apply mapM_Some, Forall2_fmap_r.
  apply Forall_Forall2_diag, Forall_true. intros j.
  apply (full_piece_ok piece_cnt piece_len (pieces_of ch)); [done| |done].
  by apply pieces_of_pieces_ok.
Qed.

Lemma coded_of_shape ch i :
  length ch = chunk_len →
  Forall (well_shaped piece_cnt piece_len) (coded_of rands ch i) ∧
  Forall (codes piece_len (pieces_of ch)) (coded_of rands ch i).
Proof.
  intros Hl. pose proof (pieces_of_pieces_ok ch Hl) as HP. unfold coded_of.
  split; apply Forall_fmap, Forall_true; intros j; simpl;
    (eapply drawn_piece_codes; [exact HP|apply rands_fill]).
Qed.

Lemma size_of_range file k i :
  k = length (padded chunk_len file) → i < k → (0 ≤ size_of file k i ≤ CHUNKSIZE)%Z.
Proof.
  intros -> Hi. unfold padded in *. rewrite length_chunks in *.
  pose proof (ceil_div_spec (zlen file) (Z.of_nat chunk_len)) as Hk.
  set (k := ceil_div (zlen file) (Z.of_nat chunk_len)) in *.
  pose proof lens_Z as (Hc & _). pose proof xnc_constants as (Hc' & _).
  pose proof (zlen_nonneg file). unfold size_of. case_decide; [|lia].
  rewrite Hc in *. rewrite Hc' in *. lia.
Qed.

Lemma packets_valid encode file ch k i :
  k = length (padded chunk_len file) → i < k → (Z.of_nat k < 2 ^ 32)%Z →
  length ch = chunk_len →
  Forall (valid_packet encode) (packets_of encode rands file ch k i).
Proof.
  intros Hk Hi Hk32 Hl. pose proof (size_of_range file k i Hk Hi) as Hs.
  destruct (pieces_of_ok ch Hl) as (_ & HF & _).
  destruct (coded_of_shape ch i Hl) as [Hsh _].
  destruct encode; simpl; unfold coded_packets, plain_packets; apply Forall_fmap;
    (eapply Forall_impl; [eassumption|]); simpl.
  - intros c [Hv Hd]. split; simpl; try done; xnc_lia.
  - intros p Hp. split; simpl; try done; xnc_lia.
Qed.

Lemma send_chunk_ok encode file chs (i : nat) ch k :
  chs !! i = Some ch → length ch = chunk_len → k = length chs →
  send_chunk rands write encode file chs (Z.of_nat i) =
    Some (Continue (encode_packet <$> packets_of encode rands file ch k i)).
Proof.
  intros Hch Hl ->. unfold send_chunk. rewrite index_nat, Hch. cbn [mbind option_bind].
  destruct encode; simpl.
  - unfold FullEncoder.NewFullRLNCEncoderWithPieceCount, FullEncoder.with_split.
    rewrite split_chunk by done. cbn [mbind option_bind]. rewrite coded_pieces_ok by done.
    cbn [mbind option_bind]. apply send_pieces_ok; [done|].
    unfold coded_packets. rewrite <-list_fmap_compose. apply Forall2_fmap_r.
    destruct (coded_of_shape ch i Hl) as [Hsh _].
    assert (zlen (coded_of rands ch i) = CODEDPIECECNT) as <-.
    { unfold coded_of, zlen. rewrite length_fmap, length_seqZ. xnc_lia. }
    eapply Forall2_impl; [apply (Forall2_and_r _ _ _ _ (Forall2_index _) Hsh)|].
    intros s c [Hc [Hv Hd]]. simpl. rewrite Hc. cbn [mbind option_bind].
    rewrite GetXNCEncPkt_ok by xnc_lia. done.
  - apply send_pieces_ok; [done|]. unfold plain_packets. rewrite <-list_fmap_compose.
    apply Forall2_fmap_r. destruct (pieces_of_ok ch Hl) as (_ & HF & _).
    pose proof (mapM_seqZ_chunks_0 ch PIECESIZE VECTORSIZE) as Hm.
    rewrite (mapM_Some _ (seqZ 0 VECTORSIZE)) in Hm.
    eapply Forall2_impl; [apply (Forall2_and_r _ _ _ _ (Hm ltac:(xnc_lia) ltac:(xnc_lia) ltac:(xnc_lia)) HF)|].
    intros s p [Hs Hp]. simpl. rewrite !(Z.mul_comm _ PIECESIZE), Hs. cbn [mbind option_bind].
    rewrite GetXNCPkt_ok by xnc_lia. done.
Qed.

Definition file_packets (encode : bool) (file : list byte) : list (list XNC) :=
  let chs := padded chunk_len file in
  imap (λ i ch, packets_of encode rands file ch (length chs) i) chs.

Lemma padded_lengths C file : 0 < C → Forall (λ ch, length ch = C) (padded C file).
Proof.
  intros HC. unfold padded. apply chunks_widths. rewrite length_app. unfold zeros.
  rewrite length_replicate. lia.
Qed.

Lemma send_chunks_ok encode file chs (is_ : list nat) :
  Forall (λ ch, length ch = chunk_len) chs → Forall (λ i, i < length chs) is_ →
  send_chunks rands write encode file chs (Z.of_nat <$> is_) =
    Some (Continue (concat ((λ i, encode_packet <$>
      packets_of encode rands file (nth i chs []) (length chs) i) <$> is_))).
Proof.
  intros Hchs. induction 1 as [|i is_ Hi _ IH]; [done|]. csimpl.
  destruct (lookup_lt_is_Some_2 chs i Hi) as [ch Hch].
  rewrite (send_chunk_ok encode file chs i ch (length chs));
    [|done|by apply (Forall_lookup_1 _ _ _ _ Hchs Hch)|done].
  cbn [mbind option_bind]. rewrite IH. cbn [mbind option_bind].
  by rewrite (nth_lookup_Some chs i [] ch Hch).
Qed.

(** The packets of a file, in order, followed by five END packets. *)
Lemma sendFile_ok encode file :
  sendFile rands write file encode =
    Some ((encode_packet <$> concat (file_packets encode file)) ++
          replicate 5 (end_frame (Z.of_nat (length (padded chunk_len file)) - 1) encode)).
Proof.
  unfold sendFile, SpiltFile.
  assert (CHUNKSIZE = Z.of_nat chunk_len) as -> by xnc_lia.
  rewrite (split_loop_ok _ file chunk_len 0) by xnc_lia. rewrite drop_0.
  cbn [mbind option_bind]. set (chs := padded chunk_len file).
  assert (Forall (λ ch, length ch = chunk_len) chs) as Hchs by (apply padded_lengths; xnc_lia).
  assert (seqZ 0 (zlen chs) = Z.of_nat <$> seq 0 (length chs)) as ->.
  { unfold seqZ, zlen. rewrite Nat2Z.id. apply list_fmap_ext. intros; lia. }
  rewrite send_chunks_ok; [|done|apply Forall_forall; intros i Hi%elem_of_seq; lia].
  cbn [mbind option_bind]. rewrite EncodeEND_ok. cbn [mbind option_bind]. unfold zlen.
  do 2 f_equal. unfold file_packets. fold chs. rewrite concat_fmap. f_equal.
  rewrite imap_seq_0. rewrite <-list_fmap_compose. apply list_fmap_ext.
  intros j i Hj. apply lookup_seq in Hj as [-> Hlt]. done.
Qed.
End server_proofs.

(** * Reading frames *)

Lemma event_bytes_deliver bs evs : event_bytes (Deliver bs :: evs) = bs ++ event_bytes evs.
Proof. done. Qed.
Lemma event_bytes_fault evs : event_bytes (Fault :: evs) = event_bytes evs.
Proof. done. Qed.

Lemma read_full_spec space evs :
  ∃ evs', read_full space evs = (take space (event_bytes evs), evs') ∧
    event_bytes evs' = drop space (event_bytes evs).
Proof.
  revert space. induction evs as [|[bs|] evs IH]; intros space.
  - exists []. destruct space; simpl; split; try done; by rewrite ?take_nil, ?drop_nil.
  - destruct space as [|space]; [by exists (Deliver bs :: evs)|].
    rewrite event_bytes_deliver. simpl. case_decide as Hl.
    + destruct (IH (S space - length bs)) as (evs' & Hr & He). rewrite Hr.
      exists evs'. split.
      * rewrite (take_app_ge bs) by lia. done.
      * rewrite He, (drop_app_ge bs) by lia. done.
    + eexists. split; [by rewrite (take_app_le bs) by lia|].
      rewrite event_bytes_deliver. by rewrite (drop_app_le bs) by lia.
  - destruct space as [|space]; [by exists (Fault :: evs)|].
    destruct (IH (S space)) as (evs' & Hr & He). exists evs'. split; [done|exact He].
Qed.

Lemma read_frame_whole size evs f rest :
  event_bytes evs = f ++ rest → length f = Z.to_nat size →
  ∃ evs', read_frame size evs = (f, evs') ∧ event_bytes evs' = rest.
Proof.
  intros He Hl. unfold read_frame.
  destruct (read_full_spec (Z.to_nat size) evs) as (evs' & -> & He'). exists evs'.
  rewrite He, <-Hl in *. rewrite take_app_length. split; [|by rewrite He', drop_app_length].
  by rewrite go_copy_full by (by rewrite length_replicate).
Qed.

(** At the end of the stream the rest of the buffer keeps its zeros. *)
Lemma read_frame_short size evs :
  length (event_bytes evs) ≤ Z.to_nat size →
  ∃ evs', read_frame size evs =
      (event_bytes evs ++ zeros (Z.to_nat size - length (event_bytes evs)), evs') ∧
    event_bytes evs' = [].
Proof.
  intros Hl. unfold read_frame.
  destruct (read_full_spec (Z.to_nat size) evs) as (evs' & -> & He'). exists evs'.
  split; [|by rewrite He', drop_ge by done]. f_equal. unfold go_copy, zeros.
  rewrite length_replicate, !(take_ge (event_bytes evs)), drop_replicate by lia. done.
Qed.

(** * The receive loop over packets *)

Section client_proofs.
Context `{GaloisFieldLaws} `{Scheduler}.

Fixpoint run_packets (encode : bool) (xs : list XNC) (st : client_state) : option verdict :=
  match xs with
  | [] => Some (Next st)
  | x :: xs =>
      v ← client_packet encode x st;
      match v with Next st => run_packets encode xs st | v => Some v end
  end.

Lemma run_packets_app encode xs ys st :
  run_packets encode (xs ++ ys) st =
    (v ← run_packets encode xs st;
     match v with Next st => run_packets encode ys st | v => Some v end).
Proof.
  revert st. induction xs as [|x xs IH]; intros st; [done|]. simpl.
  destruct (client_packet encode x st) as [[st'|st'|]|]; simpl; auto.
Qed.

(** The loop on a stream that starts with valid packets processes them one by
    one, however the stream is cut into reads. *)
Lemma client_loop_packets encode xs fuel evs rest st :
  Forall (valid_packet encode) xs →
  event_bytes evs = concat (encode_packet <$> xs) ++ rest → length xs ≤ fuel →
  match run_packets encode xs st with
  | None => client_loop fuel encode evs st = None
  | Some (Next st') => ∃ evs', event_bytes evs' = rest ∧
      client_loop fuel encode evs st = client_loop (fuel - length xs) encode evs' st'
  | Some (Stop st') => client_loop fuel encode evs st = Some (Some (rFile st'))
  | Some Failed => client_loop fuel encode evs st = Some None
  end.
Proof.
  intros Hxs. revert fuel evs st. induction Hxs as [|x xs Hx _ IH]; intros fuel evs st He Hf.
  { exists evs. by rewrite Nat.sub_0_r. }
  destruct (valid_packet_decodes encode x Hx) as (Hl & Hd & Ht).
  rewrite fmap_cons in He. cbn [concat] in He. rewrite <-app_assoc in He. simpl in Hf. destruct fuel as [|fuel]; [lia|].
  destruct (read_frame_whole (if encode then FRAMESIZE_ENC else FRAMESIZE) evs _ _ He Hl)
    as (evs1 & Hr & He1).
  simpl. rewrite Hr, Hd. cbn [mbind option_bind]. rewrite decide_False by done.
  destruct (client_packet encode x st) as [[st'|st'|]|]; simpl; try done.
  apply (IH fuel evs1 st'); [done|lia].
Qed.

(** An END packet leaves the loop with the file received so far. *)
Lemma client_loop_end encode id fuel evs rest st :
  event_bytes evs = end_frame id encode ++ rest →
  client_loop (S fuel) encode evs st = Some (Some (rFile st)).
Proof.
  intros He. destruct (read_frame_whole (if encode then FRAMESIZE_ENC else FRAMESIZE) evs _ _ He)
    as (evs1 & Hr & _).
  { rewrite <-(zlen_end_frame id encode). unfold zlen. by rewrite Nat2Z.id. }
  simpl. rewrite Hr. destruct (DecodeXNCPkt_end id encode) as (x & -> & Hx).
  cbn [mbind option_bind]. by rewrite decide_True.
Qed.

(** ** Runs over the chunks of a file *)

(** [run_chunks] composes the behaviour of the single chunks: [Inv i] holds
    before chunk [i], and [out i] is what the chunk adds to the file. *)
Lemma run_chunks encode (pkts : nat → list XNC) (out : nat → list byte)
    (Inv : nat → client_state → Prop) k i n st :
  (∀ i st, i < k → Inv i st → ∃ st', rFile st' = rFile st ++ out i ∧
    (run_packets encode (pkts i) st = Some (Next st') ∧ Inv (S i) st' ∨
     run_packets encode (pkts i) st = Some (Stop st') ∧ S i = k)) →
  i + n = k → Inv i st →
  ∃ st', rFile st' = rFile st ++ concat (out <$> seq i n) ∧
    (run_packets encode (concat (pkts <$> seq i n)) st = Some (Next st') ∨
     run_packets encode (concat (pkts <$> seq i n)) st = Some (Stop st')).
Proof.
  intros Hstep. revert i st. induction n as [|n IH]; intros i st Hk Hst.
  { exists st. simpl. rewrite app_nil_r. auto. }
  destruct (Hstep i st) as (st1 & Hr1 & Hrun); [lia|done|]. csimpl.
  rewrite run_packets_app. destruct Hrun as [[-> Hinv]|[-> Hlast]]; simpl.
  - destruct (IH (S i) st1) as (st2 & Hr2 & Hrun); [lia|done|].
    exists st2. rewrite Hr2, Hr1, <-app_assoc. auto.
  - assert (n = 0) as -> by lia. exists st1. simpl. rewrite app_nil_r. auto.
Qed.
End client_proofs.

(** * What a chunk adds to the file *)

(** The last chunk of a file of [k] chunks stops the client. *)
Definition finish (last : bool) (st : client_state) : verdict :=
  if last then Stop st else Next st.

Definition add_part (part : list byte) (st : client_state) : client_state :=
  {| rFile := rFile st ++ part; chunk := chunk st; decoders := decoders st |}.

Section chunk_proofs.
Context `{GaloisFieldLaws} `{Scheduler}.

Lemma finish_chunk_ok x bytes st (i k : nat) :
  (0 ≤ ChunkSize x ≤ zlen bytes)%Z → ChunkId x = Z.of_nat i → ChunkNum x = Z.of_nat k →
  finish_chunk x bytes st =
    Some (finish (bool_decide (S i = k)) (add_part (take (Z.to_nat (ChunkSize x)) bytes) st)).
Proof.
  intros Hs Hi Hk. unfold finish_chunk. rewrite slice_ok by lia. cbn [mbind option_bind].
  rewrite Z.sub_0_r, drop_0, Hi, Hk. unfold finish, add_part.
  case_bool_decide; [rewrite decide_True by lia|rewrite decide_False by lia]; done.
Qed.

Lemma padded_part file i ch :
  padded chunk_len file !! i = Some ch →
  take (Z.to_nat (size_of file (length (padded chunk_len file)) i)) ch =
    file_part chunk_len file i.
Proof.
  intros Hch. pose proof (lookup_lt_Some _ _ _ Hch) as Hi.
  pose proof (size_of_range file _ i eq_refl Hi) as Hs.
  unfold padded in *. rewrite length_chunks in *.
  rewrite lookup_chunks in Hch by done. injection Hch as <-.
  pose proof (ceil_div_spec (zlen file) (Z.of_nat chunk_len)) as Hk.
  set (kz := ceil_div (zlen file) (Z.of_nat chunk_len)) in *.
  assert (0 < Z.of_nat chunk_len)%Z as HC by xnc_lia.
  specialize (Hk HC (zlen_nonneg file)). unfold size_of in *.
  assert (CHUNKSIZE = Z.of_nat chunk_len) as HCS by xnc_lia. rewrite HCS in *.
  clear HCS. unfold file_part, zlen in *. set (pad := zeros _). clearbody kz.
  case_decide as Hlast.
  - rewrite take_take. assert (i = Z.to_nat kz - 1) as -> by lia.
    rewrite drop_app_le by nia. rewrite take_app_le by (rewrite length_drop; nia).
    rewrite !take_ge; rewrite ?length_drop; try done; nia.
  - rewrite Nat2Z.id, take_take, Nat.min_id.
    rewrite drop_app_le by nia. rewrite take_app_le by (rewrite length_drop; nia). done.
Qed.

(** ** Uncoded chunks *)

Lemma plain_pieces_run (ps : list Piece) i k size st :
  ps ≠ [] → Forall (λ p, length p = piece_len) ps →
  length (chunk st) + length (concat ps) = chunk_len → (0 ≤ size ≤ CHUNKSIZE)%Z →
  run_packets false (decoded_packet TYPE_XNC (Z.of_nat i) size (Z.of_nat k) [] <$> ps) st =
    Some (finish (bool_decide (S i = k)) {|
      rFile := rFile st ++ take (Z.to_nat size) (chunk st ++ concat ps);
      chunk := []; decoders := decoders st |}).
Proof.
  intros Hne HF. revert st Hne. induction HF as [|p ps Hp HF IH]; intros st Hne Hl Hs; [done|].
  simpl in Hl. rewrite length_app in Hl. rewrite fmap_cons. cbn [run_packets].
  unfold client_packet at 1. cbn [XPiece decoded_packet].
  destruct ps as [|q ps].
  - simpl in Hl. rewrite decide_True by (rewrite zlen_app; xnc_lia).
    rewrite (finish_chunk_ok _ _ _ i k); [|rewrite zlen_app; simpl; xnc_lia|done|done].
    cbn [mbind option_bind fmap list_fmap concat]. rewrite app_nil_r.
    by case_bool_decide.
  - assert (0 < piece_len) by xnc_lia. apply Forall_cons in HF as Hq. destruct Hq as [Hq _].
    simpl in Hl. rewrite length_app in Hl.
    rewrite decide_False by (rewrite zlen_app; xnc_lia). cbn [mbind option_bind].
    rewrite IH; [|done| |done].
    + cbn [rFile chunk decoders concat]. by rewrite <-!app_assoc.
    + cbn [rFile chunk decoders concat]. rewrite !length_app. lia.
Qed.

Lemma plain_chunk_run file i ch st :
  padded chunk_len file !! i = Some ch → chunk st = [] →
  let k := length (padded chunk_len file) in
  run_packets false (plain_packets file ch k i) st =
    Some (finish (bool_decide (S i = k)) {|
      rFile := rFile st ++ file_part chunk_len file i; chunk := []; decoders := decoders st |}).
Proof.
  intros Hch Hst k. pose proof (lookup_lt_Some _ _ _ Hch) as Hi.
  assert (length ch = chunk_len) as Hl.
  { apply (Forall_lookup_1 _ _ _ _ (padded_lengths chunk_len file ltac:(xnc_lia)) Hch). }
  destruct (pieces_of_ok ch Hl) as (Hcnt & HF & Hcat). unfold plain_packets.
  rewrite plain_pieces_run.
  - rewrite Hst, Hcat, app_nil_l. unfold k. by rewrite (padded_part file i ch Hch).
  - intros Hnil. rewrite Hnil in Hcnt. simpl in Hcnt. xnc_lia.
  - done.
  - rewrite Hst, Hcat. done.
  - by apply size_of_range.
Qed.

(** ** Coded chunks *)

Lemma GetFile_ok n L P cs d :
  run_inv n L cs d → Full.IsDecoded d = true → length P = n → Forall (λ p, length p = L) P →
  Forall (codes L P) cs → GetFile d = Some (Ok (concat P)).
Proof.
  intros [Hinv _ Hrel _ _] Hd HP HL Hco. unfold GetFile.
  rewrite (GetPieces_ok n L) by done. cbn [mbind option_bind].
  assert (coded (Full.state d) = P) as ->.
  { apply (decoded_rows n L); auto. apply Hrel; [by apply consistent_linear|done]. }
  do 2 f_equal. clear. enough (∀ acc, foldl (λ acc p, acc ++ p) acc P = acc ++ concat P) as Hg
    by apply Hg. induction P as [|p P IH]; intros acc; simpl; [by rewrite app_nil_r|].
  by rewrite IH, <-app_assoc.
Qed.

Lemma full_rank_app n vs ws : full_rank n vs → full_rank n (vs ++ ws).
Proof. intros Hf x Hx Hk. apply Hf; [done|]. unfold kernel in *. by apply Forall_app in Hk as [? _]. Qed.

Definition with_decoder (ds : list Full.FullRLNCDecoder) (i : nat) (d : Full.FullRLNCDecoder)
    (st : client_state) : client_state :=
  {| rFile := rFile st; chunk := chunk st; decoders := Some (<[i := d]> ds) |}.

Definition coded_packet (file : list byte) (k i : nat) (c : CodedPiece) : XNC :=
  decoded_packet TYPE_XNC_ENC (Z.of_nat i) (size_of file k i) (Z.of_nat k) (Vector c) (Data c).

(** A further piece of a decoded chunk changes nothing. *)
Lemma coded_packet_done file k i c ds d st :
  decoders st = Some ds → ds !! i = Some d → Full.IsDecoded d = true →
  client_packet true (coded_packet file k i c) st = Some (Next st).
Proof.
  intros Hds Hd Hdec. unfold client_packet. cbn [ChunkId coded_packet decoded_packet].
  rewrite Hds, index_nat, Hd. cbn [mbind option_bind].
  rewrite AddPiece_decoded by done. cbn [mbind option_bind]. rewrite decide_True by done.
  rewrite Nat2Z.id, list_insert_id by done. rewrite <-Hds. by destruct st.
Qed.

(** A piece of a chunk that is not decoded yet. *)
Lemma coded_packet_step file i ch cs c ds d st :
  let k := length (padded chunk_len file) in
  padded chunk_len file !! i = Some ch →
  Forall (well_shaped piece_cnt piece_len) (cs ++ [c]) →
  Forall (codes piece_len (pieces_of ch)) (cs ++ [c]) →
  (Z.of_nat (length cs) + 1 < 2 ^ 64)%Z →
  decoders st = Some ds → ds !! i = Some d → Full.IsDecoded d = false →
  run_inv piece_cnt piece_len cs d →
  ∃ d', run_inv piece_cnt piece_len (cs ++ [c]) d' ∧
    client_packet true (coded_packet file k i c) st =
      Some (if Full.IsDecoded d'
            then finish (bool_decide (S i = k))
                   (add_part (file_part chunk_len file i) (with_decoder ds i d' st))
            else Next (with_decoder ds i d' st)).
Proof.
  intros k Hch Hsh Hco Hlen Hds Hd Hdec Hrun.
  pose proof (lookup_lt_Some _ _ _ Hch) as Hi.
  assert (length ch = chunk_len) as Hl.
  { apply (Forall_lookup_1 _ _ _ _ (padded_lengths chunk_len file ltac:(xnc_lia)) Hch). }
  destruct (pieces_of_ok ch Hl) as (Hcnt & HPL & Hcat).
  assert (well_shaped piece_cnt piece_len c) as Hc by (apply Forall_app in Hsh as [_ Hc]; by inversion Hc).
  destruct (AddPiece_ok piece_cnt piece_len d c) as (d' & Ha & _);
    [xnc_lia|xnc_lia|apply Hrun|done|done|pose proof (run_received _ _ _ _ Hrun); lia|].
  destruct (feed_ok piece_cnt piece_len d cs [c]) as (d2 & Hf & Hrun');
    [xnc_lia|xnc_lia|by constructor|simpl; lia|done|].
  unfold Full.feed in Hf. simpl in Hf. rewrite Ha in Hf. simpl in Hf. injection Hf as <-.
  exists d'. split; [done|]. unfold client_packet. cbn [ChunkId coded_packet decoded_packet XVector XPiece].
  rewrite Hds, index_nat, Hd. cbn [mbind option_bind]. destruct c as [v p].
  cbn [Vector Data]. rewrite Ha. cbn [mbind option_bind]. rewrite Nat2Z.id.
  destruct (Full.IsDecoded d') eqn:Hdec'; [|done].
  rewrite (GetFile_ok piece_cnt piece_len (pieces_of ch) (cs ++ [{| Vector := v; Data := p |}]))
    by done. cbn [mbind option_bind]. rewrite Hcat.
  rewrite (finish_chunk_ok _ _ _ i k); [| |done|done].
  - cbn [ChunkSize coded_packet decoded_packet]. unfold k. by rewrite (padded_part file i ch Hch).
  - cbn [ChunkSize coded_packet decoded_packet]. pose proof (size_of_range file k i eq_refl Hi). xnc_lia.
Qed.

Lemma coded_done_run file k i cs ds d st :
  decoders st = Some ds → ds !! i = Some d → Full.IsDecoded d = true →
  run_packets true (coded_packet file k i <$> cs) st = Some (Next st).
Proof.
  intros Hds Hd Hdec. induction cs as [|c cs IH]; [done|]. rewrite fmap_cons.
  cbn [run_packets]. by rewrite (coded_packet_done file k i c ds d).
Qed.

(** The remaining pieces of a chunk. *)
Lemma coded_rest_run file i ch cs cs' ds d st :
  let k := length (padded chunk_len file) in
  padded chunk_len file !! i = Some ch →
  Forall (well_shaped piece_cnt piece_len) (cs ++ cs') →
  Forall (codes piece_len (pieces_of ch)) (cs ++ cs') →
  (Z.of_nat (length (cs ++ cs')) < 2 ^ 64)%Z →
  decoders st = Some ds → ds !! i = Some d → Full.IsDecoded d = false →
  run_inv piece_cnt piece_len cs d →
  ∃ (b : bool) d', (b = true ↔ full_rank piece_cnt (Vector <$> (cs ++ cs'))) ∧
    run_packets true (coded_packet file k i <$> cs') st =
      Some (if b then finish (bool_decide (S i = k))
                        (add_part (file_part chunk_len file i) (with_decoder ds i d' st))
            else Next (with_decoder ds i d' st)).
Proof.
  intros k Hch. revert cs ds d st. induction cs' as [|c cs' IH];
    intros cs ds d st Hsh Hco Hlen Hds Hd Hdec Hrun.
  - exists false, d. rewrite app_nil_r. split.
    + split; [done|]. intros Hfull.
      destruct (not_decoded_kernel piece_cnt piece_len d) as (x & Hx & Hnz & Hk);
        [apply Hrun|done|]. destruct Hnz. apply Hfull; [done|]. by apply (run_kernel _ _ _ _ Hrun).
    + simpl. unfold with_decoder. rewrite list_insert_id by done. rewrite <-Hds. by destruct st.
  - assert (cs ++ c :: cs' = (cs ++ [c]) ++ cs') as Hassoc by (by rewrite <-app_assoc).
    rewrite Hassoc in *. pose proof Hsh as [Hsh1 _]%Forall_app. pose proof Hco as [Hco1 _]%Forall_app.
    rewrite !length_app in Hlen. simpl in Hlen.
    destruct (coded_packet_step file i ch cs c ds d st) as (d' & Hrun' & Hstep); auto; [lia|].
    rewrite fmap_cons. cbn [run_packets]. fold k in Hstep. rewrite Hstep. cbn [mbind option_bind].
    pose proof (lookup_lt_Some _ _ _ Hd) as Hlt.
    destruct (Full.IsDecoded d') eqn:Hdec'.
    + exists true, d'. split.
      * split; [|done]. intros _. rewrite fmap_app. apply full_rank_app.
        by apply (run_rank _ _ _ _ Hrun').
      * unfold finish. case_bool_decide; [done|].
        rewrite (coded_done_run file k i cs' (<[i := d']> ds) d');
          [done|done|by apply list_lookup_insert_eq|done].
    + destruct (IH (cs ++ [c]) (<[i := d']> ds) d' (with_decoder ds i d' st))
        as (b & d2 & Hb & Hr); auto.
      * rewrite !length_app. simpl. lia.
      * by apply list_lookup_insert_eq.
      * exists b, d2. split; [done|]. fold k in Hr. rewrite Hr. unfold with_decoder. cbn.
        by rewrite list_insert_insert_eq.
Qed.

(** Without decoders the first packet allocates one for each chunk. *)
Lemma client_packet_allocates file k i c st :
  decoders st = None →
  client_packet true (coded_packet file k i c) st =
    client_packet true (coded_packet file k i c) {| rFile := rFile st; chunk := chunk st;
      decoders := Some (replicate k (Full.NewFullRLNCDecoder PIECECNT)) |}.
Proof.
  intros Hst. unfold client_packet. cbn [ChunkNum coded_packet decoded_packet decoders].
  by rewrite Hst, Nat2Z.id.
Qed.
End chunk_proofs.

(** * Whole transfers *)

Section transfer.
Context `{GaloisFieldLaws} `{Scheduler}.
Context (rands : Z → Z → nat → list byte) (write : Z → Z → write_result).
Context (rands_fill : ∀ i j, fills (rands i j)) (all_written : ∀ i s, write i s = Written).

(** Do the coded pieces of chunk [i] decode? *)
Definition chunk_decodes (ch : list byte) (i : nat) : bool :=
  match Full.feed (Full.NewFullRLNCDecoder PIECECNT) (coded_of rands ch i) with
  | Some d => Full.IsDecoded d
  | None => false
  end.

Definition chunk_vectors (i : nat) : list (list byte) :=
  (λ j, rands (Z.of_nat i) j piece_cnt) <$> seqZ 0 CODEDPIECECNT.

Lemma coded_of_vectors ch i : Vector <$> coded_of rands ch i = chunk_vectors i.
Proof. unfold coded_of, chunk_vectors. rewrite <-list_fmap_compose. done. Qed.

Lemma length_coded_of ch i : length (coded_of rands ch i) = Z.to_nat CODEDPIECECNT.
Proof. unfold coded_of. by rewrite length_fmap, length_seqZ. Qed.

Lemma fresh_run : run_inv piece_cnt piece_len [] (Full.NewFullRLNCDecoder PIECECNT).
Proof.
  destruct (feed_new piece_cnt piece_len []) as (d & Hd & Hrun);
    [xnc_lia|xnc_lia|done|simpl; lia|]. injection Hd as <-. exact Hrun.
Qed.

Lemma fresh_not_decoded : Full.IsDecoded (Full.NewFullRLNCDecoder PIECECNT) = false.
Proof. unfold Full.IsDecoded. simpl. apply bool_decide_false. xnc_lia. Qed.

Lemma chunk_decodes_spec ch i :
  length ch = chunk_len → chunk_decodes ch i = true ↔ full_rank piece_cnt (chunk_vectors i).
Proof.
  intros Hl. destruct (coded_of_shape rands rands_fill ch i Hl) as [Hsh _].
  destruct (feed_new piece_cnt piece_len (coded_of rands ch i)) as (d & Hf & [Hinv _ _ Hker Hrank]);
    [xnc_lia|xnc_lia|done|rewrite length_coded_of; xnc_lia|].
  rewrite coded_of_vectors in *. unfold chunk_decodes.
  assert (PIECECNT = Z.of_nat piece_cnt) as -> by xnc_lia. rewrite Hf.
  split; [done|]. intros Hfull. destruct (Full.IsDecoded d) eqn:Hd; [done|].
  destruct (not_decoded_kernel piece_cnt piece_len d Hinv Hd) as (x & Hx & Hnz & Hk).
  destruct Hnz. apply Hfull; [done|]. by apply Hker.
Qed.

(** The decoders of the chunks from [i] on are fresh. *)
Definition coded_inv (k i : nat) (st : client_state) : Prop :=
  (decoders st = None ∧ i = 0) ∨
  ∃ ds, decoders st = Some ds ∧ length ds = k ∧
    ∀ j, i ≤ j → j < k → ds !! j = Some (Full.NewFullRLNCDecoder PIECECNT).

Lemma coded_chunk_run file i ch st :
  let k := length (padded chunk_len file) in
  padded chunk_len file !! i = Some ch → coded_inv k i st →
  ∃ st', rFile st' = rFile st ++ (if chunk_decodes ch i then file_part chunk_len file i else []) ∧
    (run_packets true (coded_packets rands file ch k i) st = Some (Next st') ∧
       coded_inv k (S i) st' ∨
     run_packets true (coded_packets rands file ch k i) st = Some (Stop st') ∧ S i = k).
Proof.
  intros k Hch Hinv. pose proof (lookup_lt_Some _ _ _ Hch) as Hi. fold k in Hi.
  assert (length ch = chunk_len) as Hl.
  { apply (Forall_lookup_1 _ _ _ _ (padded_lengths chunk_len file ltac:(xnc_lia)) Hch). }
  assert (∃ st0 ds, rFile st0 = rFile st ∧ decoders st0 = Some ds ∧ length ds = k ∧
    (∀ j, i ≤ j → j < k → ds !! j = Some (Full.NewFullRLNCDecoder PIECECNT)) ∧
    run_packets true (coded_packets rands file ch k i) st =
      run_packets true (coded_packets rands file ch k i) st0)
    as (st0 & ds & Hst0 & Hds & Hlen & Hfresh & ->).
  { destruct Hinv as [[Hn ->]|(ds & Hds & Hlen & Hfresh)].
    - eexists {| rFile := rFile st; chunk := chunk st; decoders := Some (replicate k _) |}, _.
      split; [done|]. split; [done|]. split; [apply length_replicate|].
      split; [intros j _ Hj; by apply lookup_replicate_2|].
      unfold coded_packets. pose proof (length_coded_of ch 0) as Hc.
      destruct (coded_of rands ch 0) as [|c cs]; [simpl in Hc; xnc_lia|].
      rewrite fmap_cons. cbn [run_packets].
      by rewrite (client_packet_allocates file k 0 c st Hn).
    - exists st, ds. auto. }
  destruct (coded_of_shape rands rands_fill ch i Hl) as [Hsh Hco].
  destruct (coded_rest_run file i ch [] (coded_of rands ch i) ds
    (Full.NewFullRLNCDecoder PIECECNT) st0) as (b & d' & Hb & Hrun); auto using fresh_run,
    fresh_not_decoded.
  { simpl. rewrite length_coded_of. xnc_lia. }
  rewrite app_nil_l, coded_of_vectors, <-(chunk_decodes_spec ch i Hl) in Hb.
  assert (b = chunk_decodes ch i) as <- by (apply eq_true_iff_eq; done).
  fold k in Hrun. change (coded_packets rands file ch k i) with
    (coded_packet file k i <$> coded_of rands ch i). rewrite Hrun.
  assert (∀ part, coded_inv k (S i) (add_part part (with_decoder ds i d' st0))) as Hnext.
  { intros part. right. exists (<[i := d']> ds). split; [done|]. rewrite length_insert.
    split; [done|]. intros j Hj1 Hj2. rewrite list_lookup_insert_ne by lia. apply Hfresh; lia. }
  destruct b.
  - exists (add_part (file_part chunk_len file i) (with_decoder ds i d' st0)).
    split; [simpl; by rewrite Hst0|]. unfold finish. case_bool_decide; auto.
  - exists (with_decoder ds i d' st0). split; [simpl; by rewrite Hst0, app_nil_r|].
    left. split; [done|]. specialize (Hnext []). destruct Hnext as [[? ?]|Hnext]; [done|].
    right. exact Hnext.
Qed.

(** ** The loop over a whole file *)

Lemma length_concat_packets encode xs :
  Forall (valid_packet encode) xs → length xs ≤ length (concat (encode_packet <$> xs)).
Proof.
  induction 1 as [|x xs Hx _ IH]; [simpl; lia|]. rewrite fmap_cons. cbn [concat].
  rewrite length_app. destruct (valid_packet_decodes encode x Hx) as (-> & _).
  assert (0 < frame_size encode) by (unfold frame_size; destruct encode; xnc_lia). simpl. lia.
Qed.

Lemma file_packets_valid encode file :
  (Z.of_nat (length (padded chunk_len file)) < 2 ^ 32)%Z →
  Forall (valid_packet encode) (concat (file_packets rands encode file)).
Proof.
  intros Hk. apply Forall_concat. apply Forall_forall. intros xs Hxs.
  apply list_elem_of_lookup in Hxs as [i Hi]. unfold file_packets in Hi.
  rewrite list_lookup_imap in Hi. destruct (padded chunk_len file !! i) as [ch|] eqn:Hch; [|done].
  simpl in Hi. injection Hi as <-. apply packets_valid; auto.
  - by apply lookup_lt_Some in Hch.
  - apply (Forall_lookup_1 _ _ _ _ (padded_lengths chunk_len file ltac:(xnc_lia)) Hch).
Qed.

Lemma chunk_count file :
  (zlen file ≤ 2 ^ 45)%Z → (Z.of_nat (length (padded chunk_len file)) < 2 ^ 32)%Z.
Proof.
  intros Hf. unfold padded. rewrite length_chunks.
  pose proof (ceil_div_spec (zlen file) (Z.of_nat chunk_len)) as Hc. pose proof (zlen_nonneg file).
  set (kz := ceil_div _ _) in *. clearbody kz. xnc_lia.
Qed.

(** [out i] is what chunk [i] contributes: the client returns all of it. *)
Lemma client_receives encode file (out : nat → list byte) (Inv : nat → client_state → Prop) evs :
  let k := length (padded chunk_len file) in
  (zlen file ≤ 2 ^ 45)%Z →
  (∀ i ch st, padded chunk_len file !! i = Some ch → Inv i st →
    ∃ st', rFile st' = rFile st ++ out i ∧
    (run_packets encode (packets_of encode rands file ch k i) st = Some (Next st') ∧ Inv (S i) st' ∨
     run_packets encode (packets_of encode rands file ch k i) st = Some (Stop st') ∧ S i = k)) →
  Inv 0 {| rFile := []; chunk := []; decoders := None |} →
  (∃ pkts, sendFile rands write file encode = Some pkts ∧ event_bytes evs = concat pkts) →
  Client encode evs = Some (Some (concat (out <$> seq 0 k))).
Proof.
  intros k Hf Hstep Hinit (pkts & Hsend & Hevs).
  rewrite sendFile_ok in Hsend by done. injection Hsend as <-.
  rewrite concat_app in Hevs. pose proof (file_packets_valid encode file (chunk_count file Hf)) as Hval.
  set (chs := padded chunk_len file) in *.
  destruct (run_chunks encode (λ i, packets_of encode rands file (nth i chs []) k i) out Inv k 0 k
    {| rFile := []; chunk := []; decoders := None |}) as (st' & Hr & Hrun); [|done|done|].
  { intros i st Hi. destruct (lookup_lt_is_Some_2 chs i Hi) as [ch Hch].
    rewrite (nth_lookup_Some chs i [] ch Hch). by apply Hstep. }
  pose proof (client_loop_packets encode _ (S (length (event_bytes evs))) evs _
    {| rFile := []; chunk := []; decoders := None |} Hval Hevs) as Hloop.
  unfold file_packets in Hval, Hevs, Hloop. fold chs in Hval, Hevs, Hloop.
  rewrite imap_seq_0 in Hval, Hevs, Hloop. fold k in Hval, Hevs, Hloop.
  pose proof (length_concat_packets _ _ Hval) as Hlen.
  unfold Client.
  assert (length (event_bytes evs) >= length (concat (encode_packet <$> concat
    ((λ i, packets_of encode rands file (nth i chs []) k i) <$> seq 0 k)))) as Hge
    by (rewrite Hevs, length_app; lia).
  specialize (Hloop ltac:(lia)). destruct Hrun as [Hrun|Hrun]; rewrite Hrun in Hloop.
  - destruct Hloop as (evs' & He' & ->).
    rewrite Nat.sub_succ_l by lia. simpl in He'. by rewrite (client_loop_end _ _ _ _ _ _ He'), Hr.
  - by rewrite Hloop, Hr.
Qed.
End transfer.

(** * The request packet *)

Definition init_packet (t : byte) (name : list byte) : list byte :=
  [t] ++ u32_bytes (zlen name) ++ name ++ replicate (123 - length name) x00.

Lemma copy_name_ok (h a b c : list byte) :
  zlen h = 5%Z →
  for_each (seqZ (zlen a) (zlen b)) (λ i pkt,
    x ← index (a ++ b) i; set_byte (5 + i) x pkt) (h ++ a ++ replicate (length b) x00 ++ c) =
  Some (h ++ a ++ b ++ c).
Proof.
  intros Hh. revert a. induction b as [|x b IH]; intros a; [done|].
  rewrite seqZ_cons by (rewrite zlen_cons; pose proof (zlen_nonneg b); lia).
  assert (index (a ++ x :: b) (zlen a) = Some x) as Hi.
  { unfold zlen. by rewrite index_nat, list_lookup_middle. }
  cbn [for_each]. rewrite Hi.
  cbn [mbind option_bind length replicate app].
  rewrite (app_assoc h a), (set_byte_mid (h ++ a)) by (rewrite zlen_app; lia).
  cbn [mbind option_bind]. specialize (IH (a ++ [x])). rewrite <-!app_assoc in IH.
  rewrite <-!app_assoc. rewrite zlen_app in IH. change (zlen [x]) with 1%Z in IH.
  replace (Z.pred (zlen (x :: b))) with (zlen b) by (rewrite zlen_cons; lia).
  replace (Z.succ (zlen a)) with (zlen a + 1)%Z by lia. exact IH.
Qed.

Lemma EncodeInit_ok t name :
  (zlen name ≤ 123)%Z →
  EncodeInit {| IType := t; ILen := zlen name; Filename := name |} = Some (init_packet t name).
Proof.
  intros Hl. unfold EncodeInit. cbn [IType ILen Filename].
  assert (make_bytes 128 = Some ([] ++ x00 :: [x00; x00; x00; x00] ++
    replicate (length name) x00 ++ replicate (123 - length name) x00)) as ->.
  { rewrite <-replicate_add. unfold zlen in Hl.
    replace (length name + (123 - length name)) with 123 by lia. done. }
  cbn [mbind option_bind]. rewrite (set_byte_mid []) by done. cbn [mbind option_bind].
  rewrite app_nil_l. change (t :: [x00; x00; x00; x00] ++ ?r) with ([t] ++ [x00; x00; x00; x00] ++ r).
  rewrite (put_u32_mid [t]) by done. cbn [mbind option_bind]. unfold init_packet.
  rewrite (app_assoc [t] (u32_bytes _)), (app_assoc [t] (u32_bytes _)).
  by apply (copy_name_ok ([t] ++ u32_bytes (zlen name)) [] name).
Qed.

Lemma zlen_init_packet t name : (zlen name ≤ 123)%Z → zlen (init_packet t name) = INITSIZE.
Proof.
  intros Hl. unfold init_packet. rewrite !zlen_app, zlen_replicate, zlen_u32_bytes.
  change (zlen [t]) with 1%Z. unfold INITSIZE. unfold zlen in *. lia.
Qed.

(** The decoder of the request, on every 128-byte packet. *)
Lemma DecodeInit_cases data t (len : Z) :
  zlen data = INITSIZE → index data 0 = Some t → get_u32 1 data = Some len →
  DecodeInit data =
    if decide (t = TYPE_INIT_ENC ∨ t = TYPE_INIT) then
      if decide (len ≤ 123)%Z
      then Some (Ok {| IType := t; ILen := len; Filename := take (Z.to_nat len) (drop 5 data) |})
      else None
    else Some (Err ErrPacketType).
Proof.
  intros Hl Ht Hlen. unfold DecodeInit. rewrite Ht, Hlen. cbn [mbind option_bind].
  assert (0 ≤ len)%Z as Hpos.
  { unfold get_u32 in Hlen. destruct (slice data 1 (1 + 4)) as [b|]; [|done].
    simpl in Hlen. injection Hlen as <-. apply be_val_range. }
  unfold INITSIZE in Hl. destruct (decide (t = TYPE_INIT_ENC ∨ t = TYPE_INIT)) as [Hok|Hbad].
  - rewrite decide_False by tauto. case_decide.
    + rewrite slice_ok by lia. cbn [mbind option_bind]. do 5 f_equal. lia.
    + by rewrite slice_panic by lia.
  - by rewrite decide_True by tauto.
Qed.

Lemma DecodeInit_init_packet t name :
  (t = TYPE_INIT_ENC ∨ t = TYPE_INIT) → (zlen name ≤ 123)%Z →
  DecodeInit (init_packet t name) = Some (Ok {| IType := t; ILen := zlen name; Filename := name |}).
Proof.
  intros Ht Hl. pose proof (zlen_nonneg name). rewrite (DecodeInit_cases _ t (zlen name)).
  - rewrite !decide_True by done. do 4 f_equal. unfold init_packet.
    rewrite (app_assoc [t]). change 5 with (length ([t] ++ u32_bytes (zlen name))).
    rewrite drop_app_length. unfold zlen. by rewrite Nat2Z.id, take_app_length.
  - by apply zlen_init_packet.
  - done.
  - apply (get_u32_mid [t]); [done|lia].
Qed.

(** * Theorems *)

Section theorems.
Context `{GaloisFieldLaws} `{Scheduler}.
Context (rands : Z → Z → nat → list byte) (write : Z → Z → write_result).

(** The client asks for a file, the server answers, the client receives. *)
Definition session (open : list byte → option (list byte)) (name : list byte) (encode : bool)
    (file : list byte) (result : option (list byte)) : Prop :=
  ∃ request, client_request name encode = Some request ∧
    ∀ evs, event_bytes evs = request →
    ∃ pkts, handle_stream rands write open evs = Some pkts ∧
      ∀ evs', event_bytes evs' = concat pkts → Client encode evs' = Some result.

Lemma session_intro open name encode file out :
  (zlen name ≤ 123)%Z → open name = Some file →
  (∃ pkts, sendFile rands write file encode = Some pkts ∧
    ∀ evs', event_bytes evs' = concat pkts → Client encode evs' = Some out) →
  session open name encode file out.
Proof.
  intros Hn Hopen (pkts & Hs & Hc). set (t := if encode then TYPE_INIT_ENC else TYPE_INIT).
  exists (init_packet t name). split; [by apply EncodeInit_ok|].
  intros evs Hevs. exists pkts. split; [|done]. unfold handle_stream.
  destruct (read_frame_whole INITSIZE evs (init_packet t name) []) as (evs1 & Hr & _).
  { by rewrite app_nil_r. }
  { rewrite <-(zlen_init_packet t name Hn). unfold zlen. by rewrite Nat2Z.id. }
  rewrite Hr. rewrite DecodeInit_init_packet; [|unfold t; destruct encode; auto|done].
  cbn [mbind option_bind Filename IType]. rewrite Hopen. rewrite <-Hs. f_equal.
  unfold t. by destruct encode.
Qed.

Context (rands_fill : ∀ i j, fills (rands i j)) (all_written : ∀ i s, write i s = Written).

(** C3: an uncoded transfer is faithful: for every file up to 2^45 bytes, every
    file name up to 123 bytes, and every way the transport cuts and delays
    the two byte streams, the request reaches the server, the server writes
    the file's packets, and the client returns exactly the file. *)
Theorem uncoded_transfer open name file :
  (zlen name ≤ 123)%Z → open name = Some file → (zlen file ≤ 2 ^ 45)%Z →
  session open name false file (Some file).
Proof.
  intros Hn Hopen Hf. apply session_intro; [done|done|].
  eexists. split; [by apply sendFile_ok|]. intros evs Hevs.
  rewrite (client_receives rands write rands_fill all_written false file (file_part chunk_len file)
    (λ _ st, chunk st = [])); [|done| |done|by eexists; split; [apply sendFile_ok|]].
  - do 2 f_equal. apply concat_file_parts. unfold padded. rewrite length_chunks.
    pose proof (ceil_div_spec (zlen file) (Z.of_nat chunk_len)) as Hk.
    pose proof (zlen_nonneg file). set (kz := ceil_div _ _) in *. clearbody kz. xnc_lia.
  - intros i ch st Hch Hst. simpl packets_of. rewrite (plain_chunk_run file i ch st Hch Hst).
    eexists {| rFile := _; chunk := []; decoders := decoders st |}. split; [done|].
    unfold finish. case_bool_decide; auto.
Qed.

Lemma coded_session open name file :
  (zlen name ≤ 123)%Z → open name = Some file → (zlen file ≤ 2 ^ 45)%Z →
  session open name true file (Some (concat ((λ i,
    if chunk_decodes rands (nth i (padded chunk_len file) []) i
    then file_part chunk_len file i else []) <$> seq 0 (length (padded chunk_len file))))).
Proof.
  intros Hn Hopen Hf. apply session_intro; [done|done|].
  eexists. split; [by apply sendFile_ok|]. intros evs Hevs.
  apply (client_receives rands write rands_fill all_written true file _
    (coded_inv (length (padded chunk_len file)))); [done| |by left|by eexists; split; [apply sendFile_ok|]].
  intros i ch st Hch Hst. rewrite (nth_lookup_Some _ i [] ch Hch).
  by apply coded_chunk_run.
Qed.

Lemma padded_length_at file i ch :
  padded chunk_len file !! i = Some ch → length ch = chunk_len.
Proof.
  intros Hch. apply (Forall_lookup_1 _ _ _ _ (padded_lengths chunk_len file ltac:(xnc_lia)) Hch).
Qed.

(** C2: a coded transfer recovers the file whenever, in every chunk, the 17
    drawn coding vectors have full rank: whatever the cuts of the byte
    streams, the client returns exactly the file. *)
Theorem coded_transfer open name file :
  (zlen name ≤ 123)%Z → open name = Some file → (zlen file ≤ 2 ^ 45)%Z →
  (∀ i, (Z.of_nat i * CHUNKSIZE < zlen file)%Z → full_rank piece_cnt (chunk_vectors rands i)) →
  session open name true file (Some file).
Proof.
  intros Hn Hopen Hf Hrank. pose proof (coded_session open name file Hn Hopen Hf) as Hs.
  pose proof (ceil_div_spec (zlen file) (Z.of_nat chunk_len)) as Hk.
  pose proof (zlen_nonneg file). assert (length (padded chunk_len file) =
    Z.to_nat (ceil_div (zlen file) (Z.of_nat chunk_len))) as Hlen by apply length_chunks.
  assert (0 < Z.of_nat chunk_len)%Z as HC by xnc_lia. specialize (Hk HC ltac:(done)).
  set (kz := ceil_div _ _) in *. clearbody kz.
  rewrite (list_fmap_ext _ (file_part chunk_len file)) in Hs.
  - rewrite concat_file_parts in Hs; [done|]. rewrite Hlen. unfold zlen in *. nia.
  - intros j i Hj. apply lookup_seq in Hj as [-> Hi].
    destruct (lookup_lt_is_Some_2 _ _ Hi) as [ch Hch]. simpl.
    rewrite (nth_lookup_Some _ j [] ch Hch).
    assert (chunk_decodes rands ch j = true) as ->; [|done].
    apply chunk_decodes_spec; [done|by eapply padded_length_at|].
    apply Hrank. assert (CHUNKSIZE = Z.of_nat chunk_len) as -> by xnc_lia. nia.
Qed.

(** the client does not notice a chunk it cannot decode: for a file of one
    full chunk and a rest, when the 17 vectors drawn for the first chunk do
    not have full rank and those for the rest do, it returns the rest alone,
    without an error. *)
Theorem undecoded_chunk_is_dropped open name part rest :
  (zlen name ≤ 123)%Z → open name = Some (part ++ rest) →
  zlen part = CHUNKSIZE → (0 < zlen rest ≤ CHUNKSIZE)%Z →
  ¬ full_rank piece_cnt (chunk_vectors rands 0) → full_rank piece_cnt (chunk_vectors rands 1) →
  session open name true (part ++ rest) (Some rest).
Proof.
  intros Hn Hopen Hp Hr Hbad Hgood. set (file := part ++ rest).
  assert (zlen file = CHUNKSIZE + zlen rest)%Z as Hf by (unfold file; rewrite zlen_app; lia).
  assert (length (padded chunk_len file) = 2) as Hlen.
  { unfold padded. rewrite length_chunks.
    pose proof (ceil_div_spec (zlen file) (Z.of_nat chunk_len)) as Hk.
    set (kz := ceil_div _ _) in *. clearbody kz. rewrite Hf in *. xnc_lia. }
  pose proof (coded_session open name file Hn Hopen ltac:(xnc_lia)) as Hs. rewrite Hlen in Hs.
  destruct (lookup_lt_is_Some_2 (padded chunk_len file) 0) as [c0 Hc0]; [lia|].
  destruct (lookup_lt_is_Some_2 (padded chunk_len file) 1) as [c1 Hc1]; [lia|].
  cbn [seq fmap list_fmap concat] in Hs.
  rewrite (nth_lookup_Some _ 0 [] c0 Hc0), (nth_lookup_Some _ 1 [] c1 Hc1) in Hs.
  assert (chunk_decodes rands c0 0 = false) as E0.
  { apply not_true_iff_false. intros E%chunk_decodes_spec; [done|done|by eapply padded_length_at]. }
  assert (chunk_decodes rands c1 1 = true) as E1.
  { apply chunk_decodes_spec; [done|by eapply padded_length_at|done]. }
  rewrite E0, E1, app_nil_l, app_nil_r in Hs. unfold file_part, file in Hs.
  rewrite Nat.mul_1_r in Hs. assert (length part = chunk_len) as Hpl by xnc_lia.
  rewrite <-Hpl, drop_app_length in Hs. rewrite take_ge in Hs by xnc_lia. exact Hs.
Qed.
End theorems.

(** data packets survive the wire: whatever [EncodeXNCPkt] accepts with
    32-bit header fields is decoded to the same record, coded or not. *)
Theorem EncodeXNCPkt_roundtrip encode x :
  valid_packet encode x →
  ∃ pkt, EncodeXNCPkt x = Some (Ok pkt) ∧ length pkt = frame_size encode ∧
    DecodeXNCPkt pkt = Some (Ok x).
Proof.
  intros Hx. destruct (valid_packet_decodes encode x Hx) as (Hl & Hd & _).
  exists (encode_packet x). split_and!; [|done|done].
  destruct x as [t id num size v p e]. destruct Hx as [Ht _ _ _ Hv Hp He]. simpl in *. subst t e.
  unfold encode_packet. cbn [Type_ ChunkId ChunkSize ChunkNum XVector XPiece].
  destruct encode.
  - apply (GetXNCEncPkt_ok size id num {| Vector := v; Data := p |} Hv Hp).
  - destruct v as [|? v]; [|unfold zlen in Hv; simpl in Hv; lia]. by apply GetXNCPkt_ok.
Qed.

(** the request and END packets survive the wire. *)
Theorem init_end_roundtrip t name id encode :
  (t = TYPE_INIT_ENC ∨ t = TYPE_INIT) → (zlen name ≤ 123)%Z → u32_range id →
  ∃ pkt epkt,
    EncodeInit {| IType := t; ILen := zlen name; Filename := name |} = Some pkt ∧
    zlen pkt = INITSIZE ∧
    DecodeInit pkt = Some (Ok {| IType := t; ILen := zlen name; Filename := name |}) ∧
    EncodeEND id encode = Some epkt ∧ DecodeEND epkt encode = Some (Ok id).
Proof.
  intros Ht Hn Hid. exists (init_packet t name), (end_frame id encode).
  split_and!; [by apply EncodeInit_ok|by apply zlen_init_packet|by apply DecodeInit_init_packet|
    apply EncodeEND_ok|].
  unfold DecodeEND. rewrite zlen_end_frame.
  rewrite !decide_False by (destruct encode; intros [? ?]; done).
  change (index (end_frame id encode) 0) with (Some TYPE_END). cbn [mbind option_bind].
  rewrite decide_False by (intros E; done). unfold end_frame.
  by rewrite (get_u32_mid [TYPE_END]).
Qed.

(** a well-sized request decides over the server: [DecodeInit] on a 128-byte
    packet with a valid type returns the file name when the length field is at
    most 123, and panics when the field is larger, so one request from a client
    can take the server down. *)
Theorem DecodeInit_panics data t (len : Z) :
  zlen data = INITSIZE → index data 0 = Some t → get_u32 1 data = Some len →
  (t = TYPE_INIT_ENC ∨ t = TYPE_INIT) →
  ((123 < len)%Z ↔ DecodeInit data = None) ∧
  ((len ≤ 123)%Z → DecodeInit data =
    Some (Ok {| IType := t; ILen := len; Filename := take (Z.to_nat len) (drop 5 data) |})).
Proof.
  intros Hl Ht Hlen Hok. rewrite (DecodeInit_cases data t len) by done.
  rewrite decide_True by done. case_decide; (split; [split|]); try done; lia.
Qed.

(** a coded packet of the uncoded frame size panics the client's decoder:
    [DecodeXNCPkt] accepts the size and slices past the end. *)
Theorem DecodeXNCPkt_panics data :
  zlen data = FRAMESIZE → index data 0 = Some TYPE_XNC_ENC → DecodeXNCPkt data = None.
Proof.
  intros Hl Ht. unfold DecodeXNCPkt. rewrite Hl. rewrite decide_False by (intros [_ ?]; done).
  rewrite Ht. cbn [mbind option_bind]. rewrite decide_False by done.
  assert (∀ off, (0 ≤ off ≤ 100)%Z → ∃ v, get_u32 off data = Some v) as Hget.
  { intros off Ho. unfold get_u32. rewrite slice_ok by (rewrite ?Hl; xnc_lia). by eexists. }
  destruct (Hget 1%Z) as [? ->]; [done|]. destruct (Hget 5%Z) as [? ->]; [done|].
  destruct (Hget 9%Z) as [? ->]; [done|]. cbn [mbind option_bind]. rewrite decide_True by done.
  rewrite (slice_ok data 13) by (rewrite ?Hl; xnc_lia). cbn [mbind option_bind].
  rewrite slice_panic by (rewrite ?Hl; xnc_lia). done.
Qed.

(** * Termination and truncation of the receive loop *)

Section loop.
Context `{GaloisFieldLaws} `{Scheduler}.

Lemma frame_size_pos encode : 0 < frame_size encode.
Proof. unfold frame_size. destruct encode; xnc_lia. Qed.

Lemma client_loop_eof fuel encode evs st :
  event_bytes evs = [] → client_loop (S fuel) encode evs st = Some None.
Proof.
  intros He. destruct (read_frame_short (if encode then FRAMESIZE_ENC else FRAMESIZE) evs)
    as (evs' & Hr & _); [rewrite He; simpl; lia|].
  cbn [client_loop]. rewrite Hr, He. simpl app.
  assert (DecodeXNCPkt (zeros (Z.to_nat (if encode then FRAMESIZE_ENC else FRAMESIZE) - 0)) =
    Some (Err ErrUnknownType)) as -> by (destruct encode; by vm_compute).
  done.
Qed.

(** the receive loop ends on every finite stream: [Client] runs it with one
    iteration for each byte and one for the end of the stream, and giving it
    more never changes the outcome, so its only [None] is a panic. *)
Theorem Client_fuel_enough encode evs extra :
  client_loop (S (length (event_bytes evs)) + extra) encode evs
    {| rFile := []; chunk := []; decoders := None |} = Client encode evs.
Proof.
  unfold Client. generalize {| rFile := []; chunk := []; decoders := None |} as st.
  enough (∀ n f1 f2 evs st, length (event_bytes evs) ≤ n → n < f1 → n < f2 →
    client_loop f1 encode evs st = client_loop f2 encode evs st) as Hg
    by (intros st; apply (Hg (length (event_bytes evs))); lia).
  clear evs extra. induction n as [|n IH]; intros f1 f2 evs st Hn H1' H2';
    destruct f1 as [|f1], f2 as [|f2]; try lia.
  - assert (event_bytes evs = []) as He by (apply nil_length_inv; lia).
    by rewrite !client_loop_eof.
  - cbn [client_loop].
    destruct (read_full_spec (frame_size encode) evs) as (evs' & Hr & He').
    pose proof (frame_size_pos encode) as Hpos.
    unfold read_frame. fold (frame_size encode). rewrite Hr.
    destruct (DecodeXNCPkt _) as [[x|]|]; [|done|done]. cbn [mbind option_bind].
    case_decide; [done|]. destruct (client_packet encode x st) as [[st'|st'|]|]; [|done..].
    cbn [mbind option_bind]. apply IH; [rewrite He', length_drop|..]; lia.
Qed.

Lemma plain_prefix_run (ps : list Piece) i k size st :
  Forall (λ p, length p = piece_len) ps →
  length (chunk st) + length (concat ps) < chunk_len →
  run_packets false (decoded_packet TYPE_XNC (Z.of_nat i) size (Z.of_nat k) [] <$> ps) st =
    Some (Next {| rFile := rFile st; chunk := chunk st ++ concat ps; decoders := decoders st |}).
Proof.
  intros HF. revert st. induction HF as [|p ps Hp HF IH]; intros st Hl.
  - simpl. rewrite app_nil_r. by destruct st.
  - simpl in Hl. rewrite length_app in Hl. rewrite fmap_cons. cbn [run_packets].
    unfold client_packet at 1. cbn [XPiece decoded_packet].
    rewrite decide_False by (rewrite zlen_app; xnc_lia). cbn [mbind option_bind].
    rewrite IH by (cbn [chunk]; rewrite length_app; lia).
    cbn [rFile chunk decoders concat]. by rewrite <-app_assoc.
Qed.

Lemma frame_take t id size num body (m : nat) :
  m ≤ length body →
  take (length (frame t id size num body) - m) (frame t id size num body) =
    frame t id size num (take (length body - m) body).
Proof.
  intros Hm. unfold frame. rewrite !(app_assoc _ _ body), !(app_assoc _ _ (take _ body)).
  set (h := (([t] ++ u32_bytes id) ++ u32_bytes size) ++ u32_bytes num).
  rewrite !app_assoc. fold h. rewrite length_app, take_app_ge by lia. do 2 f_equal. lia.
Qed.

(** A frame cut short at the end of the stream is completed with zeros. *)
Lemma client_loop_cut_packet fuel evs x (m : nat) st :
  valid_packet false x → 0 < m ≤ piece_len →
  event_bytes evs = take (length (encode_packet x) - m) (encode_packet x) →
  let x' := decoded_packet TYPE_XNC (ChunkId x) (ChunkSize x) (ChunkNum x) []
              (take (piece_len - m) (XPiece x) ++ zeros m) in
  ∃ evs', client_loop (S fuel) false evs st =
    (v ← client_packet false x' st;
     match v with
     | Next st => client_loop fuel false evs' st
     | Stop st => Some (Some (rFile st))
     | Failed => Some None
     end).
Proof.
  intros Hx Hm He x'. destruct (valid_packet_decodes false x Hx) as (Hl & _ & _).
  destruct x as [t id num size v p e]. destruct Hx as [Ht Hi Hs Hn Hv Hp Hend].
  simpl in Ht, Hi, Hs, Hn, Hv, Hp, Hend. subst t e.
  destruct v as [|? v]; [|unfold zlen in Hv; simpl in Hv; lia].
  assert (valid_packet false x') as Hx'.
  { subst x'. split; simpl; try done. rewrite zlen_app, zlen_take.
    unfold zeros. rewrite zlen_replicate. xnc_lia. }
  destruct (valid_packet_decodes false x' Hx') as (_ & Hd & Hne).
  assert (length p = piece_len) as Hpl by xnc_lia.
  unfold encode_packet in *. cbn [Type_ ChunkId ChunkSize ChunkNum XVector XPiece app] in *.
  rewrite frame_take, Hpl in He by lia.
  destruct (read_frame_short FRAMESIZE evs) as (evs' & Hr & _).
  { rewrite He. change (Z.to_nat FRAMESIZE) with (frame_size false). rewrite <-Hl.
    unfold frame. rewrite !length_app, length_take. lia. }
  exists evs'. cbn [client_loop]. rewrite Hr.
  assert (event_bytes evs ++ zeros (Z.to_nat FRAMESIZE - length (event_bytes evs)) =
    frame TYPE_XNC id size num (take (piece_len - m) p ++ zeros m)) as ->.
  { rewrite He. change (Z.to_nat FRAMESIZE) with (frame_size false). rewrite <-Hl.
    unfold frame. rewrite <-!app_assoc. do 5 f_equal. rewrite !length_app, length_take. f_equal. lia. }
  subst x'. cbn [decoded_packet Type_ ChunkId ChunkSize ChunkNum XVector XPiece app] in Hd.
  rewrite Hd. cbn [mbind option_bind]. by rewrite decide_False.
Qed.
End loop.

Section truncation.
Context `{GaloisFieldLaws} `{Scheduler}.
Context (rands : Z → Z → nat → list byte) (write : Z → Z → write_result).
Context (rands_fill : ∀ i j, fills (rands i j)) (all_written : ∀ i s, write i s = Written).

Lemma single_chunk file : zlen file = CHUNKSIZE → padded chunk_len file = [file].
Proof.
  intros Hf. assert (length file = chunk_len) as Hl by xnc_lia.
  assert (0 < chunk_len) by xnc_lia. assert (file ≠ []) by (intros ->; simpl in Hl; lia).
  rewrite padded_cons by done. rewrite take_ge, drop_ge by lia.
  rewrite padded_nil by done. rewrite Hl, Nat.sub_diag. by rewrite app_nil_r.
Qed.

(** a stream that ends inside the payload of the last piece is not noticed:
    for a file of one chunk whose last m bytes never arrive (m at most a
    piece), the client returns the file with these m bytes replaced by zeros,
    as a success. *)
Theorem truncated_stream_accepted file (m : nat) :
  zlen file = CHUNKSIZE → 0 < m ≤ piece_len →
  ∃ pkts, sendFile rands write file false = Some pkts ∧
    ∀ evs, event_bytes evs = take (piece_cnt * frame_size false - m) (concat pkts) →
      Client false evs = Some (Some (take (chunk_len - m) file ++ zeros m)).
Proof.
  intros Hf Hm. eexists. split; [by apply sendFile_ok|]. intros evs Hevs.
  assert (length file = chunk_len) as Hl by xnc_lia.
  pose proof (file_packets_valid rands rands_fill false file (chunk_count file ltac:(xnc_lia))) as Hval.
  unfold file_packets in *. rewrite (single_chunk file Hf) in *. cbn [imap concat] in *.
  rewrite app_nil_r in *. simpl packets_of in *. unfold plain_packets in *.
  destruct (pieces_of_ok file Hl) as (Hcnt & HF & Hcat).
  destruct (exists_last (l := pieces_of file)) as (ps & p & Hps);
    [intros Hnil; rewrite Hnil in Hcnt; simpl in Hcnt; xnc_lia|].
  rewrite Hps in *. rewrite concat_app in Hcat. cbn [concat] in Hcat. rewrite app_nil_r in Hcat.
  apply Forall_app in HF as [HFps [Hp _]%Forall_cons].
  rewrite fmap_app in Hval, Hevs. apply Forall_app in Hval as [Hvps [Hvp _]%Forall_cons].
  set (x := decoded_packet _ _ _ _ _ p) in *.
  rewrite !fmap_app, !concat_app in Hevs. cbn [fmap list_fmap concat] in Hevs.
  rewrite app_nil_r in Hevs.
  assert (length (concat (encode_packet <$> (decoded_packet TYPE_XNC (Z.of_nat 0)
    (size_of file 1 0) (Z.of_nat 1) [] <$> ps))) + frame_size false =
    piece_cnt * frame_size false) as Hbytes.
  { rewrite <-Hcnt, length_app. simpl length.
    enough (length (concat (encode_packet <$> (decoded_packet TYPE_XNC (Z.of_nat 0)
      (size_of file 1 0) (Z.of_nat 1) [] <$> ps))) = length ps * frame_size false) by lia.
    clear -Hvps H0. induction ps as [|q ps IH]; [done|]. rewrite !fmap_cons in *.
    apply Forall_cons in Hvps as [Hq Hvps]. cbn [concat]. rewrite length_app, IH by done.
    destruct (valid_packet_decodes false _ Hq) as (-> & _). simpl. lia. }
  destruct (valid_packet_decodes false x Hvp) as (Hlx & _).
  set (xs := decoded_packet TYPE_XNC (Z.of_nat 0) (size_of file 1 0) (Z.of_nat 1) [] <$> ps) in *.
  pose proof (frame_size_pos false) as Hfp.
  assert (piece_len < frame_size false) as Hpf by (unfold frame_size; xnc_lia).
  fold x in Hevs. rewrite <-app_assoc, take_app_ge, take_app_le in Hevs by (rewrite ?Hlx; lia).
  replace (piece_cnt * frame_size false - m - length (concat (encode_packet <$> xs)))
    with (length (encode_packet x) - m) in Hevs by lia.
  pose proof (length_concat_packets false xs Hvps) as Hlen.
  pose proof (client_loop_packets false xs (S (length (event_bytes evs))) evs _
    {| rFile := []; chunk := []; decoders := None |} Hvps Hevs) as Hloop.
  assert (length (event_bytes evs) >= length xs) as Hge by (rewrite Hevs, length_app; lia).
  assert (length (concat ps) + length p = chunk_len) as Hcl by (rewrite <-Hl, <-Hcat, length_app; lia).
  assert (run_packets false xs {| rFile := []; chunk := []; decoders := None |} =
    Some (Next {| rFile := []; chunk := [] ++ concat ps; decoders := None |})) as Hrunps
    by (apply plain_prefix_run; [done|cbn [chunk length]; lia]).
  unfold Client. rewrite Hrunps in Hloop.
  destruct (Hloop ltac:(lia)) as (evs1 & He1 & ->). rewrite Nat.sub_succ_l by lia.
  destruct (client_loop_cut_packet (length (event_bytes evs) - length xs) evs1 x m
    {| rFile := []; chunk := [] ++ concat ps; decoders := None |} Hvp Hm He1) as (evs2 & ->).
  unfold client_packet. cbn [XPiece decoded_packet chunk rFile decoders].
  rewrite decide_True by (unfold zeros, x; cbn [XPiece decoded_packet];
    rewrite app_nil_l, !zlen_app, zlen_take, zlen_replicate; xnc_lia).
  rewrite (finish_chunk_ok _ _ _ 0 1); [| |done|done].
  - cbn [mbind option_bind]. rewrite bool_decide_true by done. unfold finish. simpl.
    do 2 f_equal. unfold size_of. rewrite decide_True by done.
    rewrite Hf. replace (Z.to_nat (CHUNKSIZE - CHUNKSIZE * (Z.of_nat 1 - 1))) with chunk_len by xnc_lia.
    rewrite take_ge by (rewrite !length_app, length_take; unfold zeros; rewrite length_replicate; lia).
    rewrite <-Hcat, take_app_ge by lia. rewrite <-app_assoc. do 3 f_equal. lia.
  - unfold x. cbn [ChunkSize decoded_packet XPiece]. unfold zeros.
    rewrite app_nil_l, !zlen_app, zlen_take, zlen_replicate.
    unfold size_of. rewrite decide_True by done. xnc_lia.
Qed.
End truncation.

(** ** Witnesses *)

(** Sources that draw the unit vectors first, except for the chunks in [bad]. *)
Definition ex_draws (bad : Z → bool) (i j : Z) : nat → list byte :=
  if bad i then zeros else if decide (0 ≤ j < VECTORSIZE)%Z then draw_unit (Z.to_nat j) else draw_ones.

Lemma ex_draws_fill bad i j : fills (ex_draws bad i j).
Proof.
  unfold ex_draws. destruct (bad i); [intros n; apply length_replicate|].
  case_decide; [apply draw_unit_fills|apply draw_ones_fills].
Qed.

Lemma ex_draws_rank bad (i : nat) :
  bad (Z.of_nat i) = false → full_rank piece_cnt (chunk_vectors (ex_draws bad) i).
Proof.
  intros Hb. apply units_full_rank. intros k Hk. apply list_elem_of_fmap.
  exists (Z.of_nat k). split; [|apply elem_of_seqZ; xnc_lia].
  unfold ex_draws, draw_unit. rewrite Hb, decide_True by xnc_lia. by rewrite Nat2Z.id.
Qed.

Lemma ex_draws_no_rank bad (i : nat) :
  bad (Z.of_nat i) = true → ¬ full_rank piece_cnt (chunk_vectors (ex_draws bad) i).
Proof.
  intros Hb Hf. specialize (Hf (replicate piece_cnt x01)).
  enough (replicate piece_cnt x01 = zeros piece_cnt) as E by discriminate E.
  apply Hf; [apply length_replicate|].
  unfold kernel. apply Forall_fmap, Forall_true. intros j. unfold ex_draws. simpl.
  rewrite Hb. apply dot_zeros_l.
Qed.

Definition ex_write (i s : Z) : write_result := Written.
Definition ex_name : list byte := [x61; x2e; x6d; x34; x73].

Lemma uncoded_transfer_witness :
  session (ex_draws (λ _, false)) ex_write (λ _, Some [x01; x02; x03]) ex_name false
    [x01; x02; x03] (Some [x01; x02; x03]).
Proof.
  apply (uncoded_transfer (ex_draws (λ _, false)) ex_write); [|done|by vm_compute|done|by vm_compute].
  intros i j. apply ex_draws_fill.
Defined.

Lemma coded_transfer_witness :
  session (ex_draws (λ _, false)) ex_write (λ _, Some [x01; x02; x03]) ex_name true
    [x01; x02; x03] (Some [x01; x02; x03]).
Proof.
  apply (coded_transfer (ex_draws (λ _, false)) ex_write); [|done|by vm_compute|done|by vm_compute|].
  - intros i j. apply ex_draws_fill.
  - intros i _. by apply ex_draws_rank.
Defined.

Lemma undecoded_chunk_is_dropped_witness :
  let part := replicate chunk_len x07 in
  session (ex_draws (λ i, bool_decide (i = 0)%Z)) ex_write (λ _, Some (part ++ [x01; x02])) ex_name true
    (part ++ [x01; x02]) (Some [x01; x02]).
Proof.
  apply (undecoded_chunk_is_dropped (ex_draws (λ i, bool_decide (i = 0)%Z)) ex_write);
    [|done|by vm_compute|done|by rewrite zlen_replicate|by vm_compute|by apply ex_draws_no_rank|
     by apply ex_draws_rank].
  intros i j. apply ex_draws_fill.
Defined.

Definition ex_packet : XNC :=
  decoded_packet TYPE_XNC_ENC 3 16384 7 (replicate piece_cnt x02) (replicate piece_len x09).

Lemma EncodeXNCPkt_roundtrip_witness :
  ∃ pkt, EncodeXNCPkt ex_packet = Some (Ok pkt) ∧ length pkt = frame_size true ∧
    DecodeXNCPkt pkt = Some (Ok ex_packet).
Proof.
  apply (EncodeXNCPkt_roundtrip true ex_packet).
  split; cbn [ex_packet decoded_packet Type_ ChunkId ChunkSize ChunkNum XVector XPiece End_];
    rewrite ?zlen_replicate; done.
Defined.

Lemma init_end_roundtrip_witness :
  ∃ pkt epkt,
    EncodeInit {| IType := TYPE_INIT; ILen := 5; Filename := ex_name |} = Some pkt ∧
    zlen pkt = INITSIZE ∧
    DecodeInit pkt = Some (Ok {| IType := TYPE_INIT; ILen := 5; Filename := ex_name |}) ∧
    EncodeEND 9 true = Some epkt ∧ DecodeEND epkt true = Some (Ok 9%Z).
Proof. apply (init_end_roundtrip TYPE_INIT ex_name 9 true); [by right|by vm_compute|by vm_compute]. Defined.

Definition ex_long_request : list byte := [TYPE_INIT] ++ u32_bytes 124 ++ replicate 123 x61.

Lemma DecodeInit_panics_witness :
  zlen ex_long_request = INITSIZE ∧ DecodeInit ex_long_request = None.
Proof.
  split; [by vm_compute|].
  apply (DecodeInit_panics ex_long_request TYPE_INIT 124); try by vm_compute. by right.
Defined.

Lemma DecodeXNCPkt_panics_witness :
  DecodeXNCPkt ([TYPE_XNC_ENC] ++ replicate 1036 x00) = None.
Proof. apply (DecodeXNCPkt_panics ([TYPE_XNC_ENC] ++ replicate 1036 x00)); by vm_compute. Defined.

Lemma truncated_stream_accepted_witness :
  let file := replicate chunk_len x07 in
  ∃ pkts, sendFile (ex_draws (λ _, false)) ex_write file false = Some pkts ∧
    ∀ evs, event_bytes evs = take (piece_cnt * frame_size false - 3) (concat pkts) →
      Client false evs = Some (Some (take (chunk_len - 3) file ++ [x00; x00; x00])).
Proof.
  apply (truncated_stream_accepted (ex_draws (λ _, false)) ex_write);
    [intros i j; apply ex_draws_fill|done|by rewrite zlen_replicate|xnc_lia].
Defined.
