(* ===== verification/ByteOrder.v ===== *)
(** Reading and writing integers on the wire (src/mp-quic/internal/utils:
    byteorder.go, byteorder_big_endian.go, byteorder_little_endian.go,
    float16.go).

    A reader consumes a prefix of the packet or fails; a writer yields the
    bytes it appends, and [None] when it panics.  The [ByteOrder] interface of
    the source is a record of operations, and [ByteOrderLaws] states what the
    frame formats rely on: one encoding of [n]-byte integers that every writer
    emits and every reader consumes. *)

From Stdlib Require Import ZArith Lia.
From Stdlib Require Import Strings.Byte.
From stdpp Require Import prelude numbers list.
From S2P Require Import Prelude.

Open Scope Z_scope.

(** * Readers *)

Inductive WireError : Type :=
| EOF
| UnexpectedEOF
| QuicError (code : Z)
| errEmptyFrameWithoutFin
| EmptyStreamFrameNoFin
| errInvalidStreamIDLen
| errInvalidOffsetLen
| errPacketNumberNotSet
| errLeastUnackedHigherThanPacketNumber
| errPacketNumberLenNotSet
| errReasonPhraseTooLong
| ErrTooManyPaths
| ErrPathsNumber
| ErrMissingRTT
| ErrUnknownIPVersion
| errInconsistentAddrIPVersion
| ErrInvalidAckRanges
| ErrInvalidFirstAckRange
| errInconsistentAckLargestAcked
| errInconsistentAckLowestAcked
| errInconsistentAckRanges
| ErrPacketWithUnknownVersion
| errResetAndVersionFlagSet
| errReceivedTruncatedConnectionID
| errInvalidConnectionID
| errGetLengthNotForVersionNegotiation
| errInvalidNonceLength
| errWrongPublicResetTag
| errMissingTag (tag : Z)
| errInvalidTag (tag : Z)
| errCongestionFeedback.

Definition reader (A : Type) : Type := list byte → result WireError (A * list byte).

#[export] Instance reader_ret : MRet reader := λ A a r, Ok (a, r).
#[export] Instance reader_bind : MBind reader := λ A B f m r,
  match m r with Ok (a, r) => f a r | Err e => Err e end.

Definition fail {A} (e : WireError) : reader A := λ _, Err e.

(** [ReadByte], [io.ReadFull] into a buffer of [n] bytes, and [Len]. *)
Definition ReadByte : reader byte := λ r,
  match r with [] => Err EOF | b :: r => Ok (b, r) end.
Definition ReadFull (n : Z) : reader (list byte) := λ r,
  if decide (n ≤ 0) then Ok ([], r)
  else if decide (r = []) then Err EOF
  else if decide (zlen r < n) then Err UnexpectedEOF
  else Ok (take (Z.to_nat n) r, drop (Z.to_nat n) r).
Definition Len_ : reader Z := λ r, Ok (zlen r, r).

(** [m] consumes exactly [bs] and yields [v]. *)
Definition reads {A} (m : reader A) (bs : list byte) (v : A) : Prop :=
  ∀ r, m (bs ++ r) = Ok (v, r).

(** * The interface *)

Record ByteOrder : Type := {
  ReadUintN : Z → reader Z;
  ReadUint64 : reader Z;
  ReadUint32 : reader Z;
  ReadUint16 : reader Z;
  WriteUint64 : Z → option (list byte);
  WriteUint56 : Z → option (list byte);
  WriteUint48 : Z → option (list byte);
  WriteUint40 : Z → option (list byte);
  WriteUint32 : Z → option (list byte);
  WriteUint24 : Z → option (list byte);
  WriteUint16 : Z → option (list byte)
}.

(** Read [n] bytes one after the other and combine them with [res ^= bt << shift i]. *)
Fixpoint read_uint_loop (shift : Z → Z) (i : Z) (n : nat) (res : Z) : reader Z :=
  match n with
  | O => mret res
  | S n => bt ← ReadByte; read_uint_loop shift (i + 1) n (Z.lxor res (u64 (Z.shiftl (byte_val bt) (shift i))))
  end.

(** The sums of shifted bytes wrap once at the end: conversions to a fixed width
    commute with sums. *)
Module BigEndian.
Definition ReadUintN (length : Z) : reader Z :=
read_uint_loop (λ i, u8 (u8 (length - 1 - i) * 8)) 0 (Z.to_nat length) 0.
Definition ReadUint64 : reader Z :=
b8 ← ReadByte; b7 ← ReadByte; b6 ← ReadByte; b5 ← ReadByte;
b4 ← ReadByte; b3 ← ReadByte; b2 ← ReadByte; b1 ← ReadByte;
mret (u64 (byte_val b1 + Z.shiftl (byte_val b2) 8 + Z.shiftl (byte_val b3) 16 +
  Z.shiftl (byte_val b4) 24 + Z.shiftl (byte_val b5) 32 + Z.shiftl (byte_val b6) 40 +
  Z.shiftl (byte_val b7) 48 + Z.shiftl (byte_val b8) 56)).
Definition ReadUint32 : reader Z :=
b4 ← ReadByte; b3 ← ReadByte; b2 ← ReadByte; b1 ← ReadByte;
mret (u32 (byte_val b1 + Z.shiftl (byte_val b2) 8 + Z.shiftl (byte_val b3) 16 +
  Z.shiftl (byte_val b4) 24)).
Definition ReadUint16 : reader Z :=
b2 ← ReadByte; b1 ← ReadByte; mret (u16 (byte_val b1 + Z.shiftl (byte_val b2) 8)).

Definition WriteUint64 (i : Z) : option (list byte) :=
Some [byte_of (Z.shiftr i 56); byte_of (Z.shiftr i 48); byte_of (Z.shiftr i 40);
      byte_of (Z.shiftr i 32); byte_of (Z.shiftr i 24); byte_of (Z.shiftr i 16);
      byte_of (Z.shiftr i 8); byte_of i].
Definition WriteUint56 (i : Z) : option (list byte) :=
if decide (Z.shiftl 1 56 ≤ i) then None
else Some [byte_of (Z.shiftr i 48); byte_of (Z.shiftr i 40); byte_of (Z.shiftr i 32);
           byte_of (Z.shiftr i 24); byte_of (Z.shiftr i 16); byte_of (Z.shiftr i 8); byte_of i].
Definition WriteUint48 (i : Z) : option (list byte) :=
if decide (Z.shiftl 1 48 ≤ i) then None
else Some [byte_of (Z.shiftr i 40); byte_of (Z.shiftr i 32);
           byte_of (Z.shiftr i 24); byte_of (Z.shiftr i 16); byte_of (Z.shiftr i 8); byte_of i].
Definition WriteUint40 (i : Z) : option (list byte) :=
if decide (Z.shiftl 1 40 ≤ i) then None
else Some [byte_of (Z.shiftr i 32);
           byte_of (Z.shiftr i 24); byte_of (Z.shiftr i 16); byte_of (Z.shiftr i 8); byte_of i].
Definition WriteUint32 (i : Z) : option (list byte) :=
Some [byte_of (Z.shiftr i 24); byte_of (Z.shiftr i 16); byte_of (Z.shiftr i 8); byte_of i].
Definition WriteUint24 (i : Z) : option (list byte) :=
if decide (Z.shiftl 1 24 ≤ i) then None
else Some [byte_of (Z.shiftr i 16); byte_of (Z.shiftr i 8); byte_of i].
Definition WriteUint16 (i : Z) : option (list byte) :=
Some [byte_of (Z.shiftr i 8); byte_of i].
End BigEndian.

Module LittleEndian.
Definition ReadUintN (length : Z) : reader Z :=
read_uint_loop (λ i, u8 (i * 8)) 0 (Z.to_nat length) 0.
Definition ReadUint64 : reader Z :=
b1 ← ReadByte; b2 ← ReadByte; b3 ← ReadByte; b4 ← ReadByte;
b5 ← ReadByte; b6 ← ReadByte; b7 ← ReadByte; b8 ← ReadByte;
mret (u64 (byte_val b1 + Z.shiftl (byte_val b2) 8 + Z.shiftl (byte_val b3) 16 +
  Z.shiftl (byte_val b4) 24 + Z.shiftl (byte_val b5) 32 + Z.shiftl (byte_val b6) 40 +
  Z.shiftl (byte_val b7) 48 + Z.shiftl (byte_val b8) 56)).
Definition ReadUint32 : reader Z :=
b1 ← ReadByte; b2 ← ReadByte; b3 ← ReadByte; b4 ← ReadByte;
mret (u32 (byte_val b1 + Z.shiftl (byte_val b2) 8 + Z.shiftl (byte_val b3) 16 +
  Z.shiftl (byte_val b4) 24)).
Definition ReadUint16 : reader Z :=
b1 ← ReadByte; b2 ← ReadByte; mret (u16 (byte_val b1 + Z.shiftl (byte_val b2) 8)).

Definition WriteUint64 (i : Z) : option (list byte) :=
Some [byte_of i; byte_of (Z.shiftr i 8); byte_of (Z.shiftr i 16); byte_of (Z.shiftr i 24);
      byte_of (Z.shiftr i 32); byte_of (Z.shiftr i 40); byte_of (Z.shiftr i 48);
      byte_of (Z.shiftr i 56)].
Definition WriteUint56 (i : Z) : option (list byte) :=
if decide (Z.shiftl 1 56 ≤ i) then None
else Some [byte_of i; byte_of (Z.shiftr i 8); byte_of (Z.shiftr i 16); byte_of (Z.shiftr i 24);
           byte_of (Z.shiftr i 32); byte_of (Z.shiftr i 40); byte_of (Z.shiftr i 48)].
Definition WriteUint48 (i : Z) : option (list byte) :=
if decide (Z.shiftl 1 48 ≤ i) then None
else Some [byte_of i; byte_of (Z.shiftr i 8); byte_of (Z.shiftr i 16); byte_of (Z.shiftr i 24);
           byte_of (Z.shiftr i 32); byte_of (Z.shiftr i 40)].
Definition WriteUint40 (i : Z) : option (list byte) :=
if decide (Z.shiftl 1 40 ≤ i) then None
else Some [byte_of i; byte_of (Z.shiftr i 8); byte_of (Z.shiftr i 16);
           byte_of (Z.shiftr i 24); byte_of (Z.shiftr i 32)].
Definition WriteUint32 (i : Z) : option (list byte) :=
Some [byte_of i; byte_of (Z.shiftr i 8); byte_of (Z.shiftr i 16); byte_of (Z.shiftr i 24)].
Definition WriteUint24 (i : Z) : option (list byte) :=
if decide (Z.shiftl 1 24 ≤ i) then None
else Some [byte_of i; byte_of (Z.shiftr i 8); byte_of (Z.shiftr i 16)].
Definition WriteUint16 (i : Z) : option (list byte) :=
Some [byte_of i; byte_of (Z.shiftr i 8)].
End LittleEndian.

Definition bigEndian : ByteOrder := {|
  ReadUintN := BigEndian.ReadUintN; ReadUint64 := BigEndian.ReadUint64;
  ReadUint32 := BigEndian.ReadUint32; ReadUint16 := BigEndian.ReadUint16;
  WriteUint64 := BigEndian.WriteUint64; WriteUint56 := BigEndian.WriteUint56;
  WriteUint48 := BigEndian.WriteUint48; WriteUint40 := BigEndian.WriteUint40;
  WriteUint32 := BigEndian.WriteUint32; WriteUint24 := BigEndian.WriteUint24;
  WriteUint16 := BigEndian.WriteUint16 |}.
Definition littleEndian : ByteOrder := {|
  ReadUintN := LittleEndian.ReadUintN; ReadUint64 := LittleEndian.ReadUint64;
  ReadUint32 := LittleEndian.ReadUint32; ReadUint16 := LittleEndian.ReadUint16;
  WriteUint64 := LittleEndian.WriteUint64; WriteUint56 := LittleEndian.WriteUint56;
  WriteUint48 := LittleEndian.WriteUint48; WriteUint40 := LittleEndian.WriteUint40;
  WriteUint32 := LittleEndian.WriteUint32; WriteUint24 := LittleEndian.WriteUint24;
  WriteUint16 := LittleEndian.WriteUint16 |}.

Definition Version39 : Z := 39.
Definition GetByteOrder (v : Z) : ByteOrder :=
  if decide (v < Version39) then littleEndian else bigEndian.

(** * 16-bit floats *)

Definition uFloat16ExponentBits : Z := 5.
Definition uFloat16MaxExponent : Z := Z.shiftl 1 uFloat16ExponentBits - 2.
Definition uFloat16MantissaBits : Z := 16 - uFloat16ExponentBits.
Definition uFloat16MantissaEffectiveBits : Z := uFloat16MantissaBits + 1.
Definition uFloat16MaxValue : Z :=
  Z.shiftl (Z.shiftl 1 uFloat16MantissaEffectiveBits - 1) uFloat16MaxExponent.

Definition readUfloat16 (byteOrder : ByteOrder) : reader Z :=
  val ← ReadUint16 byteOrder;
  let res := val in
  if decide (res < Z.shiftl 1 uFloat16MantissaEffectiveBits) then mret res
  else
    let exponent := Z.shiftr val uFloat16MantissaBits in
    let exponent := u16 (exponent - 1) in
    let res := u64 (res - u64 (Z.shiftl exponent uFloat16MantissaBits)) in
    mret (u64 (Z.shiftl res exponent)).

(** The body of the loop over the offsets 16, 8, 4, 2 and 1. *)
Definition ufloat_step (offset : Z) (st : Z * Z) : Z * Z :=
  let '(value, exponent) := st in
  if decide (Z.shiftl 1 (uFloat16MantissaBits + offset) ≤ value)
  then (Z.shiftr value offset, u16 (exponent + offset))
  else st.

Definition ufloat16_bits (value : Z) : Z :=
  if decide (value < Z.shiftl 1 uFloat16MantissaEffectiveBits) then u16 value
  else if decide (uFloat16MaxValue ≤ value) then 2 ^ 16 - 1
  else
    let '(value, exponent) := foldl (λ st offset, ufloat_step offset st) (value, 0) [16; 8; 4; 2; 1] in
    u16 (u16 value + u16 (Z.shiftl exponent uFloat16MantissaBits)).

Definition writeUfloat16 (byteOrder : ByteOrder) (value : Z) : option (list byte) :=
  WriteUint16 byteOrder (ufloat16_bits value).

Close Scope Z_scope.

(** * What the frame formats rely on *)

Class ByteOrderLaws (bo : ByteOrder) : Type := {
  enc : nat → Z → list byte;
  length_enc n v : length (enc n v) = n;
  read_uintN n v : n ≤ 8 → (0 ≤ v < 256 ^ Z.of_nat n)%Z → reads (ReadUintN bo (Z.of_nat n)) (enc n v) v;
  read_uint64 v : (0 ≤ v < 2 ^ 64)%Z → reads (ReadUint64 bo) (enc 8 v) v;
  read_uint32 v : (0 ≤ v < 2 ^ 32)%Z → reads (ReadUint32 bo) (enc 4 v) v;
  read_uint16 v : (0 ≤ v < 2 ^ 16)%Z → reads (ReadUint16 bo) (enc 2 v) v;
  write_uint64 v : (0 ≤ v < 2 ^ 64)%Z → WriteUint64 bo v = Some (enc 8 v);
  write_uint56 v : (0 ≤ v < 2 ^ 56)%Z → WriteUint56 bo v = Some (enc 7 v);
  write_uint48 v : (0 ≤ v < 2 ^ 48)%Z → WriteUint48 bo v = Some (enc 6 v);
  write_uint40 v : (0 ≤ v < 2 ^ 40)%Z → WriteUint40 bo v = Some (enc 5 v);
  write_uint32 v : (0 ≤ v < 2 ^ 32)%Z → WriteUint32 bo v = Some (enc 4 v);
  write_uint24 v : (0 ≤ v < 2 ^ 24)%Z → WriteUint24 bo v = Some (enc 3 v);
  write_uint16 v : (0 ≤ v < 2 ^ 16)%Z → WriteUint16 bo v = Some (enc 2 v);
  write_byte v : (0 ≤ v < 2 ^ 8)%Z → enc 1 v = [byte_of v]
}.

(** ** Readers compose *)

Lemma reads_ret {A} (v : A) : reads (mret v) [] v.
Proof. by intros r. Qed.

Lemma reads_bind {A B} (m : reader A) (f : A → reader B) bs1 bs2 v w :
  reads m bs1 v → reads (f v) bs2 w → reads (m ≫= f) (bs1 ++ bs2) w.
Proof.
  intros Hm Hf r. rewrite <-app_assoc. unfold mbind, reader_bind. rewrite Hm. apply Hf.
Qed.

Lemma reads_bind_last {A B} (m : reader A) (f : A → reader B) bs v w :
  reads m bs v → reads (f v) [] w → reads (m ≫= f) bs w.
Proof. intros Hm Hf. rewrite <-(app_nil_r bs). by eapply reads_bind. Qed.

Lemma reads_ReadByte b : reads ReadByte [b] b.
Proof. by intros r. Qed.

Lemma reads_ReadFull n bs : zlen bs = n → reads (ReadFull n) bs bs.
Proof.
  intros Hn r. unfold ReadFull. unfold zlen in *. case_decide.
  { destruct bs; [done|simpl in *; lia]. }
  rewrite decide_False by (destruct bs; simpl in *; [lia|done]).
  rewrite decide_False by (rewrite length_app; lia).
  subst n. by rewrite Nat2Z.id, take_app_length, drop_app_length.
Qed.

(** ** Both orders satisfy the laws *)

Lemma lxor_disjoint a b k :
  (0 ≤ k → 0 ≤ b < 2 ^ k → Z.lxor (a * 2 ^ k) b = a * 2 ^ k + b)%Z.
Proof.
  intros Hk Hb. symmetry. apply Z.add_nocarry_lxor. apply Z.bits_inj'. intros n Hn.
  rewrite Z.land_spec, Z.bits_0. destruct (decide (n < k)%Z).
  - by rewrite Z.mul_pow2_bits_low.
  - rewrite <-(Z.mod_small b (2 ^ k)) by done. rewrite Z.mod_pow2_bits_high by lia.
    apply andb_false_r.
Qed.

Lemma be_val_snoc l b : be_val (l ++ [b]) = (be_val l * 256 + byte_val b)%Z.
Proof. rewrite be_val_app. change (be_val [b]) with (0 * 256 + byte_val b)%Z. simpl. lia. Qed.

Lemma pow256 n : (256 ^ Z.of_nat n = 2 ^ (8 * Z.of_nat n))%Z.
Proof. rewrite Z.pow_mul_r by lia. done. Qed.

Lemma shiftl_byte_small b (m : nat) :
  m ≤ 7 → u64 (Z.shiftl (byte_val b) (8 * Z.of_nat m)) = (byte_val b * 256 ^ Z.of_nat m)%Z.
Proof.
  intros Hm. rewrite Z.shiftl_mul_pow2, <-pow256 by lia. apply u64_small.
  pose proof (byte_val_range b). assert (256 ^ Z.of_nat m ≤ 256 ^ 7)%Z by (apply Z.pow_le_mono_r; lia).
  assert (0 < 256 ^ Z.of_nat m)%Z by (apply Z.pow_pos_nonneg; lia). nia.
Qed.

Lemma read_uint_step shift i n res b r :
  read_uint_loop shift i (S n) res (b :: r) =
    read_uint_loop shift (i + 1) n (Z.lxor res (u64 (Z.shiftl (byte_val b) (shift i)))) r.
Proof. done. Qed.

Lemma big_loop (p q : list byte) n r :
  length p + length q = n → n ≤ 8 →
  read_uint_loop (λ i, u8 (u8 (Z.of_nat n - 1 - i) * 8)) (Z.of_nat (length p)) (length q)
    (be_val p * 256 ^ Z.of_nat (length q)) (q ++ r) = Ok (be_val (p ++ q), r).
Proof.
  revert p. induction q as [|b q IH]; intros p Hn Hn8.
  { simpl. rewrite app_nil_r, Z.mul_1_r. done. }
  cbn [length app]. rewrite read_uint_step. simpl in Hn.
  specialize (IH (p ++ [b])). rewrite length_app in IH. simpl in IH.
  rewrite <-app_assoc in IH. simpl in IH.
  assert (u8 (u8 (Z.of_nat n - 1 - Z.of_nat (length p)) * 8) = 8 * Z.of_nat (length q))%Z as ->.
  { rewrite (u8_small (Z.of_nat n - 1 - _)) by lia. rewrite u8_small by lia. lia. }
  rewrite shiftl_byte_small by lia.
  assert (Z.lxor (be_val p * 256 ^ Z.of_nat (S (length q)))
    (byte_val b * 256 ^ Z.of_nat (length q)) = be_val (p ++ [b]) * 256 ^ Z.of_nat (length q))%Z as ->.
  { assert (256 ^ Z.of_nat (S (length q)) = 256 * 256 ^ Z.of_nat (length q))%Z as Hpow
      by (rewrite Nat2Z.inj_succ, Z.pow_succ_r by lia; done).
    assert (0 < 256 ^ Z.of_nat (length q))%Z by (apply Z.pow_pos_nonneg; lia).
    pose proof (byte_val_range b). rewrite (pow256 (S (length q))), lxor_disjoint.
    - rewrite be_val_snoc, <-pow256, Hpow. lia.
    - lia.
    - rewrite <-pow256, Hpow. nia. }
  replace (Z.of_nat (length p) + 1)%Z with (Z.of_nat (length p + 1)) by lia.
  apply IH; lia.
Qed.

Lemma little_loop (p q : list byte) r :
  length p + length q ≤ 8 →
  read_uint_loop (λ i, u8 (i * 8)) (Z.of_nat (length p)) (length q)
    (be_val (reverse p)) (q ++ r) = Ok (be_val (reverse (p ++ q)), r).
Proof.
  revert p. induction q as [|b q IH]; intros p Hn.
  { simpl. by rewrite app_nil_r. }
  cbn [length app]. rewrite read_uint_step. simpl in Hn.
  specialize (IH (p ++ [b])). rewrite length_app in IH. simpl in IH.
  rewrite <-app_assoc in IH. simpl in IH.
  replace (u8 (Z.of_nat (length p) * 8)) with (8 * Z.of_nat (length p))%Z
    by (rewrite u8_small by lia; lia).
  rewrite shiftl_byte_small by lia.
  assert (Z.lxor (be_val (reverse p)) (byte_val b * 256 ^ Z.of_nat (length p)) =
    be_val (reverse (p ++ [b])))%Z as ->.
  { rewrite Z.lxor_comm, pow256, lxor_disjoint.
    - rewrite reverse_snoc, be_val_cons, length_reverse, <-pow256. done.
    - lia.
    - rewrite <-pow256, <-(length_reverse p). apply be_val_range. }
  replace (Z.of_nat (length p) + 1)%Z with (Z.of_nat (length p + 1)) by lia.
  apply IH; lia.
Qed.

Ltac be_sum :=
  unfold be_val; cbn [be_val_acc]; rewrite ?Z.shiftl_mul_pow2 by lia; lia.

Lemma be_sum8 b8 b7 b6 b5 b4 b3 b2 b1 :
  u64 (byte_val b1 + Z.shiftl (byte_val b2) 8 + Z.shiftl (byte_val b3) 16 +
    Z.shiftl (byte_val b4) 24 + Z.shiftl (byte_val b5) 32 + Z.shiftl (byte_val b6) 40 +
    Z.shiftl (byte_val b7) 48 + Z.shiftl (byte_val b8) 56) = be_val [b8; b7; b6; b5; b4; b3; b2; b1].
Proof. rewrite u64_small; [be_sum|]. pose proof (be_val_range [b8; b7; b6; b5; b4; b3; b2; b1]) as H.
  revert H. unfold be_val; cbn [be_val_acc length]; rewrite ?Z.shiftl_mul_pow2 by lia; lia. Qed.

Lemma be_sum4 b4 b3 b2 b1 :
  u32 (byte_val b1 + Z.shiftl (byte_val b2) 8 + Z.shiftl (byte_val b3) 16 +
    Z.shiftl (byte_val b4) 24) = be_val [b4; b3; b2; b1].
Proof. rewrite u32_small; [be_sum|]. pose proof (be_val_range [b4; b3; b2; b1]) as H.
  revert H. unfold be_val; cbn [be_val_acc length]; rewrite ?Z.shiftl_mul_pow2 by lia; lia. Qed.

Lemma be_sum2 b2 b1 :
  u16 (byte_val b1 + Z.shiftl (byte_val b2) 8) = be_val [b2; b1].
Proof. rewrite u16_small; [be_sum|]. pose proof (be_val_range [b2; b1]) as H.
  revert H. unfold be_val; cbn [be_val_acc length]; rewrite ?Z.shiftl_mul_pow2 by lia; lia. Qed.

Ltac explicit_bytes bs Hl := repeat (destruct bs as [|? bs]; try discriminate Hl).

Lemma big_read64 bs : length bs = 8 → reads BigEndian.ReadUint64 bs (be_val bs).
Proof. intros Hl r. explicit_bytes bs Hl. rewrite <-be_sum8. reflexivity. Qed.
Lemma big_read32 bs : length bs = 4 → reads BigEndian.ReadUint32 bs (be_val bs).
Proof. intros Hl r. explicit_bytes bs Hl. rewrite <-be_sum4. reflexivity. Qed.
Lemma big_read16 bs : length bs = 2 → reads BigEndian.ReadUint16 bs (be_val bs).
Proof. intros Hl r. explicit_bytes bs Hl. rewrite <-be_sum2. reflexivity. Qed.
Lemma little_read64 bs : length bs = 8 → reads LittleEndian.ReadUint64 (reverse bs) (be_val bs).
Proof. intros Hl r. explicit_bytes bs Hl. rewrite <-be_sum8. reflexivity. Qed.
Lemma little_read32 bs : length bs = 4 → reads LittleEndian.ReadUint32 (reverse bs) (be_val bs).
Proof. intros Hl r. explicit_bytes bs Hl. rewrite <-be_sum4. reflexivity. Qed.
Lemma little_read16 bs : length bs = 2 → reads LittleEndian.ReadUint16 (reverse bs) (be_val bs).
Proof. intros Hl r. explicit_bytes bs Hl. rewrite <-be_sum2. reflexivity. Qed.

Ltac fixed_read lem n := intros v Hv; cbn [ReadUint64 ReadUint32 ReadUint16 bigEndian littleEndian];
  rewrite <-(be_val_bytes_small n v) at 2 by exact Hv; apply lem; apply length_be_bytes.
Ltac fixed_write := intros v Hv; cbn [WriteUint64 WriteUint56 WriteUint48 WriteUint40 WriteUint32
    WriteUint24 WriteUint16 bigEndian littleEndian]; unfold BigEndian.WriteUint64, BigEndian.WriteUint56,
  BigEndian.WriteUint48, BigEndian.WriteUint40, BigEndian.WriteUint32, BigEndian.WriteUint24,
  BigEndian.WriteUint16, LittleEndian.WriteUint64, LittleEndian.WriteUint56,
  LittleEndian.WriteUint48, LittleEndian.WriteUint40, LittleEndian.WriteUint32,
  LittleEndian.WriteUint24, LittleEndian.WriteUint16;
  rewrite ?decide_False by (rewrite Z.shiftl_mul_pow2 by lia; lia);
  cbn; by rewrite Z.shiftr_0_r.

#[export] Program Instance bigEndian_laws : ByteOrderLaws bigEndian := {| enc := be_bytes |}.
Next Obligation. apply length_be_bytes. Qed.
Next Obligation.
  intros n v Hn Hv r. simpl. unfold BigEndian.ReadUintN. rewrite Nat2Z.id.
  pose proof (big_loop [] (be_bytes n v) n r) as Hl. rewrite length_be_bytes in Hl.
  cbn [length app] in Hl. rewrite be_val_bytes_small in Hl by done. by apply Hl.
Qed.
Next Obligation. fixed_read big_read64 8. Qed.
Next Obligation. fixed_read big_read32 4. Qed.
Next Obligation. fixed_read big_read16 2. Qed.
Next Obligation. fixed_write. Qed.
Next Obligation. fixed_write. Qed.
Next Obligation. fixed_write. Qed.
Next Obligation. fixed_write. Qed.
Next Obligation. fixed_write. Qed.
Next Obligation. fixed_write. Qed.
Next Obligation. fixed_write. Qed.
Next Obligation. intros v Hv. simpl. by rewrite Z.shiftr_0_r. Qed.

#[export] Program Instance littleEndian_laws : ByteOrderLaws littleEndian := {|
  enc n v := reverse (be_bytes n v)
|}.
Next Obligation. intros n v. exact (eq_trans (length_reverse _) (length_be_bytes n v)). Qed.
Next Obligation.
  intros n v Hn Hv r. simpl. unfold LittleEndian.ReadUintN. rewrite Nat2Z.id.
  pose proof (little_loop [] (reverse (be_bytes n v)) r) as Hl.
  rewrite length_reverse, length_be_bytes in Hl. cbn [length app] in Hl.
  rewrite reverse_involutive, be_val_bytes_small in Hl by done. by apply Hl.
Qed.
Next Obligation. fixed_read little_read64 8. Qed.
Next Obligation. fixed_read little_read32 4. Qed.
Next Obligation. fixed_read little_read16 2. Qed.
Next Obligation. fixed_write. Qed.
Next Obligation. fixed_write. Qed.
Next Obligation. fixed_write. Qed.
Next Obligation. fixed_write. Qed.
Next Obligation. fixed_write. Qed.
Next Obligation. fixed_write. Qed.
Next Obligation. fixed_write. Qed.
Next Obligation. intros v Hv. simpl. by rewrite Z.shiftr_0_r. Qed.

#[export] Instance GetByteOrder_laws v : ByteOrderLaws (GetByteOrder v).
Proof. unfold GetByteOrder. destruct (decide _); apply _. Defined.

(** * Rounding of the 16-bit floats *)

Open Scope Z_scope.

Lemma float_constants :
  uFloat16MantissaBits = 11 ∧ uFloat16MantissaEffectiveBits = 12 ∧ uFloat16MaxExponent = 30 ∧
  uFloat16MaxValue = 4095 * 2 ^ 30.
Proof. done. Qed.

(** Before the step for [offset] the value is [v0] shifted by the exponent and its
    highest bit is below position [11 + 2 * offset]. *)
Record float_inv (v0 offset : Z) (st : Z * Z) : Prop := {
  float_value : st.1 = v0 / 2 ^ st.2;
  float_low : 2 ^ 11 ≤ st.1;
  float_high : st.1 < 2 ^ (11 + 2 * offset);
  float_exp : 0 ≤ st.2 ≤ 32 - 2 * offset
}.

Lemma ufloat_step_inv v0 offset st :
  0 < offset ≤ 16 → float_inv v0 offset st →
  (ufloat_step offset st).1 = v0 / 2 ^ (ufloat_step offset st).2 ∧
  2 ^ 11 ≤ (ufloat_step offset st).1 < 2 ^ (11 + offset) ∧
  0 ≤ (ufloat_step offset st).2 ≤ 32 - offset.
Proof.
  intros Ho [Hv Hl Hh He]. destruct st as [v e]. simpl in *. unfold ufloat_step.
  destruct float_constants as (-> & _). rewrite Z.shiftl_mul_pow2, Z.mul_1_l by lia.
  assert (0 < 2 ^ offset) as Hpo by (apply Z.pow_pos_nonneg; lia).
  rewrite Z.pow_add_r in * by lia. rewrite Z.mul_comm, Z.pow_mul_r in Hh by lia.
  assert ((2 ^ 2) ^ offset = 2 ^ offset * 2 ^ offset) as Hsq
    by (rewrite <-Z.pow_mul_l; done). 
  case_decide as Hc; simpl.
  - rewrite Z.shiftr_div_pow2, u16_small by lia. split_and!; try lia.
    + rewrite Hv, Z.div_div by (try apply Z.pow_nonzero; try apply Z.pow_pos_nonneg; lia).
      by rewrite Z.pow_add_r by lia.
    + apply Z.div_le_lower_bound; lia.
    + apply Z.div_lt_upper_bound; nia.
  - split_and!; lia.
Qed.

(** The five steps leave the highest bit at position 11. *)
Lemma ufloat_steps v0 :
  2 ^ 12 ≤ v0 < uFloat16MaxValue →
  let st := foldl (λ st offset, ufloat_step offset st) (v0, 0) [16; 8; 4; 2; 1] in
  st.1 = v0 / 2 ^ st.2 ∧ 2 ^ 11 ≤ st.1 < 2 ^ 12 ∧ 0 ≤ st.2 ≤ 30.
Proof.
  intros Hv st. destruct float_constants as (_ & _ & _ & Hmax). rewrite Hmax in Hv.
  assert (∀ o st, 0 < o ≤ 8 → float_inv v0 (2 * o) st → float_inv v0 o (ufloat_step (2 * o) st)) as Hstep.
  { intros o s Ho Hs. destruct (ufloat_step_inv v0 (2 * o) s) as (? & [? ?] & ? & ?); [lia|done|].
    split; try done; try lia. }
  assert (float_inv v0 16 (v0, 0)) as H16.
  { split; simpl; try lia. by rewrite Z.div_1_r. }
  apply (Hstep 8) in H16; [|lia]. apply (Hstep 4) in H16; [|lia].
  apply (Hstep 2) in H16; [|lia]. apply (Hstep 1) in H16; [|lia].
  destruct (ufloat_step_inv v0 1 _ ltac:(lia) H16) as (H1 & H2 & H3).
  subst st. cbn [foldl]. change (2 * 8) with 16 in *. change (2 * 4) with 8 in *.
  change (2 * 2) with 4 in *. change (2 * 1) with 2 in *. change (11 + 1) with 12 in *.
  split; [done|]. split; [done|]. split; [lia|].
  set (s := ufloat_step 1 _) in *. clearbody s. destruct s as [v e]. simpl in *.
  destruct (decide (e = 31)) as [->|]; [|lia]. exfalso.
  assert (v0 / 2 ^ 31 < 2 ^ 11) by (apply Z.div_lt_upper_bound; lia). lia.
Qed.

(** The value a 16-bit float stands for. *)
Definition ufloat16_value (b : Z) : Z :=
  if decide (b < 2 ^ 12) then b else (2 ^ 11 + b mod 2 ^ 11) * 2 ^ (b / 2 ^ 11 - 1).

Lemma read_ufloat16 bo `{!ByteOrderLaws bo} b :
  0 ≤ b < 2 ^ 16 → reads (readUfloat16 bo) (enc 2 b) (ufloat16_value b).
Proof.
  intros Hb. eapply reads_bind_last; [by apply read_uint16|].
  unfold ufloat16_value. destruct float_constants as (Hm & Hme & _). rewrite Hm, Hme.
  rewrite Z.shiftl_mul_pow2, Z.mul_1_l by lia. case_decide; [apply reads_ret|].
  intros r. unfold mret, reader_ret. do 2 f_equal.
  rewrite Z.shiftr_div_pow2 by lia. pose proof (Z.div_mod b (2 ^ 11)) as Hd.
  pose proof (Z.mod_pos_bound b (2 ^ 11)) as Hr. set (q := b / 2 ^ 11) in *. set (m := b mod 2 ^ 11) in *.
  assert (2 ≤ q < 32) as Hq by nia. rewrite u16_small by lia.
  rewrite (Z.shiftl_mul_pow2 (q - 1)) by lia. rewrite (u64_small ((q - 1) * _)) by lia.
  rewrite (u64_small (b - _)) by lia. rewrite Z.shiftl_mul_pow2 by lia.
  assert (2 ^ (q - 1) ≤ 2 ^ 30) by (apply Z.pow_le_mono_r; lia).
  assert (0 < 2 ^ (q - 1)) by (apply Z.pow_pos_nonneg; lia).
  replace (b - (q - 1) * 2 ^ 11) with (2 ^ 11 + m) by lia. apply u64_small. nia.
Qed.

Lemma ufloat16_bits_value v :
  0 ≤ v →
  0 ≤ ufloat16_bits v < 2 ^ 16 ∧
  (v < 2 ^ 12 → ufloat16_value (ufloat16_bits v) = v) ∧
  (uFloat16MaxValue ≤ v → ufloat16_value (ufloat16_bits v) = uFloat16MaxValue) ∧
  (v < uFloat16MaxValue → ufloat16_value (ufloat16_bits v) ≤ v ∧
     (v - ufloat16_value (ufloat16_bits v)) * 2 ^ 11 ≤ ufloat16_value (ufloat16_bits v)).
Proof.
  intros Hv. unfold ufloat16_bits. destruct float_constants as (Hm & Hme & _ & Hmax).
  rewrite Hm, Hme. rewrite Z.shiftl_mul_pow2, Z.mul_1_l by lia.
  destruct (decide (v < 2 ^ 12)) as [Hs|Hs].
  { rewrite u16_small by lia. unfold ufloat16_value. rewrite decide_True by lia.
    rewrite Hmax. split_and!; lia. }
  destruct (decide (uFloat16MaxValue ≤ v)) as [Hx|Hx].
  { split_and!; try lia. intros _. by vm_compute. }
  pose proof (ufloat_steps v ltac:(lia)) as Hst. cbv zeta in Hst.
  destruct (foldl _ _ _) as [w e]. simpl in Hst. destruct Hst as (Hw & Hwr & He).
  rewrite (u16_small w) by lia. rewrite Z.shiftl_mul_pow2 by lia. rewrite (u16_small (e * _)), (u16_small (w + _)) by lia.
  assert (ufloat16_value (w + e * 2 ^ 11) = w * 2 ^ e) as Hval.
  { unfold ufloat16_value. replace (w + e * 2 ^ 11) with (w - 2 ^ 11 + (e + 1) * 2 ^ 11) by lia.
    case_decide; [assert (e = 0) as -> by lia; simpl; lia|].
    rewrite Z.mod_add, Z.div_add, Z.mod_small, Z.div_small by lia.
    f_equal; [lia|]. f_equal. lia. }
  rewrite Hval. assert (0 < 2 ^ e) by (apply Z.pow_pos_nonneg; lia).
  pose proof (Z.div_mod v (2 ^ e)). pose proof (Z.mod_pos_bound v (2 ^ e)).
  split_and!; try lia. intros _. rewrite <-Hw in *. nia.
Qed.

(** a 16-bit float read back never exceeds the value that was written, is
    exact below 4096, loses less than one part in 2048 above it, and values
    beyond the range are clamped to the largest float, in both byte orders. *)
Theorem ufloat16_roundtrip version v :
  0 ≤ v < 2 ^ 64 →
  ∃ bs r, writeUfloat16 (GetByteOrder version) v = Some bs ∧
    reads (readUfloat16 (GetByteOrder version)) bs r ∧
    (v < 2 ^ 12 → r = v) ∧ (uFloat16MaxValue ≤ v → r = uFloat16MaxValue) ∧
    (v < uFloat16MaxValue → r ≤ v ∧ (v - r) * 2 ^ 11 ≤ r).
Proof.
  intros Hv. destruct (ufloat16_bits_value v) as (Hb & H1 & H2 & H3); [lia|].
  exists (enc 2 (ufloat16_bits v)), (ufloat16_value (ufloat16_bits v)).
  split; [by apply write_uint16|]. split; [by apply read_ufloat16|]. auto.
Qed.

Lemma ufloat16_roundtrip_witness :
  ∃ bs r, writeUfloat16 (GetByteOrder 39) 1000001 = Some bs ∧
    reads (readUfloat16 (GetByteOrder 39)) bs r ∧
    (1000001 < 2 ^ 12 → r = 1000001) ∧ (uFloat16MaxValue ≤ 1000001 → r = uFloat16MaxValue) ∧
    (1000001 < uFloat16MaxValue → r ≤ 1000001 ∧ (1000001 - r) * 2 ^ 11 ≤ r).
Proof. apply (ufloat16_roundtrip 39 1000001). by vm_compute. Defined.

(** Every fixed-width write of a value that fits is read back, alone and by
    [ReadUintN], in both byte orders. *)
Theorem write_read_uint version (n : nat) v :
  n ∈ [2; 3; 4; 5; 6; 7; 8]%nat → 0 ≤ v < 256 ^ Z.of_nat n →
  let bo := GetByteOrder version in
  ∃ bs, (match n with
         | 2%nat => WriteUint16 | 3%nat => WriteUint24 | 4%nat => WriteUint32
         | 5%nat => WriteUint40 | 6%nat => WriteUint48 | 7%nat => WriteUint56
         | _ => WriteUint64
         end) bo v = Some bs ∧
    length bs = n ∧ reads (ReadUintN bo (Z.of_nat n)) bs v ∧
    (n = 2%nat → reads (ReadUint16 bo) bs v) ∧ (n = 4%nat → reads (ReadUint32 bo) bs v) ∧
    (n = 8%nat → reads (ReadUint64 bo) bs v).
Proof.
  intros Hn Hv bo. exists (enc n v).
  assert (n ≤ 8)%nat as Hn8 by (repeat (apply elem_of_cons in Hn as [->|Hn]; [lia|]); by apply not_elem_of_nil in Hn).
  split; [|split; [apply length_enc|split; [by apply read_uintN|]]].
  - repeat (apply elem_of_cons in Hn as [->|Hn]; [first [by apply write_uint16|by apply write_uint24|
      by apply write_uint32|by apply write_uint40|by apply write_uint48|by apply write_uint56|
      by apply write_uint64]|]). by apply not_elem_of_nil in Hn.
  - split_and!; intros ->; [by apply read_uint16|by apply read_uint32|by apply read_uint64].
Qed.

Lemma write_read_uint_witness :
  let bo := GetByteOrder 37 in
  ∃ bs, WriteUint24 bo 70000 = Some bs ∧ length bs = 3%nat ∧ reads (ReadUintN bo 3) bs 70000 ∧
    (3%nat = 2%nat → reads (ReadUint16 bo) bs 70000) ∧ (3%nat = 4%nat → reads (ReadUint32 bo) bs 70000) ∧
    (3%nat = 8%nat → reads (ReadUint64 bo) bs 70000).
Proof. apply (write_read_uint 37 3 70000); [|by vm_compute]. right; left. Defined.

Close Scope Z_scope.
