(* ===== verification/Protocol.v ===== *)
(** Packet numbers and versions (src/mp-quic/internal/protocol:
    packet_number.go, protocol.go, version.go).  Packet numbers are 64-bit
    integers with wrap-around. *)

From Stdlib Require Import ZArith Lia.
From Stdlib Require Import Strings.Byte.
From stdpp Require Import prelude numbers list.
From S2P Require Import Prelude ByteOrder.

Open Scope Z_scope.

(** * Packet numbers *)

Definition PacketNumberLenInvalid : Z := 0.
Definition PacketNumberLen1 : Z := 1.
Definition PacketNumberLen2 : Z := 2.
Definition PacketNumberLen4 : Z := 4.
Definition PacketNumberLen6 : Z := 6.

Definition delta (a b : Z) : Z := if decide (a < b) then u64 (b - a) else u64 (a - b).

Definition closestTo (target a b : Z) : Z :=
  if decide (delta target a < delta target b) then a else b.

Definition InferPacketNumber (packetNumberLength lastPacketNumber wirePacketNumber : Z) : Z :=
  let epochDelta := u64 (Z.shiftl 1 (u8 (packetNumberLength * 8))) in
  let epoch := Z.ldiff lastPacketNumber (u64 (epochDelta - 1)) in
  let prevEpochBegin := u64 (epoch - epochDelta) in
  let nextEpochBegin := u64 (epoch + epochDelta) in
  closestTo (u64 (lastPacketNumber + 1))
    (u64 (epoch + wirePacketNumber))
    (closestTo (u64 (lastPacketNumber + 1))
       (u64 (prevEpochBegin + wirePacketNumber)) (u64 (nextEpochBegin + wirePacketNumber))).

Definition GetPacketNumberLengthForPublicHeader (packetNumber leastUnacked : Z) : Z :=
  let diff := u64 (packetNumber - leastUnacked) in
  if decide (diff < Z.shiftl 2 (PacketNumberLen2 * 8 - 2)) then PacketNumberLen2
  else if decide (diff < Z.shiftl 2 (PacketNumberLen4 * 8 - 2)) then PacketNumberLen4
  else PacketNumberLen6.

Definition GetPacketNumberLength (packetNumber : Z) : Z :=
  if decide (packetNumber < Z.shiftl 1 (PacketNumberLen1 * 8)) then PacketNumberLen1
  else if decide (packetNumber < Z.shiftl 1 (PacketNumberLen2 * 8)) then PacketNumberLen2
  else if decide (packetNumber < Z.shiftl 1 (PacketNumberLen4 * 8)) then PacketNumberLen4
  else PacketNumberLen6.

(** * Versions *)

Definition Version37 : Z := 37.
Definition Version38 : Z := 38.
Definition VersionTLS : Z := 101.
Definition VersionWhatever : Z := 0.
Definition VersionUnsupported : Z := -1.
Definition VersionUnknown : Z := -2.
Definition VersionMP : Z := 512.
Definition SupportedVersions : list Z := [VersionMP; Version39; Version38; Version37].

Definition UsesTLS (vn : Z) : bool := bool_decide (vn = VersionTLS).

Definition VersionNumberToTag (vn : Z) : Z :=
  let v := u32 vn in
  u32 (81 + u32 (Z.shiftl (u32 (v / 100 mod 10 + 48)) 8) +
       u32 (Z.shiftl (u32 (v / 10 mod 10 + 48)) 16) + u32 (Z.shiftl (u32 (v mod 10 + 48)) 24)).

Definition VersionTagToNumber (v : Z) : Z :=
  u32 ((Z.land (Z.shiftr v 8) 255 - 48) * 100 + (Z.land (Z.shiftr v 16) 255 - 48) * 10 +
       (Z.land (Z.shiftr v 24) 255 - 48)).

Fixpoint IsSupportedVersion (supported : list Z) (v : Z) : bool :=
  match supported with
  | [] => false
  | t :: supported => if decide (t = v) then true else IsSupportedVersion supported v
  end.

Fixpoint ChooseSupportedVersion (ours theirs : list Z) : Z :=
  match ours with
  | [] => VersionUnsupported
  | ourVer :: ours =>
      if IsSupportedVersion theirs ourVer then ourVer else ChooseSupportedVersion ours theirs
  end.

(** * The receiver recovers the packet number *)

Lemma ldiff_epoch l k : 0 ≤ k → 0 ≤ l → Z.ldiff l (2 ^ k - 1) = l / 2 ^ k * 2 ^ k.
Proof.
  intros Hk Hl. replace (2 ^ k - 1) with (Z.ones k) by (rewrite Z.ones_equiv; lia).
  rewrite Z.ldiff_ones_r, Z.shiftr_div_pow2, Z.shiftl_mul_pow2 by lia. done.
Qed.

Definition valid_len (len : Z) : Prop := len = 1 ∨ len = 2 ∨ len = 4 ∨ len = 6.

Lemma closestTo_abs target a b :
  0 ≤ target < 2 ^ 64 → 0 ≤ a < 2 ^ 64 → 0 ≤ b < 2 ^ 64 →
  closestTo target a b = if decide (Z.abs (target - a) < Z.abs (target - b)) then a else b.
Proof.
  intros Ht Ha Hb. assert (∀ x, 0 ≤ x < 2 ^ 64 → delta target x = Z.abs (target - x)) as Hd.
  { intros x Hx. unfold delta. case_decide; rewrite u64_small; lia. }
  unfold closestTo. by rewrite !Hd.
Qed.

(** With [d] the size of an epoch, [e] the epoch of the last packet number and [w]
    the received bits, the number next to [e], [e - d] and [e + d] is found. *)
Lemma closest_epoch l pn e d w :
  0 < d ≤ 2 ^ 48 → e = 0 ∨ d ≤ e → e ≤ l < e + d → l < 2 ^ 62 → 0 ≤ pn → 0 ≤ w < d →
  (pn = e + w ∨ pn = e - d + w ∨ pn = e + d + w) →
  2 * Z.abs (pn - (l + 1)) < d →
  closestTo (u64 (l + 1)) (u64 (e + w))
    (closestTo (u64 (l + 1)) (u64 (u64 (e - d) + w)) (u64 (u64 (e + d) + w))) = pn.
Proof.
  intros Hd He Hel Hl Hpn Hw Hcase Habs.
  rewrite (u64_small (l + 1)), (u64_small (e + w)), (u64_small (e + d)), (u64_small (e + d + w)) by lia.
  assert (u64 (u64 (e - d) + w) = if decide (d ≤ e) then e - d + w else e - d + w + 2 ^ 64) as ->.
  { case_decide.
    - rewrite (u64_small (e - d)) by lia. apply u64_small. lia.
    - assert (u64 (e - d) = e - d + 2 ^ 64) as ->
        by (unfold u64; symmetry; apply (Z.mod_unique _ _ (-1)); lia).
      rewrite u64_small; lia. }
  case_decide as Hde.
  - rewrite (closestTo_abs _ (e - d + w)) by lia. rewrite closestTo_abs by (repeat case_decide; lia).
    repeat case_decide; lia.
  - assert (pn = e + w ∨ pn = e + d + w) as Hcase' by lia.
    rewrite (closestTo_abs _ (e - d + w + 2 ^ 64)) by lia.
    rewrite closestTo_abs by (repeat case_decide; lia). repeat case_decide; lia.
Qed.

Lemma InferPacketNumber_closest len l pn :
  valid_len len → 0 ≤ l < 2 ^ 62 → 0 ≤ pn →
  2 * Z.abs (pn - (l + 1)) < 2 ^ (8 * len) →
  InferPacketNumber len l (pn mod 2 ^ (8 * len)) = pn.
Proof.
  intros Hlen Hl Hpn Habs. unfold InferPacketNumber.
  assert (0 < len * 8 ≤ 48) as Hbits by (destruct Hlen as [->|[->|[->| ->]]]; lia).
  rewrite u8_small by lia. rewrite (Z.mul_comm len 8) in *.
  rewrite Z.shiftl_mul_pow2, Z.mul_1_l by lia.
  assert (2 ^ (8 * len) ≤ 2 ^ 48) as Hd48 by (apply Z.pow_le_mono_r; lia).
  assert (0 < 2 ^ (8 * len)) as Hd0 by (apply Z.pow_pos_nonneg; lia).
  rewrite (u64_small (2 ^ (8 * len))), (u64_small (2 ^ (8 * len) - 1)), ldiff_epoch by lia.
  set (d := 2 ^ (8 * len)) in *. clearbody d.
  pose proof (Z.div_mod l d). pose proof (Z.mod_pos_bound l d). pose proof (Z.div_pos l d).
  pose proof (Z.div_mod pn d). pose proof (Z.mod_pos_bound pn d).
  set (e := l / d) in *. set (p := pn / d) in *. set (w := pn mod d) in *.
  assert (p = e ∨ p = e - 1 ∨ p = e + 1) as Hp.
  { assert (d * (p - e) < 2 * d ∧ - 2 * d < d * (p - e)) as [? ?] by lia.
    assert (p - e < 2) by (apply (Z.mul_lt_mono_pos_l d); lia).
    assert (-2 < p - e) by (apply (Z.mul_lt_mono_pos_l d); lia). lia. }
  apply closest_epoch; try lia.
  destruct (decide (e = 0)) as [->|]; [by left|right].
  assert (d * 1 ≤ d * e) by (apply Z.mul_le_mono_nonneg_l; lia). lia.
Qed.

Lemma packet_number_recovered packetNumber leastUnacked last :
  0 ≤ packetNumber < 2 ^ 62 → 0 < leastUnacked ≤ packetNumber →
  leastUnacked - 1 ≤ last ≤ packetNumber → packetNumber - leastUnacked < 2 ^ 46 →
  let len := GetPacketNumberLengthForPublicHeader packetNumber leastUnacked in
  InferPacketNumber len last (packetNumber mod 2 ^ (8 * len)) = packetNumber.
Proof.
  intros Hpn Hlu Hlast Hdiff len.
  assert (valid_len len ∧ 2 * (packetNumber - leastUnacked) < 2 ^ (8 * len) ∧ 2 < 2 ^ (8 * len))
    as (Hv & Hd & H2).
  { subst len. unfold GetPacketNumberLengthForPublicHeader, valid_len, PacketNumberLen2,
      PacketNumberLen4, PacketNumberLen6. rewrite u64_small by lia.
    rewrite !Z.shiftl_mul_pow2 by lia. repeat case_decide; simpl; lia. }
  apply InferPacketNumber_closest; [done|lia|lia|]. lia.
Qed.

(** A packet number shortened by the sender is recovered by the receiver:
    when the sender picks the length from its least unacknowledged packet, and
    the receiver's highest packet number [last] is at least the one before it
    and not beyond the packet itself, [InferPacketNumber] returns the packet
    number from its low bytes (up to 2^46 packets in flight). *)
Theorem packet_number_roundtrip packetNumber leastUnacked last :
  0 ≤ packetNumber < 2 ^ 62 → 0 < leastUnacked ≤ packetNumber →
  leastUnacked - 1 ≤ last ≤ packetNumber → packetNumber - leastUnacked < 2 ^ 46 →
  let len := GetPacketNumberLengthForPublicHeader packetNumber leastUnacked in
  InferPacketNumber len last (packetNumber mod 2 ^ (8 * len)) = packetNumber.
Proof. exact (packet_number_recovered packetNumber leastUnacked last). Qed.

Lemma packet_number_roundtrip_witness :
  GetPacketNumberLengthForPublicHeader 100000 65000 = 4 ∧
  InferPacketNumber 4 70000 (100000 mod 2 ^ 32) = 100000.
Proof.
  split; [by vm_compute|].
  apply (packet_number_roundtrip 100000 65000 70000); lia.
Defined.

(** [GetPacketNumberLength] is the shortest length that holds the number. *)
Lemma GetPacketNumberLength_fits pn :
  0 ≤ pn < 2 ^ 48 →
  valid_len (GetPacketNumberLength pn) ∧ pn < 2 ^ (8 * GetPacketNumberLength pn) ∧
  ∀ len, valid_len len → pn < 2 ^ (8 * len) → GetPacketNumberLength pn ≤ len.
Proof.
  intros Hpn. unfold GetPacketNumberLength, valid_len, PacketNumberLen1, PacketNumberLen2,
    PacketNumberLen4, PacketNumberLen6. rewrite !Z.shiftl_mul_pow2 by lia.
  repeat case_decide; (split; [lia|]; split; [simpl in *; lia|]);
    intros len [->|[->|[->| ->]]] Hlt; simpl in *; lia.
Qed.

(** * Version negotiation *)

Lemma IsSupportedVersion_elem supported v : IsSupportedVersion supported v = true ↔ v ∈ supported.
Proof.
  induction supported as [|t supported IH]; simpl; [set_solver|].
  case_decide; [subst; set_solver|]. rewrite IH. set_solver.
Qed.

Lemma Choose_common ours theirs :
  (∃ pre post, ours = pre ++ ChooseSupportedVersion ours theirs :: post ∧
     ChooseSupportedVersion ours theirs ∈ theirs ∧ ∀ v, v ∈ pre → v ∉ theirs) ∨
  (ChooseSupportedVersion ours theirs = VersionUnsupported ∧ ∀ v, v ∈ ours → v ∉ theirs).
Proof.
  induction ours as [|o ours IH]; simpl; [right; set_solver|].
  destruct (IsSupportedVersion theirs o) eqn:Ho.
  - left. exists [], ours. apply IsSupportedVersion_elem in Ho. set_solver.
  - assert (o ∉ theirs) by (rewrite <-IsSupportedVersion_elem; congruence).
    destruct IH as [(pre & post & Heq & Hin & Hpre)|[Hun Hnone]].
    + left. exists (o :: pre), post. simpl. rewrite <-Heq. split; [done|]. set_solver.
    + right. set_solver.
Qed.

Lemma tag_digits a b c :
  0 ≤ a < 10 → 0 ≤ b < 10 → 0 ≤ c < 10 →
  VersionTagToNumber (81 + (a + 48) * 2 ^ 8 + (b + 48) * 2 ^ 16 + (c + 48) * 2 ^ 24) =
    a * 100 + b * 10 + c.
Proof.
  intros Ha Hb Hc. unfold VersionTagToNumber.
  change 255 with (Z.ones 8). rewrite !Z.land_ones, !Z.shiftr_div_pow2 by lia.
  set (t := 81 + _ + _ + _).
  assert (t / 2 ^ 8 = (a + 48) + (b + 48) * 2 ^ 8 + (c + 48) * 2 ^ 16) as ->.
  { symmetry. apply (Z.div_unique _ _ _ 81); subst t; lia. }
  assert (t / 2 ^ 16 = (b + 48) + (c + 48) * 2 ^ 8) as ->.
  { symmetry. apply (Z.div_unique _ _ _ (81 + (a + 48) * 2 ^ 8)); subst t; lia. }
  assert (t / 2 ^ 24 = c + 48) as ->.
  { symmetry. apply (Z.div_unique _ _ _ (81 + (a + 48) * 2 ^ 8 + (b + 48) * 2 ^ 16)); subst t; lia. }
  assert ((a + 48 + (b + 48) * 2 ^ 8 + (c + 48) * 2 ^ 16) mod 2 ^ 8 = a + 48) as ->.
  { symmetry. apply (Z.mod_unique _ _ ((b + 48) + (c + 48) * 2 ^ 8)); lia. }
  assert ((b + 48 + (c + 48) * 2 ^ 8) mod 2 ^ 8 = b + 48) as ->.
  { symmetry. apply (Z.mod_unique _ _ (c + 48)); lia. }
  rewrite (Z.mod_small (c + 48)) by lia. rewrite u32_small; lia.
Qed.

Lemma version_tag_roundtrip vn :
  0 ≤ vn < 1000 → VersionTagToNumber (VersionNumberToTag vn) = vn.
Proof.
  intros Hvn. unfold VersionNumberToTag. rewrite (u32_small vn) by lia.
  assert (0 ≤ vn / 100 < 10) by (split; [apply Z.div_pos|apply Z.div_lt_upper_bound]; lia).
  pose proof (Z.mod_pos_bound (vn / 10) 10). pose proof (Z.mod_pos_bound vn 10).
  pose proof (Z.div_mod vn 10). pose proof (Z.div_mod (vn / 10) 10).
  rewrite (Z.mod_small (vn / 100)) by lia.
  rewrite !(u32_small (_ + 48)) by lia. rewrite !Z.shiftl_mul_pow2 by lia.
  rewrite !(u32_small (_ * _)) by lia. rewrite u32_small by lia.
  rewrite tag_digits by lia.
  assert (vn / 10 / 10 = vn / 100) by (rewrite Z.div_div by lia; done). lia.
Qed.

Lemma VersionNumberToTag_range vn : 0 ≤ VersionNumberToTag vn < 2 ^ 32.
Proof. unfold VersionNumberToTag. by apply Z.mod_pos_bound. Qed.

(** Version negotiation: the version chosen is our most preferred one among
    those the peer offers, and [VersionUnsupported] means that there is none;
    and the tag of every three-digit version number decodes to it. *)
Theorem version_negotiation ours theirs vn :
  0 ≤ vn < 1000 →
  VersionTagToNumber (VersionNumberToTag vn) = vn ∧
  ((∃ pre post, ours = pre ++ ChooseSupportedVersion ours theirs :: post ∧
     ChooseSupportedVersion ours theirs ∈ theirs ∧ ∀ v, v ∈ pre → v ∉ theirs) ∨
   (ChooseSupportedVersion ours theirs = VersionUnsupported ∧ ∀ v, v ∈ ours → v ∉ theirs)).
Proof.
  intros Hvn. split; [by apply version_tag_roundtrip|apply Choose_common].
Qed.

Lemma version_negotiation_witness :
  VersionTagToNumber (VersionNumberToTag VersionMP) = VersionMP ∧
  ((∃ pre post, SupportedVersions = pre ++ ChooseSupportedVersion SupportedVersions [Version37; Version39] :: post ∧
     ChooseSupportedVersion SupportedVersions [Version37; Version39] ∈ [Version37; Version39] ∧
     ∀ v, v ∈ pre → v ∉ [Version37; Version39]) ∨
   (ChooseSupportedVersion SupportedVersions [Version37; Version39] = VersionUnsupported ∧
    ∀ v, v ∈ SupportedVersions → v ∉ [Version37; Version39])).
Proof. apply (version_negotiation SupportedVersions [Version37; Version39] VersionMP). by vm_compute. Defined.

Close Scope Z_scope.
