(* ===== verification/Wire.v ===== *)
(** QUIC frames other than ACK and CLOSE_PATH (src/mp-quic/internal/wire:
    stream_frame.go, rst_stream_frame.go, window_update_frame.go,
    blocked_frame.go, ping_frame.go, stop_waiting_frame.go, goaway_frame.go,
    connection_close_frame.go, paths_frame.go, add_address_frame.go).

    A frame's [Write] yields the bytes it appends to the buffer and the error
    it returns, or panics; the parsers are readers.  All theorems go through
    [ByteOrderLaws], so they hold for both byte orders. *)

From Stdlib Require Import ZArith Lia.
From Stdlib Require Import Strings.Byte.
From stdpp Require Import prelude numbers list.
From S2P Require Import Prelude ByteOrder Protocol.

Open Scope Z_scope.

(** * Writers *)

Definition written : Type := option (list byte * option WireError).
Definition put (bs : option (list byte)) (k : written) : written :=
  b ← bs; r ← k; Some (b ++ r.1, r.2).
Definition finish : written := Some ([], None).
Definition abort (e : WireError) : written := Some ([], Some e).
Definition put_byte (b : byte) : option (list byte) := Some [b].

Definition MaxPacketSize : Z := 1350.
Definition InvalidStreamData : Z := 46.
Definition InvalidStopWaitingData : Z := 60.
Definition InvalidGoawayData : Z := 8.
Definition InvalidConnectionCloseData : Z := 7.

(** * STREAM frames *)

Record StreamFrame : Type := {
  StreamID : Z; FinBit : bool; DataLenPresent : bool; Offset : Z; SData : list byte
}.

Definition DataLen (f : StreamFrame) : Z := zlen (SData f).

Definition calculateStreamIDLength (f : StreamFrame) : Z :=
  if decide (StreamID f < Z.shiftl 1 8) then 1
  else if decide (StreamID f < Z.shiftl 1 16) then 2
  else if decide (StreamID f < Z.shiftl 1 24) then 3 else 4.

Definition getOffsetLength (f : StreamFrame) : Z :=
  if decide (Offset f = 0) then 0
  else if decide (Offset f < Z.shiftl 1 16) then 2
  else if decide (Offset f < Z.shiftl 1 24) then 3
  else if decide (Offset f < Z.shiftl 1 32) then 4
  else if decide (Offset f < Z.shiftl 1 40) then 5
  else if decide (Offset f < Z.shiftl 1 48) then 6
  else if decide (Offset f < Z.shiftl 1 56) then 7 else 8.

Definition stream_MinLength (f : StreamFrame) : Z :=
  let length := u64 (1 + calculateStreamIDLength f + getOffsetLength f) in
  if DataLenPresent f then u64 (length + 2) else length.

(** The type byte: FIN, data length, offset length and stream ID length bits. *)
Definition stream_type_byte (fin present : bool) (offsetLength streamIDLen : Z) : Z :=
  let t := 128 in
  let t := if fin then Z.lxor t 64 else t in
  let t := if present then Z.lxor t 32 else t in
  let t := if decide (0 < offsetLength) then Z.lxor t (u8 (Z.shiftl (u8 (offsetLength - 1)) 2)) else t in
  Z.lxor t (u8 (streamIDLen - 1)).

Definition write_StreamID (bo : ByteOrder) (f : StreamFrame) (k : written) : written :=
  match calculateStreamIDLength f with
  | 1 => put (put_byte (byte_of (StreamID f))) k
  | 2 => put (WriteUint16 bo (u16 (StreamID f))) k
  | 3 => put (WriteUint24 bo (u32 (StreamID f))) k
  | 4 => put (WriteUint32 bo (u32 (StreamID f))) k
  | _ => abort errInvalidStreamIDLen
  end.

Definition write_Offset (bo : ByteOrder) (f : StreamFrame) (k : written) : written :=
  match getOffsetLength f with
  | 0 => k
  | 2 => put (WriteUint16 bo (u16 (Offset f))) k
  | 3 => put (WriteUint24 bo (u32 (Offset f))) k
  | 4 => put (WriteUint32 bo (u32 (Offset f))) k
  | 5 => put (WriteUint40 bo (u64 (Offset f))) k
  | 6 => put (WriteUint48 bo (u64 (Offset f))) k
  | 7 => put (WriteUint56 bo (u64 (Offset f))) k
  | 8 => put (WriteUint64 bo (u64 (Offset f))) k
  | _ => abort errInvalidOffsetLen
  end.

Definition write_StreamFrame (version : Z) (f : StreamFrame) : written :=
  let bo := GetByteOrder version in
  if decide (zlen (SData f) = 0 ∧ FinBit f = false) then abort errEmptyFrameWithoutFin
  else
    put (put_byte (byte_of (stream_type_byte (FinBit f) (DataLenPresent f)
                              (getOffsetLength f) (calculateStreamIDLength f))))
      (write_StreamID bo f
        (write_Offset bo f
          (put (if DataLenPresent f then WriteUint16 bo (u16 (zlen (SData f))) else Some [])
            (put (Some (SData f)) finish)))).

Definition ParseStreamFrame (version : Z) : reader StreamFrame :=
  let bo := GetByteOrder version in
  tb ← ReadByte;
  let typeByte := byte_val tb in
  let fin := bool_decide (0 < Z.land typeByte 64) in
  let present := bool_decide (0 < Z.land typeByte 32) in
  let offsetLen := Z.shiftr (Z.land typeByte 28) 2 in
  let offsetLen := if decide (offsetLen ≠ 0) then u8 (offsetLen + 1) else offsetLen in
  let streamIDLen := u8 (Z.land typeByte 3 + 1) in
  sid ← ReadUintN bo streamIDLen;
  offset ← ReadUintN bo offsetLen;
  dataLen ← (if present then ReadUint16 bo else mret 0);
  if decide (u16 MaxPacketSize < dataLen) then fail (QuicError InvalidStreamData)
  else
    dataLen ← (if present then mret dataLen else l ← Len_; mret (u16 l));
    data ← (if decide (dataLen ≠ 0) then ReadFull dataLen else mret []);
    let frame := {| StreamID := u32 sid; FinBit := fin; DataLenPresent := present;
                    Offset := offset; SData := data |} in
    if decide (u64 (offset + DataLen frame) < offset) then fail (QuicError InvalidStreamData)
    else if decide (fin = false ∧ DataLen frame = 0) then fail EmptyStreamFrameNoFin
    else mret frame.

(** * Fixed-size control frames *)

Record RstStreamFrame : Type := { RStreamID : Z; ErrorCode : Z; RByteOffset : Z }.
Definition write_RstStreamFrame (version : Z) (f : RstStreamFrame) : written :=
  let bo := GetByteOrder version in
  put (put_byte x01) (put (WriteUint32 bo (u32 (RStreamID f)))
    (put (WriteUint64 bo (u64 (RByteOffset f))) (put (WriteUint32 bo (ErrorCode f)) finish))).
Definition rst_MinLength : Z := 1 + 4 + 8 + 4.
Definition ParseRstStreamFrame (version : Z) : reader RstStreamFrame :=
  let bo := GetByteOrder version in
  _ ← ReadByte; sid ← ReadUint32 bo; byteOffset ← ReadUint64 bo; ec ← ReadUint32 bo;
  mret {| RStreamID := u32 sid; ErrorCode := ec; RByteOffset := byteOffset |}.

Record WindowUpdateFrame : Type := { WStreamID : Z; WByteOffset : Z }.
Definition write_WindowUpdateFrame (version : Z) (f : WindowUpdateFrame) : written :=
  let bo := GetByteOrder version in
  put (put_byte x04) (put (WriteUint32 bo (u32 (WStreamID f)))
    (put (WriteUint64 bo (u64 (WByteOffset f))) finish)).
Definition window_update_MinLength : Z := 1 + 4 + 8.
Definition ParseWindowUpdateFrame (version : Z) : reader WindowUpdateFrame :=
  let bo := GetByteOrder version in
  _ ← ReadByte; sid ← ReadUint32 bo; byteOffset ← ReadUint64 bo;
  mret {| WStreamID := u32 sid; WByteOffset := byteOffset |}.

Record BlockedFrame : Type := { BStreamID : Z }.
Definition write_BlockedFrame (version : Z) (f : BlockedFrame) : written :=
  let bo := GetByteOrder version in
  put (put_byte x05) (put (WriteUint32 bo (u32 (BStreamID f))) finish).
Definition blocked_MinLength : Z := 1 + 4.
Definition ParseBlockedFrame (version : Z) : reader BlockedFrame :=
  let bo := GetByteOrder version in
  _ ← ReadByte; sid ← ReadUint32 bo; mret {| BStreamID := u32 sid |}.

Definition write_PingFrame : written := put (put_byte x07) finish.
Definition ping_MinLength : Z := 1.
Definition ParsePingFrame : reader () := _ ← ReadByte; mret ().

(** * STOP_WAITING frames *)

Record StopWaitingFrame : Type := {
  LeastUnacked : Z; SPacketNumberLen : Z; SPacketNumber : Z
}.

Definition write_StopWaitingFrame (version : Z) (f : StopWaitingFrame) : written :=
  let bo := GetByteOrder version in
  if decide (SPacketNumber f = 0) then abort errPacketNumberNotSet
  else if decide (SPacketNumber f < LeastUnacked f) then abort errLeastUnackedHigherThanPacketNumber
  else
    let leastUnackedDelta := u64 (SPacketNumber f - LeastUnacked f) in
    put (put_byte x06)
      match SPacketNumberLen f with
      | 1 => put (put_byte (byte_of leastUnackedDelta)) finish
      | 2 => put (WriteUint16 bo (u16 leastUnackedDelta)) finish
      | 4 => put (WriteUint32 bo (u32 leastUnackedDelta)) finish
      | 6 => put (WriteUint48 bo (Z.land leastUnackedDelta (Z.shiftl 1 48 - 1))) finish
      | _ => abort errPacketNumberLenNotSet
      end.

Definition stop_waiting_MinLength (f : StopWaitingFrame) : result WireError Z :=
  if decide (SPacketNumberLen f = PacketNumberLenInvalid) then Err errPacketNumberLenNotSet
  else Ok (u64 (1 + SPacketNumberLen f)).

Definition ParseStopWaitingFrame (packetNumber packetNumberLen version : Z) : reader StopWaitingFrame :=
  let bo := GetByteOrder version in
  _ ← ReadByte;
  leastUnackedDelta ← ReadUintN bo packetNumberLen;
  if decide (packetNumber ≤ leastUnackedDelta) then fail (QuicError InvalidStopWaitingData)
  else mret {| LeastUnacked := u64 (packetNumber - leastUnackedDelta);
               SPacketNumberLen := 0; SPacketNumber := 0 |}.

(** * GOAWAY and CONNECTION_CLOSE frames *)

Record GoawayFrame : Type := { GErrorCode : Z; LastGoodStream : Z; GReasonPhrase : list byte }.
Definition write_GoawayFrame (version : Z) (f : GoawayFrame) : written :=
  let bo := GetByteOrder version in
  put (put_byte x03) (put (WriteUint32 bo (u32 (GErrorCode f)))
    (put (WriteUint32 bo (u32 (LastGoodStream f)))
      (put (WriteUint16 bo (u16 (zlen (GReasonPhrase f))))
        (put (Some (GReasonPhrase f)) finish)))).
Definition goaway_MinLength (f : GoawayFrame) : Z := 1 + 4 + 4 + 2 + zlen (GReasonPhrase f).
Definition ParseGoawayFrame (version : Z) : reader GoawayFrame :=
  let bo := GetByteOrder version in
  _ ← ReadByte; errorCode ← ReadUint32 bo; lastGoodStream ← ReadUint32 bo;
  reasonPhraseLen ← ReadUint16 bo;
  if decide (u16 MaxPacketSize < reasonPhraseLen) then fail (QuicError InvalidGoawayData)
  else
    reasonPhrase ← ReadFull reasonPhraseLen;
    mret {| GErrorCode := u32 errorCode; LastGoodStream := u32 lastGoodStream;
            GReasonPhrase := reasonPhrase |}.

Record ConnectionCloseFrame : Type := { CErrorCode : Z; CReasonPhrase : list byte }.
Definition write_ConnectionCloseFrame (version : Z) (f : ConnectionCloseFrame) : written :=
  let bo := GetByteOrder version in
  put (put_byte x02) (put (WriteUint32 bo (u32 (CErrorCode f)))
    (if decide (2 ^ 16 - 1 < zlen (CReasonPhrase f)) then abort errReasonPhraseTooLong
     else put (WriteUint16 bo (u16 (zlen (CReasonPhrase f))))
            (put (Some (CReasonPhrase f)) finish))).
Definition connection_close_MinLength (f : ConnectionCloseFrame) : Z :=
  1 + 4 + 2 + zlen (CReasonPhrase f).
Definition ParseConnectionCloseFrame (version : Z) : reader ConnectionCloseFrame :=
  let bo := GetByteOrder version in
  _ ← ReadByte; errorCode ← ReadUint32 bo; reasonPhraseLen ← ReadUint16 bo;
  if decide (u16 MaxPacketSize < reasonPhraseLen) then fail (QuicError InvalidConnectionCloseData)
  else
    reasonPhrase ← ReadFull reasonPhraseLen;
    mret {| CErrorCode := u32 errorCode; CReasonPhrase := reasonPhrase |}.

(** * PATHS frames *)

(** Round-trip times are durations in nanoseconds. *)
Record PathsFrame : Type := {
  MaxNumPaths : Z; NumPaths : Z; PathIDs : list Z; RemoteRTTs : list Z
}.
Definition Microsecond : Z := 1000.

Fixpoint write_paths (bo : ByteOrder) (ids rtts : list Z) (k : written) : written :=
  match ids, rtts with
  | id :: ids, rtt :: rtts =>
      put (put_byte (byte_of id))
        (put (writeUfloat16 bo (u64 (Z.quot rtt Microsecond))) (write_paths bo ids rtts k))
  | _, _ => k
  end.
Definition write_PathsFrame (version : Z) (f : PathsFrame) : written :=
  let bo := GetByteOrder version in
  put (put_byte x12) (put (put_byte (byte_of (MaxNumPaths f)))
    (put (put_byte (byte_of (NumPaths f)))
      (if decide (NumPaths f ≠ zlen (PathIDs f)) then abort ErrPathsNumber
       else if decide (zlen (PathIDs f) ≠ zlen (RemoteRTTs f)) then abort ErrMissingRTT
       else write_paths bo (PathIDs f) (RemoteRTTs f) finish))).

(** The length is computed in [uint8] before it is converted. *)
Definition paths_MinLength (f : PathsFrame) : Z := u8 (1 + 1 + 1 + u8 (3 * NumPaths f)).

Fixpoint parse_paths (bo : ByteOrder) (n : nat) (ids rtts : list Z) : reader (list Z * list Z) :=
  match n with
  | O => mret (ids, rtts)
  | S n =>
      pathID ← ReadByte;
      remoteRTT ← readUfloat16 bo;
      parse_paths bo n (ids ++ [byte_val pathID]) (rtts ++ [i64 (remoteRTT * Microsecond)])
  end.
Definition ParsePathsFrame (version : Z) : reader PathsFrame :=
  let bo := GetByteOrder version in
  _ ← ReadByte; maxNum ← ReadByte; num ← ReadByte;
  if decide (byte_val maxNum < byte_val num) then fail ErrTooManyPaths
  else
    r ← parse_paths bo (Z.to_nat (byte_val num)) [] [];
    mret {| MaxNumPaths := byte_val maxNum; NumPaths := byte_val num;
            PathIDs := r.1; RemoteRTTs := r.2 |}.

(** * ADD_ADDRESS frames *)

(** Addresses as package net keeps them: 4 bytes, or 16 bytes with a fixed prefix
    for IPv4. *)
Record AddAddressFrame : Type := { IPVersion : Z; IP : list byte; Port : Z }.
Definition v4InV6Prefix : list byte := replicate 10 x00 ++ [xff; xff].
Definition To4 (ip : list byte) : option (list byte) :=
  if decide (length ip = 4%nat) then Some ip
  else if decide (length ip = 16%nat ∧ take 12 ip = v4InV6Prefix) then Some (drop 12 ip) else None.
Definition To16 (ip : list byte) : option (list byte) :=
  if decide (length ip = 4%nat) then Some (v4InV6Prefix ++ ip)
  else if decide (length ip = 16%nat) then Some ip else None.
Definition IPv4 (a b c d : byte) : list byte := v4InV6Prefix ++ [a; b; c; d].

Definition write_AddAddressFrame (version : Z) (f : AddAddressFrame) : written :=
  let bo := GetByteOrder version in
  put (put_byte x10) (put (put_byte (byte_of (IPVersion f)))
    (let port := put (WriteUint16 bo (u16 (Port f))) finish in
     match IPVersion f with
     | 4 => match To4 (IP f) with
            | None => abort errInconsistentAddrIPVersion
            | Some ip => put (Some (take 4 ip)) port
            end
     | 6 => match To16 (IP f) with
            | None => abort errInconsistentAddrIPVersion
            | Some ip => put (Some (take 16 ip)) port
            end
     | _ => abort ErrUnknownIPVersion
     end)).

Fixpoint read_bytes (n : nat) : reader (list byte) :=
  match n with O => mret [] | S n => b ← ReadByte; bs ← read_bytes n; mret (b :: bs) end.
Definition ParseAddAddressFrame (version : Z) : reader AddAddressFrame :=
  let bo := GetByteOrder version in
  _ ← ReadByte; ipv ← ReadByte;
  ip ← match byte_val ipv with
       | 4 => a ← ReadByte; b ← ReadByte; c ← ReadByte; d ← ReadByte; mret (IPv4 a b c d)
       | 6 => read_bytes 16
       | _ => fail ErrUnknownIPVersion
       end;
  port ← ReadUint16 bo;
  mret {| IPVersion := byte_val ipv; IP := ip; Port := port |}.
Definition add_address_MinLength (f : AddAddressFrame) : result WireError Z :=
  match IPVersion f with
  | 4 => Ok (1 + 1 + 4 + 2)
  | 6 => Ok (1 + 1 + 16 + 2)
  | _ => Err ErrUnknownIPVersion
  end.

Close Scope Z_scope.

(** * Writing and reading back *)

#[local] Arguments put : simpl never.
#[local] Arguments finish : simpl never.

Definition writes (w : written) (bs : list byte) : Prop := w = Some (bs, None).

Lemma writes_put b bs1 k bs2 : b = Some bs1 → writes k bs2 → writes (put b k) (bs1 ++ bs2).
Proof. intros -> ->. done. Qed.
Lemma writes_finish : writes finish [].
Proof. done. Qed.

Create HintDb wire.
#[export] Hint Resolve reads_ret reads_ReadByte read_uint64 read_uint32 read_uint16
  writes_finish write_uint64 write_uint32 write_uint16 : wire.
#[export] Hint Extern 1 (put_byte _ = Some _) => reflexivity : wire.
#[export] Hint Extern 1 (Some _ = Some _) => reflexivity : wire.

Definition u32_ok (z : Z) : Prop := (0 ≤ z < 2 ^ 32)%Z.
Definition u64_ok (z : Z) : Prop := (0 ≤ z < 2 ^ 64)%Z.
Definition u16_ok (z : Z) : Prop := (0 ≤ z < 2 ^ 16)%Z.
#[export] Hint Unfold u32_ok u64_ok u16_ok : wire.

(** [f] is written without error or panic and read back as [g]. *)
Definition roundtrip {A} (w : written) (parse : reader A) (g : A) (len : Z) : Prop :=
  ∃ bs, writes w bs ∧ reads parse bs g ∧ zlen bs = len.

Lemma zlen_enc bo `{!ByteOrderLaws bo} n v : zlen (enc n v) = Z.of_nat n.
Proof. unfold zlen. by rewrite length_enc. Qed.

Lemma reads_ret_eq {A} (v w : A) : v = w → reads (mret v) [] w.
Proof. intros ->. apply reads_ret. Qed.

Ltac frame_roundtrip :=
  unfold u32_ok, u64_ok, u16_ok in *; eexists;
  split; [repeat (eapply writes_put; [solve [eauto with wire]|]); apply writes_finish|];
  split; [repeat (eapply reads_bind; [solve [eauto with wire]|]);
          apply reads_ret_eq; rewrite ?u32_small by done; done|];
  rewrite ?zlen_app, ?zlen_enc; done.

Lemma rst_roundtrip version f :
  u32_ok (RStreamID f) → u32_ok (ErrorCode f) → u64_ok (RByteOffset f) →
  roundtrip (write_RstStreamFrame version f) (ParseRstStreamFrame version) f rst_MinLength.
Proof.
  intros Hs He Hb. destruct f as [s e b]; simpl in *.
  unfold write_RstStreamFrame, ParseRstStreamFrame. simpl.
  rewrite (u32_small s), (u64_small b) by done. frame_roundtrip.
Qed.

Lemma window_update_roundtrip version f :
  u32_ok (WStreamID f) → u64_ok (WByteOffset f) →
  roundtrip (write_WindowUpdateFrame version f) (ParseWindowUpdateFrame version) f
    window_update_MinLength.
Proof.
  intros Hs Hb. destruct f as [s b]; simpl in *.
  unfold write_WindowUpdateFrame, ParseWindowUpdateFrame. simpl.
  rewrite (u32_small s), (u64_small b) by done. frame_roundtrip.
Qed.

Lemma blocked_roundtrip version f :
  u32_ok (BStreamID f) →
  roundtrip (write_BlockedFrame version f) (ParseBlockedFrame version) f blocked_MinLength.
Proof.
  intros Hs. destruct f as [s]; simpl in *. unfold write_BlockedFrame, ParseBlockedFrame. simpl.
  rewrite (u32_small s) by done. frame_roundtrip.
Qed.

Lemma ping_roundtrip : roundtrip write_PingFrame ParsePingFrame () ping_MinLength.
Proof. unfold write_PingFrame, ParsePingFrame. frame_roundtrip. Qed.

(** A reason phrase of at most a packet is accepted by the parsers. *)
Definition reason_ok (r : list byte) : Prop := (zlen r ≤ MaxPacketSize)%Z.

Lemma reads_reason {A} (r : list byte) (k : list byte → reader A) e v bs :
  reason_ok r → reads (k r) bs v →
  reads (if decide (u16 MaxPacketSize < zlen r)%Z then fail e else s ← ReadFull (zlen r); k s)
    (r ++ bs) v.
Proof.
  intros Hr Hk. unfold reason_ok, MaxPacketSize in Hr.
  rewrite decide_False by (change (u16 MaxPacketSize) with 1350%Z; lia).
  eapply reads_bind; [by apply reads_ReadFull|done].
Qed.

Lemma reason_u16 r : reason_ok r → u16 (zlen r) = zlen r ∧ u16_ok (zlen r).
Proof.
  unfold reason_ok, MaxPacketSize, u16_ok. pose proof (zlen_nonneg r). intros Hr.
  rewrite u16_small; lia.
Qed.

Lemma goaway_roundtrip version f :
  u32_ok (GErrorCode f) → u32_ok (LastGoodStream f) → reason_ok (GReasonPhrase f) →
  roundtrip (write_GoawayFrame version f) (ParseGoawayFrame version) f (goaway_MinLength f).
Proof.
  intros He Hg Hr. destruct f as [e g r]; simpl in *.
  unfold write_GoawayFrame, ParseGoawayFrame, goaway_MinLength. simpl.
  rewrite (u32_small e), (u32_small g) by done. destruct (reason_u16 r Hr) as [-> Hr16].
  unfold u32_ok, u16_ok in *. eexists.
  split; [repeat (eapply writes_put; [solve [eauto with wire]|]); apply writes_finish|].
  split; [|rewrite !zlen_app, !zlen_enc; change (zlen [x03]) with 1%Z;
           change (zlen (@nil byte)) with 0%Z; lia].
  do 4 (eapply reads_bind; [solve [eauto with wire]|]).
  apply reads_reason; [done|]. apply reads_ret_eq. by rewrite !u32_small by done.
Qed.

Lemma connection_close_roundtrip version f :
  u32_ok (CErrorCode f) → reason_ok (CReasonPhrase f) →
  roundtrip (write_ConnectionCloseFrame version f) (ParseConnectionCloseFrame version) f
    (connection_close_MinLength f).
Proof.
  intros He Hr. destruct f as [e r]; simpl in *.
  unfold write_ConnectionCloseFrame, ParseConnectionCloseFrame, connection_close_MinLength. simpl.
  rewrite (u32_small e) by done. destruct (reason_u16 r Hr) as [-> Hr16].
  rewrite decide_False by (unfold u16_ok in *; lia).
  unfold u32_ok, u16_ok in *. eexists.
  split; [repeat (eapply writes_put; [solve [eauto with wire]|]); apply writes_finish|].
  split; [|rewrite !zlen_app, !zlen_enc; change (zlen [x02]) with 1%Z;
           change (zlen (@nil byte)) with 0%Z; lia].
  do 3 (eapply reads_bind; [solve [eauto with wire]|]).
  apply reads_reason; [done|]. apply reads_ret_eq. by rewrite u32_small by done.
Qed.

(** ** STOP_WAITING *)

Lemma stop_waiting_written version lu pn len :
  valid_len len → (0 < lu ≤ pn)%Z → (pn < 2 ^ 62)%Z → (pn - lu < 2 ^ (8 * len))%Z →
  roundtrip (write_StopWaitingFrame version
               {| LeastUnacked := lu; SPacketNumberLen := len; SPacketNumber := pn |})
    (ParseStopWaitingFrame pn len version)
    {| LeastUnacked := lu; SPacketNumberLen := 0; SPacketNumber := 0 |} (1 + len).
Proof.
  intros Hlen Hlu Hpn Hd. unfold write_StopWaitingFrame, ParseStopWaitingFrame.
  cbn [LeastUnacked SPacketNumberLen SPacketNumber].
  rewrite decide_False by lia. rewrite decide_False by lia. rewrite u64_small by lia.
  set (bo := GetByteOrder version).
  assert (∃ n : nat, len = Z.of_nat n ∧ n ≤ 8) as (n & -> & Hn8).
  { destruct Hlen as [->|[->|[->| ->]]]; [by exists 1; split; [|lia]|by exists 2; split; [|lia]|
      by exists 4; split; [|lia]|by exists 6; split; [|lia]]. }
  exists ([x06] ++ enc n (pn - lu) ++ []). split; [|split].
  - eapply writes_put; [done|]. destruct Hlen as [E|[E|[E|E]]];
      (assert (n = Z.to_nat (Z.of_nat n)) as -> by lia); rewrite E in *; simpl Z.to_nat;
      (eapply writes_put; [|apply writes_finish]).
    + unfold put_byte. f_equal. symmetry. by apply write_byte; lia.
    + rewrite u16_small by lia. apply write_uint16. lia.
    + rewrite u32_small by lia. apply write_uint32. lia.
    + change (Z.shiftl 1 48 - 1)%Z with (Z.ones 48). rewrite Z.land_ones, Z.mod_small by lia.
      apply write_uint48. lia.
  - eapply reads_bind; [apply reads_ReadByte|].
    eapply reads_bind; [apply read_uintN; [done|rewrite pow256; lia]|].
    rewrite decide_False by lia. apply reads_ret_eq. f_equal. rewrite u64_small; lia.
  - rewrite !zlen_app, zlen_enc. change (zlen [x06]) with 1%Z. change (zlen (@nil byte)) with 0%Z. lia.
Qed.

(** ** PATHS *)

Definition duration_ok (d : Z) : Prop := (0 ≤ d < 2 ^ 63)%Z.

(** The duration a path's round-trip time is read back as. *)
Definition carried_rtt (d : Z) : Z := i64 (ufloat16_value (ufloat16_bits (Z.quot d Microsecond)) * Microsecond).

Lemma paths_written bo `{!ByteOrderLaws bo} ids rtts :
  length ids = length rtts → Forall (λ i, 0 ≤ i < 2 ^ 8)%Z ids → Forall duration_ok rtts →
  ∃ bs, writes (write_paths bo ids rtts finish) bs ∧ zlen bs = (3 * zlen ids)%Z ∧
    ∀ ids0 rtts0, reads (parse_paths bo (length ids) ids0 rtts0) bs
      (ids0 ++ ids, rtts0 ++ (carried_rtt <$> rtts)).
Proof.
  intros Hl Hi. revert rtts Hl. induction Hi as [|i ids Hi _ IH]; intros [|d rtts] Hl; try done.
  { intros _. exists []. split; [done|]. split; [done|]. intros. rewrite !app_nil_r. apply reads_ret. }
  intros [Hd Hds]%Forall_cons. destruct (IH rtts) as (bs & Hw & Hz & Hr); [by injection Hl|done|].
  set (q := Z.quot d Microsecond).
  assert (0 ≤ q < 2 ^ 64)%Z as Hq.
  { unfold q, Microsecond, duration_ok in *. rewrite Z.quot_div_nonneg by lia.
    pose proof (Z.div_le_upper_bound d 1000 d). pose proof (Z.div_pos d 1000). lia. }
  exists ([byte_of i] ++ enc 2 (ufloat16_bits q) ++ bs). split; [|split].
  - cbn [write_paths]. eapply writes_put; [done|]. eapply writes_put; [|done].
    fold q. rewrite u64_small by done. unfold writeUfloat16. apply write_uint16.
    apply (ufloat16_bits_value q). lia.
  - rewrite !zlen_app, zlen_enc, Hz, !zlen_cons. change (zlen (@nil byte)) with 0%Z. lia.
  - intros ids0 rtts0. cbn [parse_paths length]. eapply reads_bind; [apply reads_ReadByte|].
    eapply reads_bind; [apply read_ufloat16; apply (ufloat16_bits_value q); lia|].
    rewrite byte_val_of, Z.mod_small by done. specialize (Hr (ids0 ++ [i]) (rtts0 ++ [carried_rtt d])).
    rewrite <-!app_assoc in Hr. exact Hr.
Qed.

Definition carried_paths (f : PathsFrame) : PathsFrame := {|
  MaxNumPaths := MaxNumPaths f; NumPaths := NumPaths f;
  PathIDs := PathIDs f; RemoteRTTs := carried_rtt <$> RemoteRTTs f |}.

Record paths_ok (f : PathsFrame) : Prop := {
  paths_max : (NumPaths f ≤ MaxNumPaths f < 2 ^ 8)%Z;
  paths_ids : NumPaths f = zlen (PathIDs f);
  paths_rtts : length (PathIDs f) = length (RemoteRTTs f);
  paths_id_range : Forall (λ i, 0 ≤ i < 2 ^ 8)%Z (PathIDs f);
  paths_rtt_range : Forall duration_ok (RemoteRTTs f)
}.

Lemma paths_roundtrip version f :
  paths_ok f →
  roundtrip (write_PathsFrame version f) (ParsePathsFrame version) (carried_paths f)
    (3 + 3 * NumPaths f).
Proof.
  intros [Hm Hids Hrtts Hir Hrr]. destruct f as [m n ids rtts]; simpl in *.
  destruct (paths_written (GetByteOrder version) ids rtts) as (bs & Hw & Hz & Hr); [done..|].
  pose proof (zlen_nonneg ids).
  exists ([x12] ++ [byte_of m] ++ [byte_of n] ++ bs). split; [|split].
  - unfold write_PathsFrame. cbn [MaxNumPaths NumPaths PathIDs RemoteRTTs]. do 3 (eapply writes_put; [done|]).
    rewrite decide_False by (intros E; done). rewrite decide_False by (unfold zlen; rewrite Hrtts; by intros []).
    done.
  - unfold ParsePathsFrame. do 3 (eapply reads_bind; [apply reads_ReadByte|]).
    rewrite !byte_val_of, !Z.mod_small by lia. rewrite decide_False by lia.
    eapply (reads_bind_last _ _ _ (ids, carried_rtt <$> rtts)); [|apply reads_ret_eq; done]. subst n. unfold zlen.
    rewrite Nat2Z.id. apply (Hr [] []).
  - rewrite !zlen_app, Hz. change (zlen [x12]) with 1%Z. change (zlen [byte_of m]) with 1%Z.
    change (zlen [byte_of n]) with 1%Z. lia.
Qed.

(** ** ADD_ADDRESS *)

Lemma reads_read_bytes bs : reads (read_bytes (length bs)) bs bs.
Proof.
  induction bs as [|b bs IH]; [apply reads_ret|]. simpl.
  change (b :: bs) with ([b] ++ bs) at 1. eapply reads_bind; [apply reads_ReadByte|].
  eapply reads_bind_last; [apply IH|apply reads_ret].
Qed.

(** IPv4 addresses are carried in 4 bytes, IPv6 addresses in 16; both are read
    back in the 16-byte form. *)
Lemma add_address_roundtrip version f ip :
  (IPVersion f = 4 ∧ To4 (IP f) = Some ip ∨ IPVersion f = 6 ∧ To16 (IP f) = Some ip)%Z →
  u16_ok (Port f) →
  ∃ len, add_address_MinLength f = Ok len ∧
    roundtrip (write_AddAddressFrame version f) (ParseAddAddressFrame version)
      {| IPVersion := IPVersion f; Port := Port f;
         IP := if decide (IPVersion f = 4)%Z then v4InV6Prefix ++ ip else ip |} len.
Proof.
  intros Hip Hp. destruct f as [v ip0 port]; simpl in *. unfold u16_ok in Hp.
  unfold add_address_MinLength, write_AddAddressFrame, ParseAddAddressFrame. simpl.
  rewrite (u16_small port) by done. destruct Hip as [[-> Hip]|[-> Hip]]; rewrite Hip.
  - assert (length ip = 4) as Hl.
    { unfold To4 in Hip. repeat case_decide; simplify_eq; [done|].
      rewrite length_drop. lia. }
    do 4 (destruct ip as [|? ip]; [done|]). destruct ip; [|done].
    eexists. split; [done|]. eexists. split; [|split].
    + repeat (eapply writes_put; [solve [eauto with wire]|]). apply writes_finish.
    + do 2 (eapply reads_bind; [apply reads_ReadByte|]).
      eapply reads_bind; [intros r'; reflexivity|]. eapply reads_bind; [by apply read_uint16|].
      apply reads_ret_eq. done.
    + rewrite !zlen_app, zlen_enc. done.
  - assert (length ip = 16) as Hl.
    { unfold To16 in Hip. repeat case_decide; simplify_eq; [|done].
      unfold v4InV6Prefix. rewrite !length_app, length_replicate. simpl. lia. }
    assert (reads (read_bytes 16) ip ip) as Hr16 by (rewrite <-Hl; apply reads_read_bytes).
    eexists. split; [done|]. exists ([x10] ++ [x06] ++ ip ++ enc 2 port ++ []). split; [|split].
    + rewrite take_ge by lia. repeat (eapply writes_put; [solve [eauto with wire]|]). apply writes_finish.
    + do 2 (eapply reads_bind; [apply reads_ReadByte|]).
      eapply reads_bind; [exact Hr16|].
      eapply reads_bind; [by apply read_uint16|]. apply reads_ret_eq. done.
    + rewrite !zlen_app, zlen_enc. unfold zlen. rewrite Hl. done.
Qed.

(** ** STREAM *)

Ltac nat_cases n := do 9 (destruct n as [|n]; [try lia|]); lia.

Lemma stream_id_written bo `{!ByteOrderLaws bo} f k bs :
  u32_ok (StreamID f) → writes k bs →
  ∃ n : nat, calculateStreamIDLength f = Z.of_nat n ∧ 1 ≤ n ≤ 4 ∧
    (0 ≤ StreamID f < 256 ^ Z.of_nat n)%Z ∧
    writes (write_StreamID bo f k) (enc n (StreamID f) ++ bs).
Proof.
  intros Hs Hk. destruct f as [s fin pr o d]. unfold u32_ok, write_StreamID, calculateStreamIDLength in *.
  cbn [StreamID] in *. rewrite !Z.shiftl_1_l in *.
  repeat case_decide; [exists 1|exists 2|exists 3|exists 4];
    (split; [done|]; split; [lia|]; split; [lia|]); eapply writes_put; try done;
    rewrite ?u16_small, ?u32_small by lia.
  - unfold put_byte. f_equal. symmetry. by apply write_byte; lia.
  - apply write_uint16. lia.
  - apply write_uint24. lia.
  - apply write_uint32. lia.
Qed.

Lemma offset_written bo `{!ByteOrderLaws bo} f k bs :
  u64_ok (Offset f) → writes k bs →
  ∃ n : nat, getOffsetLength f = Z.of_nat n ∧ n ≤ 8 ∧ n ≠ 1 ∧
    (0 ≤ Offset f < 256 ^ Z.of_nat n)%Z ∧
    writes (write_Offset bo f k) (enc n (Offset f) ++ bs).
Proof.
  intros Hs Hk. destruct f as [s fin pr o d]. unfold u64_ok, write_Offset, getOffsetLength in *.
  cbn [Offset] in *. rewrite !Z.shiftl_1_l in *.
  repeat case_decide; [exists 0|exists 2|exists 3|exists 4|exists 5|exists 6|exists 7|exists 8];
    (split; [done|]; split; [lia|]; split; [done|]; split; [lia|]);
    rewrite ?u16_small, ?u32_small, ?u64_small by lia.
  1: { by rewrite (nil_length_inv (enc 0 o) (length_enc 0 o)). }
  all: eapply writes_put; [|done].
  all: first [apply write_uint16|apply write_uint24|apply write_uint32|apply write_uint40|
    apply write_uint48|apply write_uint56|apply write_uint64]; lia.
Qed.

(** The parser's reading of the type byte. *)
Definition type_byte_fields (t : Z) : bool * bool * Z * Z :=
  let ol := Z.shiftr (Z.land t 28) 2 in
  (bool_decide (0 < Z.land t 64)%Z, bool_decide (0 < Z.land t 32)%Z,
   if decide (ol ≠ 0)%Z then u8 (ol + 1) else ol, u8 (Z.land t 3 + 1)).

Lemma type_byte_roundtrip fin present (on sn : nat) :
  on ≤ 8 → on ≠ 1 → 1 ≤ sn ≤ 4 →
  type_byte_fields (byte_val (byte_of (stream_type_byte fin present (Z.of_nat on) (Z.of_nat sn)))) =
    (fin, present, Z.of_nat on, Z.of_nat sn).
Proof.
  intros Hon Hon1 Hsn.
  assert (sn ∈ [1; 2; 3; 4]) as Hs by (rewrite !elem_of_cons; lia).
  assert (on ∈ [0; 2; 3; 4; 5; 6; 7; 8]) as Ho by (rewrite !elem_of_cons; lia).
  clear -Hs Ho. revert on Ho. apply Forall_forall. revert sn Hs. apply Forall_forall.
  destruct fin, present; repeat constructor.
Qed.

(** The frames the parser takes back whatever follows them: a data length within
    a packet, and an end of data that does not overflow the offset. *)
Record stream_frame_ok (f : StreamFrame) : Prop := {
  stream_id_range : u32_ok (StreamID f);
  stream_offset_range : (0 ≤ Offset f)%Z;
  stream_end_range : (Offset f + DataLen f < 2 ^ 64)%Z;
  stream_not_empty : FinBit f = false → SData f ≠ []
}.

Lemma stream_written version f :
  stream_frame_ok f → (DataLenPresent f = true → zlen (SData f) < 2 ^ 16)%Z →
  ∃ on sn : nat, on ≤ 8 ∧ on ≠ 1 ∧ 1 ≤ sn ≤ 4 ∧
    (0 ≤ Offset f < 256 ^ Z.of_nat on)%Z ∧ (0 ≤ StreamID f < 256 ^ Z.of_nat sn)%Z ∧
    stream_MinLength f = (1 + Z.of_nat sn + Z.of_nat on + if DataLenPresent f then 2 else 0)%Z ∧
    writes (write_StreamFrame version f)
      ([byte_of (stream_type_byte (FinBit f) (DataLenPresent f) (Z.of_nat on) (Z.of_nat sn))] ++
       enc (bo := GetByteOrder version) sn (StreamID f) ++ enc (bo := GetByteOrder version) on (Offset f) ++
       (if DataLenPresent f then enc (bo := GetByteOrder version) 2 (zlen (SData f)) else []) ++ SData f).
Proof.
  intros [Hs Ho He Hn] Hl. unfold DataLen in He. pose proof (zlen_nonneg (SData f)) as Hz.
  set (bo := GetByteOrder version). set (lenb := if DataLenPresent f then enc (bo := GetByteOrder version) 2 (zlen (SData f)) else []).
  assert (writes (put (if DataLenPresent f then WriteUint16 bo (u16 (zlen (SData f))) else Some [])
    (put (Some (SData f)) finish)) (lenb ++ SData f)) as Hk.
  { rewrite <-(app_nil_r (SData f)) at 3. eapply writes_put; [|by eapply writes_put].
    unfold lenb. destruct (DataLenPresent f); [|done]. rewrite u16_small by lia.
    apply write_uint16. lia. }
  destruct (offset_written bo f _ _ ltac:(unfold u64_ok; lia) Hk) as (on & Eo & Ho8 & Ho1 & Hor & Hko).
  destruct (stream_id_written bo f _ _ Hs Hko) as (sn & Es & Hs4 & Hsr & Hks).
  exists on, sn. do 5 (split; [done|]). split.
  - unfold stream_MinLength. rewrite Eo, Es. rewrite !(u64_small (1 + _ + _)) by lia.
    destruct (DataLenPresent f); rewrite ?u64_small by lia; lia.
  - unfold write_StreamFrame. fold bo. rewrite decide_False.
    + rewrite Eo, Es. eapply writes_put; [done|]. exact Hks.
    + intros [Hz0 Hf]. apply (Hn Hf). destruct (SData f); [done|]. rewrite zlen_cons in Hz0.
      pose proof (zlen_nonneg l). lia.
Qed.

(** The part of the parser after the header fields. *)
Definition stream_parse_tail (fin present : bool) (sid offset dataLen : Z) : reader StreamFrame :=
  dataLen ← (if present then mret dataLen else l ← Len_; mret (u16 l));
  data ← (if decide (dataLen ≠ 0)%Z then ReadFull dataLen else mret []);
  let frame := {| StreamID := u32 sid; FinBit := fin; DataLenPresent := present;
                  Offset := offset; SData := data |} in
  if decide (u64 (offset + DataLen frame) < offset)%Z then fail (QuicError InvalidStreamData)
  else if decide (fin = false ∧ DataLen frame = 0)%Z then fail EmptyStreamFrameNoFin
  else mret frame.

Lemma stream_tail f rest :
  stream_frame_ok f →
  (if DataLenPresent f then True else rest = [] ∧ zlen (SData f) < 2 ^ 16)%Z →
  stream_parse_tail (FinBit f) (DataLenPresent f) (StreamID f) (Offset f)
    (if DataLenPresent f then zlen (SData f) else 0) (SData f ++ rest) = Ok (f, rest).
Proof.
  intros [Hs Ho He Hn] Hr. destruct f as [s fin pr o d]; unfold DataLen in He; simpl in *.
  pose proof (zlen_nonneg d) as Hd.
  unfold stream_parse_tail, mbind, reader_bind.
  assert ((if pr then (mret (if pr then zlen d else 0) : reader Z) else λ r, match Len_ r with
     | Ok (a, r0) => (mret (u16 a) : reader Z) r0 | Err e => Err e end)%Z (d ++ rest) = Ok (zlen d, d ++ rest)) as ->.
  { destruct pr; [done|]. destruct Hr as [-> Hr]. rewrite app_nil_r. unfold Len_, mret, reader_ret.
    by rewrite u16_small by lia. }
  assert ((if decide (zlen d ≠ 0)%Z then ReadFull (zlen d) else (mret [] : reader (list byte))) (d ++ rest) = Ok (d, rest)) as ->.
  { destruct (decide (zlen d ≠ 0)%Z) as [|Hz]; [by apply reads_ReadFull|].
    destruct d; [done|]. rewrite zlen_cons in Hz. pose proof (zlen_nonneg d). lia. }
  unfold u32_ok in Hs. rewrite u32_small by done. cbn [DataLen SData]. unfold DataLen. cbn [SData].
  rewrite u64_small by lia. rewrite decide_False by lia. rewrite decide_False; [done|].
  intros [-> Hz]. apply (Hn eq_refl). destruct d; [done|]. rewrite zlen_cons in Hz.
  pose proof (zlen_nonneg d). lia.
Qed.

Lemma stream_parsed version f (on sn : nat) rest :
  stream_frame_ok f →
  on ≤ 8 → on ≠ 1 → 1 ≤ sn ≤ 4 →
  (0 ≤ Offset f < 256 ^ Z.of_nat on)%Z → (0 ≤ StreamID f < 256 ^ Z.of_nat sn)%Z →
  (if DataLenPresent f then zlen (SData f) ≤ MaxPacketSize else rest = [] ∧ zlen (SData f) < 2 ^ 16)%Z →
  ParseStreamFrame version
    (([byte_of (stream_type_byte (FinBit f) (DataLenPresent f) (Z.of_nat on) (Z.of_nat sn))] ++
       enc (bo := GetByteOrder version) sn (StreamID f) ++ enc (bo := GetByteOrder version) on (Offset f) ++
       (if DataLenPresent f then enc (bo := GetByteOrder version) 2 (zlen (SData f)) else []) ++ SData f) ++ rest) = Ok (f, rest).
Proof.
  intros Hok Ho8 Ho1 Hs4 Hor Hsr Hr. pose proof (type_byte_roundtrip (FinBit f) (DataLenPresent f) on sn) as Ht.
  unfold type_byte_fields in Ht. specialize (Ht Ho8 Ho1 Hs4). injection Ht as Hfin Hpr Hol Hsl.
  set (bo := GetByteOrder version) in *.
  unfold ParseStreamFrame. rewrite <-!app_assoc.
  set (tb := byte_of _) in *. cbn [app].
  unfold mbind at 1, reader_bind at 1.
  cbn [ReadByte]. fold bo. rewrite Hfin, Hpr, Hol, Hsl.
  unfold mbind at 1, reader_bind at 1. rewrite (read_uintN sn (StreamID f)) by (done || lia).
  unfold mbind at 1, reader_bind at 1. rewrite (read_uintN on (Offset f)) by (done || lia).
  pose proof (stream_tail f rest Hok) as Htail. unfold stream_parse_tail in Htail.
  unfold MaxPacketSize in *. destruct (DataLenPresent f) eqn:Epr.
  - unfold mbind at 1, reader_bind at 1. pose proof (zlen_nonneg (SData f)).
    rewrite (read_uint16 (zlen (SData f))) by lia.
    rewrite decide_False by (change (u16 1350) with 1350%Z; lia). by apply Htail.
  - unfold mbind at 1, reader_bind at 1. cbn [mret reader_ret app].
    rewrite decide_False by (change (u16 1350) with 1350%Z; lia). by apply Htail.
Qed.

(** A path's round-trip time is read back rounded down, to within a microsecond
    and a relative error of [2 ^ -11]. *)
Lemma carried_rtt_bounds d :
  duration_ok d →
  (0 ≤ carried_rtt d ≤ d ∧
   (d < uFloat16MaxValue * Microsecond →
    (d - carried_rtt d) * 2 ^ 11 ≤ carried_rtt d + Microsecond * 2 ^ 11))%Z.
Proof.
  unfold duration_ok, carried_rtt, Microsecond. intros Hd.
  rewrite Z.quot_div_nonneg by lia. set (q := (d / 1000)%Z).
  assert (q * 1000 ≤ d < q * 1000 + 1000)%Z as Hq.
  { unfold q. pose proof (Z.div_mod d 1000). pose proof (Z.mod_pos_bound d 1000). lia. }
  destruct (ufloat16_bits_value q) as (Hb & _ & H1 & H2); [lia|].
  set (v := ufloat16_value (ufloat16_bits q)) in *.
  assert (0 ≤ v ≤ q)%Z as Hv.
  { destruct (decide (uFloat16MaxValue ≤ q)%Z) as [Hm|Hm].
    - rewrite (H1 Hm). split; [done|exact Hm].
    - destruct H2 as [H2 H3]; [lia|]. lia. }
  rewrite i64_small by lia. split; [lia|]. intros Hm. destruct H2; lia.
Qed.

(** * Properties *)

(** a STREAM frame is written without error and read back unchanged,
    whatever the byte order and the rest of the packet, and its length is the
    one [MinLength] and [DataLen] announce; without a data length the frame
    extends to the end of the packet. *)
Theorem stream_frame_roundtrip version f rest :
  stream_frame_ok f →
  (if DataLenPresent f then zlen (SData f) ≤ MaxPacketSize
   else rest = [] ∧ zlen (SData f) < 2 ^ 16)%Z →
  ∃ bs, writes (write_StreamFrame version f) bs ∧
    ParseStreamFrame version (bs ++ rest) = Ok (f, rest) ∧
    zlen bs = (stream_MinLength f + DataLen f)%Z.
Proof.
  intros Hok Hr.
  destruct (stream_written version f Hok) as (on & sn & Ho8 & Ho1 & Hs4 & Hor & Hsr & Hmin & Hw).
  { unfold MaxPacketSize in Hr. destruct (DataLenPresent f); lia. }
  eexists. split; [exact Hw|]. split; [by apply stream_parsed|].
  rewrite Hmin, !zlen_app, !zlen_enc. unfold DataLen. rewrite zlen_cons.
  change (zlen (@nil byte)) with 0%Z.
  destruct (DataLenPresent f); rewrite ?zlen_enc; change (zlen (@nil byte)) with 0%Z; lia.
Qed.

Definition sample_stream_frame : StreamFrame := {|
  StreamID := 300; FinBit := true; DataLenPresent := true; Offset := 70000; SData := [x01; xff; x2a] |}.

Lemma stream_frame_roundtrip_witness :
  ∃ bs, writes (write_StreamFrame 39 sample_stream_frame) bs ∧
    ParseStreamFrame 39 (bs ++ [x07]) = Ok (sample_stream_frame, [x07]) ∧
    zlen bs = (stream_MinLength sample_stream_frame + DataLen sample_stream_frame)%Z.
Proof.
  apply (stream_frame_roundtrip 39 sample_stream_frame [x07]); [|done].
  split; [done|done|done|discriminate].
Defined.

(** the control frames are read back unchanged from what is written, in
    as many bytes as their [MinLength] says, in both byte orders. *)
Theorem control_frames_roundtrip version :
  (∀ f, u32_ok (RStreamID f) → u32_ok (ErrorCode f) → u64_ok (RByteOffset f) →
    roundtrip (write_RstStreamFrame version f) (ParseRstStreamFrame version) f rst_MinLength) ∧
  (∀ f, u32_ok (WStreamID f) → u64_ok (WByteOffset f) →
    roundtrip (write_WindowUpdateFrame version f) (ParseWindowUpdateFrame version) f
      window_update_MinLength) ∧
  (∀ f, u32_ok (BStreamID f) →
    roundtrip (write_BlockedFrame version f) (ParseBlockedFrame version) f blocked_MinLength) ∧
  roundtrip write_PingFrame ParsePingFrame () ping_MinLength ∧
  (∀ f, u32_ok (GErrorCode f) → u32_ok (LastGoodStream f) → reason_ok (GReasonPhrase f) →
    roundtrip (write_GoawayFrame version f) (ParseGoawayFrame version) f (goaway_MinLength f)) ∧
  (∀ f, u32_ok (CErrorCode f) → reason_ok (CReasonPhrase f) →
    roundtrip (write_ConnectionCloseFrame version f) (ParseConnectionCloseFrame version) f
      (connection_close_MinLength f)).
Proof.
  split_and!; intros; auto using rst_roundtrip, window_update_roundtrip, blocked_roundtrip,
    ping_roundtrip, goaway_roundtrip, connection_close_roundtrip.
Qed.

Lemma control_frames_roundtrip_witness :
  roundtrip (write_GoawayFrame 38 {| GErrorCode := 9; LastGoodStream := 5; GReasonPhrase := [x68; x69] |})
    (ParseGoawayFrame 38) {| GErrorCode := 9; LastGoodStream := 5; GReasonPhrase := [x68; x69] |} 13.
Proof.
  apply (control_frames_roundtrip 38); [done|done|]. unfold reason_ok. by vm_compute.
Defined.

(** a STOP_WAITING frame written for a packet whose public header uses
    [GetPacketNumberLengthForPublicHeader] gives the receiver of that packet the
    sender's least unacked packet number. *)
Theorem stop_waiting_roundtrip version pn lu :
  (0 < lu ≤ pn)%Z → (pn < 2 ^ 48)%Z →
  let len := GetPacketNumberLengthForPublicHeader pn lu in
  roundtrip (write_StopWaitingFrame version
               {| LeastUnacked := lu; SPacketNumberLen := len; SPacketNumber := pn |})
    (ParseStopWaitingFrame pn len version)
    {| LeastUnacked := lu; SPacketNumberLen := 0; SPacketNumber := 0 |} (1 + len) ∧
  stop_waiting_MinLength {| LeastUnacked := lu; SPacketNumberLen := len; SPacketNumber := pn |} =
    Ok (1 + len)%Z.
Proof.
  intros Hlu Hpn. cbv zeta. unfold GetPacketNumberLengthForPublicHeader.
  rewrite u64_small by lia. rewrite !Z.shiftl_mul_pow2 by (vm_compute; discriminate).
  repeat case_decide; (split; [apply stop_waiting_written; [unfold valid_len; tauto|lia|lia|]|done]).
  all: match goal with |- (_ < ?x)%Z => let v := eval vm_compute in x in change x with v end.
  all: repeat match goal with H : (_ < ?a * ?b)%Z |- _ =>
    let v := eval vm_compute in (a * b)%Z in change (a * b)%Z with v in H end; lia.
Qed.

Lemma stop_waiting_roundtrip_witness :
  let len := GetPacketNumberLengthForPublicHeader 70000 11 in
  roundtrip (write_StopWaitingFrame 39
               {| LeastUnacked := 11; SPacketNumberLen := len; SPacketNumber := 70000 |})
    (ParseStopWaitingFrame 70000 len 39)
    {| LeastUnacked := 11; SPacketNumberLen := 0; SPacketNumber := 0 |} (1 + len) ∧
  stop_waiting_MinLength {| LeastUnacked := 11; SPacketNumberLen := len; SPacketNumber := 70000 |} =
    Ok (1 + len)%Z.
Proof. apply (stop_waiting_roundtrip 39 70000 11); by vm_compute. Defined.

(** a PATHS frame carries every path with its round-trip time rounded down
    by at most a microsecond and one part in [2 ^ 11]; it takes [3 + 3 * NumPaths]
    bytes, but [MinLength], computed on 8 bits, says so up to 84 paths only. *)
Theorem paths_frame_roundtrip version f :
  paths_ok f →
  roundtrip (write_PathsFrame version f) (ParsePathsFrame version) (carried_paths f)
    (3 + 3 * NumPaths f) ∧
  Forall2 (λ d r, 0 ≤ r ≤ d ∧ (d < uFloat16MaxValue * Microsecond →
    (d - r) * 2 ^ 11 ≤ r + Microsecond * 2 ^ 11))%Z (RemoteRTTs f) (RemoteRTTs (carried_paths f)) ∧
  (paths_MinLength f = 3 + 3 * NumPaths f ↔ NumPaths f ≤ 84)%Z.
Proof.
  intros Hok. split; [by apply paths_roundtrip|]. split.
  - destruct Hok as [_ _ _ _ Hr]. cbn [carried_paths RemoteRTTs]. apply Forall2_fmap_r.
    apply Forall_Forall2_diag. exact (Forall_impl _ _ _ Hr carried_rtt_bounds).
  - destruct Hok as [Hm Hn _ _ _]. pose proof (zlen_nonneg (PathIDs f)).
    unfold paths_MinLength. split.
    + intros E. pose proof (Z.mod_pos_bound (1 + 1 + 1 + u8 (3 * NumPaths f)) 256 eq_refl) as Hb.
      unfold u8 at 1 in E. change (2 ^ 8)%Z with 256%Z in *. lia.
    + intros Hle. rewrite (u8_small (3 * _)) by lia. rewrite u8_small; lia.
Qed.

Definition sample_paths : PathsFrame := {|
  MaxNumPaths := 255; NumPaths := 2; PathIDs := [0; 3]%Z; RemoteRTTs := [31000000; 0]%Z |}.

Lemma paths_frame_roundtrip_witness :
  roundtrip (write_PathsFrame 38 sample_paths) (ParsePathsFrame 38) (carried_paths sample_paths) 9 ∧
  Forall2 (λ d r, 0 ≤ r ≤ d ∧ (d < uFloat16MaxValue * Microsecond →
    (d - r) * 2 ^ 11 ≤ r + Microsecond * 2 ^ 11))%Z
    (RemoteRTTs sample_paths) (RemoteRTTs (carried_paths sample_paths)) ∧
  (paths_MinLength sample_paths = 3 + 3 * NumPaths sample_paths ↔ NumPaths sample_paths ≤ 84)%Z.
Proof.
  apply (paths_frame_roundtrip 38 sample_paths).
  split; [done|done|done|repeat constructor; done|repeat constructor; done].
Defined.

(** An ADD_ADDRESS frame takes the bytes its [MinLength] says and is read
    back with the address in the 16-byte form of package net. *)
Theorem add_address_frame_roundtrip version f ip :
  (IPVersion f = 4 ∧ To4 (IP f) = Some ip ∨ IPVersion f = 6 ∧ To16 (IP f) = Some ip)%Z →
  u16_ok (Port f) →
  ∃ len, add_address_MinLength f = Ok len ∧
    roundtrip (write_AddAddressFrame version f) (ParseAddAddressFrame version)
      {| IPVersion := IPVersion f; Port := Port f;
         IP := if decide (IPVersion f = 4)%Z then v4InV6Prefix ++ ip else ip |} len.
Proof. apply add_address_roundtrip. Qed.

Lemma add_address_frame_roundtrip_witness :
  ∃ len, add_address_MinLength {| IPVersion := 4; IP := [x0a; x00; x00; x01]; Port := 6121 |} = Ok len ∧
    roundtrip (write_AddAddressFrame 39 {| IPVersion := 4; IP := [x0a; x00; x00; x01]; Port := 6121 |})
      (ParseAddAddressFrame 39)
      {| IPVersion := 4; Port := 6121; IP := v4InV6Prefix ++ [x0a; x00; x00; x01] |} len.
Proof.
  apply (add_address_frame_roundtrip 39 {| IPVersion := 4; IP := [x0a; x00; x00; x01]; Port := 6121 |});
    [by left|done].
Defined.

(** A CONNECTION_CLOSE frame whose reason phrase is longer than a packet and
    below 64 KiB is written without error, and its own parser rejects it. *)
Lemma connection_close_long_reason version f :
  u32_ok (CErrorCode f) → (MaxPacketSize < zlen (CReasonPhrase f) < 2 ^ 16)%Z →
  ∃ bs, writes (write_ConnectionCloseFrame version f) bs ∧
    ∀ rest, ParseConnectionCloseFrame version (bs ++ rest) =
      Err (QuicError InvalidConnectionCloseData).
Proof.
  intros He Hr. destruct f as [e r]; cbn [CErrorCode CReasonPhrase] in *.
  unfold MaxPacketSize, u32_ok in *.
  exists ([x02] ++ enc (bo := GetByteOrder version) 4 e ++ enc (bo := GetByteOrder version) 2 (zlen r) ++ r ++ []).
  split.
  - unfold write_ConnectionCloseFrame. cbn [CErrorCode CReasonPhrase].
    rewrite u32_small, u16_small, decide_False by lia.
    eapply writes_put; [done|]. eapply writes_put; [by apply write_uint32|].
    eapply writes_put; [apply write_uint16; lia|]. by eapply writes_put.
  - intros rest. unfold ParseConnectionCloseFrame. rewrite <-!app_assoc.
    unfold mbind, reader_bind. cbn [app ReadByte].
    rewrite (read_uint32 e) by done. rewrite (read_uint16 (zlen r)) by lia.
    rewrite decide_True by (change (u16 MaxPacketSize) with 1350%Z; lia). done.
Qed.
