(* ===== verification/StreamSorter.v ===== *)
(** Reassembly of a stream (src/mp-quic/stream_frame_sorter.go).

    The sorter keeps the gaps of the stream, an ordered list of intervals of
    bytes not received yet, and a map from offsets to the frames queued there.
    [Push] cuts a frame to the part that fills gaps and queues it; [Pop] hands
    out the frame at the read position.  The list elements the code walks with
    pointers are a prefix, the current element and the rest of the list. *)

From Stdlib Require Import ZArith Lia.
From Stdlib Require Import Strings.Byte.
From stdpp Require Import prelude numbers list gmap.
From S2P Require Import Prelude Wire.

Open Scope Z_scope.

Definition MaxByteCount : Z := 2 ^ 64 - 1.
Definition MaxStreamFrameSorterGaps : Z := 2500.

Record ByteInterval : Type := { Start : Z; End_ : Z }.

Inductive SorterError : Type :=
| errTooManyGapsInReceivedStreamData
| errDuplicateStreamData
| errEmptyStreamData
| errNoGapFound
| errNoEndGapFound.

Record streamFrameSorter : Type := {
  queuedFrames : gmap Z StreamFrame;
  readPosition : Z;
  gaps : list ByteInterval
}.

Definition newStreamFrameSorter : streamFrameSorter := {|
  queuedFrames := ∅; readPosition := 0; gaps := [{| Start := 0; End_ := MaxByteCount |}]
|}.

(** Skip the gaps before the frame [[start, end_)]. *)
Inductive found_gap : Type :=
| Duplicate
| NoGap
| Found (pre : list ByteInterval) (gap : ByteInterval) (rest : list ByteInterval).

Fixpoint find_gap (start end_ : Z) (pre gs : list ByteInterval) : found_gap :=
  match gs with
  | [] => NoGap
  | gap :: rest =>
      if decide (end_ ≤ Start gap) then Duplicate
      else if decide (Start gap < end_ ∧ start ≤ End_ gap) then Found pre gap rest
      else find_gap start end_ (pre ++ [gap]) rest
  end.

(** The highest gap whose start lies before the end of the frame: the gap,
    whether it is still the first one, whether it was removed from the list,
    the gaps after it, and the queue. *)
Record end_gap : Type := {
  eg_gap : ByteInterval; eg_same : bool; eg_removed : bool;
  eg_rest : list ByteInterval; eg_queue : gmap Z StreamFrame
}.

Fixpoint find_end_gap (end_ : Z) (endGap : ByteInterval) (same : bool)
    (rest : list ByteInterval) (queued : gmap Z StreamFrame) : option end_gap :=
  if decide (End_ endGap ≤ end_) then
    match rest with
    | [] => None
    | nextEndGap :: rest' =>
        if decide (end_ ≤ Start nextEndGap) then
          Some {| eg_gap := endGap; eg_same := same; eg_removed := negb same;
                  eg_rest := rest; eg_queue := queued |}
        else find_end_gap end_ nextEndGap false rest' (delete (End_ endGap) queued)
    end
  else Some {| eg_gap := endGap; eg_same := same; eg_removed := false;
               eg_rest := rest; eg_queue := queued |}.

(** The gaps that replace [gap] and [endGap] once [[start, end_)] is received. *)
Definition fill_gaps (start end_ : Z) (gap endGap : ByteInterval) (same removed : bool) :
    list ByteInterval :=
  let keep e := if removed then [] else [e] in
  if decide (start = Start gap) then
    let endGap' := if decide (end_ < End_ endGap)
                   then {| Start := end_; End_ := End_ endGap |} else endGap in
    if same then (if decide (End_ gap ≤ end_) then [] else [endGap'])
    else (if decide (End_ gap ≤ end_) then [] else [gap]) ++ keep endGap'
  else if decide (end_ = End_ endGap) then
    {| Start := Start gap; End_ := start |} :: (if same then [] else keep endGap)
  else if same then
    [{| Start := Start gap; End_ := start |}; {| Start := end_; End_ := End_ gap |}]
  else {| Start := Start gap; End_ := start |} :: keep {| Start := end_; End_ := End_ endGap |}.

Definition set_data (f : StreamFrame) (offset : Z) (data : list byte) : StreamFrame := {|
  StreamID := StreamID f; FinBit := FinBit f; DataLenPresent := DataLenPresent f;
  Offset := offset; SData := data
|}.

(** The outcome of a push: the sorter afterwards and the error, or a panic. *)
Definition pushed : Type := option (streamFrameSorter * option SorterError).

(** [frame.Offset += add; frame.Data = frame.Data[add:]]. *)
Definition cut_front (f : StreamFrame) (add : Z) : option StreamFrame :=
  data ← slice (SData f) add (DataLen f);
  Some (set_data f (u64 (Offset f + add)) data).
(** [frame.Data = frame.Data[:len]]. *)
Definition cut_back (f : StreamFrame) (len : Z) : option StreamFrame :=
  data ← slice (SData f) 0 len; Some (set_data f (Offset f) data).

(** [Push] once the gaps around the frame are known. *)
Definition push_between (s : streamFrameSorter) (frame : StreamFrame) (start end_ : Z)
    (pre : list ByteInterval) (gap : ByteInterval) (eg : end_gap) : pushed :=
  let cutLen := u64 (end_ - End_ (eg_gap eg)) in
  let long := bool_decide (End_ (eg_gap eg) < end_) in
  frame ← (if long then cut_back frame (u64 (DataLen frame - cutLen)) else Some frame);
  let end_ := if long then u64 (end_ - cutLen) else end_ in
  let gaps' := pre ++ fill_gaps start end_ gap (eg_gap eg) (eg_same eg) (eg_removed eg) ++ eg_rest eg in
  if decide (MaxStreamFrameSorterGaps < zlen gaps') then
    Some ({| queuedFrames := eg_queue eg; readPosition := readPosition s; gaps := gaps' |},
          Some errTooManyGapsInReceivedStreamData)
  else
    Some ({| queuedFrames := <[Offset frame := frame]> (eg_queue eg);
             readPosition := readPosition s; gaps := gaps' |}, None).

(** [Push] once the frame does not start on a queued one.  When no end gap is
    found the code has removed the gaps after the first one and deleted the
    frames queued behind them. *)
Definition push_new (s : streamFrameSorter) (frame : StreamFrame) : pushed :=
  let start := Offset frame in
  let end_ := u64 (Offset frame + DataLen frame) in
  match find_gap start end_ [] (gaps s) with
  | Duplicate => Some (s, Some errDuplicateStreamData)
  | NoGap => Some (s, Some errNoGapFound)
  | Found pre gap rest =>
      let add := u64 (Start gap - start) in
      let early := bool_decide (start < Start gap) in
      frame ← (if early then cut_front frame add else Some frame);
      let start := if early then u64 (start + add) else start in
      match find_end_gap end_ gap true rest (queuedFrames s) with
      | None =>
          Some ({| queuedFrames := foldl (λ q g, delete (End_ g) q) (queuedFrames s)
                                     (take (length rest) (gap :: rest));
                   readPosition := readPosition s;
                   gaps := pre ++ gap :: drop (length rest - 1) rest |},
                Some errNoEndGapFound)
      | Some eg => push_between s frame start end_ pre gap eg
      end
  end.

Definition Push (s : streamFrameSorter) (frame : StreamFrame) : pushed :=
  if decide (DataLen frame = 0) then
    if FinBit frame then
      Some ({| queuedFrames := <[Offset frame := frame]> (queuedFrames s);
               readPosition := readPosition s; gaps := gaps s |}, None)
    else Some (s, Some errEmptyStreamData)
  else
    match queuedFrames s !! Offset frame with
    | Some oldFrame =>
        if decide (DataLen frame ≤ DataLen oldFrame) then Some (s, Some errDuplicateStreamData)
        else frame ← cut_front frame (DataLen oldFrame); push_new s frame
    | None => push_new s frame
    end.

Definition Head (s : streamFrameSorter) : option StreamFrame :=
  queuedFrames s !! readPosition s.

Definition Pop (s : streamFrameSorter) : option StreamFrame * streamFrameSorter :=
  match Head s with
  | Some frame =>
      (Some frame, {| queuedFrames := delete (Offset frame) (queuedFrames s);
                      readPosition := u64 (readPosition s + DataLen frame); gaps := gaps s |})
  | None => (None, s)
  end.

Close Scope Z_scope.

(** * Gaps, chains and the invariant *)

Definition in_gap (g : ByteInterval) (p : Z) : Prop := (Start g ≤ p < End_ g)%Z.
Definition in_gaps (gs : list ByteInterval) (p : Z) : Prop := Exists (λ g, in_gap g p) gs.

(** Queued frames lead from offset [q] to offset [e] without a hole. *)
Inductive chain (Q : gmap Z StreamFrame) : Z → Z → Prop :=
| chain_refl q : chain Q q q
| chain_step q f e :
    Q !! q = Some f → (0 < DataLen f)%Z → chain Q (q + DataLen f) e → chain Q q e.

(** The gaps of [gs] are ordered from [q] to [e], with chains of frames between
    them; two gaps never touch ([b] says so of the first one and [q]). *)
Fixpoint linked (Q : gmap Z StreamFrame) (b : bool) (q : Z) (gs : list ByteInterval) (e : Z) : Prop :=
  match gs with
  | [] => q = e
  | g :: gs => chain Q q (Start g) ∧ (b = true → q < Start g)%Z ∧ (Start g < End_ g)%Z ∧
      linked Q true (End_ g) gs e
  end.

Lemma chain_le Q q e : chain Q q e → (q ≤ e)%Z.
Proof. induction 1; lia. Qed.

Lemma linked_le Q b q gs e : linked Q b q gs e → (q ≤ e)%Z.
Proof.
  revert b q. induction gs as [|g gs IH]; intros b q; simpl; [lia|].
  intros (Hc%chain_le & _ & Hg & Hl%IH). lia.
Qed.

Lemma in_gaps_cons g gs p : in_gaps (g :: gs) p ↔ in_gap g p ∨ in_gaps gs p.
Proof. apply Exists_cons. Qed.
Lemma in_gaps_app gs gs' p : in_gaps (gs ++ gs') p ↔ in_gaps gs p ∨ in_gaps gs' p.
Proof. apply Exists_app. Qed.
Lemma in_gaps_nil p : ¬ in_gaps [] p.
Proof. by intros ?%Exists_nil. Qed.

Lemma linked_bounds Q b q gs e p : linked Q b q gs e → in_gaps gs p → (q ≤ p < e)%Z.
Proof.
  revert b q. induction gs as [|g gs IH]; intros b q; simpl.
  { intros _ []%in_gaps_nil. }
  intros (Hc%chain_le & _ & Hg & Hl) [Hp|Hp]%in_gaps_cons.
  - unfold in_gap in Hp. apply linked_le in Hl. lia.
  - specialize (IH _ _ Hl Hp). lia.
Qed.

Definition touch (b : bool) (pre : list ByteInterval) : bool := if pre is [] then b else true.

Lemma linked_app Q b q pre gs e :
  linked Q b q (pre ++ gs) e ↔ ∃ m, linked Q b q pre m ∧ linked Q (touch b pre) m gs e.
Proof.
  revert b q. induction pre as [|g pre IH]; intros b q; cbn [app linked touch].
  { split; [by exists q|]. by intros (m & -> & H). }
  rewrite IH. replace (touch true pre) with true by by destruct pre. split.
  - intros (? & ? & ? & m & ? & ?). eauto 10.
  - intros (m & (? & ? & ? & ?) & ?). eauto 10.
Qed.

Lemma chain_agree Q Q' q e :
  chain Q q e → (∀ o f, Q !! o = Some f → 0 < DataLen f → q ≤ o < e → Q' !! o = Some f)%Z →
  chain Q' q e.
Proof.
  induction 1 as [|q f e HQ Hf Hc IH]; intros Ha; [constructor|].
  apply chain_le in Hc as Hle. apply (chain_step _ _ f); [by apply Ha; [| |lia]|done|].
  apply IH. intros o f' Ho Hd Hr. apply Ha; [done|done|lia].
Qed.

Lemma linked_agree Q Q' b q gs e :
  linked Q b q gs e → (∀ o f, Q !! o = Some f → 0 < DataLen f → q ≤ o < e → Q' !! o = Some f)%Z →
  linked Q' b q gs e.
Proof.
  revert b q. induction gs as [|g gs IH]; intros b q; simpl; [done|].
  intros (Hc & Hb & Hg & Hl) Ha. apply linked_le in Hl as Hle. apply chain_le in Hc as Hce.
  split; [apply (chain_agree Q); [done|intros; apply Ha; [done|done|lia]]|]. do 2 (split; [done|]).
  apply IH; [done|]. intros; apply Ha; [done|done|lia].
Qed.

Lemma linked_prepend Q b q f gs e :
  Q !! q = Some f → (0 < DataLen f)%Z → gs ≠ [] →
  linked Q false (q + DataLen f) gs e → linked Q b q gs e.
Proof.
  destruct gs as [|g gs]; [done|]. intros HQ Hf _ (Hc & _ & Hg & Hl).
  apply chain_le in Hc as Hle. split; [by apply (chain_step _ _ f)|]. split; [lia|]. done.
Qed.

Lemma chain_trans Q a b c : chain Q a b → chain Q b c → chain Q a c.
Proof. induction 1; [done|]. intros. by eapply chain_step; eauto. Qed.

(** ** The sender's data *)

Section sorter.
Context (src : list byte).
Context (Hsrc : (zlen src < MaxByteCount)%Z).

(** A frame that carries the sender's bytes at its offset; an empty one (a FIN)
  is at the end. *)
Record piece (f : StreamFrame) : Prop := {
piece_offset : (0 ≤ Offset f)%Z;
piece_end : (Offset f + DataLen f ≤ zlen src)%Z;
piece_data : SData f = take (Z.to_nat (DataLen f)) (drop (Z.to_nat (Offset f)) src);
piece_empty : DataLen f = 0%Z → Offset f = zlen src
}.

Definition queue_ok (gs : list ByteInterval) (Q : gmap Z StreamFrame) : Prop :=
∀ o f, Q !! o = Some f →
  Offset f = o ∧ piece f ∧ ∀ p, (o ≤ p < o + DataLen f)%Z → ¬ in_gaps gs p.

Record sorter_ok (s : streamFrameSorter) : Prop := {
ok_read : (0 ≤ readPosition s)%Z;
ok_queue : queue_ok (gaps s) (queuedFrames s);
ok_linked : linked (queuedFrames s) false (readPosition s) (gaps s) MaxByteCount;
ok_gaps : gaps s ≠ []
}.

Lemma piece_slice f lo hi :
piece f → (0 ≤ lo ≤ hi)%Z → (hi ≤ DataLen f)%Z → (lo < hi)%Z →
piece (set_data f (Offset f + lo) (take (Z.to_nat (hi - lo)) (drop (Z.to_nat lo) (SData f)))) ∧
zlen (take (Z.to_nat (hi - lo)) (drop (Z.to_nat lo) (SData f))) = (hi - lo)%Z.
Proof.
intros [Ho He Hd Hz] Hlo Hhi Hlt. unfold DataLen in *.
assert (zlen (take (Z.to_nat (hi - lo)) (drop (Z.to_nat lo) (SData f))) = hi - lo)%Z as Hlen.
{ unfold zlen in *. rewrite length_take, length_drop. lia. }
split; [|done]. split; cbn [set_data Offset SData]; unfold DataLen; cbn [set_data SData]; rewrite ?Hlen.
- lia.
- lia.
- rewrite Hd at 1. replace (Z.to_nat (zlen (SData f))) with (Z.to_nat lo + Z.to_nat (zlen (SData f) - lo)) by lia.
  rewrite <-take_drop_commute, drop_drop, take_take. f_equal; [lia|f_equal; lia].
- lia.
Qed.

(** [u64] arithmetic on offsets of the stream does not wrap. *)
Lemma cut_front_ok f add :
piece f → (0 ≤ add < DataLen f)%Z →
∃ f', cut_front f add = Some f' ∧ piece f' ∧ Offset f' = (Offset f + add)%Z ∧
  DataLen f' = (DataLen f - add)%Z ∧ FinBit f' = FinBit f.
Proof.
intros Hf Ha. destruct (piece_slice f add (DataLen f) Hf) as [Hp Hl]; [lia..|].
destruct Hf as [Ho He _ _]. unfold cut_front. rewrite slice_ok by (unfold DataLen in *; lia).
simpl. unfold MaxByteCount in Hsrc. rewrite u64_small by lia.
eexists. split; [done|]. done.
Qed.

Lemma cut_back_ok f len :
piece f → (0 < len ≤ DataLen f)%Z →
∃ f', cut_back f len = Some f' ∧ piece f' ∧ Offset f' = Offset f ∧ DataLen f' = len ∧
  FinBit f' = FinBit f.
Proof.
intros Hf Ha. destruct (piece_slice f 0 len Hf) as [Hp Hl]; [lia..|].
unfold cut_back. rewrite slice_ok by (unfold DataLen in *; lia).
eexists. split; [done|]. rewrite Z.add_0_r in Hp. split; [exact Hp|]. split; [done|].
split; [|done]. rewrite <-(Z.sub_0_r len) at 2. exact Hl.
Qed.

(** ** Finding the gaps of a frame *)

Definition before (start : Z) (pre : list ByteInterval) : Prop :=
Forall (λ g, End_ g < start)%Z pre.

Lemma before_not_in start pre p : before start pre → (start ≤ p)%Z → ¬ in_gaps pre p.
Proof.
intros Hb Hp [g [Hg Hin]]%Exists_exists. unfold before in Hb. rewrite Forall_forall in Hb.
specialize (Hb g Hg). unfold in_gap in Hin. lia.
Qed.

Lemma find_gap_spec Q b q start end_ pre gs :
(start < end_ < MaxByteCount)%Z → gs ≠ [] → linked Q b q gs MaxByteCount → before start pre →
match find_gap start end_ pre gs with
| Duplicate => ∀ p, (start ≤ p < end_)%Z → ¬ in_gaps (pre ++ gs) p
| NoGap => False
| Found pre' gap rest => pre' ++ gap :: rest = pre ++ gs ∧ before start pre' ∧
    (Start gap < end_)%Z ∧ (start ≤ End_ gap)%Z
end.
Proof.
intros Hse. revert b q pre. induction gs as [|g gs IH]; intros b q pre Hne; [done|].
intros Hl Hpre. cbn [find_gap]. case_decide as Hd.
- intros p Hp. rewrite in_gaps_app, in_gaps_cons. destruct Hl as (_ & _ & Hg & Hl).
  intros [Hin|[Hin|Hin]]; [exact (before_not_in start pre p Hpre (proj1 Hp) Hin)|unfold in_gap in Hin; lia|].
  eapply linked_bounds in Hin; [|done]. lia.
- case_decide as Hf; [by split_and!; [done|done|lia|lia]|]. destruct Hl as (_ & _ & Hg & Hl).
  specialize (IH true (End_ g) (pre ++ [g])). rewrite <-app_assoc in IH. apply IH; [|done|].
  + intros ->. simpl in Hl. lia.
  + apply Forall_app. split; [done|]. constructor; [lia|done].
Qed.

(** The intervals the search for the end gap walked over, and what it leaves. *)
Record end_gap_spec (Q : gmap Z StreamFrame) (end_ : Z) (gap : ByteInterval) (same : bool)
  (rest : list ByteInterval) (eg : end_gap) (mids : list ByteInterval) : Prop := {
eg_split : gap :: rest = mids ++ eg_gap eg :: eg_rest eg;
eg_same_iff : eg_same eg = same ∧ mids = [] ∨
              eg_same eg = false ∧ (End_ gap < Start (eg_gap eg))%Z ∧ (End_ gap ≤ end_)%Z ∧ gap ∈ mids;
eg_removed_iff : eg_removed eg = negb (eg_same eg) && bool_decide (End_ (eg_gap eg) ≤ end_)%Z;
eg_start : (Start (eg_gap eg) < end_)%Z;
eg_mids : Forall (λ g, (g = gap ∨ End_ gap < Start g) ∧ End_ g < end_)%Z mids;
eg_linked : linked Q true (End_ (eg_gap eg)) (eg_rest eg) MaxByteCount;
eg_nonempty : (Start (eg_gap eg) < End_ (eg_gap eg))%Z;
eg_rest_after : (end_ < End_ (eg_gap eg))%Z ∨
  (eg_rest eg ≠ [] ∧ ∀ p, in_gaps (eg_rest eg) p → end_ ≤ p)%Z;
eg_queue_sub o f : eg_queue eg !! o = Some f → Q !! o = Some f;
eg_queue_keep o : (o < End_ gap ∨ Start (eg_gap eg) ≤ o)%Z → eg_queue eg !! o = Q !! o
}.

Lemma end_gap_here Q end_ gap (same : bool) rest :
(Start gap < end_ < MaxByteCount)%Z → (Start gap < End_ gap)%Z →
linked Q true (End_ gap) rest MaxByteCount → (end_ < End_ gap)%Z →
end_gap_spec Q end_ gap same rest
  {| eg_gap := gap; eg_same := same; eg_removed := false; eg_rest := rest; eg_queue := Q |} [].
Proof.
intros. split; cbn; auto; [|lia..].
rewrite bool_decide_false by lia. by destruct same.
Qed.

Lemma find_end_gap_spec Q end_ gap same rest :
(Start gap < end_ < MaxByteCount)%Z → (Start gap < End_ gap)%Z →
linked Q true (End_ gap) rest MaxByteCount →
∃ eg mids, find_end_gap end_ gap same rest Q = Some eg ∧
  end_gap_spec Q end_ gap same rest eg mids.
Proof.
(* the queue shrinks along the search: generalise over it *)
intros Hse Hg Hl.
enough (∀ Q', (∀ o f, Q' !! o = Some f → Q !! o = Some f) →
  ∃ eg mids, find_end_gap end_ gap same rest Q' = Some eg ∧
    end_gap_spec Q end_ gap same rest
      {| eg_gap := eg_gap eg; eg_same := eg_same eg; eg_removed := eg_removed eg;
         eg_rest := eg_rest eg; eg_queue := Q |} mids ∧
    (∀ o f, eg_queue eg !! o = Some f → Q' !! o = Some f) ∧
    (∀ o, o < End_ gap ∨ Start (eg_gap eg) ≤ o → eg_queue eg !! o = Q' !! o)%Z) as Hgen.
{ destruct (Hgen Q) as (eg & mids & Hf & [] & Hsub & Hkeep); [done|].
  exists eg, mids. split; [done|]. by split. }
revert gap same Hse Hg Hl. induction rest as [|nxt rest IH]; intros gap same Hse Hg Hl Q' HQ';
  cbn [find_end_gap].
- simpl in Hl. rewrite decide_False by lia. eexists _, []. split; [done|].
  split; [|done]. apply end_gap_here; [done|done|done|cbn; lia].

- case_decide as He; cycle 1.
  { eexists _, []. split; [done|]. split; [|done]. apply end_gap_here; [done|done|done|cbn; lia]. }
  destruct Hl as (Hc & Hb & Hn & Hl). specialize (Hb eq_refl). case_decide as Hen.
  + eexists _, []. split; [done|]. split; [|done]. split; cbn; auto.
    * by rewrite bool_decide_true, andb_true_r by lia.
    * lia.
    * right. split; [done|]. intros p [Hp|Hp]%in_gaps_cons; [unfold in_gap in Hp; lia|].
      eapply linked_bounds in Hp; [|done]. lia.
  + edestruct (IH nxt false) as (eg & mids & Hf & Hs & Hsub & Hkeep); [lia|done|done| |].
    { intros o f Ho. apply HQ'. by apply lookup_delete_Some in Ho as [_ ?]. }
    exists eg, (gap :: mids). split; [exact Hf|]. destruct Hs as [H1 H2 H3 H4 H5 H6 H7 H8 H9 H10]; cbn in *.
    assert (Start nxt ≤ Start (eg_gap eg))%Z as Hle.
    { destruct H2 as [[_ ->]|(_ & ? & _)]; [simpl in H1; injection H1 as E _; rewrite <-E; lia|lia]. }
    split; [split; cbn; auto|split].
    * by rewrite H1.
    * right. split; [by destruct H2 as [[? _]|[? _]]|]. split_and!; [lia|lia|by left].
    * constructor; [split; [by left|lia]|]. eapply Forall_impl; [exact H5|].
      intros g [[->|?] ?]; split; [right; lia|lia|right; lia|lia].
    * intros o f Ho. apply Hsub in Ho. by apply lookup_delete_Some in Ho as [_ ?].
    * intros o Ho. rewrite Hkeep by lia. apply lookup_delete_ne. lia.
Qed.

(** The intervals left of the gap and right of the end gap remain. *)
Lemma fill_gaps_eq start end_ gap endGap (same : bool) :
(Start gap ≤ start < End_ gap)%Z → (start < end_ ≤ End_ endGap)%Z →
(if same then endGap = gap else End_ gap ≤ end_)%Z →
fill_gaps start end_ gap endGap same (negb same && bool_decide (End_ endGap ≤ end_)%Z) =
  (if decide (start = Start gap) then [] else [{| Start := Start gap; End_ := start |}]) ++
  (if decide (end_ < End_ endGap)%Z then [{| Start := end_; End_ := End_ endGap |}] else []).
Proof.
intros Hs He Hsame. unfold fill_gaps. destruct same; [subst endGap|]; cbn [negb andb].
- repeat case_decide; try done; lia.
- destruct (decide (End_ endGap ≤ end_)%Z).
  + rewrite bool_decide_true by done. repeat case_decide; try done; lia.
  + rewrite bool_decide_false by done. repeat case_decide; try done; lia.
Qed.

(** ** One push *)

(** The situation [push_between] starts from. *)
Record between (s : streamFrameSorter) (frame : StreamFrame) (start end_ : Z)
  (pre : list ByteInterval) (gap : ByteInterval) (rest : list ByteInterval)
  (eg : end_gap) (mids : list ByteInterval) : Prop := {
bt_ok : sorter_ok s;
bt_gaps : gaps s = pre ++ gap :: rest;
bt_pre : before start pre;
bt_start : (Start gap ≤ start < End_ gap)%Z;
bt_piece : piece frame;
bt_offset : Offset frame = start;
bt_end : end_ = (start + DataLen frame)%Z;
bt_data : (0 < DataLen frame)%Z;
bt_eg : end_gap_spec (queuedFrames s) end_ gap true rest eg mids
}.

Definition left_gap (start : Z) (gap : ByteInterval) : list ByteInterval :=
if decide (start = Start gap) then [] else [{| Start := Start gap; End_ := start |}].
Definition right_gap (end_ : Z) (g : ByteInterval) : list ByteInterval :=
if decide (end_ < End_ g)%Z then [{| Start := end_; End_ := End_ g |}] else [].

Lemma in_left_gap start gap p :
(Start gap ≤ start)%Z → in_gaps (left_gap start gap) p ↔ (Start gap ≤ p < start)%Z.
Proof.
unfold left_gap. intros. case_decide.
- split; [by intros ?%in_gaps_nil|lia].
- unfold in_gaps. rewrite Exists_cons, Exists_nil. unfold in_gap; simpl. lia.
Qed.
Lemma in_right_gap end_ g p : in_gaps (right_gap end_ g) p ↔ (end_ ≤ p < End_ g)%Z.
Proof.
unfold right_gap. case_decide.
- unfold in_gaps. rewrite Exists_cons, Exists_nil. unfold in_gap; simpl. lia.
- split; [by intros ?%in_gaps_nil|lia].
Qed.

Section between.
Context s frame start end_ pre gap rest eg mids (B : between s frame start end_ pre gap rest eg mids).
Let cut_end : Z := Z.min end_ (End_ (eg_gap eg)).

Lemma bt_cases :
  (eg_same eg = true ∧ mids = [] ∧ eg_gap eg = gap) ∨
  (eg_same eg = false ∧ gap ∈ mids ∧ End_ gap < Start (eg_gap eg) ∧ End_ gap ≤ end_)%Z.
Proof.
  destruct B as [_ _ _ _ _ _ _ _ [Hs [[Hsame Hm]|(? & ? & ? & ?)] _ _ _ _ _ _ _ _]]; [|by right].
  left. subst mids. injection Hs as Hs _. done.
Qed.

Lemma bt_bounds : (start < cut_end ∧ cut_end ≤ end_ ∧ cut_end ≤ End_ (eg_gap eg) ∧
  0 ≤ start ∧ end_ ≤ zlen src ∧ Start gap ≤ start ∧ start < End_ (eg_gap eg))%Z.
Proof.
  pose proof bt_cases as Hc. destruct B as [_ _ _ Hst [Ho He _ _] Hoff Hend Hd Heg].
  pose proof (eg_nonempty _ _ _ _ _ _ _ Heg). unfold cut_end.
  destruct Hc as [(_ & _ & E)|(_ & _ & ? & ?)]; [rewrite E in *|]; lia.
Qed.

Lemma bt_cut :
  ∃ f, (if bool_decide (End_ (eg_gap eg) < end_)%Z
    then cut_back frame (u64 (DataLen frame - u64 (end_ - End_ (eg_gap eg)))) else Some frame) = Some f ∧
piece f ∧ Offset f = start ∧ DataLen f = (cut_end - start)%Z ∧ FinBit f = FinBit frame.
Proof.
  pose proof bt_bounds as Hb. destruct B as [_ _ _ _ Hp Hoff Hend Hd _]. unfold cut_end, MaxByteCount in *.
  case_bool_decide.
  - rewrite (u64_small (end_ - _)) by lia. rewrite u64_small by lia.
destruct (cut_back_ok frame (DataLen frame - (end_ - End_ (eg_gap eg)))) as (f & ? & ? & ? & ? & ?);
  [done|lia|]. exists f. split; [done|]. split; [done|]. split; [by etrans|]. split; [lia|done].
  - exists frame. split; [done|]. split; [done|]. split; [done|]. split; [lia|done].
Qed.

Lemma bt_cut_end :
  (if bool_decide (End_ (eg_gap eg) < end_)%Z then u64 (end_ - u64 (end_ - End_ (eg_gap eg))) else end_) = cut_end.
Proof.
  pose proof bt_bounds as Hb. unfold cut_end, MaxByteCount in *. case_bool_decide; [|lia].
  rewrite (u64_small (end_ - End_ _)) by lia. rewrite u64_small by lia. lia.
Qed.

Lemma bt_fill :
  fill_gaps start cut_end gap (eg_gap eg) (eg_same eg) (eg_removed eg) =
left_gap start gap ++ right_gap cut_end (eg_gap eg).
Proof.
  pose proof bt_bounds as Hb. pose proof bt_cases as Hc.
  destruct B as [_ _ _ Hst _ _ _ _ Heg]. rewrite (eg_removed_iff _ _ _ _ _ _ _ Heg).
  rewrite (bool_decide_ext (End_ (eg_gap eg) ≤ end_)%Z (End_ (eg_gap eg) ≤ cut_end)%Z)
by (unfold cut_end; lia).
  apply fill_gaps_eq; [done|lia|].
  unfold cut_end in *. destruct Hc as [(-> & _ & ?)|(-> & _ & ? & ?)]; [done|].
  pose proof (eg_nonempty _ _ _ _ _ _ _ Heg). lia.
Qed.

Lemma bt_in_gaps p :
  in_gaps (pre ++ (left_gap start gap ++ right_gap cut_end (eg_gap eg)) ++ eg_rest eg) p ↔
  in_gaps (gaps s) p ∧ ¬ (start ≤ p < end_)%Z.
Proof.
  pose proof bt_bounds as Hb. pose proof bt_cases as Hc.
  destruct B as [_ -> Hpre Hst _ _ _ _ [Hs _ _ Hse Hm Hl Hne Haft _ _]]. rewrite Hs.
  rewrite !in_gaps_app, in_gaps_cons, in_left_gap, in_right_gap by lia.
  assert (in_gaps (eg_rest eg) p → end_ ≤ p)%Z as Hrest.
  { intros Hp. destruct Haft as [He|[_ He]]; [|by apply He]. eapply linked_bounds in Hp; [|done]. lia. }
  assert (in_gaps mids p → (Start gap ≤ p < start ∨ start ≤ p < end_))%Z as Hmids.
  { intros [g [Hg Hp]]%Exists_exists. rewrite Forall_forall in Hm.
destruct (Hm g Hg) as [[->|?] ?]; unfold in_gap in Hp; lia. }
  assert (in_gaps pre p → p < start)%Z as Hpp.
  { intros Hp. destruct (decide (p < start)%Z); [done|].
destruct (before_not_in start pre p); [done|lia|done]. }
  assert (Start gap ≤ p < start → in_gaps mids p ∨ in_gap (eg_gap eg) p)%Z as Hleft.
  { intros Hp. destruct Hc as [(_ & _ & ->)|(_ & Hin & _)]; [right; unfold in_gap; lia|left].
apply Exists_exists. exists gap. split; [done|]. unfold in_gap. lia. }
  assert (in_gap (eg_gap eg) p ↔ (Start (eg_gap eg) ≤ p < End_ (eg_gap eg))%Z) as Heg by done.
  assert (Start (eg_gap eg) ≤ p < start → Start gap ≤ p < start)%Z as Hsl.
  { destruct Hc as [(_ & _ & ->)|(_ & _ & ? & _)]; lia. }
  unfold cut_end in *. rewrite Heg in *.
  destruct (decide (start ≤ p < end_)%Z).
  - split; [|tauto]. intros [?|[[?|?]|?]]; lia || (specialize (Hrest ltac:(done)); lia) || (specialize (Hpp ltac:(done)); lia).
  - split.
+ intros [?|[[?|?]|?]]; (split; [|done]); [by left|right; tauto|right; right; left; lia|by do 3 right].
+ intros [[?|[Hp|[Hp|?]]] _]; [by left| | |by do 2 right].
  * right; left; left. specialize (Hmids Hp). lia.
  * right; left. destruct (decide (p < start)%Z); [left; apply Hsl; lia|right; lia].
Qed.

Lemma bt_agree f o f' :
  queuedFrames s !! o = Some f' → (o < Start gap ∨ End_ (eg_gap eg) ≤ o)%Z →
  <[start := f]> (eg_queue eg) !! o = Some f'.
Proof.
  pose proof bt_bounds as Hb. pose proof bt_cases as Hc.
  destruct B as [_ _ _ Hst _ _ _ _ Heg]. intros Ho Hr.
  pose proof (eg_nonempty _ _ _ _ _ _ _ Heg).
  rewrite lookup_insert_ne by lia. rewrite (eg_queue_keep _ _ _ _ _ _ _ Heg); [done|].
  destruct Hc as [(_ & _ & ->)|(_ & _ & ? & _)]; lia.
Qed.

(** The gaps right of the new frame, from where it ends. *)
Lemma bt_tail f :
  let Q := <[start := f]> (eg_queue eg) in
  let tail := right_gap cut_end (eg_gap eg) ++ eg_rest eg in
  linked Q false cut_end tail MaxByteCount ∧ tail ≠ [].
Proof.
  pose proof bt_bounds as Hb. intros Q tail.
  assert (linked Q true (End_ (eg_gap eg)) (eg_rest eg) MaxByteCount) as Hl.
  { eapply linked_agree; [exact (eg_linked _ _ _ _ _ _ _ (bt_eg _ _ _ _ _ _ _ _ _ B))|].
intros. apply bt_agree; [done|lia]. }
  unfold tail, right_gap. case_decide.
  - split; [|done]. cbn [app linked Start End_]. split; [constructor|]. by split_and!.
  - assert (cut_end = End_ (eg_gap eg)) as E by lia. rewrite E. cbn [app]. split.
+ destruct (eg_rest eg); [done|]. destruct Hl as (? & _ & ? & ?). by split_and!.
+ destruct (eg_rest_after _ _ _ _ _ _ _ (bt_eg _ _ _ _ _ _ _ _ _ B)) as [|[]]; [|done].
  unfold cut_end in *. lia.
Qed.

Lemma linked_chain Q b m q gs e :
  chain Q m q → gs ≠ [] → linked Q true q gs e → linked Q b m gs e.
Proof.
  destruct gs as [|g gs]; [done|]. intros Hc _ (Hc' & Hs & Hg & Hl). specialize (Hs eq_refl).
  apply chain_le in Hc as Hle. split; [by eapply chain_trans|]. split; [lia|done].
Qed.

Lemma bt_linked f :
  DataLen f = (cut_end - start)%Z →
  linked (<[start := f]> (eg_queue eg)) false (readPosition s)
(pre ++ (left_gap start gap ++ right_gap cut_end (eg_gap eg)) ++ eg_rest eg) MaxByteCount.
Proof.
  pose proof bt_bounds as Hb. intros Hf. destruct (bt_tail f) as [Htail Hne].
  set (Q := <[start := f]> (eg_queue eg)) in *.
  assert (∀ b, linked Q b start (right_gap cut_end (eg_gap eg) ++ eg_rest eg) MaxByteCount) as Hstart.
  { intros b. apply (linked_prepend Q b start f); [by apply lookup_insert_eq|lia|done|].
by replace (start + DataLen f)%Z with cut_end by lia. }
  pose proof (bt_ok _ _ _ _ _ _ _ _ _ B) as [_ _ Hl _]. rewrite (bt_gaps _ _ _ _ _ _ _ _ _ B) in Hl.
  apply linked_app in Hl as (m & Hpre & Hc & Hs & Hg & _). apply chain_le in Hc as Hmle.
  rewrite <-app_assoc. apply linked_app. exists m. split.
  - eapply linked_agree; [exact Hpre|]. intros. apply bt_agree; [done|lia].
  - assert (chain Q m (Start gap)) as Hc'.
{ eapply chain_agree; [exact Hc|]. intros. apply bt_agree; [done|lia]. }
unfold left_gap. case_decide as E; cbn [app].
+ eapply linked_chain; [exact Hc'|done|]. rewrite <-E. apply Hstart.
+ cbn [linked Start End_]. split; [done|]. split; [done|]. split; [lia|]. apply Hstart.
Qed.

Lemma bt_queue f :
  piece f → Offset f = start → DataLen f = (cut_end - start)%Z →
  queue_ok (pre ++ (left_gap start gap ++ right_gap cut_end (eg_gap eg)) ++ eg_rest eg)
(<[start := f]> (eg_queue eg)).
Proof.
  pose proof bt_bounds as Hb. intros Hf Ho Hd o f' [[<- <-]|[Hne Hq]]%lookup_insert_Some.
  - split_and!; [done|done|]. intros p Hp [_ Hn]%bt_in_gaps. apply Hn. lia.
  - apply (eg_queue_sub _ _ _ _ _ _ _ (bt_eg _ _ _ _ _ _ _ _ _ B)) in Hq.
destruct (ok_queue _ (bt_ok _ _ _ _ _ _ _ _ _ B) o f' Hq) as (? & ? & Hg).
split_and!; [done|done|]. intros p Hp [Hin _]%bt_in_gaps. by apply (Hg p).
Qed.

Lemma bt_count :
  (zlen (pre ++ (left_gap start gap ++ right_gap cut_end (eg_gap eg)) ++ eg_rest eg) ≤ 1 + zlen (gaps s))%Z.
Proof.
  destruct B as [_ -> _ _ _ _ _ _ [-> _ _ _ _ _ _ _ _ _]].
  rewrite !zlen_app, zlen_cons. pose proof (zlen_nonneg mids).
  assert (zlen (left_gap start gap) ≤ 1 ∧ zlen (right_gap cut_end (eg_gap eg)) ≤ 1)%Z; [|lia].
  unfold left_gap, right_gap. repeat case_decide; done.
Qed.

Lemma push_between_spec :
  ∃ s' err, push_between s frame start end_ pre gap eg = Some (s', err) ∧
readPosition s' = readPosition s ∧
(∀ p, in_gaps (gaps s') p ↔ in_gaps (gaps s) p ∧ ¬ (start ≤ p < end_)%Z) ∧
(zlen (gaps s') ≤ 1 + zlen (gaps s))%Z ∧
(err = None ∧ sorter_ok s' ∨
 err = Some errTooManyGapsInReceivedStreamData ∧ MaxStreamFrameSorterGaps < zlen (gaps s'))%Z.
Proof.
  destruct bt_cut as (f & Hcut & Hp & Ho & Hd & _). unfold push_between. rewrite Hcut, bt_cut_end.
  cbn [mbind option_bind]. rewrite bt_fill.
  destruct (decide (MaxStreamFrameSorterGaps < _)%Z) as [Hn|Hn].
  - eexists _, _. split; [done|]. split; [done|]. split; [exact bt_in_gaps|]. split; [exact bt_count|]. by right.
  - eexists _, _. split; [done|]. split; [done|]. split; [exact bt_in_gaps|].
split; [exact bt_count|]. left. split; [done|].
split; cbn [readPosition queuedFrames gaps]; rewrite ?Ho.
+ exact (ok_read _ (bt_ok _ _ _ _ _ _ _ _ _ B)).
+ by apply bt_queue.
+ by apply bt_linked.
+ destruct (bt_tail f) as [_ Hne]. intros [_ [[_ E1]%app_nil E2]%app_nil]%app_nil.
  apply Hne. by rewrite E1, E2.
Qed.
End between.

(** What a push of the frame [[offset, offset + len)] may do to a sorter. *)
Definition push_spec (s : streamFrameSorter) (lo hi : Z) (r : pushed) : Prop :=
∃ s' err, r = Some (s', err) ∧ readPosition s' = readPosition s ∧
  (∀ p, in_gaps (gaps s') p ↔ in_gaps (gaps s) p ∧ ¬ (lo ≤ p < hi)%Z) ∧
  (zlen (gaps s') ≤ 1 + zlen (gaps s))%Z ∧
  ((err = None ∨ err = Some errDuplicateStreamData) ∧ sorter_ok s' ∨
   err = Some errTooManyGapsInReceivedStreamData ∧ MaxStreamFrameSorterGaps < zlen (gaps s'))%Z.

Lemma push_spec_duplicate s lo hi :
sorter_ok s → (∀ p, (lo ≤ p < hi)%Z → ¬ in_gaps (gaps s) p) →
push_spec s lo hi (Some (s, Some errDuplicateStreamData)).
Proof.
intros Hs Hn. eexists _, _. split; [done|]. split; [done|]. split; [|split; [lia|left; auto]].
intros p. split; [|tauto]. intros Hp. split; [done|]. intros Hr. by apply (Hn p).
Qed.

Lemma push_spec_extend s lo lo' hi r :
(lo ≤ lo')%Z → (∀ p, (lo ≤ p < lo')%Z → ¬ in_gaps (gaps s) p) →
push_spec s lo' hi r → push_spec s lo hi r.
Proof.
intros Hle Hn (s' & err & Hr & Hp & Hg & Hc). exists s', err. do 2 (split; [done|]). split; [|done].
intros p. rewrite Hg. split; [|intros [? ?]; split; [done|lia]].
intros [Hin Hout]. split; [done|]. intros Hlo. destruct (decide (p < lo')%Z); [|lia].
apply (Hn p); [lia|done].
Qed.

Lemma push_new_spec s frame :
sorter_ok s → piece frame → (0 < DataLen frame)%Z →
(∀ g, g ∈ gaps s → End_ g ≠ Offset frame) →
push_spec s (Offset frame) (Offset frame + DataLen frame) (push_new s frame).
Proof.
intros Hs Hf Hd Hend. destruct (id Hf) as [Ho He _ _]. unfold push_new. unfold MaxByteCount in *.
rewrite u64_small by lia. set (start := Offset frame) in *. remember (start + DataLen frame)%Z as end_ eqn:Eend.
pose proof (find_gap_spec _ _ _ start end_ [] (gaps s) ltac:(unfold MaxByteCount; lia) (ok_gaps _ Hs) (ok_linked _ Hs)
  (Forall_nil_2 _)) as Hfind.
destruct (find_gap start end_ [] (gaps s)) as [| |pre gap rest]; [by apply push_spec_duplicate|done|].
destruct Hfind as (Hgaps & Hpre & Hge & Hgs). cbn [app] in Hgaps.
assert (start < End_ gap)%Z as Hlt.
{ assert (End_ gap ≠ start); [|lia]. apply Hend. rewrite <-Hgaps. set_solver. }
pose proof (ok_linked _ Hs) as Hl. rewrite <-Hgaps in Hl.
apply linked_app in Hl as (m & Hlp & Hc & _ & Hg & Hl). apply chain_le in Hc.
apply linked_le in Hlp. pose proof (ok_read _ Hs).
destruct (find_end_gap_spec (queuedFrames s) end_ gap true rest) as (eg & mids & Heg & Hspec);
  [unfold MaxByteCount; lia|done|done|].
case_bool_decide as Hearly.
- rewrite !(u64_small (Start gap - start)) by lia.
  destruct (cut_front_ok frame (Start gap - start)) as (f & Hcut & Hp & Hof & Hlen & _); [done|lia|].
  rewrite Hcut. cbn [mbind option_bind]. rewrite Heg, u64_small by lia.
  apply (push_spec_extend s start (start + (Start gap - start)) end_); [lia| |].
  + intros p Hp' Hin. rewrite <-Hgaps, in_gaps_app, in_gaps_cons in Hin.
    destruct Hin as [Hin|[Hin|Hin]]; [|unfold in_gap in Hin; lia|].
    * exact (before_not_in start pre p Hpre (proj1 Hp') Hin).
    * eapply linked_bounds in Hin; [|done]. lia.
  + edestruct (push_between_spec s f (start + (Start gap - start)) end_ pre gap rest eg mids)
      as (s' & err & ? & ? & ? & ? & Hcase).
    { split; try done; try lia. eapply Forall_impl; [exact Hpre|]. intros; cbn in *; lia. }
    exists s', err. split_and!; [done..|]. destruct Hcase as [[-> ?]|[-> ?]]; auto.
- cbn [mbind option_bind]. rewrite Heg.
  edestruct (push_between_spec s frame start end_ pre gap rest eg mids) as (s' & err & ? & ? & ? & ? & Hcase).
  { split; try done; lia. }
  exists s', err. split_and!; [done..|]. destruct Hcase as [[-> ?]|[-> ?]]; auto.
Qed.

Lemma queued_offset s f g :
sorter_ok s → g ∈ gaps s → End_ g = Offset f → piece f → (0 < DataLen f)%Z →
∃ old, queuedFrames s !! Offset f = Some old ∧ (0 < DataLen old)%Z.
Proof.
intros Hs (pre & rest & Hgaps)%list_elem_of_split Hend [Ho He _ _] Hd.
pose proof (ok_linked _ Hs) as Hl. rewrite Hgaps in Hl.
apply linked_app in Hl as (m & _ & _ & _ & _ & Hl).
destruct rest as [|g' rest]; [simpl in Hl; lia|]. destruct Hl as (Hc & Hb & _).
specialize (Hb eq_refl). rewrite Hend in *. inversion Hc; subst; [lia|eauto].
Qed.

Lemma Push_spec s frame :
sorter_ok s → piece frame → (0 < DataLen frame)%Z →
push_spec s (Offset frame) (Offset frame + DataLen frame) (Push s frame).
Proof.
intros Hs Hf Hd. unfold Push. rewrite decide_False by lia.
destruct (queuedFrames s !! Offset frame) as [old|] eqn:Hold.
- destruct (ok_queue _ Hs _ _ Hold) as (Hoo & Hop & Hog). case_decide.
  { apply push_spec_duplicate; [done|]. intros. apply Hog. lia. }
  assert (0 < DataLen old)%Z as Hpos.
  { destruct (decide (DataLen old = 0)%Z) as [Hz|]; [|pose proof (zlen_nonneg (SData old)); unfold DataLen in *; lia].
    apply (piece_empty _ Hop) in Hz. destruct Hf as [_ He _ _]. lia. }
  destruct (cut_front_ok frame (DataLen old)) as (f & Hcut & Hp & Hof & Hlen & _); [done|lia|].
  rewrite Hcut. cbn [mbind option_bind].
  apply (push_spec_extend s _ (Offset f)); [lia|intros; apply Hog; lia|].
  replace (Offset frame + DataLen frame)%Z with (Offset f + DataLen f)%Z by lia.
  apply push_new_spec; [done|done|lia|]. intros g Hg Hend.
  apply (Hog (Offset f - 1)%Z); [lia|]. apply Exists_exists. exists g. split; [done|].
  pose proof (ok_linked _ Hs) as Hl. apply list_elem_of_split in Hg as (pre & rest & Hgaps).
  rewrite Hgaps in Hl. apply linked_app in Hl as (? & _ & _ & _ & ? & _). unfold in_gap. lia.
- apply push_new_spec; [done..|]. intros g Hg Hend.
  destruct (queued_offset s frame g) as (old & Hq & _); [done..|]. congruence.
Qed.

(** What a push may put into the queue: the frames queued before the first gap stay, and a new one
  has the FIN bit of the frame pushed and its end, unless its last byte was there already. *)
Definition queue_spec (s : streamFrameSorter) (frame : StreamFrame) (end_ : Z) (s' : streamFrameSorter) : Prop :=
(∀ o, (∀ g, g ∈ gaps s → o < Start g)%Z → queuedFrames s' !! o = queuedFrames s !! o) ∧
(∀ o f, queuedFrames s' !! o = Some f → queuedFrames s !! o = Some f ∨
  FinBit f = FinBit frame ∧
  ((Offset f + DataLen f)%Z = end_ ∨
   (∃ p, (Offset frame ≤ p < end_)%Z ∧ in_gaps (gaps s) p) ∧ ¬ in_gaps (gaps s) (end_ - 1))).

Lemma queue_spec_same s frame end_ : queue_spec s frame end_ s.
Proof. split; [done|]. auto. Qed.

Lemma push_between_queue s frame f start end_ pre gap rest eg mids s' err :
sorter_ok s → pre ++ gap :: rest = gaps s → before start pre → (Start gap < End_ gap)%Z →
piece f → Offset f = start → (start + DataLen f)%Z = end_ → (Offset frame ≤ start)%Z → FinBit f = FinBit frame →
(Start gap ≤ start < End_ gap)%Z → (start < end_ < MaxByteCount)%Z → (Offset frame ≤ start)%Z →
end_gap_spec (queuedFrames s) end_ gap true rest eg mids →
push_between s f start end_ pre gap eg = Some (s', err) → queue_spec s frame end_ s'.
Proof.
intros Hs Hgaps Hpre Hg Hf Ho He Hof Hfin Hst Hse Hfr E. unfold push_between. unfold MaxByteCount in *.
assert (gap ∈ gaps s) as Hin by (rewrite <-Hgaps; set_solver).
assert (∀ f', Offset f' = start → FinBit f' = FinBit frame →
  ((Offset f' + DataLen f')%Z = end_ ∨ (End_ (eg_gap eg) < end_)%Z) →
  ∀ gs, queue_spec s frame end_ {| queuedFrames := <[Offset f' := f']> (eg_queue eg); readPosition := readPosition s; gaps := gs |})
  as Hput.
{ intros f' Ho' Hfin' Hend gs. split; cbn [queuedFrames].
  - intros o Hlt. specialize (Hlt gap Hin). rewrite lookup_insert_ne by lia. apply (eg_queue_keep _ _ _ _ _ _ _ E). lia.
  - intros o g [[<- <-]|[_ Hq]]%lookup_insert_Some; [|left; by apply (eg_queue_sub _ _ _ _ _ _ _ E)].
    right. split; [done|]. destruct Hend as [|Hcut]; [by left|right]. split.
    + exists start. split; [lia|]. rewrite <-Hgaps, in_gaps_app, in_gaps_cons. unfold in_gap. right. left. lia.
    + rewrite <-Hgaps, (eg_split _ _ _ _ _ _ _ E). rewrite !in_gaps_app, in_gaps_cons. intros [Hp|[Hp|[Hp|Hp]]].
      * by apply (before_not_in start pre (end_ - 1) Hpre); [lia|].
      * apply Exists_exists in Hp as (m & Hm & Hp). pose proof (eg_mids _ _ _ _ _ _ _ E) as Hmids.
        rewrite Forall_forall in Hmids. destruct (Hmids m Hm) as [_ ?]. unfold in_gap in Hp. lia.
      * unfold in_gap in Hp. lia.
      * destruct (eg_rest_after _ _ _ _ _ _ _ E) as [?|[_ Hr]]; [lia|]. apply Hr in Hp. lia. }
assert (∀ gs, queue_spec s frame end_ {| queuedFrames := eg_queue eg; readPosition := readPosition s; gaps := gs |}) as Hdel.
{ intros gs. split; cbn [queuedFrames].
  - intros o Hlt. specialize (Hlt gap Hin). apply (eg_queue_keep _ _ _ _ _ _ _ E). lia.
  - intros o g Hq. left. by apply (eg_queue_sub _ _ _ _ _ _ _ E). }
pose proof (eg_start _ _ _ _ _ _ _ E) as Hes. pose proof (piece_offset _ Hf).
case_bool_decide as Hlong.
- assert (start < End_ (eg_gap eg))%Z as Hse'.
  { destruct (eg_same_iff _ _ _ _ _ _ _ E) as [[_ ->]|(_ & ? & _ & _)].
    - pose proof (eg_split _ _ _ _ _ _ _ E) as Hsp. cbn in Hsp. injection Hsp as <- _. lia.
    - pose proof (eg_nonempty _ _ _ _ _ _ _ E). lia. }
  rewrite (u64_small (end_ - End_ (eg_gap eg))), (u64_small (DataLen f - _)) by lia.
  destruct (cut_back_ok f (DataLen f - (end_ - End_ (eg_gap eg)))) as (f' & -> & _ & Ho' & _ & Hfin'); [done|lia|].
  cbn [mbind option_bind]. case_decide; intros [= <- _]; [apply Hdel|].
  apply Hput; [lia|congruence|by right].
- cbn [mbind option_bind]. case_decide; intros [= <- _]; [apply Hdel|]. apply Hput; [done|done|left; lia].
Qed.

Lemma push_new_queue s frame s' err :
sorter_ok s → piece frame → (0 < DataLen frame)%Z → (∀ g, g ∈ gaps s → End_ g ≠ Offset frame) →
push_new s frame = Some (s', err) → queue_spec s frame (Offset frame + DataLen frame) s'.
Proof.
intros Hs Hf Hd Hend. destruct (id Hf) as [Ho He _ _]. unfold push_new. unfold MaxByteCount in *.
rewrite u64_small by lia. set (start := Offset frame) in *. remember (start + DataLen frame)%Z as end_ eqn:Eend.
pose proof (find_gap_spec _ _ _ start end_ [] (gaps s) ltac:(unfold MaxByteCount; lia) (ok_gaps _ Hs) (ok_linked _ Hs)
  (Forall_nil_2 _)) as Hfind.
destruct (find_gap start end_ [] (gaps s)) as [| |pre gap rest]; [|done|].
{ intros [= <- _]. apply queue_spec_same. }
destruct Hfind as (Hgaps & Hpre & Hge & Hgs). cbn [app] in Hgaps.
assert (start < End_ gap)%Z as Hlt.
{ assert (End_ gap ≠ start); [|lia]. apply Hend. rewrite <-Hgaps. set_solver. }
pose proof (ok_linked _ Hs) as Hl. rewrite <-Hgaps in Hl.
apply linked_app in Hl as (m & Hlp & Hc & _ & Hg & Hl). apply chain_le in Hc.
apply linked_le in Hlp. pose proof (ok_read _ Hs).
destruct (find_end_gap_spec (queuedFrames s) end_ gap true rest) as (eg & mids & Heg & Hspec);
  [unfold MaxByteCount; lia|done|done|].
case_bool_decide as Hearly.
- rewrite !(u64_small (Start gap - start)) by lia.
  destruct (cut_front_ok frame (Start gap - start)) as (f & Hcut & Hp & Hof & Hlen & Hfin); [done|lia|].
  rewrite Hcut. cbn [mbind option_bind]. rewrite Heg, u64_small by lia.
  apply push_between_queue with (f := f) (rest := rest) (mids := mids); try done; try (unfold MaxByteCount; lia).
  eapply Forall_impl; [exact Hpre|]. intros; cbn in *; lia.
- cbn [mbind option_bind]. rewrite Heg.
  apply push_between_queue with (f := frame) (rest := rest) (mids := mids); try done; unfold MaxByteCount; lia.
Qed.

Lemma Push_queue s frame s' err :
sorter_ok s → piece frame → (0 < DataLen frame)%Z → Push s frame = Some (s', err) →
queue_spec s frame (Offset frame + DataLen frame) s'.
Proof.
intros Hs Hf Hd. unfold Push. rewrite decide_False by lia.
destruct (queuedFrames s !! Offset frame) as [old|] eqn:Hold.
- destruct (ok_queue _ Hs _ _ Hold) as (Hoo & Hop & Hog). case_decide.
  { intros [= <- _]. apply queue_spec_same. }
  assert (0 < DataLen old)%Z as Hpos.
  { destruct (decide (DataLen old = 0)%Z) as [Hz|]; [|pose proof (zlen_nonneg (SData old)); unfold DataLen in *; lia].
    apply (piece_empty _ Hop) in Hz. destruct Hf as [_ He _ _]. lia. }
  destruct (cut_front_ok frame (DataLen old)) as (f & Hcut & Hp & Hof & Hlen & Hfin); [done|lia|].
  rewrite Hcut. cbn [mbind option_bind]. intros Hpush.
  destruct (push_new_queue s f s' err) as [H1 H2]; [done|done|lia| |exact Hpush|].
  { intros g Hg Hend. apply (Hog (Offset f - 1)%Z); [lia|]. apply Exists_exists. exists g. split; [done|].
    pose proof (ok_linked _ Hs) as Hl. apply list_elem_of_split in Hg as (pre & rest & Hgaps).
    rewrite Hgaps in Hl. apply linked_app in Hl as (? & _ & _ & _ & ? & _). unfold in_gap. lia. }
  split; [exact H1|]. intros o g Hq. apply H2 in Hq as [|[Hb Hc]]; [by left|right].
  replace (Offset f + DataLen f)%Z with (Offset frame + DataLen frame)%Z in Hc by lia.
  split; [congruence|]. destruct Hc as [?|[(p & ? & ?) ?]]; [by left|right].
  split; [|done]. exists p. split; [lia|done].
- apply push_new_queue; [done..|]. intros g Hg Hend.
  destruct (queued_offset s frame g) as (old & Hq & _); [done..|]. congruence.
Qed.

Lemma piece_empty_key Q o f : queue_ok [] Q → Q !! o = Some f → (0 < DataLen f)%Z → (o < zlen src)%Z.
Proof. intros Hq Hf Hd. destruct (Hq o f Hf) as (<- & [] & _). lia. Qed.

Lemma queue_ok_nil gs Q : queue_ok gs Q → queue_ok [] Q.
Proof. intros Hq o f Hf. destruct (Hq o f Hf) as (? & ? & _). split_and!; [done..|]. intros ? _. apply in_gaps_nil. Qed.

Lemma Push_fin_ok s frame :
sorter_ok s → piece frame → DataLen frame = 0%Z → FinBit frame = true →
∃ s', Push s frame = Some (s', None) ∧ sorter_ok s' ∧
  readPosition s' = readPosition s ∧ gaps s' = gaps s.
Proof.
intros Hs Hf Hz Hfin. unfold Push. rewrite decide_True by done. rewrite Hfin.
eexists. split; [done|]. split; [|done]. pose proof (piece_empty _ Hf Hz) as Ho.
split; cbn [readPosition gaps queuedFrames].
- apply Hs.
- intros o f [[<- <-]|[Hne Hq]]%lookup_insert_Some; [|by apply Hs].
  split_and!; [done|done|]. intros; lia.
- eapply linked_agree; [apply Hs|]. intros o f Hq Hd _. rewrite lookup_insert_ne; [done|].
  pose proof (piece_empty_key _ _ _ (queue_ok_nil _ _ (ok_queue _ Hs)) Hq Hd). lia.
- apply Hs.
Qed.

(** [Pop] hands out the bytes at the read position and moves past them. *)
Lemma Pop_spec s f :
sorter_ok s → Head s = Some f →
∃ s', Pop s = (Some f, s') ∧ sorter_ok s' ∧ gaps s' = gaps s ∧
  readPosition s' = (readPosition s + DataLen f)%Z ∧
  (readPosition s' ≤ zlen src)%Z ∧
  SData f = take (Z.to_nat (DataLen f)) (drop (Z.to_nat (readPosition s)) src).
Proof.
intros Hs Hh. unfold Pop. rewrite Hh. unfold Head in Hh.
destruct (ok_queue _ Hs _ _ Hh) as (Ho & [_ He Hd _] & Hg). pose proof (ok_read _ Hs).
pose proof (zlen_nonneg (SData f)) as Hn. unfold MaxByteCount in *. rewrite Ho in *.
rewrite u64_small by (unfold DataLen in *; lia). eexists. split; [done|].
cbn [gaps readPosition]. split; [|split_and!; done].
split; cbn [gaps readPosition queuedFrames].
- unfold DataLen in *. lia.
- intros o f' [_ Hq]%lookup_delete_Some. by apply Hs.
- pose proof (ok_linked _ Hs) as Hl. pose proof (ok_gaps _ Hs) as Hne.
  destruct (gaps s) as [|g gs]; [done|]. destruct Hl as (Hc & _ & Hgne & Hl).
  assert (∀ q b gs e, linked (queuedFrames s) b q gs e → (readPosition s < q)%Z →
    linked (delete (readPosition s) (queuedFrames s)) b q gs e) as Hagree.
  { intros q b gs' e Hl' Hlt. eapply linked_agree; [exact Hl'|]. intros.
    rewrite lookup_delete_ne by lia. done. }
  destruct (decide (DataLen f = 0)%Z) as [Hz|Hz].
  + rewrite Hz, Z.add_0_r. eapply linked_agree; [by split_and!|]. intros o f' Hq Hd' _.
    rewrite lookup_delete_ne; [done|]. intros <-. rewrite Hh in Hq. injection Hq as <-. lia.
  + assert (0 < DataLen f)%Z as Hpos by (unfold DataLen in *; lia).
    inversion Hc as [q|q f' e Hq Hd' Hc' Eq]; subst.
    { destruct (Hg (Start g)) as []; [lia|]. apply in_gaps_cons. left. unfold in_gap. lia. }
    rewrite Hh in Hq. injection Hq as <-. apply (Hagree _ false (g :: gs)); [|lia].
    by split_and!.
- apply Hs.
Qed.

Lemma Head_progress s :
sorter_ok s → (readPosition s < MaxByteCount)%Z → ¬ in_gaps (gaps s) (readPosition s) →
∃ f, Head s = Some f ∧ (0 < DataLen f)%Z.
Proof.
intros Hs Hlt Hn. pose proof (ok_linked _ Hs) as Hl.
destruct (gaps s) as [|g gs] eqn:Eg; [by destruct (ok_gaps _ Hs)|]. destruct Hl as (Hc & _ & Hg & _).
inversion Hc as [|q f e Hq Hd Hc']; subst; [|by exists f].
destruct Hn. apply in_gaps_cons. left. unfold in_gap. lia.
Qed.
End sorter.

(** * A stream's life *)

Inductive event : Type := Arrive (frame : StreamFrame) | Deliver.

(** Frames arrive and the reader pops them; a duplicate is ignored, any other
    error ends the stream. *)
Fixpoint run (s : streamFrameSorter) (out : list byte) (evs : list event) :
    option (result SorterError (streamFrameSorter * list byte)) :=
  match evs with
  | [] => Some (Ok (s, out))
  | Arrive frame :: evs =>
      r ← Push s frame;
      match r.2 with
      | None | Some errDuplicateStreamData => run r.1 out evs
      | Some e => Some (Err e)
      end
  | Deliver :: evs =>
      match Pop s with
      | (Some frame, s') => run s' (out ++ SData frame) evs
      | (None, s') => run s' out evs
      end
  end.

Definition arrived (evs : list event) : list StreamFrame :=
  omap (λ ev, match ev with Arrive f => Some f | Deliver => None end) evs.
Definition has_byte (f : StreamFrame) (p : Z) : Prop := (Offset f ≤ p < Offset f + DataLen f)%Z.

Section run.
Context (src : list byte) (Hsrc : (zlen src < MaxByteCount)%Z).

(** What holds of a sorter that got the frames of [evs] and delivered [out]. *)
Record run_ok (frames : list StreamFrame) (s : streamFrameSorter) (out : list byte) : Prop := {
run_sorter : sorter_ok src s;
run_out : out = take (Z.to_nat (readPosition s)) src;
run_read : (readPosition s ≤ zlen src)%Z;
run_gaps p : in_gaps (gaps s) p ↔ (0 ≤ p < MaxByteCount)%Z ∧ Forall (λ f, ¬ has_byte f p) frames;
run_count : (zlen (gaps s) ≤ 1 + zlen frames)%Z
}.

Definition sent (f : StreamFrame) : Prop := piece src f ∧ (DataLen f = 0%Z → FinBit f = true).

Lemma run_ok_new : run_ok [] newStreamFrameSorter [].
Proof.
split; cbn [newStreamFrameSorter readPosition gaps queuedFrames].
- split; cbn [newStreamFrameSorter readPosition gaps queuedFrames]; try done.
  split; [constructor|done].
- done.
- apply zlen_nonneg.
- intros p. rewrite in_gaps_cons. unfold in_gap; cbn [Start End_]. split.
  + intros [?|[]%in_gaps_nil]. split; [done|constructor].
  + intros [? _]. by left.
- done.
Qed.

Lemma run_ok_arrive frames s out f :
run_ok frames s out → sent f →
∃ s' err, Push s f = Some (s', err) ∧
  ((err = None ∨ err = Some errDuplicateStreamData) ∧ run_ok (frames ++ [f]) s' out ∨
   err = Some errTooManyGapsInReceivedStreamData ∧ (MaxStreamFrameSorterGaps < 2 + zlen frames)%Z).
Proof.
intros [Hs Ho Hr Hg Hc] [Hp Hfin]. destruct (decide (DataLen f = 0)%Z) as [Hz|Hz].
- destruct (Push_fin_ok src s f Hs Hp Hz (Hfin Hz)) as (s' & -> & Hs' & Er & Eg).
  eexists _, _. split; [done|]. left. split; [by left|]. split; [done|by rewrite Er|by rewrite Er| |].
  + intros p. rewrite Eg, Hg, Forall_app, Forall_singleton. unfold has_byte. rewrite Hz. 
    split; [intros [? ?]|intros [? [? ?]]]; split_and!; try done; lia.
  + rewrite Eg, zlen_app. change (zlen [f]) with 1%Z. lia.
- pose proof (zlen_nonneg (SData f)).
  destruct (Push_spec src Hsrc s f Hs Hp) as (s' & err & -> & Er & Eg & Hn & Hcase);
    [unfold DataLen in *; lia|].
  eexists _, _. split; [done|]. destruct Hcase as [[He Hs']|[He Hmax]]; [left|right; split; [done|lia]].
  split; [done|]. split; [done|by rewrite Er|by rewrite Er| |].
  + intros p. rewrite Eg, Hg, Forall_app, Forall_singleton. unfold has_byte. tauto.
  + rewrite zlen_app. change (zlen [f]) with 1%Z. lia.
Qed.

Lemma run_ok_deliver frames s out f :
run_ok frames s out → Head s = Some f →
∃ s', Pop s = (Some f, s') ∧ run_ok frames s' (out ++ SData f).
Proof.
intros [Hs Ho Hr Hg Hc] Hh. destruct (Pop_spec src Hsrc s f Hs Hh) as (s' & Hpop & Hs' & Eg & Er & Hle & Hd).
exists s'. split; [done|]. pose proof (ok_read _ _ Hs). pose proof (zlen_nonneg (SData f)).
split; [done| |done|by rewrite Eg|by rewrite Eg].
assert (0 ≤ DataLen f)%Z by done. rewrite Er, Z2Nat.inj_add by done.
by rewrite Ho, Hd, take_take_drop.
Qed.

Lemma run_ok_run evs frames s out :
run_ok frames s out → Forall sent (arrived evs) →
(∃ s' out', run s out evs = Some (Ok (s', out')) ∧ run_ok (frames ++ arrived evs) s' out') ∨
(run s out evs = Some (Err errTooManyGapsInReceivedStreamData) ∧
 MaxStreamFrameSorterGaps < 1 + zlen (frames ++ arrived evs))%Z.
Proof.
revert frames s out. induction evs as [|[f|] evs IH]; intros frames s out Hok Hev.
- left. exists s, out. by rewrite app_nil_r.
- apply Forall_cons in Hev as [Hf Hev].
  destruct (run_ok_arrive frames s out f Hok Hf) as (s' & err & Hp & Hcase).
  cbn [run]. rewrite Hp. cbn [mbind option_bind fst snd].
  change (arrived (Arrive f :: evs)) with ([f] ++ arrived evs). rewrite app_assoc.
  destruct Hcase as [[He Hok']|[-> Hmax]].
  + destruct He as [->| ->]; by apply IH.
  + right. split; [done|]. rewrite !zlen_app. change (zlen [f]) with 1%Z.
    pose proof (zlen_nonneg (arrived evs)). lia.
- cbn [run]. destruct (Head s) as [f|] eqn:Hh.
  + destruct (run_ok_deliver frames s out f Hok Hh) as (s' & -> & Hok'). by apply IH.
  + unfold Pop. rewrite Hh. by apply IH.
Qed.
End run.

(** * Properties *)

(** C5: whatever the order, the overlaps and the repetitions in which frames
    of a stream arrive, interleaved with reads, the bytes delivered are a prefix
    of the sender's; the gaps are exactly the bytes no frame carried; and when a
    frame carried the byte at the read position, a nonempty frame is ready there.
    The only error is the limit on gaps, which needs that many frames. *)
Theorem reassembly src evs :
  (zlen src < MaxByteCount)%Z → Forall (sent src) (arrived evs) →
  (∃ s out, run newStreamFrameSorter [] evs = Some (Ok (s, out)) ∧
     out = take (Z.to_nat (readPosition s)) src ∧ (readPosition s ≤ zlen src)%Z ∧
     (∀ p, in_gaps (gaps s) p ↔
        (0 ≤ p < MaxByteCount)%Z ∧ Forall (λ f, ¬ has_byte f p) (arrived evs)) ∧
     (Exists (λ f, has_byte f (readPosition s)) (arrived evs) →
        ∃ f, Head s = Some f ∧ (0 < DataLen f)%Z)) ∨
  (run newStreamFrameSorter [] evs = Some (Err errTooManyGapsInReceivedStreamData) ∧
   MaxStreamFrameSorterGaps < 1 + zlen (arrived evs))%Z.
Proof.
  intros Hsrc Hev. destruct (run_ok_run src Hsrc evs [] _ _ (run_ok_new src) Hev)
    as [(s & out & Hrun & [Hs Ho Hr Hg _])|Herr]; [left|by right].
  exists s, out. do 3 (split; [done|]). split; [exact Hg|].
  intros Hex. apply (Head_progress src); [done|lia|]. rewrite Hg. cbn [app].
  intros [_ Hn]. apply Exists_exists in Hex as (f & Hin & Hb). rewrite Forall_forall in Hn.
  by apply (Hn f).
Qed.

Definition frame_at (o : Z) (d : list byte) (fin : bool) : StreamFrame := {|
  StreamID := 5; FinBit := fin; DataLenPresent := true; Offset := o; SData := d |}.
Definition sample_events : list event :=
  [Arrive (frame_at 2 [x03; x04] true); Deliver; Arrive (frame_at 0 [x01; x02; x03] false); Deliver; Deliver].

Lemma reassembly_witness :
  (∃ s out, run newStreamFrameSorter [] sample_events = Some (Ok (s, out)) ∧
     out = take (Z.to_nat (readPosition s)) [x01; x02; x03; x04] ∧ (readPosition s ≤ 4)%Z ∧
     (∀ p, in_gaps (gaps s) p ↔
        (0 ≤ p < MaxByteCount)%Z ∧ Forall (λ f, ¬ has_byte f p) (arrived sample_events)) ∧
     (Exists (λ f, has_byte f (readPosition s)) (arrived sample_events) →
        ∃ f, Head s = Some f ∧ (0 < DataLen f)%Z)) ∨
  (run newStreamFrameSorter [] sample_events = Some (Err errTooManyGapsInReceivedStreamData) ∧
   MaxStreamFrameSorterGaps < 1 + zlen (arrived sample_events))%Z.
Proof.
  apply (reassembly [x01; x02; x03; x04]); [done|].
  repeat constructor; done.
Defined.

(** A frame cut at its end because its tail is queued already keeps its FIN
    bit: the reader is told that the stream ends after 2 bytes of 4. *)
Lemma fin_survives_cut :
  let pushes := [Arrive (frame_at 2 [x03; x04] true); Arrive (frame_at 0 [x01; x02; x03; x04] true)] in
  ∃ s, run newStreamFrameSorter [] pushes = Some (Ok (s, [])) ∧
    Head s = Some (frame_at 0 [x01; x02] true).
Proof. eexists. split; vm_compute; reflexivity. Qed.
