(* ===== verification/ReceivedPackets.v ===== *)
(** Which packets were received, and what is acknowledged
    (src/mp-quic/ackhandler/received_packet_history.go,
    received_packet_handler.go and stop_waiting_manager.go, and the AckFrame
    predicates of src/mp-quic/internal/wire/ack_frame.go).

    The history keeps the received packet numbers as an ordered list of
    intervals; the handler decides when an ACK is due.  A set of packet numbers
    is the abstract state both implement.  [time.Now] is an argument, and
    the zero [time.Time] is [None]. *)

From Stdlib Require Import ZArith Lia.
From stdpp Require Import prelude numbers list gmap sets.
From S2P Require Import Prelude ByteOrder Wire.

Open Scope Z_scope.

Definition MaxTrackedReceivedAckRanges : Z := 2500.
Definition MaxPacketsReceivedBeforeAckSend : Z := 20.
Definition RetransmittablePacketsBeforeAck : Z := 2.
Definition AckSendDelay : Z := 25 * 1000 * 1000.

(** * The history *)

Record PacketInterval : Type := { PStart : Z; PEnd : Z }.
Record AckRange : Type := { First : Z; Last : Z }.

Record receivedPacketHistory : Type := {
  ranges : list PacketInterval;
  lowestInReceivedPacketNumbers : Z
}.

Inductive AckError : Type :=
| errTooManyOutstandingReceivedAckRanges
| errInvalidPacketNumber.

Definition newReceivedPacketHistory : receivedPacketHistory := {|
  ranges := []; lowestInReceivedPacketNumbers := 0
|}.

(** An extended range joins the range before it when they touch. *)
Definition merge_prev (el : PacketInterval) (prevs after : list PacketInterval) : list PacketInterval :=
  match prevs with
  | prev :: prevs' =>
      if decide (u64 (PEnd prev + 1) = PStart el)
      then reverse prevs' ++ {| PStart := PStart prev; PEnd := PEnd el |} :: after
      else reverse prevs ++ el :: after
  | [] => el :: after
  end.

(** The walk from the back: [desc] are the ranges still to visit, last first,
    and [after] the ones passed. *)
Fixpoint insert_packet (p : Z) (desc after : list PacketInterval) : list PacketInterval :=
  match desc with
  | [] => {| PStart := p; PEnd := p |} :: after
  | el :: prevs =>
      if decide (PStart el ≤ p ∧ p ≤ PEnd el) then reverse desc ++ after
      else if decide (PEnd el = u64 (p - 1)) then
        merge_prev {| PStart := PStart el; PEnd := p |} prevs after
      else if decide (PStart el = u64 (p + 1)) then
        merge_prev {| PStart := p; PEnd := PEnd el |} prevs after
      else if decide (PEnd el < p) then reverse desc ++ {| PStart := p; PEnd := p |} :: after
      else insert_packet p prevs (el :: after)
  end.

Definition history_ReceivedPacket (h : receivedPacketHistory) (p : Z) :
    result AckError receivedPacketHistory :=
  if decide (MaxTrackedReceivedAckRanges ≤ zlen (ranges h)) then
    Err errTooManyOutstandingReceivedAckRanges
  else Ok {| ranges := if decide (zlen (ranges h) = 0) then [{| PStart := p; PEnd := p |}]
                       else insert_packet p (reverse (ranges h)) [];
             lowestInReceivedPacketNumbers := lowestInReceivedPacketNumbers h |}.

Fixpoint delete_up_to (p : Z) (l : list PacketInterval) : list PacketInterval :=
  match l with
  | [] => []
  | el :: l' =>
      if decide (PStart el ≤ p ∧ p < PEnd el) then
        {| PStart := u64 (p + 1); PEnd := PEnd el |} :: delete_up_to p l'
      else if decide (PEnd el ≤ p) then delete_up_to p l'
      else l
  end.
Definition DeleteUpTo (h : receivedPacketHistory) (p : Z) : receivedPacketHistory := {|
  ranges := delete_up_to p (ranges h);
  lowestInReceivedPacketNumbers := Z.max (lowestInReceivedPacketNumbers h) (u64 (p + 1))
|}.

Definition GetAckRanges (h : receivedPacketHistory) : list AckRange :=
  (λ i, {| First := PStart i; Last := PEnd i |}) <$> reverse (ranges h).
Definition GetHighestAckRange (h : receivedPacketHistory) : AckRange :=
  match last (ranges h) with
  | Some r => {| First := PStart r; Last := PEnd r |}
  | None => {| First := 0; Last := 0 |}
  end.

(** * ACK frames *)

Record AckFrame : Type := {
  APathID : Z; LargestAcked : Z; LowestAcked : Z; AckRanges : list AckRange;
  PacketReceivedTime : option Z; DelayTime : Z
}.

Definition HasMissingRanges (f : AckFrame) : bool := bool_decide (0 < zlen (AckRanges f)).

Definition AcksPacket (f : AckFrame) (p : Z) : bool :=
  if decide (p < LowestAcked f ∨ LargestAcked f < p) then false
  else if HasMissingRanges f then existsb (λ r, bool_decide (First r ≤ p ∧ p ≤ Last r)) (AckRanges f)
  else bool_decide (LowestAcked f ≤ p ∧ p ≤ LargestAcked f).

(** The consistency of each range with the one before it. *)
Fixpoint consistent_after (prev : AckRange) (rs : list AckRange) : bool :=
  match rs with
  | [] => true
  | r :: rs =>
      if decide (First prev ≤ First r) then false
      else if decide (First prev ≤ u64 (Last r + 1)) then false
      else consistent_after r rs
  end.
Definition validateAckRanges (f : AckFrame) : bool :=
  match AckRanges f with
  | [] => true
  | r0 :: rs =>
      if decide (zlen (AckRanges f) = 1) then false
      else if decide (Last r0 ≠ LargestAcked f) then false
      else if existsb (λ r, bool_decide (Last r < First r)) (AckRanges f) then false
      else consistent_after r0 rs
  end.

(** * The handler *)

Record receivedPacketHandler : Type := {
  largestObserved : Z;
  lowerLimit : Z;
  largestObservedReceivedTime : option Z;
  packetHistory : receivedPacketHistory;
  ackSendDelay : Z;
  packetsReceivedSinceLastAck : Z;
  retransmittablePacketsReceivedSinceLastAck : Z;
  ackQueued : bool;
  ackAlarm : option Z;
  lastAck : option AckFrame;
  version : Z;
  packets : Z
}.

Definition NewReceivedPacketHandler (version : Z) : receivedPacketHandler := {|
  largestObserved := 0; lowerLimit := 0; largestObservedReceivedTime := None;
  packetHistory := newReceivedPacketHistory; ackSendDelay := AckSendDelay;
  packetsReceivedSinceLastAck := 0; retransmittablePacketsReceivedSinceLastAck := 0;
  ackQueued := false; ackAlarm := None; lastAck := None; version := version; packets := 0
|}.

Definition maybeQueueAck (h : receivedPacketHandler) (packetNumber : Z) (shouldInstigateAck : bool)
    (now : Z) : receivedPacketHandler :=
  let sinceLast := packetsReceivedSinceLastAck h + 1 in
  let retransmittable := if shouldInstigateAck then retransmittablePacketsReceivedSinceLastAck h + 1
                         else retransmittablePacketsReceivedSinceLastAck h in
  let queued := ackQueued h in
  let queued := match lastAck h with None => true | Some _ => queued end in
  let queued := if decide (version h < Version39) then
                  if decide (MaxPacketsReceivedBeforeAckSend ≤ sinceLast) then true else queued
                else queued in
  let queued := match lastAck h with
                | Some a => if decide (packetNumber < LargestAcked a) then true else queued
                | None => queued
                end in
  let queued := match lastAck h with
                | Some a => if decide (LargestAcked a < First (GetHighestAckRange (packetHistory h)))
                            then true else queued
                | None => queued
                end in
  let '(queued, alarm) :=
    if negb queued && shouldInstigateAck then
      if decide (RetransmittablePacketsBeforeAck ≤ retransmittable) then (true, ackAlarm h)
      else (queued, match ackAlarm h with
                    | None => Some (now + ackSendDelay h)
                    | Some t => Some t
                    end)
    else (queued, ackAlarm h) in
  {| largestObserved := largestObserved h; lowerLimit := lowerLimit h;
     largestObservedReceivedTime := largestObservedReceivedTime h;
     packetHistory := packetHistory h; ackSendDelay := ackSendDelay h;
     packetsReceivedSinceLastAck := sinceLast;
     retransmittablePacketsReceivedSinceLastAck := retransmittable;
     ackQueued := queued; ackAlarm := if queued then None else alarm;
     lastAck := lastAck h; version := version h; packets := packets h |}.

Definition set_history (h : receivedPacketHandler) (limit : Z) (hist : receivedPacketHistory) :
    receivedPacketHandler := {|
  largestObserved := largestObserved h; lowerLimit := limit;
  largestObservedReceivedTime := largestObservedReceivedTime h;
  packetHistory := hist; ackSendDelay := ackSendDelay h;
  packetsReceivedSinceLastAck := packetsReceivedSinceLastAck h;
  retransmittablePacketsReceivedSinceLastAck := retransmittablePacketsReceivedSinceLastAck h;
  ackQueued := ackQueued h; ackAlarm := ackAlarm h; lastAck := lastAck h;
  version := version h; packets := packets h
|}.

(** The packet is counted and observed before the history is asked. *)
Definition observe (h : receivedPacketHandler) (packetNumber now : Z) : receivedPacketHandler :=
  let new := bool_decide (largestObserved h < packetNumber) in {|
  largestObserved := if new then packetNumber else largestObserved h; lowerLimit := lowerLimit h;
  largestObservedReceivedTime := if new then Some now else largestObservedReceivedTime h;
  packetHistory := packetHistory h; ackSendDelay := ackSendDelay h;
  packetsReceivedSinceLastAck := packetsReceivedSinceLastAck h;
  retransmittablePacketsReceivedSinceLastAck := retransmittablePacketsReceivedSinceLastAck h;
  ackQueued := ackQueued h; ackAlarm := ackAlarm h; lastAck := lastAck h;
  version := version h; packets := u64 (packets h + 1)
|}.

(** The handler afterwards, and the error if there is one. *)
Definition handler_ReceivedPacket (h : receivedPacketHandler) (packetNumber : Z)
    (shouldInstigateAck : bool) (now : Z) : receivedPacketHandler * option AckError :=
  if decide (packetNumber = 0) then (h, Some errInvalidPacketNumber)
  else
    let h := observe h packetNumber now in
    if decide (packetNumber ≤ lowerLimit h) then (h, None)
    else
      match history_ReceivedPacket (packetHistory h) packetNumber with
      | Err e => (h, Some e)
      | Ok hist => (maybeQueueAck (set_history h (lowerLimit h) hist) packetNumber shouldInstigateAck now, None)
      end.

Definition SetLowerLimit (h : receivedPacketHandler) (p : Z) : receivedPacketHandler :=
  set_history h p (DeleteUpTo (packetHistory h) p).

(** No alarm is set, or it has not expired. *)
Definition alarm_pending (alarm : option Z) (now : Z) : bool :=
  match alarm with None => true | Some t => bool_decide (now < t) end.

(** [None] is a panic: [ackRanges[len(ackRanges)-1]] with no range. *)
Definition GetAckFrame (h : receivedPacketHandler) (now : Z) :
    option (receivedPacketHandler * option AckFrame) :=
  if negb (ackQueued h) && alarm_pending (ackAlarm h) now then Some (h, None)
  else
    let ackRanges := GetAckRanges (packetHistory h) in
    lowest ← last ackRanges;
    let ack := {| APathID := 0; LargestAcked := largestObserved h; LowestAcked := First lowest;
                  AckRanges := if decide (1 < zlen ackRanges) then ackRanges else [];
                  PacketReceivedTime := largestObservedReceivedTime h; DelayTime := 0 |} in
    Some ({| largestObserved := largestObserved h; lowerLimit := lowerLimit h;
             largestObservedReceivedTime := largestObservedReceivedTime h;
             packetHistory := packetHistory h; ackSendDelay := ackSendDelay h;
             packetsReceivedSinceLastAck := 0; retransmittablePacketsReceivedSinceLastAck := 0;
             ackQueued := false; ackAlarm := None; lastAck := Some ack;
             version := version h; packets := packets h |}, Some ack).

Record ClosePathFrame : Type := {
  CPathID : Z; CLargestAcked : Z; CLowestAcked : Z; CAckRanges : list AckRange
}.
Definition GetClosePathFrame (h : receivedPacketHandler) : option ClosePathFrame :=
  let ackRanges := GetAckRanges (packetHistory h) in
  lowest ← last ackRanges;
  Some {| CPathID := 0; CLargestAcked := largestObserved h; CLowestAcked := First lowest;
          CAckRanges := if decide (1 < zlen ackRanges) then ackRanges else [] |}.

(** * What the sender still waits for (stop_waiting_manager.go) *)

Record stopWaitingManager : Type := {
  largestLeastUnackedSent : Z; nextLeastUnacked : Z; lastStopWaitingFrame : option Z
}.

(** A STOP_WAITING frame here is its [LeastUnacked]; [None] is nil. *)
Definition GetStopWaitingFrame (s : stopWaitingManager) (force : bool) : stopWaitingManager * option Z :=
  if decide (nextLeastUnacked s ≤ largestLeastUnackedSent s) then
    if force then
      let lastFrame := match lastStopWaitingFrame s with
                       | None => if decide (0 < largestLeastUnackedSent s)
                                 then Some (nextLeastUnacked s) else None
                       | Some swf => Some swf
                       end in
      ({| largestLeastUnackedSent := largestLeastUnackedSent s;
          nextLeastUnacked := nextLeastUnacked s; lastStopWaitingFrame := lastFrame |}, lastFrame)
    else (s, None)
  else
    ({| largestLeastUnackedSent := nextLeastUnacked s; nextLeastUnacked := nextLeastUnacked s;
        lastStopWaitingFrame := Some (nextLeastUnacked s) |}, Some (nextLeastUnacked s)).

Definition raise_least (s : stopWaitingManager) (p : Z) : stopWaitingManager :=
  if decide (nextLeastUnacked s ≤ p) then
    {| largestLeastUnackedSent := largestLeastUnackedSent s; nextLeastUnacked := u64 (p + 1);
       lastStopWaitingFrame := lastStopWaitingFrame s |}
  else s.
Definition ReceivedAck (s : stopWaitingManager) (ack : AckFrame) : stopWaitingManager :=
  raise_least s (LargestAcked ack).
Definition QueuedRetransmissionForPacketNumber (s : stopWaitingManager) (p : Z) : stopWaitingManager :=
  raise_least s p.

Close Scope Z_scope.

(** * The history as a set *)

Definition in_interval (i : PacketInterval) (q : Z) : Prop := (PStart i ≤ q ≤ PEnd i)%Z.
Definition in_ranges (l : list PacketInterval) (q : Z) : Prop := Exists (λ i, in_interval i q) l.

Definition MaxPacketNumber : Z := (2 ^ 64 - 2)%Z.

(** Ordered, nonempty ranges that do not touch, from [lo] on. *)
Fixpoint canonical (lo : Z) (l : list PacketInterval) : Prop :=
  match l with
  | [] => True
  | i :: l => (lo ≤ PStart i)%Z ∧ (PStart i ≤ PEnd i)%Z ∧ (PEnd i ≤ MaxPacketNumber)%Z ∧
      canonical (PEnd i + 2) l
  end.

Definition next_from (lo : Z) (l : list PacketInterval) : Z :=
  match last l with Some i => (PEnd i + 2)%Z | None => lo end.

Lemma canonical_app lo a b : canonical lo (a ++ b) ↔ canonical lo a ∧ canonical (next_from lo a) b.
Proof.
  revert lo. induction a as [|i a IH]; intros lo; cbn [app canonical]; [tauto|].
  rewrite IH. replace (next_from lo (i :: a)) with (next_from (PEnd i + 2) a); [tauto|].
  unfold next_from. rewrite last_cons. by destruct (last a).
Qed.

Lemma canonical_mono lo lo' l : canonical lo l → (lo' ≤ lo)%Z → canonical lo' l.
Proof. destruct l; simpl; [done|]. intuition lia. Qed.

Lemma in_ranges_cons i l q : in_ranges (i :: l) q ↔ in_interval i q ∨ in_ranges l q.
Proof. apply Exists_cons. Qed.
Lemma in_ranges_app l l' q : in_ranges (l ++ l') q ↔ in_ranges l q ∨ in_ranges l' q.
Proof. apply Exists_app. Qed.
Lemma in_ranges_nil q : in_ranges [] q ↔ False.
Proof. apply Exists_nil. Qed.
Lemma in_ranges_reverse l q : in_ranges (reverse l) q ↔ in_ranges l q.
Proof.
  unfold in_ranges. rewrite !Exists_exists. by setoid_rewrite elem_of_reverse.
Qed.

Lemma canonical_lower lo l q : canonical lo l → in_ranges l q → (lo ≤ q ≤ MaxPacketNumber)%Z.
Proof.
  revert lo. induction l as [|i l IH]; intros lo; [by intros _ ?%in_ranges_nil|].
  intros (? & ? & ? & Hl) [Hq|Hq]%in_ranges_cons; [unfold in_interval in Hq; lia|].
  specialize (IH _ Hl Hq). lia.
Qed.

Lemma next_from_snoc lo i prevs : next_from lo (reverse (i :: prevs)) = (PEnd i + 2)%Z.
Proof. unfold next_from. by rewrite reverse_cons, last_snoc. Qed.

Lemma merge_prev_spec el prevs after :
  canonical 0 (reverse prevs) → (0 ≤ PStart el)%Z → (next_from 0 (reverse prevs) - 1 ≤ PStart el)%Z →
  (PStart el ≤ PEnd el ≤ MaxPacketNumber)%Z → canonical (PEnd el + 2) after →
  canonical 0 (merge_prev el prevs after) ∧
  ∀ q, in_ranges (merge_prev el prevs after) q ↔
    in_ranges prevs q ∨ in_interval el q ∨ in_ranges after q.
Proof.
  unfold MaxPacketNumber. intros Hc H0 Hn Hel Ha. destruct prevs as [|prev prevs]; cbn [merge_prev].
  { split; [cbn [canonical]; unfold MaxPacketNumber; split_and!; done || lia|].
    intros q. rewrite in_ranges_cons, in_ranges_nil. tauto. }
  rewrite next_from_snoc in Hn. pose proof Hc as Hc'. rewrite reverse_cons in Hc'.
  apply canonical_app in Hc' as [Hp (Hp1 & Hp2 & Hp3 & _)]. unfold MaxPacketNumber in Hp3.
  assert (0 ≤ PEnd prev)%Z as H0p.
  { apply (canonical_lower 0 (reverse (prev :: prevs))); [done|].
    apply in_ranges_reverse, in_ranges_cons. left. unfold in_interval. lia. }
  rewrite u64_small by lia. case_decide as E.
  - split.
    + apply canonical_app. split; [done|]. cbn [canonical PStart PEnd]. unfold MaxPacketNumber.
      split_and!; done || lia.
    + intros q. rewrite in_ranges_app, in_ranges_reverse, !in_ranges_cons. unfold in_interval.
      cbn [PStart PEnd]. assert (PStart prev ≤ q ≤ PEnd el ↔
        PStart prev ≤ q ≤ PEnd prev ∨ PStart el ≤ q ≤ PEnd el)%Z by lia. tauto.
  - split.
    + apply canonical_app. split; [done|]. rewrite next_from_snoc. cbn [canonical].
      unfold MaxPacketNumber. split_and!; done || lia.
    + intros q. rewrite in_ranges_app, in_ranges_reverse, !in_ranges_cons. tauto.
Qed.

Lemma insert_packet_spec p desc after :
  (0 ≤ p ≤ MaxPacketNumber)%Z → canonical 0 (reverse desc ++ after) → canonical (p + 2) after →
  canonical 0 (insert_packet p desc after) ∧
  ∀ q, in_ranges (insert_packet p desc after) q ↔
    in_ranges desc q ∨ in_ranges after q ∨ q = p.
Proof.
  intros Hp. unfold MaxPacketNumber in Hp. revert after.
  induction desc as [|el prevs IH]; intros after Hc Ha; cbn [insert_packet].
  { split; [cbn [canonical PStart PEnd]; unfold MaxPacketNumber; split_and!; done || lia|].
    intros q. rewrite in_ranges_cons, in_ranges_nil. unfold in_interval; cbn [PStart PEnd].
    assert (p ≤ q ≤ p ↔ q = p)%Z by lia. tauto. }
  pose proof Hc as Hc'. rewrite reverse_cons, <-app_assoc in Hc'.
  apply canonical_app in Hc' as [Hprevs (Hn & Hel & Hmax & Hafter)].
  assert (0 ≤ PStart el)%Z as H0.
  { apply (canonical_lower 0 (reverse (el :: prevs) ++ after)); [done|].
    apply in_ranges_app. left. apply in_ranges_reverse, in_ranges_cons. left. unfold in_interval. lia. }
  unfold MaxPacketNumber in Hmax.
  assert (∀ q, in_ranges (reverse (el :: prevs) ++ after) q ↔
    in_interval el q ∨ in_ranges prevs q ∨ in_ranges after q) as Hin.
  { intros q. rewrite in_ranges_app, in_ranges_reverse, in_ranges_cons. tauto. }
  case_decide as D1.
  { split; [done|]. intros q. rewrite Hin, in_ranges_cons. unfold in_interval. split; [tauto|].
    intros [[?|?]|[?| ->]]; tauto. }
  rewrite (u64_small (p + 1)) by lia.
  assert (PEnd el = u64 (p - 1) → PEnd el = p - 1)%Z as Hwrap.
  { destruct (decide (p = 0)%Z) as [->|]; [|by rewrite u64_small by lia].
    change (u64 (0 - 1)) with (2 ^ 64 - 1)%Z. lia. }
  case_decide as D2; [|case_decide as D3; [|case_decide as D4]].
  - apply Hwrap in D2.
    destruct (merge_prev_spec {| PStart := PStart el; PEnd := p |} prevs after) as [Hm Hq];
      unfold MaxPacketNumber; cbn [PStart PEnd]; try done; try lia.
    split; [done|]. intros q. rewrite Hq, in_ranges_cons. unfold in_interval; cbn [PStart PEnd].
    assert (PStart el ≤ q ≤ p ↔ PStart el ≤ q ≤ PEnd el ∨ q = p)%Z by lia. tauto.
  - destruct (merge_prev_spec {| PStart := p; PEnd := PEnd el |} prevs after) as [Hm Hq];
      unfold MaxPacketNumber; cbn [PStart PEnd]; try done; try lia.
    split; [done|]. intros q. rewrite Hq, in_ranges_cons. unfold in_interval; cbn [PStart PEnd].
    assert (p ≤ q ≤ PEnd el ↔ PStart el ≤ q ≤ PEnd el ∨ q = p)%Z by lia. tauto.
  - split.
    + apply canonical_app. rewrite next_from_snoc, reverse_cons, canonical_app.
      cbn [canonical PStart PEnd]. unfold MaxPacketNumber.
      assert (PEnd el ≠ p - 1)%Z.
      { intros E. apply D2. rewrite E. symmetry. apply u64_small. lia. }
      split_and!; done || lia.
    + intros q. rewrite in_ranges_app, in_ranges_reverse, !in_ranges_cons.
      unfold in_interval at 2; cbn [PStart PEnd]. assert (p ≤ q ≤ p ↔ q = p)%Z by lia. tauto.
  - destruct (IH (el :: after)) as [Hm Hq].
    + by rewrite reverse_cons, <-app_assoc in Hc.
    + cbn [canonical]. unfold MaxPacketNumber. split_and!; done || lia.
    + split; [done|]. intros q. rewrite Hq, !in_ranges_cons. tauto.
Qed.

Lemma delete_up_to_spec p lo l :
  (0 ≤ p)%Z → (0 ≤ lo)%Z → canonical lo l →
  canonical lo (delete_up_to p l) ∧
  ∀ q, in_ranges (delete_up_to p l) q ↔ in_ranges l q ∧ (p < q)%Z.
Proof.
  intros Hp. revert lo. induction l as [|i l IH]; intros lo Hlo Hc; cbn [delete_up_to].
  { split; [done|]. intros q. rewrite in_ranges_nil. tauto. }
  destruct Hc as (H1 & H2 & H3 & Hl). destruct (IH (PEnd i + 2)%Z) as [Hd Hq]; [lia|done|].
  unfold MaxPacketNumber in H3.
  assert (∀ q, in_ranges l q → PEnd i + 2 ≤ q)%Z as Hlow.
  { intros q Hin. apply (canonical_lower _ _ _ Hl) in Hin. lia. }
  case_decide as D1; [|case_decide as D2].
  - rewrite u64_small by lia. split.
    + cbn [canonical PStart PEnd]. unfold MaxPacketNumber. split_and!; done || lia.
    + intros q. rewrite !in_ranges_cons, Hq. unfold in_interval; cbn [PStart PEnd].
      assert (p + 1 ≤ q ≤ PEnd i ↔ PStart i ≤ q ≤ PEnd i ∧ p < q)%Z by lia. tauto.
  - split; [by eapply canonical_mono; [|]; [exact Hd|lia]|].
    intros q. rewrite Hq, in_ranges_cons. unfold in_interval.
    split; [tauto|]. intros [[?|?] ?]; [lia|tauto].
  - split; [by split_and!|]. intros q. rewrite in_ranges_cons. unfold in_interval.
    split; [|tauto]. intros [?|Hin]; [split; [tauto|lia]|]. specialize (Hlow q Hin). split; [tauto|lia].
Qed.

(** * ACK frames of a canonical history *)

Definition to_ack (i : PacketInterval) : AckRange := {| First := PStart i; Last := PEnd i |}.

Lemma canonical_forall lo l : canonical lo l → Forall (λ i, PStart i ≤ PEnd i ≤ MaxPacketNumber)%Z l.
Proof.
  revert lo. induction l as [|i l IH]; intros lo; [constructor|]. intros (? & ? & ? & Hl).
  constructor; [lia|by eapply IH].
Qed.

Lemma canonical_upper lo a r q :
  (0 ≤ lo)%Z → canonical lo (a ++ [r]) → in_ranges (a ++ [r]) q → (q ≤ PEnd r)%Z.
Proof.
  intros Hlo Hc [Hq|Hq]%in_ranges_app.
  - apply canonical_app in Hc as [Ha (Hr & Hr' & _)]. revert lo Hlo Ha Hr.
    induction a as [|i a IH]; intros lo Hlo Ha Hr; [by apply in_ranges_nil in Hq|].
    destruct Ha as (? & ? & ? & Ha).
    replace (next_from lo (i :: a)) with (next_from (PEnd i + 2) a) in Hr
      by (unfold next_from; rewrite last_cons; by destruct (last a)).
    apply in_ranges_cons in Hq as [Hq|Hq]; [|by eapply (IH Hq (PEnd i + 2)%Z); [lia|..]].
    assert (PEnd i + 2 ≤ next_from (PEnd i + 2) a)%Z; [|unfold in_interval in Hq; lia].
    clear -Ha. destruct a as [|j a _] using rev_ind; [done|].
    unfold next_from. rewrite last_snoc. pose proof Ha as Hcan.
    apply canonical_app in Ha as [Ha (Hj & ? & _)].
    assert (in_ranges (a ++ [j]) (PEnd j)) as Hin.
    { apply in_ranges_app. right. apply in_ranges_cons. left. unfold in_interval. lia. }
    pose proof (canonical_lower _ _ _ Hcan Hin). lia.
  - apply in_ranges_cons in Hq as [Hq|Hq]; [unfold in_interval in Hq; lia|by apply in_ranges_nil in Hq].
Qed.

Lemma consistent_canonical d ds :
  canonical 0 (reverse (d :: ds)) → consistent_after (to_ack d) (to_ack <$> ds) = true.
Proof.
  revert d. induction ds as [|e ds IH]; intros d Hc; [done|]. cbn [fmap list_fmap consistent_after].
  rewrite reverse_cons in Hc. apply canonical_app in Hc as [Hc (Hd & Hd' & Hm & _)].
  rewrite next_from_snoc in Hd. pose proof (canonical_forall _ _ Hc) as Hf.
  rewrite reverse_cons, Forall_app, Forall_singleton in Hf. destruct Hf as [_ He].
  assert (0 ≤ PStart e)%Z as H0.
  { apply (canonical_lower _ _ _ Hc). apply in_ranges_reverse, in_ranges_cons. left. unfold in_interval. lia. }
  unfold MaxPacketNumber in *. cbn [to_ack First Last].
  rewrite u64_small, !decide_False by lia. by apply IH.
Qed.

(** The ACK frame [GetAckFrame] builds from the ranges [l]. *)
Definition ack_of (l : list PacketInterval) (largest lowest : Z) (time : option Z) : AckFrame :=
  let rs := to_ack <$> reverse l in {|
  APathID := 0; LargestAcked := largest; LowestAcked := lowest;
  AckRanges := if decide (1 < zlen rs)%Z then rs else []; PacketReceivedTime := time; DelayTime := 0
|}.

Lemma existsb_ranges l q :
  existsb (λ r, bool_decide (First r ≤ q ∧ q ≤ Last r)%Z) (to_ack <$> reverse l) = true ↔ in_ranges l q.
Proof.
  rewrite <-in_ranges_reverse. unfold in_ranges. rewrite existsb_exists, Exists_exists. split.
  - intros (r & Hr%list_elem_of_In & Hq%bool_decide_eq_true).
    apply list_elem_of_fmap in Hr as (i & -> & Hi). by exists i.
  - intros (i & Hi & Hq). exists (to_ack i). split; [|by apply bool_decide_eq_true].
    apply list_elem_of_In, list_elem_of_fmap. by exists i.
Qed.

Lemma ack_of_spec r0 rest largest time :
  let l := r0 :: rest in
  canonical 0 l → in_ranges l largest → (∀ q, in_ranges l q → q ≤ largest)%Z →
  validateAckRanges (ack_of l largest (PStart r0) time) = true ∧
  ∀ q, AcksPacket (ack_of l largest (PStart r0) time) q = true ↔ in_ranges l q.
Proof.
  intros l Hc Hl Hmax. pose proof Hc as (Hr1 & Hr2 & Hr3 & Hrest).
  assert (∀ q, in_ranges l q → PStart r0 ≤ q)%Z as Hlow.
  { intros q Hq. apply (canonical_lower (PStart r0) l q); [by split_and!|done]. }
  unfold AcksPacket, validateAckRanges, HasMissingRanges, ack_of. cbn [AckRanges LowestAcked LargestAcked].
  assert (zlen (to_ack <$> reverse l) = 1 + zlen rest)%Z as Hlen.
  { unfold zlen, l. rewrite length_fmap, length_reverse. simpl. lia. }
  rewrite Hlen. pose proof (zlen_nonneg rest). destruct (decide (1 < 1 + zlen rest)%Z) as [Hm|Hm].
  - split.
    + destruct (reverse l) as [|x ds] eqn:El.
      { apply (f_equal reverse) in El. by rewrite reverse_involutive in El. }
      cbn [fmap list_fmap]. rewrite decide_False by (cbn [fmap list_fmap] in Hlen; lia).
      assert (l = reverse ds ++ [x]) as Ex by (by rewrite <-(reverse_involutive l), El, reverse_cons).
      pose proof (canonical_forall _ _ Hc) as Hf.
      assert (in_ranges l (PEnd x)) as Hx.
      { rewrite Ex in Hf |- *. apply Forall_app in Hf as [_ Hf]. apply Forall_singleton in Hf as [? _].
        apply in_ranges_app. right. apply in_ranges_cons. left. unfold in_interval. lia. }
      assert (PEnd x = largest) as Elast.
      { specialize (Hmax _ Hx). rewrite Ex in Hc, Hl. apply (canonical_upper 0) in Hl; [lia|lia|done]. }
      cbn [to_ack Last]. rewrite decide_False by (intros []; exact Elast).
      assert (existsb (λ r, bool_decide (Last r < First r)%Z) (to_ack x :: (to_ack <$> ds)) = false) as ->.
      { change (to_ack x :: (to_ack <$> ds)) with (to_ack <$> (x :: ds)). rewrite <-El.
        apply not_true_is_false. intros (r & Hr%list_elem_of_In & Hq%bool_decide_eq_true)%existsb_exists.
        apply list_elem_of_fmap in Hr as (i & -> & Hi). rewrite elem_of_reverse in Hi.
        rewrite Forall_forall in Hf. specialize (Hf i Hi). cbn [to_ack First Last] in Hq. lia. }
      apply consistent_canonical. by rewrite <-El, reverse_involutive.
    + intros q. rewrite bool_decide_true by (rewrite Hlen; lia). case_decide as Hq.
      * split; [done|]. intros Hin. specialize (Hlow q Hin). specialize (Hmax q Hin). lia.
      * apply existsb_ranges.
  - assert (rest = []) as -> by (destruct rest; [done|rewrite zlen_cons in Hm; pose proof (zlen_nonneg rest); lia]).
    split; [done|]. intros q. rewrite bool_decide_false by done.
    assert (in_ranges l (PEnd r0)) as Hx.
    { apply in_ranges_cons. left. unfold in_interval. lia. }
    assert (in_ranges l q ↔ PStart r0 ≤ q ≤ PEnd r0)%Z as ->.
    { unfold l. rewrite in_ranges_cons, in_ranges_nil. unfold in_interval. tauto. }
    assert (PEnd r0 = largest) as <-.
    { specialize (Hmax _ Hx). apply in_ranges_cons in Hl as [Hl|Hl%in_ranges_nil]; [|done].
      unfold in_interval in Hl. lia. }
    case_decide; rewrite ?bool_decide_eq_true; [split; [done|lia]|done].
Qed.

(** * The abstract receiver *)

(** The packet numbers to acknowledge, the limit and the largest number seen. *)
Record receiver : Type := { rv_acked : gset Z; rv_limit : Z; rv_largest : Z }.

Definition new_receiver : receiver := {| rv_acked := ∅; rv_limit := 0; rv_largest := 0 |}.
Definition rv_receive (r : receiver) (p : Z) : receiver := {|
  rv_acked := if decide (p ≤ rv_limit r)%Z then rv_acked r else {[p]} ∪ rv_acked r;
  rv_limit := rv_limit r; rv_largest := Z.max (rv_largest r) p
|}.
Definition rv_raise (r : receiver) (p : Z) : receiver := {|
  rv_acked := filter (λ q, (p < q)%Z) (rv_acked r); rv_limit := p; rv_largest := rv_largest r
|}.

Inductive receiver_op : Type :=
| OpReceived (packetNumber : Z) (shouldInstigateAck : bool) (now : Z)
| OpLimit (p : Z)
| OpGetAck (now : Z).

Definition rv_step (r : receiver) (o : receiver_op) : receiver :=
  match o with OpReceived p _ _ => rv_receive r p | OpLimit p => rv_raise r p | OpGetAck _ => r end.

(** The runs of consecutive numbers of a set, counted by their ends. *)
Definition runs (numbers : gset Z) : nat := size (filter (λ q, (q + 1)%Z ∉ numbers) numbers).
(** There is no room for a number above the limit, not even for one that is there, beside 2500 runs. *)
Definition refused (r : receiver) (o : receiver_op) : bool :=
  match o with OpReceived p _ _ => bool_decide (rv_limit r < p)%Z && bool_decide (2500 ≤ runs (rv_acked r)) | _ => false end.
Fixpoint rv_run (r : receiver) (os : list receiver_op) : option receiver :=
  match os with
  | [] => Some r
  | o :: os => if refused r o then None else rv_run (rv_step r o) os
  end.

(** Packet numbers are positive; a limit comes from a STOP_WAITING frame of a
    packet that was received, so it is below the largest number seen. *)
Definition op_ok (r : receiver) (o : receiver_op) : Prop :=
  match o with
  | OpReceived p _ _ => (0 < p ≤ MaxPacketNumber)%Z
  | OpLimit p => (0 ≤ p < rv_largest r)%Z
  | OpGetAck _ => True
  end.
Fixpoint ops_ok (r : receiver) (os : list receiver_op) : Prop :=
  match os with [] => True | o :: os => op_ok r o ∧ ops_ok (rv_step r o) os end.

(** The handler's run: [None] is a panic. *)
Fixpoint handler_run (h : receivedPacketHandler) (os : list receiver_op) :
    option (result AckError receivedPacketHandler) :=
  match os with
  | [] => Some (Ok h)
  | OpReceived p b now :: os =>
      match handler_ReceivedPacket h p b now with
      | (h, None) => handler_run h os
      | (_, Some e) => Some (Err e)
      end
  | OpLimit p :: os => handler_run (SetLowerLimit h p) os
  | OpGetAck now :: os => r ← GetAckFrame h now; handler_run r.1 os
  end.

Record refines (h : receivedPacketHandler) (r : receiver) : Prop := {
  rf_canonical : canonical 0 (ranges (packetHistory h));
  rf_acked q : in_ranges (ranges (packetHistory h)) q ↔ q ∈ rv_acked r;
  rf_limit : lowerLimit h = rv_limit r;
  rf_largest : largestObserved h = rv_largest r;
  rf_bounds : (0 ≤ rv_limit r ∧ 0 ≤ rv_largest r)%Z;
  rf_below : (rv_limit r = 0 ∨ rv_limit r < rv_largest r)%Z;
  rf_upper q : q ∈ rv_acked r → (q ≤ rv_largest r)%Z;
  rf_idle : rv_largest r ∈ rv_acked r ∨
    (rv_largest r = 0 ∧ rv_acked r = ∅ ∧ ackQueued h = false ∧ ackAlarm h = None)%Z
}.

Lemma refines_new v : refines (NewReceivedPacketHandler v) new_receiver.
Proof.
  split; cbn; try done.
  - intros q. rewrite in_ranges_nil. set_solver.
  - by left.
  - by right.
Qed.

(** The history has a range for each run. *)
Lemma canonical_ends lo l :
  canonical lo l → NoDup (PEnd <$> l) ∧ ∀ q, q ∈ PEnd <$> l ↔ in_ranges l q ∧ ¬ in_ranges l (q + 1)%Z.
Proof.
  revert lo. induction l as [|i l IH]; intros lo.
  - intros _. split; [constructor|]. intros q. split; [by intros ?%not_elem_of_nil|by intros [?%in_ranges_nil _]].
  - cbn [canonical]. intros (H1 & H2 & H3 & Hl). destruct (IH _ Hl) as [Hnd Hends]. rewrite fmap_cons.
    assert (∀ q, in_ranges l q → PEnd i + 2 ≤ q)%Z as Hafter by (intros q Hq; by destruct (canonical_lower _ _ _ Hl Hq)).
    split.
    + constructor; [|done]. rewrite Hends. intros [Hq%Hafter _]. lia.
    + intros q. rewrite elem_of_cons, Hends, !in_ranges_cons. unfold in_interval. split.
      * intros [->|[Hq Hn]]; (split; [lia || tauto|]); intros [?|?]; [lia|specialize (Hafter (PEnd i + 1)%Z); naive_solver lia| |done].
        specialize (Hafter q Hq). lia.
      * intros [[Hq|Hq] Hn]; [left|right; tauto]. destruct (decide (q = PEnd i)) as [->|]; [done|]. destruct Hn. left. lia.
Qed.
Lemma ranges_runs l s : canonical 0 l → (∀ q, in_ranges l q ↔ q ∈ s) → length l = runs s.
Proof.
  intros Hc Hq. destruct (canonical_ends 0 l Hc) as [Hnd Hends]. unfold runs.
  rewrite <-(length_fmap PEnd l), <-(size_list_to_set (C := gset Z) (PEnd <$> l)) by done. f_equal. apply set_eq. intros q.
  by rewrite elem_of_list_to_set, Hends, elem_of_filter, !Hq, (comm and).
Qed.

Lemma history_ReceivedPacket_spec h p :
  canonical 0 (ranges h) → (0 ≤ p ≤ MaxPacketNumber)%Z →
  if decide (2500 ≤ length (ranges h)) then history_ReceivedPacket h p = Err errTooManyOutstandingReceivedAckRanges
  else ∃ h', history_ReceivedPacket h p = Ok h' ∧ canonical 0 (ranges h') ∧
    ∀ q, in_ranges (ranges h') q ↔ in_ranges (ranges h) q ∨ q = p.
Proof.
  intros Hc Hp. unfold history_ReceivedPacket, MaxTrackedReceivedAckRanges.
  assert (2500 ≤ length (ranges h) ↔ (2500 ≤ zlen (ranges h))%Z) as Hfull by (unfold zlen; lia).
  destruct (decide (2500 ≤ length (ranges h))) as [Hn|Hn]; rewrite Hfull in Hn; [by rewrite decide_True|rewrite decide_False by done].
  eexists. split; [done|]. cbn [ranges]. case_decide as Hz.
  - assert (ranges h = []) as ->.
    { destruct (ranges h); [done|]. rewrite zlen_cons in Hz. pose proof (zlen_nonneg l). lia. }
    split; [cbn [canonical PStart PEnd]; by split_and!; [lia..|]|].
    intros q. rewrite in_ranges_cons, in_ranges_nil. unfold in_interval; cbn. lia.
  - destruct (insert_packet_spec p (reverse (ranges h)) []) as [Hc' Hq];
      [done|by rewrite reverse_involutive, app_nil_r|done|].
    split; [done|]. intros q. rewrite Hq, in_ranges_reverse, in_ranges_nil. tauto.
Qed.

Lemma maybeQueueAck_frame h p b now :
  let h' := maybeQueueAck h p b now in
  packetHistory h' = packetHistory h ∧ lowerLimit h' = lowerLimit h ∧
  largestObserved h' = largestObserved h.
Proof. unfold maybeQueueAck. cbv zeta. by destruct (if _ && _ then _ else _) as [? ?]. Qed.

Lemma refines_received h r p b now :
  refines h r → (0 < p ≤ MaxPacketNumber)%Z →
  if refused r (OpReceived p b now) then
    handler_ReceivedPacket h p b now = (observe h p now, Some errTooManyOutstandingReceivedAckRanges)
  else ∃ h', handler_ReceivedPacket h p b now = (h', None) ∧ refines h' (rv_receive r p).
Proof.
  intros [Hc Hq Hl Ho Hb Hbelow Hup Hidle] Hp. unfold handler_ReceivedPacket.
  rewrite decide_False by lia.
  assert (largestObserved (observe h p now) = Z.max (rv_largest r) p) as Ho'.
  { cbn [observe largestObserved]. rewrite Ho. case_bool_decide; lia. }
  cbn [observe lowerLimit packetHistory]. rewrite Hl. cbn [refused]. case_decide as Hlim.
  - rewrite bool_decide_false by lia. eexists. split; [done|]. assert (Z.max (rv_largest r) p = rv_largest r) as Em by lia.
    unfold rv_receive. rewrite decide_True by done.
    split; cbn [rv_acked rv_limit rv_largest]; try done; rewrite ?Em; try done.
  - rewrite bool_decide_true by lia. cbn [andb].
    pose proof (history_ReceivedPacket_spec (packetHistory h) p Hc ltac:(lia)) as Hspec. rewrite (ranges_runs _ _ Hc Hq) in Hspec.
    case_bool_decide as Hn; case_decide; try done; [by rewrite Hspec|]. destruct Hspec as (hist & -> & Hc' & Hq').
    eexists. split; [done|].
    destruct (maybeQueueAck_frame (set_history (observe h p now) (rv_limit r) hist) p b now)
      as (Eh & El & Eo).
    unfold rv_receive. rewrite decide_False by done.
    split; cbn [rv_acked rv_limit rv_largest]; rewrite ?Eh, ?El, ?Eo; cbn [set_history packetHistory]; try done.
    + intros q. rewrite Hq', Hq. set_solver.
    + lia.
    + lia.
    + intros q [->%elem_of_singleton|Hin]%elem_of_union; [lia|]. apply Hup in Hin. lia.
    + left. destruct (decide (rv_largest r < p)%Z) as [Hlt|Hge].
      * replace (Z.max (rv_largest r) p) with p by lia. set_solver.
      * replace (Z.max (rv_largest r) p) with (rv_largest r) by lia.
        destruct Hidle as [?|(? & _)]; [set_solver|lia].
Qed.

Lemma refines_limit h r p :
  refines h r → (0 ≤ p < rv_largest r)%Z → refines (SetLowerLimit h p) (rv_raise r p).
Proof.
  intros [Hc Hq Hl Ho Hb Hbelow Hup Hidle] Hp.
  destruct (delete_up_to_spec p 0 (ranges (packetHistory h))) as [Hc' Hq']; [lia|done|done|].
  split; cbn [SetLowerLimit set_history DeleteUpTo packetHistory ranges lowerLimit largestObserved
    rv_raise rv_acked rv_limit rv_largest]; try done.
  - intros q. rewrite Hq', Hq, elem_of_filter. tauto.
  - lia.
  - lia.
  - intros q [_ Hin]%elem_of_filter. by apply Hup.
  - left. apply elem_of_filter. split; [lia|]. destruct Hidle as [?|(? & _)]; [done|lia].
Qed.

(** An ACK frame for exactly the numbers of [r], which the peer's parser accepts. *)
Definition ack_exact (f : AckFrame) (r : receiver) : Prop :=
  validateAckRanges f = true ∧ LargestAcked f = rv_largest r ∧
  ∀ q, AcksPacket f q = true ↔ q ∈ rv_acked r.

Lemma refines_get_ack h r now :
  refines h r →
  ∃ h' f, GetAckFrame h now = Some (h', f) ∧ refines h' r ∧
    (∀ a, f = Some a → ack_exact a r) ∧ (ackQueued h = true → is_Some f).
Proof.
  intros Hr. pose proof Hr as [Hc Hq Hl Ho Hb Hbelow Hup Hidle]. unfold GetAckFrame.
  destruct (negb (ackQueued h) && alarm_pending (ackAlarm h) now) eqn:Hpend.
  { eexists _, _. split; [done|]. split; [done|]. split; [done|]. intros E. by rewrite E in Hpend. }
  assert (rv_largest r ∈ rv_acked r) as Hin.
  { destruct Hidle as [?|(_ & _ & E1 & E2)]; [done|]. by rewrite E1, E2 in Hpend. }
  apply Hq in Hin. unfold GetAckRanges. fold to_ack.
  destruct (ranges (packetHistory h)) as [|r0 rest] eqn:Er; [by apply in_ranges_nil in Hin|].
  destruct (ack_of_spec r0 rest (rv_largest r) (largestObservedReceivedTime h)) as [Hv Ha];
    [done|done|intros q ?%Hq; by apply Hup|].
  change (λ i, {| First := PStart i; Last := PEnd i |}) with to_ack.
  assert (last (to_ack <$> reverse (r0 :: rest)) = Some (to_ack r0)) as Hlast.
  { rewrite reverse_cons, fmap_app. apply last_snoc. }
  rewrite Hlast. cbn [mbind option_bind]. rewrite Ho. eexists _, _. split; [done|].
  split; [|split; [|done]].
  - split; cbn [packetHistory lowerLimit largestObserved ackQueued ackAlarm]; try done; [by rewrite Er| |].
    + intros q. rewrite Er. apply Hq.
    + left. by apply Hq.
  - intros a [= <-]. split; [exact Hv|]. split; [done|]. intros q. rewrite <-Hq. apply Ha.
Qed.

Lemma handler_run_spec os h r :
  refines h r → ops_ok r os →
  match rv_run r os with
  | None => handler_run h os = Some (Err errTooManyOutstandingReceivedAckRanges)
  | Some r' => ∃ h', handler_run h os = Some (Ok h') ∧ refines h' r'
  end.
Proof.
  revert h r. induction os as [|[p b now|p|now] os IH]; intros h r Hr; [by exists h|..];
    intros [Hop Hops]; cbn [handler_run rv_run].
  - pose proof (refines_received h r p b now Hr Hop) as Hrec. destruct (refused r _); [by rewrite Hrec|].
    destruct Hrec as (h' & -> & Hr'). by apply IH.
  - apply IH; [by apply refines_limit|done].
  - destruct (refines_get_ack h r now Hr) as (h' & f & -> & Hr' & _). cbn [mbind option_bind fst]. by apply IH.
Qed.

Lemma rv_run_steps r os r' : rv_run r os = Some r' → r' = foldl rv_step r os.
Proof.
  revert r. induction os as [|o os IH]; intros r; cbn [rv_run foldl]; [by intros [= ->]|]. destruct (refused r o); [done|apply IH].
Qed.
Lemma handler_run_refines os h r h' :
  refines h r → ops_ok r os → handler_run h os = Some (Ok h') → refines h' (foldl rv_step r os).
Proof.
  intros Hr Hos Hrun. pose proof (handler_run_spec os h r Hr Hos) as Hspec. destruct (rv_run r os) as [r'|] eqn:E; [|congruence].
  destruct Hspec as (h1 & Hrun1 & Hr1). apply rv_run_steps in E as <-. congruence.
Qed.

(** * Properties *)

(** C11: the handler implements the set of packet numbers to acknowledge:
    whatever was received, limited and acknowledged before, asking for an ACK does
    not panic, and a frame it returns acknowledges exactly the numbers received
    above the limit, is one the peer's parser accepts, and is returned when an ACK
    is queued.  The one error comes up exactly when a number above the limit is
    received while the set has 2500 runs of consecutive numbers. *)
Theorem ack_frames_exact v os :
  ops_ok new_receiver os →
  match rv_run new_receiver os with
  | None => handler_run (NewReceivedPacketHandler v) os = Some (Err errTooManyOutstandingReceivedAckRanges)
  | Some r => ∃ h, handler_run (NewReceivedPacketHandler v) os = Some (Ok h) ∧
      ∀ now, ∃ h' f, GetAckFrame h now = Some (h', f) ∧
        (∀ a, f = Some a → ack_exact a r) ∧ (ackQueued h = true → is_Some f)
  end.
Proof.
  intros Hos. pose proof (handler_run_spec os _ _ (refines_new v) Hos) as Hrun.
  destruct (rv_run new_receiver os) as [r|]; [|done]. destruct Hrun as (h & Hh & Hr).
  exists h. split; [done|]. intros now.
  destruct (refines_get_ack h _ now Hr) as (h' & f & ? & _ & ? & ?). by exists h', f.
Qed.

Definition sample_ops : list receiver_op :=
  [OpReceived 1 true 0; OpGetAck 10; OpReceived 4 true 20; OpReceived 2 false 30; OpLimit 1;
   OpReceived 1 true 40].

Lemma ack_frames_exact_witness :
  ∃ h r, handler_run (NewReceivedPacketHandler 39) sample_ops = Some (Ok h) ∧ rv_acked r = {[2; 4]}%Z ∧
    ∀ now, ∃ h' f, GetAckFrame h now = Some (h', f) ∧ (∀ a, f = Some a → ack_exact a r) ∧ (ackQueued h = true → is_Some f).
Proof.
  assert (match rv_run new_receiver sample_ops with Some r => rv_acked r = {[2; 4]}%Z | None => False end) as Hr by by vm_compute.
  pose proof (ack_frames_exact 39 sample_ops) as T. destruct (rv_run new_receiver sample_ops) as [r|]; [|destruct Hr].
  destruct T as (h & Hh & Hack); [repeat split; by vm_compute|]. exists h, r. split; [exact Hh|]. by split.
Defined.
