(* ===== verification/FlowControl.v ===== *)
(** Flow control (src/mp-quic/internal/flowcontrol/flow_controller.go and
    flow_control_manager.go).

    A controller per stream and one for the connection count what was sent, what
    was received and what was read.  [time.Now], the smoothed RTT and the RTTs of
    the remote paths, which the code reads through pointers, are the argument
    [env]; the connection parameters are the argument [cp].  Calls take the
    manager's mutex, so they are steps of one state. *)

From Stdlib Require Import ZArith Lia.
From stdpp Require Import prelude numbers list gmap.
From S2P Require Import Prelude.

Open Scope Z_scope.

Record ConnectionParameters : Type := {
  GetSendStreamFlowControlWindow : Z;
  GetSendConnectionFlowControlWindow : Z;
  GetReceiveStreamFlowControlWindow : Z;
  GetReceiveConnectionFlowControlWindow : Z;
  GetMaxReceiveStreamFlowControlWindow : Z;
  GetMaxReceiveConnectionFlowControlWindow : Z
}.

Record environment : Type := { env_now : Z; SmoothedRTT : Z; remoteRTTs : gmap Z Z }.

Inductive FlowError : Type :=
| errMapAccess
| ErrReceivedSmallerByteOffset
| StreamDataAfterTermination
| FlowControlReceivedTooMuchData.

(** * One controller *)

Record flowController : Type := {
  streamID : Z;
  contributesToConnection : bool;
  bytesSent : Z;
  sendWindow : Z;
  bytesRetrans : Z;
  lastWindowUpdateTime : option Z;
  bytesRead : Z;
  highestReceived : Z;
  receiveWindow : Z;
  receiveWindowIncrement : Z;
  maxReceiveWindowIncrement : Z
}.

Definition newFlowController (cp : ConnectionParameters) (id : Z) (contributes : bool) : flowController :=
  let window := if decide (id = 0) then GetReceiveConnectionFlowControlWindow cp
                else GetReceiveStreamFlowControlWindow cp in
  let maximum := if decide (id = 0) then GetMaxReceiveConnectionFlowControlWindow cp
                 else GetMaxReceiveStreamFlowControlWindow cp in {|
  streamID := id; contributesToConnection := contributes;
  bytesSent := 0; sendWindow := 0; bytesRetrans := 0; lastWindowUpdateTime := None;
  bytesRead := 0; highestReceived := 0;
  receiveWindow := window; receiveWindowIncrement := window; maxReceiveWindowIncrement := maximum
|}.

(** The fields of the sending side and of the receiving side. *)
Definition set_send (c : flowController) (sent window retrans : Z) : flowController := {|
  streamID := streamID c; contributesToConnection := contributesToConnection c;
  bytesSent := sent; sendWindow := window; bytesRetrans := retrans;
  lastWindowUpdateTime := lastWindowUpdateTime c; bytesRead := bytesRead c;
  highestReceived := highestReceived c; receiveWindow := receiveWindow c;
  receiveWindowIncrement := receiveWindowIncrement c;
  maxReceiveWindowIncrement := maxReceiveWindowIncrement c
|}.
Definition set_receive (c : flowController) (time : option Z) (read highest window increment : Z) :
    flowController := {|
  streamID := streamID c; contributesToConnection := contributesToConnection c;
  bytesSent := bytesSent c; sendWindow := sendWindow c; bytesRetrans := bytesRetrans c;
  lastWindowUpdateTime := time; bytesRead := read; highestReceived := highest;
  receiveWindow := window; receiveWindowIncrement := increment;
  maxReceiveWindowIncrement := maxReceiveWindowIncrement c
|}.

Definition initialSendWindow (cp : ConnectionParameters) (c : flowController) : Z :=
  if decide (streamID c = 0) then GetSendConnectionFlowControlWindow cp
  else GetSendStreamFlowControlWindow cp.
Definition getSendWindow (cp : ConnectionParameters) (c : flowController) : Z :=
  if decide (sendWindow c = 0) then initialSendWindow cp c else sendWindow c.

Definition fc_AddBytesSent (c : flowController) (n : Z) : flowController :=
  set_send c (u64 (bytesSent c + n)) (sendWindow c) (bytesRetrans c).
Definition fc_AddBytesRetrans (c : flowController) (n : Z) : flowController :=
  set_send c (bytesSent c) (sendWindow c) (u64 (bytesRetrans c + n)).

Definition UpdateSendWindow (c : flowController) (newOffset : Z) : flowController * bool :=
  if decide (sendWindow c < newOffset)
  then (set_send c (bytesSent c) newOffset (bytesRetrans c), true) else (c, false).

Definition fc_SendWindowSize (cp : ConnectionParameters) (c : flowController) : Z :=
  let w := getSendWindow cp c in
  if decide (w < bytesSent c) then 0 else u64 (w - bytesSent c).
Definition SendWindowOffset (cp : ConnectionParameters) (c : flowController) : Z := getSendWindow cp c.

Definition set_highest (c : flowController) (highest : Z) : flowController :=
  set_receive c (lastWindowUpdateTime c) (bytesRead c) highest (receiveWindow c) (receiveWindowIncrement c).

Definition fc_UpdateHighestReceived (c : flowController) (byteOffset : Z) :
    flowController * result FlowError Z :=
  if decide (byteOffset = highestReceived c) then (c, Ok 0)
  else if decide (highestReceived c < byteOffset) then
    (set_highest c byteOffset, Ok (u64 (byteOffset - highestReceived c)))
  else (c, Err ErrReceivedSmallerByteOffset).

Definition IncrementHighestReceived (c : flowController) (increment : Z) : flowController :=
  set_highest c (u64 (highestReceived c + increment)).

Definition fc_AddBytesRead (env : environment) (c : flowController) (n : Z) : flowController :=
  set_receive c (if decide (bytesRead c = 0) then Some (env_now env) else lastWindowUpdateTime c)
    (u64 (bytesRead c + n)) (highestReceived c) (receiveWindow c) (receiveWindowIncrement c).

Definition maxRemoteRTT (env : environment) : Z :=
  map_fold (λ _ rtt m, if decide (rtt < m) then m else rtt) 0 (remoteRTTs env).

Definition maybeAdjustWindowIncrement (env : environment) (c : flowController) : Z :=
  match lastWindowUpdateTime c with
  | None => receiveWindowIncrement c
  | Some t =>
      let rtt := SmoothedRTT env in
      if decide (rtt = 0) then receiveWindowIncrement c
      else if decide (i64 (2 * Z.max rtt (maxRemoteRTT env)) ≤ env_now env - t) then receiveWindowIncrement c
      else Z.min (u64 (2 * receiveWindowIncrement c)) (maxReceiveWindowIncrement c)
  end.

(** Whether the window was updated, the new increment and the new offset. *)
Definition MaybeUpdateWindow (env : environment) (c : flowController) :
    flowController * (bool * Z * Z) :=
  let diff := u64 (receiveWindow c - bytesRead c) in
  if decide (diff < receiveWindowIncrement c / 2) then
    let increment := maybeAdjustWindowIncrement env c in
    let newWindowIncrement := if decide (increment ≠ receiveWindowIncrement c) then increment else 0 in
    let window := u64 (bytesRead c + increment) in
    (set_receive c (Some (env_now env)) (bytesRead c) (highestReceived c) window increment,
     (true, newWindowIncrement, window))
  else (c, (false, receiveWindowIncrement c, receiveWindow c)).

Definition EnsureMinimumWindowIncrement (c : flowController) (inc : Z) : flowController :=
  if decide (receiveWindowIncrement c < inc) then
    set_receive c None (bytesRead c) (highestReceived c) (receiveWindow c)
      (Z.min inc (maxReceiveWindowIncrement c))
  else c.

Definition CheckFlowControlViolation (c : flowController) : bool :=
  bool_decide (receiveWindow c < highestReceived c).

(** * The manager *)

Record flowControlManager : Type := {
  streamFlowController : gmap Z flowController;
  connFlowController : flowController
}.

Definition NewFlowControlManager (cp : ConnectionParameters) : flowControlManager := {|
  streamFlowController := ∅; connFlowController := newFlowController cp 0 false
|}.

Definition set_stream (f : flowControlManager) (id : Z) (c : flowController) : flowControlManager := {|
  streamFlowController := <[id := c]> (streamFlowController f);
  connFlowController := connFlowController f
|}.
Definition set_conn (f : flowControlManager) (c : flowController) : flowControlManager := {|
  streamFlowController := streamFlowController f; connFlowController := c
|}.
Definition getFlowController (f : flowControlManager) (id : Z) : result FlowError flowController :=
  match streamFlowController f !! id with Some c => Ok c | None => Err errMapAccess end.

Definition NewStream (cp : ConnectionParameters) (f : flowControlManager) (id : Z) (contributes : bool) :
    flowControlManager :=
  match streamFlowController f !! id with
  | Some _ => f
  | None => set_stream f id (newFlowController cp id contributes)
  end.
Definition RemoveStream (f : flowControlManager) (id : Z) : flowControlManager := {|
  streamFlowController := delete id (streamFlowController f);
  connFlowController := connFlowController f
|}.

(** What [ResetStream] and [UpdateHighestReceived] share: the violation checks of
    the stream and, with the increment added, of the connection. *)
Definition check_and_count (f : flowControlManager) (id : Z) (c : flowController) (increment : Z) :
    flowControlManager * option FlowError :=
  let f := set_stream f id c in
  if CheckFlowControlViolation c then (f, Some FlowControlReceivedTooMuchData)
  else if contributesToConnection c then
    let conn := IncrementHighestReceived (connFlowController f) increment in
    let f := set_conn f conn in
    if CheckFlowControlViolation conn then (f, Some FlowControlReceivedTooMuchData) else (f, None)
  else (f, None).

Definition ResetStream (f : flowControlManager) (id byteOffset : Z) :
    flowControlManager * option FlowError :=
  match getFlowController f id with
  | Err e => (f, Some e)
  | Ok c =>
      match fc_UpdateHighestReceived c byteOffset with
      | (c, Err _) => (set_stream f id c, Some StreamDataAfterTermination)
      | (c, Ok increment) => check_and_count f id c increment
      end
  end.

(** Reordered frames are no error here: the increment is then 0. *)
Definition UpdateHighestReceived (f : flowControlManager) (id byteOffset : Z) :
    flowControlManager * option FlowError :=
  match getFlowController f id with
  | Err e => (f, Some e)
  | Ok c =>
      let '(c, r) := fc_UpdateHighestReceived c byteOffset in
      check_and_count f id c (match r with Ok increment => increment | Err _ => 0 end)
  end.

(** Apply [op] to the stream's controller and, when it contributes, to the
    connection's. *)
Definition on_both (f : flowControlManager) (id : Z) (op : flowController → flowController) :
    flowControlManager * option FlowError :=
  match getFlowController f id with
  | Err e => (f, Some e)
  | Ok c =>
      let f := set_stream f id (op c) in
      (if contributesToConnection c then set_conn f (op (connFlowController f)) else f, None)
  end.
Definition AddBytesRead (env : environment) (f : flowControlManager) (id n : Z) :=
  on_both f id (λ c, fc_AddBytesRead env c n).
Definition AddBytesSent (f : flowControlManager) (id n : Z) := on_both f id (λ c, fc_AddBytesSent c n).
Definition AddBytesRetrans (f : flowControlManager) (id n : Z) :=
  on_both f id (λ c, fc_AddBytesRetrans c n).

Definition GetBytesSent (f : flowControlManager) (id : Z) : result FlowError Z :=
  match getFlowController f id with Ok c => Ok (bytesSent c) | Err e => Err e end.
Definition GetBytesRetrans (f : flowControlManager) (id : Z) : result FlowError Z :=
  match getFlowController f id with Ok c => Ok (bytesRetrans c) | Err e => Err e end.
Definition GetReceiveWindow (f : flowControlManager) (id : Z) : result FlowError Z :=
  if decide (id = 0) then Ok (receiveWindow (connFlowController f))
  else match getFlowController f id with Ok c => Ok (receiveWindow c) | Err e => Err e end.

Definition SendWindowSize (cp : ConnectionParameters) (f : flowControlManager) (id : Z) :
    result FlowError Z :=
  match getFlowController f id with
  | Err e => Err e
  | Ok c =>
      let res := fc_SendWindowSize cp c in
      Ok (if contributesToConnection c
          then Z.min res (fc_SendWindowSize cp (connFlowController f)) else res)
  end.
Definition RemainingConnectionWindowSize (cp : ConnectionParameters) (f : flowControlManager) : Z :=
  fc_SendWindowSize cp (connFlowController f).

Definition UpdateWindow (f : flowControlManager) (id offset : Z) :
    flowControlManager * result FlowError bool :=
  if decide (id = 0) then
    let '(c, b) := UpdateSendWindow (connFlowController f) offset in (set_conn f c, Ok b)
  else
    match getFlowController f id with
    | Err e => (f, Err e)
    | Ok c => let '(c, b) := UpdateSendWindow c offset in (set_stream f id c, Ok b)
    end.

(** The connection's increment follows a stream's that grew, times 1.5. *)
Definition ConnectionFlowControl (newIncrement : Z) : Z := Z.quot (newIncrement * 3) 2.

(** Go visits the map in any order: [order] is the one of this call. *)
Fixpoint stream_updates (env : environment) (force : bool) (f : flowControlManager) (order : list Z) :
    flowControlManager * list (Z * Z) :=
  match order with
  | [] => (f, [])
  | id :: order =>
      match streamFlowController f !! id with
      | None => stream_updates env force f order
      | Some c =>
          let '(c', (necessary, newIncrement, offset)) := MaybeUpdateWindow env c in
          let f := set_stream f id c' in
          if force || necessary then
            let f := if contributesToConnection c' && bool_decide (newIncrement ≠ 0)
                     then set_conn f (EnsureMinimumWindowIncrement (connFlowController f)
                                        (ConnectionFlowControl newIncrement)) else f in
            let '(f, res) := stream_updates env force f order in (f, (id, offset) :: res)
          else stream_updates env force f order
      end
  end.
Definition GetWindowUpdates (env : environment) (force : bool) (f : flowControlManager) (order : list Z) :
    flowControlManager * list (Z * Z) :=
  let '(f, res) := stream_updates env force f order in
  let '(conn, (necessary, _, offset)) := MaybeUpdateWindow env (connFlowController f) in
  (set_conn f conn, if force || necessary then res ++ [(0, offset)] else res).

Close Scope Z_scope.

(** * One controller *)

(** A controller that keeps its peer within the window. *)
Record fc_ok (c : flowController) : Prop := {
  fc_read : (0 ≤ bytesRead c ≤ highestReceived c)%Z;
  fc_highest : (highestReceived c ≤ receiveWindow c)%Z;
  fc_range : (highestReceived c < 2 ^ 62 ∧ receiveWindow c < 2 ^ 63)%Z;
  fc_increment : (0 ≤ receiveWindowIncrement c ≤ maxReceiveWindowIncrement c)%Z;
  fc_maximum : (maxReceiveWindowIncrement c < 2 ^ 62)%Z
}.

Lemma maybeAdjust_bounds env c :
  fc_ok c →
  (receiveWindowIncrement c ≤ maybeAdjustWindowIncrement env c ≤ maxReceiveWindowIncrement c ∧
   maybeAdjustWindowIncrement env c ≤ 2 * receiveWindowIncrement c)%Z.
Proof.
  intros [_ _ _ Hi Hm]. unfold maybeAdjustWindowIncrement. destruct (lastWindowUpdateTime c); [|lia].
  cbv zeta. case_decide; [lia|]. case_decide; [lia|]. rewrite u64_small by lia. lia.
Qed.

(** What [MaybeUpdateWindow] grants. *)
Record update_spec (c c' : flowController) (necessary : bool) (offset : Z) : Prop := {
  up_ok : fc_ok c';
  up_offset : offset = receiveWindow c';
  up_same : contributesToConnection c' = contributesToConnection c ∧
    bytesRead c' = bytesRead c ∧ highestReceived c' = highestReceived c;
  up_granted : necessary = true →
    (receiveWindow c - bytesRead c < receiveWindowIncrement c / 2 ∧ receiveWindow c < offset ∧
     offset = bytesRead c + receiveWindowIncrement c' ∧
     receiveWindowIncrement c ≤ receiveWindowIncrement c' ≤ 2 * receiveWindowIncrement c)%Z;
  up_kept : necessary = false →
    c' = c ∧ (receiveWindowIncrement c / 2 ≤ receiveWindow c - bytesRead c)%Z
}.

Lemma MaybeUpdateWindow_spec env c :
  fc_ok c →
  ∃ c' necessary increment offset, MaybeUpdateWindow env c = (c', (necessary, increment, offset)) ∧
    update_spec c c' necessary offset.
Proof.
  intros Hok. pose proof (maybeAdjust_bounds env c Hok) as Ha. pose proof Hok as [Hr Hh Hg Hi Hm].
  unfold MaybeUpdateWindow. cbv zeta. rewrite u64_small by lia.
  assert (receiveWindowIncrement c / 2 ≤ receiveWindowIncrement c)%Z
    by (apply Z.div_le_upper_bound; lia).
  case_decide as Hd; cycle 1.
  { eexists _, _, _, _. split; [done|]. split; [done|done|done|done|]. intros _. split; [done|lia]. }
  rewrite u64_small by lia. eexists _, _, _, _. split; [done|].
  split; cbn [set_receive contributesToConnection bytesRead highestReceived receiveWindow
    receiveWindowIncrement maxReceiveWindowIncrement]; try done; [|intros _; lia].
  split; cbn [set_receive bytesRead highestReceived receiveWindow receiveWindowIncrement
    maxReceiveWindowIncrement]; lia.
Qed.

(** * Totals over the streams *)

Section totals.
Context {A : Type} (f : A → Z).

Definition total (m : gmap Z A) : Z := map_fold (λ _ a s, (f a + s)%Z) 0%Z m.

Lemma total_empty : total ∅ = 0%Z.
Proof. apply map_fold_empty. Qed.
Lemma total_insert m id a : m !! id = None → total (<[id := a]> m) = (f a + total m)%Z.
Proof. intros. apply (map_fold_insert_L (λ _ a s, (f a + s)%Z) 0%Z); [intros; lia|done]. Qed.
Lemma total_delete m id a : m !! id = Some a → total m = (f a + total (delete id m))%Z.
Proof. intros. apply (map_fold_delete_L (λ _ a s, (f a + s)%Z) 0%Z); [intros; lia|done]. Qed.
Lemma total_update m id a a' :
m !! id = Some a → total (<[id := a']> m) = (f a' - f a + total m)%Z.
Proof.
intros Hm. rewrite <-insert_delete_eq, total_insert by apply lookup_delete_eq.
rewrite (total_delete m id a Hm). lia.
Qed.
End totals.

Lemma total_le {A} (f g : A → Z) (m : gmap Z A) :
  (∀ id a, m !! id = Some a → f a ≤ g a)%Z → (total f m ≤ total g m)%Z.
Proof.
  induction m as [|id a m Hid IH] using map_ind; intros Hle; [by rewrite !total_empty|].
  rewrite !total_insert by done. pose proof (Hle id a ltac:(apply lookup_insert_eq)).
  assert (total f m ≤ total g m)%Z; [|lia]. apply IH. intros i b Hb. apply (Hle i).
  rewrite lookup_insert_ne; [done|]. intros ->. congruence.
Qed.

(** * The receiver's account *)

(** A stream's largest offset and what was read of it; and, for the streams that
    are gone, their contribution to both. *)
Record stream_account : Type := { ac_contributes : bool; ac_highest : Z; ac_read : Z }.
Record account : Type := { ac_live : gmap Z stream_account; ac_gone : Z; ac_gone_read : Z }.

Definition contributed (get : stream_account → Z) (s : stream_account) : Z :=
  if ac_contributes s then get s else 0%Z.
Definition total_highest (a : account) : Z := (ac_gone a + total (contributed ac_highest) (ac_live a))%Z.
Definition total_read (a : account) : Z := (ac_gone_read a + total (contributed ac_read) (ac_live a))%Z.

Inductive flow_op : Type :=
| OpNew (id : Z) (contributes : bool)
| OpRemove (id : Z)
| OpReceive (id byteOffset : Z)
| OpReset (id byteOffset : Z)
| OpRead (env : environment) (id n : Z)
| OpUpdates (env : environment) (force : bool) (order : list Z).

Definition on_stream (a : account) (id : Z) (g : stream_account → stream_account) : account := {|
  ac_live := alter g id (ac_live a); ac_gone := ac_gone a; ac_gone_read := ac_gone_read a
|}.
Definition ac_step (a : account) (o : flow_op) : account :=
  match o with
  | OpNew id b =>
      match ac_live a !! id with
      | Some _ => a
      | None => {| ac_live := <[id := {| ac_contributes := b; ac_highest := 0; ac_read := 0 |}]> (ac_live a);
                   ac_gone := ac_gone a; ac_gone_read := ac_gone_read a |}
      end
  | OpRemove id =>
      match ac_live a !! id with
      | None => a
      | Some s => {| ac_live := delete id (ac_live a);
                     ac_gone := ac_gone a + contributed ac_highest s;
                     ac_gone_read := ac_gone_read a + contributed ac_read s |}
      end
  | OpReceive id off | OpReset id off =>
      on_stream a id (λ s, {| ac_contributes := ac_contributes s;
                              ac_highest := Z.max (ac_highest s) off; ac_read := ac_read s |})
  | OpRead _ id n =>
      on_stream a id (λ s, {| ac_contributes := ac_contributes s;
                              ac_highest := ac_highest s; ac_read := ac_read s + n |})
  | OpUpdates _ _ _ => a
  end%Z.

(** Offsets and the connection's total are below [2 ^ 62]; only received bytes
    are read. *)
Definition op_ok (a : account) (o : flow_op) : Prop :=
  match o with
  | OpReceive id off | OpReset id off =>
      (0 ≤ off < 2 ^ 62 ∧ total_highest (ac_step a o) < 2 ^ 62)%Z
  | OpRead _ id n => (0 ≤ n)%Z ∧ ∀ s, ac_live a !! id = Some s → (ac_read s + n ≤ ac_highest s)%Z
  | _ => True
  end.

Section manager.
Context (cp : ConnectionParameters).

Record params_ok : Prop := {
params_stream : (0 ≤ GetReceiveStreamFlowControlWindow cp ≤ GetMaxReceiveStreamFlowControlWindow cp)%Z;
params_conn : (0 ≤ GetReceiveConnectionFlowControlWindow cp ≤
               GetMaxReceiveConnectionFlowControlWindow cp)%Z;
params_max : (GetMaxReceiveStreamFlowControlWindow cp < 2 ^ 62 ∧
              GetMaxReceiveConnectionFlowControlWindow cp < 2 ^ 62)%Z
}.
Context (Hcp : params_ok).

Definition flow_step (f : flowControlManager) (o : flow_op) : flowControlManager * option FlowError :=
match o with
| OpNew id b => (NewStream cp f id b, None)
| OpRemove id => (RemoveStream f id, None)
| OpReceive id off => UpdateHighestReceived f id off
| OpReset id off => ResetStream f id off
| OpRead env id n => AddBytesRead env f id n
| OpUpdates env force order => ((GetWindowUpdates env force f order).1, None)
end.

Definition account_of (c : flowController) : stream_account := {|
ac_contributes := contributesToConnection c; ac_highest := highestReceived c; ac_read := bytesRead c
|}.

Record accounts (f : flowControlManager) (a : account) : Prop := {
acc_live : account_of <$> streamFlowController f = ac_live a;
acc_highest : highestReceived (connFlowController f) = total_highest a;
acc_read : bytesRead (connFlowController f) = total_read a;
acc_streams : map_Forall (λ _ c, fc_ok c) (streamFlowController f);
acc_conn : fc_ok (connFlowController f);
acc_gone : (0 ≤ ac_gone_read a ≤ ac_gone a)%Z
}.

Lemma fc_ok_new id b : fc_ok (newFlowController cp id b).
Proof.
destruct Hcp as [H1 H2 H3]. unfold newFlowController. case_decide; split; cbn; lia.
Qed.

Lemma accounts_new : accounts (NewFlowControlManager cp) {| ac_live := ∅; ac_gone := 0; ac_gone_read := 0 |}.
Proof.
split; cbn [NewFlowControlManager streamFlowController connFlowController]; try done.
apply fc_ok_new.
Qed.

(** ** Steps *)

Lemma accounts_lookup f a id :
accounts f a → ac_live a !! id = account_of <$> streamFlowController f !! id.
Proof. intros [<- _ _ _ _ _]. apply lookup_fmap. Qed.

Lemma accounts_set_stream f a id c c' :
accounts f a → streamFlowController f !! id = Some c → fc_ok c' →
account_of c' = account_of c → accounts (set_stream f id c') a.
Proof.
intros [Hl Hh Hr Hs Hc Hg] Hid Hok He. split; cbn [set_stream streamFlowController connFlowController]; try done.
- rewrite fmap_insert, He, <-Hl. apply insert_id. by rewrite lookup_fmap, Hid.
- by apply map_Forall_insert_2.
Qed.

Lemma accounts_set_conn f a c :
accounts f a → fc_ok c → highestReceived c = highestReceived (connFlowController f) →
bytesRead c = bytesRead (connFlowController f) → accounts (set_conn f c) a.
Proof.
intros [Hl Hh Hr Hs Hc Hg] Hok E1 E2.
split; cbn [set_conn streamFlowController connFlowController]; try done; congruence.
Qed.

Lemma on_stream_live a id g s :
ac_live a !! id = Some s → ac_live (on_stream a id g) = <[id := g s]> (ac_live a).
Proof.
intros Hs. apply map_eq. intros i. cbn [on_stream ac_live]. destruct (decide (i = id)) as [->|].
- by rewrite lookup_alter_eq, Hs, lookup_insert_eq.
- by rewrite lookup_alter_ne, lookup_insert_ne.
Qed.

Lemma total_on_stream a id g s (get : stream_account → Z) :
ac_live a !! id = Some s →
total (contributed get) (ac_live (on_stream a id g)) =
  (contributed get (g s) - contributed get s + total (contributed get) (ac_live a))%Z.
Proof. intros Hs. rewrite (on_stream_live a id g s Hs). by apply total_update. Qed.

(** A step of one stream: its controller and, when it contributes, the
  connection's account for the difference. *)
Lemma accounts_on_stream f a id g c c' conn :
accounts f a → streamFlowController f !! id = Some c → fc_ok c' → fc_ok conn →
account_of c' = g (account_of c) →
(highestReceived conn = highestReceived (connFlowController f) +
   (contributed ac_highest (account_of c') - contributed ac_highest (account_of c)))%Z →
(bytesRead conn = bytesRead (connFlowController f) +
   (contributed ac_read (account_of c') - contributed ac_read (account_of c)))%Z →
accounts (set_conn (set_stream f id c') conn) (on_stream a id g).
Proof.
intros Ha Hid Hok Hcok He Hh' Hr'.
assert (ac_live a !! id = Some (account_of c)) as Hs by (by rewrite (accounts_lookup f a id Ha), Hid).
destruct Ha as [Hl Hh Hr Hst Hc Hg].
split; cbn [set_conn set_stream streamFlowController connFlowController]; try done.
- rewrite (on_stream_live _ _ _ _ Hs), fmap_insert, He. by rewrite Hl.
- unfold total_highest. rewrite (total_on_stream _ _ _ _ _ Hs), Hh', Hh, He. unfold total_highest.
  cbn [on_stream ac_gone]. lia.
- unfold total_read. rewrite (total_on_stream _ _ _ _ _ Hs), Hr', Hr, He. unfold total_read.
  cbn [on_stream ac_gone_read]. lia.
- by apply map_Forall_insert_2.
Qed.

Lemma set_conn_id f : set_conn f (connFlowController f) = f.
Proof. by destruct f. Qed.

(** Why an operation may fail. *)
Definition op_stream (o : flow_op) (id off : Z) : Prop := o = OpReceive id off ∨ o = OpReset id off.
Definition justified (f : flowControlManager) (a : account) (o : flow_op) (e : FlowError) : Prop :=
match e with
| errMapAccess => ∃ id, ac_live a !! id = None ∧
    ((∃ off, op_stream o id off) ∨ ∃ env n, o = OpRead env id n)
| StreamDataAfterTermination => ∃ id off s,
    o = OpReset id off ∧ ac_live a !! id = Some s ∧ (off < ac_highest s)%Z
| FlowControlReceivedTooMuchData => ∃ id off c,
    op_stream o id off ∧ streamFlowController f !! id = Some c ∧
    (receiveWindow c < off ∨ receiveWindow (connFlowController f) < total_highest (ac_step a o))%Z
| ErrReceivedSmallerByteOffset => False
end.

Definition raise (off : Z) (s : stream_account) : stream_account := {|
ac_contributes := ac_contributes s; ac_highest := Z.max (ac_highest s) off; ac_read := ac_read s
|}.

Lemma check_and_count_spec f a id off c c' o :
accounts f a → op_stream o id off → op_ok a o → streamFlowController f !! id = Some c →
c' = set_highest c (Z.max (highestReceived c) off) →
match check_and_count f id c' (Z.max (highestReceived c) off - highestReceived c)%Z with
| (f', None) => accounts f' (ac_step a o)
| (_, Some e) => e = FlowControlReceivedTooMuchData ∧ justified f a o e
end.
Proof.
intros Ha Ho Hop Hid ->.
assert (ac_step a o = on_stream a id (raise off)) as Estep by (by destruct Ho as [->| ->]).
assert (0 ≤ off < 2 ^ 62 ∧ total_highest (ac_step a o) < 2 ^ 62)%Z as [Hoff Htot] by (by destruct Ho as [->| ->]).
assert (ac_live a !! id = Some (account_of c)) as Hs by (by rewrite (accounts_lookup f a id Ha), Hid).
pose proof (acc_streams _ _ Ha id c Hid) as Hc. pose proof (acc_conn _ _ Ha) as Hconn.
pose proof (acc_highest _ _ Ha) as Hh. destruct Hc as [C1 C2 C3 C4 C5]. destruct Hconn as [D1 D2 D3 D4 D5].
assert (total_highest (ac_step a o) = highestReceived (connFlowController f) +
  (if contributesToConnection c then Z.max (highestReceived c) off - highestReceived c else 0))%Z as Et.
{ rewrite Hh, Estep. unfold total_highest at 1. rewrite (total_on_stream _ _ _ _ _ Hs).
  unfold total_highest, contributed. cbn [on_stream raise account_of ac_gone ac_contributes ac_highest].
  destruct (contributesToConnection c); lia. }
unfold check_and_count, CheckFlowControlViolation.
cbn [set_highest set_receive receiveWindow highestReceived contributesToConnection set_stream connFlowController].
case_bool_decide as Hv.
{ split; [done|]. exists id, off, c. split_and!; [done|done|left; lia]. }
assert (fc_ok (set_highest c (Z.max (highestReceived c) off))) as Hok'.
{ split; cbn [set_highest set_receive receiveWindow highestReceived bytesRead receiveWindowIncrement
    maxReceiveWindowIncrement]; lia. }
destruct (contributesToConnection c) eqn:Eb.
- unfold IncrementHighestReceived. rewrite u64_small by lia.
  cbn [set_highest set_receive receiveWindow highestReceived].
  case_bool_decide as Hv2.
  { split; [done|]. exists id, off, c. split_and!; [done|done|right; lia]. }
  rewrite Estep. apply (accounts_on_stream f a id (raise off) c); try done.
  + split; cbn [set_highest set_receive receiveWindow highestReceived bytesRead receiveWindowIncrement
      maxReceiveWindowIncrement]; lia.
  + unfold contributed. cbn. rewrite Eb. lia.
  + unfold contributed. cbn. rewrite Eb. lia.
- rewrite Estep. rewrite <-(set_conn_id (set_stream _ _ _)).
  apply (accounts_on_stream f a id (raise off) c); try done.
  + unfold contributed. cbn. rewrite Eb. lia.
  + unfold contributed. cbn. rewrite Eb. lia.
Qed.

Lemma receive_spec f a id off o :
accounts f a → op_stream o id off → op_ok a o →
match flow_step f o with
| (f', None) => accounts f' (ac_step a o)
| (_, Some e) => justified f a o e
end.
Proof.
intros Ha Ho Hop. destruct (streamFlowController f !! id) as [c|] eqn:Hid; cycle 1.
{ assert (ac_live a !! id = None) as Hn by (by rewrite (accounts_lookup f a id Ha), Hid).
  destruct Ho as [->| ->]; cbn [flow_step]; unfold UpdateHighestReceived, ResetStream, getFlowController;
    rewrite Hid; exists id; (split; [done|left]); exists off; unfold op_stream; auto. }
pose proof (acc_streams _ _ Ha id c Hid) as [C1 C2 C3 C4 C5].
assert (0 ≤ off < 2 ^ 62)%Z as Hoff by (by destruct Ho as [->| ->]; apply Hop).
pose proof (check_and_count_spec f a id off c _ o Ha Ho Hop Hid eq_refl) as Hcheck.
assert (∀ m, m = highestReceived c → set_highest c m = c) as Hsame by (intros m ->; by destruct c).
assert (flow_step f o = check_and_count f id (set_highest c (Z.max (highestReceived c) off))
    (Z.max (highestReceived c) off - highestReceived c)%Z ∨
  o = OpReset id off ∧ (off < highestReceived c)%Z ∧
  flow_step f o = (set_stream f id c, Some StreamDataAfterTermination)) as [->|(-> & Hlt & ->)].
- destruct Ho as [->| ->]; cbn [flow_step]; unfold UpdateHighestReceived, ResetStream, getFlowController;
    rewrite Hid; unfold fc_UpdateHighestReceived; repeat case_decide.
  + left. by rewrite Hsame, <-(Z.sub_diag (highestReceived c)) by lia; f_equal; lia.
  + left. rewrite u64_small by lia. by replace (Z.max (highestReceived c) off) with off by lia.
  + left. rewrite Hsame by lia. f_equal. lia.
  + left. rewrite Hsame by lia. f_equal. lia.
  + left. rewrite u64_small by lia. by replace (Z.max (highestReceived c) off) with off by lia.
  + right. split_and!; [done|lia|done].
- destruct (check_and_count _ _ _ _) as [f' [e|]]; [by destruct Hcheck|done].
- exists id, off, (account_of c). split_and!; [done| |done].
  by rewrite (accounts_lookup f a id Ha), Hid.
Qed.

(** No stream was read beyond what it received. *)
Lemma total_read_le f a id :
accounts f a →
(total (contributed ac_read) (delete id (ac_live a)) ≤ total (contributed ac_highest) (delete id (ac_live a)))%Z.
Proof.
intros Ha. apply total_le. intros i s [_ Hs]%lookup_delete_Some.
rewrite (accounts_lookup f a i Ha) in Hs. apply fmap_Some in Hs as (c & Hc & ->).
pose proof (acc_streams _ _ Ha i c Hc) as [C _ _ _ _]. unfold contributed. cbn.
destruct (contributesToConnection c); lia.
Qed.

Lemma read_spec f a env id n :
accounts f a → op_ok a (OpRead env id n) →
match AddBytesRead env f id n with
| (f', None) => accounts f' (ac_step a (OpRead env id n))
| (_, Some e) => justified f a (OpRead env id n) e
end.
Proof.
intros Ha [Hn Hle]. unfold AddBytesRead, on_both, getFlowController.
destruct (streamFlowController f !! id) as [c|] eqn:Hid; cycle 1.
{ exists id. split; [by rewrite (accounts_lookup f a id Ha), Hid|eauto]. }
assert (ac_live a !! id = Some (account_of c)) as Hs by (by rewrite (accounts_lookup f a id Ha), Hid).
specialize (Hle _ Hs). cbn [account_of ac_read ac_highest] in Hle.
pose proof (acc_streams _ _ Ha id c Hid) as [C1 C2 C3 C4 C5].
pose proof (acc_conn _ _ Ha) as [D1 D2 D3 D4 D5].
set (g := λ s, {| ac_contributes := ac_contributes s; ac_highest := ac_highest s;
                  ac_read := (ac_read s + n)%Z |}).
assert (fc_ok (fc_AddBytesRead env c n)) as Hok.
{ split; cbn [fc_AddBytesRead set_receive bytesRead highestReceived receiveWindow receiveWindowIncrement
    maxReceiveWindowIncrement]; rewrite ?u64_small; lia. }
assert (account_of (fc_AddBytesRead env c n) = g (account_of c)) as Hg.
{ unfold account_of, g; cbn. by rewrite u64_small by lia. }
change (ac_step a (OpRead env id n)) with (on_stream a id g).
destruct (contributesToConnection c) eqn:Eb.
- assert (bytesRead (connFlowController f) + n ≤ highestReceived (connFlowController f))%Z as Hconn.
  { rewrite (acc_read _ _ Ha), (acc_highest _ _ Ha). unfold total_read, total_highest.
    rewrite (total_delete _ _ _ _ Hs), (total_delete (contributed ac_highest) _ _ _ Hs).
    pose proof (acc_gone _ _ Ha). pose proof (total_read_le f a id Ha).
    unfold contributed at 1 3. cbn [account_of ac_contributes ac_read ac_highest]. rewrite Eb. lia. }
  cbn [set_stream connFlowController].
  apply (accounts_on_stream f a id g c); try done.
  + split; cbn [fc_AddBytesRead set_receive bytesRead highestReceived receiveWindow receiveWindowIncrement
      maxReceiveWindowIncrement]; rewrite ?u64_small; lia.
  + rewrite Hg. unfold contributed. cbn. rewrite Eb. lia.
  + rewrite Hg. unfold contributed. cbn. rewrite Eb, u64_small by lia. lia.
- rewrite <-(set_conn_id (set_stream _ _ _)).
  apply (accounts_on_stream f a id g c); try done.
  + rewrite Hg. unfold contributed. cbn. rewrite Eb. lia.
  + rewrite Hg. unfold contributed. cbn. rewrite Eb. lia.
Qed.

Lemma new_spec f a id b : accounts f a → accounts (NewStream cp f id b) (ac_step a (OpNew id b)).
Proof.
intros Ha. unfold NewStream. cbn [ac_step]. rewrite (accounts_lookup f a id Ha).
destruct (streamFlowController f !! id) as [c|] eqn:Hid; cbn [fmap option_fmap option_map]; [done|].
pose proof (accounts_lookup f a id Ha) as Hs. rewrite Hid in Hs.
destruct Ha as [Hl Hh Hr Hst Hc Hg].
split; cbn [set_stream streamFlowController connFlowController ac_live ac_gone ac_gone_read]; try done.
- rewrite fmap_insert. by rewrite Hl.
- rewrite Hh. unfold total_highest. cbn [ac_live ac_gone]. rewrite total_insert by done.
  unfold contributed at 2. cbn. by destruct b.
- rewrite Hr. unfold total_read. cbn [ac_live ac_gone_read]. rewrite total_insert by done.
  unfold contributed at 2. cbn. by destruct b.
- apply map_Forall_insert_2; [apply fc_ok_new|done].
Qed.

Lemma remove_spec f a id : accounts f a → accounts (RemoveStream f id) (ac_step a (OpRemove id)).
Proof.
intros Ha. cbn [ac_step]. pose proof (accounts_lookup f a id Ha) as Hs. unfold RemoveStream.
destruct (streamFlowController f !! id) as [c|] eqn:Hid; cbn [fmap option_fmap option_map] in Hs; rewrite Hs.
- pose proof (acc_streams _ _ Ha id c Hid) as [C1 _ _ _ _].
  destruct Ha as [Hl Hh Hr Hst Hc Hg].
  split; cbn [streamFlowController connFlowController ac_live ac_gone ac_gone_read]; try done.
  + by rewrite fmap_delete, Hl.
  + rewrite Hh. unfold total_highest. cbn [ac_live ac_gone]. rewrite (total_delete _ _ _ _ Hs). lia.
  + rewrite Hr. unfold total_read. cbn [ac_live ac_gone_read]. rewrite (total_delete _ _ _ _ Hs). lia.
  + by apply map_Forall_delete.
  + unfold contributed. cbn. destruct (contributesToConnection c); lia.
- rewrite delete_id by done. by destruct f.
Qed.

Lemma updates_spec env force f a order :
accounts f a → accounts (GetWindowUpdates env force f order).1 a.
Proof.
intros Ha. unfold GetWindowUpdates.
assert (accounts (stream_updates env force f order).1 a) as Hs.
{ revert f Ha. induction order as [|id order IH]; intros f Ha; cbn [stream_updates]; [done|].
  destruct (streamFlowController f !! id) as [c|] eqn:Hid; [|by apply IH].
  destruct (MaybeUpdateWindow_spec env c (acc_streams _ _ Ha id c Hid))
    as (c' & nec & inc & off & -> & [Hok _ (E1 & E2 & E3) _ _]).
  assert (accounts (set_stream f id c') a) as Ha'.
  { apply (accounts_set_stream f a id c); try done. unfold account_of. congruence. }
  destruct (force || nec); [|by apply IH].
  assert (accounts (if contributesToConnection c' && bool_decide (inc ≠ 0%Z)
     then set_conn (set_stream f id c') (EnsureMinimumWindowIncrement
            (connFlowController (set_stream f id c')) (ConnectionFlowControl inc))
     else set_stream f id c') a) as Ha''.
  { destruct (_ && _); [|done]. unfold EnsureMinimumWindowIncrement.
    case_decide; [|by rewrite set_conn_id]. apply accounts_set_conn; try done.
    pose proof (acc_conn _ _ Ha') as [D1 D2 D3 D4 D5].
    split; cbn [set_receive bytesRead highestReceived receiveWindow receiveWindowIncrement
      maxReceiveWindowIncrement]; lia. }
  specialize (IH _ Ha''). by destruct (stream_updates _ _ _ _). }
destruct (stream_updates env force f order) as [f' res]. cbn [fst] in Hs.
destruct (MaybeUpdateWindow_spec env _ (acc_conn _ _ Hs)) as (c' & nec & inc & off & -> & [Hok _ (_ & E2 & E3) _ _]).
cbn [fst]. by apply accounts_set_conn.
Qed.

Lemma flow_step_spec f a o :
accounts f a → op_ok a o →
match flow_step f o with
| (f', None) => accounts f' (ac_step a o)
| (_, Some e) => justified f a o e
end.
Proof.
intros Ha Hop. destruct o; cbn [flow_step].
- by apply new_spec.
- by apply remove_spec.
- exact (receive_spec f a id byteOffset (OpReceive id byteOffset) Ha (or_introl eq_refl) Hop).
- exact (receive_spec f a id byteOffset (OpReset id byteOffset) Ha (or_intror eq_refl) Hop).
- by apply read_spec.
- by apply updates_spec.
Qed.

(** ** Runs *)

Fixpoint flow_run (f : flowControlManager) (os : list flow_op) : result FlowError flowControlManager :=
match os with
| [] => Ok f
| o :: os => match flow_step f o with (f, None) => flow_run f os | (_, Some e) => Err e end
end.
Fixpoint ops_ok (a : account) (os : list flow_op) : Prop :=
match os with [] => True | o :: os => op_ok a o ∧ ops_ok (ac_step a o) os end.

Lemma flow_run_spec os f a :
accounts f a → ops_ok a os →
match flow_run f os with
| Ok f' => accounts f' (foldl ac_step a os)
| Err e => ∃ os1 o os2 f1, os = os1 ++ o :: os2 ∧ flow_run f os1 = Ok f1 ∧
    accounts f1 (foldl ac_step a os1) ∧ justified f1 (foldl ac_step a os1) o e
end.
Proof.
revert f a. induction os as [|o os IH]; intros f a Ha; [done|]. intros [Hop Hops].
cbn [flow_run foldl]. pose proof (flow_step_spec f a o Ha Hop) as Hstep.
destruct (flow_step f o) as [f' [e|]] eqn:E.
- by exists [], o, os, f.
- specialize (IH f' _ Hstep Hops). destruct (flow_run f' os) as [f''|e]; [done|].
  destruct IH as (os1 & o1 & os2 & f1 & -> & Hrun & Ha1 & Hj).
  exists (o :: os1), o1, os2, f1. split_and!; [done| |done|done]. cbn [flow_run]. by rewrite E.
Qed.

(** ** The sending side *)

(** The window a controller has had: the initial one or that of a WINDOW_UPDATE. *)
Definition allowance (c : flowController) : Z := Z.max (initialSendWindow cp c) (sendWindow c).

Inductive send_op : Type :=
| SNew (id : Z) (contributes : bool)
| SRemove (id : Z)
| SSend (id n : Z)
| SUpdate (id offset : Z).

(** A sender that sends [n] bytes only when the window leaves room for them. *)
Definition send_step (f : flowControlManager) (o : send_op) : flowControlManager :=
match o with
| SNew id b => NewStream cp f id b
| SRemove id => RemoveStream f id
| SSend id n =>
    match SendWindowSize cp f id with
    | Ok size => if decide (n ≤ size)%Z then (AddBytesSent f id n).1 else f
    | Err _ => f
    end
| SUpdate id offset => (UpdateWindow f id offset).1
end.
Definition send_op_ok (o : send_op) : Prop :=
match o with
| SNew id _ => id ≠ 0%Z
| SSend _ n => (0 ≤ n)%Z
| SUpdate _ offset => (0 ≤ offset < 2 ^ 64)%Z
| _ => True
end.

Definition send_within (c : flowController) : Prop :=
(0 ≤ bytesSent c ≤ allowance c)%Z ∧ (0 ≤ allowance c < 2 ^ 64)%Z ∧ (0 ≤ sendWindow c)%Z.
Definition all_within (f : flowControlManager) : Prop :=
map_Forall (λ _ c, send_within c) (streamFlowController f) ∧ send_within (connFlowController f).

Record send_params_ok : Prop := {
sparams_stream : (0 ≤ GetSendStreamFlowControlWindow cp < 2 ^ 64)%Z;
sparams_conn : (0 ≤ GetSendConnectionFlowControlWindow cp < 2 ^ 64)%Z
}.
Context (Hsp : send_params_ok).

Lemma initial_range c : (0 ≤ initialSendWindow cp c < 2 ^ 64)%Z.
Proof. destruct Hsp. unfold initialSendWindow. by case_decide. Qed.

Lemma within_new id b : send_within (newFlowController cp id b).
Proof.
unfold send_within, allowance. pose proof (initial_range (newFlowController cp id b)).
cbn [newFlowController bytesSent sendWindow]. lia.
Qed.

(** The window never lets the sender pass the allowance. *)
Lemma SendWindowSize_within c n :
send_within c → (0 ≤ n ≤ fc_SendWindowSize cp c)%Z → send_within (fc_AddBytesSent c n).
Proof.
intros ([Hs Hle] & Ha & Hw) Hn. unfold fc_SendWindowSize, getSendWindow in Hn. cbv zeta in Hn.
pose proof (initial_range c) as Hi. unfold send_within, allowance in *.
change (initialSendWindow cp (fc_AddBytesSent c n)) with (initialSendWindow cp c).
cbn [fc_AddBytesSent set_send bytesSent sendWindow].
repeat case_decide; rewrite ?u64_small in Hn by lia; rewrite u64_small by lia; lia.
Qed.

Lemma UpdateSendWindow_within c off :
send_within c → (0 ≤ off < 2 ^ 64)%Z → send_within (UpdateSendWindow c off).1.
Proof.
intros ([Hs Hle] & Ha & Hw) Ho. unfold UpdateSendWindow. case_decide; [|done].
pose proof (initial_range c) as Hi. unfold send_within, allowance in *. cbn [fst].
change (initialSendWindow cp (set_send c (bytesSent c) off (bytesRetrans c))) with (initialSendWindow cp c).
cbn [set_send bytesSent sendWindow]. lia.
Qed.

Lemma send_step_within f o : all_within f → send_op_ok o → all_within (send_step f o).
Proof.
intros [Hs Hc] Ho. destruct o as [id b|id|id n|id off]; cbn [send_step send_op_ok] in *.
- unfold NewStream. destruct (streamFlowController f !! id); [done|]. split; [|done].
  apply map_Forall_insert_2; [apply within_new|done].
- split; [|done]. by apply map_Forall_delete.
- unfold SendWindowSize, AddBytesSent, on_both, getFlowController.
  destruct (streamFlowController f !! id) as [c|] eqn:Hid; [|done]. case_decide as Hn; [|done].
  cbn [fst]. assert (n ≤ fc_SendWindowSize cp c ∧ (contributesToConnection c = true →
    n ≤ fc_SendWindowSize cp (connFlowController f)))%Z as [Hn1 Hn2].
  { revert Hn. destruct (contributesToConnection c); intros; split; intros; done || lia. }
  assert (send_within (fc_AddBytesSent c n)) as Hc'.
  { apply SendWindowSize_within; [by apply (Hs id)|done]. }
  destruct (contributesToConnection c); (split; [by apply map_Forall_insert_2|]); [|done].
  apply SendWindowSize_within; [done|]. by split; [|apply Hn2].
- unfold UpdateWindow, getFlowController. case_decide.
  + pose proof (UpdateSendWindow_within _ off Hc Ho) as Hu.
    by destruct (UpdateSendWindow (connFlowController f) off).
  + destruct (streamFlowController f !! id) as [c|] eqn:Hid; [|done].
    pose proof (UpdateSendWindow_within c off (Hs id c Hid) Ho) as Hu.
    destruct (UpdateSendWindow c off). split; [by apply map_Forall_insert_2|done].
Qed.

(** ** What the peer allowed *)

(** A sender's account with its peer, kept from the calls alone: the bytes that were sent and the largest
    WINDOW_UPDATE that came, 0 if none did. *)
Record grant : Type := { gr_contributes : bool; gr_sent : Z; gr_update : Z }.
Record ledger : Type := { le_streams : gmap Z grant; le_conn : grant }.
Definition new_grant (b : bool) : grant := {| gr_contributes := b; gr_sent := 0; gr_update := 0 |}.
Definition new_ledger : ledger := {| le_streams := ∅; le_conn := new_grant false |}.

(** The last update is the window even when it is below the initial one. *)
Definition gr_room (initial : Z) (g : grant) : Z :=
Z.max 0 ((if decide (gr_update g = 0)%Z then initial else gr_update g) - gr_sent g).
Definition conn_room (l : ledger) : Z := gr_room (GetSendConnectionFlowControlWindow cp) (le_conn l).
Definition send_room (l : ledger) (id : Z) : option Z :=
g ← le_streams l !! id;
let own := gr_room (GetSendStreamFlowControlWindow cp) g in
Some (if gr_contributes g then Z.min own (conn_room l) else own).

Definition spend (n : Z) (g : grant) : grant :=
{| gr_contributes := gr_contributes g; gr_sent := gr_sent g + n; gr_update := gr_update g |}.
Definition raise_grant (offset : Z) (g : grant) : grant :=
{| gr_contributes := gr_contributes g; gr_sent := gr_sent g; gr_update := Z.max (gr_update g) offset |}.
Definition counts (l : ledger) (id : Z) : bool :=
match le_streams l !! id with Some g => gr_contributes g | None => false end.

(** Bytes beyond the room are not sent; those of a stream that contributes count for the connection too. *)
Definition le_step (l : ledger) (o : send_op) : ledger :=
match o with
| SNew id b =>
    match le_streams l !! id with
    | Some _ => l
    | None => {| le_streams := <[id := new_grant b]> (le_streams l); le_conn := le_conn l |}
    end
| SRemove id => {| le_streams := delete id (le_streams l); le_conn := le_conn l |}
| SSend id n =>
    match send_room l id with
    | Some r =>
        if decide (n ≤ r)%Z
        then {| le_streams := alter (spend n) id (le_streams l);
                le_conn := if counts l id then spend n (le_conn l) else le_conn l |}
        else l
    | None => l
    end
| SUpdate id offset =>
    if decide (id = 0)%Z then {| le_streams := le_streams l; le_conn := raise_grant offset (le_conn l) |}
    else {| le_streams := alter (raise_grant offset) id (le_streams l); le_conn := le_conn l |}
end.

(** The largest of a window and of the WINDOW_UPDATE frames for a stream, or for the connection, which is 0. *)
Definition window_updates (id : Z) (os : list send_op) : list Z :=
omap (λ o, match o with SUpdate i offset => if decide (i = id) then Some offset else None | _ => None end) os.
Definition allowed_to_send (initial id : Z) (os : list send_op) : Z := foldr Z.max initial (window_updates id os).

Lemma allowed_to_send_snoc initial id os o : allowed_to_send initial id (os ++ [o]) =
match o with SUpdate i offset => if decide (i = id) then Z.max (allowed_to_send initial id os) offset else allowed_to_send initial id os
           | _ => allowed_to_send initial id os end.
Proof using Type.
assert (∀ l x, foldr Z.max initial (l ++ [x]) = Z.max (foldr Z.max initial l) x) as Hf.
{ intros l x. induction l as [|y l IH]; cbn; [lia|]. rewrite IH. lia. }
unfold allowed_to_send, window_updates. rewrite omap_app. destruct o as [| | |i offset]; cbn; rewrite ?app_nil_r; try done.
case_decide; cbn; [apply Hf|by rewrite app_nil_r].
Qed.

(** The controllers keep this account. *)
Definition grant_of (c : flowController) : grant :=
{| gr_contributes := contributesToConnection c; gr_sent := bytesSent c; gr_update := sendWindow c |}.
Definition grant_ok (initial id : Z) (os : list send_op) (g : grant) : Prop :=
(0 ≤ gr_sent g ≤ allowed_to_send initial id os ∧ 0 ≤ gr_update g ≤ allowed_to_send initial id os ∧ initial ≤ allowed_to_send initial id os < 2 ^ 64)%Z.
Record keeps_ledger (os : list send_op) (f : flowControlManager) (l : ledger) : Prop := {
ke_ops : Forall send_op_ok os;
ke_streams : grant_of <$> streamFlowController f = le_streams l;
ke_conn : grant_of (connFlowController f) = le_conn l ∧ streamID (connFlowController f) = 0%Z;
ke_ids : map_Forall (λ id c, streamID c = id ∧ id ≠ 0%Z) (streamFlowController f);
ke_granted : map_Forall (λ id g, grant_ok (GetSendStreamFlowControlWindow cp) id os g) (le_streams l);
ke_allowed : grant_ok (GetSendConnectionFlowControlWindow cp) 0 os (le_conn l)
}.

Lemma allowed_to_send_le initial id os o : (allowed_to_send initial id os ≤ allowed_to_send initial id (os ++ [o]))%Z.
Proof using Type. rewrite allowed_to_send_snoc. destruct o; try lia. case_decide; lia. Qed.
Lemma grant_ok_snoc initial id os o g :
(0 ≤ initial)%Z → send_op_ok o → grant_ok initial id os g → grant_ok initial id (os ++ [o]) g.
Proof using Type.
intros Hi Ho (H1 & H2 & H3). pose proof (allowed_to_send_le initial id os o) as Hle. split_and!; try lia.
rewrite allowed_to_send_snoc. destruct o; cbn [send_op_ok] in Ho; try lia. case_decide; lia.
Qed.
Lemma grant_ok_raise initial id os off g :
(0 ≤ initial)%Z → (0 ≤ off < 2 ^ 64)%Z → grant_ok initial id os g → grant_ok initial id (os ++ [SUpdate id off]) (raise_grant off g).
Proof using Type.
intros Hi Ho (H1 & H2 & H3). unfold grant_ok. rewrite allowed_to_send_snoc, decide_True by done. cbn. lia.
Qed.
Lemma grant_ok_spend initial id os n g :
grant_ok initial id os g → (0 ≤ n ≤ gr_room initial g)%Z → grant_ok initial id os (spend n g).
Proof using Type. intros (H1 & H2 & H3) Hn. unfold gr_room in Hn. unfold grant_ok. cbn. case_decide; lia. Qed.

Lemma fc_SendWindowSize_room c id os :
let initial := initialSendWindow cp c in
grant_ok initial id os (grant_of c) → fc_SendWindowSize cp c = gr_room initial (grant_of c).
Proof using Type.
cbv zeta. intros (H1 & H2 & H3). cbn in *. unfold fc_SendWindowSize, getSendWindow, gr_room. cbv zeta. cbn [grant_of gr_update gr_sent].
case_decide; case_decide; rewrite ?u64_small by lia; lia.
Qed.
Lemma SendWindowSize_room os f l id : keeps_ledger os f l →
SendWindowSize cp f id = match send_room l id with Some n => Ok n | None => Err errMapAccess end.
Proof using Type.
intros [_ Hs [Hc Hc0] Hids Hg Ha]. unfold SendWindowSize, getFlowController, send_room. rewrite <-Hs, lookup_fmap.
destruct (streamFlowController f !! id) as [c|] eqn:E; [|done]. cbn. destruct (Hids id c E) as [Ei Hn].
assert (grant_ok (GetSendStreamFlowControlWindow cp) id os (grant_of c)) as Hgc by (apply Hg; rewrite <-Hs, lookup_fmap, E; done).
assert (initialSendWindow cp c = GetSendStreamFlowControlWindow cp) as Ec by (unfold initialSendWindow; by rewrite decide_False by congruence).
assert (initialSendWindow cp (connFlowController f) = GetSendConnectionFlowControlWindow cp) as Eco
  by (unfold initialSendWindow; by rewrite decide_True).
rewrite (fc_SendWindowSize_room c id os) by by rewrite Ec. rewrite Ec. unfold conn_room. rewrite <-Hc, <-Eco.
by rewrite (fc_SendWindowSize_room (connFlowController f) 0 os) by (rewrite Eco, Hc; exact Ha).
Qed.

Lemma grant_of_sent c n initial id os :
grant_ok initial id os (grant_of c) → (0 ≤ n ≤ gr_room initial (grant_of c))%Z → grant_of (fc_AddBytesSent c n) = spend n (grant_of c).
Proof using Type.
intros Hg Hn. destruct (grant_ok_spend _ _ _ _ _ Hg Hn) as (H1 & _ & H3). unfold grant_of, fc_AddBytesSent, spend. cbn in *.
by rewrite u64_small by lia.
Qed.
Lemma grant_of_updated c off : grant_of (UpdateSendWindow c off).1 = raise_grant off (grant_of c).
Proof using Type.
unfold UpdateSendWindow. case_decide; cbn; unfold grant_of, raise_grant; cbn; f_equal; lia.
Qed.
Lemma allowed_to_send_bounds initial id os :
(0 ≤ initial < 2 ^ 64)%Z → Forall send_op_ok os → (initial ≤ allowed_to_send initial id os < 2 ^ 64)%Z.
Proof using Type.
intros Hi. unfold allowed_to_send, window_updates. induction 1 as [|o os Ho _ IH]; cbn; [lia|].
destruct o; cbn in *; try done. case_decide; cbn; lia.
Qed.

Lemma keeps_snoc_same os f l o :
send_params_ok → send_op_ok o → keeps_ledger os f l → keeps_ledger (os ++ [o]) f l.
Proof using Type.
intros [Hp1 Hp2] Ho [Hops Hs Hc Hids Hg Ha]. split; [|done|done|done| |by apply grant_ok_snoc; [lia|..]].
- apply Forall_app. split; [done|]. by constructor.
- intros id g Hid. apply grant_ok_snoc; [lia|done|by apply Hg].
Qed.

Lemma keeps_new os f l id b :
send_params_ok → keeps_ledger os f l → id ≠ 0%Z → keeps_ledger os (NewStream cp f id b)
  match le_streams l !! id with
  | Some _ => l
  | None => {| le_streams := <[id := new_grant b]> (le_streams l); le_conn := le_conn l |}
  end.
Proof using Type.
intros [Hp1 Hp2] Hk Hid. pose proof Hk as [Hops Hs [Hc Hc0] Hids Hg Ha]. unfold NewStream. rewrite <-Hs, lookup_fmap, Hs.
destruct (streamFlowController f !! id) as [c|] eqn:E; cbn; [done|].
split; cbn [le_streams le_conn set_stream streamFlowController connFlowController]; [done| |done| | |done].
- by rewrite fmap_insert, Hs.
- by apply map_Forall_insert_2.
- apply map_Forall_insert_2; [|done]. pose proof (allowed_to_send_bounds _ id os Hp1 Hops). unfold grant_ok. cbn. lia.
Qed.

(** Assignments to a stream's controller, and to the connection's. *)
Lemma keeps_stream os f l id c c' :
keeps_ledger os f l → streamFlowController f !! id = Some c → streamID c' = streamID c →
grant_ok (GetSendStreamFlowControlWindow cp) id os (grant_of c') →
keeps_ledger os (set_stream f id c') {| le_streams := <[id := grant_of c']> (le_streams l); le_conn := le_conn l |}.
Proof using Type.
intros [Hops Hs [Hc Hc0] Hids Hg Ha] E Hc' Hok. destruct (Hids id c E).
split; cbn [le_streams le_conn set_stream streamFlowController connFlowController]; [done| |done| | |done].
- by rewrite fmap_insert, Hs.
- apply map_Forall_insert_2; [by rewrite Hc'|done].
- by apply map_Forall_insert_2.
Qed.
Lemma keeps_conn os f l c' :
keeps_ledger os f l → streamID c' = 0%Z → grant_ok (GetSendConnectionFlowControlWindow cp) 0 os (grant_of c') →
keeps_ledger os (set_conn f c') {| le_streams := le_streams l; le_conn := grant_of c' |}.
Proof using Type. intros [Hops Hs [Hc Hc0] Hids Hg Ha] Hc' Hok. by split. Qed.

Lemma alter_at {A} (f : A → A) (m : gmap Z A) i x : m !! i = Some x → alter f i m = <[i := f x]> m.
Proof using Type.
intros E. apply map_eq. intros j. destruct (decide (j = i)) as [->|].
- by rewrite lookup_alter_eq, lookup_insert_eq, E.
- by rewrite lookup_alter_ne, lookup_insert_ne.
Qed.

Lemma keeps_send os f l id n r :
send_params_ok → keeps_ledger os f l → send_room l id = Some r → (0 ≤ n ≤ r)%Z →
keeps_ledger os (AddBytesSent f id n).1
  {| le_streams := alter (spend n) id (le_streams l); le_conn := if counts l id then spend n (le_conn l) else le_conn l |}.
Proof using Type.
intros Hp Hk Hr Hn. pose proof Hk as [Hops Hs [Hc Hc0] Hids Hg Ha]. unfold AddBytesSent, on_both, getFlowController.
unfold send_room in Hr. unfold counts. rewrite <-Hs, lookup_fmap in Hr. rewrite <-Hs, lookup_fmap, Hs.
destruct (streamFlowController f !! id) as [c|] eqn:E; [|done]. cbn in Hr |- *. injection Hr as Hr.
assert (le_streams l !! id = Some (grant_of c)) as El by (by rewrite <-Hs, lookup_fmap, E).
pose proof (Hg id _ El) as Hgc. rewrite (alter_at _ _ _ _ El).
assert (0 ≤ n ≤ gr_room (GetSendStreamFlowControlWindow cp) (grant_of c))%Z as Hown by (destruct (contributesToConnection c); lia).
pose proof (grant_of_sent c n _ id os Hgc Hown) as Esent.
assert (keeps_ledger os (set_stream f id (fc_AddBytesSent c n)) {| le_streams := <[id := spend n (grant_of c)]> (le_streams l); le_conn := le_conn l |}) as Hk1.
{ rewrite <-Esent. eapply keeps_stream; [done..|]. rewrite Esent. by apply grant_ok_spend. }
destruct (contributesToConnection c); [|done]. rewrite <-Hc in Ha |- *.
assert (0 ≤ n ≤ gr_room (GetSendConnectionFlowControlWindow cp) (grant_of (connFlowController f)))%Z as Hconn by (unfold conn_room in Hr; rewrite <-Hc in Hr; lia).
pose proof (grant_of_sent _ n _ 0 os Ha Hconn) as Econn. rewrite <-Econn.
apply (keeps_conn os _ _ (fc_AddBytesSent (connFlowController f) n) Hk1); [done|]. rewrite Econn. by apply grant_ok_spend.
Qed.

Lemma keeps_update os f l id off :
send_params_ok → keeps_ledger (os ++ [SUpdate id off]) f l → keeps_ledger os f l → (0 ≤ off < 2 ^ 64)%Z →
keeps_ledger (os ++ [SUpdate id off]) (UpdateWindow f id off).1 (le_step l (SUpdate id off)).
Proof using Type.
intros [Hp1 Hp2] Hk' Hk Hoff. pose proof Hk as [Hops Hs [Hc Hc0] Hids Hg Ha]. cbn [le_step]. unfold UpdateWindow, getFlowController.
case_decide as Hid.
- subst id. pose proof (grant_of_updated (connFlowController f) off) as Eu.
  destruct (UpdateSendWindow (connFlowController f) off) as [c' b] eqn:E. cbn [fst] in *. rewrite <-Hc, <-Eu.
  apply keeps_conn; [done| |rewrite Eu, Hc; apply grant_ok_raise; [lia|done..]].
  revert E. unfold UpdateSendWindow. case_decide; by intros [= <- _].
- destruct (streamFlowController f !! id) as [c|] eqn:Ei; cbn [fst].
  + assert (le_streams l !! id = Some (grant_of c)) as El by (by rewrite <-Hs, lookup_fmap, Ei).
    rewrite (alter_at _ _ _ _ El), <-(grant_of_updated c off). pose proof (grant_of_updated c off) as Eu.
    destruct (UpdateSendWindow c off) as [c' b] eqn:E. cbn [fst] in *.
    eapply keeps_stream; [done..| |rewrite Eu; apply grant_ok_raise; [lia|done|by apply Hg]].
    revert E. unfold UpdateSendWindow. case_decide; by intros [= <- _].
  + assert (alter (raise_grant off) id (le_streams l) = le_streams l) as ->.
    { apply map_eq. intros j. destruct (decide (j = id)) as [->|]; [|by rewrite lookup_alter_ne].
      rewrite lookup_alter_eq, <-Hs, lookup_fmap, Ei. done. }
    by destruct l.
Qed.

Lemma le_step_kept os f l o :
send_params_ok → send_op_ok o → keeps_ledger os f l → keeps_ledger (os ++ [o]) (send_step f o) (le_step l o).
Proof using Type.
intros Hp Ho Hk. pose proof (keeps_snoc_same os f l o Hp Ho Hk) as Hk'.
destruct o as [id b|id|id n|id off]; cbn [send_step]; [by apply keeps_new| |rewrite (SendWindowSize_room os f l id Hk)|by apply keeps_update].
- destruct Hk' as [Hops Hs Hc Hids Hg Ha]. split; cbn [le_step le_streams le_conn RemoveStream streamFlowController connFlowController];
    [done|by rewrite fmap_delete, Hs|done|by apply map_Forall_delete..|done].
- cbn [le_step]. destruct (send_room l id) as [r|] eqn:Er; [|done]. case_decide as Hn; [|done]. eapply keeps_send; [done..|exact Er|done].
Qed.
Lemma le_run_kept os : send_params_ok → Forall send_op_ok os →
keeps_ledger os (foldl send_step (NewFlowControlManager cp) os) (foldl le_step new_ledger os).
Proof using Type.
intros Hp Hos. induction os as [|o os IH] using rev_ind.
- destruct Hp. split; cbn; try done. unfold grant_ok. cbn. lia.
- apply Forall_app in Hos as [Hos Ho]. apply Forall_cons in Ho as [Ho _]. rewrite !foldl_app. cbn. apply le_step_kept; [done..|by apply IH].
Qed.
End manager.

(** * Properties *)

(** C24: the connection's account is exact: after any operations, each stream's
    highest offset is the maximum of the ones received, the connection's is the
    sum over the contributing streams, gone ones included, and neither passes
    its window; an operation fails only for an unknown stream, a reset below
    what was received, or an offset or total beyond the window. *)
Theorem flow_accounting cp os :
  params_ok cp → let new := {| ac_live := ∅; ac_gone := 0; ac_gone_read := 0 |} in
  ops_ok new os →
  match flow_run cp (NewFlowControlManager cp) os with
  | Ok f =>
      let a := foldl ac_step new os in
      account_of <$> streamFlowController f = ac_live a ∧
      highestReceived (connFlowController f) = total_highest a ∧
      bytesRead (connFlowController f) = total_read a ∧
      map_Forall (λ _ c, highestReceived c ≤ receiveWindow c)%Z (streamFlowController f) ∧
      (highestReceived (connFlowController f) ≤ receiveWindow (connFlowController f))%Z
  | Err e => ∃ os1 o os2 f1, os = os1 ++ o :: os2 ∧
      flow_run cp (NewFlowControlManager cp) os1 = Ok f1 ∧ justified f1 (foldl ac_step new os1) o e
  end.
Proof.
  intros Hcp new Hos. pose proof (flow_run_spec cp Hcp os _ _ (accounts_new cp Hcp) Hos) as Hrun.
  destruct (flow_run cp (NewFlowControlManager cp) os) as [f|e].
  - destruct Hrun as [Hl Hh Hr Hs Hc _]. split_and!; [done..| |apply Hc].
    intros id c Hid. apply (Hs id c Hid).
  - destruct Hrun as (os1 & o & os2 & f1 & ? & ? & _ & ?). by exists os1, o, os2, f1.
Qed.

Definition sample_params : ConnectionParameters := {|
  GetSendStreamFlowControlWindow := 1000; GetSendConnectionFlowControlWindow := 1500;
  GetReceiveStreamFlowControlWindow := 1000; GetReceiveConnectionFlowControlWindow := 1500;
  GetMaxReceiveStreamFlowControlWindow := 4000; GetMaxReceiveConnectionFlowControlWindow := 6000 |}.
Definition sample_flow : list flow_op :=
  [OpNew 5 true; OpNew 7 true; OpReceive 5 800; OpReceive 7 700; OpReceive 5 600; OpReceive 7 701].

Lemma flow_accounting_witness :
  let new := {| ac_live := ∅; ac_gone := 0; ac_gone_read := 0 |} in
  match flow_run sample_params (NewFlowControlManager sample_params) sample_flow with
  | Ok f =>
      let a := foldl ac_step new sample_flow in
      account_of <$> streamFlowController f = ac_live a ∧
      highestReceived (connFlowController f) = total_highest a ∧
      bytesRead (connFlowController f) = total_read a ∧
      map_Forall (λ _ c, highestReceived c ≤ receiveWindow c)%Z (streamFlowController f) ∧
      (highestReceived (connFlowController f) ≤ receiveWindow (connFlowController f))%Z
  | Err e => ∃ os1 o os2 f1, sample_flow = os1 ++ o :: os2 ∧
      flow_run sample_params (NewFlowControlManager sample_params) os1 = Ok f1 ∧
      justified f1 (foldl ac_step new os1) o e
  end.
Proof.
  apply (flow_accounting sample_params sample_flow); [by split; vm_compute|].
  repeat split; by vm_compute.
Defined.

(** C27: a sender that asks for [SendWindowSize] before it sends stays within what its peer allowed.  What was
    sent on a stream is at most the initial window or the largest WINDOW_UPDATE that came for the
    stream, and what was sent on the connection at most its initial window or the largest
    WINDOW_UPDATE for stream 0; and [SendWindowSize] is exactly the room that is left by an account of
    the calls: the last window less the bytes sent, for a stream that contributes to the connection
    the smaller of its own and the connection's. *)
Theorem sends_within_windows cp os :
  send_params_ok cp → Forall send_op_ok os →
  let f := foldl (send_step cp) (NewFlowControlManager cp) os in
  map_Forall (λ id c, bytesSent c ≤ allowed_to_send (GetSendStreamFlowControlWindow cp) id os)%Z (streamFlowController f) ∧
  (bytesSent (connFlowController f) ≤ allowed_to_send (GetSendConnectionFlowControlWindow cp) 0 os)%Z ∧
  ∀ id, SendWindowSize cp f id = match send_room cp (foldl (le_step cp) new_ledger os) id with Some n => Ok n | None => Err errMapAccess end.
Proof.
  intros Hp Hos f. pose proof (le_run_kept cp os Hp Hos) as Hk. split_and!; [| |intros id; by eapply SendWindowSize_room].
  - intros id c Hid. destruct Hk as [_ Hs _ _ Hg _]. specialize (Hg id (grant_of c)). rewrite <-Hs, lookup_fmap in Hg. fold f in Hg.
    rewrite Hid in Hg. by destruct (Hg eq_refl) as ([_ ?] & _).
  - destruct Hk as [_ _ [Hc _] _ _ Ha]. rewrite <-Hc in Ha. by destruct Ha as ([_ ?] & _).
Qed.

Definition sample_sends : list send_op :=
  [SNew 5 true; SSend 5 800; SUpdate 5 1200; SSend 5 300; SSend 5 900; SUpdate 0 2000; SNew 7 true; SSend 7 700].

Lemma sends_within_windows_witness :
  let f := foldl (send_step sample_params) (NewFlowControlManager sample_params) sample_sends in
  (bytesSent <$> streamFlowController f !! 5, bytesSent <$> streamFlowController f !! 7)%Z = (Some 1100, Some 700)%Z ∧
  (bytesSent (connFlowController f) ≤ 2000)%Z ∧ SendWindowSize sample_params f 7 = Ok 200%Z.
Proof.
  destruct (sends_within_windows sample_params sample_sends) as (H1 & H2 & H3); [by split; vm_compute|repeat constructor; done|].
  cbv zeta. split; [by vm_compute|]. split; [exact H2|]. rewrite (H3 7%Z). by vm_compute.
Defined.

(** [MaybeUpdateWindow] grants a new window exactly when less than half the
    increment is left; the window then grows strictly, to a full increment beyond
    what was read, and the increment at most doubles, within its maximum;
    otherwise nothing changes. *)
Theorem window_update_grants env c :
  fc_ok c →
  ∃ c' necessary increment offset, MaybeUpdateWindow env c = (c', (necessary, increment, offset)) ∧
    update_spec c c' necessary offset.
Proof. apply MaybeUpdateWindow_spec. Qed.

Lemma window_update_grants_witness :
  ∃ c' necessary increment offset,
    MaybeUpdateWindow {| env_now := 7; SmoothedRTT := 10; remoteRTTs := ∅ |}
      (newFlowController sample_params 5 true) = (c', (necessary, increment, offset)) ∧
    update_spec (newFlowController sample_params 5 true) c' necessary offset.
Proof. apply window_update_grants. split; by vm_compute. Defined.

(** A WINDOW_UPDATE below the initial window shrinks the window: the comparison is
    with the update received last, not with the window in force. *)
Lemma window_update_shrinks :
  let c := newFlowController sample_params 5 true in
  fc_SendWindowSize sample_params c = 1000%Z ∧
  fc_SendWindowSize sample_params (UpdateSendWindow c 400).1 = 400%Z ∧
  (UpdateSendWindow c 400).2 = true.
Proof. done. Qed.
