(* ===== verification/AckCodec.v ===== *)
(** ACK and CLOSE_PATH frames on the wire (src/mp-quic/internal/wire:
    ack_frame.go, close_path_frame.go).

    Both frames carry the largest acknowledged packet number, the length of the
    first range and, for the ranges below it, blocks of a gap and a length; a
    gap of more than 255 packets takes several blocks.  A frame has at most 255
    blocks, so [Write] sends a prefix of long range lists.  [time.Since] is an
    argument of [Write]. *)

From Stdlib Require Import ZArith Lia.
From Stdlib Require Import Strings.Byte.
From stdpp Require Import prelude numbers list.
From S2P Require Import Prelude ByteOrder Protocol Wire ReceivedPackets.

Open Scope Z_scope.

(** * Ranges as blocks *)

Definition range_length (r : AckRange) : Z := u64 (Last r - First r + 1).
Definition range_gap (prev r : AckRange) : Z := u64 (First prev - Last r - 1).

(** The blocks a gap takes. *)
Definition gap_blocks (gap : Z) : Z :=
  let num := gap / 255 + 1 in if decide (gap mod 255 = 0) then num - 1 else num.

Definition max_range_length (rs : list AckRange) : Z :=
  foldl (λ m r, if decide (m < range_length r) then range_length r else m) 0 rs.

Definition getMissingSequenceNumberDeltaLen (f : AckFrame) : Z :=
  let maxRangeLength := if HasMissingRanges f then max_range_length (AckRanges f)
                        else u64 (LargestAcked f - LowestAcked f + 1) in
  if decide (maxRangeLength ≤ 255) then PacketNumberLen1
  else if decide (maxRangeLength ≤ 65535) then PacketNumberLen2
  else if decide (maxRangeLength ≤ 4294967295) then PacketNumberLen4
  else PacketNumberLen6.

(** The loop over the ranges after the first. *)
Fixpoint count_writable (prev : AckRange) (rs : list AckRange) (numRanges : Z) : Z :=
  match rs with
  | [] => numRanges
  | r :: rs =>
      let rangeLength := gap_blocks (range_gap prev r) in
      if decide (u64 (numRanges + rangeLength) < 255)
      then count_writable r rs (u64 (numRanges + rangeLength)) else numRanges
  end.
Definition numWritableNackRanges (f : AckFrame) : Z :=
  match AckRanges f with [] => 0 | r :: rs => count_writable r rs 0 + 1 end.

(** The blocks [Write] emits for a range: gap byte and length. *)
Definition range_blocks (gap length : Z) : list (Z * Z) :=
  let num := gap_blocks gap in
  if decide (num = 1) then [(u8 gap, length)]
  else (λ i, if decide (i = num - 1) then (u8 (1 + u64 (gap - 1) mod 255), length)
             else (255, 0)) <$> seqZ 0 num.

(** Ranges are written until [numRanges] blocks are out. *)
Fixpoint ranges_blocks (numRanges numRangesWritten : Z) (prev : AckRange) (rs : list AckRange) :
    list (Z * Z) :=
  match rs with
  | [] => []
  | r :: rs =>
      let blocks := range_blocks (range_gap prev r) (range_length r) in
      let numRangesWritten := u64 (numRangesWritten + zlen blocks) in
      blocks ++ if decide (numRanges ≤ numRangesWritten) then []
                else ranges_blocks numRanges numRangesWritten r rs
  end.

(** * Writing *)

(** [switch len] over the four widths; [mask] is applied for six bytes. *)
Definition write_width (bo : ByteOrder) (mask : Z → Z) (width v : Z) (k : written) : written :=
  match width with
  | 1 => put (put_byte (byte_of v)) k
  | 2 => put (WriteUint16 bo (u16 v)) k
  | 4 => put (WriteUint32 bo (u32 v)) k
  | 6 => put (WriteUint48 bo (mask v)) k
  | _ => k
  end.
Definition mask48 (v : Z) : Z := Z.land v (Z.shiftl 1 48 - 1).

Fixpoint write_blocks (bo : ByteOrder) (mask : Z → Z) (width : Z) (blocks : list (Z * Z))
    (k : written) : written :=
  match blocks with
  | [] => k
  | (gap, length) :: blocks =>
      put (put_byte (byte_of gap)) (write_width bo mask width length (write_blocks bo mask width blocks k))
  end.

(** The first block length and the blocks; [k] follows. *)
Definition write_ranges (bo : ByteOrder) (mask : Z → Z) (f : AckFrame) (k : written) : written :=
  let width := getMissingSequenceNumberDeltaLen f in
  match AckRanges f with
  | [] => write_width bo mask width (u64 (LargestAcked f - LowestAcked f + 1)) k
  | r :: rs =>
      if decide (LargestAcked f ≠ Last r) then abort errInconsistentAckLargestAcked
      else if decide (LowestAcked f ≠ First (default r (last rs))) then abort errInconsistentAckLowestAcked
      else
        let numRanges := numWritableNackRanges f in
        let blocks := ranges_blocks numRanges 1 r rs in
        write_width bo mask width (u64 (LargestAcked f - First r + 1))
          (write_blocks bo mask width blocks
            (if decide (numRanges ≠ u64 (1 + zlen blocks)) then abort errInconsistentAckRanges else k))
  end.

(** The number of blocks that follow the first. *)
Definition write_num_blocks (f : AckFrame) (k : written) : written :=
  if HasMissingRanges f then
    let numRanges := numWritableNackRanges f in
    if decide (255 < numRanges) then None
    else put (put_byte (byte_of (numRanges - 1))) k
  else k.

(** The bits of the type byte (or flags) that give the two widths. *)
Definition len_bits (largestAckedLen deltaLen t : Z) : Z :=
  let t := if decide (largestAckedLen ≠ PacketNumberLen1)
           then Z.lxor t (u8 (Z.shiftl (u8 (largestAckedLen / 2)) 2)) else t in
  if decide (deltaLen ≠ PacketNumberLen1) then Z.lxor t (u8 (deltaLen / 2)) else t.

Definition InitialPathID : Z := 0.

Definition write_AckFrame (version : Z) (f : AckFrame) (since : Z) : written :=
  let bo := GetByteOrder version in
  let largestAckedLen := GetPacketNumberLength (LargestAcked f) in
  let typeByte := len_bits largestAckedLen (getMissingSequenceNumberDeltaLen f) 64 in
  let typeByte := if HasMissingRanges f then Z.lor typeByte 32 else typeByte in
  let typeByte := if decide (APathID f ≠ InitialPathID) then Z.lor typeByte 16 else typeByte in
  put (put_byte (byte_of typeByte))
    (put (if decide (APathID f ≠ InitialPathID) then put_byte (byte_of (APathID f)) else Some [])
      (write_width bo mask48 largestAckedLen (LargestAcked f)
        (put (writeUfloat16 bo (u64 (Z.quot since Microsecond)))
          (write_num_blocks f
            (write_ranges bo mask48 f (put (put_byte x00) finish)))))).

Definition ack_MinLength (f : AckFrame) : Z :=
  let length := 1 + 2 + 1 + GetPacketNumberLength (LargestAcked f) in
  let deltaLen := getMissingSequenceNumberDeltaLen f in
  let length := if HasMissingRanges f then length + (1 + deltaLen) * numWritableNackRanges f
                else length + deltaLen in
  if decide (APathID f ≠ InitialPathID) then length + 1 else length.

(** * Parsing *)

(** The two widths a type byte (or flags) announces. *)
Definition largest_acked_len (t : Z) : Z :=
  let l := 2 * Z.shiftr (Z.land t 12) 2 in if decide (l = 0) then 1 else l.
Definition delta_len (t : Z) : Z :=
  let l := 2 * Z.land t 3 in if decide (l = 0) then 1 else l.

(** The last range first, the ranges before it, and the two flags of the loop. *)
Record block_state : Type := {
  current : AckRange; previous : list AckRange; inLongBlock : bool; lastRangeComplete : bool
}.
Definition parse_block (gap length : Z) (s : block_state) : block_state :=
  let s := if inLongBlock s then
    {| current := {| First := u64 (First (current s) - u64 (gap + length));
                     Last := u64 (Last (current s) - gap) |};
       previous := previous s; inLongBlock := true; lastRangeComplete := lastRangeComplete s |}
  else
    let lst := u64 (First (current s) - gap - 1) in
    {| current := {| First := u64 (lst - length + 1); Last := lst |};
       previous := current s :: previous s; inLongBlock := false; lastRangeComplete := false |} in
  {| current := current s; previous := previous s;
     inLongBlock := bool_decide (length = 0);
     lastRangeComplete := if decide (0 < length) then true else lastRangeComplete s |}.

Fixpoint parse_blocks (bo : ByteOrder) (width : Z) (n : nat) (s : block_state) : reader block_state :=
  match n with
  | O => mret s
  | S n =>
      gap ← ReadByte; length ← ReadUintN bo width;
      parse_blocks bo width n (parse_block (byte_val gap) length s)
  end.

(** An incomplete last range is dropped; the first block opened a range, so one is left. *)
Definition complete_ranges (s : block_state) : AckRange * list AckRange :=
  match lastRangeComplete s, previous s with
  | false, r :: rs => (r, rs)
  | _, rs => (current s, rs)
  end.

(** The ranges, in the order of the frame, and [LowestAcked]. *)
Definition parse_ranges (bo : ByteOrder) (width : Z) (hasMissingRanges : bool)
    (numAckBlocks largestAcked : Z) : reader (list AckRange * Z) :=
  ackBlockLength ← ReadUintN bo width;
  if decide (0 < largestAcked ∧ ackBlockLength < 1) then fail ErrInvalidFirstAckRange
  else if decide (largestAcked < ackBlockLength) then fail ErrInvalidAckRanges
  else if hasMissingRanges then
    s ← parse_blocks bo width (Z.to_nat numAckBlocks)
          {| current := {| First := u64 (largestAcked - ackBlockLength + 1); Last := largestAcked |};
             previous := []; inLongBlock := false; lastRangeComplete := false |};
    let '(cur, prevs) := complete_ranges s in
    mret (reverse (cur :: prevs), First cur)
  else mret ([], if decide (largestAcked = 0) then 0 else u64 (largestAcked + 1 - ackBlockLength)).

Fixpoint skip_timestamps (bo : ByteOrder) (n : nat) : reader () :=
  match n with
  | O => mret ()
  | S n => _ ← ReadByte; _ ← ReadUint16 bo; skip_timestamps bo n
  end.

Definition ParseAckFrame (version : Z) : reader AckFrame :=
  let bo := GetByteOrder version in
  tb ← ReadByte;
  let typeByte := byte_val tb in
  let hasMissingRanges := bool_decide (Z.land typeByte 32 = 32) in
  pathID ← (if decide (Z.land typeByte 16 = 16) then b ← ReadByte; mret (byte_val b) else mret 0);
  largestAcked ← ReadUintN bo (largest_acked_len typeByte);
  delay ← readUfloat16 bo;
  numAckBlocks ← (if hasMissingRanges then b ← ReadByte; mret (byte_val b) else mret 0);
  if decide (hasMissingRanges = true ∧ numAckBlocks = 0) then fail ErrInvalidAckRanges
  else
    r ← parse_ranges bo (delta_len typeByte) hasMissingRanges numAckBlocks largestAcked;
    let frame := {| APathID := pathID; LargestAcked := largestAcked; LowestAcked := r.2;
                    AckRanges := r.1; PacketReceivedTime := None;
                    DelayTime := i64 (i64 delay * Microsecond) |} in
    if validateAckRanges frame then
      numTimestamp ← ReadByte;
      if decide (0 < byte_val numTimestamp) then
        _ ← ReadByte; _ ← ReadUint32 bo;
        _ ← skip_timestamps bo (Z.to_nat (byte_val numTimestamp - 1));
        mret frame
      else mret frame
    else fail ErrInvalidAckRanges.

(** * CLOSE_PATH frames *)

(** close_path_frame.go repeats the range code of ack_frame.go. *)
Definition as_ack (f : ClosePathFrame) : AckFrame := {|
  APathID := CPathID f; LargestAcked := CLargestAcked f; LowestAcked := CLowestAcked f;
  AckRanges := CAckRanges f; PacketReceivedTime := None; DelayTime := 0
|}.

Module ClosePath.
Definition HasMissingRanges (f : ClosePathFrame) : bool := bool_decide (0 < zlen (CAckRanges f)).
Definition validateAckRanges (f : ClosePathFrame) : bool := ReceivedPackets.validateAckRanges (as_ack f).
Definition getMissingSequenceNumberDeltaLen (f : ClosePathFrame) : Z :=
AckCodec.getMissingSequenceNumberDeltaLen (as_ack f).
Definition numWritableNackRanges (f : ClosePathFrame) : Z := AckCodec.numWritableNackRanges (as_ack f).
Definition AcksPacket (f : ClosePathFrame) (p : Z) : bool := ReceivedPackets.AcksPacket (as_ack f) p.

Definition Write (version : Z) (f : ClosePathFrame) : written :=
let bo := GetByteOrder version in
let largestAckedLen := GetPacketNumberLength (CLargestAcked f) in
let flags := if HasMissingRanges f then 16 else 0 in
let flags := len_bits largestAckedLen (getMissingSequenceNumberDeltaLen f) flags in
put (put_byte x11)
  (put (put_byte (byte_of (CPathID f)))
    (put (put_byte (byte_of flags))
      (write_num_blocks (as_ack f)
        (write_width bo id largestAckedLen (CLargestAcked f)
          (write_ranges bo id (as_ack f) finish))))).

Definition MinLength (f : ClosePathFrame) : Z :=
let length := 1 + 1 + 1 + GetPacketNumberLength (CLargestAcked f) in
let deltaLen := getMissingSequenceNumberDeltaLen f in
if HasMissingRanges f then length + (1 + deltaLen) * numWritableNackRanges f
else length + deltaLen.

Definition Parse (version : Z) : reader ClosePathFrame :=
let bo := GetByteOrder version in
_ ← ReadByte;
pathID ← ReadByte;
fb ← ReadByte;
let flags := byte_val fb in
let hasMissingRanges := bool_decide (Z.land flags 16 = 16) in
numAckBlocks ← (if hasMissingRanges then b ← ReadByte; mret (byte_val b) else mret 0);
if decide (hasMissingRanges = true ∧ numAckBlocks = 0) then fail ErrInvalidAckRanges
else
  largestAcked ← ReadUintN bo (largest_acked_len flags);
  r ← parse_ranges bo (delta_len flags) hasMissingRanges numAckBlocks largestAcked;
  let frame := {| CPathID := byte_val pathID; CLargestAcked := largestAcked;
                  CLowestAcked := r.2; CAckRanges := r.1 |} in
  if validateAckRanges frame then mret frame else fail ErrInvalidAckRanges.
End ClosePath.


(** * Blocks and ranges *)

(** Ranges in descending order from below [lo], of numbers from 1 on. *)
Fixpoint below (lo : Z) (rs : list AckRange) : Prop :=
  match rs with
  | [] => True
  | r :: rs => 1 ≤ First r ≤ Last r ∧ Last r + 1 < lo ∧ below (First r) rs
  end.

(** The ranges [Write] sends after [prev], with [n] blocks used. *)
Fixpoint fitting (prev : AckRange) (rs : list AckRange) (n : Z) : list AckRange :=
  match rs with
  | [] => []
  | r :: rs =>
      let n := n + gap_blocks (range_gap prev r) in
      if decide (n < 255) then r :: fitting r rs n else []
  end.

(** Their blocks. *)
Fixpoint all_blocks (prev : AckRange) (rs : list AckRange) : list (Z * Z) :=
  match rs with
  | [] => []
  | r :: rs => range_blocks (range_gap prev r) (range_length r) ++ all_blocks r rs
  end.

Lemma gap_blocks_bounds gap :
  1 ≤ gap → 1 ≤ gap_blocks gap ∧ gap = 255 * (gap_blocks gap - 1) + (1 + (gap - 1) mod 255).
Proof.
  intros Hg. unfold gap_blocks. pose proof (Z.div_mod gap 255). pose proof (Z.mod_pos_bound gap 255).
  pose proof (Z.div_mod (gap - 1) 255). pose proof (Z.mod_pos_bound (gap - 1) 255).
  case_decide; lia.
Qed.

Lemma range_blocks_eq gap len :
  1 ≤ gap < 2 ^ 64 →
  range_blocks gap len =
    replicate (Z.to_nat (gap_blocks gap - 1)) (255, 0) ++ [(1 + (gap - 1) mod 255, len)].
Proof.
  intros Hg. destruct (gap_blocks_bounds gap) as [Hn Hgap]; [lia|].
  pose proof (Z.mod_pos_bound (gap - 1) 255 eq_refl) as Hm.
  unfold range_blocks. rewrite u64_small by lia. rewrite (u8_small (1 + _)) by lia.
  case_decide as H1.
  - rewrite H1 in *. simpl. rewrite u8_small by lia. repeat f_equal. lia.
  - assert (seqZ 0 (gap_blocks gap) = seqZ 0 (gap_blocks gap - 1) ++ [gap_blocks gap - 1]) as ->.
    { replace (gap_blocks gap) with (gap_blocks gap - 1 + 1) at 1 by lia.
      rewrite seqZ_app by lia. f_equal. }
    rewrite fmap_app. f_equal.
    + apply list_eq_Forall2, Forall2_same_length_lookup. split.
      { rewrite length_fmap, length_seqZ, length_replicate. done. }
      intros i x y Hx Hy. apply lookup_replicate in Hy as [-> Hi].
      apply list_lookup_fmap_Some in Hx as (j & -> & Hj). apply lookup_seqZ in Hj as [-> Hj].
      rewrite decide_False by lia. done.
    + cbn. by rewrite decide_True by lia.
Qed.

Lemma zlen_range_blocks gap len : 1 ≤ gap < 2 ^ 64 → zlen (range_blocks gap len) = gap_blocks gap.
Proof.
  intros Hg. destruct (gap_blocks_bounds gap) as [Hn _]; [lia|].
  rewrite range_blocks_eq, zlen_app, zlen_replicate by done. change (zlen [_]) with 1. lia.
Qed.

Lemma below_gap prev r rs :
  First prev < 2 ^ 64 → below (First prev) (r :: rs) →
  range_gap prev r = First prev - Last r - 1 ∧ 1 ≤ range_gap prev r < 2 ^ 64 ∧
  range_length r = Last r - First r + 1 ∧ 1 ≤ range_length r.
Proof.
  intros Hp (Hr & Hl & _). unfold range_gap, range_length. rewrite !u64_small by lia. lia.
Qed.

Lemma count_writable_fitting prev rs n :
  0 ≤ n < 255 → First prev < 2 ^ 64 → below (First prev) rs →
  n ≤ count_writable prev rs n < 255 ∧
  count_writable prev rs n = n + zlen (all_blocks prev (fitting prev rs n)).
Proof.
  revert prev n. induction rs as [|r rs IH]; intros prev n Hn Hp Hb; cbn [count_writable fitting].
  { change (zlen (all_blocks prev [])) with 0. lia. }
  destruct (below_gap prev r rs Hp Hb) as (_ & Hg & _).
  destruct (gap_blocks_bounds (range_gap prev r)) as [Hk Hk']; [lia|]. pose proof (Z.mod_pos_bound (range_gap prev r - 1) 255 eq_refl).
  rewrite u64_small by lia. destruct Hb as (Hr & Hl & Hb). case_decide.
  - destruct (IH r (n + gap_blocks (range_gap prev r))) as [H1 H2]; [lia|lia|done|].
    split; [lia|]. cbn [all_blocks]. rewrite zlen_app, zlen_range_blocks by done. lia.
  - change (zlen (all_blocks prev [])) with 0. lia.
Qed.

Lemma zlen_all_blocks_pos prev r rs : 
  First prev < 2 ^ 64 → below (First prev) (r :: rs) → 1 ≤ zlen (all_blocks prev (r :: rs)).
Proof.
  intros Hp Hb. destruct (below_gap prev r rs Hp Hb) as (_ & Hg & _).
  cbn [all_blocks]. rewrite zlen_app, zlen_range_blocks by done.
  destruct (gap_blocks_bounds (range_gap prev r)); [lia|]. pose proof (zlen_nonneg (all_blocks r rs)). lia.
Qed.

Lemma below_fitting prev rs n lo : below lo rs → below lo (fitting prev rs n).
Proof.
  revert prev n lo. induction rs as [|r rs IH]; intros prev n lo; cbn [fitting]; [done|].
  intros (Hr & Hl & Hb). case_decide; [|done].
  split; [done|split; [done|by apply IH]].
Qed.

(** [Write] emits exactly the blocks of the ranges that fit, if the first does. *)
Lemma ranges_blocks_fitting prev rs n :
  0 ≤ n < 255 → First prev < 2 ^ 64 → below (First prev) rs → fitting prev rs n ≠ [] →
  ranges_blocks (count_writable prev rs n + 1) (n + 1) prev rs = all_blocks prev (fitting prev rs n).
Proof.
  revert prev n. induction rs as [|r rs IH]; intros prev n Hn Hp Hb Hf; [done|].
  destruct (count_writable_fitting prev (r :: rs) n) as [Hc _]; [done..|].
  cbn [count_writable fitting ranges_blocks] in *.
  destruct (below_gap prev r rs Hp Hb) as (_ & Hg & _). destruct Hb as (Hr & Hl & Hb).
  destruct (gap_blocks_bounds (range_gap prev r)) as [Hk Hk']; [lia|].
  pose proof (Z.mod_pos_bound (range_gap prev r - 1) 255 eq_refl).
  rewrite zlen_range_blocks by done. rewrite (u64_small (n + gap_blocks _)) in * by lia.
  case_decide as Hlt; [|done]. rewrite u64_small by lia. cbn [all_blocks]. f_equal.
  destruct (count_writable_fitting r rs (n + gap_blocks (range_gap prev r))) as [Hc1 Hc2]; [lia|lia|done|].
  destruct (fitting r rs _) as [|r' rs'] eqn:Ef.
  - change (zlen (all_blocks r [])) with 0 in Hc2. by rewrite decide_True by lia.
  - assert (1 ≤ zlen (all_blocks r (r' :: rs'))).
    { apply zlen_all_blocks_pos; [lia|]. rewrite <-Ef. by apply below_fitting. }
    rewrite decide_False by lia. rewrite <-Ef.
    replace (n + 1 + gap_blocks (range_gap prev r)) with (n + gap_blocks (range_gap prev r) + 1) by lia.
    apply IH; [lia|lia|done|by rewrite Ef].
Qed.

(** ** The parser's loop *)

Lemma parse_long n f l prevs c :
  0 ≤ f - 255 * Z.of_nat n → 0 ≤ l - 255 * Z.of_nat n → f < 2 ^ 64 → l < 2 ^ 64 →
  foldl (λ s b, parse_block b.1 b.2 s)
    {| current := {| First := f; Last := l |}; previous := prevs; inLongBlock := true; lastRangeComplete := c |}
    (replicate n (255, 0)) =
  {| current := {| First := f - 255 * Z.of_nat n; Last := l - 255 * Z.of_nat n |};
     previous := prevs; inLongBlock := true; lastRangeComplete := c |}.
Proof.
  revert f l. induction n as [|n IH]; intros f l Hf Hl Hf' Hl'; cbn [replicate foldl].
  { do 2 f_equal; lia. }
  unfold parse_block at 2. cbn [inLongBlock current previous lastRangeComplete First Last fst snd].
  rewrite (u64_small (255 + 0)), !u64_small by lia. rewrite decide_False by lia. rewrite bool_decide_true by done.
  rewrite IH by lia. do 2 f_equal; lia.
Qed.

(** A range is read back from its blocks. *)
Lemma parse_range r s rs :
  inLongBlock s = false → First (current s) < 2 ^ 64 → below (First (current s)) (r :: rs) →
  foldl (λ s b, parse_block b.1 b.2 s) s (range_blocks (range_gap (current s) r) (range_length r)) =
  {| current := r; previous := current s :: previous s; inLongBlock := false; lastRangeComplete := true |}.
Proof.
  intros Hs Hp Hb. destruct (below_gap _ r rs Hp Hb) as (Eg & Hg & El & Hl).
  destruct (gap_blocks_bounds (range_gap (current s) r)) as [Hk Hk']; [lia|].
  rewrite range_blocks_eq by done. destruct Hb as (Hr & Hlast & _).
  pose proof (Z.mod_pos_bound (range_gap (current s) r - 1) 255 eq_refl) as Hm.
  remember (1 + (range_gap (current s) r - 1) mod 255) as g eqn:Hgdef.
  remember (gap_blocks (range_gap (current s) r)) as num eqn:Hnum.
  remember (range_length r) as len eqn:Hlen.
  destruct r as [f l]. cbn [First Last] in *. destruct s as [[cf cl] prevs inl lrc].
  cbn [current previous inLongBlock First] in *. subst inl.
  destruct (decide (num = 1)) as [->|Hn1].
  - simpl. unfold parse_block. cbn [inLongBlock current previous lastRangeComplete First Last fst snd].
    rewrite bool_decide_false, decide_True by lia. rewrite !u64_small by (rewrite ?u64_small; lia).
    repeat f_equal; lia.
  - rewrite foldl_app. destruct (Z.to_nat (num - 1)) as [|m] eqn:Em; [lia|].
    cbn [replicate foldl]. unfold parse_block at 3.
    cbn [inLongBlock current previous lastRangeComplete First Last fst snd].
    rewrite bool_decide_true, decide_False by lia.
    rewrite (u64_small (cf - 255 - 1)) by lia. rewrite (u64_small (cf - 255 - 1 - 0 + 1)) by lia.
    rewrite parse_long by lia.
    unfold parse_block. cbn [inLongBlock current previous lastRangeComplete First Last fst snd].
    rewrite bool_decide_false, decide_True by lia. rewrite !u64_small by (rewrite ?u64_small; lia).
    repeat f_equal; lia.
Qed.

Lemma parse_all_blocks rs s :
  inLongBlock s = false → First (current s) < 2 ^ 64 → below (First (current s)) rs →
  let s' := foldl (λ s b, parse_block b.1 b.2 s) s (all_blocks (current s) rs) in
  current s' :: previous s' = reverse rs ++ current s :: previous s ∧
  (rs ≠ [] → lastRangeComplete s' = true).
Proof.
  revert s. induction rs as [|r rs IH]; intros s Hs Hp Hb; [done|].
  cbn [all_blocks]. rewrite foldl_app, (parse_range r s rs) by done. destruct Hb as (Hr & Hl & Hb).
  cbv zeta. set (s1 := {| current := r; previous := _; inLongBlock := _; lastRangeComplete := _ |}).
  destruct (IH s1) as [H1 H2]; [done|simpl; lia|done|]. cbn [current s1] in H1, H2. split.
  - rewrite H1. cbn [previous s1]. rewrite reverse_cons, <-app_assoc. done.
  - intros _. destruct rs; [done|]. by apply H2.
Qed.

(** ** Widths *)

Lemma max_range_length_spec rs m :
  let m' := foldl (λ m r, if decide (m < range_length r) then range_length r else m) m rs in
  m ≤ m' ∧ Forall (λ r, range_length r ≤ m') rs ∧
  ∀ b, m < b → Forall (λ r, range_length r < b) rs → m' < b.
Proof.
  revert m. induction rs as [|r rs IH]; intros m; cbn [foldl].
  { split; [lia|]. split; [constructor|]. auto. }
  destruct (IH (if decide (m < range_length r) then range_length r else m)) as (H1 & H2 & H3).
  split; [case_decide; lia|]. split.
  - constructor; [case_decide; lia|done].
  - intros b Hm [Hr Hrs]%Forall_cons. apply H3; [case_decide; lia|done].
Qed.

(** What the peer must have acknowledged for a frame to be sent faithfully:
    consistent ranges over 48-bit packet numbers from 1 on. *)
Record ack_sendable (f : AckFrame) : Prop := {
  as_path : 0 ≤ APathID f < 2 ^ 8;
  as_lowest : 1 ≤ LowestAcked f ≤ LargestAcked f;
  as_largest : LargestAcked f < 2 ^ 48;
  as_valid : validateAckRanges f = true;
  as_first r rs : AckRanges f = r :: rs → LowestAcked f = First (default r (last rs));
  as_uint : Forall (λ r, 0 ≤ First r ∧ 0 ≤ Last r ≤ MaxPacketNumber) (AckRanges f)
}.

Lemma consistent_below prev rs :
  consistent_after prev rs = true → First prev < 2 ^ 48 → 1 ≤ First (default prev (last rs)) →
  Forall (λ r, First r ≤ Last r) rs → Forall (λ r, 0 ≤ First r ∧ 0 ≤ Last r ≤ MaxPacketNumber) rs →
  below (First prev) rs ∧ First (default prev (last rs)) ≤ First prev.
Proof.
  revert prev. induction rs as [|r rs IH]; intros prev; [simpl; lia|].
  cbn [consistent_after]. intros Hc Hp Hl [Hr Hrs]%Forall_cons [[Hu1 Hu2] Hu]%Forall_cons.
  destruct (decide (First prev ≤ First r)) as [|Hf]; [done|].
  destruct (decide (First prev ≤ u64 (Last r + 1))) as [|Hlast]; [done|].
  assert (default prev (last (r :: rs)) = default r (last rs)) as Ed
    by (rewrite last_cons; by destruct (last rs)).
  rewrite Ed in *. destruct (IH r) as [Hb Hle]; [done|lia|done..|].
  assert (Last r + 1 < First prev).
  { unfold MaxPacketNumber in *. rewrite u64_small in Hlast by lia. lia. }
  cbn [below]. split_and!; try done; lia.
Qed.

Lemma sendable_ranges f r rs :
  ack_sendable f → AckRanges f = r :: rs →
  rs ≠ [] ∧ Last r = LargestAcked f ∧ 1 ≤ First r ≤ Last r ∧ below (First r) rs.
Proof.
  intros [Hp Hl Hlg Hv Hf Hu] E. unfold validateAckRanges in Hv. specialize (Hf r rs E).
  rewrite E in *. destruct (decide (zlen (r :: rs) = 1)) as [|H1]; [done|].
  destruct (decide (Last r ≠ LargestAcked f)) as [|H2]; [done|].
  destruct (existsb _ _) eqn:H3; [done|]. apply Forall_cons in Hu as [[Hu1 Hu2] Hu].
  assert (Forall (λ r, First r ≤ Last r) (r :: rs)) as Hle.
  { apply Forall_forall. intros x Hx%list_elem_of_In. destruct (decide (Last x < First x)) as [Hlt|]; [|lia].
    assert (existsb (λ r, bool_decide (Last r < First r)) (r :: rs) = true) as Ht.
    { apply existsb_exists. exists x. split; [done|by apply bool_decide_eq_true]. }
    congruence. }
  apply Forall_cons in Hle as [Hr Hrs]. apply dec_stable in H2.
  destruct (consistent_below r rs) as [Hb Hlow]; [done|lia|lia|done..|].
  split; [by intros ->|]. split_and!; try done; lia.
Qed.

Lemma below_forall lo rs :
  below lo rs → lo < 2 ^ 48 → Forall (λ r, 1 ≤ range_length r < 2 ^ 48) rs.
Proof.
  revert lo. induction rs as [|r rs IH]; intros lo; [constructor|]. intros (Hr & Hl & Hb) Hlo.
  constructor; [|apply (IH (First r)); [done|lia]]. unfold range_length. rewrite u64_small; lia.
Qed.

Lemma width_spec m :
  m < 2 ^ 48 →
  let w := if decide (m ≤ 255) then PacketNumberLen1
           else if decide (m ≤ 65535) then PacketNumberLen2
           else if decide (m ≤ 4294967295) then PacketNumberLen4 else PacketNumberLen6 in
  valid_len w ∧ m < 2 ^ (8 * w).
Proof.
  intros Hm. unfold PacketNumberLen1, PacketNumberLen2, PacketNumberLen4, PacketNumberLen6, valid_len.
  repeat case_decide; (split; [by auto|simpl; lia]).
Qed.

Lemma largest_width v : 0 ≤ v < 2 ^ 48 →
  valid_len (GetPacketNumberLength v) ∧ v < 2 ^ (8 * GetPacketNumberLength v).
Proof.
  intros Hv. unfold GetPacketNumberLength, PacketNumberLen1, PacketNumberLen2, PacketNumberLen4,
    PacketNumberLen6, valid_len. rewrite !Z.shiftl_mul_pow2 by lia.
  repeat case_decide; (split; [by auto|simpl; lia]).
Qed.

(** The width holds the length of every range. *)
Lemma delta_width f :
  ack_sendable f →
  let w := getMissingSequenceNumberDeltaLen f in
  valid_len w ∧
  (AckRanges f = [] → 1 ≤ LargestAcked f - LowestAcked f + 1 < 2 ^ (8 * w)) ∧
  Forall (λ r, 1 ≤ range_length r < 2 ^ (8 * w)) (AckRanges f).
Proof.
  intros Hf. pose proof Hf as [Hp Hl Hlg Hv Hfi Hu]. unfold getMissingSequenceNumberDeltaLen, HasMissingRanges.
  destruct (AckRanges f) as [|r rs] eqn:E.
  - rewrite bool_decide_false by (unfold zlen; simpl; lia). rewrite u64_small by lia.
    destruct (width_spec (LargestAcked f - LowestAcked f + 1)) as [H1 H2]; [lia|].
    cbv zeta. split; [done|]. split; [lia|constructor].
  - rewrite bool_decide_true by (rewrite zlen_cons; pose proof (zlen_nonneg rs); lia).
    destruct (sendable_ranges f r rs Hf E) as (_ & Hlast & Hr & Hb).
    destruct (max_range_length_spec (r :: rs) 0) as (_ & Hle & Hlt).
    assert (Forall (λ r, 1 ≤ range_length r < 2 ^ 48) (r :: rs)) as Hlen.
    { constructor; [unfold range_length; rewrite u64_small; lia|].
      apply (below_forall (First r)); [done|lia]. }
    destruct (width_spec (max_range_length (r :: rs))) as [H1 H2].
    { apply Hlt; [lia|]. eapply Forall_impl; [exact Hlen|]. simpl. lia. }
    cbv zeta. split; [exact H1|]. split; [done|].
    eapply Forall_impl; [apply Forall_and; split; [exact Hlen|exact Hle]|].
    fold (max_range_length (r :: rs)). intros x [Hx1 Hx2]. simpl in Hx1, Hx2. split; [lia|].
    eapply Z.le_lt_trans; [exact Hx2|exact H2].
Qed.

(** ** Writing and reading at a width *)

Definition mask_ok (mask : Z → Z) : Prop := ∀ v, 0 ≤ v < 2 ^ 48 → mask v = v.
Lemma mask48_ok : mask_ok mask48.
Proof.
  intros v Hv. unfold mask48. change (Z.shiftl 1 48 - 1) with (Z.ones 48).
  rewrite Z.land_ones by lia. by apply Z.mod_small.
Qed.
Lemma id_ok : mask_ok id.
Proof. done. Qed.

(** The bytes emitted and the error returned. *)
Definition emits (w : written) (bs : list byte) (e : option WireError) : Prop := w = Some (bs, e).

Lemma emits_put b bs1 k bs2 e : b = Some bs1 → emits k bs2 e → emits (put b k) (bs1 ++ bs2) e.
Proof. by intros -> ->. Qed.

Section widths.
Context (bo : ByteOrder) `{!ByteOrderLaws bo} (mask : Z → Z) (Hmask : mask_ok mask).

Lemma write_width_ok w v k bs e :
  valid_len w → 0 ≤ v < 2 ^ (8 * w) → emits k bs e →
  emits (write_width bo mask w v k) (enc (Z.to_nat w) v ++ bs) e.
Proof using ByteOrderLaws0 Hmask.
  intros Hw Hv Hk. destruct Hw as [->|[->|[->| ->]]]; cbn [write_width]; (eapply emits_put; [|exact Hk]).
  - unfold put_byte. f_equal. symmetry. apply write_byte. lia.
  - rewrite u16_small by lia. apply write_uint16. lia.
  - rewrite u32_small by lia. apply write_uint32. lia.
  - rewrite Hmask by lia. apply write_uint48. lia.
Qed.

Lemma read_width w v :
  valid_len w → 0 ≤ v < 2 ^ (8 * w) → reads (ReadUintN bo w) (enc (Z.to_nat w) v) v.
Proof using ByteOrderLaws0.
  intros Hw Hv. assert (Z.of_nat (Z.to_nat w) = w) as Ew by (unfold valid_len in Hw; lia).
  pose proof (read_uintN (Z.to_nat w) v) as Hr. rewrite pow256, Ew in Hr.
  apply Hr; [unfold valid_len in Hw; lia|done].
Qed.

Definition block_ok (w : Z) (b : Z * Z) : Prop := 0 ≤ b.1 < 256 ∧ 0 ≤ b.2 < 2 ^ (8 * w).

Lemma write_blocks_ok w blocks k bs e :
  valid_len w → Forall (block_ok w) blocks → emits k bs e →
  ∃ b, emits (write_blocks bo mask w blocks k) (b ++ bs) e ∧ zlen b = (1 + w) * zlen blocks ∧
    ∀ s, reads (parse_blocks bo w (length blocks) s) b (foldl (λ s b, parse_block b.1 b.2 s) s blocks).
Proof using ByteOrderLaws0 Hmask.
  intros Hw Hb Hk. induction Hb as [|[g l] blocks [Hg Hl] _ IH]; cbn [fst snd] in *.
  { exists []. split; [done|]. split; [unfold zlen; simpl; lia|]. intros s. apply reads_ret. }
  destruct IH as (b & Hwr & Hz & Hr). exists ([byte_of g] ++ enc (Z.to_nat w) l ++ b). split_and!.
  - cbn [write_blocks]. rewrite <-!app_assoc. eapply emits_put; [done|]. by apply write_width_ok.
  - rewrite !zlen_app, (zlen_enc bo), Hz, !zlen_cons. change (zlen (@nil byte)) with 0.
    unfold valid_len in Hw. lia.
  - intros s. cbn [length parse_blocks foldl fst snd]. eapply reads_bind; [apply reads_ReadByte|].
    eapply reads_bind; [by apply read_width|]. rewrite byte_val_of, Z.mod_small by lia. apply Hr.
Qed.
End widths.

Lemma all_blocks_ok w prev rs :
  First prev < 2 ^ 64 → below (First prev) rs → Forall (λ r, 1 ≤ range_length r < 2 ^ (8 * w)) rs → 0 ≤ w →
  Forall (block_ok w) (all_blocks prev rs).
Proof.
  revert prev. induction rs as [|r rs IH]; intros prev Hp Hb; [constructor|].
  intros [Hr Hrs]%Forall_cons Hw. cbn [all_blocks]. destruct (below_gap prev r rs Hp Hb) as (_ & Hg & _).
  destruct Hb as (Hf & Hl & Hb). apply Forall_app. split; [|apply IH; [lia|done..]].
  rewrite range_blocks_eq by done. assert (0 < 2 ^ (8 * w)) by (apply Z.pow_pos_nonneg; lia).
  pose proof (Z.mod_pos_bound (range_gap prev r - 1) 255 eq_refl).
  apply Forall_app. split; [apply Forall_replicate|apply Forall_singleton]; unfold block_ok; cbn [fst snd]; lia.
Qed.

(** ** What is sent *)

Definition sent_ranges (f : AckFrame) : list AckRange :=
  match AckRanges f with [] => [] | r :: rs => r :: fitting r rs 0 end.
Definition sent_lowest (f : AckFrame) : Z :=
  match AckRanges f with [] => LowestAcked f | r :: rs => First (default r (last (fitting r rs 0))) end.

(** The gap below the first range takes at most 254 blocks. *)
Definition first_gap_fits (f : AckFrame) : Prop :=
  match AckRanges f with r :: r' :: _ => range_gap r r' ≤ 64770 | _ => True end.

Lemma fitting_nonempty prev r rs :
  First prev < 2 ^ 64 → below (First prev) (r :: rs) → range_gap prev r ≤ 64770 →
  ∃ l, fitting prev (r :: rs) 0 = r :: l.
Proof.
  intros Hp Hb Hg. destruct (below_gap prev r rs Hp Hb) as (_ & Hg1 & _). cbn [fitting].
  destruct (gap_blocks_bounds (range_gap prev r)) as [Hk Hk']; [lia|].
  pose proof (Z.mod_pos_bound (range_gap prev r - 1) 255 eq_refl).
  rewrite decide_True by lia. by eexists.
Qed.

Lemma fitting_all prev rs n :
  First prev < 2 ^ 64 → below (First prev) rs → n + zlen (all_blocks prev rs) < 255 →
  fitting prev rs n = rs.
Proof.
  revert prev n. induction rs as [|r rs IH]; intros prev n Hp Hb Hn; [done|].
  destruct (below_gap prev r rs Hp Hb) as (_ & Hg & _). destruct Hb as (Hr & Hl & Hb).
  cbn [all_blocks fitting] in *. rewrite zlen_app, zlen_range_blocks in Hn by done.
  pose proof (zlen_nonneg (all_blocks r rs)). rewrite decide_True by lia. f_equal. apply IH; [lia|done|lia].
Qed.

Lemma last_app_default {A} (l : list A) (x d : A) : default d (last (l ++ [x])) = x.
Proof. by rewrite last_snoc. Qed.

Lemma head_reverse_default {A} (l : list A) (x y : A) ls :
  x :: ls = reverse l ++ [y] → x = default y (last l).
Proof.
  destruct l as [|z l _] using rev_ind; [by intros [= ->]|].
  rewrite last_app_default, reverse_app. by intros [= ->].
Qed.

Section ranges_codec.
Context (bo : ByteOrder) `{!ByteOrderLaws bo} (mask : Z → Z) (Hmask : mask_ok mask).

Lemma ranges_written f k bs :
  ack_sendable f → first_gap_fits f → writes k bs →
  let w := getMissingSequenceNumberDeltaLen f in
  ∃ b, writes (write_ranges bo mask f k) (b ++ bs) ∧
    zlen b = (if HasMissingRanges f then (1 + w) * numWritableNackRanges f - 1 else w) ∧
    reads (parse_ranges bo w (HasMissingRanges f)
             (if HasMissingRanges f then numWritableNackRanges f - 1 else 0) (LargestAcked f))
      b (sent_ranges f, sent_lowest f) ∧
    (HasMissingRanges f = true → 2 ≤ numWritableNackRanges f ≤ 255).
Proof using ByteOrderLaws0 Hmask.
  intros Hf Hgap Hk w. destruct (delta_width f Hf) as (Hw & Hsingle & Hlens). fold w in Hw, Hsingle, Hlens.
  pose proof Hf as [_ Hl Hlg _ Hfirst _]. unfold write_ranges, parse_ranges, sent_ranges, sent_lowest,
    numWritableNackRanges, first_gap_fits, HasMissingRanges in *. fold w.
  destruct (AckRanges f) as [|r rs] eqn:E.
  - specialize (Hsingle eq_refl). exists (enc (Z.to_nat w) (LargestAcked f - LowestAcked f + 1)).
    rewrite u64_small by lia. split; [apply write_width_ok; [done..|lia|done]|].
    split; [rewrite (zlen_enc bo); unfold valid_len in Hw; simpl; lia|]. split; [|done].
    eapply reads_bind_last; [apply read_width; [done|lia]|]. rewrite !decide_False by lia. simpl.
    apply reads_ret_eq. rewrite u64_small by lia. f_equal. lia.
  - destruct (sendable_ranges f r rs Hf E) as (Hne & Hlast & Hr & Hb). specialize (Hfirst r rs eq_refl).
    rewrite bool_decide_true by (rewrite zlen_cons; pose proof (zlen_nonneg rs); lia).
    destruct rs as [|r' rs']; [done|].
    destruct (fitting_nonempty r r' rs') as (l & Hfit); [lia|done..|].
    remember (r' :: rs') as rs eqn:Ers. assert (fitting r rs 0 ≠ []) as Hfne by (by rewrite Hfit).
    destruct (count_writable_fitting r rs 0) as [Hc1 Hc2]; [lia|lia|done|].
    pose proof (ranges_blocks_fitting r rs 0 ltac:(lia) ltac:(lia) Hb Hfne) as Hblocks.
    change (0 + 1) with 1 in Hblocks. rewrite Hblocks, decide_False by (intros []; by rewrite Hlast).
    rewrite decide_False by (intros []; done).
    assert (below (First r) (fitting r rs 0)) as Hb' by (by apply below_fitting).
    assert (1 ≤ zlen (all_blocks r (fitting r rs 0))) as Hpos.
    { rewrite Hfit in Hb' |- *. apply zlen_all_blocks_pos; [lia|done]. }
    apply Forall_cons in Hlens as [Hrl Hlens]. unfold range_length in Hrl. rewrite Hlast in Hrl.
    assert (Forall (block_ok w) (all_blocks r (fitting r rs 0))) as Hbl.
    { apply all_blocks_ok; [lia|done| |unfold valid_len in Hw; lia].
      clear -Hlens. revert Hlens. generalize r, 0. induction rs as [|x rs IH]; intros r0 n Hx; cbn [fitting]; [constructor|].
      apply Forall_cons in Hx as [Hx Hxs]. case_decide; [|constructor]. constructor; [done|by apply IH]. }
    remember (all_blocks r (fitting r rs 0)) as blocks eqn:Eb.
    rewrite decide_False by (rewrite u64_small by lia; lia).
    destruct (write_blocks_ok bo mask Hmask w blocks k bs None Hw Hbl Hk) as (b & Hwr & Hz & Hrd).
    rewrite u64_small in * by lia.
    exists (enc (Z.to_nat w) (LargestAcked f - First r + 1) ++ b). rewrite <-app_assoc.
    split; [apply write_width_ok; [done..|lia|done]|].
    split; [rewrite zlen_app, (zlen_enc bo), Hz; unfold valid_len in Hw; lia|]. split; [|lia].
    eapply reads_bind; [apply read_width; [done|lia]|]. rewrite !decide_False by lia.
    replace (Z.to_nat (count_writable r rs 0 + 1 - 1)) with (length blocks) by (unfold zlen in *; lia).
    eapply reads_bind_last; [apply Hrd|]. rewrite u64_small by lia.
    replace (LargestAcked f - (LargestAcked f - First r + 1) + 1) with (First r) by lia.
    replace {| First := First r; Last := LargestAcked f |} with r by (by rewrite <-Hlast; destruct r).
    match goal with |- context [foldl _ ?s blocks] => set (s0 := s) end.
    destruct (parse_all_blocks (fitting r rs 0) s0) as [Hps Hcomp]; [done|simpl; lia|done|].
    change (current s0) with r in Hps, Hcomp. rewrite <-Eb in Hps, Hcomp.
    destruct (foldl _ s0 blocks) as [cur prevs il lrc] eqn:Efold. cbn [current previous lastRangeComplete] in *.
    rewrite Hcomp by done. unfold complete_ranges. cbn [lastRangeComplete previous current].
    apply reads_ret_eq. rewrite Hps, reverse_app, reverse_involutive. f_equal.
    by rewrite <-(head_reverse_default _ _ _ _ Hps).
Qed.

Lemma num_blocks_written f k bs :
  (HasMissingRanges f = true → 2 ≤ numWritableNackRanges f ≤ 255) → writes k bs →
  ∃ b, writes (write_num_blocks f k) (b ++ bs) ∧ zlen b = (if HasMissingRanges f then 1 else 0) ∧
    reads (if HasMissingRanges f then b ← ReadByte; mret (byte_val b) else mret 0) b
      (if HasMissingRanges f then numWritableNackRanges f - 1 else 0).
Proof using Type.
  intros Hn Hk. unfold write_num_blocks. destruct (HasMissingRanges f).
  - specialize (Hn eq_refl). rewrite decide_False by lia. exists [byte_of (numWritableNackRanges f - 1)].
    split; [by eapply writes_put|]. split; [done|].
    eapply reads_bind_last; [apply reads_ReadByte|]. apply reads_ret_eq.
    rewrite byte_val_of, Z.mod_small; lia.
  - exists []. split; [done|]. split; [done|apply reads_ret].
Qed.
End ranges_codec.

(** ** The frame that is read back *)

Lemma type_byte_widths (w1 w2 base : Z) (missing path : bool) :
  valid_len w1 → valid_len w2 → base = 0 ∨ base = 16 ∨ base = 64 →
  let t := len_bits w1 w2 base in
  let t := if missing then Z.lor t 32 else t in
  let t := if path then Z.lor t 16 else t in
  0 ≤ t < 256 ∧ largest_acked_len t = w1 ∧ delta_len t = w2 ∧
  bool_decide (Z.land t 32 = 32) = missing ∧
  bool_decide (Z.land t 16 = 16) = (path || bool_decide (base = 16)).
Proof.
  intros [->|[->|[->| ->]]] [->|[->|[->| ->]]] [->|[->| ->]]; destruct missing, path; vm_compute;
    by split_and!.
Qed.

Lemma below_consistent prev rs :
  First prev < 2 ^ 64 → below (First prev) rs →
  consistent_after prev rs = true ∧ existsb (λ r, bool_decide (Last r < First r)) rs = false.
Proof.
  revert prev. induction rs as [|r rs IH]; intros prev Hp; [done|]. intros (Hr & Hl & Hb).
  destruct (IH r) as [Hc He]; [lia|done|]. cbn [consistent_after existsb].
  rewrite u64_small, !decide_False, bool_decide_false by lia. done.
Qed.

(** The sent ranges make a frame the parser accepts. *)
Lemma sent_valid f t d :
  ack_sendable f → first_gap_fits f →
  validateAckRanges {| APathID := APathID f; LargestAcked := LargestAcked f; LowestAcked := sent_lowest f;
    AckRanges := sent_ranges f; PacketReceivedTime := t; DelayTime := d |} = true.
Proof.
  intros Hf Hgap. unfold validateAckRanges. cbn [AckRanges LargestAcked].
  unfold sent_ranges, first_gap_fits in *. destruct (AckRanges f) as [|r rs] eqn:E; [done|].
  destruct (sendable_ranges f r rs Hf E) as (Hne & Hlast & Hr & Hb).
  pose proof (as_largest _ Hf). destruct rs as [|r' rs']; [done|].
  destruct (fitting_nonempty r r' rs') as (l & Hfit); [lia|done..|].
  pose proof (below_fitting r (r' :: rs') 0 _ Hb) as Hb'.
  destruct (below_consistent r (fitting r (r' :: rs') 0)) as [Hc He]; [lia|done|].
  rewrite Hc. cbn [existsb]. rewrite He, bool_decide_false by lia.
  rewrite (decide_False (P := Last r ≠ _)) by (by intros []).
  rewrite decide_False; [done|]. rewrite Hfit, !zlen_cons. pose proof (zlen_nonneg l). lia.
Qed.

Lemma fitting_incl prev rs n r : r ∈ fitting prev rs n → r ∈ rs.
Proof.
  revert prev n. induction rs as [|x rs IH]; intros prev n; cbn [fitting]; [done|].
  case_decide; [|by intros ?%not_elem_of_nil].
  intros [->|Hr]%elem_of_cons; [left|right; by eapply IH].
Qed.

Lemma below_last lo rs d : below lo rs → lo ≤ First d + 1 →
  Forall (λ r, First (default d (last rs)) ≤ First r) rs ∧ First (default d (last rs)) ≤ First d.
Proof.
  revert lo d. induction rs as [|r rs IH]; intros lo d Hb Hlo; [split; [constructor|simpl; lia]|].
  destruct Hb as (Hr & Hl & Hb). 
  replace (default d (last (r :: rs))) with (default r (last rs)) by (rewrite last_cons; by destruct (last rs)).
  destruct (IH (First r) r) as [H1 H2]; [done|lia|]. split; [by constructor|lia].
Qed.

Lemma existsb_subset {A} (P : A → bool) (l l' : list A) :
  (∀ x, x ∈ l → x ∈ l') → existsb P l = true → existsb P l' = true.
Proof.
  rewrite !existsb_exists. intros Hl (x & Hx%list_elem_of_In & HP). exists x.
  split; [|done]. by apply list_elem_of_In, Hl.
Qed.

(** Nothing is acknowledged that the frame does not acknowledge. *)
Lemma sent_acks_less f g p :
  ack_sendable f → LargestAcked g = LargestAcked f → LowestAcked g = sent_lowest f →
  AckRanges g = sent_ranges f → AcksPacket g p = true → AcksPacket f p = true.
Proof.
  intros Hf Hlg Hlow Hrs. unfold AcksPacket, HasMissingRanges. rewrite Hlg, Hlow, Hrs.
  unfold sent_ranges, sent_lowest. destruct (AckRanges f) as [|r rs] eqn:E; [done|].
  destruct (sendable_ranges f r rs Hf E) as (Hne & Hlast & Hr & Hb).
  pose proof (as_first _ Hf r rs E) as Hfirst.
  destruct (below_last _ rs r Hb ltac:(lia)) as [Hlr Hll].
  rewrite !bool_decide_true by (rewrite zlen_cons; match goal with |- _ < 1 + zlen ?l => pose proof (zlen_nonneg l) end; lia).
  case_decide; [done|]. intros Hex.
  rewrite decide_False.
  { revert Hex. apply existsb_subset. intros x [->|Hx]%elem_of_cons; [left|right; by eapply fitting_incl]. }
  apply existsb_exists in Hex as (x & Hx%list_elem_of_In & Hp%bool_decide_eq_true).
  assert (First (default r (last rs)) ≤ First x).
  { apply elem_of_cons in Hx as [->|Hx%fitting_incl]; [done|]. rewrite Forall_forall in Hlr. by apply Hlr. }
  rewrite Hfirst. lia.
Qed.

Lemma zlen1 {A} (x : A) : zlen [x] = 1.
Proof. done. Qed.

(** The delay a peer reads. *)
Lemma ack_delay d :
  duration_ok d →
  let q := u64 (Z.quot d Microsecond) in
  0 ≤ ufloat16_bits q < 2 ^ 16 ∧
  i64 (i64 (ufloat16_value (ufloat16_bits q)) * Microsecond) = carried_rtt d.
Proof.
  intros Hd q. assert (q = Z.quot d Microsecond ∧ 0 ≤ q < 2 ^ 63) as [Eq Hq].
  { unfold q, Microsecond, duration_ok in *. rewrite Z.quot_div_nonneg by lia.
    pose proof (Z.div_le_upper_bound d 1000 d). pose proof (Z.div_pos d 1000).
    rewrite u64_small by lia. lia. }
  destruct (ufloat16_bits_value q) as (Hb & H1 & H2 & H3); [lia|]. split; [done|].
  unfold carried_rtt. rewrite <-Eq. do 2 f_equal. apply i64_small.
  destruct float_constants as (_ & _ & _ & Hmax).
  destruct (decide (uFloat16MaxValue ≤ q)) as [Hx|Hx]; [rewrite H2 by done; rewrite Hmax; lia|].
  destruct H3 as [H3 H4]; [lia|]. split; [|lia]. nia.
Qed.

Lemma decide_bool (P : Prop) `{Decision P} {A} (x y : A) :
  (if decide P then x else y) = if bool_decide P then x else y.
Proof. case_bool_decide; by case_decide. Qed.

Lemma fitting_prefix prev rs n : ∃ d, rs = fitting prev rs n ++ d.
Proof.
  revert prev n. induction rs as [|x rs IH]; intros prev n; cbn [fitting]; [by exists []|].
  case_decide; [|by exists (x :: rs)]. destruct (IH x (n + gap_blocks (range_gap prev x))) as [d Hd].
  exists d. cbn [app]. by rewrite <-Hd.
Qed.

Lemma sent_ranges_prefix f : ∃ dropped, AckRanges f = sent_ranges f ++ dropped.
Proof.
  unfold sent_ranges. destruct (AckRanges f) as [|r rs]; [by exists []|].
  destruct (fitting_prefix r rs 0) as [d Hd]. exists d. cbn [app]. by rewrite <-Hd.
Qed.

(** The path ID is announced by a bit of the type byte and left out when it is 0. *)
Lemma read_path_id (path : bool) t i :
  bool_decide (Z.land t 16 = 16) = path || bool_decide (64 = 16) → path = bool_decide (i ≠ InitialPathID) → 0 ≤ i < 2 ^ 8 →
  reads (if decide (Z.land t 16 = 16) then b ← ReadByte; mret (byte_val b) else mret 0)
    (if path then [byte_of i] else []) i.
Proof.
  rewrite (bool_decide_false (64 = 16)), orb_false_r, decide_bool by done. intros -> -> Hi. case_bool_decide as E.
  - eapply reads_bind_last; [apply reads_ReadByte|]. apply reads_ret_eq.
    rewrite byte_val_of, Z.mod_small; lia.
  - apply reads_ret_eq. unfold InitialPathID in E. lia.
Qed.

(** The frame the peer reads. *)
Definition received_ack (f : AckFrame) (since : Z) : AckFrame := {|
  APathID := APathID f; LargestAcked := LargestAcked f; LowestAcked := sent_lowest f;
  AckRanges := sent_ranges f; PacketReceivedTime := None; DelayTime := carried_rtt since
|}.

Lemma ack_written version f since :
  ack_sendable f → first_gap_fits f → duration_ok since →
  roundtrip (write_AckFrame version f since) (ParseAckFrame version) (received_ack f since) (ack_MinLength f).
Proof.
  intros Hf Hgap Hd. set (bo := GetByteOrder version).
  destruct (delta_width f Hf) as (Hw & _). pose proof Hf as [Hpath Hl Hlg _ _ _].
  destruct (largest_width (LargestAcked f)) as [Hw1 Hlw]; [lia|].
  destruct (ack_delay since Hd) as [Hdb Hdv].
  destruct (ranges_written bo mask48 mask48_ok f (put (put_byte x00) finish) ([x00] ++ []))
    as (b & Hwr & Hz & Hrd & Hnum); [done..|].
  destruct (num_blocks_written f _ _ Hnum Hwr) as (nb & Hwn & Hzn & Hrn).
  remember (bool_decide (APathID f ≠ InitialPathID)) as path eqn:Epath.
  destruct (type_byte_widths _ _ 64 (HasMissingRanges f) path Hw1 Hw) as (Ht & Ht1 & Ht2 & Ht3 & Ht4); [by auto|].
  unfold roundtrip, write_AckFrame, ack_MinLength. rewrite !decide_bool, <-Epath. cbv zeta in *.
  remember (if path then Z.lor _ 16 else _) as t eqn:Et.
  exists ([byte_of t] ++ (if path then [byte_of (APathID f)] else []) ++
    enc (Z.to_nat (GetPacketNumberLength (LargestAcked f))) (LargestAcked f) ++
    enc 2 (ufloat16_bits (u64 (Z.quot since Microsecond))) ++ nb ++ b ++ [x00] ++ []).
  split; [|split].
  - eapply writes_put; [done|]. eapply writes_put; [by destruct path|].
    apply write_width_ok; [exact mask48_ok|done|lia|]. eapply writes_put; [by apply write_uint16|exact Hwn].
  - unfold ParseAckFrame. eapply reads_bind; [apply reads_ReadByte|].
    rewrite byte_val_of, Z.mod_small by done. rewrite Ht1, Ht2, Ht3.
    eapply reads_bind; [by apply read_path_id|]. eapply reads_bind; [apply read_width; [done|lia]|].
    eapply reads_bind; [by apply read_ufloat16|]. rewrite Hdv. eapply reads_bind; [exact Hrn|].
    rewrite decide_False by (intros [E En]; rewrite E in *; specialize (Hnum eq_refl); lia).
    eapply reads_bind; [exact Hrd|]. cbn [fst snd]. rewrite (sent_valid f None (carried_rtt since)) by done.
    eapply reads_bind; [apply reads_ReadByte|]. apply reads_ret.
  - rewrite !zlen_app, !(zlen_enc bo), Hz, Hzn, !zlen1. change (zlen (@nil byte)) with 0.
    unfold valid_len in *. destruct path, (HasMissingRanges f); rewrite ?zlen1;
      change (zlen (@nil byte)) with 0; lia.
Qed.

(** * Properties *)

(** an ACK frame over consistent ranges whose first gap fits is written in
    [MinLength] bytes and read back with the ranges that fit in 255 blocks, all of
    them when they fit; it never acknowledges a packet the sender's frame does not. *)
Theorem ack_frame_roundtrip version f since :
  ack_sendable f → first_gap_fits f → duration_ok since →
  ∃ g, roundtrip (write_AckFrame version f since) (ParseAckFrame version) g (ack_MinLength f) ∧
    APathID g = APathID f ∧ LargestAcked g = LargestAcked f ∧ DelayTime g = carried_rtt since ∧
    (∃ dropped, AckRanges f = AckRanges g ++ dropped) ∧
    (∀ r rs, AckRanges f = r :: rs → 1 + zlen (all_blocks r rs) ≤ 255 → AckRanges g = AckRanges f) ∧
    (∀ p, AcksPacket g p = true → AcksPacket f p = true).
Proof.
  intros Hf Hgap Hd. exists (received_ack f since).
  split; [by apply ack_written|]. split_and!; try done.
  - exact (sent_ranges_prefix f).
  - intros r rs E Hn. cbn [AckRanges received_ack]. unfold sent_ranges. rewrite E.
    destruct (sendable_ranges f r rs Hf E) as (_ & Hla & Hr & Hb). pose proof (as_largest _ Hf).
    f_equal. apply fitting_all; [lia|done|lia].
  - intros p. by apply sent_acks_less.
Qed.

Definition sample_ack : AckFrame := {|
  APathID := 3; LargestAcked := 70000; LowestAcked := 2;
  AckRanges := [{| First := 69998; Last := 70000 |}; {| First := 60000; Last := 69000 |};
                {| First := 2; Last := 59000 |}];
  PacketReceivedTime := Some 0; DelayTime := 0
|}.

Lemma sample_ack_sendable : ack_sendable sample_ack.
Proof.
  split; cbn [sample_ack APathID LargestAcked LowestAcked AckRanges First]; [lia|lia|lia|done| |].
  - by intros r rs [= <- <-].
  - repeat constructor; cbn; unfold MaxPacketNumber; lia.
Qed.

Lemma ack_frame_roundtrip_witness :
  ack_sendable sample_ack ∧ 1 + zlen (all_blocks {| First := 69998; Last := 70000 |}
    [{| First := 60000; Last := 69000 |}; {| First := 2; Last := 59000 |}]) ≤ 255 ∧
  ∃ g, roundtrip (write_AckFrame 39 sample_ack 25000000) (ParseAckFrame 39) g (ack_MinLength sample_ack) ∧
    APathID g = APathID sample_ack ∧ LargestAcked g = LargestAcked sample_ack ∧
    DelayTime g = carried_rtt 25000000 ∧
    (∃ dropped, AckRanges sample_ack = AckRanges g ++ dropped) ∧
    (∀ r rs, AckRanges sample_ack = r :: rs → 1 + zlen (all_blocks r rs) ≤ 255 →
       AckRanges g = AckRanges sample_ack) ∧
    (∀ p, AcksPacket g p = true → AcksPacket sample_ack p = true).
Proof.
  split; [exact sample_ack_sendable|]. split; [by vm_compute|].
  apply ack_frame_roundtrip; [exact sample_ack_sendable|by vm_compute|by vm_compute].
Defined.

(** a range list whose first gap needs 255 blocks or more is not written: the
    frame is left in the buffer incomplete, and the error that calls itself a bug
    is returned. *)
Theorem ack_long_gap_unwritable version f since r r' rs :
  ack_sendable f → duration_ok since → AckRanges f = r :: r' :: rs → 64770 < range_gap r r' →
  ∃ bs, write_AckFrame version f since = Some (bs, Some errInconsistentAckRanges).
Proof.
  intros Hf Hd E Hgap. destruct (delta_width f Hf) as (Hw & _ & Hlens).
  pose proof Hf as [Hpath Hl Hlg _ Hfirst _]. destruct (sendable_ranges f _ _ Hf E) as (_ & Hlast & Hr & Hb).
  destruct (largest_width (LargestAcked f)) as [Hw1 Hlw]; [lia|]. destruct (ack_delay since Hd) as [Hdb _].
  destruct (below_gap r r' rs) as (_ & Hg & _); [lia|done|].
  destruct (gap_blocks_bounds (range_gap r r')) as [Hk Hk']; [lia|].
  pose proof (Z.mod_pos_bound (range_gap r r' - 1) 255 eq_refl) as Hm.
  assert (numWritableNackRanges f = 1) as Hn.
  { unfold numWritableNackRanges. rewrite E. cbn [count_writable].
    rewrite u64_small by lia. rewrite decide_False by lia. done. }
  assert (∃ b, emits (write_ranges (GetByteOrder version) mask48 f (put (put_byte x00) finish)) b
    (Some errInconsistentAckRanges)) as [b Hwr].
  { unfold write_ranges. rewrite E, decide_False by (intros []; done).
    rewrite decide_False by (intros []; by rewrite (Hfirst _ _ E)). rewrite Hn. cbn [ranges_blocks].
    rewrite zlen_range_blocks by done. rewrite (u64_small (1 + _)) by lia.
    rewrite (decide_True (P := 1 ≤ _)), app_nil_r by lia.
    rewrite zlen_range_blocks by done. rewrite (u64_small (1 + _)), decide_True by lia.
    rewrite E in Hlens. apply Forall_cons in Hlens as [Hrl [Hrl' _]%Forall_cons].
    destruct (write_blocks_ok (GetByteOrder version) mask48 mask48_ok (getMissingSequenceNumberDeltaLen f)
      (range_blocks (range_gap r r') (range_length r')) (abort errInconsistentAckRanges) []
      (Some errInconsistentAckRanges)) as (b & Hb1 & _); [done| |done|].
    { pose proof (all_blocks_ok (getMissingSequenceNumberDeltaLen f) r [r']) as Hok.
      cbn [all_blocks] in Hok. rewrite app_nil_r in Hok. destruct Hb as (? & ? & _).
      apply Hok; [lia|done|by constructor|unfold valid_len in Hw; lia]. }
    eexists. apply write_width_ok; [exact mask48_ok|done| |exact Hb1].
    unfold range_length in Hrl. rewrite Hlast in Hrl. lia. }
  eexists. unfold write_AckFrame. eapply emits_put; [done|].
  eapply (emits_put _ (if decide (APathID f ≠ InitialPathID) then [byte_of (APathID f)] else []));
    [by case_decide|]. apply write_width_ok; [exact mask48_ok|done|lia|].
  eapply emits_put; [by apply write_uint16|]. unfold write_num_blocks, HasMissingRanges.
  rewrite E, bool_decide_true, Hn by (rewrite zlen_cons; pose proof (zlen_nonneg (r' :: rs)); lia).
  rewrite decide_False by lia. eapply emits_put; [done|exact Hwr].
Qed.

Definition long_gap_ack : AckFrame := {|
  APathID := 0; LargestAcked := 70000; LowestAcked := 1;
  AckRanges := [{| First := 70000; Last := 70000 |}; {| First := 1; Last := 1 |}];
  PacketReceivedTime := Some 0; DelayTime := 0
|}.

Lemma ack_long_gap_unwritable_witness :
  ∃ bs, write_AckFrame 39 long_gap_ack 25000000 = Some (bs, Some errInconsistentAckRanges).
Proof.
  apply (ack_long_gap_unwritable 39 long_gap_ack 25000000
    {| First := 70000; Last := 70000 |} {| First := 1; Last := 1 |} []); [|by vm_compute|done|by vm_compute].
  split; cbn [long_gap_ack APathID LargestAcked LowestAcked AckRanges First]; [lia|lia|lia|done| |].
  - by intros r rs [= <- <-].
  - repeat constructor; cbn; unfold MaxPacketNumber; lia.
Defined.

(** The CLOSE_PATH frame the peer reads. *)
Definition received_close (f : ClosePathFrame) : ClosePathFrame := {|
  CPathID := CPathID f; CLargestAcked := CLargestAcked f;
  CLowestAcked := sent_lowest (as_ack f); CAckRanges := sent_ranges (as_ack f)
|}.

Lemma close_path_written version f :
  ack_sendable (as_ack f) → first_gap_fits (as_ack f) →
  roundtrip (ClosePath.Write version f) (ClosePath.Parse version) (received_close f) (ClosePath.MinLength f).
Proof.
  intros Hf Hgap. set (bo := GetByteOrder version). set (a := as_ack f) in *.
  assert (ClosePath.validateAckRanges (received_close f) = true) as Hvalid by exact (sent_valid a None 0 Hf Hgap).
  destruct (delta_width a Hf) as (Hw & _). pose proof Hf as [Hpath Hl Hlg _ _ _].
  change (APathID a) with (CPathID f) in Hpath. change (LowestAcked a) with (CLowestAcked f) in Hl.
  change (LargestAcked a) with (CLargestAcked f) in Hl, Hlg.
  destruct (largest_width (CLargestAcked f)) as [Hw1 Hlw]; [lia|].
  destruct (ranges_written bo id id_ok a finish []) as (b & Hwr & Hz & Hrd & Hnum); [done..|].
  assert (writes (write_width bo id (GetPacketNumberLength (CLargestAcked f)) (CLargestAcked f)
    (write_ranges bo id a finish)) (enc (Z.to_nat (GetPacketNumberLength (CLargestAcked f))) (CLargestAcked f)
      ++ b ++ [])) as Hwl by (apply write_width_ok; [exact id_ok|done|lia|exact Hwr]).
  destruct (num_blocks_written a _ _ Hnum Hwl) as (nb & Hwn & Hzn & Hrn).
  change (ReceivedPackets.HasMissingRanges a) with (ClosePath.HasMissingRanges f) in *.
  destruct (type_byte_widths _ _ (if ClosePath.HasMissingRanges f then 16 else 0) false false Hw1 Hw)
    as (Ht & Ht1 & Ht2 & _ & Ht4); [destruct (ClosePath.HasMissingRanges f); auto|].
  unfold roundtrip, ClosePath.Write, ClosePath.MinLength, ClosePath.getMissingSequenceNumberDeltaLen,
    ClosePath.numWritableNackRanges. fold a bo. cbv zeta in *. remember (len_bits _ _ _) as t eqn:Et.
  exists ([x11] ++ [byte_of (CPathID f)] ++ [byte_of t] ++ nb ++
    enc (Z.to_nat (GetPacketNumberLength (CLargestAcked f))) (CLargestAcked f) ++ b ++ []).
  split; [do 3 (eapply writes_put; [done|]); exact Hwn|]. split.
  - unfold ClosePath.Parse. do 3 (eapply reads_bind; [apply reads_ReadByte|]).
    rewrite !byte_val_of, (Z.mod_small t), (Z.mod_small (CPathID f)) by lia. rewrite Ht1, Ht2, Ht4.
    replace (false || bool_decide ((if ClosePath.HasMissingRanges f then 16 else 0) = 16))
      with (ClosePath.HasMissingRanges f) by (by destruct (ClosePath.HasMissingRanges f)).
    eapply reads_bind; [exact Hrn|].
    rewrite decide_False by (intros [E En]; rewrite E in *; specialize (Hnum eq_refl); lia).
    eapply reads_bind; [apply read_width; [done|lia]|]. fold bo. eapply reads_bind; [exact Hrd|].
    cbn [fst snd]. fold (received_close f). change (sent_ranges a) with (CAckRanges (received_close f)).
    change (sent_lowest a) with (CLowestAcked (received_close f)).
    change (reads (if ClosePath.validateAckRanges (received_close f) then mret (received_close f)
      else fail ErrInvalidAckRanges) [] (received_close f)). rewrite Hvalid. apply reads_ret.
  - rewrite !zlen_app, !(zlen_enc bo), Hz, Hzn, !zlen1. change (zlen (@nil byte)) with 0.
    unfold valid_len in *. destruct (ClosePath.HasMissingRanges f); lia.
Qed.

(** a CLOSE_PATH frame is written in [MinLength] bytes and read back with the
    ranges that fit; it never acknowledges a packet the sender's frame does not. *)
Theorem close_path_roundtrip version f :
  ack_sendable (as_ack f) → first_gap_fits (as_ack f) →
  ∃ g, roundtrip (ClosePath.Write version f) (ClosePath.Parse version) g (ClosePath.MinLength f) ∧
    CPathID g = CPathID f ∧ CLargestAcked g = CLargestAcked f ∧
    (∃ dropped, CAckRanges f = CAckRanges g ++ dropped) ∧
    (∀ p, ClosePath.AcksPacket g p = true → ClosePath.AcksPacket f p = true).
Proof.
  intros Hf Hgap. exists (received_close f). split; [by apply close_path_written|].
  split; [done|]. split; [done|]. split; [exact (sent_ranges_prefix (as_ack f))|].
  intros p. by apply (sent_acks_less (as_ack f)).
Qed.

Definition sample_close : ClosePathFrame := {|
  CPathID := 1; CLargestAcked := 12; CLowestAcked := 3;
  CAckRanges := [{| First := 9; Last := 12 |}; {| First := 3; Last := 4 |}]
|}.

Lemma close_path_roundtrip_witness :
  ∃ g, roundtrip (ClosePath.Write 39 sample_close) (ClosePath.Parse 39) g (ClosePath.MinLength sample_close) ∧
    CPathID g = CPathID sample_close ∧ CLargestAcked g = CLargestAcked sample_close ∧
    (∃ dropped, CAckRanges sample_close = CAckRanges g ++ dropped) ∧
    (∀ p, ClosePath.AcksPacket g p = true → ClosePath.AcksPacket sample_close p = true).
Proof.
  apply (close_path_roundtrip 39 sample_close); [|by vm_compute].
  split; cbn [sample_close as_ack APathID LargestAcked LowestAcked AckRanges First CPathID CLargestAcked
    CLowestAcked CAckRanges]; [lia|lia|lia|done| |].
  - by intros r rs [= <- <-].
  - repeat constructor; cbn; unfold MaxPacketNumber; lia.
Defined.

(** ** From the received packets to the peer *)

Lemma acked_positive r os :
  ops_ok r os → (∀ q, q ∈ rv_acked r → 0 < q) → ∀ q, q ∈ rv_acked (foldl rv_step r os) → 0 < q.
Proof.
  revert r. induction os as [|o os IH]; intros r; [by intros _|]. intros [Ho Hos] Hr. cbn [foldl].
  apply IH; [done|]. destruct o as [p b now|p|now]; cbn [rv_step op_ok] in *; [|set_solver|done].
  cbn [rv_receive rv_acked]. case_decide; [done|]. intros q [->%elem_of_singleton|Hq]%elem_of_union; [lia|auto].
Qed.

Definition with_path (f : AckFrame) (path : Z) : AckFrame := {|
  APathID := path; LargestAcked := LargestAcked f; LowestAcked := LowestAcked f;
  AckRanges := AckRanges f; PacketReceivedTime := PacketReceivedTime f; DelayTime := DelayTime f
|}.

Lemma last_of_ranges {A} (r d : A) rs : last (r :: rs) = Some d → default r (last rs) = d.
Proof. rewrite last_cons. destruct (last rs); simpl; congruence. Qed.

Lemma get_ack_sendable h r now h' a path :
  refines h r → (∀ q, q ∈ rv_acked r → 0 < q) → rv_largest r < 2 ^ 48 → 0 ≤ path < 2 ^ 8 →
  GetAckFrame h now = Some (h', Some a) → ack_exact a r ∧ ack_sendable (with_path a path).
Proof.
  intros Hr Hpos Hlg Hpath Hget. destruct (refines_get_ack h r now Hr) as (h1 & f1 & Hget1 & _ & Hex & _).
  rewrite Hget in Hget1. injection Hget1 as <- <-. specialize (Hex a eq_refl). split; [done|].
  destruct Hex as (Hv & Hlargest & Hacks). destruct Hr as [Hc Hq _ _ _ _ Hup _].
  unfold GetAckFrame in Hget. destruct (_ && _); [done|]. unfold GetAckRanges in Hget. fold to_ack in Hget.
  change (λ i, {| First := PStart i; Last := PEnd i |}) with to_ack in Hget.
  destruct (last (to_ack <$> _)) as [low|] eqn:Hlast; [|done]. cbn [mbind option_bind] in Hget.
  injection Hget as _ <-. cbn [LargestAcked AckRanges LowestAcked] in *.
  assert (low ∈ to_ack <$> reverse (ranges (packetHistory h))) as Hlow by (by apply last_Some_elem_of).
  apply list_elem_of_fmap in Hlow as (i & -> & Hi). rewrite elem_of_reverse in Hi.
  pose proof (canonical_forall _ _ Hc) as Hf. rewrite Forall_forall in Hf. pose proof (Hf i Hi) as [Hi1 Hi2].
  assert (PStart i ∈ rv_acked r) as Hin.
  { apply Hq. apply Exists_exists. exists i. split; [done|]. unfold in_interval. lia. }
  pose proof (Hpos _ Hin). pose proof (Hup _ Hin).
  split; cbn [with_path APathID LargestAcked LowestAcked AckRanges to_ack First]; try done; try lia.
  - intros x xs. case_decide; [|done]. intros E. rewrite E in Hlast.
    rewrite (last_of_ranges _ _ _ Hlast). done.
  - case_decide; [|constructor]. apply Forall_fmap, Forall_reverse, Forall_forall. intros j Hj.
    specialize (Hf j Hj). destruct Hf as [Hj1 Hj2]. cbn [compose to_ack First Last].
    assert (in_ranges (ranges (packetHistory h)) (PStart j)) as Hr.
    { apply Exists_exists. exists j. split; [done|]. unfold in_interval. lia. }
    apply (canonical_lower 0) in Hr; [|done]. lia.
Qed.

Lemma received_acks_largest f since :
  ack_sendable f → AcksPacket (received_ack f since) (LargestAcked f) = true.
Proof.
  intros Hf. pose proof (as_lowest _ Hf). unfold AcksPacket, HasMissingRanges, received_ack.
  cbn [LowestAcked LargestAcked AckRanges]. unfold sent_lowest, sent_ranges.
  destruct (AckRanges f) as [|r rs] eqn:E.
  - rewrite decide_False by lia. apply bool_decide_eq_true. lia.
  - destruct (sendable_ranges f r rs Hf E) as (_ & Hlast & Hr & Hb).
    destruct (below_last _ _ r (below_fitting r rs 0 _ Hb) ltac:(lia)) as [_ Hle].
    rewrite decide_False by lia.
    rewrite bool_decide_true by (rewrite zlen_cons; pose proof (zlen_nonneg (fitting r rs 0)); lia).
    cbn [existsb]. rewrite bool_decide_true by lia. done.
Qed.

(** C17: end to end, whatever was received before, an ACK frame built by the handler
    and sent on a path is parsed by the peer into one that acknowledges only packets
    that were received above the limit, and always the largest one. *)
Theorem acks_delivered v os h now h' a path since version :
  let r := foldl rv_step new_receiver os in
  ops_ok new_receiver os → handler_run (NewReceivedPacketHandler v) os = Some (Ok h) →
  GetAckFrame h now = Some (h', Some a) →
  rv_largest r < 2 ^ 48 → first_gap_fits a → 0 ≤ path < 2 ^ 8 → duration_ok since →
  ∃ g, roundtrip (write_AckFrame version (with_path a path) since) (ParseAckFrame version) g
         (ack_MinLength (with_path a path)) ∧
    APathID g = path ∧ (∀ p, AcksPacket g p = true → p ∈ rv_acked r) ∧ AcksPacket g (rv_largest r) = true.
Proof.
  intros r Hos Hrun Hget Hlg Hgap Hpath Hd.
  pose proof (handler_run_refines os _ _ _ (refines_new v) Hos Hrun) as Hr. fold r in Hr.
  destruct (get_ack_sendable h r now h' a path) as [(_ & Hla & Hacks) Hs]; [done| |done..|].
  { apply acked_positive; [done|]. intros q Hq. by apply not_elem_of_empty in Hq. }
  exists (received_ack (with_path a path) since). split; [by apply ack_written|]. split; [done|]. split.
  - intros p Hp. apply Hacks. by apply (sent_acks_less (with_path a path)) in Hp.
  - rewrite <-Hla. by apply (received_acks_largest (with_path a path)).
Qed.

Definition run_of (os : list receiver_op) : receivedPacketHandler :=
  match handler_run (NewReceivedPacketHandler 39) os with
  | Some (Ok h) => h
  | _ => NewReceivedPacketHandler 39
  end.

Definition ack_after (os : list receiver_op) (now : Z) : option AckFrame :=
  match GetAckFrame (run_of os) now with Some (_, a) => a | None => None end.
Definition handler_after (os : list receiver_op) (now : Z) : receivedPacketHandler :=
  match GetAckFrame (run_of os) now with Some (h, _) => h | None => run_of os end.

Lemma acks_delivered_witness :
  let a := default sample_ack (ack_after sample_ops 30000000) in
  let r := foldl rv_step new_receiver sample_ops in
  ∃ g, roundtrip (write_AckFrame 39 (with_path a 1) 1000) (ParseAckFrame 39) g (ack_MinLength (with_path a 1)) ∧
    APathID g = 1 ∧ (∀ p, AcksPacket g p = true → p ∈ rv_acked r) ∧ AcksPacket g (rv_largest r) = true.
Proof.
  apply (acks_delivered 39 sample_ops (run_of sample_ops) 30000000 (handler_after sample_ops 30000000)
    (default sample_ack (ack_after sample_ops 30000000)) 1 1000 39).
  - repeat split; by vm_compute.
  - by vm_compute.
  - by vm_compute.
  - by vm_compute.
  - by vm_compute.
  - lia.
  - by vm_compute.
Defined.

Close Scope Z_scope.
