(* ===== verification/PublicHeader.v ===== *)
(** Public headers and version negotiation packets (src/mp-quic/internal/wire:
    public_header.go, version_negotiation.go).

    Every packet starts with a public header: a flag byte, the connection ID,
    the version offered by a client or the nonce of a server, the path ID, and
    the low bytes of the packet number.  What follows it is the payload, the list
    of versions a server supports, or a public reset. *)

From Stdlib Require Import ZArith Lia.
From Stdlib Require Import Strings.Byte.
From stdpp Require Import prelude numbers list.
From S2P Require Import Prelude ByteOrder Protocol Wire ReceivedPackets AckCodec.

Open Scope Z_scope.

Inductive Perspective : Type := PerspectiveServer | PerspectiveClient.
#[export] Instance Perspective_eq_dec : EqDecision Perspective.
Proof. solve_decision. Defined.

(** The bytes kept in [Raw] are set by the caller after parsing and are left out. *)
Record PublicHeader : Type := {
  ConnectionID : Z;
  HPathID : Z;
  VersionFlag : bool;
  ResetFlag : bool;
  TruncateConnectionID : bool;
  MultipathFlag : bool;
  PacketNumberLen : Z;
  PacketNumber : Z;
  VersionNumber : Z;
  SupportedVersionsField : list Z;
  DiversificationNonce : list byte
}.

Definition has_packet_number (reset version : bool) (packetSentBy : Perspective) : bool :=
  if reset then false
  else if version && bool_decide (packetSentBy = PerspectiveServer) then false
  else true.
Definition hasPacketNumber (h : PublicHeader) (packetSentBy : Perspective) : bool :=
  has_packet_number (ResetFlag h) (VersionFlag h) packetSentBy.

(** * Writing *)

Definition public_flag_byte (h : PublicHeader) (pers : Perspective) : Z :=
  let b := 0 in
  let b := if VersionFlag h then Z.lor b 1 else b in
  let b := if ResetFlag h then Z.lor b 2 else b in
  let b := if TruncateConnectionID h then b else Z.lor b 8 in
  let b := if decide (0 < zlen (DiversificationNonce h)) then Z.lor b 4 else b in
  let b := if hasPacketNumber h pers then
             match PacketNumberLen h with
             | 1 => Z.lor b 0 | 2 => Z.lor b 16 | 4 => Z.lor b 32 | 6 => Z.lor b 48 | _ => b
             end
           else b in
  if MultipathFlag h then Z.lor b 64 else b.

Definition write_packet_number (bo : ByteOrder) (h : PublicHeader) : written :=
  match PacketNumberLen h with
  | 1 => put (put_byte (byte_of (PacketNumber h))) finish
  | 2 => put (WriteUint16 bo (u16 (PacketNumber h))) finish
  | 4 => put (WriteUint32 bo (u32 (PacketNumber h))) finish
  | 6 => put (WriteUint48 bo (Z.land (PacketNumber h) (Z.shiftl 1 48 - 1))) finish
  | _ => abort errPacketNumberLenNotSet
  end.

Definition write_PublicHeader (h : PublicHeader) (version : Z) (pers : Perspective) : written :=
  let nonce := DiversificationNonce h in
  if VersionFlag h && ResetFlag h then abort errResetAndVersionFlagSet
  else if decide (0 < zlen nonce ∧ zlen nonce ≠ 32) then abort errInvalidNonceLength
  else
    put (put_byte (byte_of (public_flag_byte h pers)))
      (put (if TruncateConnectionID h then Some [] else LittleEndian.WriteUint64 (ConnectionID h))
        (put (if VersionFlag h && bool_decide (pers = PerspectiveClient)
              then LittleEndian.WriteUint32 (VersionNumberToTag (VersionNumber h)) else Some [])
          (put (if decide (0 < zlen nonce) then Some nonce else Some [])
            (put (if MultipathFlag h then put_byte (byte_of (HPathID h)) else Some [])
              (if hasPacketNumber h pers then write_packet_number (GetByteOrder version) h
               else finish))))).

Definition GetLength (h : PublicHeader) (pers : Perspective) : result WireError Z :=
  if VersionFlag h && ResetFlag h then Err errResetAndVersionFlagSet
  else if VersionFlag h && bool_decide (pers = PerspectiveServer) then Err errGetLengthNotForVersionNegotiation
  else
    let length := 1 in
    let* length :=
      if hasPacketNumber h pers then
        if decide (PacketNumberLen h ≠ PacketNumberLen1 ∧ PacketNumberLen h ≠ PacketNumberLen2 ∧
                   PacketNumberLen h ≠ PacketNumberLen4 ∧ PacketNumberLen h ≠ PacketNumberLen6)
        then Err errPacketNumberLenNotSet
        else Ok (length + PacketNumberLen h)
      else Ok length in
    let length := if TruncateConnectionID h then length else length + 8 in
    let length := if VersionFlag h then length + 4 else length in
    let length := length + zlen (DiversificationNonce h) in
    Ok (if MultipathFlag h then length + 1 else length).

(** * Parsing *)

(** [b] is restored: only the connection ID is returned. *)
Definition PeekConnectionID (b : list byte) (packetSentBy : Perspective) : result WireError Z :=
  let* p := ReadByte b in
  let truncate := bool_decide (Z.land (byte_val p.1) 8 = 0) in
  if truncate && bool_decide (packetSentBy = PerspectiveClient) then Err errReceivedTruncatedConnectionID
  else if truncate then Ok 0
  else let* c := LittleEndian.ReadUint64 p.2 in Ok c.1.

Definition InvalidVersionNegotiationPacket : Z := 10.

(** Tags are read until the reader fails. *)
Fixpoint read_versions (n : nat) : reader (list Z) := λ r,
  match n with
  | O => Ok ([], r)
  | S n =>
      match LittleEndian.ReadUint32 r with
      | Err _ => Ok ([], r)
      | Ok (tag, r) =>
          match read_versions n r with
          | Ok (vs, r) => Ok (VersionTagToNumber tag :: vs, r)
          | Err e => Err e
          end
      end
  end.

Definition packet_number_len (flags : Z) : Z :=
  match Z.land flags 48 with
  | 48 => PacketNumberLen6 | 32 => PacketNumberLen4 | 16 => PacketNumberLen2 | _ => PacketNumberLen1
  end.

Definition ParsePublicHeader (packetSentBy : Perspective) (version : Z) : reader PublicHeader :=
  fb ← ReadByte;
  let flags := byte_val fb in
  let resetFlag := bool_decide (0 < Z.land flags 2) in
  let versionFlag := bool_decide (0 < Z.land flags 1) in
  if decide (version = VersionUnknown ∧ (versionFlag || resetFlag) = false)
  then fail ErrPacketWithUnknownVersion
  else
    let truncate := bool_decide (Z.land flags 8 = 0) in
    if truncate && bool_decide (packetSentBy = PerspectiveClient) then fail errReceivedTruncatedConnectionID
    else
      let hasPN := has_packet_number resetFlag versionFlag packetSentBy in
      let pnLen := if hasPN then packet_number_len flags else 0 in
      let multipath := bool_decide (0 < Z.land flags 64) in
      connID ← (if truncate then mret 0 else
                  c ← LittleEndian.ReadUint64;
                  if decide (c = 0) then fail errInvalidConnectionID else mret c);
      nonce ← (if bool_decide (packetSentBy = PerspectiveServer) && bool_decide (0 < Z.land flags 4) &&
                  negb versionFlag && negb resetFlag then ReadFull 32 else mret []);
      let header vn svs path pn := {|
        ConnectionID := connID; HPathID := path; VersionFlag := versionFlag; ResetFlag := resetFlag;
        TruncateConnectionID := truncate; MultipathFlag := multipath; PacketNumberLen := pnLen;
        PacketNumber := pn; VersionNumber := vn; SupportedVersionsField := svs;
        DiversificationNonce := nonce |} in
      if negb resetFlag && versionFlag && bool_decide (packetSentBy = PerspectiveServer) then
        len ← Len_;
        if decide (len mod 4 ≠ 0) then fail (QuicError InvalidVersionNegotiationPacket)
        else svs ← read_versions (Z.to_nat len); mret (header 0 svs 0 0)
      else
        vn ← (if negb resetFlag && versionFlag then
                tag ← LittleEndian.ReadUint32; mret (VersionTagToNumber tag) else mret 0);
        let version := if negb resetFlag && versionFlag then vn else version in
        path ← (if multipath then b ← ReadByte; mret (byte_val b) else mret 0);
        pn ← (if hasPN then ReadUintN (GetByteOrder version) pnLen else mret 0);
        mret (header vn [] path pn).

(** * Version negotiation *)

(** [Write]'s error is logged; the versions follow what it wrote. *)
Fixpoint write_versions (vs : list Z) : list byte :=
  match vs with
  | [] => []
  | v :: vs => default [] (LittleEndian.WriteUint32 (VersionNumberToTag v)) ++ write_versions vs
  end.
Definition ComposeVersionNegotiation (connectionID : Z) (versions : list Z) : option (list byte) :=
  let h := {| ConnectionID := connectionID; HPathID := 0; VersionFlag := true; ResetFlag := false;
              TruncateConnectionID := false; MultipathFlag := false; PacketNumberLen := 0;
              PacketNumber := 1; VersionNumber := 0; SupportedVersionsField := [];
              DiversificationNonce := [] |} in
  w ← write_PublicHeader h VersionWhatever PerspectiveServer;
  Some (w.1 ++ write_versions versions).

(** * Written headers are read back *)

(** A header that can be sent: what a client and a server may set. *)
Record header_ok (h : PublicHeader) (pers : Perspective) (version : Z) : Prop := {
  ho_flags : VersionFlag h && ResetFlag h = false;
  ho_conn : if TruncateConnectionID h then ConnectionID h = 0 ∧ pers = PerspectiveServer
            else 1 ≤ ConnectionID h < 2 ^ 64;
  ho_path : if MultipathFlag h then 0 ≤ HPathID h < 2 ^ 8 else HPathID h = 0;
  ho_nonce : DiversificationNonce h = [] ∨
    (zlen (DiversificationNonce h) = 32 ∧ pers = PerspectiveServer ∧ VersionFlag h = false ∧ ResetFlag h = false);
  ho_version : if VersionFlag h
               then pers = PerspectiveClient ∧ 0 ≤ VersionNumber h < 1000 ∧ version = VersionNumber h
               else VersionNumber h = 0;
  ho_supported : SupportedVersionsField h = [];
  ho_number : if hasPacketNumber h pers then valid_len (PacketNumberLen h) ∧ 0 ≤ PacketNumber h < 2 ^ 64
              else PacketNumberLen h = 0 ∧ PacketNumber h = 0
}.

(** The header with the packet number that fits in its field. *)
Definition received_header (h : PublicHeader) : PublicHeader := {|
  ConnectionID := ConnectionID h; HPathID := HPathID h; VersionFlag := VersionFlag h;
  ResetFlag := ResetFlag h; TruncateConnectionID := TruncateConnectionID h;
  MultipathFlag := MultipathFlag h; PacketNumberLen := PacketNumberLen h;
  PacketNumber := PacketNumber h mod 2 ^ (8 * PacketNumberLen h); VersionNumber := VersionNumber h;
  SupportedVersionsField := SupportedVersionsField h; DiversificationNonce := DiversificationNonce h
|}.

(** The flag byte as its bits. *)
Definition flags_of (v r t n m : bool) (len : Z) : Z :=
  let b := 0 in
  let b := if v then Z.lor b 1 else b in
  let b := if r then Z.lor b 2 else b in
  let b := if t then b else Z.lor b 8 in
  let b := if n then Z.lor b 4 else b in
  let b := match len with 1 => Z.lor b 0 | 2 => Z.lor b 16 | 4 => Z.lor b 32 | 6 => Z.lor b 48 | _ => b end in
  if m then Z.lor b 64 else b.

Lemma flags_read v r t n m len :
  valid_len len ∨ len = 0 →
  let f := flags_of v r t n m len in
  0 ≤ f < 256 ∧ bool_decide (0 < Z.land f 2) = r ∧ bool_decide (0 < Z.land f 1) = v ∧
  bool_decide (Z.land f 8 = 0) = t ∧ bool_decide (0 < Z.land f 64) = m ∧
  bool_decide (0 < Z.land f 4) = n ∧ (len ≠ 0 → packet_number_len f = len).
Proof.
  intros Hl. assert (len = 0 ∨ len = 1 ∨ len = 2 ∨ len = 4 ∨ len = 6) as Hcase
    by (unfold valid_len in Hl; tauto).
  destruct Hcase as [->|[->|[->|[->| ->]]]]; destruct v, r, t, n, m; vm_compute; by split_and!.
Qed.

Lemma write_packet_number_ok bo `{!ByteOrderLaws bo} h :
  valid_len (PacketNumberLen h) → 0 ≤ PacketNumber h < 2 ^ 64 →
  let bs := enc (Z.to_nat (PacketNumberLen h)) (PacketNumber h mod 2 ^ (8 * PacketNumberLen h)) in
  writes (write_packet_number bo h) bs ∧
  reads (ReadUintN bo (PacketNumberLen h)) bs (PacketNumber h mod 2 ^ (8 * PacketNumberLen h)).
Proof.
  intros Hl Hp bs. pose proof (Z.mod_pos_bound (PacketNumber h) (2 ^ (8 * PacketNumberLen h))) as Hm.
  assert (0 < 2 ^ (8 * PacketNumberLen h)) by (apply Z.pow_pos_nonneg; unfold valid_len in Hl; lia).
  split; [|by apply read_width; [|lia]]. subst bs. unfold write_packet_number.
  rewrite <-(app_nil_r (enc _ _)). destruct Hl as [E|[E|[E|E]]]; rewrite E in *;
    (eapply writes_put; [|apply writes_finish]).
  - unfold put_byte. f_equal. change (Z.to_nat 1) with 1%nat. rewrite write_byte by lia. f_equal.
    symmetry. apply byte_of_mod.
  - apply write_uint16. lia.
  - apply write_uint32. lia.
  - change (Z.shiftl 1 48 - 1) with (Z.ones 48). rewrite Z.land_ones by lia. apply write_uint48. lia.
Qed.

Lemma little_write64 v : 0 ≤ v < 2 ^ 64 → LittleEndian.WriteUint64 v = Some (enc (bo := littleEndian) 8 v).
Proof. apply (write_uint64 (bo := littleEndian)). Qed.
Lemma little_write32 v : 0 ≤ v < 2 ^ 32 → LittleEndian.WriteUint32 v = Some (enc (bo := littleEndian) 4 v).
Proof. apply (write_uint32 (bo := littleEndian)). Qed.
Lemma little_reads64 v : 0 ≤ v < 2 ^ 64 → reads LittleEndian.ReadUint64 (enc (bo := littleEndian) 8 v) v.
Proof. apply (read_uint64 (bo := littleEndian)). Qed.
Lemma little_reads32 v : 0 ≤ v < 2 ^ 32 → reads LittleEndian.ReadUint32 (enc (bo := littleEndian) 4 v) v.
Proof. apply (read_uint32 (bo := littleEndian)). Qed.

Lemma header_flag_byte h pers version :
  header_ok h pers version →
  public_flag_byte h pers = flags_of (VersionFlag h) (ResetFlag h) (TruncateConnectionID h)
    (bool_decide (0 < zlen (DiversificationNonce h))) (MultipathFlag h) (PacketNumberLen h).
Proof.
  intros Hh. pose proof (ho_number _ _ _ Hh) as Hn. unfold public_flag_byte, flags_of.
  rewrite decide_bool. destruct (hasPacketNumber h pers); [done|]. by destruct Hn as [-> _].
Qed.

Lemma reads_opt_nil {A} (v : A) : reads (mret v) [] v.
Proof. apply reads_ret. Qed.

(** The optional fields, one by one. *)
Lemma conn_field h pers version :
  header_ok h pers version →
  ∃ bs, (if TruncateConnectionID h then Some [] else LittleEndian.WriteUint64 (ConnectionID h)) = Some bs ∧
    zlen bs = (if TruncateConnectionID h then 0 else 8) ∧
    reads (if TruncateConnectionID h then mret 0 else
             c ← LittleEndian.ReadUint64;
             if decide (c = 0) then fail errInvalidConnectionID else mret c) bs (ConnectionID h).
Proof.
  intros Hh. pose proof (ho_conn _ _ _ Hh) as Hc. destruct (TruncateConnectionID h).
  - exists []. destruct Hc as [-> _]. split; [done|split; [done|apply reads_ret]].
  - exists (enc (bo := littleEndian) 8 (ConnectionID h)). split; [apply little_write64; lia|].
    split; [apply (zlen_enc littleEndian)|]. eapply reads_bind_last; [apply little_reads64; lia|].
    rewrite decide_False by lia. apply reads_ret.
Qed.

Lemma version_field h pers version :
  header_ok h pers version →
  ∃ bs, (if VersionFlag h && bool_decide (pers = PerspectiveClient)
         then LittleEndian.WriteUint32 (VersionNumberToTag (VersionNumber h)) else Some []) = Some bs ∧
    zlen bs = (if VersionFlag h then 4 else 0) ∧
    reads (if negb (ResetFlag h) && VersionFlag h then
             tag ← LittleEndian.ReadUint32; mret (VersionTagToNumber tag) else mret 0) bs (VersionNumber h).
Proof.
  intros Hh. pose proof (ho_version _ _ _ Hh) as Hv. pose proof (ho_flags _ _ _ Hh) as Hf.
  destruct (VersionFlag h).
  - destruct Hv as (-> & Hv & _). rewrite bool_decide_true by done. destruct (ResetFlag h); [done|]. cbn.
    exists (enc (bo := littleEndian) 4 (VersionNumberToTag (VersionNumber h))).
    split; [apply little_write32, VersionNumberToTag_range|]. split; [apply (zlen_enc littleEndian)|].
    eapply reads_bind_last; [apply little_reads32, VersionNumberToTag_range|].
    apply reads_ret_eq. by apply version_tag_roundtrip.
  - exists []. rewrite andb_false_r, Hv. split; [done|split; [done|apply reads_ret]].
Qed.

Lemma nonce_field h pers version :
  header_ok h pers version →
  let has := bool_decide (0 < zlen (DiversificationNonce h)) in
  (if decide (0 < zlen (DiversificationNonce h)) then Some (DiversificationNonce h) else Some []) =
    Some (DiversificationNonce h) ∧
  reads (if bool_decide (pers = PerspectiveServer) && has && negb (VersionFlag h) && negb (ResetFlag h)
         then ReadFull 32 else mret []) (DiversificationNonce h) (DiversificationNonce h).
Proof.
  intros Hh has. subst has. destruct (ho_nonce _ _ _ Hh) as [E|(E & -> & -> & ->)].
  - rewrite E. change (zlen (@nil byte)) with 0. rewrite decide_False, (bool_decide_false (0 < 0)) by lia.
    rewrite andb_false_r. split; [done|apply reads_ret].
  - rewrite E, decide_True, !bool_decide_true by (done || lia). split; [done|]. by apply reads_ReadFull.
Qed.

Lemma path_field h pers version :
  header_ok h pers version →
  ∃ bs, (if MultipathFlag h then put_byte (byte_of (HPathID h)) else Some []) = Some bs ∧
    zlen bs = (if MultipathFlag h then 1 else 0) ∧
    reads (if MultipathFlag h then b ← ReadByte; mret (byte_val b) else mret 0) bs (HPathID h).
Proof.
  intros Hh. pose proof (ho_path _ _ _ Hh) as Hp. destruct (MultipathFlag h).
  - exists [byte_of (HPathID h)]. split; [done|]. split; [done|].
    eapply reads_bind_last; [apply reads_ReadByte|]. apply reads_ret_eq. rewrite byte_val_of, Z.mod_small; lia.
  - exists []. rewrite Hp. split; [done|split; [done|apply reads_ret]].
Qed.

Lemma number_field h pers version :
  header_ok h pers version →
  ∃ bs, writes (if hasPacketNumber h pers then write_packet_number (GetByteOrder version) h else finish) bs ∧
    zlen bs = PacketNumberLen h ∧
    reads (if hasPacketNumber h pers then ReadUintN (GetByteOrder version) (PacketNumberLen h) else mret 0) bs
      (PacketNumber h mod 2 ^ (8 * PacketNumberLen h)).
Proof.
  intros Hh. pose proof (ho_number _ _ _ Hh) as Hn. destruct (hasPacketNumber h pers).
  - destruct Hn as [Hl Hp]. destruct (write_packet_number_ok (GetByteOrder version) h Hl Hp) as [Hw Hr].
    eexists. split; [exact Hw|]. split; [|exact Hr]. rewrite (zlen_enc (GetByteOrder version)).
    unfold valid_len in Hl. lia.
  - destruct Hn as [-> ->]. exists []. split; [done|split; [done|apply reads_ret]].
Qed.

Lemma header_length h pers version :
  header_ok h pers version → VersionFlag h && bool_decide (pers = PerspectiveServer) = false →
  GetLength h pers = Ok (1 + PacketNumberLen h + (if TruncateConnectionID h then 0 else 8) +
    (if VersionFlag h then 4 else 0) + zlen (DiversificationNonce h) + (if MultipathFlag h then 1 else 0)).
Proof.
  intros Hh Hvs. pose proof Hh as [Hflags _ _ _ _ _ Hnum]. unfold GetLength. rewrite Hflags, Hvs.
  assert ((if hasPacketNumber h pers then
      if decide (PacketNumberLen h ≠ PacketNumberLen1 ∧ PacketNumberLen h ≠ PacketNumberLen2 ∧
                 PacketNumberLen h ≠ PacketNumberLen4 ∧ PacketNumberLen h ≠ PacketNumberLen6)
      then Err errPacketNumberLenNotSet else Ok (1 + PacketNumberLen h) else Ok 1) =
    @Ok WireError Z (1 + PacketNumberLen h)) as ->.
  { destruct (hasPacketNumber h pers); [|by destruct Hnum as [-> _]].
    rewrite decide_False; [done|]. destruct Hnum as [Hl _].
    unfold valid_len, PacketNumberLen1, PacketNumberLen2, PacketNumberLen4, PacketNumberLen6 in *. lia. }
  cbn [result_bind]. f_equal. destruct (TruncateConnectionID h), (VersionFlag h), (MultipathFlag h); lia.
Qed.

(** The parser on the fields in the order they are written. *)
Lemma header_reads h pers version known cb vb pb nb :
  header_ok h pers version →
  (if VersionFlag h || ResetFlag h then True else known = version ∧ known ≠ VersionUnknown) →
  VersionFlag h && bool_decide (pers = PerspectiveServer) = false →
  vb ++ DiversificationNonce h = DiversificationNonce h ++ vb →
  reads (if TruncateConnectionID h then mret 0 else
           c ← LittleEndian.ReadUint64;
           if decide (c = 0) then fail errInvalidConnectionID else mret c) cb (ConnectionID h) →
  reads (if negb (ResetFlag h) && VersionFlag h then
           tag ← LittleEndian.ReadUint32; mret (VersionTagToNumber tag) else mret 0) vb (VersionNumber h) →
  reads (if MultipathFlag h then b ← ReadByte; mret (byte_val b) else mret 0) pb (HPathID h) →
  reads (if hasPacketNumber h pers then ReadUintN (GetByteOrder version) (PacketNumberLen h) else mret 0) nb
    (PacketNumber h mod 2 ^ (8 * PacketNumberLen h)) →
  reads (ParsePublicHeader pers known)
    ([byte_of (public_flag_byte h pers)] ++ cb ++ vb ++ DiversificationNonce h ++ pb ++ nb) (received_header h).
Proof.
  intros Hh Hk Hvs Hcomm Hc Hv Hp Hn. pose proof Hh as [Hflags Hconn _ _ Hver Hsup Hnum].
  destruct (nonce_field h pers version Hh) as (_ & Hnonce).
  assert (valid_len (PacketNumberLen h) ∨ PacketNumberLen h = 0) as Hlen
    by (destruct (hasPacketNumber h pers); tauto).
  destruct (flags_read (VersionFlag h) (ResetFlag h) (TruncateConnectionID h)
    (bool_decide (0 < zlen (DiversificationNonce h))) (MultipathFlag h) _ Hlen)
    as (Hr & Hf2 & Hf1 & Hf8 & Hf64 & Hf4 & Hfl).
  rewrite (header_flag_byte _ _ _ Hh). unfold ParsePublicHeader. eapply reads_bind; [apply reads_ReadByte|].
  rewrite byte_val_of, Z.mod_small, Hf2, Hf1, Hf8, Hf64, Hf4 by done.
  rewrite decide_False by (intros [E1 E2]; rewrite E2 in Hk; tauto).
  replace (TruncateConnectionID h && bool_decide (pers = PerspectiveClient)) with false
    by (destruct (TruncateConnectionID h); [by destruct Hconn as (_ & ->)|done]).
  eapply reads_bind; [exact Hc|]. rewrite (app_assoc vb), Hcomm, <-app_assoc.
  eapply reads_bind; [exact Hnonce|].
  replace (negb (ResetFlag h) && VersionFlag h && bool_decide (pers = PerspectiveServer)) with false
    by (rewrite <-andb_assoc, Hvs; by destruct (ResetFlag h)).
  eapply reads_bind; [exact Hv|]. eapply reads_bind; [exact Hp|].
  change (has_packet_number (ResetFlag h) (VersionFlag h) pers) with (hasPacketNumber h pers).
  assert ((if hasPacketNumber h pers then packet_number_len (flags_of (VersionFlag h) (ResetFlag h)
    (TruncateConnectionID h) (bool_decide (0 < zlen (DiversificationNonce h))) (MultipathFlag h)
    (PacketNumberLen h)) else 0) = PacketNumberLen h) as ->.
  { destruct (hasPacketNumber h pers); [|by destruct Hnum].
    apply Hfl. destruct Hnum as [Hl _]. unfold valid_len in Hl. lia. }
  eapply reads_bind_last; [|apply reads_ret_eq; unfold received_header; by rewrite Hsup].
  revert Hn. unfold hasPacketNumber, has_packet_number.
  destruct (ResetFlag h); [done|]. destruct (VersionFlag h); cbn [negb andb orb] in *.
  - by destruct Hver as (_ & _ & <-).
  - by destruct Hk as [-> _].
Qed.

Lemma public_header_written h pers version known :
  header_ok h pers version →
  (if VersionFlag h || ResetFlag h then True else known = version ∧ known ≠ VersionUnknown) →
  ∃ len, GetLength h pers = Ok len ∧
    roundtrip (write_PublicHeader h version pers) (ParsePublicHeader pers known) (received_header h) len.
Proof.
  intros Hh Hk. destruct (conn_field h pers version Hh) as (cb & Hc1 & Hc2 & Hc3).
  destruct (version_field h pers version Hh) as (vb & Hv1 & Hv2 & Hv3).
  destruct (nonce_field h pers version Hh) as (Hn1 & Hn2).
  destruct (path_field h pers version Hh) as (pb & Hp1 & Hp2 & Hp3).
  destruct (number_field h pers version Hh) as (nb & Hb1 & Hb2 & Hb3).
  pose proof Hh as [Hflags _ _ Hnonce Hver _ _].
  assert (VersionFlag h && bool_decide (pers = PerspectiveServer) = false) as Hvs.
  { destruct (VersionFlag h); [|done]. by destruct Hver as (-> & _). }
  eexists. split; [by apply (header_length h pers version)|].
  exists ([byte_of (public_flag_byte h pers)] ++ cb ++ vb ++ DiversificationNonce h ++ pb ++ nb).
  split; [|split].
  - unfold write_PublicHeader. rewrite Hflags, decide_False.
    { do 5 (eapply writes_put; [done|]). exact Hb1. }
    destruct Hnonce as [->|(-> & _)]; [change (zlen (@nil byte)) with 0|]; lia.
  - apply (header_reads h pers version); try done.
    destruct Hnonce as [->|(_ & _ & E & _)]; [by rewrite app_nil_r|].
    rewrite E in Hv2. destruct vb; [by rewrite app_nil_r|rewrite zlen_cons in Hv2; pose proof (zlen_nonneg vb); lia].
  - rewrite !zlen_app, Hc2, Hv2, Hp2, Hb2, zlen1. lia.
Qed.

(** a public header is written in [GetLength] bytes and read back by the other
    side, with the bytes of the packet number its length announces. *)
Theorem public_header_roundtrip h pers version known :
  header_ok h pers version →
  (if VersionFlag h || ResetFlag h then True else known = version ∧ known ≠ VersionUnknown) →
  ∃ len, GetLength h pers = Ok len ∧
    roundtrip (write_PublicHeader h version pers) (ParsePublicHeader pers known) (received_header h) len.
Proof. exact (public_header_written h pers version known). Qed.

Definition sample_header : PublicHeader := {|
  ConnectionID := 77; HPathID := 3; VersionFlag := false; ResetFlag := false;
  TruncateConnectionID := false; MultipathFlag := true; PacketNumberLen := 2; PacketNumber := 100000;
  VersionNumber := 0; SupportedVersionsField := []; DiversificationNonce := replicate 32 x2a
|}.

Lemma public_header_roundtrip_witness :
  ∃ len, GetLength sample_header PerspectiveServer = Ok len ∧
    roundtrip (write_PublicHeader sample_header 39 PerspectiveServer)
      (ParsePublicHeader PerspectiveServer 39) (received_header sample_header) len.
Proof.
  apply (public_header_roundtrip sample_header PerspectiveServer 39 39); [|by split].
  split; cbn; try done; try lia; [by right|]. split; [unfold valid_len|]; lia.
Defined.

(** ** Routing and packet numbers *)

Lemma reader_bind_ok {A B} (m : reader A) (f : A → reader B) r x :
  (m ≫= f) r = Ok x → ∃ a r', m r = Ok (a, r') ∧ f a r' = Ok x.
Proof. unfold mbind, reader_bind. destruct (m r) as [[a r']|]; [eauto|done]. Qed.

(** Follow a reader that succeeded. *)
Ltac read_inv H :=
  repeat first
    [ apply reader_bind_ok in H as (? & ? & ? & H)
    | match type of H with
      | (if decide ?P then _ else _) _ = Ok _ => destruct (decide P)
      | (if ?b then _ else _) _ = Ok _ => destruct b eqn:?
      end
    | discriminate H ].

(** The connection ID that routes a packet to its session is the one the
    session parses from it. *)
Theorem peek_agrees b pers known h r :
  ParsePublicHeader pers known b = Ok (h, r) → PeekConnectionID b pers = Ok (ConnectionID h).
Proof.
  intros H. unfold ParsePublicHeader in H. apply reader_bind_ok in H as (fb & r0 & Hb & H). cbv zeta in H.
  destruct (decide _) in H; [done|].
  destruct (bool_decide (Z.land (byte_val fb) 8 = 0) && bool_decide (pers = PerspectiveClient)) eqn:Et; [done|].
  apply reader_bind_ok in H as (conn & r1 & Hc & H). apply reader_bind_ok in H as (nonce & r2 & _ & H).
  assert (ConnectionID h = conn) as ->.
  { destruct (_ && bool_decide (pers = PerspectiveServer)) in H; read_inv H; by injection H as <- _. }
  unfold PeekConnectionID. rewrite Hb. cbn [result_bind fst snd]. rewrite Et.
  destruct (bool_decide (Z.land (byte_val fb) 8 = 0)); [by injection Hc as <- _|].
  apply reader_bind_ok in Hc as (c & r' & -> & Hc). cbn. read_inv Hc. by injection Hc as <- _.
Qed.

(** What is read with an unknown version says which it is, or is a reset. *)
Lemma unknown_version_flags b pers h r :
  ParsePublicHeader pers VersionUnknown b = Ok (h, r) → VersionFlag h || ResetFlag h = true.
Proof.
  intros H. unfold ParsePublicHeader in H. apply reader_bind_ok in H as (fb & r0 & Hb & H). cbv zeta in H.
  destruct (decide _) as [|Hn] in H; [done|].
  destruct (bool_decide (Z.land (byte_val fb) 8 = 0) && bool_decide (pers = PerspectiveClient)) eqn:Et; [done|].
  apply reader_bind_ok in H as (conn & r1 & Hc & H). apply reader_bind_ok in H as (nonce & r2 & _ & H).
  destruct (bool_decide (0 < Z.land (byte_val fb) 1) || bool_decide (0 < Z.land (byte_val fb) 2)) eqn:Ef; [|by destruct Hn].
  destruct (_ && bool_decide (pers = PerspectiveServer)) in H; read_inv H; injection H as <- _; exact Ef.
Qed.

(** the packet number of a sent packet reaches the receiver: parsed from the
    header and expanded with the highest number received, it is the number the sender
    chose, when the length comes from the sender's least unacknowledged packet. *)
Theorem packet_number_delivered h pers version known leastUnacked last :
  header_ok h pers version → hasPacketNumber h pers = true →
  (if VersionFlag h || ResetFlag h then True else known = version ∧ known ≠ VersionUnknown) →
  PacketNumber h < 2 ^ 62 → 0 < leastUnacked ≤ PacketNumber h →
  PacketNumberLen h = GetPacketNumberLengthForPublicHeader (PacketNumber h) leastUnacked →
  leastUnacked - 1 ≤ last ≤ PacketNumber h → PacketNumber h - leastUnacked < 2 ^ 46 →
  ∃ bs g, writes (write_PublicHeader h version pers) bs ∧ reads (ParsePublicHeader pers known) bs g ∧
    InferPacketNumber (PacketNumberLen g) last (PacketNumber g) = PacketNumber h.
Proof.
  intros Hh _ Hk Hpn Hlu Hlen Hlast Hdiff.
  destruct (public_header_written h pers version known Hh Hk) as (len & _ & bs & Hw & Hr & _).
  exists bs, (received_header h). split; [done|]. split; [done|]. cbn [received_header PacketNumberLen PacketNumber].
  rewrite Hlen. apply (packet_number_recovered (PacketNumber h) leastUnacked last); lia.
Qed.

Definition sent_header : PublicHeader := {|
  ConnectionID := 77; HPathID := 0; VersionFlag := true; ResetFlag := false;
  TruncateConnectionID := false; MultipathFlag := false; PacketNumberLen := 4; PacketNumber := 100000;
  VersionNumber := 512; SupportedVersionsField := []; DiversificationNonce := []
|}.

Lemma packet_number_delivered_witness :
  ∃ bs g, writes (write_PublicHeader sent_header 512 PerspectiveClient) bs ∧
    reads (ParsePublicHeader PerspectiveClient VersionUnknown) bs g ∧
    InferPacketNumber (PacketNumberLen g) 70000 (PacketNumber g) = PacketNumber sent_header.
Proof.
  apply (packet_number_delivered sent_header PerspectiveClient 512 VersionUnknown 65000 70000);
    try done; try (by vm_compute).
  split; cbn; try done; try lia; [by left|]. split; [unfold valid_len|]; lia.
Defined.

(** ** Version negotiation packets *)

Lemma read_versions_ok vs n :
  Forall (λ v, 0 ≤ v < 1000) vs → (length vs ≤ n)%nat →
  read_versions n (write_versions vs) = Ok (vs, []) ∧ zlen (write_versions vs) = 4 * zlen vs.
Proof.
  intros Hvs. revert n. induction Hvs as [|v vs Hv _ IH]; intros n Hn; [by destruct n|].
  destruct n as [|n]; [simpl in Hn; lia|]. destruct (IH n) as [IH1 IH2]; [simpl in Hn; lia|].
  cbn [write_versions read_versions]. pose proof (VersionNumberToTag_range v) as Hr.
  rewrite (little_write32 _ Hr). cbn [from_option id]. split.
  - rewrite (little_reads32 _ Hr), IH1. by rewrite version_tag_roundtrip.
  - rewrite zlen_app, (zlen_enc littleEndian), IH2, zlen_cons. lia.
Qed.

Definition negotiation_header (connectionID : Z) (versions : list Z) : PublicHeader := {|
  ConnectionID := connectionID; HPathID := 0; VersionFlag := true; ResetFlag := false;
  TruncateConnectionID := false; MultipathFlag := false; PacketNumberLen := 0; PacketNumber := 0;
  VersionNumber := 0; SupportedVersionsField := versions; DiversificationNonce := []
|}.

Lemma negotiation_packet_bytes connectionID versions :
  0 ≤ connectionID < 2 ^ 64 →
  ComposeVersionNegotiation connectionID versions =
    Some ([x09] ++ enc (bo := littleEndian) 8 connectionID ++ write_versions versions).
Proof.
  intros Hc. pose proof (little_write64 connectionID ltac:(lia)) as Hw. unfold ComposeVersionNegotiation, write_PublicHeader.
  cbn [VersionFlag ResetFlag DiversificationNonce TruncateConnectionID ConnectionID MultipathFlag andb].
  rewrite Hw. reflexivity.
Qed.
Lemma zlen_write_versions versions : zlen (write_versions versions) = 4 * zlen versions.
Proof.
  induction versions as [|v versions IH]; [done|]. cbn [write_versions]. pose proof (VersionNumberToTag_range v) as Hr.
  rewrite little_write32 by lia. cbn [default from_option id]. rewrite zlen_app, zlen_cons, IH, (zlen_enc littleEndian). lia.
Qed.

Lemma negotiation_packet_read connectionID versions known :
  1 ≤ connectionID < 2 ^ 64 → Forall (λ v, 0 ≤ v < 1000) versions →
  ∃ bs, ComposeVersionNegotiation connectionID versions = Some bs ∧
    ParsePublicHeader PerspectiveServer known bs = Ok (negotiation_header connectionID versions, []).
Proof.
  intros Hc Hvs. rewrite negotiation_packet_bytes by lia.
  destruct (read_versions_ok versions (Z.to_nat (zlen (write_versions versions))) Hvs) as [Hr Hz].
  { rewrite zlen_write_versions. unfold zlen. lia. }
  eexists. split; [done|].
  destruct (flags_read true false false false false 0) as (_ & Hf2 & Hf1 & Hf8 & Hf64 & Hf4 & _); [by right|].
  change (flags_of true false false false false 0) with (byte_val x09) in *.
  unfold ParsePublicHeader, mbind, reader_bind. cbn [ReadByte app]. cbv zeta.
  rewrite Hf2, Hf1, Hf8, Hf64, Hf4. destruct (decide _) as [[_ E]|_]; [done|].
  cbn [andb negb has_packet_number]. rewrite (little_reads64 connectionID) by lia.
  destruct (decide (connectionID = 0)); [lia|].
  cbn [mret reader_ret Len_]. unfold Len_. rewrite !bool_decide_true by done. cbn [andb].
  unfold mret, reader_ret. destruct (decide _) as [[]|_]; [rewrite Hz, Z.mul_comm; by apply Z.mod_mul|].
  by rewrite Hr.
Qed.

(** The client reads from a version negotiation packet exactly the versions the
    server put in it. *)
Theorem version_negotiation_packet connectionID versions known :
  1 ≤ connectionID < 2 ^ 64 → Forall (λ v, 0 ≤ v < 1000) versions →
  ∃ bs h, ComposeVersionNegotiation connectionID versions = Some bs ∧
    ParsePublicHeader PerspectiveServer known bs = Ok (h, []) ∧
    ConnectionID h = connectionID ∧ VersionFlag h = true ∧ SupportedVersionsField h = versions.
Proof.
  intros Hc Hvs. destruct (negotiation_packet_read connectionID versions known Hc Hvs) as (bs & Hb & Hr).
  by exists bs, (negotiation_header connectionID versions).
Qed.

Lemma version_negotiation_packet_witness :
  ∃ bs h, ComposeVersionNegotiation 77 SupportedVersions = Some bs ∧
    ParsePublicHeader PerspectiveServer VersionUnknown bs = Ok (h, []) ∧
    ConnectionID h = 77 ∧ VersionFlag h = true ∧ SupportedVersionsField h = SupportedVersions.
Proof.
  apply (version_negotiation_packet 77 SupportedVersions VersionUnknown); [lia|].
  repeat constructor; by vm_compute.
Defined.

Close Scope Z_scope.
