(* ===== verification/PacketUnpacker.v ===== *)
(** Frames of every type and the unpacking of packets (src/mp-quic:
    packet_unpacker.go, with internal/wire/frame.go and the dispatch of the
    frame parsers).

    A packet's payload is decrypted and parsed frame by frame until it is
    exhausted; padding bytes are skipped.  Decryption is the [Open] of an AEAD,
    an argument of the model. *)

From Stdlib Require Import ZArith Lia.
From Stdlib Require Import Strings.Byte.
From stdpp Require Import prelude numbers list.
From S2P Require Import Prelude ByteOrder Protocol Wire ReceivedPackets AckCodec PublicHeader.

Open Scope Z_scope.

(** * Frames *)

Inductive Frame : Type :=
| FStream (f : StreamFrame)
| FAck (f : AckFrame)
| FRstStream (f : RstStreamFrame)
| FConnectionClose (f : ConnectionCloseFrame)
| FGoaway (f : GoawayFrame)
| FWindowUpdate (f : WindowUpdateFrame)
| FBlocked (f : BlockedFrame)
| FStopWaiting (f : StopWaitingFrame)
| FPing
| FAddAddress (f : AddAddressFrame)
| FClosePath (f : ClosePathFrame)
| FPaths (f : PathsFrame).

(** [since] is what [time.Since] yields for an ACK frame. *)
Definition write_frame (version : Z) (since : AckFrame → Z) (f : Frame) : written :=
  match f with
  | FStream f => write_StreamFrame version f
  | FAck f => write_AckFrame version f (since f)
  | FRstStream f => write_RstStreamFrame version f
  | FConnectionClose f => write_ConnectionCloseFrame version f
  | FGoaway f => write_GoawayFrame version f
  | FWindowUpdate f => write_WindowUpdateFrame version f
  | FBlocked f => write_BlockedFrame version f
  | FStopWaiting f => write_StopWaitingFrame version f
  | FPing => write_PingFrame
  | FAddAddress f => write_AddAddressFrame version f
  | FClosePath f => ClosePath.Write version f
  | FPaths f => write_PathsFrame version f
  end.

Definition frame_MinLength (f : Frame) : result WireError Z :=
  match f with
  | FStream f => Ok (stream_MinLength f)
  | FAck f => Ok (ack_MinLength f)
  | FRstStream _ => Ok rst_MinLength
  | FConnectionClose f => Ok (connection_close_MinLength f)
  | FGoaway f => Ok (goaway_MinLength f)
  | FWindowUpdate _ => Ok window_update_MinLength
  | FBlocked _ => Ok blocked_MinLength
  | FStopWaiting f => stop_waiting_MinLength f
  | FPing => Ok ping_MinLength
  | FAddAddress f => add_address_MinLength f
  | FClosePath f => Ok (ClosePath.MinLength f)
  | FPaths f => Ok (paths_MinLength f)
  end.

(** * Unpacking *)

Inductive EncryptionLevel : Type :=
| EncryptionUnspecified | EncryptionUnencrypted | EncryptionSecure | EncryptionForwardSecure.
Definition level_value (l : EncryptionLevel) : Z :=
  match l with
  | EncryptionUnspecified => 0 | EncryptionUnencrypted => 1
  | EncryptionSecure => 2 | EncryptionForwardSecure => 3
  end.

Definition InvalidFrameData : Z := 4.
Definition InvalidRstStreamData : Z := 6.
Definition InvalidAckData : Z := 9.
Definition DecryptionFailure : Z := 12.
Definition MissingPayload : Z := 48.
Definition InvalidWindowUpdateData : Z := 57.
Definition InvalidBlockedData : Z := 58.
Definition UnencryptedStreamData : Z := 61.

(** [err = qerr.Error(code, err.Error())]. *)
Definition wrap {A} (code : Z) (m : reader A) : reader A := λ r,
  match m r with Ok x => Ok x | Err _ => Err (QuicError code) end.

(** The frame behind a type byte that was read and unread. *)
Definition parse_frame (version pn pnLen : Z) (level : EncryptionLevel) (typeByte : Z) : reader Frame :=
  if decide (Z.land typeByte 128 = 128) then
    f ← wrap InvalidStreamData (ParseStreamFrame version);
    if decide (StreamID f ≠ 1 ∧ level_value level ≤ level_value EncryptionUnencrypted)
    then fail (QuicError UnencryptedStreamData) else mret (FStream f)
  else if decide (Z.land typeByte 192 = 64) then
    f ← wrap InvalidAckData (ParseAckFrame version); mret (FAck f)
  else if decide (Z.land typeByte 224 = 32) then fail errCongestionFeedback
  else
    match typeByte with
    | 1 => f ← wrap InvalidRstStreamData (ParseRstStreamFrame version); mret (FRstStream f)
    | 2 => f ← wrap InvalidConnectionCloseData (ParseConnectionCloseFrame version); mret (FConnectionClose f)
    | 3 => f ← wrap InvalidGoawayData (ParseGoawayFrame version); mret (FGoaway f)
    | 4 => f ← wrap InvalidWindowUpdateData (ParseWindowUpdateFrame version); mret (FWindowUpdate f)
    | 5 => f ← wrap InvalidBlockedData (ParseBlockedFrame version); mret (FBlocked f)
    | 6 => f ← wrap InvalidStopWaitingData (ParseStopWaitingFrame pn pnLen version); mret (FStopWaiting f)
    | 7 => _ ← ParsePingFrame; mret FPing
    | 16 => f ← ParseAddAddressFrame version; mret (FAddAddress f)
    | 17 => f ← ClosePath.Parse version; mret (FClosePath f)
    | 18 => f ← ParsePathsFrame version; mret (FPaths f)
    | _ => fail (QuicError InvalidFrameData)
    end.

(** The loop over the frames; [None] when the fuel runs out. *)
Fixpoint unpack_frames (version pn pnLen : Z) (level : EncryptionLevel) (fuel : nat) (r : list byte)
    (fs : list Frame) : option (result WireError (list Frame)) :=
  match r with
  | [] => Some (Ok fs)
  | tb :: r' =>
      match fuel with
      | O => None
      | S fuel =>
          if decide (tb = x00) then unpack_frames version pn pnLen level fuel r' fs
          else
            match parse_frame version pn pnLen level (byte_val tb) r with
            | Err e => Some (Err e)
            | Ok (f, r) => unpack_frames version pn pnLen level fuel r (fs ++ [f])
            end
      end
  end.

Record unpackedPacket : Type := { encryptionLevel : EncryptionLevel; frames : list Frame }.

Section unpacker.
(** [Open] of the AEAD: ciphertext, packet number and associated data. *)
Context (AEADError : Type) (aead_Open : list byte → Z → list byte → result AEADError (list byte * EncryptionLevel)).

(** Each frame takes a byte, so the length of the payload is enough fuel. *)
Definition Unpack (version : Z) (publicHeaderBinary : list byte) (hdr : PublicHeader) (data : list byte) :
    option (result WireError unpackedPacket) :=
  match aead_Open data (PacketNumber hdr) publicHeaderBinary with
  | Err _ => Some (Err (QuicError DecryptionFailure))
  | Ok (decrypted, level) =>
      if decide (decrypted = []) then Some (Err (QuicError MissingPayload))
      else
        match unpack_frames version (PacketNumber hdr) (PacketNumberLen hdr) level (length decrypted) decrypted [] with
        | None => None
        | Some (Err e) => Some (Err e)
        | Some (Ok fs) => Some (Ok {| encryptionLevel := level; frames := fs |})
        end
  end.
End unpacker.

(** * The loop ends *)

Definition shrinks {A} (m : reader A) : Prop := ∀ r v r', m r = Ok (v, r') → (length r' ≤ length r)%nat.
Definition eats {A} (m : reader A) : Prop := ∀ r v r', m r = Ok (v, r') → (length r' < length r)%nat.

Lemma shrinks_ret {A} (v : A) : shrinks (mret v).
Proof. by intros r w r' [= _ <-]. Qed.
Lemma shrinks_fail {A} e : shrinks (fail (A := A) e).
Proof. done. Qed.
Lemma shrinks_bind {A B} (m : reader A) (f : A → reader B) :
  shrinks m → (∀ v, shrinks (f v)) → shrinks (m ≫= f).
Proof.
  intros Hm Hf r v r' H. apply reader_bind_ok in H as (a & r1 & H1 & H2).
  apply Hm in H1. apply Hf in H2. lia.
Qed.
Lemma eats_bind {A B} (m : reader A) (f : A → reader B) :
  eats m → (∀ v, shrinks (f v)) → eats (m ≫= f).
Proof.
  intros Hm Hf r v r' H. apply reader_bind_ok in H as (a & r1 & H1 & H2).
  apply Hm in H1. apply Hf in H2. lia.
Qed.
Lemma eats_wrap {A} code (m : reader A) : eats m → eats (wrap code m).
Proof. intros Hm r v r' H. apply (Hm r v r'). revert H. unfold wrap. by destruct (m r). Qed.
Lemma eats_ReadByte : eats ReadByte.
Proof. intros [|b r] v r'; [done|]. intros [= _ <-]. simpl. lia. Qed.
Lemma eats_shrinks {A} (m : reader A) : eats m → shrinks m.
Proof. intros Hm r v r' H. apply Hm in H. lia. Qed.
Lemma shrinks_ReadByte : shrinks ReadByte.
Proof. apply eats_shrinks, eats_ReadByte. Qed.
Lemma shrinks_ReadFull n : shrinks (ReadFull n).
Proof.
  intros r v r' H. unfold ReadFull in H. repeat case_decide; simplify_eq; [done|].
  rewrite length_drop. lia.
Qed.
Lemma shrinks_Len : shrinks Len_.
Proof. by intros r v r' [= _ <-]. Qed.
Lemma shrinks_if {A} (P : Prop) `{Decision P} (m n : reader A) :
  shrinks m → shrinks n → shrinks (if decide P then m else n).
Proof. by case_decide. Qed.
Lemma shrinks_if_bool {A} (b : bool) (m n : reader A) : shrinks m → shrinks n → shrinks (if b then m else n).
Proof. by destruct b. Qed.

Create HintDb shrink.
#[export] Hint Resolve shrinks_ret shrinks_fail eats_ReadByte shrinks_ReadByte shrinks_ReadFull shrinks_Len
  eats_wrap : shrink.
#[export] Hint Extern 2 (shrinks (_ ≫= _)) => apply shrinks_bind : shrink.
#[export] Hint Extern 2 (shrinks (if decide _ then _ else _)) => apply shrinks_if : shrink.
#[export] Hint Extern 3 (shrinks (if _ then _ else _)) => apply shrinks_if_bool : shrink.
#[export] Hint Extern 2 (eats (_ ≫= _)) => apply eats_bind : shrink.

Lemma shrinks_loop sh i n res : shrinks (read_uint_loop sh i n res).
Proof. revert i res. induction n as [|n IH]; intros i res; cbn [read_uint_loop]; auto with shrink. Qed.

Lemma shrinks_order version :
  (∀ n, shrinks (ReadUintN (GetByteOrder version) n)) ∧ shrinks (ReadUint64 (GetByteOrder version)) ∧
  shrinks (ReadUint32 (GetByteOrder version)) ∧ shrinks (ReadUint16 (GetByteOrder version)) ∧
  shrinks (readUfloat16 (GetByteOrder version)).
Proof.
  assert (shrinks (ReadUint16 (GetByteOrder version))) as H16.
  { unfold GetByteOrder. case_decide; cbn [ReadUint16 littleEndian bigEndian];
      unfold LittleEndian.ReadUint16, BigEndian.ReadUint16; auto 10 with shrink. }
  split; [|split; [|split; [|split; [done|]]]].
  - intros n. unfold GetByteOrder. case_decide; apply shrinks_loop.
  - unfold GetByteOrder. case_decide; cbn [ReadUint64 littleEndian bigEndian];
      unfold LittleEndian.ReadUint64, BigEndian.ReadUint64; auto 30 with shrink.
  - unfold GetByteOrder. case_decide; cbn [ReadUint32 littleEndian bigEndian];
      unfold LittleEndian.ReadUint32, BigEndian.ReadUint32; auto 20 with shrink.
  - unfold readUfloat16. auto with shrink.
Qed.
Lemma shrinks_ReadUintN version n : shrinks (ReadUintN (GetByteOrder version) n).
Proof. apply shrinks_order. Qed.
Lemma shrinks_ReadUint64 version : shrinks (ReadUint64 (GetByteOrder version)).
Proof. apply shrinks_order. Qed.
Lemma shrinks_ReadUint32 version : shrinks (ReadUint32 (GetByteOrder version)).
Proof. apply shrinks_order. Qed.
Lemma shrinks_ReadUint16 version : shrinks (ReadUint16 (GetByteOrder version)).
Proof. apply shrinks_order. Qed.
Lemma shrinks_readUfloat16 version : shrinks (readUfloat16 (GetByteOrder version)).
Proof. apply shrinks_order. Qed.
#[export] Hint Resolve shrinks_ReadUintN shrinks_ReadUint64 shrinks_ReadUint32 shrinks_ReadUint16
  shrinks_readUfloat16 : shrink.

Lemma shrinks_parse_blocks version w n s : shrinks (parse_blocks (GetByteOrder version) w n s).
Proof. revert s. induction n as [|n IH]; intros s; cbn [parse_blocks]; auto with shrink. Qed.
Lemma shrinks_timestamps version n : shrinks (skip_timestamps (GetByteOrder version) n).
Proof. induction n as [|n IH]; cbn [skip_timestamps]; auto with shrink. Qed.
Lemma shrinks_paths version n ids rtts : shrinks (parse_paths (GetByteOrder version) n ids rtts).
Proof. revert ids rtts. induction n as [|n IH]; intros ids rtts; cbn [parse_paths]; auto with shrink. Qed.
Lemma shrinks_read_bytes n : shrinks (read_bytes n).
Proof. induction n as [|n IH]; cbn [read_bytes]; auto with shrink. Qed.
#[export] Hint Resolve shrinks_parse_blocks shrinks_timestamps shrinks_paths shrinks_read_bytes : shrink.

Lemma shrinks_parse_ranges version w missing n largest :
  shrinks (parse_ranges (GetByteOrder version) w missing n largest).
Proof.
  unfold parse_ranges. apply shrinks_bind; [auto with shrink|]. intros l.
  repeat apply shrinks_if; auto with shrink. apply shrinks_if_bool; [|auto with shrink].
  apply shrinks_bind; [auto with shrink|]. intros s. destruct (complete_ranges s). auto with shrink.
Qed.
#[export] Hint Resolve shrinks_parse_ranges : shrink.

Ltac eat := repeat first
  [ apply shrinks_parse_ranges | apply eats_wrap | apply eats_bind; [first [apply eats_ReadByte|eat]|intros ?]
  | apply shrinks_ret | apply shrinks_fail
  | apply shrinks_bind; [|intros ?] | apply shrinks_if | apply shrinks_if_bool
  | progress (cbv zeta) | solve [auto with shrink] ].

Lemma eats_add_address version : eats (ParseAddAddressFrame version).
Proof.
  unfold ParseAddAddressFrame. apply eats_bind; [apply eats_ReadByte|]. intros _.
  apply shrinks_bind; [auto with shrink|]. intros ipv. apply shrinks_bind; [|intros ?; eat].
  destruct (byte_val ipv) as [|[p|[p|[p|p|]|]|]|]; eat.
  all: destruct p; eat.
Qed.

Lemma eats_fail {A} e : eats (fail (A := A) e).
Proof. done. Qed.

Lemma eats_parse_frame version pn len level tb : eats (parse_frame version pn len level tb).
Proof.
  unfold parse_frame. destruct (decide (Z.land tb 128 = 128)).
  { apply eats_bind; [apply eats_wrap; unfold ParseStreamFrame; eat|intros ?; eat]. }
  destruct (decide (Z.land tb 192 = 64)).
  { apply eats_bind; [apply eats_wrap; unfold ParseAckFrame; eat|intros ?; eat]. }
  destruct (decide (Z.land tb 224 = 32)); [apply eats_fail|].
  repeat match goal with |- eats (match ?x with _ => _ end) => destruct x; try apply eats_fail end;
      (apply eats_bind; [|intros ?; eat]); try apply eats_wrap;
      first [ apply eats_add_address
            | unfold ParseRstStreamFrame, ParseConnectionCloseFrame, ParseGoawayFrame, ParseWindowUpdateFrame,
                ParseBlockedFrame, ParseStopWaitingFrame, ParsePingFrame, ClosePath.Parse, ParsePathsFrame; eat ].
Qed.

Lemma unpack_frames_ends version pn len level fuel r fs :
  (length r ≤ fuel)%nat → is_Some (unpack_frames version pn len level fuel r fs).
Proof.
  revert r fs. induction fuel as [|fuel IH]; intros [|tb r] fs Hl; cbn [unpack_frames]; try by eexists.
  { simpl in Hl. lia. }
  simpl in Hl. case_decide; [apply IH; lia|].
  destruct (parse_frame _ _ _ _ _ _) as [[f r']|e] eqn:Hp; [|by eexists].
  apply eats_parse_frame in Hp. simpl in Hp. apply IH. lia.
Qed.

(** More fuel changes nothing. *)
Lemma unpack_frames_fuel version pn len level fuel fuel' r fs x :
  unpack_frames version pn len level fuel r fs = Some x → (fuel ≤ fuel')%nat →
  unpack_frames version pn len level fuel' r fs = Some x.
Proof.
  revert fuel' r fs. induction fuel as [|fuel IH]; intros fuel' [|tb r] fs H Hle; cbn [unpack_frames] in *;
    try done; destruct fuel' as [|fuel']; try done; try lia; cbn [unpack_frames].
  case_decide; [apply IH; [done|lia]|].
  destruct (parse_frame _ _ _ _ _ _) as [[f r']|e]; [apply IH; [done|lia]|done].
Qed.

(** every packet is unpacked in finitely many steps, whatever bytes it
    carries: each frame takes at least one byte of the payload. *)
Theorem unpack_terminates (AEADError : Type)
    (aead_Open : list byte → Z → list byte → result AEADError (list byte * EncryptionLevel))
    version raw hdr data :
  is_Some (Unpack AEADError aead_Open version raw hdr data).
Proof.
  unfold Unpack. destruct (aead_Open _ _ _) as [[dec level]|e]; [|by eexists].
  case_decide; [by eexists|].
  destruct (unpack_frames_ends version (PacketNumber hdr) (PacketNumberLen hdr) level (length dec) dec [])
    as [x ->]; [done|]. destruct x; by eexists.
Qed.

(** * What the peer unpacks *)

(** A frame as it is sent and as the receiver of the packet [pn] gets it: round-trip
    times and delays are rounded, addresses normalised, the ranges of an ACK frame
    those that fit, and the packet number of STOP_WAITING is that of the header. *)
Inductive carried (pn pnLen : Z) (level : EncryptionLevel) (since : AckFrame → Z) : Frame → Frame → Prop :=
| carried_stream f :
    stream_frame_ok f → StreamID f = 1 ∨ level_value EncryptionUnencrypted < level_value level →
    (if DataLenPresent f then zlen (SData f) ≤ MaxPacketSize else zlen (SData f) < 2 ^ 16) →
    carried pn pnLen level since (FStream f) (FStream f)
| carried_ack f :
    ack_sendable f → first_gap_fits f → duration_ok (since f) →
    carried pn pnLen level since (FAck f) (FAck (received_ack f (since f)))
| carried_rst f :
    u32_ok (RStreamID f) → u32_ok (ErrorCode f) → u64_ok (RByteOffset f) →
    carried pn pnLen level since (FRstStream f) (FRstStream f)
| carried_close f :
    u32_ok (CErrorCode f) → reason_ok (CReasonPhrase f) →
    carried pn pnLen level since (FConnectionClose f) (FConnectionClose f)
| carried_goaway f :
    u32_ok (GErrorCode f) → u32_ok (LastGoodStream f) → reason_ok (GReasonPhrase f) →
    carried pn pnLen level since (FGoaway f) (FGoaway f)
| carried_window f :
    u32_ok (WStreamID f) → u64_ok (WByteOffset f) →
    carried pn pnLen level since (FWindowUpdate f) (FWindowUpdate f)
| carried_blocked f :
    u32_ok (BStreamID f) → carried pn pnLen level since (FBlocked f) (FBlocked f)
| carried_stop f :
    SPacketNumber f = pn → SPacketNumberLen f = pnLen → valid_len pnLen → pn < 2 ^ 62 →
    0 < LeastUnacked f ≤ pn → pn - LeastUnacked f < 2 ^ (8 * pnLen) →
    carried pn pnLen level since (FStopWaiting f)
      (FStopWaiting {| LeastUnacked := LeastUnacked f; SPacketNumberLen := 0; SPacketNumber := 0 |})
| carried_ping : carried pn pnLen level since FPing FPing
| carried_address f ip :
    IPVersion f = 4 ∧ To4 (IP f) = Some ip ∨ IPVersion f = 6 ∧ To16 (IP f) = Some ip → u16_ok (Port f) →
    carried pn pnLen level since (FAddAddress f)
      (FAddAddress {| IPVersion := IPVersion f; Port := Port f;
                      IP := if decide (IPVersion f = 4) then v4InV6Prefix ++ ip else ip |})
| carried_close_path f :
    ack_sendable (as_ack f) → first_gap_fits (as_ack f) →
    carried pn pnLen level since (FClosePath f) (FClosePath (received_close f))
| carried_paths_frame f :
    paths_ok f → carried pn pnLen level since (FPaths f) (FPaths (carried_paths f)).

(** A STREAM frame without a data length takes the rest of the packet. *)
Definition takes_rest (f : Frame) : bool :=
  match f with FStream f => negb (DataLenPresent f) | _ => false end.

(** The bytes of [f] are parsed as [g], whatever follows. *)
Definition arrives (version pn pnLen : Z) (level : EncryptionLevel) (since : AckFrame → Z) (f g : Frame) : Prop :=
  ∃ tb bs, writes (write_frame version since f) (tb :: bs) ∧ tb ≠ x00 ∧
    ∀ rest, (takes_rest f = true → rest = []) →
      parse_frame version pn pnLen level (byte_val tb) (tb :: bs ++ rest) = Ok (g, rest).

Lemma reads_wrap {A} code (m : reader A) bs v : reads m bs v → reads (wrap code m) bs v.
Proof. intros Hm r. unfold wrap. by rewrite Hm. Qed.

Lemma writes_put_inv b k bs : writes (put (put_byte b) k) bs → ∃ bs', bs = b :: bs'.
Proof. unfold writes, put. destruct k as [[k e]|]; [|done]. intros [= <- _]. by eexists. Qed.

Section arrival.
Context (version pn pnLen : Z) (level : EncryptionLevel) (since : AckFrame → Z).

Lemma arrives_parsed {A} (C : A → Frame) f b k parse (code : Z) len g :
  write_frame version since f = put (put_byte b) k → takes_rest f = false → b ≠ x00 →
  parse_frame version pn pnLen level (byte_val b) = (x ← wrap code parse; mret (C x)) ∨
  parse_frame version pn pnLen level (byte_val b) = (x ← parse; mret (C x)) →
  roundtrip (put (put_byte b) k) parse g len →
  arrives version pn pnLen level since f (C g).
Proof using Type.
  intros Hw Ht Hb Hp (bs & Hbs & Hr & _). destruct (writes_put_inv _ _ _ Hbs) as [bs' ->].
  exists b, bs'. rewrite Hw. split; [done|]. split; [done|]. intros rest _.
  change (b :: bs' ++ rest) with ((b :: bs') ++ rest). destruct Hp as [-> | ->].
  - assert (reads (x ← wrap code parse; mret (C x)) (b :: bs') (C g)) as H; [|apply H].
    eapply reads_bind_last; [by apply reads_wrap|apply reads_ret].
  - assert (reads (x ← parse; mret (C x)) (b :: bs') (C g)) as H; [|apply H].
    eapply reads_bind_last; [done|apply reads_ret].
Qed.

Lemma stream_type_high fin present (on sn : nat) :
  (on ≤ 8)%nat → on ≠ 1%nat → (1 ≤ sn ≤ 4)%nat →
  let t := byte_val (byte_of (stream_type_byte fin present (Z.of_nat on) (Z.of_nat sn))) in
  Z.land t 128 = 128.
Proof using Type.
  intros Hon Hon1 Hsn.
  assert (sn ∈ [1; 2; 3; 4]%nat) as Hs by (rewrite !elem_of_cons; lia).
  assert (on ∈ [0; 2; 3; 4; 5; 6; 7; 8]%nat) as Ho by (rewrite !elem_of_cons; lia).
  clear -Hs Ho. revert on Ho. apply Forall_forall. revert sn Hs. apply Forall_forall.
  destruct fin, present; repeat constructor.
Qed.

Lemma stream_arrives f :
  stream_frame_ok f → StreamID f = 1 ∨ level_value EncryptionUnencrypted < level_value level →
  (if DataLenPresent f then zlen (SData f) ≤ MaxPacketSize else zlen (SData f) < 2 ^ 16) →
  arrives version pn pnLen level since (FStream f) (FStream f).
Proof using Type.
  intros Hok Hlev Hl.
  destruct (stream_written version f Hok) as (on & sn & Ho8 & Ho1 & Hs4 & Hor & Hsr & _ & Hw).
  { unfold MaxPacketSize in Hl. destruct (DataLenPresent f); lia. }
  pose proof (stream_type_high (FinBit f) (DataLenPresent f) on sn Ho8 Ho1 Hs4) as Hhigh.
  eexists _, _. split; [exact Hw|]. split.
  { intros E. rewrite E in Hhigh. by vm_compute in Hhigh. }
  intros rest Hrest. unfold parse_frame. rewrite Hhigh, decide_True by done.
  unfold mbind, reader_bind, wrap.
  pose proof (stream_parsed version f on sn rest Hok Ho8 Ho1 Hs4 Hor Hsr) as Hp.
  rewrite <-app_assoc in Hp. cbn [app] in Hp. rewrite Hp.
  - destruct (decide _) as [[H1 H2]|]; [lia|done].
  - revert Hl Hrest. unfold takes_rest. destruct (DataLenPresent f); [done|]. cbn. auto.
Qed.

Lemma ack_type_byte w1 w2 (missing path : bool) :
  valid_len w1 → valid_len w2 →
  let t := len_bits w1 w2 64 in
  let t := if missing then Z.lor t 32 else t in
  let t := if path then Z.lor t 16 else t in
  Z.land (byte_val (byte_of t)) 128 ≠ 128 ∧ Z.land (byte_val (byte_of t)) 192 = 64.
Proof using Type.
  intros [->|[->|[->| ->]]] [->|[->|[->| ->]]]; destruct missing, path; vm_compute; by split.
Qed.

Lemma ack_arrives f :
  ack_sendable f → first_gap_fits f → duration_ok (since f) →
  arrives version pn pnLen level since (FAck f) (FAck (received_ack f (since f))).
Proof using Type.
  intros Hf Hg Hd. destruct (delta_width f Hf) as (Hw & _). pose proof Hf as [_ Hl Hlg _ _ _].
  destruct (largest_width (LargestAcked f)) as [Hw1 _]; [lia|].
  destruct (ack_type_byte _ _ (HasMissingRanges f) (bool_decide (APathID f ≠ InitialPathID)) Hw1 Hw) as [H1 H2].
  pose proof (ack_written version f (since f) Hf Hg Hd) as Hrt. unfold write_AckFrame in Hrt.
  rewrite (decide_bool (APathID f ≠ InitialPathID) (Z.lor _ _)) in Hrt.
  eapply (arrives_parsed FAck); [| |..|exact Hrt]; [|done|..].
  - cbn [write_frame]. unfold write_AckFrame. by rewrite (decide_bool (APathID f ≠ InitialPathID) (Z.lor _ _)).
  - intros E. cbv zeta in *. rewrite E in H2. by vm_compute in H2.
  - left. unfold parse_frame. cbv zeta in *. by rewrite decide_False, decide_True.
Qed.

Lemma carried_arrives f g :
  carried pn pnLen level since f g → arrives version pn pnLen level since f g.
Proof using Type.
  destruct 1 as [f|f|f|f|f|f|f|f Hpn Hlen| |f ip|f|f].
  - by apply stream_arrives.
  - by apply ack_arrives.
  - eapply (arrives_parsed FRstStream); [done|done|done|by left|by apply rst_roundtrip].
  - eapply (arrives_parsed FConnectionClose); [done|done|done|by left|by apply connection_close_roundtrip].
  - eapply (arrives_parsed FGoaway); [done|done|done|by left|by apply goaway_roundtrip].
  - eapply (arrives_parsed FWindowUpdate); [done|done|done|by left|by apply window_update_roundtrip].
  - eapply (arrives_parsed FBlocked); [done|done|done|by left|by apply blocked_roundtrip].
  - destruct f as [lu len n]. cbn in *. subst n len.
    pose proof (stop_waiting_written version lu pn pnLen) as Hrt.
    unfold write_StopWaitingFrame in Hrt. cbn [LeastUnacked SPacketNumberLen SPacketNumber] in Hrt.
    rewrite !decide_False in Hrt by lia.
    eapply (arrives_parsed FStopWaiting _ x06); [| |..|by apply Hrt]; [|done|done|by left].
    cbn [write_frame]. unfold write_StopWaitingFrame. cbn [LeastUnacked SPacketNumberLen SPacketNumber].
    by rewrite !decide_False by lia.
  - eapply (arrives_parsed (λ _ : (), FPing) _ _ _ _ 0); [done|done|done|by right|exact ping_roundtrip].
  - destruct (add_address_roundtrip version f ip) as (len & _ & Hrt); [done|done|].
    eapply (arrives_parsed FAddAddress _ _ _ _ 0); [done|done|done|by right|exact Hrt].
  - eapply (arrives_parsed FClosePath _ _ _ _ 0); [done|done|done|by right|by apply close_path_written].
  - eapply (arrives_parsed FPaths _ _ _ _ 0); [done|done|done|by right|by apply paths_roundtrip].
Qed.
End arrival.

(** ** Whole packets *)

(** The frames of a payload one after the other; the first error ends it. *)
Fixpoint write_frames (version : Z) (since : AckFrame → Z) (fs : list Frame) : written :=
  match fs with
  | [] => finish
  | f :: fs =>
      match write_frame version since f with
      | Some (b, None) => put (Some b) (write_frames version since fs)
      | r => r
      end
  end.

(** Only the last frame may take the rest of the packet. *)
Fixpoint rest_last (fs : list Frame) : Prop :=
  match fs with
  | f :: (_ :: _) as fs' => takes_rest f = false ∧ rest_last fs'
  | _ => True
  end.

Lemma frames_unpacked version pn pnLen level since fs gs :
  Forall2 (carried pn pnLen level since) fs gs → rest_last fs →
  ∃ payload, writes (write_frames version since fs) payload ∧ (fs ≠ [] → payload ≠ []) ∧
    ∀ fuel acc, (length payload ≤ fuel)%nat →
      unpack_frames version pn pnLen level fuel payload acc = Some (Ok (acc ++ gs)).
Proof.
  induction 1 as [|f g fs gs Hfg Hfgs IH]; intros Hlast.
  { exists []. split; [done|]. split; [done|]. intros fuel acc _. rewrite app_nil_r. by destruct fuel. }
  destruct (carried_arrives version pn pnLen level since f g Hfg) as (tb & bs & Hw & Hz & Hp).
  destruct IH as (payload & Hwp & Hne & Hu); [destruct fs; [done|by destruct Hlast]|].
  exists ((tb :: bs) ++ payload). split; [|split; [done|]].
  - cbn [write_frames]. rewrite Hw. by eapply writes_put.
  - intros [|fuel] acc Hfuel; [simpl in Hfuel; lia|]. cbn [app unpack_frames].
    rewrite decide_False by done. rewrite Hp.
    + rewrite Hu; [by rewrite <-app_assoc|]. simpl in Hfuel. rewrite length_app in Hfuel. lia.
    + intros Ht. destruct fs as [|f' fs]; [|by destruct Hlast as [Hf _]; rewrite Hf in Ht].
      cbn in Hwp. injection Hwp as <-. done.
Qed.

(** a sealed payload is unpacked into the frames that were packed: for any
    AEAD whose [Open] inverts its [Seal], the receiver of the packet gets each frame
    of the packet, in order, in the form it is carried in, and nothing else. *)
Theorem packet_unpacked (AEADError : Type)
    (aead_Open : list byte → Z → list byte → result AEADError (list byte * EncryptionLevel))
    (aead_Seal : list byte → Z → list byte → list byte) level version since hdr raw fs gs :
  (∀ p n a, aead_Open (aead_Seal p n a) n a = Ok (p, level)) →
  fs ≠ [] → rest_last fs →
  Forall2 (carried (PacketNumber hdr) (PacketNumberLen hdr) level since) fs gs →
  ∃ payload, writes (write_frames version since fs) payload ∧
    Unpack AEADError aead_Open version raw hdr (aead_Seal payload (PacketNumber hdr) raw) =
      Some (Ok {| encryptionLevel := level; frames := gs |}).
Proof.
  intros Haead Hfs Hlast Hc.
  destruct (frames_unpacked version _ _ level since fs gs Hc Hlast) as (payload & Hw & Hne & Hu).
  exists payload. split; [done|]. unfold Unpack. rewrite Haead, decide_False by auto. by rewrite Hu.
Qed.

Definition sample_frames : list Frame :=
  [FStopWaiting {| LeastUnacked := 65000; SPacketNumberLen := 4; SPacketNumber := 100000 |};
   FAck sample_ack; FPing;
   FStream {| StreamID := 5; FinBit := false; DataLenPresent := false; Offset := 10; SData := [x01; x00; x2a] |}].

(** An AEAD for the example: the ciphertext is the reversed text. *)
Definition toy_Seal (p : list byte) (_ : Z) (_ : list byte) : list byte := reverse p.
Definition toy_Open (c : list byte) (_ : Z) (_ : list byte) : result () (list byte * EncryptionLevel) :=
  Ok (reverse c, EncryptionForwardSecure).

Lemma packet_unpacked_witness :
  ∃ payload, writes (write_frames 512 (λ _, 25000000) sample_frames) payload ∧
    Unpack () toy_Open 512 [x2a] sent_header (toy_Seal payload 100000 [x2a]) =
      Some (Ok {| encryptionLevel := EncryptionForwardSecure; frames :=
        [FStopWaiting {| LeastUnacked := 65000; SPacketNumberLen := 0; SPacketNumber := 0 |};
         FAck (received_ack sample_ack 25000000); FPing;
         FStream {| StreamID := 5; FinBit := false; DataLenPresent := false; Offset := 10;
                    SData := [x01; x00; x2a] |}] |}).
Proof.
  apply (packet_unpacked () toy_Open toy_Seal EncryptionForwardSecure 512 (λ _, 25000000) sent_header [x2a]
    sample_frames).
  - intros p n a. unfold toy_Open, toy_Seal. by rewrite reverse_involutive.
  - done.
  - done.
  - repeat apply Forall2_cons_2; [| | | |apply Forall2_nil_2].
    + apply (carried_stop _ _ _ _ {| LeastUnacked := 65000; SPacketNumberLen := 4; SPacketNumber := 100000 |});
        cbn; try done; unfold valid_len; lia.
    + apply (carried_ack _ _ _ (λ _, 25000000)); [exact sample_ack_sendable|by vm_compute|by vm_compute].
    + constructor.
    + apply carried_stream; [split; cbn; [unfold u32_ok; lia|lia|by vm_compute|done]|right; by vm_compute|by vm_compute].
Defined.

Close Scope Z_scope.
