(* ===== verification/Handshake.v ===== *)
(** Handshake messages, negotiated parameters and public resets
    (src/mp-quic/internal/handshake: handshake_message.go, tags.go,
    connection_parameters_manager.go; internal/wire/public_reset.go).

    A handshake message maps tags to values: on the wire the tags come in
    order, each with the offset of the end of its value, and then the values.
    The parameters of a connection are exchanged in such messages. *)

From Stdlib Require Import ZArith Lia.
From Stdlib Require Import Strings.Byte.
From stdpp Require Import prelude numbers list gmap sorting.
From S2P Require Import Prelude ByteOrder Protocol Wire PublicHeader.

Open Scope Z_scope.

(** * Tags *)

Definition tag4 (a b c d : byte) : Z :=
  byte_val a + Z.shiftl (byte_val b) 8 + Z.shiftl (byte_val c) 16 + Z.shiftl (byte_val d) 24.
Definition TagMSPC : Z := tag4 "M" "S" "P" "C".
Definition TagMIDS : Z := tag4 "M" "I" "D" "S".
Definition TagTCID : Z := tag4 "T" "C" "I" "D".
Definition TagICSL : Z := tag4 "I" "C" "S" "L".
Definition TagCFCW : Z := tag4 "C" "F" "C" "W".
Definition TagSFCW : Z := tag4 "S" "F" "C" "W".
Definition TagPRST : Z := tag4 "P" "R" "S" "T".
Definition TagRSEQ : Z := tag4 "R" "S" "E" "Q".
Definition TagRNON : Z := tag4 "R" "N" "O" "N".

(** * Messages *)

Record HandshakeMessage : Type := { MTag : Z; MData : gmap Z (list byte) }.

Definition CryptoMaxParams : Z := 128.
Definition CryptoParameterMaxLength : Z := 4000.
Definition CryptoTooManyEntries : Z := 30.
Definition CryptoInvalidValueLength : Z := 31.

Definition getTagsSorted (h : HandshakeMessage) : list Z := merge_sort Z.le (elements (dom (MData h))).

(** The index and the values, from the offset of the first value. *)
Fixpoint write_entries (data : gmap Z (list byte)) (tags : list Z) (offset : Z) : list byte * list byte :=
  match tags with
  | [] => ([], [])
  | t :: tags =>
      let v := default [] (data !! t) in
      let offset := u32 (offset + u32 (zlen v)) in
      let '(index, values) := write_entries data tags offset in
      (le_bytes 4 (u32 t) ++ le_bytes 4 offset ++ index, v ++ values)
  end.

Definition write_HandshakeMessage (h : HandshakeMessage) : option (list byte) :=
  t ← LittleEndian.WriteUint32 (u32 (MTag h));
  n ← LittleEndian.WriteUint16 (u16 (Z.of_nat (size (MData h))));
  z ← LittleEndian.WriteUint16 0;
  let '(index, values) := write_entries (MData h) (getTagsSorted h) 0 in
  Some (t ++ n ++ z ++ index ++ values).

(** The loop over the index, eight bytes at a time. *)
Fixpoint parse_entries (nPairs : nat) (index : list byte) (dataStart : Z) (m : gmap Z (list byte)) :
    reader (gmap Z (list byte)) :=
  match nPairs with
  | O => mret m
  | S nPairs =>
      let tag := le_val (take 4 index) in
      let dataEnd := le_val (take 4 (drop 4 index)) in
      let dataLen := u32 (dataEnd - dataStart) in
      if decide (CryptoParameterMaxLength < dataLen) then fail (QuicError CryptoInvalidValueLength)
      else data ← ReadFull dataLen; parse_entries nPairs (drop 8 index) dataEnd (<[tag := data]> m)
  end.

Definition ParseHandshakeMessage : reader HandshakeMessage :=
  t ← ReadFull 4;
  n ← ReadFull 4;
  let nPairs := le_val n in
  if decide (CryptoMaxParams < nPairs) then fail (QuicError CryptoTooManyEntries)
  else
    index ← ReadFull (nPairs * 8);
    m ← parse_entries (Z.to_nat nPairs) index 0 ∅;
    mret {| MTag := le_val t; MData := m |}.

(** * Public resets *)

Record PublicReset : Type := { RejectedPacketNumber : Z; Nonce : Z }.

Definition WritePublicReset (connectionID rejectedPacketNumber nonceProof : Z) : option (list byte) :=
  c ← LittleEndian.WriteUint64 connectionID;
  prst ← LittleEndian.WriteUint32 TagPRST;
  two ← LittleEndian.WriteUint32 2;
  rnon ← LittleEndian.WriteUint32 TagRNON;
  eight ← LittleEndian.WriteUint32 8;
  rseq ← LittleEndian.WriteUint32 TagRSEQ;
  sixteen ← LittleEndian.WriteUint32 16;
  nonce ← LittleEndian.WriteUint64 nonceProof;
  rejected ← LittleEndian.WriteUint64 rejectedPacketNumber;
  Some ([x0a] ++ c ++ prst ++ two ++ rnon ++ eight ++ rseq ++ sixteen ++ nonce ++ rejected).

Definition ParsePublicReset : reader PublicReset :=
  msg ← ParseHandshakeMessage;
  if decide (MTag msg ≠ TagPRST) then fail errWrongPublicResetTag
  else
    match MData msg !! TagRSEQ with
    | None => fail (errMissingTag TagRSEQ)
    | Some rseq =>
        if decide (zlen rseq ≠ 8) then fail (errInvalidTag TagRSEQ)
        else
          match MData msg !! TagRNON with
          | None => fail (errMissingTag TagRNON)
          | Some rnon =>
              if decide (zlen rnon ≠ 8) then fail (errInvalidTag TagRNON)
              else mret {| RejectedPacketNumber := le_val rseq; Nonce := le_val rnon |}
          end
    end.

(** * Connection parameters *)

Definition Second : Z := 1000 * 1000 * 1000.
Definition InitialStreamFlowControlWindow : Z := 2 ^ 14.
Definition InitialConnectionFlowControlWindow : Z := 2 ^ 14.
Definition ReceiveStreamFlowControlWindow : Z := Z.shiftl 1 10 * 32.
Definition ReceiveConnectionFlowControlWindow : Z := Z.shiftl 1 10 * 48.
Definition MaxStreamsPerConnection : Z := 100.
Definition MaxIncomingDynamicStreamsPerConnection : Z := 100.
Definition MaxStreamsMinimumIncrement : Z := 10.

Inductive ParamError : Type := ErrMalformedTag | ErrFlowControlRenegotiationNotSupported.

Record connectionParametersManager : Type := {
  cpm_version : Z;
  perspective : Perspective;
  flowControlNegotiated : bool;
  truncateConnectionID : bool;
  maxStreamsPerConnection : Z;
  maxIncomingDynamicStreamsPerConnection : Z;
  idleConnectionStateLifetime : Z;
  sendStreamFlowControlWindow : Z;
  sendConnectionFlowControlWindow : Z;
  receiveStreamFlowControlWindow : Z;
  receiveConnectionFlowControlWindow : Z;
  maxReceiveStreamFlowControlWindow : Z;
  maxReceiveConnectionFlowControlWindow : Z
}.

Definition NewConnectionParamatersManager (pers : Perspective) (v maxStream maxConnection idleTimeout : Z) :
    connectionParametersManager := {|
  cpm_version := v; perspective := pers; flowControlNegotiated := false; truncateConnectionID := false;
  maxStreamsPerConnection := MaxStreamsPerConnection;
  maxIncomingDynamicStreamsPerConnection := MaxStreamsPerConnection;
  idleConnectionStateLifetime := idleTimeout;
  sendStreamFlowControlWindow := InitialStreamFlowControlWindow;
  sendConnectionFlowControlWindow := InitialConnectionFlowControlWindow;
  receiveStreamFlowControlWindow := ReceiveStreamFlowControlWindow;
  receiveConnectionFlowControlWindow := ReceiveConnectionFlowControlWindow;
  maxReceiveStreamFlowControlWindow := maxStream;
  maxReceiveConnectionFlowControlWindow := maxConnection
|}.

Definition negotiateMaxStreamsPerConnection (clientValue : Z) : Z := Z.min clientValue MaxStreamsPerConnection.
Definition negotiateMaxIncomingDynamicStreamsPerConnection (clientValue : Z) : Z :=
  Z.min clientValue MaxIncomingDynamicStreamsPerConnection.
Definition negotiateIdleConnectionStateLifetime (h : connectionParametersManager) (clientValue : Z) : Z :=
  Z.min clientValue (idleConnectionStateLifetime h).

(** The fields [SetFromMap] assigns. *)
Definition set_truncate (b : bool) (h : connectionParametersManager) : connectionParametersManager := {|
  cpm_version := cpm_version h; perspective := perspective h; flowControlNegotiated := flowControlNegotiated h;
  truncateConnectionID := b; maxStreamsPerConnection := maxStreamsPerConnection h;
  maxIncomingDynamicStreamsPerConnection := maxIncomingDynamicStreamsPerConnection h;
  idleConnectionStateLifetime := idleConnectionStateLifetime h;
  sendStreamFlowControlWindow := sendStreamFlowControlWindow h;
  sendConnectionFlowControlWindow := sendConnectionFlowControlWindow h;
  receiveStreamFlowControlWindow := receiveStreamFlowControlWindow h;
  receiveConnectionFlowControlWindow := receiveConnectionFlowControlWindow h;
  maxReceiveStreamFlowControlWindow := maxReceiveStreamFlowControlWindow h;
  maxReceiveConnectionFlowControlWindow := maxReceiveConnectionFlowControlWindow h
|}.
Definition set_streams (n : Z) (h : connectionParametersManager) : connectionParametersManager := {|
  cpm_version := cpm_version h; perspective := perspective h; flowControlNegotiated := flowControlNegotiated h;
  truncateConnectionID := truncateConnectionID h; maxStreamsPerConnection := n;
  maxIncomingDynamicStreamsPerConnection := maxIncomingDynamicStreamsPerConnection h;
  idleConnectionStateLifetime := idleConnectionStateLifetime h;
  sendStreamFlowControlWindow := sendStreamFlowControlWindow h;
  sendConnectionFlowControlWindow := sendConnectionFlowControlWindow h;
  receiveStreamFlowControlWindow := receiveStreamFlowControlWindow h;
  receiveConnectionFlowControlWindow := receiveConnectionFlowControlWindow h;
  maxReceiveStreamFlowControlWindow := maxReceiveStreamFlowControlWindow h;
  maxReceiveConnectionFlowControlWindow := maxReceiveConnectionFlowControlWindow h
|}.
Definition set_incoming (n : Z) (h : connectionParametersManager) : connectionParametersManager := {|
  cpm_version := cpm_version h; perspective := perspective h; flowControlNegotiated := flowControlNegotiated h;
  truncateConnectionID := truncateConnectionID h; maxStreamsPerConnection := maxStreamsPerConnection h;
  maxIncomingDynamicStreamsPerConnection := n;
  idleConnectionStateLifetime := idleConnectionStateLifetime h;
  sendStreamFlowControlWindow := sendStreamFlowControlWindow h;
  sendConnectionFlowControlWindow := sendConnectionFlowControlWindow h;
  receiveStreamFlowControlWindow := receiveStreamFlowControlWindow h;
  receiveConnectionFlowControlWindow := receiveConnectionFlowControlWindow h;
  maxReceiveStreamFlowControlWindow := maxReceiveStreamFlowControlWindow h;
  maxReceiveConnectionFlowControlWindow := maxReceiveConnectionFlowControlWindow h
|}.
Definition set_idle (d : Z) (h : connectionParametersManager) : connectionParametersManager := {|
  cpm_version := cpm_version h; perspective := perspective h; flowControlNegotiated := flowControlNegotiated h;
  truncateConnectionID := truncateConnectionID h; maxStreamsPerConnection := maxStreamsPerConnection h;
  maxIncomingDynamicStreamsPerConnection := maxIncomingDynamicStreamsPerConnection h;
  idleConnectionStateLifetime := d;
  sendStreamFlowControlWindow := sendStreamFlowControlWindow h;
  sendConnectionFlowControlWindow := sendConnectionFlowControlWindow h;
  receiveStreamFlowControlWindow := receiveStreamFlowControlWindow h;
  receiveConnectionFlowControlWindow := receiveConnectionFlowControlWindow h;
  maxReceiveStreamFlowControlWindow := maxReceiveStreamFlowControlWindow h;
  maxReceiveConnectionFlowControlWindow := maxReceiveConnectionFlowControlWindow h
|}.
Definition set_windows (stream conn : Z) (negotiated : bool) (h : connectionParametersManager) :
    connectionParametersManager := {|
  cpm_version := cpm_version h; perspective := perspective h; flowControlNegotiated := negotiated;
  truncateConnectionID := truncateConnectionID h; maxStreamsPerConnection := maxStreamsPerConnection h;
  maxIncomingDynamicStreamsPerConnection := maxIncomingDynamicStreamsPerConnection h;
  idleConnectionStateLifetime := idleConnectionStateLifetime h;
  sendStreamFlowControlWindow := stream; sendConnectionFlowControlWindow := conn;
  receiveStreamFlowControlWindow := receiveStreamFlowControlWindow h;
  receiveConnectionFlowControlWindow := receiveConnectionFlowControlWindow h;
  maxReceiveStreamFlowControlWindow := maxReceiveStreamFlowControlWindow h;
  maxReceiveConnectionFlowControlWindow := maxReceiveConnectionFlowControlWindow h
|}.

(** One tag of [SetFromMap]: absent, malformed, or applied; an error keeps what
    the tags before it changed. *)
Definition on_tag (params : gmap Z (list byte)) (tag : Z)
    (apply : Z → connectionParametersManager → connectionParametersManager)
    (k : connectionParametersManager → connectionParametersManager * option ParamError)
    (h : connectionParametersManager) : connectionParametersManager * option ParamError :=
  match params !! tag with
  | None => k h
  | Some value =>
      match LittleEndian.ReadUint32 value with
      | Err _ => (h, Some ErrMalformedTag)
      | Ok (v, _) => k (apply v h)
      end
  end.

(** The two window tags are refused once the windows are negotiated. *)
Definition on_window (params : gmap Z (list byte)) (tag : Z)
    (apply : Z → connectionParametersManager → connectionParametersManager)
    (k : connectionParametersManager → connectionParametersManager * option ParamError)
    (h : connectionParametersManager) : connectionParametersManager * option ParamError :=
  match params !! tag with
  | Some _ => if flowControlNegotiated h then (h, Some ErrFlowControlRenegotiationNotSupported)
              else on_tag params tag apply k h
  | None => k h
  end.

Definition SetFromMap (h : connectionParametersManager) (params : gmap Z (list byte)) :
    connectionParametersManager * option ParamError :=
  (if bool_decide (perspective h = PerspectiveServer)
   then on_tag params TagTCID (λ v h, set_truncate (bool_decide (v = 0)) h) else λ k h, k h)
  (on_tag params TagMSPC (λ v h, set_streams (negotiateMaxStreamsPerConnection v) h)
  (on_tag params TagMIDS (λ v h, set_incoming (negotiateMaxIncomingDynamicStreamsPerConnection v) h)
  (on_tag params TagICSL (λ v h, set_idle (negotiateIdleConnectionStateLifetime h (i64 (v * Second))) h)
  (on_window params TagSFCW
    (λ v h, set_windows v (sendConnectionFlowControlWindow h) (flowControlNegotiated h) h)
  (on_window params TagCFCW
    (λ v h, set_windows (sendStreamFlowControlWindow h) v (flowControlNegotiated h) h)
  (λ h, if bool_decide (is_Some (params !! TagCFCW)) || bool_decide (is_Some (params !! TagSFCW))
        then (set_windows (sendStreamFlowControlWindow h) (sendConnectionFlowControlWindow h) true h, None)
        else (h, None))))))) h.

Definition GetHelloMap (h : connectionParametersManager) : option (gmap Z (list byte)) :=
  sfcw ← LittleEndian.WriteUint32 (u32 (receiveStreamFlowControlWindow h));
  cfcw ← LittleEndian.WriteUint32 (u32 (receiveConnectionFlowControlWindow h));
  mspc ← LittleEndian.WriteUint32 (maxStreamsPerConnection h);
  mids ← LittleEndian.WriteUint32 MaxIncomingDynamicStreamsPerConnection;
  icsl ← LittleEndian.WriteUint32 (u32 (Z.quot (idleConnectionStateLifetime h) Second));
  Some (<[TagICSL := icsl]> (<[TagMSPC := mspc]> (<[TagMIDS := mids]>
    (<[TagCFCW := cfcw]> (<[TagSFCW := sfcw]> ∅))))).

Definition GetMaxOutgoingStreams (h : connectionParametersManager) : Z :=
  maxIncomingDynamicStreamsPerConnection h.
(** The float product 100 * 1.1 truncates to 110. *)
Definition GetMaxIncomingStreams : Z :=
  Z.max (MaxIncomingDynamicStreamsPerConnection + MaxStreamsMinimumIncrement)
    (MaxIncomingDynamicStreamsPerConnection * 11 / 10).
Definition TruncateConnectionID_ (h : connectionParametersManager) : bool :=
  match perspective h with PerspectiveClient => false | PerspectiveServer => truncateConnectionID h end.

(** * Messages are read back *)

Lemma little_write16 v : 0 ≤ v < 2 ^ 16 → LittleEndian.WriteUint16 v = Some (le_bytes 2 v).
Proof. exact (write_uint16 (bo := littleEndian) v). Qed.
Lemma le_bytes_enc n v : enc (bo := littleEndian) n v = le_bytes n v.
Proof. done. Qed.

Record message_ok (h : HandshakeMessage) : Prop := {
  mo_tag : 0 ≤ MTag h < 2 ^ 32;
  mo_size : Z.of_nat (size (MData h)) ≤ CryptoMaxParams;
  mo_data : map_Forall (λ t v, 0 ≤ t < 2 ^ 32 ∧ zlen v ≤ CryptoParameterMaxLength) (MData h)
}.

Lemma tags_sorted_perm h : getTagsSorted h ≡ₚ elements (dom (MData h)).
Proof. apply merge_sort_Permutation. Qed.
Lemma elem_of_tags h t : t ∈ getTagsSorted h ↔ is_Some (MData h !! t).
Proof. rewrite (tags_sorted_perm h), elem_of_elements. apply elem_of_dom. Qed.
Lemma length_tags h : length (getTagsSorted h) = size (MData h).
Proof. rewrite (tags_sorted_perm h). change (size (dom (MData h)) = size (MData h)). apply size_dom. Qed.

(** The loop collects the values of the tags in turn. *)
Lemma entries_read data tags offset m :
  (∀ t, t ∈ tags → 0 ≤ t < 2 ^ 32 ∧ zlen (default [] (data !! t)) ≤ CryptoParameterMaxLength) →
  0 ≤ offset → offset + CryptoParameterMaxLength * zlen tags < 2 ^ 32 →
  let '(index, values) := write_entries data tags offset in
  length index = (8 * length tags)%nat ∧
  reads (parse_entries (length tags) index offset m) values
    (foldl (λ m t, <[t := default [] (data !! t)]> m) m tags).
Proof.
  revert offset m. induction tags as [|t tags IH]; intros offset m Ht Ho Hsum.
  { cbn. split; [done|apply reads_ret]. }
  cbn [write_entries]. destruct (Ht t) as [Htr Hv]; [by left|]. rewrite zlen_cons in Hsum.
  remember (default [] (data !! t)) as v eqn:Ev. pose proof (zlen_nonneg v) as Hv0.
  pose proof (zlen_nonneg tags) as Htags. unfold CryptoParameterMaxLength in *.
  rewrite (u32_small (zlen v)), (u32_small (offset + _)), (u32_small t) by lia.
  specialize (IH (offset + zlen v) (<[t := v]> m)).
  destruct (write_entries data tags (offset + zlen v)) as [index values].
  destruct IH as [Hl Hr]; [intros x Hx; apply Ht; by right|lia|lia|]. split.
  { rewrite !length_app, !length_le_bytes, Hl. simpl. lia. }
  cbn [length parse_entries foldl].
  rewrite (take_app_length' (le_bytes 4 t)), (drop_app_length' (le_bytes 4 t)) by (by rewrite length_le_bytes).
  rewrite (take_app_length' (le_bytes 4 (offset + zlen v))) by (by rewrite length_le_bytes).
  rewrite !le_val_bytes by lia. replace (offset + zlen v - offset) with (zlen v) by lia.
  rewrite u32_small, decide_False by (unfold CryptoParameterMaxLength; lia).
  eapply reads_bind; [by apply reads_ReadFull|].
  rewrite app_assoc, (drop_app_length' (le_bytes 4 t ++ _)) by (by rewrite length_app, !length_le_bytes).
  rewrite <-Ev. exact Hr.
Qed.

Lemma foldl_insert_lookup {A} (f : Z → A) tags m k :
  (foldl (λ m t, <[t := f t]> m) m tags : gmap Z A) !! k = if decide (k ∈ tags) then Some (f k) else m !! k.
Proof.
  revert m. induction tags as [|t tags IH]; intros m; cbn [foldl]; [by rewrite decide_False by set_solver|].
  rewrite IH. destruct (decide (k ∈ tags)) as [H|H]; [by rewrite decide_True by set_solver|].
  destruct (decide (k = t)) as [->|Hk].
  - rewrite decide_True by set_solver. apply lookup_insert_eq.
  - rewrite decide_False by set_solver. by apply lookup_insert_ne.
Qed.

Lemma message_written h :
  message_ok h → ∃ bs, write_HandshakeMessage h = Some bs ∧ reads ParseHandshakeMessage bs h.
Proof.
  intros [Htag Hsize Hdata]. set (n := Z.of_nat (size (MData h))). fold n in Hsize.
  unfold CryptoMaxParams in Hsize. pose proof (length_tags h) as Hlen.
  pose proof (entries_read (MData h) (getTagsSorted h) 0 ∅) as He.
  unfold write_HandshakeMessage. fold n. rewrite (u32_small (MTag h)), (u16_small n) by lia.
  rewrite (little_write32 (MTag h)) by lia.
  assert (LittleEndian.WriteUint16 n = Some (le_bytes 2 n)) as -> by (apply little_write16; lia).
  assert (LittleEndian.WriteUint16 0 = Some (le_bytes 2 0)) as -> by (apply little_write16; lia).
  cbn [mbind option_bind]. destruct (write_entries (MData h) (getTagsSorted h) 0) as [index values].
  destruct He as [Hil Hr].
  { intros t Hin. apply elem_of_tags in Hin as [v Hv]. specialize (Hdata t v Hv) as [? ?]. by rewrite Hv. }
  { done. }
  { unfold CryptoParameterMaxLength, zlen. rewrite Hlen. fold n. lia. }
  rewrite le_bytes_enc. eexists. split; [done|]. unfold ParseHandshakeMessage.
  eapply reads_bind; [apply reads_ReadFull; unfold zlen; by rewrite length_le_bytes|].
  rewrite app_assoc. eapply reads_bind.
  { apply reads_ReadFull. unfold zlen. by rewrite length_app, !length_le_bytes. }
  assert (le_val (le_bytes 2 n ++ le_bytes 2 0) = n) as ->.
  { unfold le_val. rewrite reverse_app, be_val_app, length_reverse, length_le_bytes.
    change (be_val (reverse (le_bytes 2 0))) with 0. change (be_val (reverse (le_bytes 2 n))) with (le_val (le_bytes 2 n)).
    rewrite le_val_bytes; simpl; lia. }
  rewrite decide_False by (unfold CryptoMaxParams; lia).
  eapply reads_bind; [apply reads_ReadFull; unfold zlen; rewrite Hil, Hlen; lia|].
  replace (Z.to_nat n) with (length (getTagsSorted h)) by lia.
  eapply reads_bind_last; [exact Hr|]. rewrite le_val_bytes by (simpl; lia). apply reads_ret_eq.
  destruct h as [tag data]. cbn [MTag MData] in *. f_equal. apply map_eq. intros k.
  rewrite foldl_insert_lookup, lookup_empty. case_decide as Hk.
  - apply elem_of_tags in Hk as [v Hv]. cbn in Hv. by rewrite Hv.
  - destruct (data !! k) as [v|] eqn:Hv; [|done]. destruct Hk. apply elem_of_tags. cbn. by rewrite Hv.
Qed.

(** a handshake message is read back with the same tag and the same values,
    whatever the map's iteration order, up to the limits the parser enforces. *)
Theorem handshake_message_roundtrip h :
  message_ok h → ∃ bs, write_HandshakeMessage h = Some bs ∧ reads ParseHandshakeMessage bs h.
Proof. apply message_written. Qed.

Definition sample_message : HandshakeMessage := {|
  MTag := TagPRST; MData := <[TagRSEQ := [x01; x02]]> (<[TagRNON := []]> (<[5 := [x2a]]> ∅))
|}.

Lemma handshake_message_roundtrip_witness :
  ∃ bs, write_HandshakeMessage sample_message = Some bs ∧ reads ParseHandshakeMessage bs sample_message.
Proof.
  apply (handshake_message_roundtrip sample_message). split; [by vm_compute|by vm_compute|].
  apply map_Forall_insert_2; [by split; vm_compute|]. apply map_Forall_insert_2; [by split; vm_compute|].
  apply map_Forall_insert_2; [by split; vm_compute|]. apply map_Forall_empty.
Defined.

(** ** Public resets *)

Lemma reset_tags_sorted a b :
  getTagsSorted {| MTag := TagPRST; MData := <[TagRNON := a]> (<[TagRSEQ := b]> ∅) |} = [TagRNON; TagRSEQ].
Proof. by vm_compute. Qed.

Lemma reset_message nonce rejected :
  write_HandshakeMessage {| MTag := TagPRST;
    MData := <[TagRNON := le_bytes 8 nonce]> (<[TagRSEQ := le_bytes 8 rejected]> ∅) |} =
  Some (le_bytes 4 TagPRST ++ le_bytes 4 2 ++ le_bytes 4 TagRNON ++ le_bytes 4 8 ++ le_bytes 4 TagRSEQ ++
    le_bytes 4 16 ++ le_bytes 8 nonce ++ le_bytes 8 rejected).
Proof.
  unfold write_HandshakeMessage. rewrite reset_tags_sorted. cbn [MTag MData write_entries].
  rewrite lookup_insert_eq, lookup_insert_ne, lookup_insert_eq by done. cbn [default from_option id].
  reflexivity.
Qed.

Lemma reset_header_flags :
  byte_val x0a = flags_of false true false false false 0.
Proof. done. Qed.

(** a public reset reaches the client: its header announces a reset for the
    connection, and the rest carries the rejected packet number and the nonce. *)
Theorem public_reset_roundtrip connectionID rejected nonce known :
  1 ≤ connectionID < 2 ^ 64 → 0 ≤ rejected < 2 ^ 64 → 0 ≤ nonce < 2 ^ 64 →
  ∃ bs h rest, WritePublicReset connectionID rejected nonce = Some bs ∧
    ParsePublicHeader PerspectiveServer known bs = Ok (h, rest) ∧
    ResetFlag h = true ∧ ConnectionID h = connectionID ∧
    ParsePublicReset rest = Ok ({| RejectedPacketNumber := rejected; Nonce := nonce |}, []).
Proof.
  intros Hc Hr Hn.
  set (msg := {| MTag := TagPRST;
    MData := <[TagRNON := le_bytes 8 nonce]> (<[TagRSEQ := le_bytes 8 rejected]> ∅) |}).
  destruct (message_written msg) as (body & Hw & Hread).
  { split; [by vm_compute|by vm_compute|]. 
    apply map_Forall_insert_2; [split; [by vm_compute|unfold zlen; by rewrite length_le_bytes]|].
    apply map_Forall_insert_2; [split; [by vm_compute|unfold zlen; by rewrite length_le_bytes]|].
    apply map_Forall_empty. }
  unfold msg in Hw. rewrite reset_message in Hw. injection Hw as Hw.
  set (h := {| ConnectionID := connectionID; HPathID := 0; VersionFlag := false; ResetFlag := true;
    TruncateConnectionID := false; MultipathFlag := false; PacketNumberLen := 0; PacketNumber := 0;
    VersionNumber := 0; SupportedVersionsField := []; DiversificationNonce := [] |}).
  exists ([x0a] ++ le_bytes 8 connectionID ++ body), h, body. split; [|split].
  - unfold WritePublicReset. rewrite (little_write64 connectionID), (little_write64 nonce),
      (little_write64 rejected) by lia. rewrite <-Hw. reflexivity.
  - assert (header_ok h PerspectiveServer 0) as Hok by (split; cbn; try done; by left).
    destruct (conn_field h PerspectiveServer 0 Hok) as (cb & Hc1 & _ & Hc2). cbn in Hc1, Hc2.
    rewrite (little_write64 connectionID) in Hc1 by lia. injection Hc1 as <-.
    assert (reads (ParsePublicHeader PerspectiveServer known)
      ([byte_of (public_flag_byte h PerspectiveServer)] ++ le_bytes 8 connectionID ++ [] ++ [] ++ [] ++ []) (received_header h))
      as Hp.
    { apply (header_reads h PerspectiveServer 0 known _ [] [] []); try done; apply reads_ret. }
    specialize (Hp body). rewrite !app_nil_r, <-app_assoc in Hp. exact Hp.
  - split; [done|]. split; [done|]. unfold ParsePublicReset, mbind, reader_bind.
    specialize (Hread []). rewrite app_nil_r in Hread. rewrite Hread. unfold msg. cbn [MTag MData].
    rewrite decide_False by (by intros []). rewrite lookup_insert_ne, lookup_insert_eq by done.
    rewrite decide_False by (intros []; unfold zlen; by rewrite length_le_bytes).
    rewrite lookup_insert_eq. rewrite decide_False by (intros []; unfold zlen; by rewrite length_le_bytes).
    by rewrite !le_val_bytes by (simpl; lia).
Qed.

Lemma public_reset_roundtrip_witness :
  ∃ bs h rest, WritePublicReset 77 1234 99 = Some bs ∧
    ParsePublicHeader PerspectiveServer 39 bs = Ok (h, rest) ∧
    ResetFlag h = true ∧ ConnectionID h = 77 ∧
    ParsePublicReset rest = Ok ({| RejectedPacketNumber := 1234; Nonce := 99 |}, []).
Proof. apply (public_reset_roundtrip 77 1234 99 39); lia. Defined.

(** ** Negotiation *)

Lemma read_u32 v : 0 ≤ v < 2 ^ 32 → LittleEndian.ReadUint32 (le_bytes 4 v) = Ok (v, []).
Proof. intros Hv. pose proof (little_reads32 v Hv []) as Hr. by rewrite app_nil_r in Hr. Qed.

Lemma on_tag_read params tag apply k h v :
  params !! tag = Some (le_bytes 4 v) → 0 ≤ v < 2 ^ 32 → on_tag params tag apply k h = k (apply v h).
Proof. intros Hp Hv. unfold on_tag. by rewrite Hp, read_u32. Qed.
Lemma on_tag_absent params tag apply k h : params !! tag = None → on_tag params tag apply k h = k h.
Proof. intros Hp. unfold on_tag. by rewrite Hp. Qed.
Lemma on_window_read params tag apply k h v :
  flowControlNegotiated h = false → params !! tag = Some (le_bytes 4 v) → 0 ≤ v < 2 ^ 32 →
  on_window params tag apply k h = k (apply v h).
Proof. intros Hn Hp Hv. unfold on_window. rewrite Hp, Hn. by apply on_tag_read. Qed.
Lemma on_window_again params tag apply k h v :
  flowControlNegotiated h = true → params !! tag = Some v →
  on_window params tag apply k h = (h, Some ErrFlowControlRenegotiationNotSupported).
Proof. intros Hn Hp. unfold on_window. by rewrite Hp, Hn. Qed.

(** Parameters that fit in the fields of a hello. *)
Record params_ok (h : connectionParametersManager) : Prop := {
  po_stream : 0 ≤ receiveStreamFlowControlWindow h < 2 ^ 32;
  po_conn : 0 ≤ receiveConnectionFlowControlWindow h < 2 ^ 32;
  po_streams : 0 ≤ maxStreamsPerConnection h < 2 ^ 32;
  po_idle : 0 ≤ idleConnectionStateLifetime h < 2 ^ 32 * Second
}.

Lemma hello_map h :
  params_ok h →
  ∃ m, GetHelloMap h = Some m ∧ message_ok {| MTag := 0; MData := m |} ∧
    m !! TagTCID = None ∧ m !! TagMSPC = Some (le_bytes 4 (maxStreamsPerConnection h)) ∧
    m !! TagMIDS = Some (le_bytes 4 MaxIncomingDynamicStreamsPerConnection) ∧
    m !! TagICSL = Some (le_bytes 4 (idleConnectionStateLifetime h / Second)) ∧
    m !! TagSFCW = Some (le_bytes 4 (receiveStreamFlowControlWindow h)) ∧
    m !! TagCFCW = Some (le_bytes 4 (receiveConnectionFlowControlWindow h)).
Proof.
  intros [Hs Hc Hst Hi]. unfold GetHelloMap.
  assert (0 ≤ idleConnectionStateLifetime h / Second < 2 ^ 32) as Hq.
  { unfold Second in *. split; [apply Z.div_pos; lia|apply Z.div_lt_upper_bound; lia]. }
  rewrite Z.quot_div_nonneg by (unfold Second; lia).
  rewrite (u32_small (receiveStreamFlowControlWindow h)), (u32_small (receiveConnectionFlowControlWindow h)),
    (u32_small (_ / _)) by lia.
  rewrite !little_write32 by (done || lia). cbn [mbind option_bind]. rewrite !le_bytes_enc. eexists. split; [done|].
  split; [|split_and!; by simplify_map_eq].
  split; cbn [MTag MData]; [lia|by vm_compute|].
  repeat apply map_Forall_insert_2; try apply map_Forall_empty;
    (split; [by vm_compute|unfold zlen; by rewrite length_le_bytes]).
Qed.

(** What [SetFromMap] makes of a hello. *)
Definition adopt (h : connectionParametersManager) (stream conn streams idle : Z) : connectionParametersManager :=
  set_windows stream conn true
    (set_idle (Z.min idle (idleConnectionStateLifetime h))
      (set_incoming MaxIncomingDynamicStreamsPerConnection
        (set_streams (Z.min streams MaxStreamsPerConnection) h))).

Lemma SetFromMap_hello h p m :
  params_ok p → GetHelloMap p = Some m → flowControlNegotiated h = false →
  SetFromMap h m = (adopt h (receiveStreamFlowControlWindow p) (receiveConnectionFlowControlWindow p)
    (maxStreamsPerConnection p) (idleConnectionStateLifetime p / Second * Second), None).
Proof.
  intros Hp Hm Hn. destruct (hello_map p Hp) as (m' & Hm' & _ & H1 & H2 & H3 & H4 & H5 & H6).
  rewrite Hm in Hm'. injection Hm' as <-. destruct Hp as [Hs Hc Hst Hi].
  assert (0 ≤ idleConnectionStateLifetime p / Second < 2 ^ 32) as Hq.
  { unfold Second in *. split; [apply Z.div_pos; lia|apply Z.div_lt_upper_bound; lia]. }
  unfold SetFromMap. transitivity (on_tag m TagMSPC (λ v h, set_streams (negotiateMaxStreamsPerConnection v) h)
    (on_tag m TagMIDS (λ v h, set_incoming (negotiateMaxIncomingDynamicStreamsPerConnection v) h)
    (on_tag m TagICSL (λ v h, set_idle (negotiateIdleConnectionStateLifetime h (i64 (v * Second))) h)
    (on_window m TagSFCW
      (λ v h, set_windows v (sendConnectionFlowControlWindow h) (flowControlNegotiated h) h)
    (on_window m TagCFCW
      (λ v h, set_windows (sendStreamFlowControlWindow h) v (flowControlNegotiated h) h)
    (λ h, if bool_decide (is_Some (m !! TagCFCW)) || bool_decide (is_Some (m !! TagSFCW))
          then (set_windows (sendStreamFlowControlWindow h) (sendConnectionFlowControlWindow h) true h, None)
          else (h, None)))))) h).
  { case_bool_decide; [by rewrite on_tag_absent|done]. }
  rewrite (on_tag_read _ _ _ _ _ _ H2), (on_tag_read _ _ _ _ _ _ H3), (on_tag_read _ _ _ _ _ _ H4) by (done || lia).
  rewrite (on_window_read m TagSFCW _ _ _ (receiveStreamFlowControlWindow p)) by (exact Hn || exact H5 || lia).
  rewrite (on_window_read m TagCFCW _ _ _ (receiveConnectionFlowControlWindow p)) by (exact Hn || exact H6 || lia).
  rewrite bool_decide_true by (rewrite H6; by eexists). cbn [orb]. unfold adopt.
  unfold negotiateIdleConnectionStateLifetime. rewrite i64_small by (unfold Second in *; lia). reflexivity.
Qed.

(** C23: after the exchange of hellos each side sends within the windows the other
    receives with, both keep idle timeouts at most their own that agree up to the
    second the hello carries, neither opens more streams than the other takes,
    and a second negotiation of the windows is refused. *)
Theorem parameters_negotiated vc vs c1 c2 s1 s2 idle_c idle_s :
  0 ≤ idle_c < 2 ^ 32 * Second → 0 ≤ idle_s < 2 ^ 32 * Second →
  let client := NewConnectionParamatersManager PerspectiveClient vc c1 c2 idle_c in
  let server := NewConnectionParamatersManager PerspectiveServer vs s1 s2 idle_s in
  ∃ chlo server' shlo client',
    GetHelloMap client = Some chlo ∧ SetFromMap server chlo = (server', None) ∧
    GetHelloMap server' = Some shlo ∧ SetFromMap client shlo = (client', None) ∧
    sendStreamFlowControlWindow server' = receiveStreamFlowControlWindow client' ∧
    sendConnectionFlowControlWindow server' = receiveConnectionFlowControlWindow client' ∧
    sendStreamFlowControlWindow client' = receiveStreamFlowControlWindow server' ∧
    sendConnectionFlowControlWindow client' = receiveConnectionFlowControlWindow server' ∧
    idleConnectionStateLifetime client' ≤ idleConnectionStateLifetime server' <
      idleConnectionStateLifetime client' + Second ∧
    idleConnectionStateLifetime server' ≤ Z.min idle_c idle_s ∧
    GetMaxOutgoingStreams client' ≤ GetMaxIncomingStreams ∧ GetMaxOutgoingStreams server' ≤ GetMaxIncomingStreams ∧
    (SetFromMap client' shlo).2 = Some ErrFlowControlRenegotiationNotSupported.
Proof.
  intros Hc Hs client server.
  assert (params_ok client) as Pc by (split; [by vm_compute|by vm_compute|by vm_compute|exact Hc]).
  destruct (hello_map client Pc) as (chlo & Hchlo & _).
  pose proof (SetFromMap_hello server client chlo Pc Hchlo eq_refl) as Hset.
  set (server' := adopt server _ _ _ _) in Hset.
  assert (Second = 1000000000) as ES by done. rewrite ES in *.
  pose proof (Z.div_mod idle_c 1000000000 ltac:(done)). pose proof (Z.mod_pos_bound idle_c 1000000000 eq_refl).
  assert (idleConnectionStateLifetime server' = Z.min (idle_c / 1000000000 * 1000000000) idle_s) as Es by done.
  set (i := idleConnectionStateLifetime server') in *.
  assert (params_ok server') as Ps.
  { split; [by vm_compute|by vm_compute|by vm_compute|]. fold i. rewrite ES. lia. }
  destruct (hello_map server' Ps) as (shlo & Hshlo & _ & H1 & H2 & H3 & H4 & H5 & H6).
  pose proof (SetFromMap_hello client server' shlo Ps Hshlo eq_refl) as Hset'.
  set (client' := adopt client _ _ _ _) in Hset'. fold i in Hset', H4. rewrite ES in *.
  assert (idleConnectionStateLifetime client' = Z.min (i / 1000000000 * 1000000000) idle_c) as Ec by done.
  pose proof (Z.div_mod i 1000000000 ltac:(done)). pose proof (Z.mod_pos_bound i 1000000000 eq_refl).
  assert (0 ≤ i / 1000000000 < 2 ^ 32) as Hq.
  { split; [apply Z.div_pos; lia|apply Z.div_lt_upper_bound; lia]. }
  exists chlo, server', shlo, client'. rewrite Ec. fold i.
  do 4 (split; [done|]). do 4 (split; [done|]). split; [lia|]. split; [lia|].
  split; [by vm_compute|]. split; [by vm_compute|].
  unfold SetFromMap. rewrite bool_decide_false by done.
  rewrite (on_tag_read _ _ _ _ _ _ H2), (on_tag_read _ _ _ _ _ _ H3), (on_tag_read _ _ _ _ _ _ H4) by (done || lia).
  by erewrite on_window_again; [| |exact H5].
Qed.

Lemma parameters_negotiated_witness :
  let client := NewConnectionParamatersManager PerspectiveClient 512 (2 ^ 24) (2 ^ 24) (30 * Second) in
  let server := NewConnectionParamatersManager PerspectiveServer 512 (2 ^ 20) (2 ^ 20) (29 * Second + 5) in
  ∃ chlo server' shlo client',
    GetHelloMap client = Some chlo ∧ SetFromMap server chlo = (server', None) ∧
    GetHelloMap server' = Some shlo ∧ SetFromMap client shlo = (client', None) ∧
    sendStreamFlowControlWindow server' = receiveStreamFlowControlWindow client' ∧
    sendConnectionFlowControlWindow server' = receiveConnectionFlowControlWindow client' ∧
    sendStreamFlowControlWindow client' = receiveStreamFlowControlWindow server' ∧
    sendConnectionFlowControlWindow client' = receiveConnectionFlowControlWindow server' ∧
    idleConnectionStateLifetime client' ≤ idleConnectionStateLifetime server' <
      idleConnectionStateLifetime client' + Second ∧
    idleConnectionStateLifetime server' ≤ Z.min (30 * Second) (29 * Second + 5) ∧
    GetMaxOutgoingStreams client' ≤ GetMaxIncomingStreams ∧ GetMaxOutgoingStreams server' ≤ GetMaxIncomingStreams ∧
    (SetFromMap client' shlo).2 = Some ErrFlowControlRenegotiationNotSupported.
Proof.
  apply (parameters_negotiated 512 512 (2 ^ 24) (2 ^ 24) (2 ^ 20) (2 ^ 20) (30 * Second) (29 * Second + 5));
    unfold Second; lia.
Defined.

Close Scope Z_scope.
