(* ===== verification/RTTStats.v ===== *)
(** Round-trip times, and what a congestion controller offers (src/mp-quic/congestion:
    rtt_stats.go, hybrid_slow_start.go, prr_sender.go, interface.go; the durations of
    internal/utils/minmax.go).

    Durations are nanoseconds, instants are nanoseconds since a fixed origin, and the
    zero [time.Time] is [None].  Floating point is the IEEE-754 arithmetic of
    [SpecFloat], each operation rounded on its own.  The class [SendAlgorithm] is the
    interface the packet handler uses; an implementation reads the statistics it
    shares with the handler and the clock through arguments. *)

From Stdlib Require Import ZArith Lia SpecFloat.
From stdpp Require Import prelude numbers list.
From S2P Require Import Prelude Wire ReceivedPackets Handshake.

Open Scope Z_scope.

(** * Floating point *)

Module F32.
Definition of_Z (z : Z) : spec_float := binary_normalize 24 128 z 0 false.
(** [m * 2 ^ e] *)
Definition lit (m e : Z) : spec_float := binary_normalize 24 128 m e false.
Definition add (x y : spec_float) : spec_float := SFadd 24 128 x y.
Definition sub (x y : spec_float) : spec_float := SFsub 24 128 x y.
Definition mul (x y : spec_float) : spec_float := SFmul 24 128 x y.
Definition div (x y : spec_float) : spec_float := SFdiv 24 128 x y.
End F32.
Module F64.
Definition of_Z (z : Z) : spec_float := binary_normalize 53 1024 z 0 false.
Definition lit (m e : Z) : spec_float := binary_normalize 53 1024 m e false.
Definition mul (x y : spec_float) : spec_float := SFmul 53 1024 x y.
End F64.
(** Conversion to an integer drops the fraction. *)
Definition float_trunc (f : spec_float) : Z :=
  match f with
  | S754_finite s m e =>
      let v := if decide (0 ≤ e) then Z.pos m * 2 ^ e else Z.pos m / 2 ^ (- e) in
      if s then - v else v
  | _ => 0
  end.

(** * Durations and instants *)

Definition InfDuration : Z := 2 ^ 63 - 1.
Definition MaxDuration (a b : Z) : Z := if decide (b < a) then a else b.
Definition MinDuration (a b : Z) : Z := if decide (b < a) then b else a.
Definition AbsDuration (d : Z) : Z := if decide (0 ≤ d) then d else - d.
(** [t.Sub(u)] saturates. *)
Definition time_Sub (t u : Z) : Z := Z.max (- 2 ^ 63) (Z.min (2 ^ 63 - 1) (t - u)).
(** [now.Sub(t)]; the zero time is further back than a duration can say. *)
Definition time_since (now : Z) (t : option Z) : Z :=
  match t with None => 2 ^ 63 - 1 | Some t => time_Sub now t end.
(** [t.Before(u)]; the zero time is before every instant. *)
Definition time_Before (t : option Z) (u : Z) : bool :=
  match t with None => true | Some t => bool_decide (t < u) end.

(** * RTT statistics *)

Record rttSample : Type := { rtt : Z; sample_time : option Z }.
Definition zeroSample : rttSample := {| rtt := 0; sample_time := None |}.

Definition initialRTTus_ : Z := 100 * 1000.
Definition rttAlpha : spec_float := F32.lit 1 (-3).
Definition oneMinusAlpha : spec_float := F32.lit 7 (-3).
Definition rttBeta : spec_float := F32.lit 1 (-2).
Definition oneMinusBeta : spec_float := F32.lit 3 (-2).
Definition halfWindow : spec_float := F32.lit 1 (-1).
Definition quarterWindow : spec_float := F32.lit 1 (-2).

Record RTTStats : Type := {
  initialRTTus : Z;
  recentMinRTTwindow : Z;
  minRTT : Z;
  latestRTT : Z;
  smoothedRTT : Z;
  meanDeviation : Z;
  numMinRTTsamplesRemaining : Z;
  newMinRTT : rttSample;
  recentMinRTT : rttSample;
  halfWindowRTT : rttSample;
  quarterWindowRTT : rttSample
}.

Definition NewRTTStats : RTTStats := {|
  initialRTTus := initialRTTus_; recentMinRTTwindow := InfDuration; minRTT := 0; latestRTT := 0;
  smoothedRTT := 0; meanDeviation := 0; numMinRTTsamplesRemaining := 0; newMinRTT := zeroSample;
  recentMinRTT := zeroSample; halfWindowRTT := zeroSample; quarterWindowRTT := zeroSample
|}.

Definition set_samples (r : RTTStats) (remaining : Z) (new recent half quarter : rttSample) : RTTStats := {|
  initialRTTus := initialRTTus r; recentMinRTTwindow := recentMinRTTwindow r; minRTT := minRTT r;
  latestRTT := latestRTT r; smoothedRTT := smoothedRTT r; meanDeviation := meanDeviation r;
  numMinRTTsamplesRemaining := remaining; newMinRTT := new; recentMinRTT := recent;
  halfWindowRTT := half; quarterWindowRTT := quarter
|}.
Definition set_estimates (r : RTTStats) (min latest smoothed deviation : Z) : RTTStats := {|
  initialRTTus := initialRTTus r; recentMinRTTwindow := recentMinRTTwindow r; minRTT := min;
  latestRTT := latest; smoothedRTT := smoothed; meanDeviation := deviation;
  numMinRTTsamplesRemaining := numMinRTTsamplesRemaining r; newMinRTT := newMinRTT r;
  recentMinRTT := recentMinRTT r; halfWindowRTT := halfWindowRTT r; quarterWindowRTT := quarterWindowRTT r
|}.

(** The part of the window that is [float32(window / us) * f] microseconds. *)
Definition window_fraction (window : Z) (f : spec_float) : Z :=
  i64 (float_trunc (F32.mul (F32.of_Z (Z.quot window Microsecond)) f) * Microsecond).

(** A forced new minimum is taken over after the last of its samples. *)
Definition sample_new_min (r : RTTStats) (sample now : Z) : RTTStats :=
  if decide (0 < numMinRTTsamplesRemaining r) then
    let remaining := numMinRTTsamplesRemaining r - 1 in
    let new := if decide (rtt (newMinRTT r) = 0 ∨ sample ≤ rtt (newMinRTT r))
               then {| rtt := sample; sample_time := Some now |} else newMinRTT r in
    if decide (remaining = 0) then set_samples r remaining new new new new
    else set_samples r remaining new (recentMinRTT r) (halfWindowRTT r) (quarterWindowRTT r)
  else r.

Definition take_sample (r : RTTStats) (sample now : Z) : RTTStats :=
  let s := {| rtt := sample; sample_time := Some now |} in
  let keep := set_samples r (numMinRTTsamplesRemaining r) (newMinRTT r) in
  if decide (rtt (recentMinRTT r) = 0 ∨ sample ≤ rtt (recentMinRTT r)) then keep s s s
  else if decide (sample ≤ rtt (halfWindowRTT r)) then keep (recentMinRTT r) s s
  else if decide (sample ≤ rtt (quarterWindowRTT r)) then keep (recentMinRTT r) (halfWindowRTT r) s
  else r.

Definition expire_samples (r : RTTStats) (sample now : Z) : RTTStats :=
  let s := {| rtt := sample; sample_time := Some now |} in
  let keep := set_samples r (numMinRTTsamplesRemaining r) (newMinRTT r) in
  let w := recentMinRTTwindow r in
  if time_Before (sample_time (recentMinRTT r)) (now - w) then keep (halfWindowRTT r) (quarterWindowRTT r) s
  else if time_Before (sample_time (halfWindowRTT r)) (now - window_fraction w halfWindow)
  then keep (recentMinRTT r) (quarterWindowRTT r) s
  else if time_Before (sample_time (quarterWindowRTT r)) (now - window_fraction w quarterWindow)
  then keep (recentMinRTT r) (halfWindowRTT r) s
  else r.

Definition updateRecentMinRTT (r : RTTStats) (sample now : Z) : RTTStats :=
  expire_samples (take_sample (sample_new_min r sample now) sample now) sample now.

(** [a * float32(x) + b * float32(y)] microseconds. *)
Definition float_mix (a : spec_float) (x : Z) (b : spec_float) (y : Z) : Z :=
  i64 (float_trunc (F32.add (F32.mul a (F32.of_Z x)) (F32.mul b (F32.of_Z y))) * Microsecond).

Definition UpdateRTT (r : RTTStats) (sendDelta ackDelay now : Z) : RTTStats :=
  if decide (sendDelta = InfDuration ∨ sendDelta ≤ 0) then r
  else
    let min := if decide (minRTT r = 0 ∨ sendDelta < minRTT r) then sendDelta else minRTT r in
    let r := updateRecentMinRTT r sendDelta now in
    let sample := if decide (ackDelay < sendDelta) then i64 (sendDelta - ackDelay) else sendDelta in
    if decide (smoothedRTT r = 0) then set_estimates r min sample sample (Z.quot sample 2)
    else
      let deviation := float_mix oneMinusBeta (Z.quot (meanDeviation r) Microsecond)
                         rttBeta (Z.quot (AbsDuration (i64 (smoothedRTT r - sample))) Microsecond) in
      let smoothed := float_mix oneMinusAlpha (Z.quot (smoothedRTT r) Microsecond)
                        rttAlpha (Z.quot sample Microsecond) in
      set_estimates r min sample smoothed deviation.

Definition SetRecentMinRTTwindow (r : RTTStats) (w : Z) : RTTStats := {|
  initialRTTus := initialRTTus r; recentMinRTTwindow := w; minRTT := minRTT r;
  latestRTT := latestRTT r; smoothedRTT := smoothedRTT r; meanDeviation := meanDeviation r;
  numMinRTTsamplesRemaining := numMinRTTsamplesRemaining r; newMinRTT := newMinRTT r;
  recentMinRTT := recentMinRTT r; halfWindowRTT := halfWindowRTT r; quarterWindowRTT := quarterWindowRTT r
|}.
Definition SampleNewRecentMinRTT (r : RTTStats) (numSamples : Z) : RTTStats :=
  set_samples r numSamples zeroSample (recentMinRTT r) (halfWindowRTT r) (quarterWindowRTT r).
Definition rtt_OnConnectionMigration (r : RTTStats) : RTTStats := {|
  initialRTTus := initialRTTus_; recentMinRTTwindow := InfDuration; minRTT := 0; latestRTT := 0;
  smoothedRTT := 0; meanDeviation := 0; numMinRTTsamplesRemaining := 0; newMinRTT := newMinRTT r;
  recentMinRTT := zeroSample; halfWindowRTT := zeroSample; quarterWindowRTT := zeroSample
|}.
Definition ExpireSmoothedMetrics (r : RTTStats) : RTTStats :=
  set_estimates r (minRTT r) (latestRTT r) (MaxDuration (smoothedRTT r) (latestRTT r))
    (MaxDuration (meanDeviation r) (AbsDuration (i64 (smoothedRTT r - latestRTT r)))).
Definition UpdateSessionRTT (r : RTTStats) (smoothed : Z) : RTTStats :=
  set_estimates r (minRTT r) (latestRTT r) smoothed (meanDeviation r).

(** * The interface of a congestion controller *)

Class SendAlgorithm (C : Type) : Type := {
  TimeUntilSend : C → Z → Z;
  OnPacketSent : C → Z → Z → Z → Z → bool → C * bool;
  GetCongestionWindow : C → Z;
  MaybeExitSlowStart : RTTStats → C → C;
  OnPacketAcked : RTTStats → Z → C → Z → Z → Z → C;
  OnPacketLost : C → Z → Z → Z → C;
  SetNumEmulatedConnections : C → Z → C;
  OnRetransmissionTimeout : C → bool → C;
  OnConnectionMigration : C → C;
  RetransmissionDelay : RTTStats → C → Z;
  SmoothedRTT : RTTStats → C → Z;
  SetSlowStartLargeReduction : C → bool → C
}.

(** * Proportional rate reduction *)

Definition DefaultTCPMSS : Z := 1460.

Module Prr.
Record PrrSender : Type := {
bytesSentSinceLoss : Z; bytesDeliveredSinceLoss : Z; ackCountSinceLoss : Z; bytesInFlightBeforeLoss : Z
}.
Definition zero : PrrSender := {|
bytesSentSinceLoss := 0; bytesDeliveredSinceLoss := 0; ackCountSinceLoss := 0; bytesInFlightBeforeLoss := 0
|}.
Definition OnPacketSent (p : PrrSender) (sentBytes : Z) : PrrSender := {|
bytesSentSinceLoss := u64 (bytesSentSinceLoss p + sentBytes);
bytesDeliveredSinceLoss := bytesDeliveredSinceLoss p; ackCountSinceLoss := ackCountSinceLoss p;
bytesInFlightBeforeLoss := bytesInFlightBeforeLoss p
|}.
Definition OnPacketLost (p : PrrSender) (bytesInFlight : Z) : PrrSender := {|
bytesSentSinceLoss := 0; bytesDeliveredSinceLoss := 0; ackCountSinceLoss := 0;
bytesInFlightBeforeLoss := bytesInFlight
|}.
Definition OnPacketAcked (p : PrrSender) (ackedBytes : Z) : PrrSender := {|
bytesSentSinceLoss := bytesSentSinceLoss p;
bytesDeliveredSinceLoss := u64 (bytesDeliveredSinceLoss p + ackedBytes);
ackCountSinceLoss := u64 (ackCountSinceLoss p + 1); bytesInFlightBeforeLoss := bytesInFlightBeforeLoss p
|}.
Definition TimeUntilSend (p : PrrSender) (congestionWindow bytesInFlight slowstartThreshold : Z) : Z :=
if decide (bytesSentSinceLoss p = 0 ∨ bytesInFlight < DefaultTCPMSS) then 0
else if decide (bytesInFlight < congestionWindow) then
  if decide (u64 (bytesDeliveredSinceLoss p + u64 (ackCountSinceLoss p * DefaultTCPMSS)) ≤ bytesSentSinceLoss p)
  then InfDuration else 0
else if decide (u64 (bytesSentSinceLoss p * bytesInFlightBeforeLoss p) <
                u64 (bytesDeliveredSinceLoss p * slowstartThreshold)) then 0
else InfDuration.
End Prr.

(** * Hybrid slow start *)

Module Hybrid.
Definition hybridStartLowWindow : Z := 16.
Definition hybridStartMinSamples : Z := 8.
Definition hybridStartDelayFactorExp : Z := 3.
Definition hybridStartDelayMinThresholdUs : Z := 4000.
Definition hybridStartDelayMaxThresholdUs : Z := 16000.

Record HybridSlowStart : Type := {
endPacketNumber : Z; lastSentPacketNumber : Z; started : bool;
currentMinRTT : Z; rttSampleCount : Z; hystartFound : bool
}.
Definition zero : HybridSlowStart := {|
endPacketNumber := 0; lastSentPacketNumber := 0; started := false; currentMinRTT := 0;
rttSampleCount := 0; hystartFound := false
|}.
Definition StartReceiveRound (s : HybridSlowStart) (lastSent : Z) : HybridSlowStart := {|
endPacketNumber := lastSent; lastSentPacketNumber := lastSentPacketNumber s; started := true;
currentMinRTT := 0; rttSampleCount := 0; hystartFound := hystartFound s
|}.
Definition IsEndOfRound (s : HybridSlowStart) (ack : Z) : bool := bool_decide (endPacketNumber s < ack).
(** The increase of the round-trip time that ends slow start. *)
Definition minRTTincreaseThreshold (minRTT : Z) : Z :=
let us := Z.shiftr (Z.quot minRTT Microsecond) hybridStartDelayFactorExp in
Z.max (Z.min us hybridStartDelayMaxThresholdUs) hybridStartDelayMinThresholdUs * Microsecond.
Definition ShouldExitSlowStart (s : HybridSlowStart) (latestRTT minRTT congestionWindow : Z) :
  HybridSlowStart * bool :=
let s := if started s then s else StartReceiveRound s (lastSentPacketNumber s) in
if hystartFound s then (s, true)
else
  let count := u32 (rttSampleCount s + 1) in
  let cur := if decide (count ≤ hybridStartMinSamples) then
               if decide (currentMinRTT s = 0 ∨ latestRTT < currentMinRTT s) then latestRTT else currentMinRTT s
             else currentMinRTT s in
  let found := if decide (count = hybridStartMinSamples) then
                 bool_decide (i64 (minRTT + minRTTincreaseThreshold minRTT) < cur)
               else false in
  ({| endPacketNumber := endPacketNumber s; lastSentPacketNumber := lastSentPacketNumber s;
      started := started s; currentMinRTT := cur; rttSampleCount := count; hystartFound := found |},
   bool_decide (hybridStartLowWindow ≤ congestionWindow) && found).
Definition OnPacketSent (s : HybridSlowStart) (packetNumber : Z) : HybridSlowStart := {|
endPacketNumber := endPacketNumber s; lastSentPacketNumber := packetNumber; started := started s;
currentMinRTT := currentMinRTT s; rttSampleCount := rttSampleCount s; hystartFound := hystartFound s
|}.
Definition OnPacketAcked (s : HybridSlowStart) (ackedPacketNumber : Z) : HybridSlowStart := {|
endPacketNumber := endPacketNumber s; lastSentPacketNumber := lastSentPacketNumber s;
started := if IsEndOfRound s ackedPacketNumber then false else started s;
currentMinRTT := currentMinRTT s; rttSampleCount := rttSampleCount s; hystartFound := hystartFound s
|}.
Definition Restart (s : HybridSlowStart) : HybridSlowStart := {|
endPacketNumber := endPacketNumber s; lastSentPacketNumber := lastSentPacketNumber s; started := false;
currentMinRTT := currentMinRTT s; rttSampleCount := rttSampleCount s; hystartFound := false
|}.
End Hybrid.

(** * The minima are minima of the samples *)

(** The calls that change the statistics. *)
Inductive rtt_op : Type :=
| RttUpdate (sendDelta ackDelay now : Z)
| RttWindow (window : Z)
| RttSampleNew (numSamples : Z)
| RttExpire
| RttSession (smoothed : Z).

Definition rtt_step (r : RTTStats) (o : rtt_op) : RTTStats :=
  match o with
  | RttUpdate d a n => UpdateRTT r d a n
  | RttWindow w => SetRecentMinRTTwindow r w
  | RttSampleNew n => SampleNewRecentMinRTT r n
  | RttExpire => ExpireSmoothedMetrics r
  | RttSession s => UpdateSessionRTT r s
  end.

(** The samples an operation contributes. *)
Definition valid_samples (o : rtt_op) : list Z :=
  match o with
  | RttUpdate d _ _ => if decide (d = InfDuration ∨ d ≤ 0) then [] else [d]
  | _ => []
  end.

Record samples_ok (seen : list Z) (r : RTTStats) : Prop := {
  sa_pos : Forall (λ d, 0 < d) seen;
  sa_unset : seen = [] → minRTT r = 0 ∧ rtt (recentMinRTT r) = 0 ∧ rtt (halfWindowRTT r) = 0 ∧
                         rtt (quarterWindowRTT r) = 0;
  sa_min : seen ≠ [] → minRTT r ∈ seen ∧ Forall (λ d, minRTT r ≤ d) seen;
  sa_windows : seen ≠ [] → rtt (recentMinRTT r) ∈ seen ∧ rtt (halfWindowRTT r) ∈ seen ∧
                           rtt (quarterWindowRTT r) ∈ seen;
  sa_order : rtt (recentMinRTT r) ≤ rtt (halfWindowRTT r) ≤ rtt (quarterWindowRTT r);
  sa_new : rtt (newMinRTT r) = 0 ∨ rtt (newMinRTT r) ∈ seen
}.

(** The three window minima and a candidate, from the values of [seen]. *)
Record windows_ok (seen : list Z) (r : RTTStats) : Prop := {
  wo_order : rtt (recentMinRTT r) ≤ rtt (halfWindowRTT r) ≤ rtt (quarterWindowRTT r);
  wo_recent : rtt (recentMinRTT r) = 0 ∨ rtt (recentMinRTT r) ∈ seen;
  wo_half : rtt (halfWindowRTT r) = 0 ∨ rtt (halfWindowRTT r) ∈ seen;
  wo_quarter : rtt (quarterWindowRTT r) = 0 ∨ rtt (quarterWindowRTT r) ∈ seen;
  wo_new : rtt (newMinRTT r) = 0 ∨ rtt (newMinRTT r) ∈ seen
}.

Lemma sample_new_min_ok seen r d now : d ∈ seen → windows_ok seen r → windows_ok seen (sample_new_min r d now).
Proof.
  intros Hd [H1 H2 H3 H4 H5]. unfold sample_new_min. case_decide; [|done].
  set (new := if decide (rtt (newMinRTT r) = 0 ∨ d ≤ rtt (newMinRTT r)) then _ else newMinRTT r).
  assert (rtt new = 0 ∨ rtt new ∈ seen) as Hn by (unfold new; case_decide; [by right|done]).
  case_decide; split; cbn; done.
Qed.

Lemma take_sample_ok seen r d now :
  d ∈ seen → 0 < d → windows_ok seen r →
  windows_ok seen (take_sample r d now) ∧ rtt (quarterWindowRTT (take_sample r d now)) ≤ d ∧
  0 < rtt (recentMinRTT (take_sample r d now)) ∨ rtt (recentMinRTT r) < 0.
Proof.
  intros Hd Hpos [[H1 H1'] H2 H3 H4 H5]. unfold take_sample.
  destruct (decide (rtt (recentMinRTT r) < 0)); [by right|]. left.
  case_decide as C1; [|case_decide as C2; [|case_decide as C3]];
    (split; [split; cbn; try done; try (by right); lia|cbn; lia]).
Qed.

Lemma expire_samples_ok seen r d now :
  d ∈ seen → rtt (quarterWindowRTT r) ≤ d → 0 < rtt (recentMinRTT r) → windows_ok seen r →
  windows_ok seen (expire_samples r d now) ∧ 0 < rtt (recentMinRTT (expire_samples r d now)).
Proof.
  intros Hd Hq Hpos [[H1 H1'] H2 H3 H4 H5]. unfold expire_samples.
  destruct (time_Before (sample_time (recentMinRTT r)) _);
    [|destruct (time_Before (sample_time (halfWindowRTT r)) _);
      [|destruct (time_Before (sample_time (quarterWindowRTT r)) _)]];
    (split; [split; cbn; try done; try (by right); lia|cbn; lia]).
Qed.

Lemma updateRecentMinRTT_ok seen r d now :
  d ∈ seen → 0 < d → Forall (λ d, 0 < d) seen → windows_ok seen r →
  windows_ok seen (updateRecentMinRTT r d now) ∧ 0 < rtt (recentMinRTT (updateRecentMinRTT r d now)).
Proof.
  intros Hd Hpos HF Hr. unfold updateRecentMinRTT.
  pose proof (sample_new_min_ok seen r d now Hd Hr) as Hs.
  assert (0 ≤ rtt (recentMinRTT (sample_new_min r d now))) as Hge.
  { rewrite Forall_forall in HF. destruct (wo_recent _ _ Hs) as [->|Hin]; [lia|]. specialize (HF _ Hin). cbn in HF. lia. }
  destruct (take_sample_ok seen _ d now Hd Hpos Hs) as [(Ht & Hq & Hp)|]; [|lia].
  by apply expire_samples_ok.
Qed.

Lemma samples_windows seen r : samples_ok seen r → windows_ok seen r.
Proof.
  intros [H1 H2 H3 H4 H5 H6]. destruct (decide (seen = [])) as [E|E].
  - destruct (H2 E) as (_ & ? & ? & ?). split; try done; by left.
  - destruct (H4 E) as (? & ? & ?). split; try done; by right.
Qed.

Lemma windows_more seen r d : windows_ok seen r → windows_ok (seen ++ [d]) r.
Proof.
  intros [H1 H2 H3 H4 H5]. split; [done|..]; rewrite elem_of_app; tauto.
Qed.

Lemma update_keeps_windows r d a n :
  ¬ (d = InfDuration ∨ d ≤ 0) →
  let u := updateRecentMinRTT r d n in
  recentMinRTT (UpdateRTT r d a n) = recentMinRTT u ∧ halfWindowRTT (UpdateRTT r d a n) = halfWindowRTT u ∧
  quarterWindowRTT (UpdateRTT r d a n) = quarterWindowRTT u ∧ newMinRTT (UpdateRTT r d a n) = newMinRTT u ∧
  minRTT (UpdateRTT r d a n) = if decide (minRTT r = 0 ∨ d < minRTT r) then d else minRTT r.
Proof.
  intros Hd u. unfold UpdateRTT. rewrite (decide_False (P := d = InfDuration ∨ d ≤ 0)) by done.
  fold u. cbn zeta. destruct (decide (smoothedRTT u = 0)); done.
Qed.

Lemma step_samples seen r o : samples_ok seen r → samples_ok (seen ++ valid_samples o) (rtt_step r o).
Proof.
  intros Hr. destruct o as [d a n|w|m| |s]; cbn [valid_samples rtt_step];
    [|rewrite app_nil_r; destruct Hr; split; cbn; auto..].
  destruct (decide (d = InfDuration ∨ d ≤ 0)) as [Hi|Hi].
  { unfold UpdateRTT. by rewrite decide_True, app_nil_r by done. }
  destruct (update_keeps_windows r d a n Hi) as (E1 & E2 & E3 & E4 & E5).
  assert (Forall (λ d, 0 < d) (seen ++ [d])) as Hpos.
  { apply Forall_app. split; [apply Hr|]. repeat constructor. lia. }
  assert (d ∈ seen ++ [d]) as Hd by (apply elem_of_app; right; by left).
  destruct (updateRecentMinRTT_ok (seen ++ [d]) r d n) as [[W1 W2 W3 W4 W5] Hp];
    [done|lia|done|by apply windows_more, samples_windows|].
  split; rewrite ?E1, ?E2, ?E3, ?E4, ?E5.
  - done.
  - intros E. by destruct seen.
  - intros _. destruct (decide (seen = [])) as [->|E].
    + destruct (sa_unset _ _ Hr eq_refl) as [-> _]. rewrite decide_True by (by left). cbn.
      split; [by left|]. repeat constructor. lia.
    + destruct (sa_min _ _ Hr E) as [Hm HF]. assert (0 < minRTT r) as Hm0.
      { pose proof (sa_pos _ _ Hr) as Hp0. rewrite Forall_forall in Hp0. by apply Hp0. }
      case_decide as Hc.
      * split; [done|]. apply Forall_app. split; [|by repeat constructor].
        eapply Forall_impl; [apply HF|]. cbn. intros; lia.
      * split; [apply elem_of_app; by left|]. apply Forall_app. split; [done|]. repeat constructor. lia.
  - intros _. split_and!; [destruct W2|destruct W3|destruct W4]; try done; lia.
  - done.
  - done.
Qed.

(** After any sequence of samples, window changes and resampling requests the minimum round trip is
    the least of the valid samples, and the recent, half-window and quarter-window minima are valid
    samples in increasing order; infinite, zero and negative samples count for nothing. *)
Theorem min_rtt_of_samples os :
  samples_ok (concat (valid_samples <$> os)) (foldl rtt_step NewRTTStats os).
Proof.
  induction os as [|o os IH] using rev_ind.
  - split; cbn; try done. by left.
  - rewrite foldl_app, fmap_app, concat_app. cbn [foldl fmap list_fmap concat]. rewrite app_nil_r.
    by apply step_samples.
Qed.

Close Scope Z_scope.
