(* ===== verification/SentPackets.v ===== *)
(** Sent packets: what is in flight, acknowledged, lost and sent again
    (src/mp-quic/ackhandler: sent_packet_handler.go, packet.go, retransmittable.go).

    The history is the list of packets in flight; an element of the source's linked
    list is identified by its packet number, and the numbers of the history increase.
    The congestion controller is any [SendAlgorithm]; the readings of the clock and the
    result of [onRTOCallback] are arguments.  The round-trip statistics, which the
    source shares with the controller, are a field passed to it. *)

From Stdlib Require Import ZArith Lia SpecFloat Sorted.
From stdpp Require Import prelude numbers list sorting.
From S2P Require Import Prelude Wire ReceivedPackets AckCodec PacketUnpacker Handshake RTTStats.

Open Scope Z_scope.

(** * Packets and frames that are sent again *)

Record Packet : Type := {
  PktNumber : Z; PktFrames : list Frame; PktLength : Z; PktEncryptionLevel : EncryptionLevel;
  PktSendTime : option Z
}.

Definition IsFrameRetransmittable (f : Frame) : bool :=
  match f with
  | FStopWaiting _ => false
  | FAck _ => false
  | _ => true
  end.
Definition stripNonRetransmittableFrames (fs : list Frame) : list Frame := filter IsFrameRetransmittable fs.
Definition HasRetransmittableFrames (fs : list Frame) : bool := existsb IsFrameRetransmittable fs.

Definition GetFramesForRetransmission (p : Packet) : list Frame :=
  filter (λ f, Is_true (match f with FAck _ => false | FStopWaiting _ => false | _ => true end)) (PktFrames p).
Definition IsRetransmittable (p : Packet) : bool :=
  existsb (λ f, match f with
                | FStream _ | FRstStream _ | FWindowUpdate _ | FBlocked _ | FPing | FGoaway _
                | FAddAddress _ | FPaths _ => true
                | _ => false
                end) (PktFrames p).

(** * The handler *)

Definition Millisecond : Z := 1000 * 1000.
Definition defaultRTOTimeout : Z := 500 * Millisecond.
Definition minRTOTimeout : Z := 200 * Millisecond.
Definition maxRTOTimeout : Z := 60 * Second.
Definition maxTailLossProbes : Z := 2.
Definition minRetransmissionTime : Z := 200 * Millisecond.
Definition minTailLossProbeTimeout : Z := 10 * Millisecond.
(** [1.0 + timeReorderingFraction], that is 9/8 *)
Definition reordering_factor : spec_float := F64.lit 9 (-3).

Definition DefaultMaxCongestionWindow : Z := 2500.
Definition MaxTrackedSkippedPackets : Z := 10.
Definition MaxTrackedSentPackets : Z := 2 * DefaultMaxCongestionWindow.
Definition MaxNonRetransmittablePackets : Z := 19.

Inductive SentError : Type :=
| errPacketNumberNotIncreasing
| ErrTooManyTrackedSentPackets
| ErrAckForSkippedPacket
| errAckForUnsentPacket
| ErrDuplicateOrOutOfOrderAck
| BugAckedWrongPacket (packetNumber first last : Z).

Record sentPacketHandler (C : Type) : Type := {
  lastSentPacketNumber : Z;
  skippedPackets : list Z;
  numNonRetransmittablePackets : Z;
  largestAcked : Z;
  largestReceivedPacketWithAck : Z;
  packetHistory : list Packet;
  stopWaiting : stopWaitingManager;
  retransmissionQueue : list Packet;
  bytesInFlight : Z;
  congestion : C;
  rttStats : RTTStats;
  rtoCount : Z;
  tlpCount : Z;
  lossTime : option Z;
  lastSentTime : option Z;
  alarm : option Z;
  packets : Z;
  retransmissions : Z;
  losses : Z
}.
#[global] Arguments lastSentPacketNumber {C} _.
#[global] Arguments skippedPackets {C} _.
#[global] Arguments numNonRetransmittablePackets {C} _.
#[global] Arguments largestAcked {C} _.
#[global] Arguments largestReceivedPacketWithAck {C} _.
#[global] Arguments packetHistory {C} _.
#[global] Arguments stopWaiting {C} _.
#[global] Arguments retransmissionQueue {C} _.
#[global] Arguments bytesInFlight {C} _.
#[global] Arguments congestion {C} _.
#[global] Arguments rttStats {C} _.
#[global] Arguments rtoCount {C} _.
#[global] Arguments tlpCount {C} _.
#[global] Arguments lossTime {C} _.
#[global] Arguments lastSentTime {C} _.
#[global] Arguments alarm {C} _.
#[global] Arguments packets {C} _.
#[global] Arguments retransmissions {C} _.
#[global] Arguments losses {C} _.

(** [packetHistory.Remove(el)] *)
Fixpoint remove_element (n : Z) (l : list Packet) : list Packet :=
  match l with
  | [] => []
  | p :: l => if decide (PktNumber p = n) then l else p :: remove_element n l
  end.

Section handler.
Context {C : Type} `{!SendAlgorithm C}.
Implicit Types h : sentPacketHandler C.

Definition NewSentPacketHandler (stats : RTTStats) (cong : C) : sentPacketHandler C := {|
  lastSentPacketNumber := 0; skippedPackets := []; numNonRetransmittablePackets := 0;
  largestAcked := 0; largestReceivedPacketWithAck := 0; packetHistory := [];
  stopWaiting := {| largestLeastUnackedSent := 0; nextLeastUnacked := 0; lastStopWaitingFrame := None |};
  retransmissionQueue := []; bytesInFlight := 0; congestion := cong; rttStats := stats;
  rtoCount := 0; tlpCount := 0; lossTime := None; lastSentTime := None; alarm := None;
  packets := 0; retransmissions := 0; losses := 0
|}.

(** Assignments to groups of fields. *)
Definition set_sent h (last : Z) (skipped : list Z) (nonRetransmittable : Z) (hist : list Packet)
    (bytes : Z) (sentTime : option Z) (count : Z) : sentPacketHandler C := {|
  lastSentPacketNumber := last; skippedPackets := skipped;
  numNonRetransmittablePackets := nonRetransmittable; largestAcked := largestAcked h;
  largestReceivedPacketWithAck := largestReceivedPacketWithAck h; packetHistory := hist;
  stopWaiting := stopWaiting h; retransmissionQueue := retransmissionQueue h; bytesInFlight := bytes;
  congestion := congestion h; rttStats := rttStats h; rtoCount := rtoCount h; tlpCount := tlpCount h;
  lossTime := lossTime h; lastSentTime := sentTime; alarm := alarm h; packets := count;
  retransmissions := retransmissions h; losses := losses h
|}.
Definition set_acked h (largest withAck : Z) (skipped : list Z) (stop : stopWaitingManager)
    (stats : RTTStats) : sentPacketHandler C := {|
  lastSentPacketNumber := lastSentPacketNumber h; skippedPackets := skipped;
  numNonRetransmittablePackets := numNonRetransmittablePackets h; largestAcked := largest;
  largestReceivedPacketWithAck := withAck; packetHistory := packetHistory h;
  stopWaiting := stop; retransmissionQueue := retransmissionQueue h; bytesInFlight := bytesInFlight h;
  congestion := congestion h; rttStats := stats; rtoCount := rtoCount h; tlpCount := tlpCount h;
  lossTime := lossTime h; lastSentTime := lastSentTime h; alarm := alarm h; packets := packets h;
  retransmissions := retransmissions h; losses := losses h
|}.
Definition set_flight h (hist queue : list Packet) (bytes : Z) (stop : stopWaitingManager)
    (resent : Z) : sentPacketHandler C := {|
  lastSentPacketNumber := lastSentPacketNumber h; skippedPackets := skippedPackets h;
  numNonRetransmittablePackets := numNonRetransmittablePackets h; largestAcked := largestAcked h;
  largestReceivedPacketWithAck := largestReceivedPacketWithAck h; packetHistory := hist;
  stopWaiting := stop; retransmissionQueue := queue; bytesInFlight := bytes;
  congestion := congestion h; rttStats := rttStats h; rtoCount := rtoCount h; tlpCount := tlpCount h;
  lossTime := lossTime h; lastSentTime := lastSentTime h; alarm := alarm h; packets := packets h;
  retransmissions := resent; losses := losses h
|}.
Definition set_congestion h (c : C) : sentPacketHandler C := {|
  lastSentPacketNumber := lastSentPacketNumber h; skippedPackets := skippedPackets h;
  numNonRetransmittablePackets := numNonRetransmittablePackets h; largestAcked := largestAcked h;
  largestReceivedPacketWithAck := largestReceivedPacketWithAck h; packetHistory := packetHistory h;
  stopWaiting := stopWaiting h; retransmissionQueue := retransmissionQueue h;
  bytesInFlight := bytesInFlight h; congestion := c; rttStats := rttStats h; rtoCount := rtoCount h;
  tlpCount := tlpCount h; lossTime := lossTime h; lastSentTime := lastSentTime h; alarm := alarm h;
  packets := packets h; retransmissions := retransmissions h; losses := losses h
|}.
Definition set_timers h (rto tlp : Z) (loss al : option Z) (lost : Z) : sentPacketHandler C := {|
  lastSentPacketNumber := lastSentPacketNumber h; skippedPackets := skippedPackets h;
  numNonRetransmittablePackets := numNonRetransmittablePackets h; largestAcked := largestAcked h;
  largestReceivedPacketWithAck := largestReceivedPacketWithAck h; packetHistory := packetHistory h;
  stopWaiting := stopWaiting h; retransmissionQueue := retransmissionQueue h;
  bytesInFlight := bytesInFlight h; congestion := congestion h; rttStats := rttStats h;
  rtoCount := rto; tlpCount := tlp; lossTime := loss; lastSentTime := lastSentTime h; alarm := al;
  packets := packets h; retransmissions := retransmissions h; losses := lost
|}.

Definition GetStatistics h : Z * Z * Z := (packets h, retransmissions h, losses h).

Definition largestInOrderAcked h : Z :=
  match packetHistory h with
  | f :: _ => u64 (PktNumber f - 1)
  | [] => largestAcked h
  end.
Definition GetLeastUnacked h : Z := u64 (largestInOrderAcked h + 1).
Definition ShouldSendRetransmittablePacket h : bool :=
  bool_decide (MaxNonRetransmittablePackets ≤ numNonRetransmittablePackets h).
Definition GetAlarmTimeout h : option Z := alarm h.
Definition sent_GetStopWaitingFrame h (force : bool) : sentPacketHandler C * option Z :=
  let '(s, f) := GetStopWaitingFrame (stopWaiting h) force in
  (set_flight h (packetHistory h) (retransmissionQueue h) (bytesInFlight h) s (retransmissions h), f).

Definition hasOutstandingRetransmittablePacket h : bool := existsb IsRetransmittable (packetHistory h).
Definition hasMultipleOutstandingRetransmittablePackets h : bool :=
  match packetHistory h with _ :: _ :: _ => true | _ => false end.

(** ** Timeouts and the alarm *)

Definition computeRTOTimeout h : Z :=
  let rto := RetransmissionDelay (rttStats h) (congestion h) in
  let rto := if decide (rto = 0) then defaultRTOTimeout else rto in
  let rto := MaxDuration rto minRTOTimeout in
  let rto := i64 (Z.shiftl rto (rtoCount h)) in
  MinDuration rto maxRTOTimeout.

Definition computeTLPTimeout h : Z :=
  let rtt := SmoothedRTT (rttStats h) (congestion h) in
  if hasMultipleOutstandingRetransmittablePackets h then
    MaxDuration (i64 (2 * rtt)) (i64 (Z.quot (i64 (rtt * 3)) 2 + Z.quot minRetransmissionTime 2))
  else MaxDuration (i64 (2 * rtt)) minTailLossProbeTimeout.

(** A packet in the history was sent at some time, so [lastSentTime] is set. *)
Definition updateLossDetectionAlarm h : sentPacketHandler C :=
  let set al := set_timers h (rtoCount h) (tlpCount h) (lossTime h) al (losses h) in
  if decide (packetHistory h = []) then set None
  else match lossTime h with
       | Some t => set (Some t)
       | None =>
           if decide (smoothedRTT (rttStats h) ≠ 0 ∧ tlpCount h < maxTailLossProbes)
           then set ((λ t, t + computeTLPTimeout h) <$> lastSentTime h)
           else set ((λ t, t + MaxDuration (computeRTOTimeout h) minRetransmissionTime) <$> lastSentTime h)
       end.

(** ** Sending *)

(** The [n] packet numbers from [p] on are skipped; the last ones are kept. *)
Fixpoint skip_packets (n : nat) (p : Z) (skipped : list Z) : list Z :=
  match n with
  | O => skipped
  | S n =>
      let skipped := skipped ++ [p] in
      skip_packets n (p + 1) (if decide (MaxTrackedSkippedPackets < zlen skipped) then tail skipped else skipped)
  end.

Definition SentPacket h (packet : Packet) (now : Z) : sentPacketHandler C * option SentError :=
  let pn := PktNumber packet in
  if decide (pn ≤ lastSentPacketNumber h) then (h, Some errPacketNumberNotIncreasing)
  else if decide (MaxTrackedSentPackets < u64 (zlen (retransmissionQueue h) + zlen (packetHistory h) + 1))
  then (h, Some ErrTooManyTrackedSentPackets)
  else
    let skipped := skip_packets (Z.to_nat (pn - (lastSentPacketNumber h + 1))) (lastSentPacketNumber h + 1)
                     (skippedPackets h) in
    let fs := stripNonRetransmittableFrames (PktFrames packet) in
    let isRetransmittable := bool_decide (fs ≠ []) in
    let packet := {| PktNumber := pn; PktFrames := fs; PktLength := PktLength packet;
                     PktEncryptionLevel := PktEncryptionLevel packet;
                     PktSendTime := if isRetransmittable then Some now else PktSendTime packet |} in
    let h := if isRetransmittable
             then set_sent h pn skipped 0 (packetHistory h ++ [packet])
                    (u64 (bytesInFlight h + PktLength packet)) (Some now) (u64 (packets h + 1))
             else set_sent h pn skipped (i64 (numNonRetransmittablePackets h + 1)) (packetHistory h)
                    (bytesInFlight h) (Some now) (u64 (packets h + 1)) in
    let '(c, _) := OnPacketSent (congestion h) now (bytesInFlight h) pn (PktLength packet) isRetransmittable in
    (updateLossDetectionAlarm (set_congestion h c), None).

(** ** Losses and retransmissions *)

Definition queuePacketForRetransmission h (p : Packet) : sentPacketHandler C :=
  set_flight h (remove_element (PktNumber p) (packetHistory h)) (retransmissionQueue h ++ [p])
    (u64 (bytesInFlight h - PktLength p))
    (QueuedRetransmissionForPacketNumber (stopWaiting h) (PktNumber p)) (retransmissions h).

(** A lost packet is queued and the controller told. *)
Definition lose_packet h (p : Packet) : sentPacketHandler C :=
  let h := queuePacketForRetransmission h p in
  set_congestion h (OnPacketLost (congestion h) (PktNumber p) (PktLength p) (bytesInFlight h)).

Definition delayUntilLost (r : RTTStats) : Z :=
  let maxRTT := F64.of_Z (MaxDuration (latestRTT r) (smoothedRTT r)) in
  i64 (float_trunc (F64.mul reordering_factor maxRTT)).

(** The packets lost by [now], and when the first other one will be. *)
Fixpoint scan_lost (largest now delay : Z) (hist : list Packet) (loss : option Z) : list Packet * option Z :=
  match hist with
  | [] => ([], loss)
  | p :: hist =>
      if decide (largest < PktNumber p) then ([], loss)
      else
        let timeSinceSent := time_since now (PktSendTime p) in
        if decide (delay < timeSinceSent) then
          let '(lost, loss) := scan_lost largest now delay hist loss in (p :: lost, loss)
        else
          scan_lost largest now delay hist
            (match loss with None => Some (now + i64 (delay - timeSinceSent)) | Some t => Some t end)
  end.

Definition detectLostPackets h (now : Z) : sentPacketHandler C :=
  let '(lost, loss) := scan_lost (largestAcked h) now (delayUntilLost (rttStats h)) (packetHistory h) None in
  let h := set_timers h (rtoCount h) (tlpCount h) loss (alarm h) (u64 (losses h + zlen lost)) in
  foldl lose_packet h lost.

Fixpoint in_flight_up_to (largest : Z) (hist : list Packet) : list Packet :=
  match hist with
  | [] => []
  | p :: hist => if decide (largest < PktNumber p) then [] else p :: in_flight_up_to largest hist
  end.
Definition SetInflightAsLost h : sentPacketHandler C :=
  let lost := in_flight_up_to (largestAcked h) (packetHistory h) in
  let h := set_timers h (rtoCount h) (tlpCount h) (lossTime h) (alarm h) (u64 (losses h + zlen lost)) in
  foldl lose_packet h lost.

Definition queueRTO h (p : Packet) : sentPacketHandler C :=
  let h := queuePacketForRetransmission h p in
  let h := set_timers h (rtoCount h) (tlpCount h) (lossTime h) (alarm h) (u64 (losses h + 1)) in
  set_congestion h (OnPacketLost (congestion h) (PktNumber p) (PktLength p) (bytesInFlight h)).

Definition retransmitTLP h : sentPacketHandler C :=
  match last (packetHistory h) with
  | Some p => queuePacketForRetransmission h p
  | None => h
  end.

Definition retransmitOldestPacket h : sentPacketHandler C :=
  match packetHistory h with
  | p :: _ => queueRTO h p
  | [] => h
  end.
(** The loop runs while the history is not empty; each turn takes a packet out. *)
Fixpoint retransmit_while (fuel : nat) h : sentPacketHandler C :=
  match fuel with
  | O => h
  | S fuel => if decide (packetHistory h = []) then h else retransmit_while fuel (retransmitOldestPacket h)
  end.
Definition retransmitAllPackets h : sentPacketHandler C :=
  let h := retransmit_while (length (packetHistory h)) h in
  set_congestion h (OnRetransmissionTimeout (congestion h) true).
Definition retransmitOldestTwoPackets h : sentPacketHandler C :=
  let h := retransmitOldestPacket (retransmitOldestPacket h) in
  set_congestion h (OnRetransmissionTimeout (congestion h) true).

(** [rto] is what [onRTOCallback] answers, if there is one. *)
Definition OnAlarm h (now : Z) (rto : option bool) : sentPacketHandler C :=
  if hasOutstandingRetransmittablePacket h then
    updateLossDetectionAlarm
      match lossTime h with
      | Some _ => detectLostPackets h now
      | None =>
          if decide (tlpCount h < maxTailLossProbes) then
            let h := retransmitTLP h in
            set_timers h (rtoCount h) (u32 (tlpCount h + 1)) (lossTime h) (alarm h) (losses h)
          else
            let potentiallyFailed := default false rto in
            let h := if potentiallyFailed then retransmitAllPackets h else retransmitOldestTwoPackets h in
            set_timers h (u32 (rtoCount h + 1)) (tlpCount h) (lossTime h) (alarm h) (losses h)
      end
  else set_timers h (rtoCount h) (tlpCount h) (lossTime h) None (losses h).

Definition DequeuePacketForRetransmission h : sentPacketHandler C * option Packet :=
  match retransmissionQueue h with
  | [] => (h, None)
  | p :: q => (set_flight h (packetHistory h) q (bytesInFlight h) (stopWaiting h) (u64 (retransmissions h + 1)),
               Some p)
  end.
Definition DuplicatePacket h (p : Packet) : sentPacketHandler C :=
  set_flight h (packetHistory h) (retransmissionQueue h ++ [p]) (bytesInFlight h) (stopWaiting h)
    (retransmissions h).

Definition SendingAllowed h : bool :=
  let congestionLimited := bool_decide (GetCongestionWindow (congestion h) < bytesInFlight h) in
  let maxTrackedLimited :=
    bool_decide (MaxTrackedSentPackets ≤ u64 (zlen (retransmissionQueue h) + zlen (packetHistory h))) in
  let haveRetransmissions := bool_decide (0 < zlen (retransmissionQueue h)) in
  negb maxTrackedLimited && (negb congestionLimited || haveRetransmissions).

(** ** Acknowledgements *)

(** [rs] are the ranges still ahead, lowest first; the last one stays. *)
Fixpoint advance_range (packetNumber : Z) (rs : list AckRange) : list AckRange :=
  match rs with
  | r :: (_ :: _) as rest => if decide (Last r < packetNumber) then advance_range packetNumber rest else rs
  | _ => rs
  end.
Fixpoint newly_acked (lowest largest : Z) (rs : list AckRange) (hist : list Packet) :
    result SentError (list Packet) :=
  match hist with
  | [] => Ok []
  | p :: hist =>
      let packetNumber := PktNumber p in
      if decide (packetNumber < lowest) then newly_acked lowest largest rs hist
      else if decide (largest < packetNumber) then Ok []
      else
        let acked rs := match newly_acked lowest largest rs hist with
                        | Ok ps => Ok (p :: ps)
                        | Err e => Err e
                        end in
        match advance_range packetNumber rs with
        | [] => acked []
        | (r :: _) as rs =>
            if decide (First r ≤ packetNumber) then
              if decide (Last r < packetNumber) then Err (BugAckedWrongPacket packetNumber (First r) (Last r))
              else acked rs
            else newly_acked lowest largest rs hist
        end
  end.
Definition determineNewlyAckedPackets h (f : AckFrame) : result SentError (list Packet) :=
  newly_acked (LowestAcked f) (LargestAcked f) (reverse (AckRanges f)) (packetHistory h).
Definition determineNewlyAckedPacketsClosePath h (f : ClosePathFrame) : result SentError (list Packet) :=
  newly_acked (CLowestAcked f) (CLargestAcked f) (reverse (CAckRanges f)) (packetHistory h).

Definition skippedPacketsAcked h (f : AckFrame) : bool := existsb (AcksPacket f) (skippedPackets h).
Definition skippedPacketsAckedClosePath h (f : ClosePathFrame) : bool :=
  existsb (ClosePath.AcksPacket f) (skippedPackets h).

Fixpoint send_time_of (largest : Z) (hist : list Packet) : option (option Z) :=
  match hist with
  | [] => None
  | p :: hist =>
      if decide (PktNumber p = largest) then Some (PktSendTime p)
      else if decide (largest < PktNumber p) then None
      else send_time_of largest hist
  end.
Definition maybeUpdateRTT h (largest ackDelay rcvTime now : Z) : sentPacketHandler C * bool :=
  match send_time_of largest (packetHistory h) with
  | Some t =>
      (set_acked h (largestAcked h) (largestReceivedPacketWithAck h) (skippedPackets h) (stopWaiting h)
         (UpdateRTT (rttStats h) (time_since rcvTime t) ackDelay now), true)
  | None => (h, false)
  end.

Definition onPacketAcked h (p : Packet) : sentPacketHandler C :=
  let h := set_timers h 0 0 (lossTime h) (alarm h) (losses h) in
  set_flight h (remove_element (PktNumber p) (packetHistory h)) (retransmissionQueue h)
    (u64 (bytesInFlight h - PktLength p)) (stopWaiting h) (retransmissions h).
(** [clock] is the time at which the controller learns of a packet number. *)
Definition ack_packet (clock : Z → Z) h (p : Packet) : sentPacketHandler C :=
  let h := onPacketAcked h p in
  set_congestion h (OnPacketAcked (rttStats h) (clock (PktNumber p)) (congestion h) (PktNumber p)
                      (PktLength p) (bytesInFlight h)).

(** One past the last of the skipped packets up to [lioa]. *)
Fixpoint delete_index (lioa : Z) (i : nat) (l : list Z) (deleteIndex : nat) : nat :=
  match l with
  | [] => deleteIndex
  | p :: l => delete_index lioa (S i) l (if decide (p ≤ lioa) then S i else deleteIndex)
  end.
Definition garbageCollectSkippedPackets h : sentPacketHandler C :=
  set_acked h (largestAcked h) (largestReceivedPacketWithAck h)
    (drop (delete_index (largestInOrderAcked h) 0 (skippedPackets h) 0) (skippedPackets h))
    (stopWaiting h) (rttStats h).

Definition sent_ReceivedAck h (f : AckFrame) (withPacketNumber rcvTime rttNow : Z) (clock : Z → Z)
    (now : Z) : sentPacketHandler C * option SentError :=
  if decide (lastSentPacketNumber h < LargestAcked f) then (h, Some errAckForUnsentPacket)
  else if decide (withPacketNumber ≤ largestReceivedPacketWithAck h) then (h, Some ErrDuplicateOrOutOfOrderAck)
  else
    let h := set_acked h (largestAcked h) withPacketNumber (skippedPackets h) (stopWaiting h) (rttStats h) in
    if decide (LargestAcked f ≤ largestInOrderAcked h) then (h, None)
    else
      let h := set_acked h (LargestAcked f) withPacketNumber (skippedPackets h) (stopWaiting h) (rttStats h) in
      if skippedPacketsAcked h f then (h, Some ErrAckForSkippedPacket)
      else
        let '(h, rttUpdated) := maybeUpdateRTT h (LargestAcked f) (DelayTime f) rcvTime rttNow in
        let h := if (rttUpdated : bool) then set_congestion h (MaybeExitSlowStart (rttStats h) (congestion h)) else h in
        match determineNewlyAckedPackets h f with
        | Err e => (h, Some e)
        | Ok acked =>
            let h := foldl (ack_packet clock) h acked in
            let h := updateLossDetectionAlarm (detectLostPackets h now) in
            let h := garbageCollectSkippedPackets h in
            (set_acked h (largestAcked h) (largestReceivedPacketWithAck h) (skippedPackets h)
               (ReceivedAck (stopWaiting h) f) (rttStats h), None)
        end.

Definition ReceivedClosePath h (f : ClosePathFrame) (withPacketNumber : Z) (clock : Z → Z) :
    sentPacketHandler C * option SentError :=
  if decide (lastSentPacketNumber h < CLargestAcked f) then (h, Some errAckForUnsentPacket)
  else if decide (withPacketNumber ≤ largestReceivedPacketWithAck h) then (h, Some ErrDuplicateOrOutOfOrderAck)
  else
    let h := set_acked h (largestAcked h) withPacketNumber (skippedPackets h) (stopWaiting h) (rttStats h) in
    if skippedPacketsAckedClosePath h f then (h, Some ErrAckForSkippedPacket)
    else
      match determineNewlyAckedPacketsClosePath h f with
      | Err e => (h, Some e)
      | Ok acked =>
          let h := foldl (ack_packet clock) h acked in
          let h := SetInflightAsLost h in
          (garbageCollectSkippedPackets h, None)
      end.
End handler.

(** * The history as an ordered list *)

Definition increasing (l : list Packet) : Prop := StronglySorted (λ p q, PktNumber p < PktNumber q) l.
Fixpoint bytes_of (l : list Packet) : Z :=
  match l with [] => 0 | p :: l => PktLength p + bytes_of l end.
Definition numbers (l : list Packet) : list Z := PktNumber <$> l.

Lemma list_filter_ext_in {A} (P Q : A → Prop) `{∀ x, Decision (P x)} `{∀ x, Decision (Q x)} (l : list A) :
  (∀ x, x ∈ l → P x ↔ Q x) → filter P l = filter Q l.
Proof.
  induction l as [|x l IH]; intros HPQ; [done|]. rewrite !filter_cons.
  rewrite (decide_ext (P x) (Q x)) by (apply HPQ; by left).
  rewrite IH by (intros; apply HPQ; by right). done.
Qed.

Lemma list_filter_all {A} (P : A → Prop) `{∀ x, Decision (P x)} (l : list A) : (∀ x, x ∈ l → P x) → filter P l = l.
Proof.
  induction l as [|x l IH]; intros HP; [done|]. rewrite filter_cons_True by (apply HP; by left).
  by rewrite IH by (intros; apply HP; by right).
Qed.

Lemma bytes_of_app l k : bytes_of (l ++ k) = bytes_of l + bytes_of k.
Proof. induction l as [|p l IH]; cbn [app bytes_of]; lia. Qed.

Lemma bytes_of_filter (P : Packet → Prop) `{∀ p, Decision (P p)} l :
  bytes_of l = bytes_of (filter P l) + bytes_of (filter (λ p, ¬ P p) l).
Proof.
  induction l as [|p l IH]; [done|]. rewrite !filter_cons. cbn [bytes_of].
  destruct (decide (P p)) as [HP|HP].
  - rewrite (decide_False (P := ¬ P p)) by tauto. cbn [bytes_of]. lia.
  - rewrite (decide_True (P := ¬ P p)) by tauto. cbn [bytes_of]. lia.
Qed.

Lemma increasing_filter (P : Packet → Prop) `{∀ p, Decision (P p)} l : increasing l → increasing (filter P l).
Proof.
  unfold increasing. induction 1 as [|p l Hl IH Hp]; [constructor|].
  rewrite filter_cons. case_decide; [|done]. constructor; [done|].
  rewrite Forall_forall in Hp |- *. intros q [_ Hq]%list_elem_of_filter. auto.
Qed.

Lemma increasing_app_one l p :
  increasing l → Forall (λ q, PktNumber q < PktNumber p) l → increasing (l ++ [p]).
Proof.
  unfold increasing. induction 1 as [|q l Hl IH Hq]; cbn [app]; intros HF.
  - by repeat constructor.
  - apply Forall_cons in HF as [Hqp HF]. constructor; [auto|].
    apply Forall_app. split; [done|]. by constructor.
Qed.

Lemma increasing_numbers p q l : increasing l → p ∈ l → q ∈ l → PktNumber p = PktNumber q → p = q.
Proof.
  unfold increasing. induction 1 as [|r l Hl IH Hr]; [by intros ?%elem_of_nil|].
  rewrite Forall_forall in Hr. intros [->|Hp]%elem_of_cons [->|Hq]%elem_of_cons E; auto.
  - specialize (Hr q Hq). cbn in Hr. lia.
  - specialize (Hr p Hp). cbn in Hr. lia.
Qed.

Lemma remove_element_filter n l :
  increasing l → remove_element n l = filter (λ p, PktNumber p ≠ n) l.
Proof.
  unfold increasing. induction 1 as [|p l Hl IH Hp]; [done|].
  cbn [remove_element]. rewrite filter_cons. destruct (decide (PktNumber p = n)) as [E|E].
  - rewrite decide_False by tauto. symmetry. apply list_filter_all. intros q Hq.
    rewrite Forall_forall in Hp. specialize (Hp q Hq). cbn in Hp. lia.
  - rewrite decide_True by done. by rewrite IH.
Qed.

Definition remove_elements (ns : list Z) (l : list Packet) : list Packet :=
  foldl (λ l n, remove_element n l) l ns.

Lemma remove_elements_filter ns l :
  increasing l → remove_elements ns l = filter (λ p, PktNumber p ∉ ns) l.
Proof.
  revert l. induction ns as [|n ns IH]; intros l Hl; cbn [remove_elements foldl].
  - symmetry. apply list_filter_all. intros p _. apply not_elem_of_nil.
  - change (foldl _ ?x ns) with (remove_elements ns x).
    rewrite remove_element_filter, IH by auto using increasing_filter.
    rewrite list_filter_filter. apply list_filter_iff. intros p. rewrite not_elem_of_cons. tauto.
Qed.

Lemma numbers_of_filter (P : Packet → Prop) `{∀ p, Decision (P p)} l p :
  increasing l → p ∈ l → PktNumber p ∈ numbers (filter P l) ↔ P p.
Proof.
  intros Hl Hp. unfold numbers. rewrite list_elem_of_fmap. split.
  - intros (q & E & [HP Hq]%list_elem_of_filter). by rewrite (increasing_numbers p q l).
  - intros HP. exists p. split; [done|]. by apply list_elem_of_filter.
Qed.

(** Removing the elements a filter picks leaves the others. *)
Lemma remove_filtered (P : Packet → Prop) `{∀ p, Decision (P p)} l :
  increasing l → remove_elements (numbers (filter P l)) l = filter (λ p, ¬ P p) l.
Proof.
  intros Hl. rewrite remove_elements_filter by done. apply list_filter_ext_in.
  intros p Hp. by rewrite numbers_of_filter.
Qed.

Lemma u64_sub_l a b : u64 (u64 a - b) = u64 (a - b).
Proof. unfold u64. by rewrite Zminus_mod_idemp_l. Qed.
Lemma u64_add_l a b : u64 (u64 a + b) = u64 (a + b).
Proof. unfold u64. by rewrite Zplus_mod_idemp_l. Qed.
Lemma u64_idem a : u64 (u64 a) = u64 a.
Proof. unfold u64. by rewrite Zmod_mod. Qed.

(** * What the loops do *)

Section loops.
Context {C : Type} `{!SendAlgorithm C}.
Implicit Types h : sentPacketHandler C.

(** Losing packets moves them from the history to the queue. *)
Lemma lose_all h ls :
  u64 (bytesInFlight h) = bytesInFlight h →
  ∃ c s, foldl lose_packet h ls =
    set_congestion (set_flight h (remove_elements (numbers ls) (packetHistory h))
      (retransmissionQueue h ++ ls) (u64 (bytesInFlight h - bytes_of ls)) s (retransmissions h)) c.
Proof.
  revert h. induction ls as [|p ls IH]; intros h Hb.
  - exists (congestion h), (stopWaiting h). cbn [foldl numbers fmap list_fmap remove_elements bytes_of].
    rewrite app_nil_r, Z.sub_0_r, Hb. by destruct h.
  - cbn [foldl]. destruct (IH (lose_packet h p)) as (c & s & ->); [apply u64_idem|].
    exists c, s. unfold set_congestion, set_flight, lose_packet, queuePacketForRetransmission. cbn.
    rewrite <-app_assoc. rewrite u64_sub_l. cbn [app].
    replace (bytesInFlight h - PktLength p - bytes_of ls)
      with (bytesInFlight h - (PktLength p + bytes_of ls)) by lia. done.
Qed.

Lemma ack_all clock h ls :
  u64 (bytesInFlight h) = bytesInFlight h →
  ∃ c, foldl (ack_packet clock) h ls =
    set_congestion (set_flight
      (set_timers h (if decide (ls = []) then rtoCount h else 0) (if decide (ls = []) then tlpCount h else 0)
         (lossTime h) (alarm h) (losses h))
      (remove_elements (numbers ls) (packetHistory h))
      (retransmissionQueue h) (u64 (bytesInFlight h - bytes_of ls)) (stopWaiting h) (retransmissions h)) c.
Proof.
  revert h. induction ls as [|p ls IH]; intros h Hb.
  - exists (congestion h). cbn [foldl numbers fmap list_fmap remove_elements bytes_of].
    rewrite Z.sub_0_r, Hb. by destruct h.
  - cbn [foldl]. destruct (IH (ack_packet clock h p)) as (c & ->); [apply u64_idem|].
    exists c. unfold set_congestion, set_flight, set_timers, ack_packet, onPacketAcked. cbn.
    rewrite u64_sub_l.
    replace (bytesInFlight h - PktLength p - bytes_of ls)
      with (bytesInFlight h - (PktLength p + bytes_of ls)) by lia.
    by destruct (decide (ls = [])).
Qed.

(** A packet is overdue when it was sent longer than [delay] ago and not after the
    largest acknowledged one. *)
Definition overdue (largest now delay : Z) (p : Packet) : Prop :=
  PktNumber p ≤ largest ∧ delay < time_since now (PktSendTime p).
#[export] Instance overdue_dec largest now delay p : Decision (overdue largest now delay p).
Proof. unfold overdue. apply _. Defined.

Lemma beyond_filter (P : Packet → Prop) `{∀ p, Decision (P p)} largest p l :
  increasing (p :: l) → largest < PktNumber p → (∀ q, P q → PktNumber q ≤ largest) → filter P (p :: l) = [].
Proof.
  intros [_ Hp]%StronglySorted_inv Hl HP. rewrite Forall_forall in Hp.
  destruct (filter P (p :: l)) as [|q k] eqn:E; [done|].
  assert (q ∈ filter P (p :: l)) as Hq by (rewrite E; by left).
  apply list_elem_of_filter in Hq as [HPq [->|Hq]%elem_of_cons].
  - specialize (HP _ HPq). lia.
  - specialize (HP _ HPq). specialize (Hp _ Hq). cbn in Hp. lia.
Qed.

Lemma scan_lost_filter largest now delay hist loss :
  increasing hist → (scan_lost largest now delay hist loss).1 = filter (overdue largest now delay) hist.
Proof.
  revert loss. induction hist as [|p hist IH]; intros loss Hs; [done|]. cbn [scan_lost].
  destruct (decide (largest < PktNumber p)) as [Hl|Hl].
  - symmetry. apply (beyond_filter _ largest); [done..|]. by intros q [? _].
  - apply StronglySorted_inv in Hs as [Hs _].
    destruct (decide (delay < time_since now (PktSendTime p))) as [Hd|Hd].
    + rewrite filter_cons_True by (split; [lia|done]). rewrite <-(IH loss Hs).
      by destruct (scan_lost largest now delay hist loss).
    + rewrite filter_cons_False by (intros [_ ?]; lia). by apply IH.
Qed.

Lemma in_flight_filter largest hist :
  increasing hist → in_flight_up_to largest hist = filter (λ p, PktNumber p ≤ largest) hist.
Proof.
  induction hist as [|p hist IH]; intros Hs; [done|]. cbn [in_flight_up_to].
  destruct (decide (largest < PktNumber p)) as [Hl|Hl].
  - symmetry. by apply (beyond_filter _ largest).
  - rewrite filter_cons_True by lia. apply StronglySorted_inv in Hs as [Hs _]. by rewrite IH.
Qed.

(** What [detectLostPackets] and [SetInflightAsLost] give up. *)
Definition late h (now : Z) (p : Packet) : Prop :=
  overdue (largestAcked h) now (delayUntilLost (rttStats h)) p.
Definition old h (p : Packet) : Prop := PktNumber p ≤ largestAcked h.
#[export] Instance late_dec h now p : Decision (late h now p).
Proof. unfold late. apply _. Defined.
#[export] Instance old_dec h p : Decision (old h p).
Proof. unfold old. apply _. Defined.

Lemma detected h now :
  increasing (packetHistory h) → u64 (bytesInFlight h) = bytesInFlight h →
  ∃ c s,
    detectLostPackets h now =
    set_congestion (set_flight
      (set_timers h (rtoCount h) (tlpCount h)
         (scan_lost (largestAcked h) now (delayUntilLost (rttStats h)) (packetHistory h) None).2 (alarm h)
         (u64 (losses h + zlen (filter (late h now) (packetHistory h)))))
      (filter (λ p, ¬ late h now p) (packetHistory h)) (retransmissionQueue h ++ filter (late h now) (packetHistory h))
      (u64 (bytesInFlight h - bytes_of (filter (late h now) (packetHistory h)))) s (retransmissions h)) c.
Proof.
  intros Hs Hb. unfold detectLostPackets.
  pose proof (scan_lost_filter (largestAcked h) now (delayUntilLost (rttStats h)) _ None Hs) as E.
  change (filter _ _) with (filter (late h now) (packetHistory h)) in E.
  destruct (scan_lost _ _ _ _ _) as [lost loss]. cbn [fst] in E. subst lost. cbn [snd].
  destruct (lose_all (set_timers h (rtoCount h) (tlpCount h) loss (alarm h)
    (u64 (losses h + zlen (filter (late h now) (packetHistory h))))) (filter (late h now) (packetHistory h)))
    as (c & s & ->); [done|].
  exists c, s. cbn. by rewrite remove_filtered.
Qed.

Lemma all_lost h :
  increasing (packetHistory h) → u64 (bytesInFlight h) = bytesInFlight h →
  ∃ c s,
    SetInflightAsLost h =
    set_congestion (set_flight
      (set_timers h (rtoCount h) (tlpCount h) (lossTime h) (alarm h)
         (u64 (losses h + zlen (filter (old h) (packetHistory h)))))
      (filter (λ p, ¬ old h p) (packetHistory h)) (retransmissionQueue h ++ filter (old h) (packetHistory h))
      (u64 (bytesInFlight h - bytes_of (filter (old h) (packetHistory h)))) s (retransmissions h)) c.
Proof.
  intros Hs Hb. unfold SetInflightAsLost. rewrite in_flight_filter by done.
  destruct (lose_all (set_timers h (rtoCount h) (tlpCount h) (lossTime h) (alarm h)
    (u64 (losses h + zlen (filter (old h) (packetHistory h))))) (filter (old h) (packetHistory h)))
    as (c & s & E); [done|].
  exists c, s. change (filter _ _) with (filter (old h) (packetHistory h)) at 1 2. rewrite E. cbn. by rewrite remove_filtered.
Qed.

Lemma oldest_retransmitted p hist h :
  packetHistory h = p :: hist →
  ∃ c s,
    retransmitOldestPacket h =
    set_congestion (set_flight (set_timers h (rtoCount h) (tlpCount h) (lossTime h) (alarm h) (u64 (losses h + 1)))
      hist (retransmissionQueue h ++ [p]) (u64 (bytesInFlight h - PktLength p)) s (retransmissions h)) c.
Proof.
  intros E. unfold retransmitOldestPacket, queueRTO, queuePacketForRetransmission. rewrite E.
  eexists _, _. cbn. rewrite decide_True by done. done.
Qed.

(** Later assignments to the same fields win. *)
Lemma reset_all h r t l a n hist q b s m c r' t' l' a' n' hist' q' b' s' m' c' :
  set_congestion (set_flight (set_timers (set_congestion (set_flight (set_timers h r t l a n) hist q b s m) c)
    r' t' l' a' n') hist' q' b' s' m') c' =
  set_congestion (set_flight (set_timers h r' t' l' a' n') hist' q' b' s' m') c'.
Proof. reflexivity. Qed.

Lemma while_retransmitted h n :
  u64 (bytesInFlight h) = bytesInFlight h → (length (packetHistory h) ≤ n)%nat →
  ∃ c s l,
    retransmit_while n h =
    set_congestion (set_flight (set_timers h (rtoCount h) (tlpCount h) (lossTime h) (alarm h) l)
      [] (retransmissionQueue h ++ packetHistory h)
      (u64 (bytesInFlight h - bytes_of (packetHistory h))) s (retransmissions h)) c.
Proof.
  revert h. induction n as [|n IH]; intros h Hb Hn.
  - destruct (packetHistory h) as [|p hist] eqn:E; [|cbn in Hn; lia].
    exists (congestion h), (stopWaiting h), (losses h). cbn [retransmit_while bytes_of].
    rewrite app_nil_r, Z.sub_0_r, Hb, <-E. by destruct h.
  - cbn [retransmit_while]. destruct (packetHistory h) as [|p hist] eqn:E.
    + rewrite decide_True by done. exists (congestion h), (stopWaiting h), (losses h). cbn [bytes_of].
      rewrite app_nil_r, Z.sub_0_r, Hb, <-E. by destruct h.
    + rewrite decide_False by done. destruct (oldest_retransmitted p hist h E) as (c & s & E1).
      rewrite E1. destruct (IH (retransmitOldestPacket h)) as (c' & s' & l & E2);
        [rewrite E1; apply u64_idem|rewrite E1; cbn in Hn |- *; lia|].
      exists c', s', l. rewrite <-E1, E2, E1, reset_all. f_equal. f_equal; cbn [set_congestion set_flight set_timers
        retransmissionQueue packetHistory bytesInFlight bytes_of retransmissions].
      * by rewrite <-app_assoc.
      * rewrite u64_sub_l. f_equal. lia.
Qed.
End loops.

(** * Which packets an ACK acknowledges *)

Definition ranges_climb (rs : list AckRange) : Prop :=
  Forall (λ r, First r ≤ Last r) rs ∧ StronglySorted (λ r r', Last r < First r') rs.
Definition in_ack_range (n : Z) (r : AckRange) : Prop := First r ≤ n ∧ n ≤ Last r.

Lemma climb_cons r rs : ranges_climb (r :: rs) →
  First r ≤ Last r ∧ Forall (λ r', Last r < First r') rs ∧ ranges_climb rs.
Proof. intros [ [Ha Hb]%Forall_cons [Hd He]%StronglySorted_inv]. by repeat split. Qed.

(** The walk drops ranges below the packet and stops at one that reaches it. *)
Lemma advance_spec n rs :
  ranges_climb rs → rs ≠ [] →
  ∃ dropped r rest,
    rs = dropped ++ r :: rest ∧ advance_range n rs = r :: rest ∧
    Forall (λ r, Last r < n) dropped ∧ (n ≤ Last r ∨ rest = []) ∧ ranges_climb (r :: rest).
Proof.
  induction rs as [|r rs IH]; intros Hc Hne; [done|].
  destruct (climb_cons _ _ Hc) as (Hr & Hf & Hcs). cbn [advance_range].
  destruct rs as [|r' rs].
  - exists [], r, []. split_and!; try done. by right.
  - destruct (decide (Last r < n)) as [Hl|Hl].
    + destruct (IH Hcs) as (d & r0 & rest & -> & -> & Hd & Hr0 & Hc0); [done|].
      exists (r :: d), r0, rest. split_and!; try done. by constructor.
    + exists [], r, (r' :: rs). split_and!; try done. left. lia.
Qed.

Lemma newly_acked_filter lowest largest gone rs hist :
  increasing hist → ranges_climb rs → rs ≠ [] →
  (∀ r, last rs = Some r → largest ≤ Last r) →
  Forall (λ r, Forall (λ p, Last r < PktNumber p) hist) gone →
  newly_acked lowest largest rs hist =
  Ok (filter (λ p, (lowest ≤ PktNumber p ≤ largest) ∧ Exists (in_ack_range (PktNumber p)) (gone ++ rs)) hist).
Proof.
  revert gone rs. induction hist as [|p hist IH]; intros gone rs Hs Hc Hne Hlast Hgone; [done|].
  assert (increasing hist) as Hs' by (by apply StronglySorted_inv in Hs as [? _]).
  assert (Forall (λ r, Forall (λ p, Last r < PktNumber p) hist) gone) as Hgone'.
  { eapply Forall_impl; [apply Hgone|]. by intros r [? ?]%Forall_cons. }
  cbn [newly_acked]. destruct (decide (PktNumber p < lowest)) as [Hlow|Hlow].
  { rewrite filter_cons_False by lia. by apply IH. }
  destruct (decide (largest < PktNumber p)) as [Hhigh|Hhigh].
  { symmetry. f_equal. apply (beyond_filter _ largest); [done..|]. intros q [? _]. lia. }
  destruct (advance_spec (PktNumber p) rs Hc Hne) as (d & r & rest & -> & -> & Hd & Hr & Hcr).
  assert (PktNumber p ≤ Last r) as Hpr.
  { destruct Hr as [Hr| ->]; [done|]. specialize (Hlast r). rewrite last_snoc in Hlast.
    specialize (Hlast eq_refl). lia. }
  assert (Forall (λ r, Forall (λ q, Last r < PktNumber q) hist) (gone ++ d)) as Hgd.
  { apply Forall_app. split; [done|]. eapply Forall_impl; [apply Hd|]. intros x Hx.
    apply StronglySorted_inv in Hs as [_ Hp]. eapply Forall_impl; [apply Hp|]. cbn in Hx |- *. intros; lia. }
  pose proof (IH (gone ++ d) (r :: rest) Hs' Hcr) as Hrec.
  rewrite <-app_assoc in Hrec.
  specialize (Hrec ltac:(done)).
  rewrite Hrec; [|intros x Hx; apply Hlast; by rewrite last_app_cons|done].
  destruct (decide (First r ≤ PktNumber p)) as [Hf|Hf].
  - rewrite decide_False by lia. rewrite filter_cons_True; [done|]. split; [lia|].
    apply Exists_app. right. apply Exists_app. right. left. by split.
  - rewrite filter_cons_False; [done|]. intros [_ Hex]. rewrite !Exists_app in Hex.
    destruct (climb_cons _ _ Hcr) as (Hrr & Hrest & _).
    destruct Hex as [Hex|[Hex|Hex]]; apply Exists_exists in Hex as (x & Hx & Hx1 & Hx2).
    + rewrite Forall_forall in Hgone. specialize (Hgone x Hx). apply Forall_cons in Hgone as [? _]. lia.
    + rewrite Forall_forall in Hd. specialize (Hd x Hx). cbn in Hd. lia.
    + apply elem_of_cons in Hx as [->|Hx]; [lia|].
      rewrite Forall_forall in Hrest. specialize (Hrest x Hx). cbn in Hrest. lia.
Qed.

Lemma newly_acked_plain lowest largest hist :
  increasing hist →
  newly_acked lowest largest [] hist = Ok (filter (λ p, lowest ≤ PktNumber p ≤ largest) hist).
Proof.
  induction hist as [|p hist IH]; intros Hs; [done|].
  assert (increasing hist) as Hs' by (by apply StronglySorted_inv in Hs as [? _]).
  cbn [newly_acked advance_range]. destruct (decide (PktNumber p < lowest)).
  { rewrite filter_cons_False by lia. by apply IH. }
  destruct (decide (largest < PktNumber p)).
  { symmetry. f_equal. apply (beyond_filter _ largest); [done..|]. intros q ?. lia. }
  rewrite IH by done. by rewrite filter_cons_True by lia.
Qed.

(** A frame with consistent ranges of packet numbers. *)
Definition ack_consistent (f : AckFrame) : Prop :=
  validateAckRanges f = true ∧ Forall (λ r, 0 ≤ First r ∧ 0 ≤ Last r ≤ MaxPacketNumber) (AckRanges f).

Lemma consistent_after_sorted prev rs :
  consistent_after prev rs = true →
  Forall (λ r, First r ≤ Last r) rs → Forall (λ r, 0 ≤ First r ∧ 0 ≤ Last r ≤ MaxPacketNumber) rs →
  Forall (λ r, Last r < First prev) rs ∧ StronglySorted (λ r' r, Last r < First r') rs.
Proof.
  revert prev. induction rs as [|r rs IH]; intros prev; [by repeat constructor|].
  cbn [consistent_after]. intros Hc [Hr Hrs]%Forall_cons [[Hu1 Hu2] Hu]%Forall_cons.
  destruct (decide (First prev ≤ First r)) as [|Hf]; [done|].
  destruct (decide (First prev ≤ u64 (Last r + 1))) as [|Hlast]; [done|].
  unfold MaxPacketNumber in Hu2. rewrite u64_small in Hlast by lia.
  destruct (IH r) as [H1 H2]; [done..|]. split.
  - constructor; [lia|]. rewrite Forall_forall in H1 |- *. intros x Hx. specialize (H1 x Hx). cbn in H1. lia.
  - by constructor.
Qed.

Lemma strongly_sorted_reverse {A} (R : A → A → Prop) (l : list A) :
  StronglySorted R l → StronglySorted (λ x y, R y x) (reverse l).
Proof.
  induction 1 as [|x l Hl IH Hx]; [constructor|]. rewrite reverse_cons.
  assert (∀ k, StronglySorted (λ x y, R y x) k → Forall (λ y, R x y) k →
            StronglySorted (λ x y, R y x) (k ++ [x])) as Hsnoc.
  { induction 1 as [|y k Hk IHk Hy]; intros HF; cbn [app]; [by repeat constructor|].
    apply Forall_cons in HF as [Hxy HF]. constructor; [auto|]. apply Forall_app. split; [done|]. by constructor. }
  apply Hsnoc; [done|]. by apply Forall_reverse.
Qed.

Lemma ack_consistent_climb f :
  ack_consistent f → AckRanges f ≠ [] →
  ranges_climb (reverse (AckRanges f)) ∧
  ∀ r, last (reverse (AckRanges f)) = Some r → LargestAcked f ≤ Last r.
Proof.
  intros [Hv Hu] Hne. unfold validateAckRanges in Hv.
  destruct (AckRanges f) as [|r0 rs] eqn:E; [done|].
  destruct (decide (zlen (r0 :: rs) = 1)); [done|].
  destruct (decide (Last r0 ≠ LargestAcked f)) as [|Hl]; [done|].
  destruct (existsb _ _) eqn:Ee; [done|].
  assert (Forall (λ r, First r ≤ Last r) (r0 :: rs)) as Hlen.
  { apply Forall_forall. intros r Hr. destruct (decide (Last r < First r)) as [Hlt|]; [|lia].
    exfalso. apply not_true_iff_false in Ee. apply Ee. apply existsb_exists. exists r.
    split; [by apply list_elem_of_In|]. by apply bool_decide_eq_true. }
  apply Forall_cons in Hu as [Hu0 Hu].
  destruct (consistent_after_sorted r0 rs Hv) as [H1 H2]; [by apply Forall_cons in Hlen as []|done|].
  split; [split|].
  - by apply Forall_reverse.
  - apply (strongly_sorted_reverse (λ r' r, Last r < First r')). by constructor.
  - intros r. rewrite last_reverse. intros [= <-]. apply dec_stable in Hl. lia.
Qed.

(** The packets of the history a frame acknowledges. *)
Definition acks (f : AckFrame) (p : Packet) : Prop := AcksPacket f (PktNumber p) = true.
#[export] Instance acks_dec f p : Decision (acks f p).
Proof. unfold acks. apply _. Defined.

Lemma acks_packet_iff f n :
  AcksPacket f n = true ↔
  (LowestAcked f ≤ n ≤ LargestAcked f) ∧ (AckRanges f = [] ∨ Exists (in_ack_range n) (AckRanges f)).
Proof.
  unfold AcksPacket, ReceivedPackets.HasMissingRanges.
  destruct (decide (n < LowestAcked f ∨ LargestAcked f < n)) as [Ho|Ho]; [split; [done|lia]|].
  destruct (AckRanges f) as [|r rs] eqn:E.
  - rewrite bool_decide_eq_false_2 by (unfold zlen; cbn; lia).
    rewrite bool_decide_eq_true. split; [intros; split; [lia|by left]|intros [? _]; lia].
  - rewrite bool_decide_eq_true_2 by (unfold zlen; cbn; lia).
    rewrite existsb_exists, Exists_exists. split.
    + intros (x & Hx & Hb). apply bool_decide_eq_true in Hb. split; [lia|]. right.
      exists x. split; [by apply list_elem_of_In|done].
    + intros [_ [|(x & Hx & Hb)]]; [done|]. exists x.
      split; [by apply list_elem_of_In|]. by apply bool_decide_eq_true.
Qed.

Lemma newly_acked_spec f hist :
  increasing hist → ack_consistent f →
  newly_acked (LowestAcked f) (LargestAcked f) (reverse (AckRanges f)) hist = Ok (filter (acks f) hist).
Proof.
  intros Hs Hf. destruct (decide (AckRanges f = [])) as [E|E].
  - rewrite E, reverse_nil, newly_acked_plain by done. f_equal. apply list_filter_iff. intros p.
    unfold acks. rewrite acks_packet_iff, E. tauto.
  - destruct (ack_consistent_climb f Hf E) as [Hc Hl].
    rewrite (newly_acked_filter _ _ []); [|done|done| |done|done].
    + f_equal. apply list_filter_iff. intros p. unfold acks. rewrite acks_packet_iff.
      cbn [app]. rewrite !Exists_exists. setoid_rewrite elem_of_reverse. naive_solver.
    + intros Er. apply E. by rewrite <-(reverse_involutive (AckRanges f)), Er.
Qed.

(** * What every operation keeps *)

Lemma sorted_sublist {A} (R : A → A → Prop) (l k : list A) :
  l `sublist_of` k → StronglySorted R k → StronglySorted R l.
Proof.
  induction 1 as [|x l k Hlk IH|x l k Hlk IH]; intros Hs; [done|..];
    apply StronglySorted_inv in Hs as [Hs Hx]; [|auto]. constructor; [auto|].
  rewrite Forall_forall in Hx |- *. intros y Hy. apply Hx. by eapply elem_of_sublist.
Qed.

Lemma forall_sublist {A} (P : A → Prop) (l k : list A) : l `sublist_of` k → Forall P k → Forall P l.
Proof. induction 1; intros HF; [done|..]; apply Forall_cons in HF as []; auto. Qed.

Lemma bytes_of_perm l k : l ≡ₚ k → bytes_of l = bytes_of k.
Proof. induction 1; cbn [bytes_of]; lia. Qed.

Section invariant.
Context {C : Type} `{!SendAlgorithm C}.
Implicit Types h : sentPacketHandler C.

Record sent_ok h : Prop := {
  so_increasing : increasing (packetHistory h);
  so_sent : Forall (λ p, PktNumber p ≤ lastSentPacketNumber h) (packetHistory h);
  so_frames : Forall (λ p, PktFrames p ≠ [] ∧ Forall (λ f, IsFrameRetransmittable f = true) (PktFrames p) ∧
                           PktSendTime p ≠ None) (packetHistory h);
  so_bytes : bytesInFlight h = u64 (bytes_of (packetHistory h));
  so_skipped : zlen (skippedPackets h) ≤ MaxTrackedSkippedPackets;
  so_skipped_sorted : StronglySorted Z.lt (skippedPackets h);
  so_skipped_sent : Forall (λ n, n < lastSentPacketNumber h) (skippedPackets h);
  so_disjoint : Forall (λ p, PktNumber p ∉ skippedPackets h) (packetHistory h);
  so_time : packetHistory h ≠ [] → lastSentTime h ≠ None
}.

(** A step that takes [acked] and [lost] out of the history and queues [lost]. *)
Record moved h h' (acked lost : list Packet) : Prop := {
  mv_hist : packetHistory h' `sublist_of` packetHistory h;
  mv_perm : packetHistory h ≡ₚ packetHistory h' ++ acked ++ lost;
  mv_queue : retransmissionQueue h' = retransmissionQueue h ++ lost;
  mv_bytes : bytesInFlight h' = u64 (bytesInFlight h - bytes_of (acked ++ lost));
  mv_last : lastSentPacketNumber h' = lastSentPacketNumber h;
  mv_skipped : skippedPackets h' `sublist_of` skippedPackets h;
  mv_time : lastSentTime h' = lastSentTime h
}.

Lemma moved_same h h' :
  packetHistory h' = packetHistory h → retransmissionQueue h' = retransmissionQueue h →
  bytesInFlight h' = bytesInFlight h → u64 (bytesInFlight h) = bytesInFlight h →
  lastSentPacketNumber h' = lastSentPacketNumber h → skippedPackets h' `sublist_of` skippedPackets h →
  lastSentTime h' = lastSentTime h → moved h h' [] [].
Proof.
  intros E1 E2 E3 E4 E5 E6 E7. split; rewrite ?E1, ?E2, ?E3, ?app_nil_r; try done.
  cbn [app bytes_of]. by rewrite Z.sub_0_r.
Qed.

Lemma moved_trans h h1 h2 a a' l l' :
  moved h h1 a l → moved h1 h2 a' l' → moved h h2 (a ++ a') (l ++ l').
Proof.
  intros [H1 H2 H3 H4 H5 H6 H7] [K1 K2 K3 K4 K5 K6 K7]. split; try (by etrans).
  - rewrite H2, K2. solve_Permutation.
  - by rewrite K3, H3, app_assoc.
  - rewrite K4, H4, u64_sub_l, !bytes_of_app. f_equal. lia.
Qed.

Lemma sent_ok_moved h h' a l : sent_ok h → moved h h' a l → sent_ok h'.
Proof.
  intros [S1 S2 S3 S4 S5 S6 S7 S8 S9] [H1 H2 H3 H4 H5 H6 H7]. split; rewrite ?H5, ?H7.
  - by eapply sorted_sublist.
  - by eapply forall_sublist.
  - by eapply forall_sublist.
  - rewrite H4, S4, u64_sub_l. f_equal. rewrite (bytes_of_perm _ _ H2), bytes_of_app. lia.
  - apply sublist_length in H6. unfold zlen in *. lia.
  - by eapply sorted_sublist.
  - by eapply forall_sublist.
  - eapply forall_sublist; [done|]. eapply Forall_impl; [apply S8|]. cbn. intros p Hp Hs. apply Hp.
    by eapply elem_of_sublist.
  - intros Hne. apply S9. intros E. rewrite E in H1. by apply sublist_nil_r in H1.
Qed.

Lemma sent_ok_range h : sent_ok h → u64 (bytesInFlight h) = bytesInFlight h.
Proof. intros Hok. rewrite (so_bytes h Hok). apply u64_idem. Qed.

(** ** The operations that move packets *)

Lemma detect_moved h now :
  sent_ok h → moved h (detectLostPackets h now) [] (filter (late h now) (packetHistory h)).
Proof.
  intros Hok. destruct (detected h now) as (c & s & ->); [apply so_increasing, Hok|by apply sent_ok_range|].
  split; cbn; try done; [apply sublist_filter|].
  by rewrite Permutation_app_comm, filter_app_complement.
Qed.

Lemma inflight_lost_moved h :
  sent_ok h → moved h (SetInflightAsLost h) [] (filter (old h) (packetHistory h)).
Proof.
  intros Hok. destruct (all_lost h) as (c & s & ->); [apply so_increasing, Hok|by apply sent_ok_range|].
  split; cbn; try done; [apply sublist_filter|].
  by rewrite Permutation_app_comm, filter_app_complement.
Qed.

Lemma acked_moved clock h f :
  sent_ok h →
  moved h (foldl (ack_packet clock) h (filter (acks f) (packetHistory h))) (filter (acks f) (packetHistory h)) [].
Proof.
  intros Hok. destruct (ack_all clock h (filter (acks f) (packetHistory h))) as (c & ->); [by apply sent_ok_range|].
  rewrite remove_filtered by apply so_increasing, Hok.
  split; cbn; rewrite ?app_nil_r; try done; [apply sublist_filter|].
  by rewrite Permutation_app_comm, filter_app_complement.
Qed.

Lemma one_queued h p : sent_ok h → p ∈ packetHistory h → moved h (queuePacketForRetransmission h p) [] [p].
Proof.
  intros Hok Hp. pose proof (so_increasing h Hok) as Hi. split; cbn; try done.
  - rewrite remove_element_filter by done. apply sublist_filter.
  - rewrite remove_element_filter by done.
    rewrite <-(filter_app_complement (λ q, PktNumber q ≠ PktNumber p)) at 1. f_equiv.
    revert Hp Hi. generalize (packetHistory h). induction l as [|q l IH]; [by intros ?%elem_of_nil|].
    intros Hp [Hi Hq]%StronglySorted_inv. rewrite Forall_forall in Hq. rewrite filter_cons.
    destruct (decide (¬ PktNumber q ≠ PktNumber p)) as [E|E].
    + apply dec_stable in E. apply elem_of_cons in Hp as [->|Hp]; [|specialize (Hq p Hp); cbn in Hq; lia].
      f_equiv. destruct (filter _ l) as [|r k] eqn:El; [done|].
      assert (r ∈ filter (λ x, ¬ PktNumber x ≠ PktNumber q) l) as Hr by (rewrite El; by left).
      apply list_elem_of_filter in Hr as [Hr Hr']. specialize (Hq r Hr'). cbn in Hq. lia.
    + apply IH; [|done]. apply elem_of_cons in Hp as [->|]; [|done]. exfalso. apply E. intros ?. done.
  - cbn [bytes_of]. by rewrite Z.add_0_r.
Qed.

Lemma oldest_moved h :
  sent_ok h → ∃ l, moved h (retransmitOldestPacket h) [] l ∧ l = take 1 (packetHistory h).
Proof.
  intros Hok. unfold retransmitOldestPacket. destruct (packetHistory h) as [|p hist] eqn:E.
  - exists []. split; [|done]. apply moved_same; try done. by apply sent_ok_range.
  - exists [p]. split; [|done]. unfold queueRTO.
    destruct (one_queued h p Hok) as [H1 H2 H3 H4 H5 H6 H7]; [rewrite E; by left|].
    split; cbn; done.
Qed.

Lemma back_moved h : sent_ok h → ∃ l, moved h (retransmitTLP h) [] l ∧ (packetHistory h ≠ [] → l ≠ []).
Proof.
  intros Hok. unfold retransmitTLP. destruct (last (packetHistory h)) as [p|] eqn:E.
  - exists [p]. split; [|done]. apply one_queued; [done|]. by apply last_Some_elem_of.
  - apply last_None in E. exists []. split; [|by rewrite E]. apply moved_same; try done. by apply sent_ok_range.
Qed.

Lemma all_moved h : sent_ok h → moved h (retransmitAllPackets h) [] (packetHistory h).
Proof.
  intros Hok. unfold retransmitAllPackets.
  destruct (while_retransmitted h (length (packetHistory h))) as (c & s & l & ->);
    [by apply sent_ok_range|done|].
  split; cbn; try done. apply sublist_nil_l.
Qed.

Lemma two_moved h : sent_ok h → moved h (retransmitOldestTwoPackets h) [] (take 2 (packetHistory h)).
Proof.
  intros Hok. unfold retransmitOldestTwoPackets. destruct (oldest_moved h Hok) as (l & Hm & ->).
  destruct (oldest_moved _ (sent_ok_moved _ _ _ _ Hok Hm)) as (l' & Hm' & ->).
  pose proof (moved_trans _ _ _ _ _ _ _ Hm Hm') as Ht. cbn [app] in Ht.
  assert (take 1 (packetHistory h) ++ take 1 (packetHistory (retransmitOldestPacket h)) =
          take 2 (packetHistory h)) as <-.
  { unfold retransmitOldestPacket. destruct (packetHistory h) as [|p [|q hist]] eqn:E;
      cbn; rewrite ?E; cbn; rewrite ?decide_True by done; done. }
  destruct Ht. by split.
Qed.
End invariant.

(** * Skipped packet numbers *)

Lemma skip_packets_spec n p l :
  zlen l ≤ MaxTrackedSkippedPackets → StronglySorted Z.lt l → Forall (λ m, m < p) l →
  zlen (skip_packets n p l) ≤ MaxTrackedSkippedPackets ∧ StronglySorted Z.lt (skip_packets n p l) ∧
  Forall (λ m, m < p + Z.of_nat n) (skip_packets n p l) ∧
  Forall (λ m, m ∈ l ∨ p ≤ m) (skip_packets n p l).
Proof.
  revert p l. induction n as [|n IH]; intros p l Hl Hs Hp; cbn [skip_packets].
  { split_and!; try done.
    - eapply Forall_impl; [apply Hp|]. cbn. lia.
    - apply Forall_forall. by left. }
  assert (StronglySorted Z.lt (l ++ [p])) as Hs'.
  { apply StronglySorted_app. split_and!; [|done|by repeat constructor].
    intros x y Hx ->%list_elem_of_singleton. rewrite Forall_forall in Hp. by apply Hp. }
  assert (Forall (λ m, m < p + 1) (l ++ [p])) as Hp'.
  { apply Forall_app. split; [|repeat constructor; lia]. eapply Forall_impl; [apply Hp|]. cbn. lia. }
  set (k := if decide (MaxTrackedSkippedPackets < zlen (l ++ [p])) then tail (l ++ [p]) else l ++ [p]).
  assert (k `sublist_of` l ++ [p]) as Hk.
  { subst k. case_decide; [|done]. destruct (l ++ [p]); [done|]. by constructor. }
  assert (zlen k ≤ MaxTrackedSkippedPackets) as Hlen.
  { subst k. case_decide as Hc; [|lia].
    revert Hc. rewrite zlen_app. unfold zlen in *. destruct l; cbn [app tail length]; [done|].
    rewrite length_app. cbn [length] in *. lia. }
  destruct (IH (p + 1) k) as (I1 & I2 & I3 & I4); [done|by eapply sorted_sublist|by eapply forall_sublist|].
  split_and!; try done.
  - eapply Forall_impl; [apply I3|]. cbn. lia.
  - eapply Forall_impl; [apply I4|]. cbn. intros m [Hm|Hm]; [|right; lia].
    eapply elem_of_sublist in Hm; [|apply Hk]. apply elem_of_app in Hm as [Hm|Hm]; [by left|].
    apply list_elem_of_singleton in Hm. right. lia.
Qed.

Lemma none_settled lioa p l : lioa < p → Forall (Z.lt p) l → filter (λ n, n ≤ lioa) l = [].
Proof.
  intros Hp HF. destruct (filter _ l) as [|q k] eqn:E; [done|].
  assert (q ∈ filter (λ n, n ≤ lioa) l) as Hq by (rewrite E; by left).
  apply list_elem_of_filter in Hq as [Hle Hq]. rewrite Forall_forall in HF. specialize (HF q Hq). lia.
Qed.

Lemma delete_index_spec lioa i l d :
  StronglySorted Z.lt l →
  delete_index lioa i l d =
  if decide (filter (λ n, n ≤ lioa) l = []) then d else Nat.add i (length (filter (λ n, n ≤ lioa) l)).
Proof.
  intros Hs. revert i d. induction Hs as [|p l Hl IH Hp]; intros i d; [done|].
  cbn [delete_index]. rewrite IH, filter_cons. destruct (decide (p ≤ lioa)) as [H|H].
  - rewrite (decide_False (P := p :: _ = [])) by done. cbn [length].
    case_decide as E; [rewrite E; cbn; lia|lia].
  - rewrite (none_settled lioa p) by (done || lia). done.
Qed.

(** Garbage collection keeps the skipped packets that are not settled. *)
Lemma drop_settled lioa l :
  StronglySorted Z.lt l → drop (delete_index lioa 0 l 0) l = filter (λ n, lioa < n) l.
Proof.
  intros Hs. rewrite delete_index_spec by done.
  assert (drop (length (filter (λ n, n ≤ lioa) l)) l = filter (λ n, lioa < n) l) as <-.
  { induction Hs as [|p l Hl IH Hp]; [done|]. rewrite !filter_cons.
    destruct (decide (p ≤ lioa)) as [H|H].
    - rewrite (decide_False (P := lioa < p)) by lia. done.
    - rewrite (decide_True (P := lioa < p)) by lia.
      rewrite (none_settled lioa p) in IH |- * by (done || lia).
      cbn [length drop] in IH |- *. by rewrite <-IH. }
  case_decide as E; [rewrite E|]; done.
Qed.

(** * Acknowledgements, in full *)

Section ack.
Context {C : Type} `{!SendAlgorithm C}.
Implicit Types h : sentPacketHandler C.

Definition ack_accepted h (f : AckFrame) (withPacketNumber : Z) : Prop :=
  LargestAcked f ≤ lastSentPacketNumber h ∧ largestReceivedPacketWithAck h < withPacketNumber ∧
  largestInOrderAcked h < LargestAcked f ∧ skippedPacketsAcked h f = false.
#[export] Instance ack_accepted_dec h f w : Decision (ack_accepted h f w).
Proof. unfold ack_accepted. apply _. Defined.

(** The statistics with the round trip of the largest acknowledged packet. *)
Definition stats_after h (f : AckFrame) (rcvTime now : Z) : RTTStats :=
  match send_time_of (LargestAcked f) (packetHistory h) with
  | Some t => UpdateRTT (rttStats h) (time_since rcvTime t) (DelayTime f) now
  | None => rttStats h
  end.

Lemma alarm_updated h :
  ∃ al, updateLossDetectionAlarm h = set_timers h (rtoCount h) (tlpCount h) (lossTime h) al (losses h).
Proof.
  unfold updateLossDetectionAlarm. case_decide; [by eexists|].
  destruct (lossTime h); [by eexists|]. case_decide; by eexists.
Qed.

Record ack_outcome h (f : AckFrame) (withPacketNumber rcvTime rttNow now : Z) h' : Prop := {
  ao_largest : largestAcked h' = LargestAcked f;
  ao_with : largestReceivedPacketWithAck h' = withPacketNumber;
  ao_stats : rttStats h' = stats_after h f rcvTime rttNow;
  ao_history : packetHistory h' = filter (λ p, ¬ late h' now p) (filter (λ p, ¬ acks f p) (packetHistory h));
  ao_queue : retransmissionQueue h' =
             retransmissionQueue h ++ filter (late h' now) (filter (λ p, ¬ acks f p) (packetHistory h));
  ao_bytes : bytesInFlight h' = u64 (bytes_of (packetHistory h'));
  ao_skipped : skippedPackets h' = filter (λ n, largestInOrderAcked h' < n) (skippedPackets h);
  ao_counts : Exists (acks f) (packetHistory h) → rtoCount h' = 0 ∧ tlpCount h' = 0;
  ao_losses : losses h' = u64 (losses h + zlen (filter (late h' now) (filter (λ p, ¬ acks f p) (packetHistory h))));
  ao_loss : lossTime h' = (scan_lost (largestAcked h') now (delayUntilLost (rttStats h'))
                             (filter (λ p, ¬ acks f p) (packetHistory h)) None).2;
  ao_last : lastSentPacketNumber h' = lastSentPacketNumber h;
  ao_time : lastSentTime h' = lastSentTime h
}.

Lemma ack_effect h f w rcvTime rttNow clock now :
  sent_ok h → ack_consistent f → ack_accepted h f w →
  (sent_ReceivedAck h f w rcvTime rttNow clock now).2 = None ∧
  ack_outcome h f w rcvTime rttNow now (sent_ReceivedAck h f w rcvTime rttNow clock now).1.
Proof.
  intros Hok Hf (Ha1 & Ha2 & Ha3 & Ha4). unfold sent_ReceivedAck.
  rewrite decide_False by lia. rewrite decide_False by lia.
  change (largestInOrderAcked (set_acked h _ _ _ _ _)) with (largestInOrderAcked h).
  rewrite decide_False by lia.
  change (skippedPacketsAcked (set_acked _ _ _ _ _ _) f) with (skippedPacketsAcked h f). rewrite Ha4.
  set (r := stats_after h f rcvTime rttNow).
  set (h1 := set_acked (set_acked h _ _ _ _ _) _ _ _ _ _).
  assert (∃ c b, (let '(h, rttUpdated) := maybeUpdateRTT h1 (LargestAcked f) (DelayTime f) rcvTime rttNow in
                (if (rttUpdated : bool) then set_congestion h (MaybeExitSlowStart (rttStats h) (congestion h)) else h, rttUpdated)) =
                (set_congestion (set_acked h (LargestAcked f) w (skippedPackets h) (stopWaiting h) r) c, b))
    as (c & b & E1).
  { unfold maybeUpdateRTT. cbn [packetHistory h1 set_acked]. unfold r, stats_after.
    destruct (send_time_of _ _); eexists _, _; reflexivity. }
  destruct (maybeUpdateRTT _ _ _ _ _) as [h1' b'] eqn:E1'. injection E1 as E1 ->. cbn beta iota zeta.
  rewrite E1. clear E1 E1' h1'. set (h2 := set_congestion _ c).
  assert (determineNewlyAckedPackets h2 f = Ok (filter (acks f) (packetHistory h))) as ->.
  { apply newly_acked_spec; [apply so_increasing, Hok|done]. }
  destruct (ack_all clock h2 (filter (acks f) (packetHistory h))) as (c3 & ->); [by apply (sent_ok_range h)|].
  set (acked := filter (acks f) (packetHistory h)). set (h3 := set_congestion _ c3).
  assert (packetHistory h3 = filter (λ p, ¬ acks f p) (packetHistory h)) as E3.
  { apply remove_filtered, so_increasing, Hok. }
  destruct (detected h3 now) as (c4 & s4 & E4).
  { rewrite E3. apply increasing_filter, so_increasing, Hok. }
  { apply u64_idem. }
  destruct (alarm_updated (detectLostPackets h3 now)) as (al & ->). rewrite E4.
  split; [done|].
  assert (bytesInFlight h3 = u64 (bytes_of (packetHistory h3))) as E5.
  { cbn. change (remove_elements _ _) with (packetHistory h3). rewrite E3, (so_bytes h Hok), u64_sub_l. f_equal.
    rewrite (bytes_of_filter (acks f) (packetHistory h)). unfold acked. lia. }
  split; try done.
  - cbn. change (remove_elements _ _) with (packetHistory h3). by rewrite E3.
  - cbn. change (remove_elements _ _) with (packetHistory h3). by rewrite E3.
  - cbn. change (u64 (bytesInFlight h - bytes_of acked)) with (bytesInFlight h3).
    change (remove_elements _ _) with (packetHistory h3). rewrite E5, u64_sub_l. f_equal.
    rewrite (bytes_of_filter (late h3 now) (packetHistory h3)). lia.
  - cbn. apply drop_settled, Hok.
  - cbn. intros Hex%Exists_exists. destruct Hex as (p & Hp & Hpa).
    destruct (decide (acked = [])) as [E|E]; [|split; reflexivity].
    by destruct (filter_nil_not_elem_of _ _ p E Hpa).
  - cbn. change (remove_elements _ _) with (packetHistory h3). by rewrite E3.
  - cbn. change (remove_elements _ _) with (packetHistory h3). by rewrite E3.
Qed.

(** Other ACKs leave the packets where they are. *)
Lemma ack_refused h f w rcvTime rttNow clock now :
  sent_ok h → ¬ ack_accepted h f w → moved h (sent_ReceivedAck h f w rcvTime rttNow clock now).1 [] [].
Proof.
  intros Hb%sent_ok_range Hna. unfold sent_ReceivedAck. unfold ack_accepted in Hna.
  case_decide as H1; [by apply moved_same|]. case_decide as H2; [by apply moved_same|].
  change (largestInOrderAcked (set_acked h _ _ _ _ _)) with (largestInOrderAcked h).
  case_decide as H3; [by apply moved_same|].
  change (skippedPacketsAcked (set_acked _ _ _ _ _ _) f) with (skippedPacketsAcked h f).
  destruct (skippedPacketsAcked h f) eqn:E; [by apply moved_same|].
  exfalso. apply Hna. split_and!; lia || done.
Qed.

Lemma outcome_moved h f w rcvTime rttNow now h' :
  sent_ok h → ack_outcome h f w rcvTime rttNow now h' →
  moved h h' (filter (acks f) (packetHistory h))
    (filter (late h' now) (filter (λ p, ¬ acks f p) (packetHistory h))).
Proof.
  intros Hok Ho. destruct Ho as [A1 A2 A3 A4 A5 A6 A7 A8 A9 A10 A11 A12].
  assert (packetHistory h ≡ₚ packetHistory h' ++ filter (acks f) (packetHistory h) ++
    filter (late h' now) (filter (λ p, ¬ acks f p) (packetHistory h))) as Hp.
  { rewrite A4. rewrite <-(filter_app_complement (acks f) (packetHistory h)) at 1.
    rewrite <-(filter_app_complement (late h' now) (filter (λ p, ¬ acks f p) (packetHistory h))) at 1.
    solve_Permutation. }
  split; try done.
  - rewrite A4. etrans; apply sublist_filter.
  - rewrite A6, (so_bytes h Hok), u64_sub_l. f_equal.
    rewrite (bytes_of_perm _ _ Hp), bytes_of_app. lia.
  - rewrite A7. apply sublist_filter.
Qed.

(** ** CLOSE_PATH *)

Definition close_accepted h (f : ClosePathFrame) (withPacketNumber : Z) : Prop :=
  CLargestAcked f ≤ lastSentPacketNumber h ∧ largestReceivedPacketWithAck h < withPacketNumber ∧
  skippedPacketsAckedClosePath h f = false.
#[export] Instance close_accepted_dec h f w : Decision (close_accepted h f w).
Proof. unfold close_accepted. apply _. Defined.

Lemma close_moved h f w clock :
  sent_ok h → ack_consistent (as_ack f) →
  let acked := filter (acks (as_ack f)) (packetHistory h) in
  let rest := filter (λ p, ¬ acks (as_ack f) p) (packetHistory h) in
  let '(h', e) := ReceivedClosePath h f w clock in
  if decide (close_accepted h f w)
  then e = None ∧ moved h h' acked (filter (old h) rest) else moved h h' [] [].
Proof.
  intros Hok Hf. pose proof (sent_ok_range h Hok) as Hb. unfold ReceivedClosePath.
  destruct (decide (close_accepted h f w)) as [(H1 & H2 & H3)|Hna].
  - rewrite decide_False by lia. rewrite decide_False by lia.
    set (h1 := set_acked h _ _ _ _ _).
    change (skippedPacketsAckedClosePath h1 f) with (skippedPacketsAckedClosePath h f). rewrite H3.
    assert (determineNewlyAckedPacketsClosePath h1 f = Ok (filter (acks (as_ack f)) (packetHistory h1))) as ->.
    { apply (newly_acked_spec (as_ack f)); [exact (so_increasing h Hok)|done]. }
    assert (moved h h1 [] []) as M1 by (by apply moved_same).
    pose proof (sent_ok_moved _ _ _ _ Hok M1) as O1.
    pose proof (acked_moved clock h1 (as_ack f) O1) as M2.
    set (h2 := foldl _ _ _) in *.
    pose proof (sent_ok_moved _ _ _ _ O1 M2) as O2.
    pose proof (inflight_lost_moved h2 O2) as M3.
    pose proof (sent_ok_moved _ _ _ _ O2 M3) as O3.
    assert (moved (SetInflightAsLost h2) (garbageCollectSkippedPackets (SetInflightAsLost h2)) [] []) as M4.
    { apply moved_same; try done; [by apply sent_ok_range|]. cbn. apply sublist_drop. }
    split; [done|].
    pose proof (moved_trans _ _ _ _ _ _ _ M1 (moved_trans _ _ _ _ _ _ _ M2 (moved_trans _ _ _ _ _ _ _ M3 M4))) as M.
    rewrite !app_nil_r in M. cbn [app] in M.
    destruct (ack_all clock h1 (filter (acks (as_ack f)) (packetHistory h1))) as (c & E);
      [by apply sent_ok_range|]. fold h2 in E.
    rewrite remove_filtered in E by apply so_increasing, O1.
    rewrite (list_filter_iff (old h2) (old h)) in M by (intros p; unfold old; by rewrite E).
    by replace (packetHistory h2) with (filter (λ p, ¬ acks (as_ack f) p) (packetHistory h)) in M by (by rewrite E).
  - case_decide; [by apply moved_same|]. case_decide; [by apply moved_same|].
    set (h1 := set_acked h _ _ _ _ _).
    change (skippedPacketsAckedClosePath h1 f) with (skippedPacketsAckedClosePath h f).
    destruct (skippedPacketsAckedClosePath h f) eqn:E; [by apply moved_same|].
    exfalso. apply Hna. split_and!; lia || done.
Qed.
End ack.

(** * Runs *)

Lemma strip_strip fs :
  filter (λ f, Is_true (match f with FAck _ => false | FStopWaiting _ => false | _ => true end))
    (stripNonRetransmittableFrames fs) =
  filter (λ f, Is_true (match f with FAck _ => false | FStopWaiting _ => false | _ => true end)) fs.
Proof.
  unfold stripNonRetransmittableFrames. rewrite list_filter_filter. apply list_filter_iff.
  intros []; cbn; tauto.
Qed.

Section runs.
Context {C : Type} `{!SendAlgorithm C}.
Implicit Types h : sentPacketHandler C.

Lemma moved_then h h1 h2 a l :
  sent_ok h → moved h h1 a l →
  packetHistory h2 = packetHistory h1 → retransmissionQueue h2 = retransmissionQueue h1 →
  bytesInFlight h2 = bytesInFlight h1 → lastSentPacketNumber h2 = lastSentPacketNumber h1 →
  skippedPackets h2 = skippedPackets h1 → lastSentTime h2 = lastSentTime h1 → moved h h2 a l.
Proof.
  intros Hok M E1 E2 E3 E4 E5 E6. pose proof (sent_ok_range _ (sent_ok_moved _ _ _ _ Hok M)) as Hr.
  rewrite <-(app_nil_r a), <-(app_nil_r l). eapply moved_trans; [done|].
  apply moved_same; try done. by rewrite E5.
Qed.

Lemma alarm_then h h1 a l : sent_ok h → moved h h1 a l → moved h (updateLossDetectionAlarm h1) a l.
Proof.
  intros Hok M. destruct (alarm_updated h1) as (al & ->). by apply (moved_then h h1).
Qed.

(** Rearming the alarm with other counters moves nothing. *)
Lemma alarm_rearmed h h1 l rto tlp :
  sent_ok h → moved h h1 [] l →
  let h2 := updateLossDetectionAlarm (set_timers h1 rto tlp (lossTime h1) (alarm h1) (losses h1)) in
  moved h h2 [] l ∧ lossTime h2 = lossTime h1 ∧ rttStats h2 = rttStats h1 ∧ largestAcked h2 = largestAcked h1.
Proof.
  intros Hok M h2. unfold h2. split; [by apply alarm_then, (moved_then h h1)|].
  by destruct (alarm_updated (set_timers h1 rto tlp (lossTime h1) (alarm h1) (losses h1))) as (al & ->).
Qed.

Lemma retransmit_keeps h :
  u64 (bytesInFlight h) = bytesInFlight h →
  Forall (λ h', lossTime h' = lossTime h ∧ rttStats h' = rttStats h ∧ largestAcked h' = largestAcked h)
    [retransmitTLP h; retransmitAllPackets h; retransmitOldestTwoPackets h].
Proof.
  intros Hr. rewrite !Forall_cons. split; [|split; [|split; [|done]]].
  - unfold retransmitTLP. by destruct (last (packetHistory h)).
  - unfold retransmitAllPackets.
    by destruct (while_retransmitted h (length (packetHistory h))) as (c & s & l & ->).
  - unfold retransmitOldestTwoPackets. destruct (packetHistory h) as [|p [|q hist]] eqn:E.
    + unfold retransmitOldestPacket. rewrite E. cbn. by rewrite E.
    + by destruct (oldest_retransmitted p [] h E) as (c & s & ->).
    + destruct (oldest_retransmitted p (q :: hist) h E) as (c & s & ->).
      by edestruct (oldest_retransmitted q hist) as (c' & s' & ->).
Qed.

(** The packets an alarm queues, and what it leaves alone. *)
Lemma alarm_moved h now rto :
  sent_ok h →
  ∃ lost, moved h (OnAlarm h now rto) [] lost ∧
    rttStats (OnAlarm h now rto) = rttStats h ∧ largestAcked (OnAlarm h now rto) = largestAcked h ∧
    match lossTime h with
    | Some _ => hasOutstandingRetransmittablePacket h = true →
        lost = filter (late h now) (packetHistory h) ∧
        packetHistory (OnAlarm h now rto) = filter (λ p, ¬ late h now p) (packetHistory h) ∧
        lossTime (OnAlarm h now rto) =
          (scan_lost (largestAcked h) now (delayUntilLost (rttStats h)) (packetHistory h) None).2
    | None => lossTime (OnAlarm h now rto) = None ∧
        (hasOutstandingRetransmittablePacket h = true → lost ≠ [])
    end.
Proof.
  intros Hok. pose proof (sent_ok_range h Hok) as Hr. unfold OnAlarm.
  destruct (hasOutstandingRetransmittablePacket h) eqn:Ho; [|].
  2:{ exists []. split_and!; try done; [by apply moved_same|]. by destruct (lossTime h). }
  assert (packetHistory h ≠ []) as Hne.
  { intros E. unfold hasOutstandingRetransmittablePacket in Ho. by rewrite E in Ho. }
  destruct (lossTime h) as [t|] eqn:El.
  - exists (filter (late h now) (packetHistory h)). split; [by apply alarm_then, detect_moved|].
    destruct (alarm_updated (detectLostPackets h now)) as (al & ->).
    destruct (detected h now) as (c & s & ->); [apply so_increasing, Hok|done|]. done.
  - pose proof (retransmit_keeps h Hr) as HF.
    apply Forall_cons in HF as [(A1 & A2 & A3) HF]. apply Forall_cons in HF as [(B1 & B2 & B3) HF].
    apply Forall_cons in HF as [(D1 & D2 & D3) _].
    destruct (decide (tlpCount h < maxTailLossProbes)); [|destruct (default false rto)].
    + destruct (back_moved h Hok) as (k & M & Hk).
      destruct (alarm_rearmed h _ k (rtoCount (retransmitTLP h)) (u32 (tlpCount (retransmitTLP h) + 1)) Hok M)
        as (M' & -> & -> & ->).
      exists k. split; [done|]. rewrite A1, A2, A3. split_and!; auto.
    + destruct (alarm_rearmed h _ _ (u32 (rtoCount (retransmitAllPackets h) + 1))
        (tlpCount (retransmitAllPackets h)) Hok (all_moved h Hok)) as (M' & -> & -> & ->).
      exists (packetHistory h). split; [done|]. rewrite B1, B2, B3. split_and!; auto.
    + destruct (alarm_rearmed h _ _ (u32 (rtoCount (retransmitOldestTwoPackets h) + 1))
        (tlpCount (retransmitOldestTwoPackets h)) Hok (two_moved h Hok)) as (M' & -> & -> & ->).
      exists (take 2 (packetHistory h)). split; [done|]. rewrite D1, D2, D3. split_and!; auto.
      intros _. destruct (packetHistory h); done.
Qed.

(** ** Sending *)

Lemma strip_retransmittable fs :
  Forall (λ f, IsFrameRetransmittable f = true) (stripNonRetransmittableFrames fs).
Proof.
  apply Forall_forall. intros f Hf. apply list_elem_of_filter in Hf as [Hf _]. by apply Is_true_true.
Qed.

Definition sendable h (p : Packet) : Prop :=
  lastSentPacketNumber h < PktNumber p ∧
  u64 (zlen (retransmissionQueue h) + zlen (packetHistory h) + 1) ≤ MaxTrackedSentPackets.
#[export] Instance sendable_dec h p : Decision (sendable h p).
Proof. unfold sendable. apply _. Defined.

(** The packet as the history keeps it. *)
Definition stored (p : Packet) (now : Z) : Packet := {|
  PktNumber := PktNumber p; PktFrames := stripNonRetransmittableFrames (PktFrames p);
  PktLength := PktLength p; PktEncryptionLevel := PktEncryptionLevel p; PktSendTime := Some now
|}.

Record send_outcome h (p : Packet) (now : Z) h' : Prop := {
  sd_history : packetHistory h' = packetHistory h ++
    (if decide (stripNonRetransmittableFrames (PktFrames p) = []) then [] else [stored p now]);
  sd_bytes : bytesInFlight h' =
    if decide (stripNonRetransmittableFrames (PktFrames p) = []) then bytesInFlight h
    else u64 (bytesInFlight h + PktLength p);
  sd_queue : retransmissionQueue h' = retransmissionQueue h;
  sd_last : lastSentPacketNumber h' = PktNumber p;
  sd_skipped : skippedPackets h' = skip_packets (Z.to_nat (PktNumber p - (lastSentPacketNumber h + 1)))
                                     (lastSentPacketNumber h + 1) (skippedPackets h);
  sd_time : lastSentTime h' = Some now
}.

Lemma send_effect h p now :
  if decide (sendable h p)
  then (SentPacket h p now).2 = None ∧ send_outcome h p now (SentPacket h p now).1
  else (SentPacket h p now).2 ≠ None ∧ (SentPacket h p now).1 = h.
Proof.
  unfold SentPacket, sendable.
  destruct (decide (PktNumber p ≤ lastSentPacketNumber h)) as [H1|H1];
    [rewrite decide_False by (intros [? ?]; lia); done|].
  destruct (decide (MaxTrackedSentPackets < _)) as [H2|H2];
    [rewrite decide_False by (intros [? ?]; lia); done|].
  rewrite (decide_True (P := _ ∧ _)) by lia.
  destruct (decide (stripNonRetransmittableFrames (PktFrames p) = [])) as [E|E].
  - rewrite bool_decide_eq_false_2 by (by intros ?). cbn zeta iota beta.
    destruct (OnPacketSent _ _ _ _ _ _) as [c b].
    match goal with |- context [updateLossDetectionAlarm ?x] => destruct (alarm_updated x) as (al & ->) end.
    split; [done|]. split; cbn; rewrite ?decide_True, ?app_nil_r by done; done.
  - rewrite bool_decide_eq_true_2 by done. cbn zeta iota beta.
    destruct (OnPacketSent _ _ _ _ _ _) as [c b].
    match goal with |- context [updateLossDetectionAlarm ?x] => destruct (alarm_updated x) as (al & ->) end.
    split; [done|]. split; cbn; rewrite ?decide_False by done; done.
Qed.

Lemma sent_ok_send h p now : sent_ok h → sent_ok (SentPacket h p now).1.
Proof.
  intros Hok. pose proof (send_effect h p now) as He. destruct (decide (sendable h p)) as [[Hs _]|];
    [|by destruct He as [_ ->]].
  destruct He as [_ [D1 D2 D3 D4 D5 D6]]. destruct Hok as [S1 S2 S3 S4 S5 S6 S7 S8 S9].
  destruct (skip_packets_spec (Z.to_nat (PktNumber p - (lastSentPacketNumber h + 1)))
    (lastSentPacketNumber h + 1) (skippedPackets h)) as (K1 & K2 & K3 & K4); [done..| |].
  { eapply Forall_impl; [apply S7|]. cbn. lia. }
  rewrite Z2Nat.id in K3 by lia.
  assert (Forall (λ q, PktNumber q < PktNumber p) (packetHistory h)) as Hlt.
  { eapply Forall_impl; [apply S2|]. cbn. lia. }
  split; rewrite ?D5.
  - rewrite D1. case_decide; [by rewrite app_nil_r|]. by apply increasing_app_one.
  - rewrite D1, D4. apply Forall_app. split.
    + eapply Forall_impl; [apply S2|]. cbn. lia.
    + case_decide; repeat constructor; cbn; lia.
  - rewrite D1. apply Forall_app. split; [done|]. case_decide; repeat constructor; cbn; try done.
    apply strip_retransmittable.
  - rewrite D1, D2, S4, bytes_of_app. case_decide; cbn [bytes_of]; [by rewrite Z.add_0_r|].
    rewrite u64_add_l. cbn. by rewrite Z.add_0_r.
  - done.
  - done.
  - rewrite D4. eapply Forall_impl; [apply K3|]. cbn. lia.
  - rewrite D1. rewrite Forall_forall in K3, K4. apply Forall_app. split.
    + apply Forall_forall. intros q Hq Hin. rewrite Forall_forall in S2, S8. specialize (S2 q Hq). cbn in S2.
      destruct (K4 _ Hin) as [?|?]; [by apply (S8 q Hq)|lia].
    + case_decide; repeat constructor. cbn. intros Hin. specialize (K3 _ Hin). cbn in K3. lia.
  - rewrite D6. done.
Qed.
End runs.

(** ** Events and what became of every packet *)

Inductive sent_event : Type :=
| EvSend (p : Packet) (now : Z)
| EvAck (f : AckFrame) (withPacketNumber rcvTime rttNow : Z) (clock : Z → Z) (now : Z)
| EvClosePath (f : ClosePathFrame) (withPacketNumber : Z) (clock : Z → Z)
| EvInflightLost
| EvAlarm (now : Z) (rto : option bool)
| EvDequeue
| EvDuplicate (p : Packet)
| EvStopWaiting (force : bool).

(** Frames come from the parser, which validates their ranges. *)
Definition event_ok (e : sent_event) : Prop :=
  match e with
  | EvAck f _ _ _ _ _ => ack_consistent f
  | EvClosePath f _ _ => ack_consistent (as_ack f)
  | _ => True
  end.

(** A packet counts by its number and the frames that are to be sent again. *)
Definition key (p : Packet) : Z * list Frame := (PktNumber p, GetFramesForRetransmission p).

Record ledger : Type := {
  lg_sent : list (Z * list Frame); lg_duplicated : list (Z * list Frame);
  lg_acked : list (Z * list Frame); lg_taken : list (Z * list Frame)
}.
Definition empty_ledger : ledger := {| lg_sent := []; lg_duplicated := []; lg_acked := []; lg_taken := [] |}.
Definition credit (lg : ledger) (sent duplicated acked taken : list (Z * list Frame)) : ledger := {|
  lg_sent := lg_sent lg ++ sent; lg_duplicated := lg_duplicated lg ++ duplicated;
  lg_acked := lg_acked lg ++ acked; lg_taken := lg_taken lg ++ taken
|}.

Section ledger.
Context {C : Type} `{!SendAlgorithm C}.
Implicit Types h : sentPacketHandler C.

Definition sent_step h (e : sent_event) : sentPacketHandler C :=
  match e with
  | EvSend p now => (SentPacket h p now).1
  | EvAck f w rcv rttNow clock now => (sent_ReceivedAck h f w rcv rttNow clock now).1
  | EvClosePath f w clock => (ReceivedClosePath h f w clock).1
  | EvInflightLost => SetInflightAsLost h
  | EvAlarm now rto => OnAlarm h now rto
  | EvDequeue => (DequeuePacketForRetransmission h).1
  | EvDuplicate p => DuplicatePacket h p
  | EvStopWaiting force => (sent_GetStopWaitingFrame h force).1
  end.

(** Sent are the packets [SentPacket] takes with something to send again; acknowledged
    the ones in flight that an accepted frame acknowledges. *)
Definition account h (e : sent_event) (lg : ledger) : ledger :=
  match e with
  | EvSend p _ => credit lg (if decide (sendable h p ∧ HasRetransmittableFrames (PktFrames p) = true)
                             then [key p] else []) [] [] []
  | EvAck f w _ _ _ _ => credit lg [] [] (if decide (ack_accepted h f w)
                                          then key <$> filter (acks f) (packetHistory h) else []) []
  | EvClosePath f w _ => credit lg [] [] (if decide (close_accepted h f w)
                                          then key <$> filter (acks (as_ack f)) (packetHistory h) else []) []
  | EvDequeue => credit lg [] [] [] (match retransmissionQueue h with p :: _ => [key p] | [] => [] end)
  | EvDuplicate p => credit lg [] [key p] [] []
  | EvInflightLost | EvAlarm _ _ | EvStopWaiting _ => credit lg [] [] [] []
  end.

Inductive reachable : sentPacketHandler C → ledger → Prop :=
| reach_new stats cong : reachable (NewSentPacketHandler stats cong) empty_ledger
| reach_step h lg e : reachable h lg → event_ok e → reachable (sent_step h e) (account h e lg).

Definition balanced h (lg : ledger) : Prop :=
  lg_sent lg ++ lg_duplicated lg ≡ₚ
  (key <$> packetHistory h ++ retransmissionQueue h) ++ lg_acked lg ++ lg_taken lg.

Lemma balanced_moved h h' lg a l :
  balanced h lg → moved h h' a l → balanced h' (credit lg [] [] (key <$> a) []).
Proof.
  unfold balanced. intros Hb [_ Hp Hq _ _ _ _]. cbn. rewrite !app_nil_r, Hb, Hq, Hp.
  rewrite !fmap_app. solve_Permutation.
Qed.

Lemma sent_ok_new stats (cong : C) : sent_ok (NewSentPacketHandler stats cong).
Proof. split; cbn; try (by constructor); done. Qed.

Lemma has_retransmittable fs :
  HasRetransmittableFrames fs = bool_decide (stripNonRetransmittableFrames fs ≠ []).
Proof.
  unfold HasRetransmittableFrames, stripNonRetransmittableFrames.
  induction fs as [|f fs IH]; [done|]. cbn [existsb]. rewrite filter_cons.
  destruct (IsFrameRetransmittable f); cbn [orb]; rewrite ?IH; case_decide as H; try done.
Qed.

(** Steps other than sending, dequeuing and duplicating only move packets. *)
Lemma step_moved h lg e :
  sent_ok h → event_ok e →
  match e with
  | EvSend _ _ | EvDequeue | EvDuplicate _ => True
  | _ => ∃ a l, moved h (sent_step h e) a l ∧ account h e lg = credit lg [] [] (key <$> a) []
  end.
Proof.
  intros Hok He. pose proof (sent_ok_range h Hok) as Hr. destruct e; cbn [sent_step account event_ok] in *; try done.
  - destruct (decide (ack_accepted h f withPacketNumber)) as [Ha|Ha].
    + destruct (ack_effect h f withPacketNumber rcvTime rttNow clock now) as [_ Ho]; [done..|].
      eexists _, _. split; [by eapply outcome_moved|done].
    + exists [], []. split; [by apply ack_refused|done].
  - pose proof (close_moved h f withPacketNumber clock Hok He) as Hc. cbn zeta in Hc.
    destruct (ReceivedClosePath h f withPacketNumber clock) as [h' er].
    destruct (decide (close_accepted h f withPacketNumber)); cbn [fst].
    + destruct Hc as [_ Hc]. by eexists _, _.
    + by exists [], [].
  - eexists [], _. split; [by apply inflight_lost_moved|done].
  - destruct (alarm_moved h now rto Hok) as (l & M & _). by exists [], l.
  - exists [], []. split; [|done]. unfold sent_GetStopWaitingFrame.
    destruct (GetStopWaitingFrame _ _). by apply moved_same.
Qed.

Lemma sent_ok_dequeue h : sent_ok h → sent_ok (DequeuePacketForRetransmission h).1.
Proof.
  intros Hok. unfold DequeuePacketForRetransmission. destruct (retransmissionQueue h); [done|].
  destruct Hok. by split.
Qed.

Lemma step_ok h e : sent_ok h → event_ok e → sent_ok (sent_step h e).
Proof.
  intros Hok He. pose proof (step_moved h empty_ledger e Hok He) as Hm.
  destruct e; try (destruct Hm as (a & l & M & _); by eapply sent_ok_moved).
  - by apply sent_ok_send.
  - by apply sent_ok_dequeue.
  - destruct Hok. by split.
Qed.

Lemma step_balanced h lg e : sent_ok h → event_ok e → balanced h lg → balanced (sent_step h e) (account h e lg).
Proof.
  intros Hok He Hb. pose proof (step_moved h lg e Hok He) as Hm.
  destruct e; try (destruct Hm as (a & l & M & ->); by eapply balanced_moved); clear Hm;
    unfold balanced in *; cbn [sent_step account credit lg_sent lg_duplicated lg_acked lg_taken].
  - pose proof (send_effect h p now) as Hs. destruct (decide (sendable h p)) as [Hp|Hp].
    + destruct Hs as [_ [D1 _ D3 _ _ _]]. rewrite D1, D3, !app_nil_r.
      rewrite has_retransmittable. destruct (decide (stripNonRetransmittableFrames (PktFrames p) = [])) as [E|E].
      * rewrite bool_decide_eq_false_2 by (by intros ?). rewrite decide_False by (by intros [? ?]).
        by rewrite !app_nil_r.
      * rewrite bool_decide_eq_true_2 by done. rewrite decide_True by done.
        assert (key (stored p now) = key p) as Ek.
        { unfold key, GetFramesForRetransmission. cbn [stored PktFrames PktNumber]. by rewrite strip_strip. }
        rewrite <-Ek. transitivity ((lg_sent lg ++ lg_duplicated lg) ++ [key (stored p now)]); [solve_Permutation|].
        rewrite Hb, !fmap_app. cbn [fmap list_fmap]. solve_Permutation.
    + destruct Hs as [_ ->]. rewrite decide_False by (by intros [? ?]). by rewrite !app_nil_r.
  - unfold DequeuePacketForRetransmission. destruct (retransmissionQueue h) as [|p q] eqn:E; cbn.
    + rewrite E. cbn. rewrite !app_nil_r. rewrite ?app_nil_r in Hb. exact Hb.
    + rewrite !app_nil_r, Hb, !fmap_app. cbn [fmap list_fmap]. solve_Permutation.
  - cbn. rewrite !app_nil_r, app_assoc, Hb, !fmap_app. cbn [fmap list_fmap]. solve_Permutation.
Qed.

Lemma reachable_ok h lg : reachable h lg → sent_ok h ∧ balanced h lg.
Proof.
  induction 1 as [stats cong|h lg e _ [Hok Hb] He]; [split; [apply sent_ok_new|by unfold balanced]|].
  split; [by apply step_ok|by apply step_balanced].
Qed.
End ledger.

(** * Liveness: alarms empty the history *)

Section alarms.
Context {C : Type} `{!SendAlgorithm C}.
Implicit Types h : sentPacketHandler C.

(** An instant a duration of some hundred years cannot overflow. *)
Definition instant (t : Z) : Prop := 0 ≤ t < 2 ^ 62.
Definition sent_at (p : Packet) (s : Z) : Prop := PktSendTime p = Some s ∧ instant s.

(** The pending loss alarm is the one of a packet in flight. *)
Definition loss_due h : Prop :=
  ∀ t, lossTime h = Some t →
  ∃ p s, p ∈ packetHistory h ∧ PktNumber p ≤ largestAcked h ∧ sent_at p s ∧
         t = s + delayUntilLost (rttStats h).

Lemma time_since_instant now s : instant now → instant s → time_since now (Some s) = now - s.
Proof. unfold instant, time_since, time_Sub. lia. Qed.

Lemma scan_lost_time largest now delay hist loss t :
  instant now → 0 ≤ delay < 2 ^ 62 → Forall (λ p, ∃ s, sent_at p s) hist →
  (scan_lost largest now delay hist loss).2 = Some t →
  loss = Some t ∨
  ∃ p s, p ∈ hist ∧ PktNumber p ≤ largest ∧ sent_at p s ∧ ¬ overdue largest now delay p ∧ t = s + delay.
Proof.
  intros Hn Hd. revert loss. induction hist as [|p hist IH]; intros loss HF; cbn [scan_lost]; [by left|].
  apply Forall_cons in HF as [(s & Hs & Hs') HF].
  destruct (decide (largest < PktNumber p)) as [Hl|Hl]; [by left|].
  assert (∀ q, q ∈ hist → q ∈ p :: hist) as Hin by (by right).
  destruct (decide (delay < time_since now (PktSendTime p))) as [Ho|Ho].
  - specialize (IH loss HF). destruct (scan_lost largest now delay hist loss) as [l o].
    intros E. destruct (IH E) as [?|(q & u & Hq & ?)]; [by left|]. right. exists q, u. by split; [apply Hin|].
  - intros E. destruct (IH _ HF E) as [Et|(q & u & Hq & ?)].
    + destruct loss as [t'|]; [by left|]. right. exists p, s.
      split; [by left|]. split; [lia|]. split; [by split|]. split; [unfold overdue; lia|].
      injection Et as <-. rewrite Hs, time_since_instant in Ho |- * by done.
      unfold instant in *. rewrite i64_small by lia. lia.
    + right. exists q, u. by split; [apply Hin|].
Qed.

(** Alarms and what [onRTOCallback] answers; each fires after the loss time it waits for. *)
Fixpoint run_alarms h (l : list (Z * option bool)) : sentPacketHandler C :=
  match l with [] => h | (now, rto) :: l => run_alarms (OnAlarm h now rto) l end.
Fixpoint fire_in_time h (l : list (Z * option bool)) : Prop :=
  match l with
  | [] => True
  | (now, rto) :: l =>
      instant now ∧ (match lossTime h with Some t => t < now | None => True end) ∧
      fire_in_time (OnAlarm h now rto) l
  end.

Record live h : Prop := {
  lv_ok : sent_ok h;
  lv_due : loss_due h;
  lv_sent : Forall (λ p, ∃ s, sent_at p s) (packetHistory h);
  lv_delay : 0 ≤ delayUntilLost (rttStats h) < 2 ^ 62
}.

(** An alarm with something outstanding takes at least one packet out of the history. *)
Lemma alarm_progress h now rto :
  live h → instant now → (match lossTime h with Some t => t < now | None => True end) →
  live (OnAlarm h now rto) ∧
  ∃ lost, moved h (OnAlarm h now rto) [] lost ∧
    (hasOutstandingRetransmittablePacket h = true → lost ≠ []).
Proof.
  intros [Hok Hdue Hs Hd] Hn Hfire. destruct (alarm_moved h now rto Hok) as (lost & M & Er & El & Hcase).
  assert (live (OnAlarm h now rto) ∧ (hasOutstandingRetransmittablePacket h = true → lost ≠ [])) as [? ?];
    [|by eauto].
  assert (Forall (λ p, ∃ s, sent_at p s) (packetHistory (OnAlarm h now rto))) as Hs'
    by (eapply forall_sublist; [apply M|done]).
  destruct (hasOutstandingRetransmittablePacket h) eqn:Ho.
  2:{ split; [|done]. unfold OnAlarm in *. rewrite Ho in *. split; try done. eapply sent_ok_moved; done. }
  destruct (lossTime h) as [t|] eqn:Et.
  - destruct (Hcase eq_refl) as (-> & Eh & Eloss). split.
    + split; [by eapply sent_ok_moved| |done|by rewrite Er].
      intros u Hu. rewrite Eloss in Hu. apply scan_lost_time in Hu; [|done..].
      destruct Hu as [?|(p & s & Hp & Hl & Hsp & Hno & ->)]; [done|].
      exists p, s. rewrite Eh, Er, El. split_and!; [by apply list_elem_of_filter|done..].
    + intros _ E. destruct (Hdue t Et) as (p & s & Hp & Hl & [Hsp Hs1] & Hts).
      apply (filter_nil_not_elem_of _ _ p E); [|done].
      split; [done|]. rewrite Hsp, time_since_instant by done. lia.
  - destruct Hcase as [Enone Hne]. split; [|auto].
    split; [by eapply sent_ok_moved| |done|by rewrite Er]. intros u Hu. by rewrite Enone in Hu.
Qed.

Lemma alarm_idle h now rto :
  hasOutstandingRetransmittablePacket h = false →
  hasOutstandingRetransmittablePacket (OnAlarm h now rto) = false.
Proof. intros E. unfold OnAlarm. by rewrite E. Qed.

Lemma alarms_idle h l :
  hasOutstandingRetransmittablePacket h = false → hasOutstandingRetransmittablePacket (run_alarms h l) = false.
Proof. revert h. induction l as [|[now rto] l IH]; intros h E; [done|]. by apply IH, alarm_idle. Qed.

(** Without anything outstanding alarms move nothing. *)
Lemma alarms_unmoved h l :
  sent_ok h → hasOutstandingRetransmittablePacket h = false → ∃ lost, moved h (run_alarms h l) [] lost.
Proof.
  revert h. induction l as [|[now rto] l IH]; intros h Hok Ho.
  - exists []. apply moved_same; try done. by apply sent_ok_range.
  - cbn [run_alarms]. assert (moved h (OnAlarm h now rto) [] []) as M.
    { unfold OnAlarm. rewrite Ho. apply moved_same; try done. by apply sent_ok_range. }
    destruct (IH (OnAlarm h now rto)) as (lost & M'); [by eapply sent_ok_moved|by apply alarm_idle|].
    exists lost. by apply (moved_trans _ _ _ [] [] _ _ M M').
Qed.

Lemma alarms_progress h l :
  live h → fire_in_time h l → zlen (packetHistory h) ≤ zlen l →
  hasOutstandingRetransmittablePacket (run_alarms h l) = false ∧
  ∃ lost, moved h (run_alarms h l) [] lost.
Proof.
  revert h. induction l as [|[now rto] l IH]; intros h Hlive Hfire Hlen.
  - cbn [run_alarms]. split.
    + unfold hasOutstandingRetransmittablePacket. destruct (packetHistory h); [done|].
      unfold zlen in Hlen. cbn in Hlen. lia.
    + exists []. apply moved_same; try done. apply sent_ok_range, Hlive.
  - destruct Hfire as (Hn & Hf & Hfire). destruct (alarm_progress h now rto Hlive Hn Hf) as (Hlive' & lost & M & Hlost).
    cbn [run_alarms]. destruct (hasOutstandingRetransmittablePacket h) eqn:Ho.
    + destruct (IH _ Hlive' Hfire) as (Hidle & lost' & M').
      { apply mv_perm, Permutation_length in M. cbn [app] in M. rewrite length_app in M.
        specialize (Hlost eq_refl). destruct lost; [done|]. unfold zlen in *. cbn [length] in *. lia. }
      split; [done|]. exists (lost ++ lost'). by apply (moved_trans _ _ _ [] [] _ _ M M').
    + split; [by apply alarms_idle, alarm_idle|]. by apply (alarms_unmoved h ((now, rto) :: l)); [apply Hlive|].
Qed.

(** Whatever loss time is pending, one alarm settles it. *)
Lemma alarm_settles h now rto :
  sent_ok h → Forall (λ p, ∃ s, sent_at p s) (packetHistory h) → 0 ≤ delayUntilLost (rttStats h) < 2 ^ 62 →
  instant now → hasOutstandingRetransmittablePacket h = true →
  live (OnAlarm h now rto) ∧ ∃ lost, moved h (OnAlarm h now rto) [] lost.
Proof.
  intros Hok Hs Hd Hn Ho. destruct (alarm_moved h now rto Hok) as (lost & M & Er & El & Hcase).
  split; [|by eexists]. split; [by eapply sent_ok_moved| | |by rewrite Er].
  2:{ eapply forall_sublist; [apply M|done]. }
  destruct (lossTime h) as [t|] eqn:Et; [|intros u Hu; destruct Hcase as [E _]; by rewrite E in Hu].
  destruct (Hcase Ho) as (-> & Eh & Eloss). intros u Hu. rewrite Eloss in Hu.
  apply scan_lost_time in Hu; [|done..].
  destruct Hu as [?|(p & s & Hp & Hl & Hsp & Hno & ->)]; [done|].
  exists p, s. rewrite Eh, Er, El. split; [by apply list_elem_of_filter|]. by repeat split; try apply Hsp.
Qed.

Lemma moved_queued h h' l p :
  moved h h' [] l → hasOutstandingRetransmittablePacket h' = false →
  p ∈ packetHistory h → IsRetransmittable p = true → p ∈ retransmissionQueue h'.
Proof.
  intros [_ Hp Hq _ _ _ _] Ho Hin Hr. rewrite Hp in Hin. cbn [app] in Hin.
  apply elem_of_app in Hin as [Hin|Hin]; [|rewrite Hq; apply elem_of_app; by right].
  exfalso. apply not_true_iff_false in Ho. apply Ho. apply existsb_exists. exists p.
  split; [by apply list_elem_of_In|done].
Qed.

Lemma alarms_queue h l :
  sent_ok h → Forall (λ p, ∃ s, sent_at p s) (packetHistory h) → 0 ≤ delayUntilLost (rttStats h) < 2 ^ 62 →
  fire_in_time h l → zlen (packetHistory h) < zlen l →
  hasOutstandingRetransmittablePacket (run_alarms h l) = false ∧
  ∃ lost, moved h (run_alarms h l) [] lost.
Proof.
  intros Hok Hs Hd Hf Hlen. destruct l as [|[now rto] l].
  { unfold zlen in Hlen. cbn in Hlen. lia. }
  destruct Hf as (Hn & Hf0 & Hf). rewrite zlen_cons in Hlen.
  destruct (hasOutstandingRetransmittablePacket h) eqn:Ho.
  - destruct (alarm_settles h now rto Hok Hs Hd Hn Ho) as (Hlive & lost & M).
    destruct (alarms_progress _ l Hlive Hf) as (Hidle & lost' & M').
    { apply mv_hist, sublist_length in M. unfold zlen in *. lia. }
    split; [done|]. exists (lost ++ lost'). by apply (moved_trans _ _ _ [] [] _ _ M M').
  - split; [by apply alarms_idle|]. by apply alarms_unmoved.
Qed.
End alarms.

(** * Retransmission timeouts *)

Lemma max_duration a b : MaxDuration a b = Z.max a b.
Proof. unfold MaxDuration. case_decide; lia. Qed.
Lemma min_duration a b : MinDuration a b = Z.min a b.
Proof. unfold MinDuration. case_decide; lia. Qed.

(** What the backoff starts from. *)
Definition rto_base (delay : Z) : Z := Z.max (if decide (delay = 0) then defaultRTOTimeout else delay) minRTOTimeout.

(** * A controller with a fixed window *)

Record fixedWindow : Type := { window_bytes : Z }.
#[export] Instance fixed_window : SendAlgorithm fixedWindow := {
  TimeUntilSend c b := if decide (b < window_bytes c) then 0 else InfDuration;
  OnPacketSent c _ _ _ _ r := (c, r);
  GetCongestionWindow c := window_bytes c;
  MaybeExitSlowStart _ c := c;
  OnPacketAcked _ _ c _ _ _ := c;
  OnPacketLost c _ _ _ := c;
  SetNumEmulatedConnections c _ := c;
  OnRetransmissionTimeout c _ := c;
  OnConnectionMigration c := c;
  RetransmissionDelay r _ := if decide (smoothedRTT r = 0) then 0 else i64 (smoothedRTT r + i64 (meanDeviation r * 4));
  SmoothedRTT r _ := smoothedRTT r;
  SetSlowStartLargeReduction c _ := c
}.

Section samples.
Context {C : Type} `{!SendAlgorithm C}.
Fixpoint run_events (h : sentPacketHandler C) (lg : ledger) (es : list sent_event) : sentPacketHandler C * ledger :=
  match es with
  | [] => (h, lg)
  | e :: es => run_events (sent_step h e) (account h e lg) es
  end.
Lemma run_reachable h lg es :
  reachable h lg → Forall event_ok es → reachable (run_events h lg es).1 (run_events h lg es).2.
Proof.
  revert h lg. induction es as [|e es IH]; intros h lg Hr HF; [done|].
  apply Forall_cons in HF as [He HF]. apply IH; [by apply reach_step|done].
Qed.
End samples.

Definition sample_packet (n : Z) : Packet := {|
  PktNumber := n; PktFrames := [FPing]; PktLength := 100;
  PktEncryptionLevel := EncryptionForwardSecure; PktSendTime := None
|}.
(** Packets 1, 2 and 4 are received. *)
Definition sample_frame : AckFrame := {|
  APathID := 0; LargestAcked := 5; LowestAcked := 1;
  AckRanges := [{| First := 4; Last := 5 |}; {| First := 1; Last := 1 |}];
  PacketReceivedTime := None; DelayTime := 0
|}.
Definition sample_sends : list sent_event :=
  [EvSend (sample_packet 1) 1000000; EvSend (sample_packet 2) (10 * Millisecond);
   EvSend (sample_packet 4) (20 * Millisecond); EvSend (sample_packet 5) (25 * Millisecond);
   EvSend (sample_packet 6) (30 * Millisecond)].
Definition sample_new : sentPacketHandler fixedWindow :=
  NewSentPacketHandler NewRTTStats {| window_bytes := 32 * DefaultTCPMSS |}.
Definition sample_sent : sentPacketHandler fixedWindow * ledger := run_events sample_new empty_ledger sample_sends.
Definition sample_acked : sentPacketHandler fixedWindow * ledger :=
  run_events sample_new empty_ledger
    (sample_sends ++ [EvDuplicate (sample_packet 2);
                      EvAck sample_frame 1 (125 * Millisecond) (126 * Millisecond) id (130 * Millisecond);
                      EvDequeue]).

Lemma sample_frame_ok : ack_consistent sample_frame.
Proof. split; [vm_compute; reflexivity|repeat constructor; cbn; unfold MaxPacketNumber; lia]. Qed.
Lemma sample_sent_reachable : reachable sample_sent.1 sample_sent.2.
Proof. apply run_reachable; [apply reach_new|by repeat constructor]. Qed.
Lemma sample_acked_reachable : reachable sample_acked.1 sample_acked.2.
Proof.
  apply run_reachable; [apply reach_new|]. repeat constructor; cbn; try (unfold MaxPacketNumber; lia).
Qed.

(** * Properties *)

Section properties.
Context {C : Type} `{!SendAlgorithm C}.
Implicit Types h : sentPacketHandler C.

(** C18: No packet is lost track of.  Over any run of sends, acknowledgements, path closures, alarms,
    duplications and retransmissions, with any congestion controller, the packets with something to
    send again that were sent or duplicated are, one for one and with their frames, those in flight,
    those queued for retransmission, those an accepted frame acknowledged and those handed out to be
    sent again. *)
Theorem packets_conserved h lg :
  reachable h lg →
  lg_sent lg ++ lg_duplicated lg ≡ₚ
  (key <$> packetHistory h ++ retransmissionQueue h) ++ lg_acked lg ++ lg_taken lg.
Proof. intros Hr. apply (reachable_ok h lg Hr). Qed.

(** The state of the handler stays well formed over any run: packet numbers in flight increase,
    are at most the last sent one and none of the remembered skipped ones; every packet in flight has
    frames, all to be sent again, and a send time; the bytes in flight are the sum of their lengths;
    at most ten skipped numbers are remembered, in order. *)
Theorem sent_invariant h lg : reachable h lg → sent_ok h.
Proof. intros Hr. apply (reachable_ok h lg Hr). Qed.

(** C21: [ReceivedAck] refuses acknowledgements of unsent or skipped packets and out-of-order ones,
    ignores repeated ones, never reports a wrong packet, and otherwise takes exactly the acknowledged
    packets out of flight, queues exactly the overdue ones of the others, and updates the round-trip
    time, the counters and the skipped packets. *)
Theorem ack_processed h f w rcvTime rttNow clock now :
  sent_ok h → ack_consistent f →
  (sent_ReceivedAck h f w rcvTime rttNow clock now).2 =
    (if decide (lastSentPacketNumber h < LargestAcked f) then Some errAckForUnsentPacket
     else if decide (w ≤ largestReceivedPacketWithAck h) then Some ErrDuplicateOrOutOfOrderAck
     else if decide (LargestAcked f ≤ largestInOrderAcked h) then None
     else if skippedPacketsAcked h f then Some ErrAckForSkippedPacket
     else None) ∧
  (ack_accepted h f w →
   ack_outcome h f w rcvTime rttNow now (sent_ReceivedAck h f w rcvTime rttNow clock now).1).
Proof.
  intros Hok Hf. split; [|by apply ack_effect].
  destruct (decide (ack_accepted h f w)) as [Ha|Ha].
  - destruct (ack_effect h f w rcvTime rttNow clock now Hok Hf Ha) as [-> _].
    destruct Ha as (H1 & H2 & H3 & H4).
    rewrite decide_False by lia. rewrite decide_False by lia. rewrite decide_False by lia. by rewrite H4.
  - unfold sent_ReceivedAck. case_decide as H1; [done|]. case_decide as H2; [done|].
    change (largestInOrderAcked (set_acked h _ _ _ _ _)) with (largestInOrderAcked h).
    case_decide as H3; [done|].
    change (skippedPacketsAcked (set_acked _ _ _ _ _ _) f) with (skippedPacketsAcked h f).
    destruct (skippedPacketsAcked h f) eqn:E; [done|]. exfalso. apply Ha. split_and!; lia || done.
Qed.

(** C22: Without acknowledgements the alarms retransmit everything: from any reachable state, one alarm
    more than there are packets in flight, each after the loss time it waits for and whatever the
    timeout callback answers, leaves nothing outstanding, and every retransmittable packet that was in
    flight is queued for retransmission. *)
Theorem alarms_drain h lg l :
  reachable h lg → Forall (λ p, ∃ s, sent_at p s) (packetHistory h) →
  0 ≤ delayUntilLost (rttStats h) < 2 ^ 62 →
  fire_in_time h l → zlen (packetHistory h) < zlen l →
  hasOutstandingRetransmittablePacket (run_alarms h l) = false ∧
  ∀ p, p ∈ packetHistory h → IsRetransmittable p = true → p ∈ retransmissionQueue (run_alarms h l).
Proof.
  intros Hr Hs Hd Hf Hl. destruct (reachable_ok h lg Hr) as [Hok _].
  destruct (alarms_queue h l Hok Hs Hd Hf Hl) as (Hidle & lost & M).
  split; [done|]. intros p. by apply (moved_queued _ _ _ _ M).
Qed.

(** The retransmission timeout backs off exponentially from at least 200 ms up to 60 s, as long as
    the shifted duration fits in 63 bits; at 36 timeouts from 200 ms the shift overflows and the
    timeout is negative, so the alarm falls back to the minimum of 200 ms. *)
Theorem rto_backoff h :
  0 ≤ RetransmissionDelay (rttStats h) (congestion h) → 0 ≤ rtoCount h →
  let base := rto_base (RetransmissionDelay (rttStats h) (congestion h)) in
  (base * 2 ^ rtoCount h < 2 ^ 63 →
   computeRTOTimeout h = Z.min (base * 2 ^ rtoCount h) maxRTOTimeout ∧
   minRTOTimeout ≤ computeRTOTimeout h ≤ maxRTOTimeout) ∧
  (base = minRTOTimeout → rtoCount h = 36 → packetHistory h ≠ [] → lossTime h = None →
   maxTailLossProbes ≤ tlpCount h →
   computeRTOTimeout h < 0 ∧
   alarm (updateLossDetectionAlarm h) = (λ t, t + minRetransmissionTime) <$> lastSentTime h).
Proof.
  intros Hd Hk base. unfold computeRTOTimeout. rewrite min_duration, max_duration.
  fold (rto_base (RetransmissionDelay (rttStats h) (congestion h))). fold base. rewrite Z.shiftl_mul_pow2 by done.
  assert (minRTOTimeout ≤ base) as Hb by (unfold base, rto_base; lia).
  split.
  - intros Hsmall. assert (0 < 2 ^ rtoCount h) by lia. rewrite i64_small by (unfold minRTOTimeout, Millisecond in *; nia).
    split; [done|]. unfold minRTOTimeout, maxRTOTimeout, Millisecond, Second in *. nia.
  - intros Hbase E Hne Hl Ht. rewrite E, Hbase.
    assert (i64 (minRTOTimeout * 2 ^ 36) < 0) as Hneg by (vm_compute; reflexivity).
    split; [lia|]. unfold updateLossDetectionAlarm. rewrite decide_False by done. rewrite Hl.
    rewrite decide_False by (intros [? ?]; lia). cbn.
    unfold computeRTOTimeout. rewrite min_duration, !max_duration.
    fold (rto_base (RetransmissionDelay (rttStats h) (congestion h))). fold base.
    rewrite Z.shiftl_mul_pow2, E, Hbase by done.
    by replace (Z.max (Z.min (i64 (minRTOTimeout * 2 ^ 36)) maxRTOTimeout) minRetransmissionTime)
      with minRetransmissionTime by (unfold minRetransmissionTime, Millisecond; lia).
Qed.

(** A packet of CLOSE_PATH or CONNECTION_CLOSE frames stays in flight, but no alarm ever sends it again. *)
Lemma close_frames_not_retransmitted h now rto :
  Forall (λ p, Forall (λ f, match f with FClosePath _ | FConnectionClose _ => True | _ => False end) (PktFrames p))
    (packetHistory h) →
  packetHistory (OnAlarm h now rto) = packetHistory h ∧
  retransmissionQueue (OnAlarm h now rto) = retransmissionQueue h ∧ alarm (OnAlarm h now rto) = None.
Proof.
  intros HF. unfold OnAlarm. assert (hasOutstandingRetransmittablePacket h = false) as ->; [|done].
  apply not_true_iff_false. intros E. apply existsb_exists in E as (p & Hp & Hr).
  rewrite Forall_forall in HF. specialize (HF p ltac:(by apply list_elem_of_In)).
  unfold IsRetransmittable in Hr. apply existsb_exists in Hr as (f & Hf & Hr).
  rewrite Forall_forall in HF. specialize (HF f ltac:(by apply list_elem_of_In)). by destruct f.
Qed.
End properties.

Lemma packets_conserved_witness :
  reachable sample_acked.1 sample_acked.2 ∧
  lg_sent sample_acked.2 ++ lg_duplicated sample_acked.2 ≡ₚ
    (key <$> packetHistory sample_acked.1 ++ retransmissionQueue sample_acked.1) ++
    lg_acked sample_acked.2 ++ lg_taken sample_acked.2 ∧
  lg_acked sample_acked.2 = [(1, [FPing]); (4, [FPing]); (5, [FPing])] ∧ lg_taken sample_acked.2 = [(2, [FPing])] ∧
  (PktNumber <$> packetHistory sample_acked.1) = [6] ∧ (PktNumber <$> retransmissionQueue sample_acked.1) = [2].
Proof.
  split; [apply sample_acked_reachable|].
  split; [apply packets_conserved, sample_acked_reachable|]. split_and!; vm_compute; reflexivity.
Defined.

Lemma sent_invariant_witness : reachable sample_acked.1 sample_acked.2 ∧ sent_ok sample_acked.1.
Proof. split; [apply sample_acked_reachable|]. exact (sent_invariant _ _ sample_acked_reachable). Defined.

Lemma ack_processed_witness :
  ack_outcome sample_sent.1 sample_frame 1 (125 * Millisecond) (126 * Millisecond) (130 * Millisecond)
    (sent_ReceivedAck sample_sent.1 sample_frame 1 (125 * Millisecond) (126 * Millisecond) id (130 * Millisecond)).1.
Proof.
  apply ack_processed; [apply (reachable_ok _ _ sample_sent_reachable)|apply sample_frame_ok|].
  split; [by vm_compute|]. split; [by vm_compute|]. split; [by vm_compute|]. vm_compute. reflexivity.
Defined.

Definition sample_alarms : list (Z * option bool) :=
  [(Second, None); (2 * Second, None); (3 * Second, Some false); (4 * Second, None); (5 * Second, None);
   (6 * Second, None)].
Lemma sample_sent_history :
  packetHistory sample_sent.1 =
  [stored (sample_packet 1) 1000000; stored (sample_packet 2) (10 * Millisecond);
   stored (sample_packet 4) (20 * Millisecond); stored (sample_packet 5) (25 * Millisecond);
   stored (sample_packet 6) (30 * Millisecond)].
Proof. vm_compute. reflexivity. Qed.
Lemma sample_sent_instants : Forall (λ p, ∃ s, sent_at p s) (packetHistory sample_sent.1).
Proof.
  rewrite sample_sent_history. unfold sent_at, instant. repeat constructor; eexists; cbn [stored PktSendTime];
    (split; [reflexivity|unfold Millisecond; lia]).
Qed.
Lemma sample_sent_delay : 0 ≤ delayUntilLost (rttStats sample_sent.1) < 2 ^ 62.
Proof. vm_compute. split; [intros ?|]; done. Qed.
Lemma sample_alarms_fire : fire_in_time sample_sent.1 sample_alarms.
Proof. vm_compute. repeat split; try (intros ?; done). Qed.
Lemma alarms_drain_witness :
  hasOutstandingRetransmittablePacket (run_alarms sample_sent.1 sample_alarms) = false ∧
  ∀ p, p ∈ packetHistory sample_sent.1 → IsRetransmittable p = true →
       p ∈ retransmissionQueue (run_alarms sample_sent.1 sample_alarms).
Proof.
  apply (alarms_drain _ _ _ sample_sent_reachable sample_sent_instants sample_sent_delay sample_alarms_fire).
  rewrite sample_sent_history. reflexivity.
Defined.

Definition sample_rto : sentPacketHandler fixedWindow := set_timers sample_sent.1 36 2 None None 0.
Lemma rto_backoff_witness :
  let h := set_acked sample_rto 0 0 [] (stopWaiting sample_rto) (UpdateSessionRTT NewRTTStats (100 * Millisecond)) in
  computeRTOTimeout h < 0 ∧ alarm (updateLossDetectionAlarm h) = Some (230 * Millisecond).
Proof.
  intros h. destruct (rto_backoff h) as [_ H]; [vm_compute; intros ?; done|vm_compute; intros ?; done|].
  apply H; [vm_compute; reflexivity|vm_compute; reflexivity|vm_compute; intros ?; done|vm_compute; reflexivity|vm_compute; intros ?; done].
Defined.

Close Scope Z_scope.
