(* ===== verification/CubicSender.v ===== *)
(** The cubic congestion controller (src/mp-quic/congestion: cubic.go,
    cubic_sender.go, stats.go, bandwidth.go).

    Windows are counted in packets.  Reading the clock is an argument, [math.Cbrt] a
    parameter: the properties do not depend on its last bit.  The sender is an
    instance of [SendAlgorithm]. *)

From Stdlib Require Import ZArith Lia SpecFloat.
From stdpp Require Import prelude numbers list.
From S2P Require Import Prelude Wire ReceivedPackets Handshake RTTStats.

Open Scope Z_scope.

Definition MaxPacketNumber_ (a b : Z) : Z := if decide (b < a) then a else b.
Definition MinPacketNumber_ (a b : Z) : Z := if decide (a < b) then a else b.

(** [protocol.PacketNumber(f)] of a float *)
Definition float_u64 (f : spec_float) : Z := u64 (float_trunc f).

Record connectionStats : Type := { slowstartPacketsLost : Z; slowstartBytesLost : Z }.

Definition BytesPerSecond : Z := 8.
Definition BandwidthFromDelta (bytes delta : Z) : Z :=
  u64 (u64 (bytes * Second) / u64 delta * BytesPerSecond).

(** * The cubic function *)

Definition cubeScale : Z := 40.
Definition cubeCongestionWindowScale : Z := 410.
Definition cubeFactor : Z := Z.shiftl 1 cubeScale / cubeCongestionWindowScale.
Definition defaultNumConnections : Z := 2.
(** 0.7 and 0.85 in single precision *)
Definition beta07 : spec_float := F32.lit 11744051 (-24).
Definition betaLastMax : spec_float := F32.lit 14260634 (-24).
Definition maxCubicTimeInterval : Z := 30 * 1000 * 1000.

Module Cubic.
Record Cubic : Type := {
numConnections : Z;
epoch : option Z;
appLimitedStartTime : option Z;
lastUpdateTime : option Z;
lastCongestionWindow : Z;
lastMaxCongestionWindow : Z;
ackedPacketsCount : Z;
estimatedTCPcongestionWindow : Z;
originPointCongestionWindow : Z;
timeToOriginPoint : Z;
lastTargetCongestionWindow : Z
}.

Definition Reset (c : Cubic) : Cubic := {|
numConnections := numConnections c; epoch := None; appLimitedStartTime := None; lastUpdateTime := None;
lastCongestionWindow := 0; lastMaxCongestionWindow := 0; ackedPacketsCount := 0;
estimatedTCPcongestionWindow := 0; originPointCongestionWindow := 0; timeToOriginPoint := 0;
lastTargetCongestionWindow := 0
|}.
Definition NewCubic : Cubic := {|
numConnections := defaultNumConnections; epoch := None; appLimitedStartTime := None; lastUpdateTime := None;
lastCongestionWindow := 0; lastMaxCongestionWindow := 0; ackedPacketsCount := 0;
estimatedTCPcongestionWindow := 0; originPointCongestionWindow := 0; timeToOriginPoint := 0;
lastTargetCongestionWindow := 0
|}.

(** Assignments to groups of fields. *)
Definition set_epoch (c : Cubic) (e app : option Z) (lastMax : Z) : Cubic := {|
numConnections := numConnections c; epoch := e; appLimitedStartTime := app; lastUpdateTime := lastUpdateTime c;
lastCongestionWindow := lastCongestionWindow c; lastMaxCongestionWindow := lastMax;
ackedPacketsCount := ackedPacketsCount c; estimatedTCPcongestionWindow := estimatedTCPcongestionWindow c;
originPointCongestionWindow := originPointCongestionWindow c; timeToOriginPoint := timeToOriginPoint c;
lastTargetCongestionWindow := lastTargetCongestionWindow c
|}.
Definition set_update (c : Cubic) (t : option Z) (last : Z) : Cubic := {|
numConnections := numConnections c; epoch := epoch c; appLimitedStartTime := appLimitedStartTime c;
lastUpdateTime := t; lastCongestionWindow := last; lastMaxCongestionWindow := lastMaxCongestionWindow c;
ackedPacketsCount := ackedPacketsCount c; estimatedTCPcongestionWindow := estimatedTCPcongestionWindow c;
originPointCongestionWindow := originPointCongestionWindow c; timeToOriginPoint := timeToOriginPoint c;
lastTargetCongestionWindow := lastTargetCongestionWindow c
|}.
Definition set_counts (c : Cubic) (acked estimated origin timeTo target : Z) : Cubic := {|
numConnections := numConnections c; epoch := epoch c; appLimitedStartTime := appLimitedStartTime c;
lastUpdateTime := lastUpdateTime c; lastCongestionWindow := lastCongestionWindow c;
lastMaxCongestionWindow := lastMaxCongestionWindow c; ackedPacketsCount := acked;
estimatedTCPcongestionWindow := estimated; originPointCongestionWindow := origin;
timeToOriginPoint := timeTo; lastTargetCongestionWindow := target
|}.
Definition SetNumConnections (c : Cubic) (n : Z) : Cubic := {|
numConnections := n; epoch := epoch c; appLimitedStartTime := appLimitedStartTime c;
lastUpdateTime := lastUpdateTime c; lastCongestionWindow := lastCongestionWindow c;
lastMaxCongestionWindow := lastMaxCongestionWindow c; ackedPacketsCount := ackedPacketsCount c;
estimatedTCPcongestionWindow := estimatedTCPcongestionWindow c;
originPointCongestionWindow := originPointCongestionWindow c; timeToOriginPoint := timeToOriginPoint c;
lastTargetCongestionWindow := lastTargetCongestionWindow c
|}.

Definition beta (n : Z) : spec_float :=
F32.div (F32.add (F32.sub (F32.of_Z n) (F32.of_Z 1)) beta07) (F32.of_Z n).
Definition alpha (n : Z) : spec_float :=
let b := beta n in
F32.div (F32.mul (F32.mul (F32.mul (F32.of_Z 3) (F32.of_Z n)) (F32.of_Z n)) (F32.sub (F32.of_Z 1) b))
  (F32.add (F32.of_Z 1) b).

Definition OnApplicationLimited (c : Cubic) (now : Z) : Cubic :=
match appLimitedStartTime c with
| None => set_epoch c (epoch c) (Some now) (lastMaxCongestionWindow c)
| Some _ => c
end.

Definition CongestionWindowAfterPacketLoss (c : Cubic) (currentCongestionWindow : Z) : Cubic * Z :=
let lastMax := if decide (currentCongestionWindow < lastMaxCongestionWindow c)
               then float_u64 (F32.mul betaLastMax (F32.of_Z currentCongestionWindow))
               else currentCongestionWindow in
(set_epoch c None (appLimitedStartTime c) lastMax,
 float_u64 (F32.mul (F32.of_Z currentCongestionWindow) (beta (numConnections c)))).

Definition requiredAckCount (n estimated : Z) : Z :=
float_u64 (F32.div (F32.of_Z estimated) (alpha n)).
(** The loop that grows the estimate; each turn takes [requiredAckCount] packets off
    the count, so one turn more than there are packets ends it when that is positive. *)
Fixpoint reno_loop (fuel : nat) (n acked estimated : Z) : Z * Z :=
match fuel with
| O => (acked, estimated)
| S fuel =>
    if decide (acked < requiredAckCount n estimated) then (acked, estimated)
    else reno_loop fuel n (acked - requiredAckCount n estimated) (u64 (estimated + 1))
end.

(** [now.Add(delayMin).Sub(epoch)] in 2^-10 seconds. *)
Definition elapsed_time (now delayMin : Z) (epoch : option Z) : Z :=
Z.quot (i64 (Z.shiftl (Z.quot (time_since (now + delayMin) epoch) Microsecond) 10)) 1000000.

Section cube_root.
Context (Cbrt : spec_float → spec_float).

(** The first ACK after a loss starts an epoch. *)
Definition start_epoch (c : Cubic) (currentCongestionWindow now : Z) : Cubic :=
let c := set_epoch c (Some now) (appLimitedStartTime c) (lastMaxCongestionWindow c) in
if decide (lastMaxCongestionWindow c ≤ currentCongestionWindow) then
  set_counts c 1 currentCongestionWindow currentCongestionWindow 0 (lastTargetCongestionWindow c)
else
  set_counts c 1 currentCongestionWindow (lastMaxCongestionWindow c)
    (u32 (float_trunc (Cbrt (F64.of_Z (u64 (cubeFactor *
       u64 (lastMaxCongestionWindow c - currentCongestionWindow)))))))
    (lastTargetCongestionWindow c).
(** Time spent application-limited does not count. *)
Definition shift_epoch (c : Cubic) (now : Z) : Cubic :=
match appLimitedStartTime c with
| None => c
| Some t => set_epoch c ((λ e, e + time_Sub now t) <$> epoch c) None (lastMaxCongestionWindow c)
end.

Definition cubic_target (c : Cubic) (elapsedTime : Z) : Z :=
let offset := i64 (timeToOriginPoint c - elapsedTime) in
let offset := if decide (offset < 0) then i64 (- offset) else offset in
let delta := u64 (Z.shiftr (i64 (cubeCongestionWindowScale * offset * offset * offset)) cubeScale) in
if decide (timeToOriginPoint c < elapsedTime) then u64 (originPointCongestionWindow c + delta)
else u64 (originPointCongestionWindow c - delta).

Definition CongestionWindowAfterAck (c : Cubic) (currentCongestionWindow delayMin now : Z) : Cubic * Z :=
let c := set_counts c (u64 (ackedPacketsCount c + 1)) (estimatedTCPcongestionWindow c)
           (originPointCongestionWindow c) (timeToOriginPoint c) (lastTargetCongestionWindow c) in
if decide (lastCongestionWindow c = currentCongestionWindow ∧
           time_since now (lastUpdateTime c) ≤ maxCubicTimeInterval) then
  (c, MaxPacketNumber_ (lastTargetCongestionWindow c) (estimatedTCPcongestionWindow c))
else
  let c := set_update c (Some now) currentCongestionWindow in
  let c := match epoch c with
           | None => start_epoch c currentCongestionWindow now
           | Some _ => shift_epoch c now
           end in
  let target := cubic_target c (elapsed_time now delayMin (epoch c)) in
  let '(acked, estimated) := reno_loop (S (Z.to_nat (ackedPacketsCount c))) (numConnections c)
                               (ackedPacketsCount c) (estimatedTCPcongestionWindow c) in
  (set_counts c acked estimated (originPointCongestionWindow c) (timeToOriginPoint c) target,
   if decide (target < estimated) then estimated else target).
End cube_root.
End Cubic.

(** * The sender *)

Definition maxBurstBytes : Z := 3 * DefaultTCPMSS.
Definition defaultMinimumCongestionWindow : Z := 2.
Definition renoBeta : spec_float := beta07.
Definition InitialCongestionWindow : Z := 32.

Record cubicSender : Type := {
  hybridSlowStart : Hybrid.HybridSlowStart;
  prr : Prr.PrrSender;
  stats : connectionStats;
  cubic : Cubic.Cubic;
  reno : bool;
  largestSentPacketNumber : Z;
  largestAckedPacketNumber : Z;
  largestSentAtLastCutback : Z;
  congestionWindow : Z;
  slowstartThreshold : Z;
  lastCutbackExitedSlowstart : bool;
  slowStartLargeReduction : bool;
  minCongestionWindow : Z;
  maxTCPCongestionWindow : Z;
  numConnections : Z;
  congestionWindowCount : Z;
  initialCongestionWindow : Z;
  initialMaxCongestionWindow : Z
}.

Definition NewCubicSender (reno : bool) (initialCongestionWindow initialMaxCongestionWindow : Z) : cubicSender := {|
  hybridSlowStart := Hybrid.zero; prr := Prr.zero;
  stats := {| slowstartPacketsLost := 0; slowstartBytesLost := 0 |}; cubic := Cubic.NewCubic; reno := reno;
  largestSentPacketNumber := 0; largestAckedPacketNumber := 0; largestSentAtLastCutback := 0;
  congestionWindow := initialCongestionWindow; slowstartThreshold := initialMaxCongestionWindow;
  lastCutbackExitedSlowstart := false; slowStartLargeReduction := false;
  minCongestionWindow := defaultMinimumCongestionWindow; maxTCPCongestionWindow := initialMaxCongestionWindow;
  numConnections := defaultNumConnections; congestionWindowCount := 0;
  initialCongestionWindow := initialCongestionWindow; initialMaxCongestionWindow := initialMaxCongestionWindow
|}.

(** Assignments to groups of fields. *)
Definition set_window (c : cubicSender) (cb : Cubic.Cubic) (window threshold count : Z) : cubicSender := {|
  hybridSlowStart := hybridSlowStart c; prr := prr c; stats := stats c; cubic := cb; reno := reno c;
  largestSentPacketNumber := largestSentPacketNumber c; largestAckedPacketNumber := largestAckedPacketNumber c;
  largestSentAtLastCutback := largestSentAtLastCutback c; congestionWindow := window;
  slowstartThreshold := threshold; lastCutbackExitedSlowstart := lastCutbackExitedSlowstart c;
  slowStartLargeReduction := slowStartLargeReduction c; minCongestionWindow := minCongestionWindow c;
  maxTCPCongestionWindow := maxTCPCongestionWindow c; numConnections := numConnections c;
  congestionWindowCount := count; initialCongestionWindow := initialCongestionWindow c;
  initialMaxCongestionWindow := initialMaxCongestionWindow c
|}.
Definition set_packets (c : cubicSender) (hy : Hybrid.HybridSlowStart) (p : Prr.PrrSender)
    (sent acked cutback : Z) : cubicSender := {|
  hybridSlowStart := hy; prr := p; stats := stats c; cubic := cubic c; reno := reno c;
  largestSentPacketNumber := sent; largestAckedPacketNumber := acked; largestSentAtLastCutback := cutback;
  congestionWindow := congestionWindow c; slowstartThreshold := slowstartThreshold c;
  lastCutbackExitedSlowstart := lastCutbackExitedSlowstart c;
  slowStartLargeReduction := slowStartLargeReduction c; minCongestionWindow := minCongestionWindow c;
  maxTCPCongestionWindow := maxTCPCongestionWindow c; numConnections := numConnections c;
  congestionWindowCount := congestionWindowCount c; initialCongestionWindow := initialCongestionWindow c;
  initialMaxCongestionWindow := initialMaxCongestionWindow c
|}.
Definition set_stats (c : cubicSender) (st : connectionStats) (exited large : bool) (max n : Z)
    (cb : Cubic.Cubic) : cubicSender := {|
  hybridSlowStart := hybridSlowStart c; prr := prr c; stats := st; cubic := cb; reno := reno c;
  largestSentPacketNumber := largestSentPacketNumber c; largestAckedPacketNumber := largestAckedPacketNumber c;
  largestSentAtLastCutback := largestSentAtLastCutback c; congestionWindow := congestionWindow c;
  slowstartThreshold := slowstartThreshold c; lastCutbackExitedSlowstart := exited;
  slowStartLargeReduction := large; minCongestionWindow := minCongestionWindow c;
  maxTCPCongestionWindow := max; numConnections := n;
  congestionWindowCount := congestionWindowCount c; initialCongestionWindow := initialCongestionWindow c;
  initialMaxCongestionWindow := initialMaxCongestionWindow c
|}.

Definition InRecovery (c : cubicSender) : bool :=
  bool_decide (largestAckedPacketNumber c ≤ largestSentAtLastCutback c ∧ largestAckedPacketNumber c ≠ 0).
Definition cubic_GetCongestionWindow (c : cubicSender) : Z := u64 (congestionWindow c * DefaultTCPMSS).
Definition GetSlowStartThreshold (c : cubicSender) : Z := u64 (slowstartThreshold c * DefaultTCPMSS).
Definition InSlowStart (c : cubicSender) : bool :=
  bool_decide (cubic_GetCongestionWindow c < GetSlowStartThreshold c).
Definition ExitSlowstart (c : cubicSender) : cubicSender :=
  set_window c (cubic c) (congestionWindow c) (congestionWindow c) (congestionWindowCount c).

Definition cubic_TimeUntilSend (c : cubicSender) (bytesInFlight : Z) : Z :=
  if InRecovery c then Prr.TimeUntilSend (prr c) (cubic_GetCongestionWindow c) bytesInFlight (GetSlowStartThreshold c)
  else if decide (bytesInFlight < cubic_GetCongestionWindow c) then 0 else InfDuration.

Definition cubic_OnPacketSent (c : cubicSender) (packetNumber bytes : Z) (isRetransmittable : bool) :
    cubicSender * bool :=
  if isRetransmittable then
    let p := if InRecovery c then Prr.OnPacketSent (prr c) bytes else prr c in
    (set_packets c (Hybrid.OnPacketSent (hybridSlowStart c) packetNumber) p packetNumber
       (largestAckedPacketNumber c) (largestSentAtLastCutback c), true)
  else (c, false).

Definition cubic_MaybeExitSlowStart (r : RTTStats) (c : cubicSender) : cubicSender :=
  if InSlowStart c then
    let '(hy, exit) := Hybrid.ShouldExitSlowStart (hybridSlowStart c) (latestRTT r) (minRTT r)
                         (cubic_GetCongestionWindow c / DefaultTCPMSS) in
    let c := set_packets c hy (prr c) (largestSentPacketNumber c) (largestAckedPacketNumber c)
               (largestSentAtLastCutback c) in
    if (exit : bool) then ExitSlowstart c else c
  else c.

Definition isCwndLimited (c : cubicSender) (bytesInFlight : Z) : bool :=
  let window := cubic_GetCongestionWindow c in
  if decide (window ≤ bytesInFlight) then true
  else
    let availableBytes := u64 (window - bytesInFlight) in
    let slowStartLimited := InSlowStart c && bool_decide (window / 2 < bytesInFlight) in
    slowStartLimited || bool_decide (availableBytes ≤ maxBurstBytes).

(** [float32(n) - 1. + renoBeta) / float32(n)] *)
Definition RenoBeta (c : cubicSender) : spec_float :=
  F32.div (F32.add (F32.sub (F32.of_Z (numConnections c)) (F32.of_Z 1)) renoBeta) (F32.of_Z (numConnections c)).

Section sender.
Context (Cbrt : spec_float → spec_float).

Definition maybeIncreaseCwnd (r : RTTStats) (now : Z) (c : cubicSender) (bytesInFlight : Z) : cubicSender :=
  if isCwndLimited c bytesInFlight then
    if decide (maxTCPCongestionWindow c ≤ congestionWindow c) then c
    else if InSlowStart c then
      set_window c (cubic c) (u64 (congestionWindow c + 1)) (slowstartThreshold c) (congestionWindowCount c)
    else if reno c then
      let count := u64 (congestionWindowCount c + 1) in
      if decide (congestionWindow c ≤ u64 (count * u64 (numConnections c)))
      then set_window c (cubic c) (u64 (congestionWindow c + 1)) (slowstartThreshold c) 0
      else set_window c (cubic c) (congestionWindow c) (slowstartThreshold c) count
    else
      let '(cb, w) := Cubic.CongestionWindowAfterAck Cbrt (cubic c) (congestionWindow c) (minRTT r) now in
      set_window c cb (MinPacketNumber_ (maxTCPCongestionWindow c) w) (slowstartThreshold c)
        (congestionWindowCount c)
  else set_window c (Cubic.OnApplicationLimited (cubic c) now) (congestionWindow c) (slowstartThreshold c)
         (congestionWindowCount c).

Definition cubic_OnPacketAcked (r : RTTStats) (now : Z) (c : cubicSender)
    (ackedPacketNumber ackedBytes bytesInFlight : Z) : cubicSender :=
  let c := set_packets c (hybridSlowStart c) (prr c) (largestSentPacketNumber c)
             (MaxPacketNumber_ ackedPacketNumber (largestAckedPacketNumber c)) (largestSentAtLastCutback c) in
  if InRecovery c then
    set_packets c (hybridSlowStart c) (Prr.OnPacketAcked (prr c) ackedBytes) (largestSentPacketNumber c)
      (largestAckedPacketNumber c) (largestSentAtLastCutback c)
  else
    let c := maybeIncreaseCwnd r now c bytesInFlight in
    if InSlowStart c then
      set_packets c (Hybrid.OnPacketAcked (hybridSlowStart c) ackedPacketNumber) (prr c)
        (largestSentPacketNumber c) (largestAckedPacketNumber c) (largestSentAtLastCutback c)
    else c.

(** A loss in a round that was already cut back. *)
Definition loss_after_cutback (c : cubicSender) (lostBytes : Z) : cubicSender :=
  if lastCutbackExitedSlowstart c then
    let st := {| slowstartPacketsLost := u64 (slowstartPacketsLost (stats c) + 1);
                 slowstartBytesLost := u64 (slowstartBytesLost (stats c) + lostBytes) |} in
    let c := set_stats c st true (slowStartLargeReduction c) (maxTCPCongestionWindow c) (numConnections c) (cubic c) in
    if slowStartLargeReduction c then
      let window :=
        if decide (slowstartPacketsLost st = 1 ∨
                   u64 (slowstartBytesLost st - lostBytes) / DefaultTCPMSS < slowstartBytesLost st / DefaultTCPMSS)
        then MaxPacketNumber_ (u64 (congestionWindow c - 1)) (minCongestionWindow c)
        else congestionWindow c in
      set_window c (cubic c) window window (congestionWindowCount c)
    else c
  else c.

(** The first loss of a round cuts the window back. *)
Definition cutback (c : cubicSender) (bytesInFlight : Z) : cubicSender :=
  let slow := InSlowStart c in
  let st := if slow then {| slowstartPacketsLost := u64 (slowstartPacketsLost (stats c) + 1);
                            slowstartBytesLost := slowstartBytesLost (stats c) |} else stats c in
  let c := set_stats c st slow (slowStartLargeReduction c) (maxTCPCongestionWindow c) (numConnections c) (cubic c) in
  let '(cb, window) :=
    if slowStartLargeReduction c && slow then (cubic c, u64 (congestionWindow c - 1))
    else if reno c then (cubic c, float_u64 (F32.mul (F32.of_Z (congestionWindow c)) (RenoBeta c)))
    else Cubic.CongestionWindowAfterPacketLoss (cubic c) (congestionWindow c) in
  let window := if decide (window < minCongestionWindow c) then minCongestionWindow c else window in
  set_packets (set_window c cb window window 0) (hybridSlowStart c) (Prr.OnPacketLost (prr c) bytesInFlight)
    (largestSentPacketNumber c) (largestAckedPacketNumber c) (largestSentPacketNumber c).

Definition cubic_OnPacketLost (c : cubicSender) (packetNumber lostBytes bytesInFlight : Z) : cubicSender :=
  if decide (packetNumber ≤ largestSentAtLastCutback c) then loss_after_cutback c lostBytes
  else cutback c bytesInFlight.

Definition cubic_SetNumEmulatedConnections (c : cubicSender) (n : Z) : cubicSender :=
  let n := Z.max n 1 in
  set_stats c (stats c) (lastCutbackExitedSlowstart c) (slowStartLargeReduction c) (maxTCPCongestionWindow c) n
    (Cubic.SetNumConnections (cubic c) n).

Definition cubic_OnRetransmissionTimeout (c : cubicSender) (packetsRetransmitted : bool) : cubicSender :=
  let c := set_packets c (hybridSlowStart c) (prr c) (largestSentPacketNumber c) (largestAckedPacketNumber c) 0 in
  if packetsRetransmitted then
    set_window (set_packets c (Hybrid.Restart (hybridSlowStart c)) (prr c) (largestSentPacketNumber c)
                  (largestAckedPacketNumber c) 0)
      (Cubic.Reset (cubic c)) (minCongestionWindow c) (congestionWindow c / 2) (congestionWindowCount c)
  else c.

Definition cubic_OnConnectionMigration (c : cubicSender) : cubicSender :=
  let c := set_packets c (Hybrid.Restart (hybridSlowStart c)) Prr.zero 0 0 0 in
  let c := set_stats c (stats c) false (slowStartLargeReduction c) (initialMaxCongestionWindow c)
             (numConnections c) (cubic c) in
  set_window c (Cubic.Reset (cubic c)) (initialCongestionWindow c) (initialMaxCongestionWindow c) 0.

Definition cubic_SetSlowStartLargeReduction (c : cubicSender) (enabled : bool) : cubicSender :=
  set_stats c (stats c) (lastCutbackExitedSlowstart c) enabled (maxTCPCongestionWindow c) (numConnections c) (cubic c).

Definition cubic_RetransmissionDelay (r : RTTStats) : Z :=
  if decide (smoothedRTT r = 0) then 0 else i64 (smoothedRTT r + i64 (meanDeviation r * 4)).

Definition BandwidthEstimate (r : RTTStats) (c : cubicSender) : Z :=
  if decide (smoothedRTT r = 0) then 0 else BandwidthFromDelta (cubic_GetCongestionWindow c) (smoothedRTT r).

#[export] Instance cubic_algorithm : SendAlgorithm cubicSender := {
  TimeUntilSend c bytesInFlight := cubic_TimeUntilSend c bytesInFlight;
  OnPacketSent c _ _ packetNumber bytes isRetransmittable := cubic_OnPacketSent c packetNumber bytes isRetransmittable;
  GetCongestionWindow := cubic_GetCongestionWindow;
  MaybeExitSlowStart := cubic_MaybeExitSlowStart;
  OnPacketAcked := cubic_OnPacketAcked;
  OnPacketLost := cubic_OnPacketLost;
  SetNumEmulatedConnections := cubic_SetNumEmulatedConnections;
  OnRetransmissionTimeout := cubic_OnRetransmissionTimeout;
  OnConnectionMigration := cubic_OnConnectionMigration;
  RetransmissionDelay r _ := cubic_RetransmissionDelay r;
  SmoothedRTT r _ := smoothedRTT r;
  SetSlowStartLargeReduction := cubic_SetSlowStartLargeReduction
}.
End sender.

(** * Facts about the arithmetic *)

Lemma max_packet a b : MaxPacketNumber_ a b = Z.max a b.
Proof. unfold MaxPacketNumber_. case_decide; lia. Qed.
Lemma min_packet a b : MinPacketNumber_ a b = Z.min a b.
Proof. unfold MinPacketNumber_. case_decide; lia. Qed.

Definition DefaultMaxWindow : Z := 2500.
Fixpoint all_from (P : Z → bool) (n : nat) (z : Z) : bool :=
  match n with O => true | S n => P z && all_from P n (z + 1) end.
Lemma all_from_spec P n z e : all_from P n z = true → z ≤ e < z + Z.of_nat n → P e = true.
Proof.
  revert z. induction n as [|n IH]; intros z; cbn [all_from]; [lia|]. intros [Hz Hn]%andb_true_iff He.
  destruct (decide (e = z)) as [->|]; [done|]. apply (IH (z + 1)); [done|lia].
Qed.

(** In single precision, the backoff of two emulated connections is 85%. *)
Definition backs_off (w : Z) : bool :=
  bool_decide (float_u64 (F32.mul (F32.of_Z w) (Cubic.beta 2)) = 85 * w / 100).
Lemma backoff_table : all_from backs_off 2501 0 = true.
Proof. vm_compute. reflexivity. Qed.
Lemma backoff_85 w :
  0 ≤ w ≤ DefaultMaxWindow → float_u64 (F32.mul (F32.of_Z w) (Cubic.beta 2)) = 85 * w / 100.
Proof.
  intros Hw. pose proof (all_from_spec _ _ _ w backoff_table) as Hr. unfold backs_off in Hr.
  rewrite bool_decide_eq_true in Hr. apply Hr. unfold DefaultMaxWindow in Hw. lia.
Qed.

Lemma reno_loop_bounds fuel n acked est :
  0 ≤ acked → 0 ≤ est → est + Z.of_nat fuel < 2 ^ 64 →
  0 ≤ (Cubic.reno_loop fuel n acked est).1 ≤ acked ∧
  est ≤ (Cubic.reno_loop fuel n acked est).2 ≤ est + Z.of_nat fuel.
Proof.
  revert acked est. induction fuel as [|fuel IH]; intros acked est Ha He Hf; cbn [Cubic.reno_loop]; [cbn; lia|].
  case_decide as Hr; [cbn; lia|].
  pose proof (u64_range (float_trunc (F32.div (F32.of_Z est) (Cubic.alpha n)))) as Hu.
  fold (float_u64 (F32.div (F32.of_Z est) (Cubic.alpha n))) in Hu.
  fold (Cubic.requiredAckCount n est) in Hu.
  rewrite u64_small by lia. specialize (IH (acked - Cubic.requiredAckCount n est) (est + 1)). lia.
Qed.

(** The loop ends by its own test, not for lack of fuel. *)
Lemma reno_loop_ends fuel n acked est :
  0 ≤ acked < Z.of_nat fuel → 0 ≤ est → est + Z.of_nat fuel < 2 ^ 13 →
  (∀ e, est ≤ e < 2 ^ 13 → 1 ≤ Cubic.requiredAckCount n e) →
  (Cubic.reno_loop fuel n acked est).1 < Cubic.requiredAckCount n (Cubic.reno_loop fuel n acked est).2.
Proof.
  revert acked est. induction fuel as [|fuel IH]; intros acked est Ha He Hf Hreq; [lia|]. cbn [Cubic.reno_loop].
  case_decide as Hr; [done|]. specialize (Hreq est ltac:(lia)) as Hreq1.
  rewrite u64_small by lia. apply IH; try lia. intros e Hee. apply Hreq. lia.
Qed.

Definition requires_packets (e : Z) : bool := bool_decide (1 ≤ Cubic.requiredAckCount 2 e).
Lemma required_table : all_from requires_packets (Z.to_nat (2 ^ 13)) 1 = true.
Proof. vm_compute. reflexivity. Qed.
Lemma required_positive e : 1 ≤ e < 2 ^ 13 → 1 ≤ Cubic.requiredAckCount 2 e.
Proof.
  intros He. pose proof (all_from_spec _ _ _ e required_table) as Hr. unfold requires_packets in Hr.
  rewrite bool_decide_eq_true in Hr. apply Hr. lia.
Qed.

(** * The window over any run *)

Section run.
Context (Cbrt : spec_float → spec_float).

(** What the handler of sent packets reports.  The number of emulated connections, which only tests
    change, stays at two. *)
Inductive cc_event : Type :=
| CcSent (packetNumber bytes : Z) (isRetransmittable : bool)
| CcExitSlowStart (r : RTTStats)
| CcAcked (r : RTTStats) (now packetNumber bytes bytesInFlight : Z)
| CcLost (packetNumber bytes bytesInFlight : Z)
| CcTimeout (packetsRetransmitted : bool)
| CcMigrate
| CcLargeReduction (enabled : bool).

Definition cc_step (c : cubicSender) (e : cc_event) : cubicSender :=
  match e with
  | CcSent n b r => (cubic_OnPacketSent c n b r).1
  | CcExitSlowStart r => cubic_MaybeExitSlowStart r c
  | CcAcked r now n b f => cubic_OnPacketAcked Cbrt r now c n b f
  | CcLost n b f => cubic_OnPacketLost c n b f
  | CcTimeout b => cubic_OnRetransmissionTimeout c b
  | CcMigrate => cubic_OnConnectionMigration c
  | CcLargeReduction b => cubic_SetSlowStartLargeReduction c b
  end.

(** How far the estimate of Reno's window can have grown after [k] events. *)
Definition estimate_bound (k : Z) : Z := DefaultMaxWindow + (k + 2) * (k + 2).

(** The state of the cubic function after [k] events. *)
Record curve_ok (k : Z) (cb : Cubic.Cubic) : Prop := {
  cv_connections : Cubic.numConnections cb = 2;
  cv_acked : 0 ≤ Cubic.ackedPacketsCount cb ≤ k;
  cv_estimate : 0 ≤ Cubic.estimatedTCPcongestionWindow cb ≤ estimate_bound k;
  cv_epoch : Cubic.epoch cb ≠ None ∨ Cubic.lastCongestionWindow cb ≠ 0 →
             2 ≤ Cubic.estimatedTCPcongestionWindow cb
}.

Record cubic_ok (M k : Z) (c : cubicSender) : Prop := {
  ck_limits : maxTCPCongestionWindow c = M ∧ initialMaxCongestionWindow c = M ∧
              minCongestionWindow c = 2 ∧ numConnections c = 2;
  ck_initial : 2 ≤ initialCongestionWindow c ≤ M;
  ck_window : 2 ≤ congestionWindow c ≤ M;
  ck_threshold : 0 ≤ slowstartThreshold c ≤ M;
  ck_curve : curve_ok k (cubic c)
}.

Lemma curve_later k k' cb : k ≤ k' → 0 ≤ k → curve_ok k cb → curve_ok k' cb.
Proof. intros Hk H0 [H1 H2 H3 H4]. split; try done; unfold estimate_bound in *; nia. Qed.

Lemma cubic_later M k k' c : k ≤ k' → 0 ≤ k → cubic_ok M k c → cubic_ok M k' c.
Proof. intros Hk H0 [H1 H2 H3 H4 H5]. split; try done. by eapply curve_later. Qed.

Lemma curve_reset k cb : 0 ≤ k → curve_ok k cb → curve_ok k (Cubic.Reset cb).
Proof. intros Hk [H1 H2 H3 H4]. split; cbn; [done|lia|unfold estimate_bound, DefaultMaxWindow; nia|by intros [?|?]]. Qed.

Lemma curve_app_limited k cb now : curve_ok k cb → curve_ok k (Cubic.OnApplicationLimited cb now).
Proof.
  intros [H1 H2 H3 H4]. unfold Cubic.OnApplicationLimited.
  destruct (Cubic.appLimitedStartTime cb); by split.
Qed.

Lemma curve_lost k cb w :
  0 ≤ w ≤ DefaultMaxWindow → curve_ok k cb →
  curve_ok k (Cubic.CongestionWindowAfterPacketLoss cb w).1 ∧
  (Cubic.CongestionWindowAfterPacketLoss cb w).2 = 85 * w / 100.
Proof.
  intros Hw [H1 H2 H3 H4]. cbn. rewrite H1, backoff_85 by done. split; [|done].
  split; cbn; try done. intros [?|?]; [done|]. apply H4. by right.
Qed.

(** Starting or shifting an epoch keeps the estimate a window. *)
Lemma curve_epoch k cb w now :
  0 ≤ k → 2 ≤ w ≤ DefaultMaxWindow →
  Cubic.numConnections cb = 2 → 0 ≤ Cubic.ackedPacketsCount cb ≤ k + 1 →
  (Cubic.epoch cb ≠ None → 2 ≤ Cubic.estimatedTCPcongestionWindow cb) →
  let cb' := match Cubic.epoch cb with
             | None => Cubic.start_epoch Cbrt cb w now
             | Some _ => Cubic.shift_epoch cb now
             end in
  Cubic.numConnections cb' = 2 ∧ 0 ≤ Cubic.ackedPacketsCount cb' ≤ k + 1 ∧
  2 ≤ Cubic.estimatedTCPcongestionWindow cb' ∧
  Cubic.estimatedTCPcongestionWindow cb' ≤ Z.max w (Cubic.estimatedTCPcongestionWindow cb).
Proof.
  intros Hk Hw H1 H2 H3. destruct (Cubic.epoch cb) as [t|].
  - unfold Cubic.shift_epoch. assert (2 ≤ Cubic.estimatedTCPcongestionWindow cb) by (by apply H3).
    destruct (Cubic.appLimitedStartTime cb); cbn; lia.
  - unfold Cubic.start_epoch. case_decide; cbn; lia.
Qed.

Lemma curve_acked k cb w d now :
  0 ≤ k < 2 ^ 31 → 2 ≤ w ≤ DefaultMaxWindow → curve_ok k cb →
  curve_ok (k + 1) (Cubic.CongestionWindowAfterAck Cbrt cb w d now).1 ∧
  2 ≤ (Cubic.CongestionWindowAfterAck Cbrt cb w d now).2.
Proof.
  intros Hk Hw [H1 H2 H3 H4]. unfold Cubic.CongestionWindowAfterAck. cbn zeta.
  set (c1 := Cubic.set_counts cb _ _ _ _ _).
  assert (Cubic.ackedPacketsCount c1 = Cubic.ackedPacketsCount cb + 1) as Ea by (cbn; apply u64_small; lia).
  case_decide as Hq.
  - destruct Hq as [Hq _]. change (Cubic.lastCongestionWindow c1) with (Cubic.lastCongestionWindow cb) in Hq.
    assert (2 ≤ Cubic.estimatedTCPcongestionWindow cb) by (apply H4; right; lia).
    split; [|cbn [snd]; rewrite max_packet; cbn; lia].
    split; [done|cbn [fst]; rewrite Ea; lia|cbn; unfold estimate_bound in *; nia|done].
  - set (c2 := Cubic.set_update c1 (Some now) w).
    destruct (curve_epoch k c2 w now) as (E1 & E2 & E3 & E4);
      [lia|done|done|change (Cubic.ackedPacketsCount c2) with (Cubic.ackedPacketsCount c1); lia
      |intros He; apply H4; by left|].
    change (Cubic.estimatedTCPcongestionWindow c2) with (Cubic.estimatedTCPcongestionWindow cb) in E4.
    set (c3 := match Cubic.epoch c2 with Some _ => _ | None => _ end) in *.
    destruct (reno_loop_bounds (S (Z.to_nat (Cubic.ackedPacketsCount c3))) (Cubic.numConnections c3)
      (Cubic.ackedPacketsCount c3) (Cubic.estimatedTCPcongestionWindow c3)) as [B1 B2];
      [lia|lia|unfold estimate_bound, DefaultMaxWindow in *; nia|].
    destruct (Cubic.reno_loop _ _ _ _) as [acked est]. cbn [fst snd] in *.
    split; [|case_decide; lia].
    split; cbn; [done|lia|unfold estimate_bound, DefaultMaxWindow in *; nia|lia].
Qed.

Lemma loss_after_cutback_ok M k c b : cubic_ok M k c → M ≤ DefaultMaxWindow → cubic_ok M k (loss_after_cutback c b).
Proof.
  intros Hc HM. pose proof Hc as [(L1 & L2 & L3 & L4) H2 H3 H4 H5]. unfold loss_after_cutback.
  destruct (lastCutbackExitedSlowstart c); [|done]. cbn zeta.
  destruct (slowStartLargeReduction _); [|by split].
  unfold DefaultMaxWindow in *.
  split; cbn; try done; (case_decide; [rewrite max_packet, L3, u64_small by lia|]; lia).
Qed.

Lemma cutback_ok M k c f :
  cubic_ok M k c → M ≤ DefaultMaxWindow →
  cubic_ok M k (cutback c f) ∧
  congestionWindow (cutback c f) =
    Z.max 2 (if slowStartLargeReduction c && InSlowStart c then congestionWindow c - 1
             else 85 * congestionWindow c / 100).
Proof.
  intros [(L1 & L2 & L3 & L4) H2 H3 H4 H5] HM. unfold cutback. cbn zeta.
  set (c1 := set_stats c _ _ _ _ _ _).
  assert (slowStartLargeReduction c1 = slowStartLargeReduction c) as -> by done.
  set (slow := InSlowStart c).
  assert (∃ cb w, (if slowStartLargeReduction c && slow then (cubic c1, u64 (congestionWindow c1 - 1))
     else if reno c1 then (cubic c1, float_u64 (F32.mul (F32.of_Z (congestionWindow c1)) (RenoBeta c1)))
     else Cubic.CongestionWindowAfterPacketLoss (cubic c1) (congestionWindow c1)) = (cb, w) ∧
     curve_ok k cb ∧
     w = if slowStartLargeReduction c && slow then congestionWindow c - 1 else 85 * congestionWindow c / 100)
    as (cb & w & -> & Hcb & Hw).
  { destruct (slowStartLargeReduction c && slow).
    - eexists _, _. split; [done|]. split; [done|]. cbn. apply u64_small. unfold DefaultMaxWindow in *. lia.
    - destruct (reno c1).
      + eexists _, _. split; [done|]. split; [done|]. unfold RenoBeta. cbn [numConnections set_stats c1]. rewrite L4.
        apply backoff_85. lia.
      + destruct (curve_lost k (cubic c) (congestionWindow c)) as [K1 K2]; [lia|done|].
        eexists _, _. split; [apply surjective_pairing|]. done. }
  change (minCongestionWindow c1) with (minCongestionWindow c). rewrite L3.
  assert (w ≤ congestionWindow c) as Hle.
  { rewrite Hw. destruct (_ && _); [lia|]. apply Z.div_le_upper_bound; lia. }
  assert ((if decide (w < 2) then 2 else w) = Z.max 2 w) as -> by (case_decide; lia).
  split; [|cbn; by rewrite Hw]. split; cbn; try done; lia.
Qed.

Lemma increase_ok M k r now c f :
  0 ≤ k < 2 ^ 31 → M ≤ DefaultMaxWindow → cubic_ok M k c → cubic_ok M (k + 1) (maybeIncreaseCwnd Cbrt r now c f).
Proof.
  intros Hk HM Hc. pose proof (cubic_later M k (k + 1) c ltac:(lia) ltac:(lia) Hc) as Hc'.
  destruct Hc as [L H2 H3 H4 H5]. destruct Hc' as [(L1 & L2 & L3 & L4) _ _ _ H5'].
  unfold maybeIncreaseCwnd. destruct (isCwndLimited c f).
  - case_decide as Hmax; [done|]. unfold DefaultMaxWindow in *.
    destruct (InSlowStart c); [split; cbn; try done; rewrite u64_small by lia; lia|].
    destruct (reno c).
    + case_decide; split; cbn; try done; rewrite u64_small by lia; lia.
    + destruct (curve_acked k (cubic c) (congestionWindow c) (minRTT r) now) as [K1 K2];
        [done|unfold DefaultMaxWindow; lia|done|].
      destruct (Cubic.CongestionWindowAfterAck _ _ _ _ _) as [cb w]. cbn [fst snd] in *.
      split; cbn; try done. rewrite min_packet. lia.
  - split; cbn; try done. by apply curve_app_limited.
Qed.

Lemma packets_ok M k c hy p s a l : cubic_ok M k c → cubic_ok M k (set_packets c hy p s a l).
Proof. intros [H1 H2 H3 H4 H5]. by split. Qed.

Lemma cc_step_ok M k c e :
  0 ≤ k < 2 ^ 31 → M ≤ DefaultMaxWindow → cubic_ok M k c → cubic_ok M (k + 1) (cc_step c e).
Proof.
  intros Hk HM Hc. pose proof (cubic_later M k (k + 1) c ltac:(lia) ltac:(lia) Hc) as Hc'.
  destruct e as [n b r|r|r now n b f|n b f|b| |b]; cbn [cc_step].
  - unfold cubic_OnPacketSent. destruct r; [by apply packets_ok|done].
  - unfold cubic_MaybeExitSlowStart. destruct (InSlowStart c); [|done].
    destruct (Hybrid.ShouldExitSlowStart _ _ _ _) as [hy exit].
    destruct Hc' as [H1 H2 H3 H4 H5]. destruct exit; split; cbn; done || lia.
  - unfold cubic_OnPacketAcked. destruct (InRecovery _); [by apply packets_ok, packets_ok|]. cbn zeta.
    match goal with |- context [InSlowStart ?x] => assert (cubic_ok M (k + 1) x) by (by apply increase_ok, packets_ok) end.
    destruct (InSlowStart _); [by apply packets_ok|done].
  - unfold cubic_OnPacketLost. case_decide; [by apply loss_after_cutback_ok|by apply cutback_ok].
  - unfold cubic_OnRetransmissionTimeout. destruct b; [|by apply packets_ok].
    destruct Hc' as [(L1 & L2 & L3 & L4) H2 H3 H4 H5]. split; cbn; try done.
    + rewrite L3. lia.
    + split; [apply Z.div_pos; lia|apply Z.div_le_upper_bound; lia].
    + apply curve_reset; [lia|done].
  - unfold cubic_OnConnectionMigration.
    destruct Hc' as [(L1 & L2 & L3 & L4) H2 H3 H4 H5]. split; cbn; try done; [lia|].
    apply curve_reset; [lia|done].
  - destruct Hc'. by split.
Qed.

Lemma cc_run_ok M k c es :
  0 ≤ k → k + zlen es < 2 ^ 31 → M ≤ DefaultMaxWindow → cubic_ok M k c →
  cubic_ok M (k + zlen es) (foldl cc_step c es).
Proof.
  intros Hk Hl HM Hc. revert k c Hk Hl Hc. induction es as [|e es IH]; intros k c Hk Hl Hc.
  - by rewrite Z.add_0_r.
  - rewrite zlen_cons in *. pose proof (zlen_nonneg es). cbn [foldl]. rewrite Z.add_assoc.
    apply IH; [lia|lia|]. apply cc_step_ok; [lia|done|done].
Qed.

Lemma new_cubic_ok reno initial M :
  2 ≤ initial ≤ M → cubic_ok M 0 (NewCubicSender reno initial M).
Proof.
  intros H. split; cbn; try done; [lia..|].
  split; cbn; [done|lia|unfold estimate_bound, DefaultMaxWindow; lia|by intros [?|?]].
Qed.

(** C30: Over any run of a connection (fewer than 2^31 events, whatever the clock, the samples and
    [math.Cbrt]), Cubic and Reno keep the congestion window between the minimum of 2 packets and the
    maximum they were created with, so the window in bytes does not wrap around. *)
Theorem cubic_window_bounded reno initial M es :
  2 ≤ initial ≤ M → M ≤ DefaultMaxWindow → zlen es < 2 ^ 31 →
  let c := foldl cc_step (NewCubicSender reno initial M) es in
  2 ≤ congestionWindow c ≤ M ∧ 0 ≤ slowstartThreshold c ≤ M ∧
  cubic_GetCongestionWindow c = congestionWindow c * DefaultTCPMSS.
Proof.
  intros Hi HM Hl c.
  destruct (cc_run_ok M 0 (NewCubicSender reno initial M) es) as [_ _ H1 H2 _]; [lia|lia|done|by apply new_cubic_ok|].
  fold c in H1, H2. split; [done|]. split; [done|]. apply u64_small. unfold DefaultMaxWindow, DefaultTCPMSS in *. lia.
Qed.

Lemma cutback_packets c f :
  largestSentAtLastCutback (cutback c f) = largestSentPacketNumber c ∧
  largestAckedPacketNumber (cutback c f) = largestAckedPacketNumber c ∧
  slowStartLargeReduction (cutback c f) = slowStartLargeReduction c.
Proof.
  unfold cutback. cbn zeta.
  match goal with |- context [let '(_, _) := ?x in _] => destruct x end. done.
Qed.

(** Within a round that was cut back the window stays. *)
Lemma recovery_keeps_window S c late :
  largestSentAtLastCutback c = S → largestAckedPacketNumber c ≤ S → slowStartLargeReduction c = false →
  Forall (λ e, match e with
               | CcLost n _ _ => n ≤ S
               | CcAcked _ _ n _ _ => 1 ≤ n ≤ S
               | _ => False
               end) late →
  congestionWindow (foldl cc_step c late) = congestionWindow c.
Proof.
  revert c. induction late as [|e late IH]; intros c HS Ha Hl HF; [done|].
  apply Forall_cons in HF as [He HF]. cbn [foldl]. destruct e as [| |r now n b f|n b f| | |]; try done.
  - assert (∃ p a, cc_step c (CcAcked r now n b f) =
      set_packets c (hybridSlowStart c) p (largestSentPacketNumber c) a (largestSentAtLastCutback c) ∧ a ≤ S)
      as (p & a & E & Hle).
    { cbn [cc_step]. unfold cubic_OnPacketAcked.
      assert (InRecovery (set_packets c (hybridSlowStart c) (prr c) (largestSentPacketNumber c)
        (MaxPacketNumber_ n (largestAckedPacketNumber c)) (largestSentAtLastCutback c)) = true) as ->.
      { apply bool_decide_eq_true. cbn. rewrite max_packet. lia. }
      eexists _, _. split; [reflexivity|]. cbn. rewrite max_packet. lia. }
    rewrite E. by rewrite IH.
  - assert (∃ st, cc_step c (CcLost n b f) =
      set_stats c st (lastCutbackExitedSlowstart c) false (maxTCPCongestionWindow c) (numConnections c) (cubic c))
      as (st & E).
    { cbn [cc_step]. unfold cubic_OnPacketLost. rewrite decide_True by lia. unfold loss_after_cutback.
      destruct (lastCutbackExitedSlowstart c) eqn:El.
      - cbn zeta. cbn [slowStartLargeReduction set_stats]. rewrite Hl. by eexists.
      - exists (stats c). destruct c. cbn in *. by subst. }
    rewrite E. by rewrite IH.
Qed.

(** C29: A round of losses cuts the window back once: the loss of a packet sent after the last cutback
    sets it to 85% of itself, but at least 2 packets, and until a packet sent after the cutback is
    acknowledged, losses and acknowledgements of earlier packets leave the window alone. *)
Theorem one_cutback_per_round reno initial M es lost bytes inflight late :
  2 ≤ initial ≤ M → M ≤ DefaultMaxWindow → zlen es < 2 ^ 31 →
  let c := foldl cc_step (NewCubicSender reno initial M) es in
  slowStartLargeReduction c = false → largestSentAtLastCutback c < lost →
  let cut := cubic_OnPacketLost c lost bytes inflight in
  congestionWindow cut = Z.max 2 (85 * congestionWindow c / 100) ∧
  (Forall (λ e, match e with
                | CcLost n _ _ => n ≤ largestSentPacketNumber c
                | CcAcked _ _ n _ _ => 1 ≤ n ≤ largestSentPacketNumber c
                | _ => False
                end) late →
   largestAckedPacketNumber c ≤ largestSentPacketNumber c →
   congestionWindow (foldl cc_step cut late) = congestionWindow cut).
Proof.
  intros Hi HM Hl c Hlarge Hlost cut.
  pose proof (cc_run_ok M 0 (NewCubicSender reno initial M) es ltac:(lia) ltac:(lia) HM (new_cubic_ok _ _ _ Hi)) as Hc.
  fold c in Hc. destruct (cutback_ok _ _ _ inflight Hc HM) as [_ Ew]. rewrite Hlarge in Ew.
  assert (cut = cutback c inflight) as Ec.
  { unfold cut, cubic_OnPacketLost. by rewrite decide_False by lia. }
  clearbody cut. subst cut. split; [done|]. intros HF Hacked. pose proof (cutback_packets c inflight) as (E1 & E2 & E3).
  apply (recovery_keeps_window (largestSentPacketNumber c)); rewrite ?E1, ?E2, ?E3; done.
Qed.
End run.

(** A run that grows the window from 32 to 40 packets, loses packet 45 and, before a later packet is
    acknowledged, packet 44. *)
Definition sample_growth : list cc_event :=
  ((λ n, CcSent n 1350 true) <$> seqZ 1 50) ++ ((λ n, CcAcked NewRTTStats 0 n 1350 100000) <$> seqZ 1 8).
Definition sample_late : list cc_event :=
  [CcLost 44 1350 90000; CcAcked NewRTTStats 0 46 1350 88000; CcAcked NewRTTStats 0 50 1350 86000].
Local Notation sample_cubic := (foldl (cc_step id) (NewCubicSender false 32 2500) sample_growth).

Lemma cubic_window_bounded_witness :
  2 ≤ congestionWindow sample_cubic ≤ 2500 ∧ 0 ≤ slowstartThreshold sample_cubic ≤ 2500 ∧
  cubic_GetCongestionWindow sample_cubic = congestionWindow sample_cubic * DefaultTCPMSS ∧
  congestionWindow sample_cubic = 40.
Proof.
  destruct (cubic_window_bounded id false 32 2500 sample_growth) as (H1 & H2 & H3);
    [lia|unfold DefaultMaxWindow; lia|vm_compute; reflexivity|].
  split; [exact H1|]. split; [exact H2|]. split; [exact H3|]. vm_compute. reflexivity.
Defined.

Lemma sample_late_ok :
  Forall (λ e, match e with
               | CcLost n _ _ => n ≤ largestSentPacketNumber sample_cubic
               | CcAcked _ _ n _ _ => 1 ≤ n ≤ largestSentPacketNumber sample_cubic
               | _ => False
               end) sample_late.
Proof.
  assert (largestSentPacketNumber sample_cubic = 50) as -> by (vm_compute; reflexivity).
  repeat constructor; lia.
Qed.
Lemma sample_acked_before : largestAckedPacketNumber sample_cubic ≤ largestSentPacketNumber sample_cubic.
Proof. vm_compute. intros ?. done. Qed.
Lemma one_cutback_per_round_witness :
  let cut := cubic_OnPacketLost sample_cubic 45 1350 95000 in
  congestionWindow cut = 34 ∧ congestionWindow (foldl (cc_step id) cut sample_late) = 34.
Proof.
  intros cut.
  destruct (one_cutback_per_round id false 32 2500 sample_growth 45 1350 95000 sample_late) as [H1 H2];
    [lia|unfold DefaultMaxWindow; lia|vm_compute; reflexivity|vm_compute; reflexivity|vm_compute; reflexivity|].
  assert (congestionWindow cut = 34) as E by (vm_compute; reflexivity).
  split; [exact E|]. exact (eq_trans (H2 sample_late_ok sample_acked_before) E).
Defined.

Close Scope Z_scope.
