(* ===== verification/OliaSender.v ===== *)
(** The OLIA congestion controller, coupled over the paths of a connection
    (src/mp-quic/congestion: olia.go, olia_sender.go).

    The senders of all paths share a map; an acknowledgement on one path reads the
    windows and round-trip times of all and sets the [epsilon] of all.  Operations take
    the map and the path they are called on.  The order in which the first loop of
    [getEpsilon] ranges over the map is an argument; the other loops do not depend on
    it. *)

From Stdlib Require Import ZArith Lia SpecFloat QArith Qring.
From stdpp Require Import prelude numbers list gmap.
From S2P Require Import Prelude Wire ReceivedPackets Handshake RTTStats CubicSender.

Open Scope Z_scope.

(** * The algorithm of one path *)

Definition scale : Z := 10.

Record Olia : Type := {
  loss1 : Z; loss2 : Z; loss3 : Z; epsilonNum : Z; epsilonDen : Z; sndCwndCnt : Z
}.
Definition NewOlia (ackedBytes : Z) : Olia := {|
  loss1 := ackedBytes; loss2 := ackedBytes; loss3 := ackedBytes; epsilonNum := 0; epsilonDen := 1; sndCwndCnt := 0
|}.
Definition oliaScale (val scale : Z) : Z := u64 (Z.shiftl val scale).
Definition olia_Reset (o : Olia) : Olia := {|
  loss1 := 0; loss2 := 0; loss3 := 0; epsilonNum := 0; epsilonDen := 1; sndCwndCnt := 0
|}.
Definition SmoothedBytesBetweenLosses (o : Olia) : Z :=
  Z.max (u64 (loss3 o - loss2 o)) (u64 (loss2 o - loss1 o)).
Definition UpdateAckedSinceLastLoss (o : Olia) (ackedBytes : Z) : Olia := {|
  loss1 := loss1 o; loss2 := loss2 o; loss3 := u64 (loss3 o + ackedBytes);
  epsilonNum := epsilonNum o; epsilonDen := epsilonDen o; sndCwndCnt := sndCwndCnt o
|}.
Definition olia_loss (o : Olia) : Olia := {|
  loss1 := loss2 o; loss2 := loss3 o; loss3 := loss3 o;
  epsilonNum := epsilonNum o; epsilonDen := epsilonDen o; sndCwndCnt := sndCwndCnt o
|}.
Definition set_epsilon (o : Olia) (num den : Z) : Olia := {|
  loss1 := loss1 o; loss2 := loss2 o; loss3 := loss3 o;
  epsilonNum := num; epsilonDen := den; sndCwndCnt := sndCwndCnt o
|}.
Definition set_count (o : Olia) (n : Z) : Olia := {|
  loss1 := loss1 o; loss2 := loss2 o; loss3 := loss3 o;
  epsilonNum := epsilonNum o; epsilonDen := epsilonDen o; sndCwndCnt := n
|}.

(** The change of the counter, in 2^-10 packets. *)
Definition olia_increment (o : Olia) (currentCongestionWindow rate cwndScaled : Z) : Z :=
  let incDen := u64 (u64 (epsilonDen o * currentCongestionWindow) * rate) in
  let incDen := if decide (incDen = 0) then 1 else incDen in
  let squared := u64 (u64 (epsilonDen o * cwndScaled) * cwndScaled) in
  let part incNum := i64 (oliaScale incNum scale / incDen) in
  if decide (epsilonNum o = -1) then
    if decide (squared < rate) then i64 (- part (u64 (rate - squared))) else part (u64 (squared - rate))
  else part (u64 (u64 (u64 (epsilonNum o) * rate) + squared)).

Definition olia_CongestionWindowAfterAck (o : Olia) (currentCongestionWindow rate cwndScaled : Z) : Olia * Z :=
  let count := i64 (sndCwndCnt o + olia_increment o currentCongestionWindow rate cwndScaled) in
  if decide (2 ^ scale - 1 ≤ count) then (set_count o 0, u64 (currentCongestionWindow + 1))
  else if decide (count ≤ 0 - 2 ^ scale + 1) then
    (set_count o 0, MaxPacketNumber_ 1 (u64 (currentCongestionWindow - 1)))
  else (set_count o count, currentCongestionWindow).

(** * The senders *)

Record OliaSender : Type := {
  o_hybridSlowStart : Hybrid.HybridSlowStart;
  o_prr : Prr.PrrSender;
  o_rttStats : RTTStats;
  o_stats : connectionStats;
  o_olia : Olia;
  o_largestSentPacketNumber : Z;
  o_largestAckedPacketNumber : Z;
  o_largestSentAtLastCutback : Z;
  o_congestionWindow : Z;
  o_slowstartThreshold : Z;
  o_lastCutbackExitedSlowstart : bool;
  o_slowStartLargeReduction : bool;
  o_minCongestionWindow : Z;
  o_maxTCPCongestionWindow : Z;
  o_numConnections : Z;
  o_congestionWindowCount : Z;
  o_initialCongestionWindow : Z;
  o_initialMaxCongestionWindow : Z
}.

Definition NewOliaSender (stats : RTTStats) (initialCongestionWindow initialMaxCongestionWindow : Z) :
    OliaSender := {|
  o_hybridSlowStart := Hybrid.zero; o_prr := Prr.zero; o_rttStats := stats;
  o_stats := {| slowstartPacketsLost := 0; slowstartBytesLost := 0 |}; o_olia := NewOlia 0;
  o_largestSentPacketNumber := 0; o_largestAckedPacketNumber := 0; o_largestSentAtLastCutback := 0;
  o_congestionWindow := initialCongestionWindow; o_slowstartThreshold := initialMaxCongestionWindow;
  o_lastCutbackExitedSlowstart := false; o_slowStartLargeReduction := false;
  o_minCongestionWindow := defaultMinimumCongestionWindow;
  o_maxTCPCongestionWindow := initialMaxCongestionWindow; o_numConnections := defaultNumConnections;
  o_congestionWindowCount := 0; o_initialCongestionWindow := initialCongestionWindow;
  o_initialMaxCongestionWindow := initialMaxCongestionWindow
|}.

(** Assignments to groups of fields. *)
Definition o_set_window (o : OliaSender) (ol : Olia) (window threshold count : Z) : OliaSender := {|
  o_hybridSlowStart := o_hybridSlowStart o; o_prr := o_prr o; o_rttStats := o_rttStats o; o_stats := o_stats o;
  o_olia := ol; o_largestSentPacketNumber := o_largestSentPacketNumber o;
  o_largestAckedPacketNumber := o_largestAckedPacketNumber o;
  o_largestSentAtLastCutback := o_largestSentAtLastCutback o; o_congestionWindow := window;
  o_slowstartThreshold := threshold; o_lastCutbackExitedSlowstart := o_lastCutbackExitedSlowstart o;
  o_slowStartLargeReduction := o_slowStartLargeReduction o; o_minCongestionWindow := o_minCongestionWindow o;
  o_maxTCPCongestionWindow := o_maxTCPCongestionWindow o; o_numConnections := o_numConnections o;
  o_congestionWindowCount := count; o_initialCongestionWindow := o_initialCongestionWindow o;
  o_initialMaxCongestionWindow := o_initialMaxCongestionWindow o
|}.
Definition o_set_packets (o : OliaSender) (hy : Hybrid.HybridSlowStart) (p : Prr.PrrSender)
    (sent acked cutback : Z) : OliaSender := {|
  o_hybridSlowStart := hy; o_prr := p; o_rttStats := o_rttStats o; o_stats := o_stats o; o_olia := o_olia o;
  o_largestSentPacketNumber := sent; o_largestAckedPacketNumber := acked;
  o_largestSentAtLastCutback := cutback; o_congestionWindow := o_congestionWindow o;
  o_slowstartThreshold := o_slowstartThreshold o;
  o_lastCutbackExitedSlowstart := o_lastCutbackExitedSlowstart o;
  o_slowStartLargeReduction := o_slowStartLargeReduction o; o_minCongestionWindow := o_minCongestionWindow o;
  o_maxTCPCongestionWindow := o_maxTCPCongestionWindow o; o_numConnections := o_numConnections o;
  o_congestionWindowCount := o_congestionWindowCount o;
  o_initialCongestionWindow := o_initialCongestionWindow o;
  o_initialMaxCongestionWindow := o_initialMaxCongestionWindow o
|}.
Definition o_set_stats (o : OliaSender) (r : RTTStats) (st : connectionStats) (exited large : bool) (max n : Z) :
    OliaSender := {|
  o_hybridSlowStart := o_hybridSlowStart o; o_prr := o_prr o; o_rttStats := r; o_stats := st;
  o_olia := o_olia o; o_largestSentPacketNumber := o_largestSentPacketNumber o;
  o_largestAckedPacketNumber := o_largestAckedPacketNumber o;
  o_largestSentAtLastCutback := o_largestSentAtLastCutback o; o_congestionWindow := o_congestionWindow o;
  o_slowstartThreshold := o_slowstartThreshold o; o_lastCutbackExitedSlowstart := exited;
  o_slowStartLargeReduction := large; o_minCongestionWindow := o_minCongestionWindow o;
  o_maxTCPCongestionWindow := max; o_numConnections := n;
  o_congestionWindowCount := o_congestionWindowCount o;
  o_initialCongestionWindow := o_initialCongestionWindow o;
  o_initialMaxCongestionWindow := o_initialMaxCongestionWindow o
|}.

Definition o_InRecovery (o : OliaSender) : bool :=
  bool_decide (o_largestAckedPacketNumber o ≤ o_largestSentAtLastCutback o ∧ o_largestAckedPacketNumber o ≠ 0).
Definition o_GetCongestionWindow (o : OliaSender) : Z := u64 (o_congestionWindow o * DefaultTCPMSS).
Definition o_GetSlowStartThreshold (o : OliaSender) : Z := u64 (o_slowstartThreshold o * DefaultTCPMSS).
Definition o_InSlowStart (o : OliaSender) : bool :=
  bool_decide (o_GetCongestionWindow o < o_GetSlowStartThreshold o).
Definition o_ExitSlowstart (o : OliaSender) : OliaSender :=
  o_set_window o (o_olia o) (o_congestionWindow o) (o_congestionWindow o) (o_congestionWindowCount o).
Definition o_TimeUntilSend (o : OliaSender) (bytesInFlight : Z) : Z :=
  if o_InRecovery o
  then Prr.TimeUntilSend (o_prr o) (o_GetCongestionWindow o) bytesInFlight (o_GetSlowStartThreshold o)
  else if decide (bytesInFlight < o_GetCongestionWindow o) then 0 else InfDuration.
Definition o_OnPacketSent (o : OliaSender) (packetNumber bytes : Z) (isRetransmittable : bool) : OliaSender * bool :=
  if isRetransmittable then
    let p := if o_InRecovery o then Prr.OnPacketSent (o_prr o) bytes else o_prr o in
    (o_set_packets o (Hybrid.OnPacketSent (o_hybridSlowStart o) packetNumber) p packetNumber
       (o_largestAckedPacketNumber o) (o_largestSentAtLastCutback o), true)
  else (o, false).
Definition o_MaybeExitSlowStart (o : OliaSender) : OliaSender :=
  if o_InSlowStart o then
    let '(hy, exit) := Hybrid.ShouldExitSlowStart (o_hybridSlowStart o) (latestRTT (o_rttStats o))
                         (minRTT (o_rttStats o)) (o_GetCongestionWindow o / DefaultTCPMSS) in
    let o := o_set_packets o hy (o_prr o) (o_largestSentPacketNumber o) (o_largestAckedPacketNumber o)
               (o_largestSentAtLastCutback o) in
    if (exit : bool) then o_ExitSlowstart o else o
  else o.
Definition o_isCwndLimited (o : OliaSender) (bytesInFlight : Z) : bool :=
  let window := o_GetCongestionWindow o in
  if decide (window ≤ bytesInFlight) then true
  else
    let availableBytes := u64 (window - bytesInFlight) in
    let slowStartLimited := o_InSlowStart o && bool_decide (window / 2 < bytesInFlight) in
    slowStartLimited || bool_decide (availableBytes ≤ maxBurstBytes).
Definition o_RenoBeta (o : OliaSender) : spec_float :=
  F32.div (F32.add (F32.sub (F32.of_Z (o_numConnections o)) (F32.of_Z 1)) renoBeta) (F32.of_Z (o_numConnections o)).

(** * What the paths share *)

Notation senders := (gmap Z OliaSender).

Definition getMaxCwnd (m : senders) : Z :=
  map_fold (λ _ os best, MaxPacketNumber_ best (o_congestionWindow os)) 0 m.

Definition getRate (m : senders) (pathRTT : Z) : Z :=
  let rate := map_fold (λ _ os rate,
                let scaledNum := u64 (oliaScale (u64 (o_congestionWindow os)) scale * u64 pathRTT) in
                if decide (smoothedRTT (o_rttStats os) ≠ 0)
                then u64 (rate + scaledNum / u64 (smoothedRTT (o_rttStats os))) else rate) 1 m in
  u64 (rate * rate).

(** The square of the round-trip time and the bytes between losses of a path. *)
Definition squared_rtt (os : OliaSender) : Z := i64 (smoothedRTT (o_rttStats os) * smoothedRTT (o_rttStats os)).
Definition path_bytes (os : OliaSender) : Z := SmoothedBytesBetweenLosses (o_olia os).
(** [int64(tmpBytes) * bestRTT.Nanoseconds() >= int64(bestBytes) * tmpRTT.Nanoseconds()] *)
Definition at_least_best (best : Z * Z) (os : OliaSender) : bool :=
  bool_decide (i64 (i64 best.2 * squared_rtt os) ≤ i64 (i64 (path_bytes os) * best.1)).

Definition best_path (order : list OliaSender) : Z * Z :=
  foldl (λ best os, if at_least_best best os then (squared_rtt os, path_bytes os) else best) (0, 0) order.

Definition count_if (P : OliaSender → bool) (m : senders) : Z :=
  map_fold (λ _ os n, if P os then u8 (n + 1) else n) 0 m.

(** [order] is the order of the first loop over the map. *)
Definition getEpsilon (m : senders) (order : list OliaSender) : senders :=
  let maxCwnd := getMaxCwnd m in
  let best := best_path order in
  let M := count_if (λ os, bool_decide (o_congestionWindow os = maxCwnd)) m in
  let BNotM := count_if (λ os, negb (bool_decide (o_congestionWindow os = maxCwnd)) && at_least_best best os) m in
  let n := u32 (Z.of_nat (size m)) in
  let epsilon os num den := o_set_window os (set_epsilon (o_olia os) num den) (o_congestionWindow os)
                              (o_slowstartThreshold os) (o_congestionWindowCount os) in
  (λ os,
     if decide (BNotM = 0) then epsilon os 0 1
     else if bool_decide (o_congestionWindow os < maxCwnd) && at_least_best best os
     then epsilon os 1 (u32 (n * BNotM))
     else if decide (o_congestionWindow os = maxCwnd) then epsilon os (-1) (u32 (n * M))
     else epsilon os 0 1) <$> m.

(** The part of [maybeIncreaseCwnd] behind slow start: [id] is the path acknowledged. *)
Definition grow_coupled (m : senders) (order : list OliaSender) (id : Z) : senders :=
  let m := getEpsilon m order in
  match m !! id with
  | None => m
  | Some o =>
      let rate := getRate m (smoothedRTT (o_rttStats o)) in
      let cwndScaled := oliaScale (u64 (o_congestionWindow o)) scale in
      let '(ol, w) := olia_CongestionWindowAfterAck (o_olia o) (o_congestionWindow o) rate cwndScaled in
      <[id := o_set_window o ol (MinPacketNumber_ (o_maxTCPCongestionWindow o) w) (o_slowstartThreshold o)
                (o_congestionWindowCount o)]> m
  end.

Definition o_maybeIncreaseCwnd (m : senders) (order : list OliaSender) (id : Z) (o : OliaSender)
    (bytesInFlight : Z) : senders :=
  if o_isCwndLimited o bytesInFlight then
    if decide (o_maxTCPCongestionWindow o ≤ o_congestionWindow o) then m
    else if o_InSlowStart o then
      <[id := o_set_window o (o_olia o) (u64 (o_congestionWindow o + 1)) (o_slowstartThreshold o)
                (o_congestionWindowCount o)]> m
    else grow_coupled m order id
  else m.

Definition olia_OnPacketAcked (m : senders) (order : list OliaSender) (id : Z)
    (ackedPacketNumber ackedBytes bytesInFlight : Z) : senders :=
  match m !! id with
  | None => m
  | Some o =>
      let o := o_set_packets o (o_hybridSlowStart o) (o_prr o) (o_largestSentPacketNumber o)
                 (MaxPacketNumber_ ackedPacketNumber (o_largestAckedPacketNumber o)) (o_largestSentAtLastCutback o) in
      if o_InRecovery o then
        <[id := o_set_packets o (o_hybridSlowStart o) (Prr.OnPacketAcked (o_prr o) ackedBytes)
                  (o_largestSentPacketNumber o) (o_largestAckedPacketNumber o) (o_largestSentAtLastCutback o)]> m
      else
        let o := o_set_window o (UpdateAckedSinceLastLoss (o_olia o) ackedBytes) (o_congestionWindow o)
                   (o_slowstartThreshold o) (o_congestionWindowCount o) in
        let m := o_maybeIncreaseCwnd (<[id := o]> m) order id o bytesInFlight in
        alter (λ o, if o_InSlowStart o then
                      o_set_packets o (Hybrid.OnPacketAcked (o_hybridSlowStart o) ackedPacketNumber) (o_prr o)
                        (o_largestSentPacketNumber o) (o_largestAckedPacketNumber o) (o_largestSentAtLastCutback o)
                    else o) id m
  end.

(** * Losses and timeouts *)

Definition o_loss_after_cutback (o : OliaSender) (lostBytes : Z) : OliaSender :=
  if o_lastCutbackExitedSlowstart o then
    let st := {| slowstartPacketsLost := u64 (slowstartPacketsLost (o_stats o) + 1);
                 slowstartBytesLost := u64 (slowstartBytesLost (o_stats o) + lostBytes) |} in
    let o := o_set_stats o (o_rttStats o) st true (o_slowStartLargeReduction o) (o_maxTCPCongestionWindow o)
               (o_numConnections o) in
    if o_slowStartLargeReduction o then
      let window :=
        if decide (slowstartPacketsLost st = 1 ∨
                   u64 (slowstartBytesLost st - lostBytes) / DefaultTCPMSS < slowstartBytesLost st / DefaultTCPMSS)
        then MaxPacketNumber_ (u64 (o_congestionWindow o - 1)) (o_minCongestionWindow o)
        else o_congestionWindow o in
      o_set_window o (o_olia o) window window (o_congestionWindowCount o)
    else o
  else o.

Definition o_cutback (o : OliaSender) (bytesInFlight : Z) : OliaSender :=
  let slow := o_InSlowStart o in
  let st := if slow then {| slowstartPacketsLost := u64 (slowstartPacketsLost (o_stats o) + 1);
                            slowstartBytesLost := slowstartBytesLost (o_stats o) |} else o_stats o in
  let o := o_set_stats o (o_rttStats o) st slow (o_slowStartLargeReduction o) (o_maxTCPCongestionWindow o)
             (o_numConnections o) in
  let window := if o_slowStartLargeReduction o && slow then u64 (o_congestionWindow o - 1)
                else float_u64 (F32.mul (F32.of_Z (o_congestionWindow o)) (o_RenoBeta o)) in
  let window := if decide (window < o_minCongestionWindow o) then o_minCongestionWindow o else window in
  o_set_packets (o_set_window o (olia_loss (o_olia o)) window window 0) (o_hybridSlowStart o)
    (Prr.OnPacketLost (o_prr o) bytesInFlight) (o_largestSentPacketNumber o) (o_largestAckedPacketNumber o)
    (o_largestSentPacketNumber o).

Definition o_OnPacketLost (o : OliaSender) (packetNumber lostBytes bytesInFlight : Z) : OliaSender :=
  if decide (packetNumber ≤ o_largestSentAtLastCutback o) then o_loss_after_cutback o lostBytes
  else o_cutback o bytesInFlight.

Definition o_SetNumEmulatedConnections (o : OliaSender) (n : Z) : OliaSender :=
  o_set_stats o (o_rttStats o) (o_stats o) (o_lastCutbackExitedSlowstart o) (o_slowStartLargeReduction o)
    (o_maxTCPCongestionWindow o) (Z.max n 1).

Definition o_OnRetransmissionTimeout (o : OliaSender) (packetsRetransmitted : bool) : OliaSender :=
  let o := o_set_packets o (o_hybridSlowStart o) (o_prr o) (o_largestSentPacketNumber o)
             (o_largestAckedPacketNumber o) 0 in
  if packetsRetransmitted then
    o_set_window (o_set_packets o (Hybrid.Restart (o_hybridSlowStart o)) (o_prr o) (o_largestSentPacketNumber o)
                    (o_largestAckedPacketNumber o) 0)
      (olia_Reset (o_olia o)) (o_minCongestionWindow o) (o_congestionWindow o / 2) (o_congestionWindowCount o)
  else o.

Definition o_OnConnectionMigration (o : OliaSender) : OliaSender :=
  let o := o_set_packets o (Hybrid.Restart (o_hybridSlowStart o)) Prr.zero 0 0 0 in
  let o := o_set_stats o (o_rttStats o) (o_stats o) false (o_slowStartLargeReduction o)
             (o_initialMaxCongestionWindow o) (o_numConnections o) in
  o_set_window o (olia_Reset (o_olia o)) (o_initialCongestionWindow o) (o_initialMaxCongestionWindow o) 0.

Definition o_SetSlowStartLargeReduction (o : OliaSender) (enabled : bool) : OliaSender :=
  o_set_stats o (o_rttStats o) (o_stats o) (o_lastCutbackExitedSlowstart o) enabled (o_maxTCPCongestionWindow o)
    (o_numConnections o).

Definition o_RetransmissionDelay (o : OliaSender) : Z :=
  let r := o_rttStats o in
  if decide (smoothedRTT r = 0) then 0 else i64 (smoothedRTT r + i64 (meanDeviation r * 4)).
Definition o_SmoothedRTT (o : OliaSender) : Z := smoothedRTT (o_rttStats o).
Definition o_BandwidthEstimate (o : OliaSender) : Z :=
  if decide (smoothedRTT (o_rttStats o) = 0) then 0
  else BandwidthFromDelta (o_GetCongestionWindow o) (smoothedRTT (o_rttStats o)).

(** * The senders stay well formed *)

Record sender_ok (os : OliaSender) : Prop := {
  so_limits : o_maxTCPCongestionWindow os = o_initialMaxCongestionWindow os ∧
              o_initialMaxCongestionWindow os ≤ DefaultMaxWindow;
  so_minimum : o_minCongestionWindow os = 2 ∧ o_numConnections os = 2;
  so_initial : 2 ≤ o_initialCongestionWindow os ≤ o_initialMaxCongestionWindow os;
  so_window : 1 ≤ o_congestionWindow os ≤ o_initialMaxCongestionWindow os;
  so_threshold : 0 ≤ o_slowstartThreshold os ≤ o_initialMaxCongestionWindow os;
  so_epsilon : epsilonNum (o_olia os) ∈ [(-1); 0; 1] ∧ u32_ok (epsilonDen (o_olia os));
  so_count : - 2 ^ scale + 1 < sndCwndCnt (o_olia os) < 2 ^ scale - 1
}.

Inductive olia_event : Type :=
| OlPath (id : Z) (r : RTTStats) (initial max : Z)
| OlRTT (id : Z) (r : RTTStats)
| OlSent (id packetNumber bytes : Z) (isRetransmittable : bool)
| OlExitSlowStart (id : Z)
| OlAcked (order : list OliaSender) (id packetNumber bytes bytesInFlight : Z)
| OlLost (id packetNumber bytes bytesInFlight : Z)
| OlTimeout (id : Z) (packetsRetransmitted : bool)
| OlMigrate (id : Z)
| OlLargeReduction (id : Z) (enabled : bool).

(** [r] is what the path's [rttStats] holds after a sample. *)
Definition o_set_rtt (o : OliaSender) (r : RTTStats) : OliaSender :=
  o_set_stats o r (o_stats o) (o_lastCutbackExitedSlowstart o) (o_slowStartLargeReduction o)
    (o_maxTCPCongestionWindow o) (o_numConnections o).

Definition olia_step (m : senders) (e : olia_event) : senders :=
  match e with
  | OlPath id r initial max => <[id := NewOliaSender r initial max]> m
  | OlRTT id r => alter (λ o, o_set_rtt o r) id m
  | OlSent id n b retransmittable => alter (λ o, (o_OnPacketSent o n b retransmittable).1) id m
  | OlExitSlowStart id => alter o_MaybeExitSlowStart id m
  | OlAcked order id n b f => olia_OnPacketAcked m order id n b f
  | OlLost id n b f => alter (λ o, o_OnPacketLost o n b f) id m
  | OlTimeout id b => alter (λ o, o_OnRetransmissionTimeout o b) id m
  | OlMigrate id => alter o_OnConnectionMigration id m
  | OlLargeReduction id b => alter (λ o, o_SetSlowStartLargeReduction o b) id m
  end.

Lemma sender_packets o hy p s a l : sender_ok o → sender_ok (o_set_packets o hy p s a l).
Proof. intros []. by split. Qed.
Lemma sender_stats o r st e l :
  sender_ok o → sender_ok (o_set_stats o r st e l (o_maxTCPCongestionWindow o) (o_numConnections o)).
Proof. intros []. by split. Qed.
Lemma sender_window o ol w t c :
  sender_ok o → 1 ≤ w ≤ o_initialMaxCongestionWindow o → 0 ≤ t ≤ o_initialMaxCongestionWindow o →
  epsilonNum ol ∈ [(-1); 0; 1] ∧ u32_ok (epsilonDen ol) → - 2 ^ scale + 1 < sndCwndCnt ol < 2 ^ scale - 1 →
  sender_ok (o_set_window o ol w t c).
Proof. intros []. by split. Qed.

Lemma map_ok_alter (f : OliaSender → OliaSender) id (m : senders) :
  (∀ o, sender_ok o → sender_ok (f o)) → map_Forall (λ _, sender_ok) m → map_Forall (λ _, sender_ok) (alter f id m).
Proof.
  intros Hf Hm i o. rewrite lookup_alter. case_decide as E; [|apply Hm]. subst i.
  intros (o' & Ho & ->)%fmap_Some. apply Hf. by eapply Hm.
Qed.

Lemma after_ack_ok o w rate cs :
  - 2 ^ scale + 1 < sndCwndCnt o < 2 ^ scale - 1 → 1 ≤ w ≤ DefaultMaxWindow →
  let '(o', w') := olia_CongestionWindowAfterAck o w rate cs in
  1 ≤ w' ≤ w + 1 ∧ epsilonNum o' = epsilonNum o ∧ epsilonDen o' = epsilonDen o ∧
  - 2 ^ scale + 1 < sndCwndCnt o' < 2 ^ scale - 1.
Proof.
  intros Hc Hw. unfold DefaultMaxWindow, scale in *. unfold olia_CongestionWindowAfterAck. cbn zeta.
  set (count := i64 _). unfold scale. repeat case_decide; cbn; rewrite ?max_packet, ?u64_small by lia; lia.
Qed.

Lemma epsilon_ok m order : map_Forall (λ _, sender_ok) m → map_Forall (λ _, sender_ok) (getEpsilon m order).
Proof.
  intros Hm id o. unfold getEpsilon. cbn zeta. rewrite lookup_fmap. intros (o' & Ho & ->)%fmap_Some.
  pose proof (Hm id o' Ho) as Ho'. pose proof Ho' as [].
  repeat case_match; apply sender_window; try done; cbn; (split; [set_solver|]);
    first [by apply Z.mod_pos_bound | unfold u32_ok; lia].
Qed.

Lemma grow_ok m order id : map_Forall (λ _, sender_ok) m → map_Forall (λ _, sender_ok) (grow_coupled m order id).
Proof.
  intros Hm. unfold grow_coupled. pose proof (epsilon_ok m order Hm) as He.
  destruct (getEpsilon m order !! id) as [o|] eqn:Eo; [|done]. cbn zeta.
  pose proof (He id o Eo) as Ho. pose proof Ho as [].
  pose proof (after_ack_ok (o_olia o) (o_congestionWindow o)
    (getRate (getEpsilon m order) (smoothedRTT (o_rttStats o)))
    (oliaScale (u64 (o_congestionWindow o)) scale) ltac:(done) ltac:(lia)) as Ha.
  destruct (olia_CongestionWindowAfterAck _ _ _ _) as [ol w]. destruct Ha as (H1 & H2 & H3 & H4).
  apply map_Forall_insert_2; [|done]. apply sender_window; try done; [|by rewrite H2, H3].
  rewrite min_packet. lia.
Qed.

Lemma acked_ok m order id n b f :
  map_Forall (λ _, sender_ok) m → map_Forall (λ _, sender_ok) (olia_OnPacketAcked m order id n b f).
Proof.
  intros Hm. unfold olia_OnPacketAcked. destruct (m !! id) as [o|] eqn:Eo; [|done]. cbn zeta.
  pose proof (Hm id o Eo) as Ho. destruct (o_InRecovery _).
  { apply map_Forall_insert_2; [|done]. by apply sender_packets, sender_packets. }
  apply map_ok_alter; [intros o' Ho'; destruct (o_InSlowStart o'); [by apply sender_packets|done]|].
  set (o1 := o_set_window _ _ _ _ _).
  assert (sender_ok o1) as H1 by (destruct Ho; by split).
  clearbody o1. unfold o_maybeIncreaseCwnd.
  assert (map_Forall (λ _, sender_ok) (<[id := o1]> m)) as Hm1 by by apply map_Forall_insert_2.
  destruct (o_isCwndLimited o1 f); [|done]. case_decide as Hmax; [done|].
  destruct (o_InSlowStart o1); [|by apply grow_ok].
  apply map_Forall_insert_2; [|done]. pose proof H1 as []. apply sender_window; try done.
  unfold DefaultMaxWindow in *. rewrite u64_small by lia. lia.
Qed.

Lemma lost_ok o n b f : sender_ok o → sender_ok (o_OnPacketLost o n b f).
Proof.
  intros Ho. pose proof Ho as [[L1 L2] [L3 L4] H3 H4 H5 H6 H7]. unfold DefaultMaxWindow in *.
  unfold o_OnPacketLost. case_decide.
  - unfold o_loss_after_cutback. destruct (o_lastCutbackExitedSlowstart o); [|done]. cbn zeta.
    destruct (o_slowStartLargeReduction _); [|by apply sender_stats].
    apply sender_window; [by apply sender_stats|..]; try done;
      cbn; (case_decide; [rewrite max_packet, L3, u64_small by lia|]; lia).
  - unfold o_cutback. cbn zeta. apply sender_packets.
    match goal with |- context [float_u64 ?x] => assert (float_u64 x = 85 * o_congestionWindow o / 100) as -> end.
    { unfold o_RenoBeta. cbn [o_set_stats o_numConnections o_congestionWindow]. rewrite L4.
      apply backoff_85. unfold DefaultMaxWindow. lia. }
    cbn [o_set_stats o_minCongestionWindow o_congestionWindow o_slowStartLargeReduction o_olia]. rewrite L3.
    set (w := if _ && _ then _ else _).
    assert (w ≤ o_congestionWindow o) as Hle.
    { unfold w. destruct (_ && _); [rewrite u64_small by lia; lia|]. apply Z.div_le_upper_bound; lia. }
    apply sender_window; [by apply sender_stats|..]; try done; cbn; case_decide; lia.
Qed.

Lemma olia_step_ok m e :
  match e with OlPath _ _ initial max => 2 ≤ initial ≤ max ∧ max ≤ DefaultMaxWindow | _ => True end →
  map_Forall (λ _, sender_ok) m → map_Forall (λ _, sender_ok) (olia_step m e).
Proof.
  intros He Hm. destruct e as [id r i M|id r|id n b rt|id|order id n b f|id n b f|id rt|id|id en]; cbn [olia_step].
  - apply map_Forall_insert_2; [|done].
    split; cbn; unfold DefaultMaxWindow, u32_ok, scale in *; repeat split; try lia. set_solver.
  - apply map_ok_alter; [|done]. intros o Ho. by apply sender_stats.
  - apply map_ok_alter; [|done]. intros o Ho. unfold o_OnPacketSent. destruct rt; [by apply sender_packets|done].
  - apply map_ok_alter; [|done]. intros o Ho. unfold o_MaybeExitSlowStart. destruct (o_InSlowStart o); [|done].
    destruct (Hybrid.ShouldExitSlowStart _ _ _ _) as [hy exit]. cbn zeta.
    pose proof (sender_packets o hy (o_prr o) (o_largestSentPacketNumber o) (o_largestAckedPacketNumber o)
      (o_largestSentAtLastCutback o) Ho) as Ho'.
    destruct exit; [|done]. pose proof Ho' as []. apply sender_window; try done. lia.
  - by apply acked_ok.
  - apply map_ok_alter; [|done]. intros o Ho. by apply lost_ok.
  - apply map_ok_alter; [|done]. intros o Ho. unfold o_OnRetransmissionTimeout. cbn zeta.
    destruct rt; [|by apply sender_packets]. pose proof Ho as [? [L3 L4] ????].
    apply sender_window; [by apply sender_packets, sender_packets|..]; cbn.
    + lia.
    + split; [apply Z.div_pos; lia|apply Z.div_le_upper_bound; lia].
    + split; [set_solver|unfold u32_ok; lia].
    + unfold scale. lia.
  - apply map_ok_alter; [|done]. intros o Ho. pose proof Ho as [[L1 L2] ?????]. unfold o_OnConnectionMigration.
    apply sender_window; cbn; [destruct Ho; by split|lia|lia|split; [set_solver|unfold u32_ok; lia]|unfold scale; lia].
  - apply map_ok_alter; [|done]. intros o Ho. by apply sender_stats.
Qed.

Lemma olia_run_ok es m :
  Forall (λ e, match e with OlPath _ _ initial max => 2 ≤ initial ≤ max ∧ max ≤ DefaultMaxWindow | _ => True end) es →
  map_Forall (λ _, sender_ok) m → map_Forall (λ _, sender_ok) (foldl olia_step m es).
Proof.
  revert m. induction es as [|e es IH]; intros m HF Hm; [done|].
  apply Forall_cons in HF as [He HF]. cbn [foldl]. apply IH; [done|]. by apply olia_step_ok.
Qed.

(** C31: Over any run of a connection with OLIA, whatever the round-trip times and the order the runtime
    ranges over the paths in, the sender of every path stays well formed: its epsilon is a fraction with
    numerator -1, 0 or 1, its counter is short of a whole packet in both directions, its window is
    between 1 packet and the maximum the path was set up with (the minimum of 2 packets holds only after
    losses), and the window in bytes does not wrap around. *)
Theorem olia_senders_well_formed es id os :
  Forall (λ e, match e with OlPath _ _ initial max => 2 ≤ initial ≤ max ∧ max ≤ DefaultMaxWindow | _ => True end) es →
  foldl olia_step ∅ es !! id = Some os →
  epsilonNum (o_olia os) ∈ [(-1); 0; 1] ∧
  - 2 ^ scale + 1 < sndCwndCnt (o_olia os) < 2 ^ scale - 1 ∧
  1 ≤ o_congestionWindow os ≤ o_maxTCPCongestionWindow os ∧ o_maxTCPCongestionWindow os ≤ DefaultMaxWindow ∧
  0 ≤ o_slowstartThreshold os ≤ o_maxTCPCongestionWindow os ∧
  o_GetCongestionWindow os = o_congestionWindow os * DefaultTCPMSS.
Proof.
  intros HF Ho. pose proof (olia_run_ok es ∅ HF (map_Forall_empty _) id os Ho) as [[L1 L2] ? ? ? ? [? ?] ?].
  rewrite L1. repeat (split; [done|]). apply u64_small. unfold DefaultMaxWindow, DefaultTCPMSS in *. lia.
Qed.

(** [CongestionWindowAfterAck] stops at 1 packet, below the minimum of the sender. *)
Lemma olia_window_below_minimum :
  (olia_CongestionWindowAfterAck
     {| loss1 := 0; loss2 := 0; loss3 := 0; epsilonNum := -1; epsilonDen := 2; sndCwndCnt := -900 |}
     defaultMinimumCongestionWindow 151019521 (oliaScale 2 scale)).2 = 1.
Proof. vm_compute. reflexivity. Qed.

(** * The shares of [getEpsilon]

    OLIA's definition: a path is best when no path has a larger rate
    [bytes between losses / RTT²]; the collected paths are the best paths whose window is
    not the largest.  The paths with the largest window give [1/n] of a packet in total to
    the collected paths. *)

Definition values (m : senders) : list OliaSender := (map_to_list m).*2.
Definition rtt (os : OliaSender) : Z := smoothedRTT (o_rttStats os).
Definition best_rate (m : senders) (os : OliaSender) : Prop :=
  Forall (λ p, path_bytes p * rtt os ^ 2 ≤ path_bytes os * rtt p ^ 2) (values m).
Definition largest (m : senders) (os : OliaSender) : Prop :=
  Forall (λ p, o_congestionWindow p ≤ o_congestionWindow os) (values m).
Definition collected (m : senders) (os : OliaSender) : Prop := best_rate m os ∧ ¬ largest m os.
#[export] Instance best_rate_dec m os : Decision (best_rate m os).
Proof. unfold best_rate. apply _. Defined.
#[export] Instance largest_dec m os : Decision (largest m os).
Proof. unfold largest. apply _. Defined.
#[export] Instance collected_dec m os : Decision (collected m os).
Proof. unfold collected. apply _. Defined.

Definition count_of (P : OliaSender → Prop) `{∀ os, Decision (P os)} (m : senders) : Z := zlen (filter P (values m)).

Definition share (m : senders) (os : OliaSender) : Z * Z :=
  let n := Z.of_nat (size m) in
  if decide (count_of (collected m) m = 0) then (0, 1)
  else if decide (collected m os) then (1, n * count_of (collected m) m)
  else if decide (largest m os) then (-1, n * count_of (largest m) m)
  else (0, 1).
Definition with_share (m : senders) (os : OliaSender) : OliaSender :=
  o_set_window os (set_epsilon (o_olia os) (share m os).1 (share m os).2) (o_congestionWindow os)
    (o_slowstartThreshold os) (o_congestionWindowCount os).

(** The rates can be compared in 64 bits. *)
Definition comparable (m : senders) : Prop :=
  ∃ R B, 1 ≤ R ∧ 1 ≤ B ∧ R ^ 2 * B < 2 ^ 63 ∧
  Forall (λ os, 1 ≤ rtt os ≤ R ∧ 0 ≤ path_bytes os ≤ B ∧ 0 ≤ o_congestionWindow os) (values m).

Lemma elem_of_values m os : os ∈ values m ↔ ∃ id, m !! id = Some os.
Proof.
  unfold values. rewrite list_elem_of_fmap. split.
  - intros ([id o] & -> & H). exists id. by apply elem_of_map_to_list.
  - intros [id H]. exists (id, os). split; [done|]. by apply elem_of_map_to_list.
Qed.

Lemma fold_values {A} (f : OliaSender → A → A) a (m : senders) :
  map_fold (λ _ os x, f os x) a m = foldr f a (values m).
Proof.
  unfold values. rewrite map_fold_foldr. induction (map_to_list m) as [|[k os] l IH]; [done|].
  cbn. by rewrite IH.
Qed.

Lemma max_cwnd_spec m os :
  Forall (λ os, 0 ≤ o_congestionWindow os) (values m) → os ∈ values m →
  o_congestionWindow os ≤ getMaxCwnd m ∧ (o_congestionWindow os = getMaxCwnd m ↔ largest m os).
Proof.
  intros Hpos Hos. unfold getMaxCwnd. rewrite fold_values. unfold largest. set (l := values m) in *. clearbody l.
  set (mx := foldr _ _ _).
  assert (Forall (λ p, o_congestionWindow p ≤ mx) l) as Hub.
  { unfold mx. clear. induction l as [|p l IH]; constructor; cbn; rewrite max_packet; [lia|].
    eapply Forall_impl; [exact IH|]. cbn. lia. }
  assert (0 ≤ mx ∧ (mx = 0 ∨ ∃ p, p ∈ l ∧ o_congestionWindow p = mx)) as [H0 Hat].
  { unfold mx. clear. induction l as [|p l [H0 IH]]; cbn; [naive_solver|]. rewrite max_packet.
    split; [lia|]. destruct (Z.max_spec (foldr (λ os best, MaxPacketNumber_ best (o_congestionWindow os)) 0 l)
      (o_congestionWindow p)) as [[? ->]|[? ->]].
    - right. exists p. split; [left|done].
    - destruct IH as [|(q & Hq & Hw)]; [by left|]. right. exists q. split; [by right|done]. }
  pose proof (proj1 (Forall_forall _ _) Hub os Hos) as Hle. cbn in Hle. split; [done|]. split.
  - intros ->. done.
  - intros Hall. destruct Hat as [Hz|(p & Hp & Hw)].
    + pose proof (proj1 (Forall_forall _ _) Hpos os Hos). cbn in *. lia.
    + pose proof (proj1 (Forall_forall _ _) Hall p Hp). cbn in *. lia.
Qed.

(** Comparing rates is transitive. *)
Lemma rate_trans a b c A B C :
  0 < B → 0 ≤ A → 0 ≤ C → a * B ≤ b * A → b * C ≤ c * B → a * C ≤ c * A.
Proof.
  intros HB HA HC H1 H2. apply (Z.mul_le_mono_pos_r _ _ B); [done|].
  transitivity (b * A * C); [|]; nia.
Qed.

(** The comparison of the code, without overflow. *)
Lemma at_least_best_spec m best os p :
  comparable m → os ∈ values m → p ∈ values m → best = (squared_rtt p, path_bytes p) →
  at_least_best best os = bool_decide (path_bytes p * rtt os ^ 2 ≤ path_bytes os * rtt p ^ 2).
Proof.
  intros (R & B & HR & HB & Hlt & HF) Hos Hp ->. unfold at_least_best.
  pose proof (proj1 (Forall_forall _ _) HF os Hos) as (? & ? & _).
  pose proof (proj1 (Forall_forall _ _) HF p Hp) as (? & ? & _). unfold squared_rtt. fold (rtt os) (rtt p). cbn [fst snd].
  assert (∀ a, 1 ≤ a ≤ R → i64 (a * a) = a ^ 2) as Hsq by (intros a Ha; rewrite i64_small by nia; lia).
  assert (∀ a, 0 ≤ a ≤ B → i64 a = a) as Hb by (intros a Ha; apply i64_small; nia).
  assert (∀ a b, 1 ≤ a ≤ R → 0 ≤ b ≤ B → i64 (b * a ^ 2) = b * a ^ 2) as Hprod.
  { intros a b Ha Hb'. apply i64_small. assert (a ^ 2 ≤ R ^ 2) by (apply Z.pow_le_mono_l; lia). nia. }
  rewrite (Hsq (rtt os)), (Hsq (rtt p)), (Hb (path_bytes os)), (Hb (path_bytes p)) by done.
  by rewrite !Hprod by done.
Qed.

Lemma best_path_spec m order :
  comparable m → order ≡ₚ values m → order ≠ [] →
  ∃ p, p ∈ values m ∧ best_path order = (squared_rtt p, path_bytes p) ∧ best_rate m p.
Proof.
  intros Hm Hperm Hne. pose proof Hm as (R & B & HR & HB & Hlt & HF).
  assert (∀ l, l ≠ [] → (∀ p, p ∈ l → p ∈ values m) →
    ∃ p, p ∈ l ∧ best_path l = (squared_rtt p, path_bytes p) ∧
      Forall (λ q, path_bytes q * rtt p ^ 2 ≤ path_bytes p * rtt q ^ 2) l) as H.
  { intros l. induction l as [|os l IH] using rev_ind; intros Hl Hin; [done|].
    assert (os ∈ values m) as Hos by (apply Hin; set_solver).
    pose proof (proj1 (Forall_forall _ _) HF os Hos) as (? & ? & _).
    unfold best_path. rewrite foldl_app. cbn [foldl]. fold (best_path l).
    destruct l as [|o l'].
    - exists os. split; [set_solver|]. split; [|by repeat constructor].
      unfold best_path, at_least_best. cbn. rewrite Z.mul_0_r. cbn. done.
    - destruct IH as (p & Hp & Hbest & Hall); [done|intros; apply Hin; set_solver|]. rewrite Hbest.
      assert (p ∈ values m) as Hp' by (apply Hin; set_solver).
      pose proof (proj1 (Forall_forall _ _) HF p Hp') as (? & ? & _).
      rewrite (at_least_best_spec m _ os p) by done. case_bool_decide as Hc.
      + exists os. split; [set_solver|]. split; [done|]. apply Forall_app. split; [|by repeat constructor].
        apply Forall_forall. intros q Hq. pose proof (proj1 (Forall_forall _ _) Hall q Hq) as Hqp. cbn in Hqp.
        pose proof (proj1 (Forall_forall _ _) HF q ltac:(apply Hin; set_solver)) as (? & ? & _).
        apply (rate_trans _ (path_bytes p) _ _ (rtt p ^ 2)); [nia..|done|done].
      + exists p. split; [set_solver|]. split; [done|]. apply Forall_app. split; [done|]. repeat constructor. lia. }
  destruct (H order) as (p & Hp & Hb & Hall); [done|intros p Hp; by rewrite <-Hperm|].
  exists p. split; [by rewrite <-Hperm|]. split; [done|]. unfold best_rate. by rewrite <-Hperm.
Qed.

Lemma at_least_best_rate m order os :
  comparable m → order ≡ₚ values m → os ∈ values m →
  at_least_best (best_path order) os = bool_decide (best_rate m os).
Proof.
  intros Hm Hperm Hos. destruct (best_path_spec m order) as (p & Hp & -> & Hbest); [done..|intros ->|].
  { apply Permutation_nil in Hperm. rewrite Hperm in Hos. set_solver. }
  rewrite (at_least_best_spec m _ os p) by done. apply bool_decide_ext. split.
  - intros Hc. pose proof Hm as (R & B & _ & _ & _ & HF). apply Forall_forall. intros q Hq.
    pose proof (proj1 (Forall_forall _ _) Hbest q Hq) as Hqp. cbn in Hqp.
    pose proof (proj1 (Forall_forall _ _) HF os Hos) as (? & ? & _).
    pose proof (proj1 (Forall_forall _ _) HF p Hp) as (? & ? & _).
    pose proof (proj1 (Forall_forall _ _) HF q Hq) as (? & ? & _).
    apply (rate_trans _ (path_bytes p) _ _ (rtt p ^ 2)); [nia..|done|done].
  - intros Hb. by apply (proj1 (Forall_forall _ _) Hb p).
Qed.

Lemma count_if_spec (P : OliaSender → bool) (Q : OliaSender → Prop) `{∀ os, Decision (Q os)} m :
  (size m ≤ 255)%nat → (∀ os, os ∈ values m → P os = bool_decide (Q os)) →
  count_if P m = count_of Q m ∧ 0 ≤ count_of Q m ≤ Z.of_nat (size m).
Proof.
  intros Hsize HP. unfold count_if, count_of. rewrite (fold_values (λ os n, if P os then u8 (n + 1) else n)).
  assert (length (values m) = size m) as Hl by (unfold values; by rewrite length_fmap, length_map_to_list).
  rewrite <-Hl in *. clear Hl. generalize dependent (values m). intros l Hl HP.
  assert (∀ l, (∀ os, os ∈ l → P os = bool_decide (Q os)) → (length l ≤ 255)%nat →
    foldr (λ os n, if P os then u8 (n + 1) else n) 0 l = zlen (filter Q l) ∧ (length (filter Q l) ≤ length l)%nat) as Hind.
  { clear. intros l. induction l as [|os l IH]; intros HP Hl; [done|]. cbn in Hl.
    destruct IH as [E Hle]; [intros; apply HP; by right|lia|]. rewrite filter_cons. cbn [foldr length].
    rewrite E, (HP os) by left. case_bool_decide; [rewrite decide_True by done|rewrite decide_False by done; split; [done|lia]].
    unfold zlen in *. cbn. rewrite u8_small by lia. lia. }
  destruct (Hind l HP Hl) as [-> ?]. unfold zlen. split; [done|]. lia.
Qed.

Definition epsilons (m : senders) : list (Z * Z) :=
  (λ os, (epsilonNum (o_olia os), epsilonDen (o_olia os))) <$> values m.

(** The shares of a list of senders add up. *)
Definition share_sum (l : list (Z * Z)) : Q := foldr (λ s q, (s.1 # Z.to_pos s.2) + q)%Q 0%Q l.

Lemma share_sum_split (P R : OliaSender → Prop) `{∀ os, Decision (P os)} `{∀ os, Decision (R os)} (a b : Z) (l : list OliaSender) :
  (∀ os, P os → ¬ R os) →
  (share_sum ((λ os, if decide (P os) then (1, a) else if decide (R os) then (-1, b) else (0, 1))%Z <$> l) ==
   inject_Z (zlen (filter P l)) * (1 # Z.to_pos a) - inject_Z (zlen (filter R l)) * (1 # Z.to_pos b))%Q.
Proof.
  intros Hdisj. induction l as [|os l IH]; [reflexivity|].
  rewrite fmap_cons. cbn [share_sum foldr]. unfold share_sum in IH. rewrite IH. rewrite !filter_cons.
  assert (∀ (x : OliaSender) y, inject_Z (zlen (x :: y)) == inject_Z (zlen y) + 1)%Q as Hc.
  { intros x y. rewrite zlen_cons, inject_Z_plus. ring. }
  destruct (decide (P os)) as [HP|HP].
  - rewrite (decide_False (P := R os)) by (by apply Hdisj). rewrite Hc. cbn [fst snd]. ring.
  - destruct (decide (R os)) as [HR|HR]; [rewrite Hc|]; cbn [fst snd].
    + assert (-1 # Z.to_pos b == - (1 # Z.to_pos b))%Q as -> by reflexivity. ring.
    + assert (0 # Z.to_pos 1 == 0)%Q as -> by reflexivity. ring.
Qed.

Lemma part_of_unit x n : 0 < x → 0 < n → (inject_Z x * (1 # Z.to_pos (n * x)) == 1 # Z.to_pos n)%Q.
Proof. intros Hx Hn. unfold Qeq. cbn. rewrite !Z2Pos.id by lia. lia. Qed.

Lemma getEpsilon_is m order :
  comparable m → order ≡ₚ values m → (size m ≤ 255)%nat → getEpsilon m order = with_share m <$> m.
Proof.
  intros Hm Hperm Hsize. apply map_eq. intros id. unfold getEpsilon. cbn zeta. rewrite !lookup_fmap.
  destruct (m !! id) as [os|] eqn:Eos; [|done]. cbn. f_equal.
  assert (os ∈ values m) as Hos by (apply elem_of_values; by exists id).
  assert (Forall (λ os, 0 ≤ o_congestionWindow os) (values m)) as Hpos.
  { destruct Hm as (R & B & _ & _ & _ & HF). eapply Forall_impl; [exact HF|]. naive_solver. }
  assert (∀ p, p ∈ values m → bool_decide (o_congestionWindow p = getMaxCwnd m) = bool_decide (largest m p)) as HM.
  { intros p Hp. apply bool_decide_ext. by apply max_cwnd_spec. }
  destruct (count_if_spec (λ os, bool_decide (o_congestionWindow os = getMaxCwnd m)) (largest m) m Hsize HM)
    as [EM BM].
  destruct (count_if_spec (λ os, negb (bool_decide (o_congestionWindow os = getMaxCwnd m)) &&
    at_least_best (best_path order) os) (collected m) m Hsize) as [EB BB].
  { intros p Hp. rewrite (at_least_best_rate m), (HM p) by done. unfold collected.
    by repeat case_bool_decide; naive_solver. }
  rewrite EM, EB. unfold with_share, share. rewrite !(u32_small (Z.of_nat _)) by lia.
  rewrite (at_least_best_rate m) by done. destruct (max_cwnd_spec m os Hpos Hos) as [Hle Hiff].
  destruct (decide (count_of (collected m) m = 0)); [done|].
  destruct (decide (collected m os)) as [[Hb Hl]|Hnc].
  - rewrite (bool_decide_eq_true_2 (best_rate m os)) by done.
    rewrite (bool_decide_eq_true_2 (_ < _)) by (rewrite <-Hiff in Hl; lia). cbn. by rewrite u32_small by nia.
  - destruct (bool_decide (o_congestionWindow os < getMaxCwnd m) && bool_decide (best_rate m os)) eqn:E.
    { apply andb_true_iff in E as [E1%bool_decide_eq_true E2%bool_decide_eq_true].
      destruct Hnc. split; [done|]. rewrite <-Hiff. lia. }
    rewrite (decide_ext _ _ _ _ Hiff). destruct (decide (largest m os)); [|done]. cbn. by rewrite u32_small by nia.
Qed.

Lemma largest_some m : (0 < size m)%nat → 0 < count_of (largest m) m.
Proof.
  intros Hs. assert (values m ≠ []) as Hne.
  { intros E. unfold values in E. apply fmap_nil_inv, map_to_list_empty_iff in E. rewrite E, map_size_empty in Hs. lia. }
  assert (∃ q, q ∈ values m ∧ largest m q) as (q & Hq & Hmax).
  { unfold largest. induction (values m) as [|x l IH]; [done|].
    destruct l as [|y l']; [exists x; split; [left|by repeat constructor]|]. destruct IH as (q & Hq & HF); [done|].
    destruct (decide (o_congestionWindow q ≤ o_congestionWindow x)).
    - exists x. split; [left|]. constructor; [lia|]. eapply Forall_impl; [exact HF|]. cbn. lia.
    - exists q. split; [by right|]. constructor; [lia|done]. }
  assert (q ∈ filter (largest m) (values m)) as Hin by (by apply list_elem_of_filter).
  unfold count_of, zlen. destruct (filter _ _); [set_solver|cbn; lia].
Qed.

(** Where the rates of the paths can be compared in 64 bits, [getEpsilon] computes OLIA's shares in
    whatever order the runtime ranges over the paths: the paths of the largest rate of
    [bytes between losses / RTT²] whose window is not the largest share [1/n] evenly, the paths with
    the largest window give it up evenly, all others have 0, and the shares add up to 0. *)
Theorem getEpsilon_shares m order :
  comparable m → order ≡ₚ values m → (size m ≤ 255)%nat →
  getEpsilon m order = with_share m <$> m ∧
  (share_sum (epsilons (getEpsilon m order)) == 0)%Q.
Proof.
  intros Hm Hperm Hsize. split; [by apply getEpsilon_is|]. rewrite (getEpsilon_is m order) by done.
  unfold epsilons. assert (values (with_share m <$> m) = with_share m <$> values m) as ->.
  { unfold values. rewrite map_to_list_fmap, <-!list_fmap_compose. by apply list_fmap_ext. }
  rewrite <-list_fmap_compose.
  assert (length (values m) = size m) as Hl by (unfold values; by rewrite length_fmap, length_map_to_list).
  destruct (decide (count_of (collected m) m = 0)) as [Hz|Hnz].
  - assert ((λ os, (epsilonNum (o_olia os), epsilonDen (o_olia os))) ∘ with_share m <$> values m =
      (λ _, (0, 1)) <$> values m) as ->.
    { apply list_fmap_ext. intros i os _. unfold compose, with_share, share. by rewrite decide_True by done. }
    clear. induction (values m) as [|os l IH]; [reflexivity|]. cbn. unfold share_sum in IH. rewrite IH. reflexivity.
  - set (n := Z.of_nat (size m)).
    assert ((λ os, (epsilonNum (o_olia os), epsilonDen (o_olia os))) ∘ with_share m <$> values m =
      (λ os, if decide (collected m os) then (1, n * count_of (collected m) m)
             else if decide (largest m os) then (-1, n * count_of (largest m) m) else (0, 1)) <$> values m) as ->.
    { apply list_fmap_ext. intros i os _. unfold compose, with_share, share. rewrite decide_False by done.
      by repeat case_decide. }
    rewrite share_sum_split by (by intros os [? ?]). fold (count_of (collected m) m) (count_of (largest m) m).
    assert (0 < count_of (collected m) m) by (unfold count_of, zlen in *; lia).
    assert (0 < n) as Hn.
    { unfold n. rewrite <-Hl. unfold count_of, zlen in *. pose proof (length_filter (collected m) (values m)). lia. }
    assert (0 < count_of (largest m) m) as HL.
    { apply largest_some. lia. }
    rewrite !part_of_unit by done. ring.
Qed.

(** A path with this round-trip time (in milliseconds), bytes since its last loss and window. *)
Definition sample_path (ms bytes window : Z) : OliaSender :=
  let o := NewOliaSender (UpdateRTT NewRTTStats (ms * (1000 * 1000)) 0 0) 32 2500 in
  o_set_window o (UpdateAckedSinceLastLoss (o_olia o) bytes) window 2 0.

(** With round-trip times in nanoseconds the comparison of rates overflows 64 bits on ordinary paths:
    of two paths that carried 1000 bytes since their last loss, the one with a tenth of the round-trip
    time (10 ms against 100 ms) is the best and should be given window by the other; the code finds no
    path to give window to, in either order. *)
Theorem getEpsilon_overflows :
  let slow := sample_path 100 1000 20 in
  let fast := sample_path 10 1000 10 in
  let m : senders := {[ 1 := slow; 2 := fast ]} in
  (share m fast = (1, 2) ∧ share m slow = (-1, 2)) ∧
  epsilons (getEpsilon m [slow; fast]) = [(0, 1); (0, 1)] ∧
  epsilons (getEpsilon m [fast; slow]) = [(0, 1); (0, 1)].
Proof. vm_compute. repeat constructor. Qed.

(** The same two paths after 100 bytes each: the comparison is exact. *)
Local Notation sample_slow := (sample_path 100 100 20).
Local Notation sample_fast := (sample_path 10 100 10).
Local Notation sample_senders := ({[ 1 := sample_slow; 2 := sample_fast ]} : senders).
Lemma sample_order : [sample_fast; sample_slow] ≡ₚ values sample_senders.
Proof. first [apply Permutation_swap | reflexivity]. Qed.
Lemma sample_comparable : comparable sample_senders.
Proof.
  exists (10 ^ 8), 100. repeat split; [lia..|]. unfold rtt, path_bytes.
  assert (values sample_senders = [sample_slow; sample_fast] ∨ values sample_senders = [sample_fast; sample_slow])
    as [-> | ->] by (first [by left | by right]);
    repeat constructor; vm_compute; done.
Qed.
Lemma getEpsilon_shares_witness :
  getEpsilon sample_senders [sample_fast; sample_slow] = with_share sample_senders <$> sample_senders ∧
  share sample_senders sample_fast = (1, 2) ∧ share sample_senders sample_slow = (-1, 2).
Proof.
  destruct (getEpsilon_shares sample_senders [sample_fast; sample_slow] sample_comparable sample_order) as [H _];
    [vm_compute; lia|].
  split; [exact H|]. split; vm_compute; reflexivity.
Defined.

Definition sample_events : list olia_event :=
  [OlPath 1 NewRTTStats 32 2500; OlPath 3 NewRTTStats 32 2500; OlSent 1 1 1350 true; OlSent 1 2 1350 true;
   OlRTT 1 (UpdateRTT NewRTTStats 30000000 0 0); OlAcked [] 1 1 1350 100000; OlLost 1 2 1350 50000;
   OlSent 1 3 1350 true; OlAcked [] 1 3 1350 100000].
Local Notation sample_run := (foldl olia_step ∅ sample_events).
Lemma sample_run_window : o_congestionWindow <$> sample_run !! 1 = Some 28.
Proof. vm_compute. reflexivity. Qed.
Lemma olia_senders_well_formed_witness :
  ∃ os, sample_run !! 1 = Some os ∧ o_congestionWindow os = 28 ∧ 1 ≤ o_congestionWindow os ≤ o_maxTCPCongestionWindow os.
Proof.
  destruct (sample_run !! 1) as [os|] eqn:E; [|vm_compute in E; discriminate].
  exists os. split; [reflexivity|].
  destruct (olia_senders_well_formed sample_events 1 os) as (_ & _ & H & _);
    [repeat constructor; unfold DefaultMaxWindow; lia|exact E|].
  split; [|exact H]. pose proof sample_run_window as Hw. rewrite E in Hw. injection Hw as Hw. exact Hw.
Defined.

Close Scope Z_scope.
