(* ===== verification/Stream.v ===== *)
(** A stream (src/mp-quic/stream.go): what the application reads and writes, what the
    framer takes for sending, and how the two directions end.

    Every method holds the stream's mutex while it touches the state (or touches one
    atomic flag), so methods are steps of one state.  [Read] and [Write] block: a [Read]
    blocks only before its first byte, so it is one step that either returns or blocks,
    having taken the signal it was woken by; a [Write] is a first step and a check after each wake-up.  The flow
    control manager the streams of a connection share is passed along.  Error values the
    caller supplies are numbers, [None] is nil; [now] is [time.Now()]. *)

From Stdlib Require Import ZArith Lia.
From Stdlib Require Import Strings.Byte.
From stdpp Require Import prelude numbers list gmap.
From S2P Require Import Prelude Wire StreamSorter FlowControl.

Open Scope Z_scope.

Inductive StreamError : Type :=
| EGiven (e : Z)
| EOF
| errDeadline
| errWriteOnClosed
| errReadPosition
| ESorter (e : SorterError)
| EFlow (e : FlowError).

Record stream : Type := {
  s_streamID : Z;
  ctxDone : bool;
  readPosInFrame : Z;
  writeOffset : Z;
  readOffset : Z;
  s_err : option StreamError;
  cancelled : bool;
  finishedReading : bool;
  finishedWriting : bool;
  resetLocally : bool;
  resetRemotely : bool;
  frameQueue : streamFrameSorter;
  readChan : bool;
  readDeadline : option Z;
  dataForWriting : option (list byte);
  finSent : bool;
  rstSent : bool;
  writeChan : bool;
  writeDeadline : option Z
}.

Definition newStream (StreamID : Z) : stream := {|
  s_streamID := StreamID; ctxDone := false; readPosInFrame := 0; writeOffset := 0; readOffset := 0;
  s_err := None; cancelled := false; finishedReading := false; finishedWriting := false;
  resetLocally := false; resetRemotely := false; frameQueue := newStreamFrameSorter; readChan := false;
  readDeadline := None; dataForWriting := None; finSent := false; rstSent := false; writeChan := false;
  writeDeadline := None
|}.

(** Assignments to the fields of one direction, and to the flags that end both. *)
Definition set_read (s : stream) (pos off : Z) (q : streamFrameSorter) (finished sig : bool) (d : option Z) : stream := {|
  s_streamID := s_streamID s; ctxDone := ctxDone s; readPosInFrame := pos; writeOffset := writeOffset s;
  readOffset := off; s_err := s_err s; cancelled := cancelled s; finishedReading := finished;
  finishedWriting := finishedWriting s; resetLocally := resetLocally s; resetRemotely := resetRemotely s;
  frameQueue := q; readChan := sig; readDeadline := d; dataForWriting := dataForWriting s;
  finSent := finSent s; rstSent := rstSent s; writeChan := writeChan s; writeDeadline := writeDeadline s
|}.
Definition set_write (s : stream) (off : Z) (data : option (list byte)) (finished sent sig : bool) (d : option Z) : stream := {|
  s_streamID := s_streamID s; ctxDone := ctxDone s; readPosInFrame := readPosInFrame s; writeOffset := off;
  readOffset := readOffset s; s_err := s_err s; cancelled := cancelled s; finishedReading := finishedReading s;
  finishedWriting := finished; resetLocally := resetLocally s; resetRemotely := resetRemotely s;
  frameQueue := frameQueue s; readChan := readChan s; readDeadline := readDeadline s; dataForWriting := data;
  finSent := sent; rstSent := rstSent s; writeChan := sig; writeDeadline := d
|}.
Definition set_ends (s : stream) (ctx : bool) (e : option StreamError) (cancel locally remotely rst : bool) : stream := {|
  s_streamID := s_streamID s; ctxDone := ctx; readPosInFrame := readPosInFrame s; writeOffset := writeOffset s;
  readOffset := readOffset s; s_err := e; cancelled := cancel; finishedReading := finishedReading s;
  finishedWriting := finishedWriting s; resetLocally := locally; resetRemotely := remotely;
  frameQueue := frameQueue s; readChan := readChan s; readDeadline := readDeadline s;
  dataForWriting := dataForWriting s; finSent := finSent s; rstSent := rst; writeChan := writeChan s;
  writeDeadline := writeDeadline s
|}.

(** The channels hold one signal. *)
Definition signalRead (s : stream) : stream :=
  set_read s (readPosInFrame s) (readOffset s) (frameQueue s) (finishedReading s) true (readDeadline s).
Definition signalWrite (s : stream) : stream :=
  set_write s (writeOffset s) (dataForWriting s) (finishedWriting s) (finSent s) true (writeDeadline s).

Definition passed (now : Z) (deadline : option Z) : bool :=
  match deadline with Some d => bool_decide (d ≤ now) | None => false end.

(** * Reading *)

Inductive read_outcome : Type :=
| ReadBlocked
| ReadPanic
| ReadDone (data : list byte) (e : option StreamError).

(** Why [Read] stops waiting; the error may be nil. *)
Definition read_stop (now : Z) (s : stream) : option (option StreamError) :=
  if resetLocally s || cancelled s then Some (s_err s)
  else if passed now (readDeadline s) then Some (Some errDeadline)
  else None.

Inductive iteration : Type :=
| Stop (f : flowControlManager) (s : stream) (o : read_outcome)
| More (f : flowControlManager) (s : stream) (got : list byte).

(** The second half of an iteration: copy out of the frame at the head. *)
Definition read_frame (env : environment) (n : Z) (f : flowControlManager) (s : stream) (got : list byte)
    (frame : StreamFrame) : iteration :=
  let pos := readPosInFrame s in
  let m := Z.min (n - zlen got) (i64 (DataLen frame) - pos) in
  if decide (i64 (DataLen frame) < pos) then Stop f s (ReadDone got (Some errReadPosition))
  else if decide (pos < 0) then Stop f s ReadPanic
  else
    let got := got ++ take (Z.to_nat m) (drop (Z.to_nat pos) (SData frame)) in
    let s := set_read s (pos + m) (u64 (readOffset s + u64 m)) (frameQueue s) (finishedReading s) (readChan s)
               (readDeadline s) in
    let f := if resetRemotely s then f else (AddBytesRead env f (s_streamID s) (u64 m)).1 in
    if decide (i64 (DataLen frame) ≤ pos + m) then
      let s := set_read s (readPosInFrame s) (readOffset s) (Pop (frameQueue s)).2 (finishedReading s || FinBit frame)
                 (readChan s) (readDeadline s) in
      if FinBit frame then Stop f s (ReadDone got (Some EOF)) else More f s got
    else More f s got.

Definition read_iter (env : environment) (now n : Z) (f : flowControlManager) (s : stream) (got : list byte) :
    iteration :=
  match Head (frameQueue s) with
  | None =>
      if decide (got ≠ []) then Stop f s (ReadDone got (s_err s))
      else match read_stop now s with
           | Some (Some e) => Stop f s (ReadDone got (Some e))
           | Some None => Stop f s ReadPanic
           | None => Stop f (set_read s (readPosInFrame s) (readOffset s) (frameQueue s) (finishedReading s) false
                               (readDeadline s)) ReadBlocked
           end
  | Some frame =>
      match read_stop now s with
      | Some (Some e) => Stop f s (ReadDone got (Some e))
      | Some None => read_frame env n f s got frame
      | None =>
          read_frame env n f
            (set_read s (i64 (readOffset s - Offset frame)) (readOffset s) (frameQueue s) (finishedReading s) (readChan s)
               (readDeadline s)) got frame
      end
  end.

Fixpoint read_loop (fuel : nat) (env : environment) (now n : Z) (f : flowControlManager) (s : stream)
    (got : list byte) : flowControlManager * stream * option read_outcome :=
  if decide (zlen got < n) then
    match fuel with
    | O => (f, s, None)
    | S fuel =>
        match read_iter env now n f s got with
        | Stop f s o => (f, s, Some o)
        | More f s got => read_loop fuel env now n f s got
        end
    end
  else (f, s, Some (ReadDone got None)).

(** Every iteration reads a byte or takes a frame off the queue. *)
Definition read_fuel (n : Z) (s : stream) : nat := Z.to_nat n + size (queuedFrames (frameQueue s)).

(** [Read(p)] with [len(p) = n]. *)
Definition Read (env : environment) (now n : Z) (f : flowControlManager) (s : stream) :
    flowControlManager * stream * option read_outcome :=
  if cancelled s || resetLocally s then (f, s, Some (ReadDone [] (s_err s)))
  else if finishedReading s then (f, s, Some (ReadDone [] (Some EOF)))
  else read_loop (read_fuel n s) env now n f s [].

Definition AddStreamFrame (f : flowControlManager) (s : stream) (frame : StreamFrame) :
    option (flowControlManager * stream * option StreamError) :=
  match UpdateHighestReceived f (s_streamID s) (u64 (Offset frame + DataLen frame)) with
  | (f, Some e) => Some (f, s, Some (EFlow e))
  | (f, None) =>
      r ← Push (frameQueue s) frame;
      let s' := set_read s (readPosInFrame s) (readOffset s) r.1 (finishedReading s) (readChan s) (readDeadline s) in
      match r.2 with
      | None | Some errDuplicateStreamData => Some (f, signalRead s', None)
      | Some e => Some (f, s', Some (ESorter e))
      end
  end.

(** The "virtual" FIN at an offset. *)
Definition CloseRemote (f : flowControlManager) (s : stream) (offset : Z) :
    option (flowControlManager * stream * option StreamError) :=
  AddStreamFrame f s {| StreamID := 0; FinBit := true; DataLenPresent := false; Offset := offset; SData := [] |}.

(** * Writing *)

(** [Write(p)] up to its loop: it returns at once, or waits for its data to be taken. *)
Definition Write_start (s : stream) (p : list byte) : stream * option (Z * option StreamError) :=
  if resetLocally s || bool_decide (is_Some (s_err s)) then (s, Some (0, s_err s))
  else if finishedWriting s then (s, Some (0, Some errWriteOnClosed))
  else if decide (zlen p = 0) then (s, Some (0, None))
  else (set_write s (writeOffset s) (Some p) (finishedWriting s) (finSent s) (writeChan s) (writeDeadline s), None).

(** The check of the loop, with the return that follows it; [None] waits, which takes a signal. *)
Definition Write_check (now : Z) (s : stream) (p : list byte) : stream * option (Z * option StreamError) :=
  if passed now (writeDeadline s) then (s, Some (0, Some errDeadline))
  else match dataForWriting s, s_err s with
       | _, Some e => (s, Some (zlen p - zlen (default [] (dataForWriting s)), Some e))
       | None, None => (s, Some (zlen p, None))
       | Some _, None => (set_write s (writeOffset s) (dataForWriting s) (finishedWriting s) (finSent s) false
                            (writeDeadline s), None)
       end.

Definition lenOfDataForWriting (s : stream) : Z :=
  match s_err s with None => zlen (default [] (dataForWriting s)) | Some _ => 0 end.

Definition getDataForWriting (s : stream) (maxBytes : Z) : stream * option (list byte) :=
  match s_err s, dataForWriting s with
  | None, Some data =>
      if decide (maxBytes < zlen data) then
        let ret := take (Z.to_nat maxBytes) data in
        (set_write s (u64 (writeOffset s + zlen ret)) (Some (drop (Z.to_nat maxBytes) data)) (finishedWriting s)
           (finSent s) (writeChan s) (writeDeadline s), Some ret)
      else
        (set_write s (u64 (writeOffset s + zlen data)) None (finishedWriting s) (finSent s) true (writeDeadline s),
         Some data)
  | _, _ => (s, None)
  end.

Definition shouldSendFin (s : stream) : bool :=
  finishedWriting s && negb (finSent s) && bool_decide (s_err s = None) && bool_decide (dataForWriting s = None).
Definition sentFin (s : stream) : stream :=
  set_write s (writeOffset s) (dataForWriting s) (finishedWriting s) true (writeChan s) (writeDeadline s).
Definition finishedWriteAndSentFin (s : stream) : bool := finishedWriting s && finSent s.

Definition SetReadDeadline (s : stream) (t : option Z) : stream :=
  let s' := set_read s (readPosInFrame s) (readOffset s) (frameQueue s) (finishedReading s) (readChan s) t in
  match t, readDeadline s with
  | None, Some _ => signalRead s'
  | Some t, Some old => if decide (t < old) then signalRead s' else s'
  | _, None => s'
  end.
Definition SetWriteDeadline (s : stream) (t : option Z) : stream :=
  let s' := set_write s (writeOffset s) (dataForWriting s) (finishedWriting s) (finSent s) (writeChan s) t in
  match t, writeDeadline s with
  | None, Some _ => signalWrite s'
  | Some t, Some old => if decide (t < old) then signalWrite s' else s'
  | _, None => s'
  end.
Definition SetDeadline (s : stream) (t : option Z) : stream := SetWriteDeadline (SetReadDeadline s t) t.

(** * Ends *)

Definition Close (s : stream) : stream :=
  let s := set_write s (writeOffset s) (dataForWriting s) true (finSent s) (writeChan s) (writeDeadline s) in
  set_ends s true (s_err s) (cancelled s) (resetLocally s) (resetRemotely s) (rstSent s).

Definition shouldSendReset (s : stream) : bool :=
  negb (rstSent s) && (resetLocally s || resetRemotely s) && negb (finishedWriteAndSentFin s).

(** Errors must not be changed; [wake] signals the waiting calls. *)
Definition set_err (s : stream) (e : option StreamError) (wake : stream → stream) : stream :=
  match s_err s with
  | None => wake (set_ends s (ctxDone s) e (cancelled s) (resetLocally s) (resetRemotely s) (rstSent s))
  | Some _ => s
  end.

(** [onReset(s.streamID, s.writeOffset)] and [rstSent]. *)
Definition send_reset (s : stream) : stream * option (Z * Z) :=
  if shouldSendReset s then
    (set_ends s (ctxDone s) (s_err s) (cancelled s) (resetLocally s) (resetRemotely s) true,
     Some (s_streamID s, writeOffset s))
  else (s, None).

Definition Cancel (s : stream) (e : option StreamError) : stream :=
  let s := set_ends s true (s_err s) true (resetLocally s) (resetRemotely s) (rstSent s) in
  set_err s e (λ s, signalWrite (signalRead s)).

(** The second component is the reset frame to queue. *)
Definition Reset (s : stream) (e : option StreamError) : stream * option (Z * Z) :=
  if resetLocally s then (s, None)
  else
    let s := set_ends s true (s_err s) (cancelled s) true (resetRemotely s) (rstSent s) in
    send_reset (set_err s e (λ s, signalWrite (signalRead s))).

Definition RegisterRemoteError (s : stream) (e : option StreamError) : stream * option (Z * Z) :=
  if resetRemotely s then (s, None)
  else
    let s := set_ends s true (s_err s) (cancelled s) (resetLocally s) true (rstSent s) in
    send_reset (set_err s e signalWrite).

Definition finished (s : stream) : bool :=
  cancelled s ||
  (finishedReading s && finishedWriteAndSentFin s) ||
  (resetRemotely s && rstSent s) ||
  (finishedReading s && rstSent s) ||
  (finishedWriteAndSentFin s && resetRemotely s).

(** * Steps *)

Inductive stream_op : Type :=
| OpFrame (frame : StreamFrame)
| OpRead (env : environment) (now n : Z)
| OpWrite (p : list byte)
| OpWriteCheck (now : Z) (p : list byte)
| OpTake (maxBytes : Z)
| OpSentFin
| OpClose
| OpCancel (e : option StreamError)
| OpReset (e : option StreamError)
| OpRemoteError (e : option StreamError)
| OpReadDeadline (t : option Z)
| OpWriteDeadline (t : option Z).

(** Any of them but the two that use the flow controllers. *)
Definition local_step (s : stream) (o : stream_op) : stream :=
  match o with
  | OpFrame _ | OpRead _ _ _ => s
  | OpWrite p => (Write_start s p).1
  | OpWriteCheck now p => (Write_check now s p).1
  | OpTake n => (getDataForWriting s n).1
  | OpSentFin => sentFin s
  | OpClose => Close s
  | OpCancel e => Cancel s e
  | OpReset e => (Reset s e).1
  | OpRemoteError e => (RegisterRemoteError s e).1
  | OpReadDeadline t => SetReadDeadline s t
  | OpWriteDeadline t => SetWriteDeadline s t
  end.

(** A step and the bytes read by it; [None] is a panic or a loop that ran out of fuel, an error of a
    received frame closes the connection. *)
Definition stream_step (f : flowControlManager) (s : stream) (o : stream_op) :
    option (result StreamError (flowControlManager * stream * list byte)) :=
  match o with
  | OpFrame frame =>
      '(f, s, e) ← AddStreamFrame f s frame;
      Some (match e with None => Ok (f, s, []) | Some e => Err e end)
  | OpRead env now n =>
      match Read env now n f s with
      | (f, s, Some ReadBlocked) => Some (Ok (f, s, []))
      | (f, s, Some (ReadDone d _)) => Some (Ok (f, s, d))
      | (_, _, Some ReadPanic) | (_, _, None) => None
      end
  | _ => Some (Ok (f, local_step s o, []))
  end.

Fixpoint stream_run (f : flowControlManager) (s : stream) (out : list byte) (ops : list stream_op) :
    option (result StreamError (flowControlManager * stream * list byte)) :=
  match ops with
  | [] => Some (Ok (f, s, out))
  | o :: ops =>
      r ← stream_step f s o;
      match r with
      | Ok (f, s, d) => stream_run f s (out ++ d) ops
      | Err e => Some (Err e)
      end
  end.

Close Scope Z_scope.

(** * Reading *)

Definition received (ops : list stream_op) : list StreamFrame :=
  omap (λ o, match o with OpFrame f => Some f | _ => None end) ops.

Section reading.
Context (src : list byte) (Hsrc : (zlen src < 2 ^ 63)%Z).

(** A frame of the sender's; a FIN is at the end. *)
Definition sent_frame (f : StreamFrame) : Prop :=
  sent src f ∧ (FinBit f = true → Offset f + DataLen f = zlen src)%Z.

(** Frames that carry the last byte together with a FIN start where the other frames with that byte
    do. *)
Definition fins_agree (frames : list StreamFrame) : Prop :=
  ∀ f g, f ∈ frames → g ∈ frames → FinBit f = true → has_byte f (zlen src - 1) → has_byte g (zlen src - 1) →
  Offset g = Offset f.

Record read_ok (frames : list StreamFrame) (s : stream) : Prop := {
  ro_run : run_ok src frames (frameQueue s) (take (Z.to_nat (readPosition (frameQueue s))) src);
  ro_pos : (readPosition (frameQueue s) ≤ readOffset s)%Z;
  ro_head : readOffset s = readPosition (frameQueue s) ∨
    ∃ f, Head (frameQueue s) = Some f ∧ (readOffset s < readPosition (frameQueue s) + DataLen f)%Z;
  ro_fin o f : queuedFrames (frameQueue s) !! o = Some f → FinBit f = true → (Offset f + DataLen f = zlen src)%Z;
  ro_done : finishedReading s = true → readOffset s = zlen src
}.

Lemma small_src : (zlen src < MaxByteCount)%Z.
Proof. unfold MaxByteCount. lia. Qed.
#[local] Hint Resolve small_src : core.

Lemma read_ok_fields frames s s' :
  frameQueue s' = frameQueue s → readOffset s' = readOffset s → finishedReading s' = finishedReading s →
  read_ok frames s → read_ok frames s'.
Proof. intros E1 E2 E3 []. by split; rewrite ?E1, ?E2, ?E3. Qed.

Lemma read_ok_new id : read_ok [] (newStream id).
Proof.
  split; cbn; [|lia|by left|done|done]. apply run_ok_new.
Qed.

(** What is at the head of the queue. *)
Lemma head_ok frames s f :
  read_ok frames s → Head (frameQueue s) = Some f →
  Offset f = readPosition (frameQueue s) ∧ piece src f ∧ (0 ≤ readPosition (frameQueue s))%Z ∧
  (readOffset s ≤ Offset f + DataLen f)%Z ∧ (Offset f + DataLen f ≤ zlen src)%Z.
Proof.
  intros [[Hs _ Hr _ _] Hp Hh _ _] Hf. destruct (ok_queue _ _ Hs _ _ Hf) as (Ho & Hpc & _).
  pose proof (ok_read _ _ Hs). destruct Hpc as [? ? ? ?]. split; [done|]. split; [done|]. split; [done|].
  split; [|done]. pose proof (zlen_nonneg (SData f)). unfold DataLen in *.
  destruct Hh as [->|(g & Hg & Hlt)]; [lia|]. rewrite Hf in Hg. injection Hg as <-. lia.
Qed.

(** A nonempty frame at the head lies before every gap. *)
Lemma head_before_gaps frames s f g :
  read_ok frames s → Head (frameQueue s) = Some f → (0 < DataLen f)%Z → g ∈ gaps (frameQueue s) →
  (readPosition (frameQueue s) < Start g)%Z.
Proof.
  intros [[Hs _ _ _ _] _ _ _ _] Hf Hd Hg. destruct (ok_queue _ _ Hs _ _ Hf) as (Ho & _ & Hng).
  pose proof (ok_linked _ _ Hs) as Hl. apply list_elem_of_split in Hg as (pre & rest & Hgaps).
  rewrite Hgaps in Hl. apply linked_app in Hl as (m & Hlp & Hc & _ & Hne & _).
  apply linked_le in Hlp. apply chain_le in Hc.
  destruct (decide (readPosition (frameQueue s) = Start g)) as [E|]; [|lia].
  destruct (Hng (Start g)); [lia|]. rewrite Hgaps, in_gaps_app, in_gaps_cons. unfold in_gap. right. left. lia.
Qed.

Lemma push_keeps_fin frames q f q' err :
  run_ok src frames q (take (Z.to_nat (readPosition q)) src) → sent_frame f → fins_agree (frames ++ [f]) →
  (∀ o g, queuedFrames q !! o = Some g → FinBit g = true → Offset g + DataLen g = zlen src)%Z →
  (0 < DataLen f)%Z → Push q f = Some (q', err) →
  (∀ o g, queuedFrames q' !! o = Some g → FinBit g = true → Offset g + DataLen g = zlen src)%Z.
Proof.
  intros [Hs _ _ Hg _] [[Hp _] Hfin] Hagree Hq Hd Hpush o g Hog Hgf.
  destruct (Push_queue src small_src q f q' err Hs Hp Hd Hpush) as [_ H2].
  apply H2 in Hog as [Hog|(Hb & [E|((p & Hpr & Hpin) & Hlast)])]; [by eapply Hq| |].
  - rewrite E. apply Hfin. congruence.
  - exfalso. rewrite Hfin in * by congruence. destruct Hp as [Ho _ _ _].
    apply Hg in Hpin as [_ Hno]. apply Hlast. apply Hg. pose proof small_src. split; [lia|].
    apply Forall_forall. intros h Hh Hhb. rewrite Forall_forall in Hno. apply (Hno h Hh).
    assert (Offset h = Offset f) as Eh.
    { apply Hagree; [set_solver|set_solver|congruence| |done]. unfold has_byte. rewrite Hfin by congruence. lia. }
    unfold has_byte in *. lia.
Qed.

(** A frame arrives. *)
Lemma read_ok_frame frames s f q' err s' :
  read_ok frames s → sent_frame f → fins_agree (frames ++ [f]) → Push (frameQueue s) f = Some (q', err) →
  run_ok src (frames ++ [f]) q' (take (Z.to_nat (readPosition (frameQueue s))) src) →
  readPosition q' = readPosition (frameQueue s) →
  frameQueue s' = q' → readOffset s' = readOffset s → finishedReading s' = finishedReading s →
  read_ok (frames ++ [f]) s'.
Proof.
  intros Hok Hf Hagree Hpush Hrun Epos E1 E2 E3. pose proof Hok as [Hr Hp Hh Hfin Hdone].
  split; rewrite ?E1, ?E2, ?E3, ?Epos; [done|done| | |done].
  - destruct Hh as [Hh|(g & Hg & Hlt)]; [by left|]. right. exists g. split; [|done].
    unfold Head. rewrite Epos. rewrite <-Hg. unfold Head.
    pose proof (head_ok _ _ _ Hok Hg) as (Hog & _ & ? & _ & Hle).
    destruct (decide (DataLen f = 0)%Z) as [Hz|Hz].
    + unfold Push in Hpush. rewrite decide_True in Hpush by done. destruct (FinBit f); [|by injection Hpush as <- _].
      injection Hpush as <- _. cbn [queuedFrames]. destruct Hf as [[Hpf _] _].
      pose proof (piece_empty _ _ Hpf Hz). rewrite lookup_insert_ne; [done|lia].
    + pose proof (zlen_nonneg (SData f)) as Hnn. fold (DataLen f) in Hnn.
      destruct Hr as [Hs _ _ _ _]. destruct Hf as [[Hpf _] _].
      destruct (Push_queue src small_src _ f q' err Hs Hpf ltac:(lia) Hpush) as [H1 _].
      apply H1. intros gp Hgp. apply (head_before_gaps _ _ _ _ Hok Hg); [lia|done].
  - destruct (decide (DataLen f = 0)%Z) as [Hz|Hz].
    + unfold Push in Hpush. rewrite decide_True in Hpush by done. destruct (FinBit f) eqn:Ef; injection Hpush as <- _; [|done].
      cbn [queuedFrames]. intros o g [[<- <-]|[_ Hq]]%lookup_insert_Some Hgf; [|by eapply Hfin].
      by destruct Hf as [_ Hf]; apply Hf.
    + pose proof (zlen_nonneg (SData f)) as Hnn. fold (DataLen f) in Hnn.
      eapply (push_keeps_fin frames); [exact Hr|done|done|done|lia|exact Hpush].
Qed.
End reading.

(** ** One iteration and the loop *)

Section loop.
Context (src : list byte) (Hsrc : (zlen src < 2 ^ 63)%Z).
Context (frames : list StreamFrame).

(** [s'] has read the bytes [d] more than [s]. *)
Record advanced (s s' : stream) (d : list byte) : Prop := {
  ad_data : d = take (length d) (drop (Z.to_nat (readOffset s)) src);
  ad_offset : readOffset s' = (readOffset s + zlen d)%Z;
  ad_ok : read_ok src frames s';
  ad_flags : s_err s' = s_err s ∧ cancelled s' = cancelled s ∧ resetLocally s' = resetLocally s ∧
             readDeadline s' = readDeadline s
}.

Lemma advanced_none s : read_ok src frames s → advanced s s [].
Proof. intros H. split; [done|by rewrite Z.add_0_r|done|done]. Qed.

Lemma advanced_app s s' s'' d d' :
  (0 ≤ readOffset s)%Z → advanced s s' d → advanced s' s'' d' → advanced s s'' (d ++ d').
Proof.
  intros H0 [D1 O1 K1 (F1 & F2 & F3 & F4)] [D2 O2 K2 (G1 & G2 & G3 & G4)].
  assert (zlen d = Z.of_nat (length d)) as Hd by done.
  split; [|rewrite O2, O1, zlen_app; lia|done|by rewrite G1, G2, G3, G4, F1, F2, F3, F4].
  rewrite length_app, <-take_take_drop, drop_drop, <-D1. f_equal. rewrite D2 at 1. rewrite O1.
  do 2 f_equal. lia.
Qed.

Lemma offset_nonneg s : read_ok src frames s → (0 ≤ readOffset s)%Z.
Proof. intros [[Hs _ _ _ _] Hp _ _ _]. pose proof (ok_read _ _ Hs). lia. Qed.

Definition queue_size (s : stream) : nat := size (queuedFrames (frameQueue s)).

Lemma read_frame_ok env n f s got frame :
  read_ok src frames s → Head (frameQueue s) = Some frame →
  readPosInFrame s = (readOffset s - Offset frame)%Z → (zlen got < n)%Z → finishedReading s = false →
  ∃ f' s' d, advanced s s' d ∧ (zlen d ≤ n - zlen got)%Z ∧ (readOffset s < Offset frame + DataLen frame → 0 < zlen d)%Z ∧
  (read_frame env n f s got frame = Stop f' s' (ReadDone (got ++ d) (Some EOF)) ∧ finishedReading s' = true ∨
   read_frame env n f s got frame = More f' s' (got ++ d) ∧ finishedReading s' = false ∧
   (Z.to_nat (n - zlen (got ++ d)) + queue_size s' < Z.to_nat (n - zlen got) + queue_size s)%nat).
Proof.
  intros Hok Hh Epos Hn Hfinished. pose proof (head_ok _ _ _ _ Hok Hh) as (Ho & Hpc & Hp0 & Hle & Hend).
  pose proof (zlen_nonneg (SData frame)) as Hd0. fold (DataLen frame) in Hd0.
  pose proof (zlen_nonneg got) as Hg0. pose proof Hok as [Hrun Hpos Hhd Hfin Hdone].
  unfold read_frame. rewrite !(i64_small (DataLen frame)) by lia. rewrite Epos.
  rewrite decide_False by lia. rewrite decide_False by lia.
  set (m := Z.min (n - zlen got) (DataLen frame - (readOffset s - Offset frame))). cbn zeta.
  set (d := take (Z.to_nat m) _).
  assert (d = take (Z.to_nat m) (drop (Z.to_nat (readOffset s)) src)) as Ed.
  { unfold d. rewrite (piece_data _ _ Hpc), skipn_firstn_comm, drop_drop, take_take. f_equal; [lia|f_equal; lia]. }
  assert (zlen d = m) as Hm.
  { rewrite Ed. unfold zlen in *. rewrite length_take, length_drop. lia. }
  rewrite (u64_small m) by lia. rewrite (u64_small (readOffset s + m)) by lia.
  match goal with |- context [if resetRemotely ?x then _ else _] => set (s1 := x) end.
  set (f1 := if resetRemotely s1 then _ else _). clearbody f1.
  assert (d = take (length d) (drop (Z.to_nat (readOffset s)) src)) as Ed'.
  { rewrite Ed at 1. f_equal. rewrite <-Hm. unfold zlen. lia. }
  case_decide as Hall.
  - destruct (run_ok_deliver src (small_src src Hsrc) frames _ _ frame Hrun Hh) as (q' & Hpop & Hrun').
    destruct (Pop_spec src (small_src src Hsrc) _ frame (run_sorter _ _ _ _ Hrun) Hh) as (q'' & Hpop' & _ & _ & Epq & _ & _).
    rewrite Hpop in Hpop'. injection Hpop' as <-.
    set (s2 := set_read s1 _ _ _ _ _ _).
    assert (advanced s s2 d) as Hadv.
    { split; [done|cbn; lia| |done]. assert (frameQueue s2 = q') as Eq by (unfold s2, s1; cbn; by rewrite Hpop).
      split; rewrite ?Eq.
      - pose proof (run_out _ _ _ _ Hrun') as E. by rewrite <-E.
      - rewrite Epq. cbn. lia.
      - left. rewrite Epq. cbn. lia.
      - intros o g. unfold Pop in Hpop. rewrite Hh in Hpop. injection Hpop as <-. cbn [queuedFrames].
        intros [_ Hq]%lookup_delete_Some. exact (Hfin _ _ Hq).
      - cbn. rewrite Hfinished. intros Hf. cbn in Hf. assert (Offset frame + DataLen frame = zlen src)%Z by exact (Hfin _ _ Hh Hf).
        lia. }
    assert (queue_size s2 < queue_size s)%nat as Hsz.
    { unfold queue_size, s2, s1. cbn. rewrite Hpop. unfold Pop in Hpop. rewrite Hh in Hpop. injection Hpop as <-.
      cbn [queuedFrames snd]. rewrite Ho. unfold Head in Hh. rewrite map_size_delete, Hh.
      assert (size (queuedFrames (frameQueue s)) ≠ 0)%nat; [|lia].
      intros Hz%map_size_empty_iff. by rewrite Hz in Hh. }
    exists f1, s2, d. split; [done|]. split; [lia|]. split; [lia|].
    destruct (FinBit frame) eqn:Efin.
    + left. split; [done|]. unfold s2, s1. cbn. by rewrite orb_true_r.
    + right. split; [done|]. split; [unfold s2, s1; cbn; by rewrite Hfinished|]. rewrite zlen_app. lia.
  - exists f1, s1, d. split; [|split; [lia|split; [lia|right]]].
    + split; [done|cbn; lia| |done]. split; cbn; [done|lia| |done|].
      * right. exists frame. split; [done|]. lia.
      * rewrite Hfinished. done.
    + split; [done|]. split; [done|]. rewrite zlen_app. unfold queue_size. cbn. lia.
Qed.

(** The byte at an offset arrived. *)
Definition has_arrived (p : Z) : Prop := Exists (λ f, has_byte f p) frames.

Lemma head_arrived s :
  read_ok src frames s → has_arrived (readOffset s) →
  ∃ frame, Head (frameQueue s) = Some frame ∧ (readOffset s < Offset frame + DataLen frame)%Z.
Proof.
  intros Hok Harr. pose proof Hok as [Hrun _ Hhd _ _]. destruct Hhd as [E|(f & Hf & Hlt)].
  - destruct (Head_progress src (frameQueue s)) as (f & Hf & Hd); [apply Hrun| | |].
    + pose proof (run_read _ _ _ _ Hrun). pose proof (small_src src Hsrc). lia.
    + rewrite (run_gaps _ _ _ _ Hrun). intros [_ Hno]. unfold has_arrived in Harr. rewrite E in Harr.
      apply Exists_exists in Harr as (g & Hg & Hb). rewrite Forall_forall in Hno. by apply (Hno g).
    + exists f. split; [done|]. pose proof (head_ok _ _ _ _ Hok Hf) as (Ho & _). lia.
  - exists f. split; [done|]. pose proof (head_ok _ _ _ _ Hok Hf) as (Ho & _). lia.
Qed.

(** How a [Read] of [n] bytes ends, with the bytes [d]. *)
Inductive read_ends (now n : Z) (err : option StreamError) (deadline : option Z) (s' : stream) (d : list byte) :
    read_outcome → Prop :=
| ends_blocked : (0 < n)%Z → d = [] → Head (frameQueue s') = None → readChan s' = false → passed now deadline = false →
    finishedReading s' = false → read_ends now n err deadline s' d ReadBlocked
| ends_full : zlen d = n → finishedReading s' = false → read_ends now n err deadline s' d (ReadDone d None)
| ends_short : Head (frameQueue s') = None → d ≠ [] → finishedReading s' = false →
    read_ends now n err deadline s' d (ReadDone d err)
| ends_deadline : passed now deadline = true → finishedReading s' = false →
    read_ends now n err deadline s' d (ReadDone d (Some errDeadline))
| ends_eof : finishedReading s' = true → readOffset s' = zlen src →
    read_ends now n err deadline s' d (ReadDone d (Some EOF)).

Lemma read_loop_ok env now n fuel f s got :
  Forall (sent_frame src) frames →
  read_ok src frames s → cancelled s = false → resetLocally s = false → finishedReading s = false →
  (zlen got ≤ n)%Z → (Z.to_nat (n - zlen got) + queue_size s ≤ fuel)%nat →
  ∃ f' s' d o, read_loop fuel env now n f s got = (f', s', Some o) ∧ advanced s s' d ∧ (zlen got + zlen d ≤ n)%Z ∧
    read_ends now n (s_err s) (readDeadline s) s' (got ++ d) o ∧
    (passed now (readDeadline s) = false →
     (∀ p, (readOffset s ≤ p < readOffset s + (n - zlen got))%Z → has_arrived p) →
     (zlen got + zlen d = n)%Z).
Proof.
  intros Hframes. revert f s got. induction fuel as [|fuel IH]; intros f s got Hok Hc Hr Hfd Hgot Hfuel.
  all: cbn [read_loop]; destruct (decide (zlen got < n)%Z) as [Hlt|Hge]; cycle 1.
  1,3: exists f, s, [], (ReadDone got None); rewrite app_nil_r; change (zlen []) with 0%Z;
    (split; [done|]; split; [by apply advanced_none|]; split; [lia|]; split; [apply ends_full; [lia|done]|lia]).
  2: lia.
  assert (∀ p, read_stop now s = p → p = if passed now (readDeadline s) then Some (Some errDeadline) else None) as Hstop.
  { intros p <-. unfold read_stop. by rewrite Hc, Hr. }
  pose proof (Hstop _ eq_refl) as Es. clear Hstop. unfold read_iter. rewrite Es.
  destruct (Head (frameQueue s)) as [frame|] eqn:Hh.
  - destruct (passed now (readDeadline s)) eqn:Ep.
    { exists f, s, [], (ReadDone got (Some errDeadline)). rewrite app_nil_r. split; [done|].
      split; [by apply advanced_none|]. split; [unfold zlen in *; cbn; lia|]. split; [by apply ends_deadline|done]. }
    pose proof (head_ok _ _ _ _ Hok Hh) as (Ho & Hpc & Hp0 & Hle & Hend).
    pose proof Hok as [_ Hpos _ _ _]. pose proof (zlen_nonneg (SData frame)) as Hd0. fold (DataLen frame) in Hd0.
    rewrite i64_small by lia. set (s0 := set_read s _ _ _ _ _ _).
    assert (read_ok src frames s0) as Hok0 by (by apply (read_ok_fields src frames s)).
    destruct (read_frame_ok env n f s0 got frame) as (f' & s' & d & Hadv & Hdn & Hdp & Hcase); [done..|].
    assert (advanced s s' d) as Hadv' by (destruct Hadv; by split).
    destruct Hcase as [[-> Hfin']|(-> & Hfin' & Hdec)].
    + pose proof (ro_done _ _ _ (ad_ok _ _ _ Hadv') Hfin') as Heof.
      exists f', s', d, (ReadDone (got ++ d) (Some EOF)). split; [done|]. split; [done|]. split; [lia|].
      split; [by apply ends_eof|]. intros _ Harr.
      specialize (Harr (readOffset s + (n - zlen got) - 1)%Z ltac:(lia)).
      apply Exists_exists in Harr as (g & Hg & Hb). rewrite Forall_forall in Hframes.
      destruct (Hframes g Hg) as [[[_ Hge _ _] _] _]. pose proof (ad_offset _ _ _ Hadv'). unfold has_byte in Hb. lia.
    + pose proof (ad_flags _ _ _ Hadv') as (F1 & F2 & F3 & F4).
      destruct (IH f' s' (got ++ d)) as (f'' & s'' & d' & o & Hloop & Hadv2 & Hn2 & Hends & Hlive);
        [apply Hadv'|congruence|congruence|done|rewrite zlen_app; lia|unfold queue_size in *; cbn in Hdec; lia|].
      rewrite F1, F4 in Hends. rewrite F4 in Hlive. rewrite zlen_app in *.
      exists f'', s'', (d ++ d'), o. rewrite app_assoc, zlen_app. split; [done|].
      split; [apply (advanced_app _ s'); [by apply offset_nonneg|done|done]|]. split; [lia|]. split; [done|].
      intros Hp Harr. enough (zlen got + zlen d + zlen d' = n)%Z by lia. apply Hlive; [done|].
      intros p Hpr. apply Harr. pose proof (ad_offset _ _ _ Hadv'). pose proof (zlen_nonneg d). lia.
  - assert (passed now (readDeadline s) = false →
      (∀ p, (readOffset s ≤ p < readOffset s + (n - zlen got))%Z → has_arrived p) → False) as Hno.
    { intros _ Harr. destruct (head_arrived s Hok) as (g & Hg & _); [apply Harr; lia|]. congruence. }
    destruct (decide (got ≠ [])) as [Hne|He].
    { exists f, s, [], (ReadDone got (s_err s)). rewrite app_nil_r. split; [done|].
      split; [by apply advanced_none|]. split; [unfold zlen in *; cbn; lia|]. split; [by apply ends_short|]. intros. by destruct Hno. }
    assert (got = []) as -> by (by destruct got; [|destruct He]).
    destruct (passed now (readDeadline s)) eqn:Ep.
    { exists f, s, [], (ReadDone [] (Some errDeadline)). split; [done|].
      split; [by apply advanced_none|]. split; [unfold zlen in *; cbn; lia|]. split; [by apply ends_deadline|done]. }
    eexists f, _, [], ReadBlocked. split; [done|].
    split; [split; [done|unfold zlen in *; cbn; lia|by apply (read_ok_fields src frames s)|done]|]. split; [unfold zlen in *; cbn; lia|].
    split; [apply ends_blocked; try done; unfold zlen in Hlt; cbn in Hlt; lia|]. intros. by destruct Hno.
Qed.
End loop.

(** * Runs *)

(** A step other than a read or a received frame leaves the reading side alone. *)
Lemma local_step_reading s o :
  frameQueue (local_step s o) = frameQueue s ∧ readOffset (local_step s o) = readOffset s ∧
  finishedReading (local_step s o) = finishedReading s.
Proof.
  destruct o; cbn [local_step]; unfold Write_start, Write_check, getDataForWriting, sentFin, Close, Cancel, Reset,
    RegisterRemoteError, send_reset, set_err, SetReadDeadline, SetWriteDeadline, signalRead, signalWrite;
    repeat case_match; done.
Qed.

Lemma Read_ok src (Hsrc : (zlen src < 2 ^ 63)%Z) frames env now n f s :
  Forall (sent_frame src) frames → read_ok src frames s → (0 ≤ n)%Z →
  ∃ f' s' d o, Read env now n f s = (f', s', Some o) ∧ advanced src frames s s' d ∧
    (o = ReadBlocked ∧ d = [] ∧ (0 < n)%Z ∨ ∃ e, o = ReadDone d e) ∧
    (cancelled s = false → resetLocally s = false → finishedReading s = false → passed now (readDeadline s) = false →
     (∀ p, (readOffset s ≤ p < readOffset s + n)%Z → has_arrived frames p) → zlen d = n).
Proof.
  intros Hframes Hok Hn. unfold Read. destruct (cancelled s || resetLocally s) eqn:Ec.
  { exists f, s, [], (ReadDone [] (s_err s)). split; [done|]. split; [by apply advanced_none|].
    split; [right; by eexists|]. intros Hc Hr. by rewrite Hc, Hr in Ec. }
  apply orb_false_iff in Ec as [Hc Hr]. destruct (finishedReading s) eqn:Ef.
  { exists f, s, [], (ReadDone [] (Some EOF)). split; [done|]. split; [by apply advanced_none|].
    split; [right; by eexists|]. done. }
  destruct (read_loop_ok src Hsrc frames env now n (read_fuel n s) f s []) as (f' & s' & d & o & -> & Hadv & Hd & Hends & Hlive);
    [done..|unfold zlen; cbn; lia|unfold read_fuel, queue_size, zlen; cbn; lia|].
  exists f', s', d, o. split; [done|]. split; [done|]. split.
  - inversion Hends; subst; [left; done|right; by eexists..].
  - intros _ _ _ Hp Harr. unfold zlen in Hlive at 1 2. cbn in Hlive. rewrite Z.sub_0_r in Hlive. by apply Hlive.
Qed.

Lemma fins_agree_sub src frames frames' : frames ⊆ frames' → fins_agree src frames' → fins_agree src frames.
Proof. intros Hs Ha f g Hf Hg. apply Ha; by apply Hs. Qed.

Definition read_count_ok (o : stream_op) : Prop := match o with OpRead _ _ n => (0 ≤ n)%Z | _ => True end.

Lemma stream_step_ok src (Hsrc : (zlen src < 2 ^ 63)%Z) frames f s o :
  Forall (sent_frame src) (frames ++ received [o]) → fins_agree src (frames ++ received [o]) → read_count_ok o →
  read_ok src frames s →
  match stream_step f s o with
  | None => False
  | Some (Err e) => (∃ e', e = EFlow e') ∨ e = ESorter errTooManyGapsInReceivedStreamData
  | Some (Ok (f', s', d)) =>
      d = take (length d) (drop (Z.to_nat (readOffset s)) src) ∧ readOffset s' = (readOffset s + zlen d)%Z ∧
      read_ok src (frames ++ received [o]) s'
  end.
Proof.
  intros Hframes Hagree Hn Hok.
  assert (received [o] = [] → read_ok src (frames ++ received [o]) (local_step s o)) as Hlocal.
  { intros ->. rewrite app_nil_r. destruct (local_step_reading s o) as (E1 & E2 & E3). by apply (read_ok_fields src frames s). }
  assert (received [o] = [] → [] = take (length (A := byte) []) (drop (Z.to_nat (readOffset s)) src) ∧
    readOffset (local_step s o) = (readOffset s + zlen (A := byte) [])%Z ∧
    read_ok src (frames ++ received [o]) (local_step s o)) as Hlocal'.
  { intros E. split; [done|]. destruct (local_step_reading s o) as (_ & -> & _). split; [unfold zlen; cbn; lia|by apply Hlocal]. }
  destruct o as [frame|env now n| | | | | | | | | |]; try (by apply Hlocal'); cbn [received omap list_omap stream_step] in *.
  - unfold AddStreamFrame. destruct (UpdateHighestReceived _ _ _) as [f' [e|]]; cbn; [left; by eexists|].
    apply Forall_app in Hframes as [_ [Hf _]%Forall_cons].
    destruct (run_ok_arrive src (small_src src Hsrc) frames _ _ frame (ro_run _ _ _ Hok)) as (q' & err & Hpush & Hcase);
      [apply Hf|].
    rewrite Hpush. cbn. destruct Hcase as [[He Hrun]|[-> _]]; [|by right].
    assert (readPosition q' = readPosition (frameQueue s)) as Epos.
    { destruct (decide (DataLen frame = 0)%Z) as [Hz|Hz].
      - unfold Push in Hpush. rewrite decide_True in Hpush by done. by destruct (FinBit frame); injection Hpush as <- _.
      - pose proof (zlen_nonneg (SData frame)). destruct Hf as [[Hpf _] _]. destruct Hok as [[Hs _ _ _ _] _ _ _ _].
        destruct (Push_spec src (small_src src Hsrc) _ frame Hs Hpf) as (s'' & err' & Hp & E & _); [unfold DataLen in *; lia|].
        rewrite Hpush in Hp. by injection Hp as <- _. }
    assert (∀ s', frameQueue s' = q' → readOffset s' = readOffset s → finishedReading s' = finishedReading s →
      read_ok src (frames ++ [frame]) s') as Hnew.
    { intros s' E1 E2 E3. by apply (read_ok_frame src Hsrc frames s frame q' err). }
    destruct He as [->| ->]; cbn; (split; [done|split; [unfold zlen; cbn; lia|by apply Hnew]]).
  - rewrite app_nil_r in *. destruct (Read_ok src Hsrc frames env now n f s) as (f' & s' & d & o & -> & Hadv & Hcase & _);
      [done..|].
    destruct Hcase as [(-> & -> & _)|[e ->]]; cbn; (split; [apply Hadv|split; apply Hadv]).
Qed.

Lemma stream_run_ok src (Hsrc : (zlen src < 2 ^ 63)%Z) frames f s out ops :
  Forall (sent_frame src) (frames ++ received ops) → fins_agree src (frames ++ received ops) → Forall read_count_ok ops →
  read_ok src frames s → out = take (length out) src → readOffset s = zlen out →
  match stream_run f s out ops with
  | None => False
  | Some (Err e) => (∃ e', e = EFlow e') ∨ e = ESorter errTooManyGapsInReceivedStreamData
  | Some (Ok (f', s', out')) =>
      out' = take (length out') src ∧ readOffset s' = zlen out' ∧ read_ok src (frames ++ received ops) s'
  end.
Proof.
  revert frames f s out. induction ops as [|o ops IH]; intros frames f s out Hframes Hagree Hn Hok Hout Hoff.
  { cbn. by rewrite app_nil_r. }
  assert (received (o :: ops) = received [o] ++ received ops) as Er by by destruct o.
  rewrite Er, app_assoc in *. apply Forall_cons in Hn as [Hn1 Hn].
  assert (fins_agree src (frames ++ received [o])) as Hagree1 by (eapply fins_agree_sub; [|exact Hagree]; set_solver).
  assert (Forall (sent_frame src) (frames ++ received [o])) as Hframes1 by by apply Forall_app in Hframes as [? _].
  pose proof (stream_step_ok src Hsrc frames f s o Hframes1 Hagree1 Hn1 Hok) as Hstep. cbn [stream_run].
  destruct (stream_step f s o) as [[[[f1 s1] d]|e]|]; [|done|done]. destruct Hstep as (Hd & Hoff1 & Hok1).
  cbn [mbind option_bind]. apply IH; [done..| |rewrite zlen_app; by rewrite <-Hoff].
  rewrite length_app, <-take_take_drop, <-Hout. f_equal. rewrite Hd at 1. do 2 f_equal. rewrite Hoff. unfold zlen. lia.
Qed.

(** Whatever frames of a sender's data arrive, in whatever order, overlap and repetition, interleaved
    with reads of any size and with every other method of the stream: no method panics or loops, the bytes
    read are a prefix of the data and [readOffset] counts them, the end of the stream is reported only
    after all of the data, and a [Read] of bytes that have all arrived returns exactly them (unless the
    stream was cancelled or reset or the deadline passed).  The only errors of frames are those of flow
    control and the limit on gaps. *)
Theorem stream_reads src id f0 ops :
  (zlen src < 2 ^ 63)%Z → Forall (sent_frame src) (received ops) → fins_agree src (received ops) →
  Forall read_count_ok ops →
  match stream_run f0 (newStream id) [] ops with
  | None => False
  | Some (Err e) => (∃ e', e = EFlow e') ∨ e = ESorter errTooManyGapsInReceivedStreamData
  | Some (Ok (f, s, out)) =>
      out = take (length out) src ∧ readOffset s = zlen out ∧ (finishedReading s = true → out = src) ∧
      ∀ env now n, (0 ≤ n)%Z →
        cancelled s = false → resetLocally s = false → finishedReading s = false → passed now (readDeadline s) = false →
        (∀ p, (zlen out ≤ p < zlen out + n)%Z → has_arrived (received ops) p) →
        ∃ f' s' e, Read env now n f s =
          (f', s', Some (ReadDone (take (Z.to_nat n) (drop (length out) src)) e))
  end.
Proof.
  intros Hsrc Hframes Hagree Hn.
  pose proof (stream_run_ok src Hsrc [] f0 (newStream id) [] ops Hframes Hagree Hn (read_ok_new src id) eq_refl eq_refl) as Hrun.
  destruct (stream_run _ _ _ _) as [[[[f s] out]|e]|]; [|done|done]. destruct Hrun as (Hout & Hoff & Hok).
  split; [done|]. split; [done|]. split.
  { intros Hfd. apply (ro_done _ _ _ Hok) in Hfd. rewrite Hout. apply take_ge. unfold zlen in *. lia. }
  intros env now n Hn0 Hc Hr Hfd Hp Harr. rewrite <-Hoff in Harr. cbn [app] in Hok.
  destruct (Read_ok src Hsrc (received ops) env now n f s) as (f' & s' & d & o & Hread & Hadv & Hcase & Hlive); [done..|].
  specialize (Hlive Hc Hr Hfd Hp Harr).
  assert (d = take (Z.to_nat n) (drop (length out) src)) as Ed.
  { rewrite (ad_data _ _ _ _ _ Hadv), Hoff. f_equal; [unfold zlen in *; lia|f_equal; unfold zlen; lia]. }
  destruct Hcase as [(_ & -> & Hn1)|[e ->]]; [unfold zlen in Hlive; cbn in Hlive; lia|].
  exists f', s', e. by rewrite <-Ed.
Qed.

(** Two frames out of order, the second a FIN; a read between them, a short read and a read to the end. *)
Definition sample_env : environment := {| env_now := 0; SmoothedRTT := 0; remoteRTTs := ∅ |}.
Definition sample_ops : list stream_op :=
  [OpRead sample_env 0 2; OpFrame (frame_at 3 [x04; x05] true); OpRead sample_env 0 2;
   OpFrame (frame_at 0 [x01; x02; x03] false); OpRead sample_env 0 2; OpClose; OpRead sample_env 0 10].
Definition sample_flow_control : flowControlManager := NewStream sample_params (NewFlowControlManager sample_params) 5 true.

Lemma sample_fins_agree : fins_agree [x01; x02; x03; x04; x05] (received sample_ops).
Proof.
  intros f g Hf Hg. apply list_elem_of_In in Hf, Hg. unfold has_byte.
  destruct Hf as [<-|[<-|[]]], Hg as [<-|[<-|[]]]; cbn; try done; unfold DataLen, zlen; cbn; lia.
Qed.
Lemma sample_frames_sent : Forall (sent_frame [x01; x02; x03; x04; x05]) (received sample_ops).
Proof. repeat constructor; done. Qed.
Lemma sample_counts_ok : Forall read_count_ok sample_ops.
Proof. unfold sample_ops. rewrite !Forall_cons. cbn. repeat (split; [done|]). constructor. Qed.
Lemma stream_reads_witness :
  ∃ f s, stream_run sample_flow_control (newStream 5) [] sample_ops = Some (Ok (f, s, [x01; x02; x03; x04; x05])) ∧
    finishedReading s = true.
Proof.
  pose proof (stream_reads [x01; x02; x03; x04; x05] 5 sample_flow_control sample_ops) as H.
  destruct (stream_run sample_flow_control (newStream 5) [] sample_ops) as [[[[f s] out]|e]|] eqn:E;
    [|vm_compute in E; discriminate|vm_compute in E; discriminate].
  exists f, s. assert (finishedReading s = true ∧ length out = 5%nat) as [Hf Hl].
  { vm_compute in E. injection E as <- <- <-. done. }
  destruct H as (H & _ & Hsrc & _); [done| | | |].
  - exact sample_frames_sent.
  - exact sample_fins_agree.
  - exact sample_counts_ok.
  - rewrite (Hsrc Hf). split; [reflexivity|exact Hf].
Defined.

(** * Wake-ups *)

(** Whether a [Read] at time [now] would return. *)
Definition readable (now : Z) (s : stream) : bool :=
  cancelled s || resetLocally s || bool_decide (is_Some (Head (frameQueue s))) || passed now (readDeadline s).

(** C32: A blocked [Read] is woken: on a stream without an error, any call after which [Read] would return
    (data at the head of the queue, a cancellation, a local reset, a read deadline moved to the past)
    leaves a signal in [readChan], provided a deadline had been set before it is moved. *)
Theorem read_is_woken now f s o f' s' d :
  stream_step f s o = Some (Ok (f', s', d)) →
  match o with OpRead _ _ _ => False | OpReadDeadline _ => is_Some (readDeadline s) | _ => True end →
  s_err s = None → readable now s = false → readable now s' = true → readChan s' = true.
Proof.
  intros Hstep Ho He Hno Hyes.
  assert (∀ s', frameQueue s' = frameQueue s → cancelled s' = cancelled s → resetLocally s' = resetLocally s →
    readDeadline s' = readDeadline s → readable now s' = false) as Hsame.
  { intros t E1 E2 E3 E4. unfold readable in *. by rewrite E1, E2, E3, E4. }
  destruct o as [frame| |p|now' p|n| | |e|e|e|t|t]; try done; cbn [stream_step] in Hstep.
  { unfold AddStreamFrame in Hstep. destruct (UpdateHighestReceived _ _ _) as [f1 [e|]]; [done|].
    destruct (Push _ _) as [[q err]|]; [|done]. cbn in Hstep. destruct err as [[]|]; try done; by injection Hstep as _ <- _. }
  all: injection Hstep as _ <- _; cbn [local_step] in *.
  - rewrite Hsame in Hyes; [done|..]; unfold Write_start; repeat case_match; done.
  - rewrite Hsame in Hyes; [done|..]; unfold Write_check; repeat case_match; done.
  - rewrite Hsame in Hyes; [done|..]; unfold getDataForWriting; repeat case_match; done.
  - by rewrite Hsame in Hyes.
  - by rewrite Hsame in Hyes.
  - unfold Cancel, set_err. cbn. by rewrite He.
  - unfold Reset, set_err, send_reset in *. cbn in *. rewrite He in *. repeat case_match; first [done | cbn in *; congruence].
  - rewrite Hsame in Hyes; [done|..]; unfold RegisterRemoteError, set_err, send_reset, signalWrite; repeat case_match; done.
  - destruct Ho as [old Hold]. unfold readable in *. unfold SetReadDeadline in *. rewrite Hold in *.
    destruct t as [t|]; [|done]. case_decide as Hd; [done|]. cbn in *.
    apply orb_false_iff in Hno as [Hno Hp]. rewrite Hno in Hyes. cbn in Hyes, Hp.
    apply bool_decide_eq_true in Hyes. apply bool_decide_eq_false in Hp. lia.
  - rewrite Hsame in Hyes; [done|..]; unfold SetWriteDeadline, signalWrite; repeat case_match; done.
Qed.

(** The two provisos: after an error from the peer a cancellation is not signalled, and the first deadline
    that is set is not, even when it has passed: the [Read] stays blocked. *)
Lemma lost_wakeups :
  let blocked := newStream 5 in
  Read sample_env 10 1 sample_flow_control blocked = (sample_flow_control, blocked, Some ReadBlocked) ∧
  (let s := Cancel (RegisterRemoteError blocked (Some (EGiven 1))).1 (Some (EGiven 2)) in
   readable 10 s = true ∧ readChan s = false) ∧
  (let s := SetReadDeadline blocked (Some 9%Z) in readable 10 s = true ∧ readChan s = false).
Proof. vm_compute. done. Qed.

Lemma read_is_woken_witness :
  let s := Cancel (newStream 5) (Some (EGiven 1)) in readChan s = true.
Proof.
  apply (read_is_woken 10 sample_flow_control (newStream 5) (OpCancel (Some (EGiven 1))) sample_flow_control
    (Cancel (newStream 5) (Some (EGiven 1))) []); [reflexivity|exact I|reflexivity|reflexivity|reflexivity].
Defined.
