(* ===== verification/StreamsMap.v ===== *)
(** The streams of a connection (src/mp-quic/streams_map.go, and newStream and
    garbageCollectStreams of session.go).

    A pointer to a stream is its ID and its state is the one the map holds.  Every method
    takes the map's mutex, so methods are steps; the limits the peer negotiated are
    arguments, read at the call.  A callback of an iteration is a function on the map, the
    state [W] it closes over and the ID of the stream. *)

From Stdlib Require Import ZArith Lia.
From stdpp Require Import prelude numbers list gmap.
From S2P Require Import Prelude Wire Handshake StreamSorter FlowControl PublicHeader Stream.

Open Scope Z_scope.

Definition MaxNewStreamIDDelta : Z := 4 * MaxStreamsPerConnection.

Inductive StreamsMapError : Type :=
| TooManyOpenStreams
| InvalidStreamID
| ErrClosed (e : StreamError)
| ErrStreamExists
| ErrNoSuchStream
| errStreamsMapAccess.

Record streamsMap : Type := {
  sm_perspective : Perspective;
  streams : gmap Z stream;
  openStreams : list Z;
  roundRobinIndex : Z;
  nextStream : Z;
  highestStreamOpenedByPeer : Z;
  closeErr : option StreamError;
  nextStreamToAccept : Z;
  numOutgoingStreams : Z;
  numIncomingStreams : Z
}.

Definition newStreamsMap (pers : Perspective) : streamsMap := {|
  sm_perspective := pers; streams := ∅; openStreams := []; roundRobinIndex := 0;
  nextStream := match pers with PerspectiveClient => 1 | PerspectiveServer => 2 end;
  highestStreamOpenedByPeer := 0; closeErr := None;
  nextStreamToAccept := match pers with PerspectiveClient => 2 | PerspectiveServer => 1 end;
  numOutgoingStreams := 0; numIncomingStreams := 0
|}.

Definition set_streams (m : streamsMap) (ss : gmap Z stream) (order : list Z) (index : Z) : streamsMap := {|
  sm_perspective := sm_perspective m; streams := ss; openStreams := order; roundRobinIndex := index;
  nextStream := nextStream m; highestStreamOpenedByPeer := highestStreamOpenedByPeer m; closeErr := closeErr m;
  nextStreamToAccept := nextStreamToAccept m; numOutgoingStreams := numOutgoingStreams m;
  numIncomingStreams := numIncomingStreams m
|}.
Definition set_ids (m : streamsMap) (next highest accept outgoing incoming : Z) : streamsMap := {|
  sm_perspective := sm_perspective m; streams := streams m; openStreams := openStreams m;
  roundRobinIndex := roundRobinIndex m; nextStream := next; highestStreamOpenedByPeer := highest;
  closeErr := closeErr m; nextStreamToAccept := accept; numOutgoingStreams := outgoing;
  numIncomingStreams := incoming
|}.

(** [session.newStream]: the crypto and the header stream do not count against the connection's window. *)
Definition session_newStream (cp : ConnectionParameters) (f : flowControlManager) (id : Z) :
    flowControlManager * stream :=
  (NewStream cp f id (negb (bool_decide (id = 1 ∨ id = 3))), Stream.newStream id).

Definition putStream (m : streamsMap) (s : stream) : streamsMap * option StreamsMapError :=
  let id := s_streamID s in
  match streams m !! id with
  | Some _ => (m, Some ErrStreamExists)
  | None => (set_streams m (<[id := s]> (streams m)) (openStreams m ++ [id]) (roundRobinIndex m), None)
  end.

(** [limit] is [GetMaxIncomingStreams()]. *)
Definition openRemoteStream (cp : ConnectionParameters) (limit : Z) (m : streamsMap) (f : flowControlManager) (id : Z) :
    streamsMap * flowControlManager * option StreamsMapError :=
  if decide (limit ≤ numIncomingStreams m) then (m, f, Some TooManyOpenStreams)
  else if decide (u32 (id + MaxNewStreamIDDelta) < highestStreamOpenedByPeer m) then (m, f, Some InvalidStreamID)
  else
    let '(outgoing, incoming) := match sm_perspective m with
      | PerspectiveServer => (numOutgoingStreams m, u32 (numIncomingStreams m + 1))
      | PerspectiveClient => (u32 (numOutgoingStreams m + 1), numIncomingStreams m)
      end in
    let highest := if decide (highestStreamOpenedByPeer m < id) then id else highestStreamOpenedByPeer m in
    let '(f, s) := session_newStream cp f id in
    ((putStream (set_ids m (nextStream m) highest (nextStreamToAccept m) outgoing incoming) s).1, f, None).

(** [for ; sid <= id; sid += 2]; [None] when the loop did not end within the fuel. *)
Fixpoint open_up_to (fuel : nat) (cp : ConnectionParameters) (limit : Z) (m : streamsMap) (f : flowControlManager)
    (sid id : Z) : option (streamsMap * flowControlManager * option StreamsMapError) :=
  if decide (sid ≤ id) then
    match fuel with
    | O => None
    | S fuel =>
        match openRemoteStream cp limit m f sid with
        | (m, f, Some e) => Some (m, f, Some e)
        | (m, f, None) => open_up_to fuel cp limit m f (u32 (sid + 2)) id
        end
    end
  else Some (m, f, None).

(** The checks for an ID that is not in the map: [Some r] returns. *)
Definition refuse_stream (m : streamsMap) (id : Z) : option (result StreamsMapError (option Z)) :=
  let own := match sm_perspective m with
             | PerspectiveServer => bool_decide (id mod 2 = 0)
             | PerspectiveClient => bool_decide (id mod 2 = 1)
             end in
  if own then Some (if decide (id ≤ nextStream m) then Ok None else Err InvalidStreamID)
  else if decide (id ≤ highestStreamOpenedByPeer m) then Some (Ok None)
  else None.

Definition first_remote (m : streamsMap) : Z :=
  let sid := u32 (highestStreamOpenedByPeer m + 2) in
  if decide (sid = 2 ∧ sm_perspective m = PerspectiveServer) then 1 else sid.

(** The stream, none if it was closed already, or an error. *)
Definition GetOrOpenStream (cp : ConnectionParameters) (limit : Z) (m : streamsMap) (f : flowControlManager) (id : Z) :
    option (streamsMap * flowControlManager * result StreamsMapError (option Z)) :=
  match streams m !! id with
  | Some _ => Some (m, f, Ok (Some id))
  | None =>
      match refuse_stream m id with
      | Some r => Some (m, f, r)
      | None =>
          let sid := first_remote m in
          '(m, f, e) ← open_up_to (S (Z.to_nat ((id - sid) / 2))) cp limit m f sid id;
          Some (m, f, match e with
                      | Some e => Err e
                      | None => Ok (match streams m !! id with Some _ => Some id | None => None end)
                      end)
      end
  end.

(** [limit] is [GetMaxOutgoingStreams()]. *)
Definition openStreamImpl (cp : ConnectionParameters) (limit : Z) (m : streamsMap) (f : flowControlManager) :
    streamsMap * flowControlManager * result StreamsMapError Z :=
  let id := nextStream m in
  if decide (limit ≤ numOutgoingStreams m) then (m, f, Err TooManyOpenStreams)
  else
    let '(outgoing, incoming) := match sm_perspective m with
      | PerspectiveServer => (u32 (numOutgoingStreams m + 1), numIncomingStreams m)
      | PerspectiveClient => (numOutgoingStreams m, u32 (numIncomingStreams m + 1))
      end in
    let '(f, s) := session_newStream cp f id in
    ((putStream (set_ids m (u32 (nextStream m + 2)) (highestStreamOpenedByPeer m) (nextStreamToAccept m)
                   outgoing incoming) s).1, f, Ok id).

Definition OpenStream (cp : ConnectionParameters) (limit : Z) (m : streamsMap) (f : flowControlManager) :
    streamsMap * flowControlManager * result StreamsMapError Z :=
  match closeErr m with
  | Some e => (m, f, Err (ErrClosed e))
  | None => openStreamImpl cp limit m f
  end.

(** One round of the loop: [None] waits for [openStreamOrErrCond]. *)
Definition OpenStreamSync (cp : ConnectionParameters) (limit : Z) (m : streamsMap) (f : flowControlManager) :
    streamsMap * flowControlManager * option (result StreamsMapError Z) :=
  match OpenStream cp limit m f with
  | (m, f, Err TooManyOpenStreams) => (m, f, None)
  | (m, f, r) => (m, f, Some r)
  end.

(** One round of the loop: [None] waits for [nextStreamOrErrCond]. *)
Definition AcceptStream (m : streamsMap) : streamsMap * option (result StreamsMapError Z) :=
  match closeErr m with
  | Some e => (m, Some (Err (ErrClosed e)))
  | None =>
      let id := nextStreamToAccept m in
      match streams m !! id with
      | None => (m, None)
      | Some _ => (set_ids m (nextStream m) (highestStreamOpenedByPeer m) (u32 (id + 2)) (numOutgoingStreams m)
                     (numIncomingStreams m), Some (Ok id))
      end
  end.

(** [RemoveStream]: the first entry of [openStreams] goes, and the index follows. *)
Definition RemoveStream (m : streamsMap) (id : Z) : streamsMap * option StreamsMapError :=
  match streams m !! id with
  | None => (m, Some ErrNoSuchStream)
  | Some _ =>
      let '(outgoing, incoming) := if decide (id mod 2 = 0) then (u32 (numOutgoingStreams m - 1), numIncomingStreams m)
                                   else (numOutgoingStreams m, u32 (numIncomingStreams m - 1)) in
      let m := set_ids m (nextStream m) (highestStreamOpenedByPeer m) (nextStreamToAccept m) outgoing incoming in
      let '(order, index) := match list_find (eq id) (openStreams m) with
        | Some (i, _) => (delete i (openStreams m),
                          if decide (Z.of_nat i < roundRobinIndex m) then u32 (roundRobinIndex m - 1)
                          else roundRobinIndex m)
        | None => (openStreams m, roundRobinIndex m)
        end in
      (set_streams m (delete id (streams m)) order index, None)
  end.

Definition CloseWithError (m : streamsMap) (e : option StreamError) : streamsMap := {|
  sm_perspective := sm_perspective m;
  streams := foldl (λ ss id, alter (λ s, Cancel s e) id ss) (streams m) (openStreams m);
  openStreams := openStreams m; roundRobinIndex := roundRobinIndex m; nextStream := nextStream m;
  highestStreamOpenedByPeer := highestStreamOpenedByPeer m; closeErr := e;
  nextStreamToAccept := nextStreamToAccept m; numOutgoingStreams := numOutgoingStreams m;
  numIncomingStreams := numIncomingStreams m
|}.

(** * Iteration *)

Section iterate.
Context {W : Type}.

(** Whether to go on, and an error. *)
Definition streamLambda : Type :=
  streamsMap → W → Z → stream → streamsMap * W * (bool * option StreamsMapError).

Definition iterateFunc (fn : streamLambda) (m : streamsMap) (w : W) (id : Z) :
    streamsMap * W * (bool * option StreamsMapError) :=
  match streams m !! id with
  | None => (m, w, (true, Some errStreamsMapAccess))
  | Some s => fn m w id s
  end.

Fixpoint iterate_ids (fn : streamLambda) (m : streamsMap) (w : W) (ids : list Z) :
    streamsMap * W * option StreamsMapError :=
  match ids with
  | [] => (m, w, None)
  | id :: ids =>
      match iterateFunc fn m w id with
      | (m, w, (_, Some e)) => (m, w, Some e)
      | (m, w, (false, None)) => (m, w, None)
      | (m, w, (true, None)) => iterate_ids fn m w ids
      end
  end.
Definition Iterate (fn : streamLambda) (m : streamsMap) (w : W) : streamsMap * W * option StreamsMapError :=
  iterate_ids fn m w (openStreams m).

(** The crypto and the header stream first; the last component says to return. *)
Fixpoint prioritised (fn : streamLambda) (m : streamsMap) (w : W) (ids : list Z) :
    streamsMap * W * option (option StreamsMapError) :=
  match ids with
  | [] => (m, w, None)
  | id :: ids =>
      match iterateFunc fn m w id with
      | (m, w, (cont, e)) =>
          match e with
          | Some errStreamsMapAccess | None => if cont then prioritised fn m w ids else (m, w, Some None)
          | Some e => (m, w, Some (Some e))
          end
      end
  end.

(** [n] more rounds of the loop, from [i]; [None] is an index out of range. *)
Fixpoint round_robin (fn : streamLambda) (numStreams start : Z) (n : nat) (i : Z) (m : streamsMap) (w : W) :
    option (streamsMap * W * option StreamsMapError) :=
  match n with
  | O => Some (m, w, None)
  | S n =>
      id ← index (openStreams m) (u32 (i + start) mod numStreams);
      if decide (id = 1 ∨ id = 3) then round_robin fn numStreams start n (i + 1) m w
      else
        match iterateFunc fn m w id with
        | (m, w, (_, Some e)) => Some (m, w, Some e)
        | (m, w, (cont, None)) =>
            let m := set_streams m (streams m) (openStreams m) (u32 (roundRobinIndex m + 1) mod numStreams) in
            if cont then round_robin fn numStreams start n (i + 1) m w else Some (m, w, None)
        end
  end.
Definition RoundRobinIterate (fn : streamLambda) (m : streamsMap) (w : W) :
    option (streamsMap * W * option StreamsMapError) :=
  let numStreams := u32 (Z.of_nat (size (streams m))) in
  let start := roundRobinIndex m in
  match prioritised fn m w [1; 3] with
  | (m, w, Some e) => Some (m, w, e)
  | (m, w, None) => round_robin fn numStreams start (Z.to_nat numStreams) 0 m w
  end.
End iterate.

(** [session.garbageCollectStreams] *)
Definition garbageCollectStreams (m : streamsMap) (f : flowControlManager) : streamsMap * flowControlManager :=
  let '(m, f, _) := Iterate (λ m f id s,
      if finished s then
        match RemoveStream m id with
        | (m, Some e) => (m, f, (false, Some e))
        | (m, None) => (m, FlowControl.RemoveStream f id, (true, None))
        end
      else (m, f, (true, None))) m f in
  (m, f).

(** * Steps *)

Inductive sm_op : Type :=
| OpGetOrOpen (limit id : Z)
| OpOpen (limit : Z)
| OpAccept
| OpCollect
| OpCloseAll (e : option StreamError)
| OpStream (id : Z) (o : stream_op).

Definition sm_state : Type := streamsMap * flowControlManager.

(** The streams change by their own methods in between. *)
Definition sm_step (cp : ConnectionParameters) (st : sm_state) (o : sm_op) : option sm_state :=
  let '(m, f) := st in
  match o with
  | OpGetOrOpen limit id => '(m, f, _) ← GetOrOpenStream cp limit m f id; Some (m, f)
  | OpOpen limit => let '(m, f, _) := OpenStream cp limit m f in Some (m, f)
  | OpAccept => Some ((AcceptStream m).1, f)
  | OpCollect => Some (garbageCollectStreams m f)
  | OpCloseAll e => Some (CloseWithError m e, f)
  | OpStream id o =>
      match streams m !! id with
      | None => Some (m, f)
      | Some s =>
          r ← stream_step f s o;
          match r with
          | Ok (f, s, _) => Some (set_streams m (<[id := s]> (streams m)) (openStreams m) (roundRobinIndex m), f)
          | Err _ => Some (m, f)
          end
      end
  end.
Definition sm_run (cp : ConnectionParameters) (st : sm_state) (os : list sm_op) : option sm_state :=
  foldl (λ st o, st ← st; sm_step cp st o) (Some st) os.

(** * The invariant *)

Definition even_id (id : Z) : Prop := id mod 2 = 0.
#[export] Instance even_id_dec id : Decision (even_id id).
Proof. unfold even_id. apply _. Defined.

(** The IDs this side gives out, and the ones opened so far. *)
Definition own_id (pers : Perspective) (id : Z) : Prop :=
  match pers with PerspectiveServer => even_id id | PerspectiveClient => ¬ even_id id end.
#[export] Instance own_id_dec pers id : Decision (own_id pers id).
Proof. destruct pers; cbn; apply _. Defined.
Definition opened (m : streamsMap) (id : Z) : Prop :=
  0 < id ∧ if decide (own_id (sm_perspective m) id) then id < nextStream m else id ≤ highestStreamOpenedByPeer m.

Record sm_ok (m : streamsMap) : Prop := {
  so_nodup : NoDup (openStreams m);
  so_dom id : id ∈ openStreams m ↔ is_Some (streams m !! id);
  so_ids id s : streams m !! id = Some s → s_streamID s = id;
  so_index : 0 ≤ roundRobinIndex m ≤ zlen (openStreams m);
  so_counts : numOutgoingStreams m = u32 (zlen (filter even_id (openStreams m))) ∧
              numIncomingStreams m = u32 (zlen (filter (λ id, ¬ even_id id) (openStreams m)));
  so_next : 0 < nextStream m ∧ own_id (sm_perspective m) (nextStream m);
  so_highest : 0 ≤ highestStreamOpenedByPeer m ∧
    (highestStreamOpenedByPeer m = 0 ∨ ¬ own_id (sm_perspective m) (highestStreamOpenedByPeer m));
  so_opened id : id ∈ openStreams m → opened m id
}.

Lemma sm_ok_new pers : sm_ok (newStreamsMap pers).
Proof.
  split; cbn; [constructor|intros id|done|done|done|by destruct pers|split; [lia|by left]|intros id Hid].
  - rewrite lookup_empty. split; [set_solver|by intros [? ?]].
  - set_solver.
Qed.

(** Updates of streams that keep their IDs. *)
Lemma sm_ok_streams m ss :
  (∀ id, is_Some (ss !! id) ↔ is_Some (streams m !! id)) → (∀ id s, ss !! id = Some s → s_streamID s = id) →
  sm_ok m → sm_ok (set_streams m ss (openStreams m) (roundRobinIndex m)).
Proof.
  intros Hdom Hids []. split; cbn; try done. intros id. by rewrite Hdom.
Qed.

Lemma count_snoc {P : Z → Prop} `{∀ id, Decision (P id)} l id :
  u32 (zlen (filter P (l ++ [id]))) = if decide (P id) then u32 (u32 (zlen (filter P l)) + 1) else u32 (zlen (filter P l)).
Proof.
  rewrite filter_app, filter_cons, filter_nil. case_decide; [|by rewrite app_nil_r].
  rewrite zlen_app. unfold u32. rewrite Zplus_mod_idemp_l. done.
Qed.

(** A stream is put into the map. *)
Lemma sm_ok_put m id next highest outgoing incoming :
  sm_ok m → ¬ opened m id → 0 < id →
  let m' := set_ids m next highest (nextStreamToAccept m) outgoing incoming in
  (outgoing, incoming) = (if decide (even_id id) then (u32 (numOutgoingStreams m + 1), numIncomingStreams m)
                          else (numOutgoingStreams m, u32 (numIncomingStreams m + 1))) →
  nextStream m ≤ next → own_id (sm_perspective m) next → highestStreamOpenedByPeer m ≤ highest →
  (highest = 0 ∨ ¬ own_id (sm_perspective m) highest) → opened m' id →
  let m'' := (putStream m' (Stream.newStream id)).1 in
  sm_ok m'' ∧ openStreams m'' = openStreams m ++ [id] ∧ is_Some (streams m'' !! id).
Proof.
  intros Hok Hnew Hid m' Hc Hn Hno Hh Hho Hop. pose proof Hok as [H1 H2 H3 H4 [H5 H6] [H7 H8] [H9 H10] H11].
  assert (id ∉ openStreams m) as Hni by (intros Hin; by apply Hnew, H11).
  assert (streams m !! id = None) as Hnone.
  { apply eq_None_not_Some. intros Hs. by apply Hni, H2. }
  unfold putStream. cbn [s_streamID Stream.newStream m' set_ids streams]. rewrite Hnone. cbn [fst].
  split; [|split; [done|cbn; rewrite lookup_insert_eq; by eexists]].
  assert (outgoing = u32 (zlen (filter even_id (openStreams m ++ [id]))) ∧
    incoming = u32 (zlen (filter (λ id, ¬ even_id id) (openStreams m ++ [id])))) as [Eo Ei].
  { rewrite !count_snoc, <-H5, <-H6. destruct (decide (even_id id)) as [He|He].
    - rewrite decide_False by (by intros ?). by injection Hc as -> ->.
    - rewrite decide_True by done. by injection Hc as -> ->. }
  split; cbn.
  - apply NoDup_app. split; [done|]. split; [|apply NoDup_singleton]. intros x Hx ->%list_elem_of_singleton. done.
  - intros x. rewrite elem_of_app, list_elem_of_singleton, H2. destruct (decide (x = id)) as [->|Hx].
    + rewrite lookup_insert_eq. split; [by eexists|by right].
    + rewrite lookup_insert_ne by done. split; [by intros [?|?]|by left].
  - intros x s [[<- <-]|[_ Hs]]%lookup_insert_Some; [done|by apply H3].
  - rewrite zlen_app. unfold zlen at 2. cbn. lia.
  - done.
  - split; [lia|done].
  - split; [lia|done].
  - intros x [Hx|Hx]%elem_of_app.
    + destruct (H11 x Hx) as [? Hx']. split; [done|]. cbn. destruct (decide (own_id _ x)); lia.
    + apply list_elem_of_singleton in Hx as ->. exact Hop.
Qed.

(** Every other ID, [n] of them. *)
Definition consecutive (id n : Z) : list Z := (λ i, id + 2 * i) <$> seqZ 0 n.

Lemma consecutive_nil id n : n ≤ 0 → consecutive id n = [].
Proof. intros. unfold consecutive. by rewrite seqZ_nil. Qed.
Lemma consecutive_cons id n : 0 < n → consecutive id n = id :: consecutive (id + 2) (n - 1).
Proof.
  intros Hn. unfold consecutive. rewrite seqZ_cons by done. rewrite fmap_cons. f_equal; [lia|].
  rewrite <-Z.add_1_l, <-(fmap_add_seqZ 1 0), <-list_fmap_compose, Z.sub_1_r. apply list_fmap_ext. intros i x _. cbn. lia.
Qed.

(** The other fields a step may leave alone. *)
Definition same_ids (m m' : streamsMap) : Prop :=
  sm_perspective m' = sm_perspective m ∧ closeErr m' = closeErr m ∧ nextStreamToAccept m' = nextStreamToAccept m.

Lemma own_add_2 pers id : own_id pers (id + 2) ↔ own_id pers id.
Proof. replace (id + 2) with (id + 1 * 2) by lia. unfold own_id, even_id. by rewrite Z.mod_add. Qed.

(** How many streams the peer may still open on a side of the connection. *)
Definition room (limit want : Z) (m : streamsMap) : Z :=
  match sm_perspective m with
  | PerspectiveServer => Z.max 0 (limit - numIncomingStreams m)
  | PerspectiveClient => if decide (limit ≤ numIncomingStreams m) then 0 else want
  end.

Lemma open_up_to_ok fuel cp limit m f sid id :
  sm_ok m → 0 < sid → ¬ own_id (sm_perspective m) sid → highestStreamOpenedByPeer m < sid → sid mod 2 = id mod 2 →
  id + MaxNewStreamIDDelta < 2 ^ 32 → limit < 2 ^ 32 → sid ≤ id + 2 →
  (sid ≤ id → (id - sid) / 2 < Z.of_nat fuel) →
  let want := (id + 2 - sid) / 2 in
  let n := Z.min want (room limit want m) in
  ∃ m' f', open_up_to fuel cp limit m f sid id =
      Some (m', f', if decide (want ≤ room limit want m) then None else Some TooManyOpenStreams) ∧
    sm_ok m' ∧ openStreams m' = openStreams m ++ consecutive sid n ∧ nextStream m' = nextStream m ∧ same_ids m m' ∧
    highestStreamOpenedByPeer m' = (if decide (0 < n) then sid + 2 * (n - 1) else highestStreamOpenedByPeer m).
Proof.
  revert m f sid. induction fuel as [|fuel IH]; intros m f sid Hok H0 Hrem Hhigh Hpar Hid Hlim Hle Hfuel want n.
  all: assert (sid ≤ id ∨ sid = id + 2) as Hcase by (Z.div_mod_to_equations; lia).
  all: cbn [open_up_to]; destruct (decide (sid ≤ id)) as [Hs|Hs]; cycle 1.
  1,3: assert (want = 0) as Hw by (unfold want; replace (id + 2 - sid) with 0 by lia; done);
    exists m, f; assert (room limit want m = 0 ∨ 0 < room limit want m) as Hr by
      (unfold room; destruct (sm_perspective m); [lia|case_decide; lia]);
    assert (n = 0) as -> by lia; rewrite decide_True by lia; rewrite (decide_False (P := 0 < 0)) by lia;
    rewrite consecutive_nil, app_nil_r by lia; done.
  2: { exfalso. assert (0 ≤ (id - sid) / 2) by (apply Z.div_pos; lia). specialize (Hfuel Hs). lia. }
  assert (want = (id + 2 - (sid + 2)) / 2 + 1) as Hw.
  { unfold want. replace (id + 2 - sid) with (id + 2 - (sid + 2) + 1 * 2) by lia. by rewrite Z.div_add. }
  assert (0 ≤ (id + 2 - (sid + 2)) / 2) as Hw1 by (apply Z.div_pos; lia).
  unfold openRemoteStream. destruct (decide (limit ≤ numIncomingStreams m)) as [Hl|Hl].
  { assert (room limit want m = 0) as Hr by (unfold room; destruct (sm_perspective m); [lia|by rewrite decide_True]).
    exists m, f. rewrite decide_False by lia. assert (n = 0) as -> by lia.
    rewrite (decide_False (P := 0 < 0)), consecutive_nil, app_nil_r by lia. done. }
  unfold MaxNewStreamIDDelta in *. rewrite (u32_small (sid + _)) by (unfold MaxStreamsPerConnection in *; lia).
  rewrite decide_False by (unfold MaxStreamsPerConnection in *; lia). unfold session_newStream.
  rewrite (decide_True (P := highestStreamOpenedByPeer m < sid)) by done.
  pose proof Hok as [_ _ _ _ [_ Hinc] Hnext Hhigh' _].
  destruct (match sm_perspective m with PerspectiveServer => _ | PerspectiveClient => _ end) as [outgoing incoming] eqn:Ec.
  destruct (sm_ok_put m sid (nextStream m) sid outgoing incoming) as (Hok1 & Hopen1 & _); try done.
  - intros [_ Ho]. rewrite decide_False in Ho by done. lia.
  - rewrite <-Ec. destruct (sm_perspective m); cbn in Hrem; [by rewrite decide_False by done|].
    rewrite decide_True by (by apply dec_stable). done.
  - apply Hnext.
  - lia.
  - by right.
  - split; [done|]. cbn. rewrite decide_False by done. done.
  - set (m1 := (putStream (set_ids m _ _ _ _ _) (Stream.newStream sid)).1) in *.
    assert (sm_perspective m1 = sm_perspective m ∧ closeErr m1 = closeErr m ∧ nextStreamToAccept m1 = nextStreamToAccept m ∧
      highestStreamOpenedByPeer m1 = sid ∧ nextStream m1 = nextStream m ∧ numIncomingStreams m1 = incoming) as
      (P1 & P2 & P3 & P4 & P5 & P6).
    { unfold m1, putStream. by destruct (streams (set_ids _ _ _ _ _ _) !! _). }
    rewrite u32_small by (unfold MaxStreamsPerConnection in *; lia).
    assert (room limit ((id + 2 - (sid + 2)) / 2) m1 + 1 = room limit want m ∨
      (sm_perspective m = PerspectiveClient ∧ limit ≤ numIncomingStreams m1)) as Hroom.
    { left. unfold room. rewrite P1, P6. destruct (sm_perspective m).
      - injection Ec as _ <-. rewrite u32_small; [lia|]. rewrite Hinc in *. pose proof (Z.mod_pos_bound (zlen (filter (λ id, ¬ even_id id) (openStreams m))) (2 ^ 32)). unfold u32 in *. lia.
      - injection Ec as _ <-. rewrite !decide_False by done. lia. }
    destruct Hroom as [Hroom|[Hp Hbad]].
    2: { exfalso. rewrite P6, Hp in *. injection Ec as _ <-. lia. }
    edestruct (IH m1 (NewStream cp f sid (negb (bool_decide (sid = 1 ∨ sid = 3)))) (sid + 2)) as (m' & f' & -> & Hok' & Hopen' & Hnext' & (Q1 & Q2 & Q3) & Hhigh2);
      [done|lia|by rewrite P1, own_add_2|lia| |lia|lia|lia| |].
    { rewrite Zplus_mod. change (2 mod 2) with 0. by rewrite Z.add_0_r, Z.mod_mod. }
    { intros Hs2. replace (id - sid) with (id - (sid + 2) + 1 * 2) in Hfuel by lia. rewrite Z.div_add in Hfuel by lia.
      specialize (Hfuel Hs). lia. }
    exists m', f'.
    set (want1 := (id + 2 - (sid + 2)) / 2) in *. set (n1 := Z.min want1 (room limit want1 m1)) in *.
    assert (0 ≤ room limit want1 m1).
    { unfold room. destruct (sm_perspective m1); [apply Z.le_max_l|]. destruct (decide (limit ≤ numIncomingStreams m1)); [done|exact Hw1]. }
    assert (n = n1 + 1) as -> by (unfold n, n1; lia).
    split.
    { destruct (decide (want1 ≤ room limit want1 m1)), (decide (want ≤ room limit want m)); done || (exfalso; lia). }
    split; [done|].
    split; [rewrite Hopen', Hopen1, (consecutive_cons sid) by lia; rewrite <-app_assoc; cbn; do 3 f_equal; lia|].
    split; [congruence|]. split; [unfold same_ids; split_and!; congruence|].
    rewrite Hhigh2, P4. destruct (decide (0 < n1)), (decide (0 < n1 + 1)); lia.
Qed.

(** * The operations *)

Lemma first_remote_ok m :
  sm_ok m → highestStreamOpenedByPeer m + 2 < 2 ^ 32 →
  0 < first_remote m ∧ highestStreamOpenedByPeer m < first_remote m ∧
  ¬ own_id (sm_perspective m) (first_remote m) ∧ first_remote m ≤ highestStreamOpenedByPeer m + 2 ∧
  (0 < highestStreamOpenedByPeer m → first_remote m = highestStreamOpenedByPeer m + 2).
Proof.
  intros [_ _ _ _ _ _ [H0 H1] _] Hlt. unfold first_remote. rewrite u32_small by lia.
  case_decide as Hd.
  - destruct Hd as [E ->]. split; [lia|]. split; [lia|]. split; [|lia]. by cbn.
  - split; [lia|]. split; [lia|]. split; [|lia]. destruct H1 as [E|H1].
    + rewrite E in *. destruct (sm_perspective m); [by destruct Hd|]. cbn. intros Hn. by apply Hn.
    + by rewrite own_add_2.
Qed.

(** A stream from the peer: how many are opened, and the answer. *)
Definition remote_opening (limit id : Z) (m m' : streamsMap) (r : result StreamsMapError (option Z)) : Prop :=
  let want := (id + 2 - first_remote m) / 2 in
  let n := Z.min want (room limit want m) in
  openStreams m' = openStreams m ++ consecutive (first_remote m) n ∧
  highestStreamOpenedByPeer m' = (if decide (0 < n) then first_remote m + 2 * (n - 1) else highestStreamOpenedByPeer m) ∧
  r = (if decide (want ≤ room limit want m) then Ok (Some id) else Err TooManyOpenStreams).

Lemma elem_of_consecutive id n x : x ∈ consecutive id n ↔ ∃ i, 0 ≤ i < n ∧ x = id + 2 * i.
Proof.
  unfold consecutive. rewrite list_elem_of_fmap. split.
  - intros (i & -> & Hi%elem_of_seqZ). exists i. split; [lia|done].
  - intros (i & Hi & ->). exists i. split; [done|]. apply elem_of_seqZ. lia.
Qed.

Lemma get_or_open cp limit m f id :
  sm_ok m → 0 < id → id + MaxNewStreamIDDelta < 2 ^ 32 → limit < 2 ^ 32 →
  ∃ m' f' r, GetOrOpenStream cp limit m f id = Some (m', f', r) ∧ sm_ok m' ∧ nextStream m' = nextStream m ∧ same_ids m m' ∧
  if decide (id ∈ openStreams m) then m' = m ∧ f' = f ∧ r = Ok (Some id)
  else if decide (own_id (sm_perspective m) id) then
    m' = m ∧ f' = f ∧ r = (if decide (id ≤ nextStream m) then Ok None else Err InvalidStreamID)
  else if decide (id ≤ highestStreamOpenedByPeer m) then m' = m ∧ f' = f ∧ r = Ok None
  else remote_opening limit id m m' r.
Proof.
  intros Hok H0 Hid Hlim. unfold GetOrOpenStream. destruct (streams m !! id) as [s|] eqn:Es.
  { exists m, f, (Ok (Some id)). rewrite decide_True; [done|]. apply (so_dom _ Hok). by eexists. }
  destruct (decide (id ∈ openStreams m)) as [Hin|_].
  { apply (so_dom _ Hok) in Hin as [? Hin]. congruence. }
  unfold refuse_stream. cbn zeta.
  match goal with |- context [if ?b then Some (if decide (id ≤ nextStream m) then _ else _) else _] =>
    assert (b = bool_decide (own_id (sm_perspective m) id)) as -> end.
  { destruct (sm_perspective m); cbn; apply bool_decide_ext; unfold even_id; [done|]. Z.div_mod_to_equations; lia. }
  destruct (decide (own_id (sm_perspective m) id)) as [Hown|Hown].
  { rewrite bool_decide_eq_true_2 by done. by exists m, f, (if decide (id ≤ nextStream m) then Ok None else Err InvalidStreamID). }
  rewrite bool_decide_eq_false_2 by done.
  destruct (decide (id ≤ highestStreamOpenedByPeer m)) as [Hh|Hh]; [by exists m, f, (Ok None)|].
  unfold MaxNewStreamIDDelta, MaxStreamsPerConnection in *.
  destruct (first_remote_ok m Hok) as (F1 & F2 & F3 & F4 & F5); [lia|].
  assert (first_remote m mod 2 = id mod 2) as Hpar.
  { unfold own_id, even_id in F3, Hown. destruct (sm_perspective m); Z.div_mod_to_equations; lia. }
  assert (first_remote m ≤ id) as Hle.
  { pose proof (so_highest _ Hok) as [Hh0 [E|Hr]]; [|Z.div_mod_to_equations; lia].
    rewrite E in *. Z.div_mod_to_equations; lia. }
  destruct (open_up_to_ok (S (Z.to_nat ((id - first_remote m) / 2))) cp limit m f (first_remote m) id)
    as (m' & f' & -> & Hok' & Hopen & Hnext & Hsame & Hhigh);
    [done..|unfold MaxNewStreamIDDelta, MaxStreamsPerConnection; lia|done|lia|
     assert (0 ≤ (id - first_remote m) / 2) by (apply Z.div_pos; lia); lia|].
  cbn [mbind option_bind]. eexists m', f', _. split; [reflexivity|]. do 3 (split; [done|]).
  unfold remote_opening. cbn zeta. set (want := (id + 2 - first_remote m) / 2) in *.
  split; [done|]. split; [done|]. destruct (decide (want ≤ room limit want m)) as [Hroom|]; [|done].
  assert (id ∈ openStreams m') as Hin.
  { rewrite Hopen. apply elem_of_app. right. apply elem_of_consecutive. exists (want - 1).
    rewrite Z.min_l by done. unfold want. Z.div_mod_to_equations; lia. }
  apply (so_dom _ Hok') in Hin as [s' ->]. done.
Qed.

Lemma open_own cp limit m f :
  sm_ok m → nextStream m + 2 < 2 ^ 32 →
  let '(m', f', r) := OpenStream cp limit m f in
  sm_ok m' ∧ highestStreamOpenedByPeer m' = highestStreamOpenedByPeer m ∧ same_ids m m' ∧
  match closeErr m with
  | Some e => m' = m ∧ r = Err (ErrClosed e)
  | None => if decide (limit ≤ numOutgoingStreams m) then m' = m ∧ r = Err TooManyOpenStreams
            else r = Ok (nextStream m) ∧ nextStream m' = nextStream m + 2 ∧
                 openStreams m' = openStreams m ++ [nextStream m]
  end.
Proof.
  intros Hok Hlt. unfold OpenStream. destruct (closeErr m) eqn:Ec; [done|].
  unfold openStreamImpl. destruct (decide (limit ≤ numOutgoingStreams m)); [done|].
  pose proof Hok as [_ _ _ _ _ [Hn Hown] [Hh0 Hh] _]. unfold session_newStream.
  destruct (match sm_perspective m with PerspectiveServer => _ | PerspectiveClient => _ end) as [outgoing incoming] eqn:Ecnt.
  rewrite u32_small by lia.
  destruct (sm_ok_put m (nextStream m) (nextStream m + 2) (highestStreamOpenedByPeer m) outgoing incoming)
    as (Hok1 & Hopen1 & _); try done.
  - intros [_ Ho]. rewrite decide_True in Ho by done. lia.
  - rewrite <-Ecnt. destruct (sm_perspective m); cbn in Hown; [by rewrite decide_True by done|by rewrite decide_False by done].
  - lia.
  - by rewrite own_add_2.
  - split; [done|]. cbn. rewrite decide_True by done. lia.
  - split; [done|]. unfold putStream in *. destruct (streams (set_ids _ _ _ _ _ _) !! _); done.
Qed.

Lemma AcceptStream_ok m : sm_ok m → sm_ok (AcceptStream m).1.
Proof.
  intros Hok. unfold AcceptStream. destruct (closeErr m); [done|]. destruct (streams m !! nextStreamToAccept m); [|done].
  destruct Hok. by split.
Qed.

Lemma list_find_eq_elem (id : Z) l : id ∈ l → ∃ i, list_find (eq id) l = Some (i, id) ∧ l !! i = Some id.
Proof.
  intros Hin. destruct (list_find_elem_of (eq id) l id Hin eq_refl) as [[i x] Hf].
  apply list_find_Some in Hf as Hf'. destruct Hf' as (Hi & <- & _). by exists i.
Qed.

(** A removed stream leaves the list, the map and its count. *)
Lemma RemoveStream_ok m id :
  sm_ok m → zlen (openStreams m) < 2 ^ 32 →
  match RemoveStream m id with
  | (m', Some e) => m' = m ∧ id ∉ openStreams m
  | (m', None) => sm_ok m' ∧ id ∈ openStreams m ∧ (∀ x, x ∈ openStreams m' ↔ x ∈ openStreams m ∧ x ≠ id) ∧
      streams m' = delete id (streams m) ∧
      nextStream m' = nextStream m ∧ highestStreamOpenedByPeer m' = highestStreamOpenedByPeer m ∧ same_ids m m'
  end.
Proof.
  intros Hok Hlen. pose proof Hok as [H1 H2 H3 H4 [H5 H6] H7 H8 H9]. unfold RemoveStream.
  destruct (streams m !! id) as [s|] eqn:Es.
  2: { split; [done|]. rewrite H2, Es. by intros [? ?]. }
  assert (id ∈ openStreams m) as Hin by (rewrite H2, Es; by eexists).
  destruct (if decide (id mod 2 = 0) then _ else _) as [outgoing incoming] eqn:Ec.
  cbn [openStreams set_ids roundRobinIndex]. destruct (list_find_eq_elem id _ Hin) as (i & -> & Hi).
  pose proof (delete_Permutation _ _ _ Hi) as Hperm. set (rest := delete i (openStreams m)) in *.
  cbn beta iota. clearbody rest.
  assert (∀ x, x ∈ rest ↔ x ∈ openStreams m ∧ x ≠ id) as Hdel.
  { intros x. pose proof H1 as Hnd. rewrite Hperm in Hnd. apply NoDup_cons in Hnd as [Hni _]. rewrite Hperm.
    rewrite elem_of_cons. split; [intros Hx; split; [by right|by intros ->]|by intros [[->|?] ?]]. }
  assert (zlen (openStreams m) = zlen (rest) + 1) as Hl.
  { unfold zlen. rewrite Hperm, length_cons. lia. }
  assert (Z.of_nat i < zlen (openStreams m)) as Hil by (apply lookup_lt_Some in Hi; unfold zlen; lia).
  assert (∀ (P : Z → Prop) `{∀ x, Decision (P x)}, zlen (filter P (openStreams m)) =
    (if decide (P id) then 1 else 0) + zlen (filter P (rest))) as Hcount.
  { intros P dP. unfold zlen. rewrite Hperm. rewrite filter_cons. destruct (decide (P id)); rewrite ?length_cons; lia. }
  split.
  2: { by cbn. }
  assert (∀ a b, u32 (u32 (1 + a) - 1) = u32 a ∧ 0 + b = b) as Hu.
  { intros a b. split; [|lia]. unfold u32. rewrite Zminus_mod_idemp_l. f_equal. lia. }
  split; cbn.
  - rewrite Hperm in H1. by apply NoDup_cons in H1 as [_ ?].
  - intros x. rewrite Hdel, H2. destruct (decide (x = id)) as [->|Hx].
    + rewrite lookup_delete_eq. split; [by intros [_ ?]|by intros [? ?]].
    + rewrite lookup_delete_ne by done. naive_solver.
  - intros x s' [_ Hs]%lookup_delete_Some. by apply H3.
  - destruct (decide (Z.of_nat i < roundRobinIndex m)); [rewrite u32_small by lia|]; lia.
  - rewrite H5, H6, !Hcount in Ec. unfold even_id in Ec at 1 3. destruct (decide (id mod 2 = 0)) as [He|He].
    + rewrite (decide_False (P := ¬ _)) in Ec by (by intros ?). injection Ec as <- <-. split; [apply (proj1 (Hu _ 0))|by rewrite Z.add_0_l].
    + rewrite (decide_True (P := ¬ _)) in Ec by done. injection Ec as <- <-. rewrite (decide_False (P := even_id id)) by done.
      split; [by rewrite Z.add_0_l|apply (proj1 (Hu _ 0))].
  - done.
  - done.
  - intros x [Hx _]%Hdel. exact (H9 x Hx).
Qed.

(** ** Collecting the finished streams *)

Definition collect (m : streamsMap) (f : flowControlManager) (id : Z) (s : stream) :
    streamsMap * flowControlManager * (bool * option StreamsMapError) :=
  if finished s then
    match RemoveStream m id with
    | (m, Some e) => (m, f, (false, Some e))
    | (m, None) => (m, FlowControl.RemoveStream f id, (true, None))
    end
  else (m, f, (true, None)).

Lemma collect_ok ids m f :
  sm_ok m → zlen (openStreams m) < 2 ^ 32 → NoDup ids → ids ⊆ openStreams m →
  let '(m', _, e) := iterate_ids collect m f ids in
  e = None ∧ sm_ok m' ∧ zlen (openStreams m') ≤ zlen (openStreams m) ∧
  nextStream m' = nextStream m ∧ highestStreamOpenedByPeer m' = highestStreamOpenedByPeer m ∧ same_ids m m' ∧
  ∀ x, x ∈ openStreams m' ↔ x ∈ openStreams m ∧ ¬ (x ∈ ids ∧ ∃ s, streams m !! x = Some s ∧ finished s = true).
Proof.
  revert m f. induction ids as [|id ids IH]; intros m f Hok Hlen Hnd Hsub; cbn [iterate_ids].
  { split; [done|]. split; [done|]. split; [done|]. do 2 (split; [done|]). split; [done|]. set_solver. }
  apply NoDup_cons in Hnd as [Hni Hnd]. unfold iterateFunc.
  assert (id ∈ openStreams m) as Hin by set_solver. apply (so_dom _ Hok) in Hin as Hs. destruct Hs as [s Hs]. rewrite Hs.
  assert (collect m f id s = if finished s then match RemoveStream m id with
    | (m, Some e) => (m, f, (false, Some e))
    | (m, None) => (m, FlowControl.RemoveStream f id, (true, None)) end else (m, f, (true, None))) as -> by done.
  destruct (finished s) eqn:Ef.
  - pose proof (RemoveStream_ok m id Hok Hlen) as Hrem. destruct (RemoveStream m id) as [m1 [e|]].
    { destruct Hrem as [_ Hn]. done. }
    destruct Hrem as (Hok1 & _ & Hopen1 & Hstreams1 & N1 & N2 & N3 & N4 & N5).
    assert (zlen (openStreams m1) ≤ zlen (openStreams m)) as Hl1.
    { unfold zlen. apply inj_le, submseteq_length, NoDup_submseteq; [apply (so_nodup _ Hok1)|]. intros x Hx. by apply Hopen1. }
    cbv beta iota. specialize (IH m1 (FlowControl.RemoveStream f id) Hok1 ltac:(lia) Hnd).
    destruct (iterate_ids collect m1 _ ids) as [[m' f'] e].
    destruct IH as (-> & Hok' & Hl' & M1 & M2 & (M3 & M4 & M5) & Hx).
    { intros x Hxi. apply Hopen1. split; [set_solver|]. by intros ->. }
    split; [done|]. split; [done|]. split; [lia|]. split; [congruence|]. split; [congruence|].
    split; [unfold same_ids; split_and!; congruence|].
    intros x. rewrite Hx, Hopen1, Hstreams1, elem_of_cons. destruct (decide (x = id)) as [->|Hne]; [naive_solver|].
    rewrite lookup_delete_ne by done. naive_solver.
  - cbv beta iota. specialize (IH m f Hok Hlen Hnd). destruct (iterate_ids collect m f ids) as [[m' f'] e].
    destruct IH as (-> & Hok' & Hl' & M1 & M2 & M3 & Hx); [set_solver|].
    do 6 (split; [done|]). intros x. rewrite Hx, elem_of_cons. destruct (decide (x = id)) as [->|Hne]; [|naive_solver].
    rewrite Hs. split; [intros [? _]; split; [done|]; intros [_ (s' & [= <-] & ?)]; congruence|].
    intros [? _]. split; [done|]. by intros [? _].
Qed.

Lemma garbage_collected m f :
  sm_ok m → zlen (openStreams m) < 2 ^ 32 →
  let '(m', _) := garbageCollectStreams m f in
  sm_ok m' ∧ nextStream m' = nextStream m ∧ highestStreamOpenedByPeer m' = highestStreamOpenedByPeer m ∧ same_ids m m' ∧
  ∀ x, x ∈ openStreams m' ↔ x ∈ openStreams m ∧ ¬ ∃ s, streams m !! x = Some s ∧ finished s = true.
Proof.
  intros Hok Hlen. unfold garbageCollectStreams, Iterate. fold collect.
  pose proof (collect_ok (openStreams m) m f Hok Hlen (so_nodup _ Hok) ltac:(done)) as H.
  destruct (iterate_ids collect m f (openStreams m)) as [[m' f'] e]. destruct H as (_ & H1 & _ & H2 & H3 & H4 & H5).
  do 4 (split; [done|]). intros x. rewrite H5. naive_solver.
Qed.

(** ** Steps keep the IDs of streams *)

Lemma read_frame_id env n f s got frame :
  match read_frame env n f s got frame with Stop _ s' _ => s_streamID s' = s_streamID s | More _ s' _ => s_streamID s' = s_streamID s end.
Proof. unfold read_frame. repeat case_match; try done; by simplify_eq/=. Qed.

Lemma read_loop_id fuel env now n f s got : s_streamID (read_loop fuel env now n f s got).1.2 = s_streamID s.
Proof.
  revert f s got. induction fuel as [|fuel IH]; intros f s got; cbn [read_loop]; case_decide; try done.
  assert (match read_iter env now n f s got with Stop _ s' _ => s_streamID s' = s_streamID s
          | More _ s' _ => s_streamID s' = s_streamID s end) as Hiter.
  { unfold read_iter. destruct (Head (frameQueue s)) as [frame|].
    - destruct (read_stop now s) as [[e|]|]; [done|apply read_frame_id|].
      exact (read_frame_id env n f (set_read s _ _ _ _ _ _) got frame).
    - case_decide; [done|]. destruct (read_stop now s) as [[e|]|]; done. }
  destruct (read_iter env now n f s got) as [f' s' o|f' s' got']; [done|]. by rewrite IH.
Qed.

Lemma set_err_id s e wake : (∀ s, s_streamID (wake s) = s_streamID s) → s_streamID (set_err s e wake) = s_streamID s.
Proof. intros Hw. unfold set_err. destruct (s_err s); [done|]. by rewrite Hw. Qed.
Lemma send_reset_id s : s_streamID (send_reset s).1 = s_streamID s.
Proof. unfold send_reset. by destruct (shouldSendReset s). Qed.

Lemma stream_step_id f s o f' s' d : stream_step f s o = Some (Ok (f', s', d)) → s_streamID s' = s_streamID s.
Proof.
  destruct o as [frame|env now n| | | | | | | | | |]; cbn [stream_step].
  - unfold AddStreamFrame. destruct (UpdateHighestReceived _ _ _) as [f1 [e|]]; [done|].
    destruct (Push _ _) as [[q err]|]; [|done]. cbn. destruct err as [[]|]; try done; intros Hstep; by injection Hstep as _ <- _.
  - unfold Read. destruct (cancelled s || resetLocally s); [by intros [= _ <- _]|].
    destruct (finishedReading s); [by intros [= _ <- _]|].
    pose proof (read_loop_id (read_fuel n s) env now n f s []) as Hid.
    destruct (read_loop _ _ _ _ _ _ _) as [[f1 s1] [[| |d1 e1]|]]; cbn in Hid; try done; by intros [= _ <- _].
  - intros [= _ <- _]. unfold local_step, Write_start. by repeat case_match.
  - intros [= _ <- _]. unfold local_step, Write_check. by repeat case_match.
  - intros [= _ <- _]. unfold local_step, getDataForWriting. by repeat case_match.
  - by intros [= _ <- _].
  - by intros [= _ <- _].
  - intros [= _ <- _]. cbn [local_step]. unfold Cancel. by rewrite set_err_id.
  - intros [= _ <- _]. cbn [local_step]. unfold Reset. destruct (resetLocally s); [done|]. by rewrite send_reset_id, set_err_id.
  - intros [= _ <- _]. cbn [local_step]. unfold RegisterRemoteError. destruct (resetRemotely s); [done|].
    by rewrite send_reset_id, set_err_id.
  - intros [= _ <- _]. cbn [local_step]. unfold SetReadDeadline. destruct t, (readDeadline s); cbn; try case_decide; done.
  - intros [= _ <- _]. cbn [local_step]. unfold SetWriteDeadline. destruct t, (writeDeadline s); cbn; try case_decide; done.
Qed.

Lemma cancel_all_ok e ids (ss : gmap Z stream) :
  (∀ id s, ss !! id = Some s → s_streamID s = id) →
  let ss' := foldl (λ ss id, alter (λ s, Cancel s e) id ss) ss ids in
  (∀ id, is_Some (ss' !! id) ↔ is_Some (ss !! id)) ∧ (∀ id s, ss' !! id = Some s → s_streamID s = id).
Proof.
  revert ss. induction ids as [|x ids IH]; intros ss Hids; [done|]. cbn [foldl].
  destruct (IH (alter (λ s, Cancel s e) x ss)) as [H1 H2].
  { intros id s. rewrite lookup_alter. case_decide as E; [subst x|by apply Hids].
    intros (s' & Hs & ->)%fmap_Some. unfold Cancel. rewrite set_err_id by done. exact (Hids _ _ Hs). }
  split; [|exact H2]. intros id. rewrite H1, lookup_alter. case_decide as E; [|done]. subst x. by rewrite fmap_is_Some.
Qed.

(** ** Runs *)

(** IDs a peer may use: those below a bound, at most the top of the 32-bit range. *)
Definition ids_below (T : Z) (o : sm_op) : Prop :=
  match o with OpGetOrOpen limit id => 0 < id < T ∧ limit < 2 ^ 32 | _ => True end.
Definition sm_op_ok : sm_op → Prop := ids_below (2 ^ 32 - MaxNewStreamIDDelta).

Section one_step.
Context (T : Z) (HT : T ≤ 2 ^ 32 - MaxNewStreamIDDelta).

Record step_keeps (m m' : streamsMap) : Prop := {
  sk_ok : sm_ok m';
  sk_pers : sm_perspective m' = sm_perspective m;
  sk_next : nextStream m ≤ nextStream m' ≤ nextStream m + 2;
  sk_highest : highestStreamOpenedByPeer m ≤ highestStreamOpenedByPeer m' < T;
  sk_new id : id ∈ openStreams m' → id ∉ openStreams m → ¬ opened m id;
  sk_accept : nextStreamToAccept m ∉ openStreams m → nextStreamToAccept m' = nextStreamToAccept m
}.

Lemma opened_mono m m' id : step_keeps m m' → opened m id → opened m' id.
Proof.
  intros [_ Hp Hn Hh _ _] [H0 Ho]. split; [done|]. rewrite Hp. destruct (decide (own_id _ id)); lia.
Qed.

Lemma keeps_same m m' :
  sm_ok m' → sm_perspective m' = sm_perspective m → nextStream m' = nextStream m →
  highestStreamOpenedByPeer m' = highestStreamOpenedByPeer m → (∀ x, x ∈ openStreams m' → x ∈ openStreams m) →
  highestStreamOpenedByPeer m < T →
  (nextStreamToAccept m ∉ openStreams m → nextStreamToAccept m' = nextStreamToAccept m) → step_keeps m m'.
Proof. intros Hok Hp Hn Hh Hsub Hlt Ha. split; [done|done|lia|lia| |done]. intros id Hin Hout. destruct Hout. by apply Hsub. Qed.

Lemma sm_step_keeps cp m f o m' f' :
  sm_ok m → ids_below T o → nextStream m + 2 < 2 ^ 32 → highestStreamOpenedByPeer m < T →
  zlen (openStreams m) < 2 ^ 32 → sm_step cp (m, f) o = Some (m', f') → step_keeps m m'.
Proof.
  intros Hok Ho Hn Hh Hlen. destruct o as [limit id|limit| | |e|id o]; cbn [sm_step].
  - destruct Ho as ([H0 Hid] & Hlim). destruct (get_or_open cp limit m f id) as (m1 & f1 & r & -> & Hok1 & Hn1 & (P1 & _ & P3) & Hcase);
      [done|done|lia|done|]. cbn. intros [= <- <-].
    assert (m1 = m → step_keeps m m1) as Hid1 by (intros ->; by apply keeps_same).
    destruct (decide (id ∈ openStreams m)); [apply Hid1, Hcase|]. destruct (decide (own_id _ id)); [apply Hid1, Hcase|].
    destruct (decide (id ≤ _)) as [|Hgt]; [apply Hid1, Hcase|]. destruct Hcase as (Hopen & Hhigh & _).
    set (want := (id + 2 - first_remote m) / 2) in *. set (k := Z.min want (room limit want m)) in *.
    unfold MaxNewStreamIDDelta, MaxStreamsPerConnection in *.
    destruct (first_remote_ok m Hok) as (F1 & F2 & F3 & F4 & _); [lia|].
    assert (2 * want ≤ id + 2 - first_remote m) as Hw by (unfold want; Z.div_mod_to_equations; lia).
    assert (k ≤ want) as Hnw by (unfold k; lia).
    split; [done|done|lia| | |done].
    + rewrite Hhigh. destruct (decide (0 < k)); lia.
    + intros x Hin Hout. rewrite Hopen in Hin. apply elem_of_app in Hin as [?|Hin]; [done|].
      apply elem_of_consecutive in Hin as (i & Hi & ->). intros [_ Hop]. rewrite decide_False in Hop; [lia|].
      assert (∀ j, own_id (sm_perspective m) (first_remote m + 2 * j) ↔ own_id (sm_perspective m) (first_remote m)) as Hown.
      { intros j. unfold own_id, even_id. rewrite (Z.mul_comm 2), Z.mod_add by lia. done. }
      by rewrite Hown.
  - pose proof (open_own cp limit m f Hok Hn) as Hown. destruct (OpenStream cp limit m f) as [[m1 f1] r].
    intros [= <- <-]. destruct Hown as (Hok1 & Hh1 & (P1 & _ & P3) & Hcase).
    assert (m1 = m → step_keeps m m1) as Hid1 by (intros ->; by apply keeps_same).
    destruct (closeErr m); [apply Hid1, Hcase|].
    destruct (decide (limit ≤ numOutgoingStreams m)); [apply Hid1, Hcase|]. destruct Hcase as (_ & Hn1 & Hopen).
    split; [done|done|lia|lia| |done]. intros x Hin Hout. rewrite Hopen in Hin.
    apply elem_of_app in Hin as [?|Hin%list_elem_of_singleton]; [done|]. subst x. intros [_ Hop].
    rewrite decide_True in Hop by apply (so_next _ Hok). lia.
  - intros [= <- <-]. pose proof (AcceptStream_ok m Hok) as Hok1. unfold AcceptStream in *.
    destruct (closeErr m); [by apply keeps_same|].
    destruct (streams m !! nextStreamToAccept m) as [s|] eqn:Es; [|by apply keeps_same].
    apply keeps_same; try done. intros Hout. destruct Hout. apply (so_dom _ Hok). by eexists.
  - pose proof (garbage_collected m f Hok Hlen) as Hgc. destruct (garbageCollectStreams m f) as [m1 f1].
    intros [= <- <-]. destruct Hgc as (Hok1 & H1 & H2 & (H3 & _ & H4) & H5). apply keeps_same; try done.
    intros x. rewrite H5. naive_solver.
  - intros [= <- <-]. destruct (cancel_all_ok e (openStreams m) (streams m) (so_ids _ Hok)) as [H1 H2].
    apply keeps_same; try done. destruct Hok as [A1 A2 A3 A4 A5 A6 A7 A8]. split; try done.
    intros id. cbn. by rewrite H1.
  - destruct (streams m !! id) as [s|] eqn:Es; [|intros [= <- <-]; by apply keeps_same].
    destruct (stream_step f s o) as [[[[f1 s1] d]|e]|] eqn:Estep; cbn; [|intros [= <- <-]; by apply keeps_same|done].
    intros [= <- <-]. apply stream_step_id in Estep.
    apply keeps_same; try done. apply sm_ok_streams; [| |done].
    + intros x. destruct (decide (x = id)) as [->|]; [rewrite lookup_insert_eq, Es; split; by eexists|by rewrite lookup_insert_ne].
    + intros x s2 [[<- <-]|[_ Hs]]%lookup_insert_Some; [rewrite Estep|]; by apply (so_ids _ Hok).
Qed.
End one_step.

Lemma open_bound b m : 0 < b → sm_ok m → nextStream m ≤ b → highestStreamOpenedByPeer m < b → zlen (openStreams m) < b.
Proof.
  intros Hb Hok Hn Hh. assert (openStreams m ⊆+ seqZ 1 (b - 1)) as Hsub.
  { apply NoDup_submseteq; [apply (so_nodup _ Hok)|]. intros x Hx. apply elem_of_seqZ.
    destruct (so_opened _ Hok x Hx) as [H0 Ho]. destruct (decide (own_id _ x)); lia. }
  apply submseteq_length in Hsub. rewrite length_seqZ in Hsub. unfold zlen. lia.
Qed.

Lemma sm_run_cons cp st o os : sm_run cp st (o :: os) = sm_step cp st o ≫= λ st, sm_run cp st os.
Proof.
  unfold sm_run. cbn [foldl mbind option_bind]. destruct (sm_step cp st o) as [st'|]; [done|].
  cbn. by induction os.
Qed.

(** What a run keeps: a bound that leaves room for [n] more steps. *)
Record run_keeps (m m' : streamsMap) : Prop := {
  rk_ok : sm_ok m';
  rk_pers : sm_perspective m' = sm_perspective m;
  rk_highest : highestStreamOpenedByPeer m' < 2 ^ 32 - MaxNewStreamIDDelta;
  rk_opened id : opened m id → opened m' id;
  rk_closed id : opened m id → id ∉ openStreams m → id ∉ openStreams m';
  rk_accept : opened m (nextStreamToAccept m) → nextStreamToAccept m ∉ openStreams m →
              nextStreamToAccept m' = nextStreamToAccept m
}.

Lemma sm_run_keeps cp os m f m' f' :
  sm_ok m → Forall sm_op_ok os → nextStream m + 2 * zlen os < 2 ^ 32 - 2 →
  highestStreamOpenedByPeer m < 2 ^ 32 - MaxNewStreamIDDelta →
  sm_run cp (m, f) os = Some (m', f') → run_keeps m m' ∧ nextStream m' ≤ nextStream m + 2 * zlen os.
Proof.
  revert m f. induction os as [|o os IH]; intros m f Hok Hos Hn Hh.
  { intros [= <- <-]. split; [by split|unfold zlen; cbn; lia]. }
  apply Forall_cons in Hos as [Ho Hos]. rewrite zlen_cons in *. pose proof (zlen_nonneg os).
  rewrite sm_run_cons. destruct (sm_step cp (m, f) o) as [[m1 f1]|] eqn:Estep; [|done]. cbn [mbind option_bind]. intros Hrun.
  assert (zlen (openStreams m) < 2 ^ 32) as Hlen by (apply open_bound; [done|done|lia|unfold MaxNewStreamIDDelta, MaxStreamsPerConnection in Hh; lia]).
  pose proof (sm_step_keeps _ (Z.le_refl _) cp m f o m1 f1 Hok Ho ltac:(lia) Hh Hlen Estep) as Hkeep.
  pose proof Hkeep as [K1 K2 K3 K4 K5 K6].
  destruct (IH m1 f1) as [[R1 R2 R3 R4 R5 R7] R6]; [done|done|lia|lia|exact Hrun|].
  split; [|lia].
  assert (∀ id, opened m id → id ∉ openStreams m → id ∉ openStreams m1) as Hstay.
  { intros id Hop Hout Hin. by apply (K5 id). }
  split; [done|congruence|done| | |].
  - intros id Hop. apply R4. by eapply opened_mono.
  - intros id Hop Hout. apply R5; [by eapply opened_mono|by apply Hstay].
  - intros Hop Hout. specialize (K6 Hout). rewrite <-K6. apply R7; rewrite K6; [by eapply opened_mono|by apply Hstay].
Qed.

Lemma new_run_keeps cp pers f os m f' :
  Forall sm_op_ok os → zlen os < 2 ^ 30 → sm_run cp (newStreamsMap pers, f) os = Some (m, f') →
  run_keeps (newStreamsMap pers) m ∧ nextStream m ≤ 2 + 2 * zlen os.
Proof.
  intros Hos Hlen Hrun. pose proof (zlen_nonneg os).
  assert (nextStream (newStreamsMap pers) ≤ 2) as Hp by by destruct pers.
  destruct (sm_run_keeps cp os (newStreamsMap pers) f m f') as [K1 K2];
    [apply sm_ok_new|done|lia|done|done|]. split; [done|lia].
Qed.

(** C33: Over any run (frames for any stream, streams opened by the application, accepted, collected,
    closed, and the streams' own methods), the map stays consistent: the list of open streams is the
    domain of the map without duplicates, the counters are the numbers of open streams with even and odd
    IDs, the round-robin index is in range, and a stream ID is opened at most once: once closed it is
    never open again. *)
Theorem streams_opened_once cp pers f os os' m1 f1 m2 f2 :
  Forall sm_op_ok os → Forall sm_op_ok os' → zlen os + zlen os' < 2 ^ 29 →
  sm_run cp (newStreamsMap pers, f) os = Some (m1, f1) → sm_run cp (m1, f1) os' = Some (m2, f2) →
  sm_ok m1 ∧ sm_ok m2 ∧ (∀ id, opened m1 id → opened m2 id) ∧
  ∀ id, opened m1 id → id ∉ openStreams m1 → id ∉ openStreams m2.
Proof.
  intros Hos Hos' Hlen Hrun Hrun'. pose proof (zlen_nonneg os). pose proof (zlen_nonneg os').
  destruct (new_run_keeps cp pers f os m1 f1) as [[K1 K2 K3 K4 K5 _] Kn]; [done|lia|done|].
  destruct (sm_run_keeps cp os' m1 f1 m2 f2) as [[R1 R2 R3 R4 R5 _] _]; [done|done|lia|done|done|].
  split; [done|]. split; [done|]. split; [exact R4|exact R5].
Qed.

(** [GetOrOpenStream] on every branch: an open stream is returned; of an ID this side gives out, one
    up to [nextStream] (itself not opened yet) counts as closed and a larger one is an error; an ID of the
    peer's up to the highest counts as closed; for a larger one every ID of the peer's up to it is opened
    in order, as far as the limit allows. *)
Theorem GetOrOpenStream_cases cp limit m f id :
  sm_ok m → 0 < id → id + MaxNewStreamIDDelta < 2 ^ 32 → limit < 2 ^ 32 →
  ∃ m' f' r, GetOrOpenStream cp limit m f id = Some (m', f', r) ∧ sm_ok m' ∧ nextStream m' = nextStream m ∧ same_ids m m' ∧
  if decide (id ∈ openStreams m) then m' = m ∧ f' = f ∧ r = Ok (Some id)
  else if decide (own_id (sm_perspective m) id) then
    m' = m ∧ f' = f ∧ r = (if decide (id ≤ nextStream m) then Ok None else Err InvalidStreamID)
  else if decide (id ≤ highestStreamOpenedByPeer m) then m' = m ∧ f' = f ∧ r = Ok None
  else remote_opening limit id m m' r.
Proof. apply get_or_open. Qed.

(** A stream of the peer's that is reset and collected before the application accepts it blocks
    [AcceptStream] for good: it waits for that ID, which is never open again, so no later stream of the
    peer's is ever accepted. *)
Theorem accept_blocked_by_collected cp pers f os os' m1 f1 m2 f2 :
  Forall sm_op_ok os → Forall sm_op_ok os' → zlen os + zlen os' < 2 ^ 29 →
  sm_run cp (newStreamsMap pers, f) os = Some (m1, f1) → sm_run cp (m1, f1) os' = Some (m2, f2) →
  opened m1 (nextStreamToAccept m1) → nextStreamToAccept m1 ∉ openStreams m1 → closeErr m2 = None →
  AcceptStream m2 = (m2, None).
Proof.
  intros Hos Hos' Hlen Hrun Hrun' Hop Hout Hc. pose proof (zlen_nonneg os). pose proof (zlen_nonneg os').
  destruct (new_run_keeps cp pers f os m1 f1) as [[K1 _ K3 _ _ _] Kn]; [done|lia|done|].
  destruct (sm_run_keeps cp os' m1 f1 m2 f2) as [[R1 _ _ _ R5 R6] _]; [done|done|lia|done|done|].
  unfold AcceptStream. rewrite Hc, R6 by done. destruct (streams m2 !! nextStreamToAccept m1) eqn:Es; [|done].
  exfalso. apply (R5 _ Hop Hout). apply (so_dom _ R1). by eexists.
Qed.

(** The limit on streams of the peer's holds at the server, whatever frames arrive; at the client the
    counters are crossed: the number of its own streams is compared, so a first frame for an even ID opens
    half as many streams as the ID says, whatever the limit. *)
Theorem incoming_limit cp limit f id :
  0 < id → id + MaxNewStreamIDDelta < 2 ^ 32 → 0 < limit < 2 ^ 32 →
  (∀ m m' f' r, sm_ok m → sm_perspective m = PerspectiveServer → numIncomingStreams m ≤ limit →
     GetOrOpenStream cp limit m f id = Some (m', f', r) → numIncomingStreams m' ≤ limit) ∧
  (even_id id →
     ∃ m' f', GetOrOpenStream cp limit (newStreamsMap PerspectiveClient) f id = Some (m', f', Ok (Some id)) ∧
       openStreams m' = consecutive 2 (id / 2)).
Proof.
  intros H0 Hid Hlim. split.
  - intros m m' f' r Hok Hp Hn E.
    destruct (get_or_open cp limit m f id) as (m1 & f1 & r1 & E1 & Hok1 & _ & _ & Hcase); [done|done|done|lia|].
    rewrite E in E1. injection E1 as <- <- <-.
    destruct (decide (id ∈ openStreams m)); [by destruct Hcase as [-> _]|].
    destruct (decide (own_id _ id)); [by destruct Hcase as [-> _]|].
    destruct (decide (id ≤ _)) as [|Hgt]; [by destruct Hcase as [-> _]|].
    destruct Hcase as (Hopen & _ & _). set (want := (id + 2 - first_remote m) / 2) in *.
    set (k := Z.min want (room limit want m)) in *.
    assert (k ≤ Z.max 0 (limit - numIncomingStreams m)) as Hk by (unfold k, room; rewrite Hp; lia).
    destruct (so_counts _ Hok) as [_ Ec]. destruct (so_counts _ Hok1) as [_ Ec1].
    rewrite Hopen, filter_app, zlen_app in Ec1.
    set (a := zlen (filter (λ id, ¬ even_id id) (openStreams m))) in *.
    set (b := zlen (filter (λ id, ¬ even_id id) (consecutive (first_remote m) k))) in *.
    assert (0 ≤ b ≤ Z.max 0 k) as Hb.
    { unfold b, zlen. pose proof (length_filter (λ id, ¬ even_id id) (consecutive (first_remote m) k)) as Hf.
      unfold consecutive in Hf at 2. rewrite length_fmap, length_seqZ in Hf. lia. }
    assert (u32 (a + b) = u32 (u32 a + b)) as E1 by (unfold u32; by rewrite Zplus_mod_idemp_l).
    rewrite Ec1, E1, <-Ec. rewrite u32_small; [lia|]. rewrite Ec in *. unfold u32 in *.
    pose proof (Z.mod_pos_bound a (2 ^ 32)). lia.
  - intros He. set (m := newStreamsMap PerspectiveClient).
    destruct (get_or_open cp limit m f id) as (m1 & f1 & r1 & E1 & _ & _ & _ & Hcase);
      [apply sm_ok_new|done|done|lia|].
    rewrite decide_False in Hcase by (cbn; set_solver). rewrite decide_False in Hcase by (cbn; intros Hn; by apply Hn).
    rewrite decide_False in Hcase by (cbn; lia). destruct Hcase as (Hopen & _ & Hr).
    assert (first_remote m = 2) as Ef by done. rewrite Ef in *. replace (id + 2 - 2) with id in * by lia.
    assert (∀ want, room limit want m = want) as Eroom.
    { intros want. unfold room. cbn. by rewrite decide_False by lia. }
    rewrite Eroom in *. rewrite decide_True in Hr by done. rewrite Z.min_id in Hopen.
    exists m1, f1. split; [by rewrite E1, Hr|]. by rewrite Hopen.
Qed.

(** * Round robin *)

Section round_robin.
Context {W : Type}.

(** A callback that works on the stream alone, and one that notes which streams it was called for. *)
Definition on_stream_only (fn : @streamLambda W) : Prop :=
  ∀ m w id s, streams m !! id = Some s → ∃ s' w' c,
    fn m w id s = (set_streams m (<[id := s']> (streams m)) (openStreams m) (roundRobinIndex m), w', (c, None)).
Definition traced (fn : @streamLambda W) : @streamLambda (W * list Z) := λ m w id s,
  let '(m, w', r) := fn m w.1 id s in (m, (w', w.2 ++ [id]), r).

Definition regular (id : Z) : Prop := ¬ (id = 1 ∨ id = 3).
#[export] Instance regular_dec id : Decision (regular id).
Proof. unfold regular. apply _. Defined.

(** The open streams from a position on, around the list. *)
Definition at_position (l : list Z) (start i : Z) : Z := l !!! Z.to_nat ((i + start) mod zlen l).
Definition around (l : list Z) (start i n : Z) : list Z := at_position l start <$> seqZ i n.

(** The map during an iteration. *)
Record iterating (m m' : streamsMap) : Prop := {
  it_order : openStreams m' = openStreams m;
  it_dom id : is_Some (streams m' !! id) ↔ is_Some (streams m !! id)
}.

Lemma iterating_insert m id s' index :
  is_Some (streams m !! id) → iterating m (set_streams m (<[id := s']> (streams m)) (openStreams m) index).
Proof.
  intros Hid. split; [done|]. intros x. cbn. destruct (decide (x = id)) as [->|]; [|by rewrite lookup_insert_ne].
  rewrite lookup_insert_eq. split; [done|by eexists].
Qed.
Lemma iterating_trans m m' m'' : iterating m m' → iterating m' m'' → iterating m m''.
Proof. intros [A1 A2] [B1 B2]. split; [congruence|]. intros id. by rewrite B2. Qed.

Lemma round_robin_visits fn (start : Z) n i m w tr :
  on_stream_only fn → (∀ id, id ∈ openStreams m → is_Some (streams m !! id)) →
  let l := openStreams m in
  0 < zlen l < 2 ^ 31 → 0 ≤ i → i + Z.of_nat n ≤ zlen l → 0 ≤ start ≤ zlen l → 0 ≤ roundRobinIndex m ≤ zlen l →
  ∃ m' w' k, round_robin (traced fn) (zlen l) start n i m (w, tr) =
      Some (m', (w', tr ++ take k (filter regular (around l start i (Z.of_nat n)))), None) ∧
    iterating m m' ∧ (k ≤ length (filter regular (around l start i (Z.of_nat n))))%nat ∧
    roundRobinIndex m' = (if decide (k = O) then roundRobinIndex m else (roundRobinIndex m + Z.of_nat k) mod zlen l).
Proof.
  intros Hfn. revert i m w tr. induction n as [|n IH]; intros i m w tr Hdom l Hl Hi Hin Hst Hidx.
  { exists m, w, O. cbn. rewrite app_nil_r. split; [done|]. split; [by split|]. split; [lia|done]. }
  cbn [round_robin]. rewrite u32_small by lia.
  pose proof (Z.mod_pos_bound (i + start) (zlen l) ltac:(lia)) as Hpos.
  assert (index (openStreams m) ((i + start) mod zlen l) = Some (at_position l start i)) as ->.
  { unfold index, at_position. rewrite decide_True by lia. apply list_lookup_lookup_total_lt. unfold zlen in *. fold l. lia. }
  set (id := at_position l start i). cbn [mbind option_bind].
  assert (id ∈ openStreams m) as Hid.
  { unfold id, at_position. apply list_elem_of_lookup_total_2. unfold zlen in *. fold l. lia. }
  rewrite Nat2Z.inj_succ. unfold around. rewrite seqZ_cons by lia. rewrite fmap_cons, filter_cons. fold id.
  replace (Z.pred (Z.succ (Z.of_nat n))) with (Z.of_nat n) by lia. replace (Z.succ i) with (i + 1) by lia.
  fold (around l start (i + 1) (Z.of_nat n)).
  destruct (decide (id = 1 ∨ id = 3)) as [Hs|Hs].
  { rewrite decide_False by (intros H; by apply H).
    destruct (IH (i + 1) m w tr Hdom) as (m' & w' & k & E & H1 & H2 & H3); [done|lia|fold l; lia|done|done|].
    by exists m', w', k. }
  rewrite decide_True by done. unfold iterateFunc. destruct (Hdom id Hid) as [s Hlook]. rewrite Hlook.
  change (traced fn m (w, tr) id s) with (let '(m, w', r) := fn m w id s in (m, (w', tr ++ [id]), r)).
  destruct (Hfn m w id s Hlook) as (s' & w' & c & ->).
  set (m1 := set_streams m _ _ _). set (m2 := set_streams m1 _ _ _).
  assert (iterating m m2) as Hit by (exact (iterating_insert m id s' (u32 (roundRobinIndex m + 1) mod zlen l) (ex_intro _ s Hlook))).
  assert (0 ≤ roundRobinIndex m2 < zlen l ∧ roundRobinIndex m2 = (roundRobinIndex m + 1) mod zlen l) as [Hidx2 Eidx].
  { unfold m2. cbn. rewrite u32_small by lia. split; [apply Z.mod_pos_bound; lia|done]. }
  destruct c.
  - destruct (IH (i + 1) m2 w' (tr ++ [id])) as (m' & w'' & k & E & H1 & H2 & H3); [|done|lia|change (openStreams m2) with l; lia|done|change (openStreams m2) with l; lia|].
    { intros x Hx. by apply (it_dom _ _ Hit), Hdom. }
    exists m', w'', (S k). cbn [take length]. rewrite <-app_assoc in E. split; [exact E|].
    split; [by eapply iterating_trans|]. split; [change (openStreams m2) with l in H2; lia|].
    change (openStreams m2) with l in H3. rewrite H3. destruct (decide (k = O)) as [->|].
    + rewrite decide_False by done. rewrite Eidx. f_equal.
    + rewrite decide_False by done. rewrite Eidx, Zplus_mod_idemp_l. f_equal. lia.
  - exists m2, w', 1%nat. split; [cbn [take]; by destruct (filter _ _)|]. split; [done|]. split; [cbn; lia|].
    rewrite decide_False by done. rewrite Eidx. done.
Qed.

Record listed (m : streamsMap) : Prop := {
  li_nodup : NoDup (openStreams m);
  li_dom id : id ∈ openStreams m ↔ is_Some (streams m !! id);
  li_index : 0 ≤ roundRobinIndex m ≤ zlen (openStreams m)
}.
Lemma listed_size m : listed m → Z.of_nat (size (streams m)) = zlen (openStreams m).
Proof.
  intros [Hnd Hdom _]. assert (dom (streams m) = list_to_set (C := gset Z) (openStreams m)) as E.
  { apply set_eq. intros x. by rewrite elem_of_dom, elem_of_list_to_set, Hdom. }
  rewrite <-(size_dom (D := gset Z)), E, size_list_to_set by done. done.
Qed.
Lemma listed_iterating m m' : listed m → iterating m m' → 0 ≤ roundRobinIndex m' ≤ zlen (openStreams m) → listed m'.
Proof.
  intros [H1 H2 H3] [E1 E2] Hi. split; rewrite ?E1; [done| |done]. intros id. by rewrite H2, E2.
Qed.

Lemma prioritised_visits fn m w tr ids :
  on_stream_only fn → Forall (λ id, ¬ regular id) ids →
  ∃ m' w' p r, prioritised (traced fn) m (w, tr) ids = (m', (w', tr ++ p), r) ∧ (r = None ∨ r = Some None) ∧
    iterating m m' ∧ roundRobinIndex m' = roundRobinIndex m ∧ Forall (λ id, ¬ regular id) p.
Proof.
  intros Hfn. revert m w tr. induction ids as [|id ids IH]; intros m w tr Hids.
  { exists m, w, [], None. cbn. rewrite app_nil_r. split; [done|]. split; [by left|]. by split. }
  apply Forall_cons in Hids as [Hid Hids]. cbn [prioritised]. unfold iterateFunc.
  destruct (streams m !! id) as [s|] eqn:Hlook; [|by apply IH].
  change (traced fn m (w, tr) id s) with (let '(m, w', r) := fn m w id s in (m, (w', tr ++ [id]), r)).
  destruct (Hfn m w id s Hlook) as (s' & w' & c & ->). cbv beta iota.
  set (m1 := set_streams m _ _ _).
  assert (iterating m m1) as Hit by (exact (iterating_insert m id s' (roundRobinIndex m) (ex_intro _ s Hlook))).
  destruct c.
  - destruct (IH m1 w' (tr ++ [id]) Hids) as (m' & w'' & p & r & -> & Hr & H1 & H2 & H3).
    exists m', w'', (id :: p), r. rewrite <-app_assoc. split; [done|]. split; [done|].
    split; [by eapply iterating_trans|]. split; [done|]. by constructor.
  - exists m1, w', [id], (Some None). split; [done|]. split; [by right|]. split; [done|]. split; [done|]. by constructor.
Qed.

Lemma round_robin_call fn m w tr :
  on_stream_only fn → listed m → zlen (openStreams m) < 2 ^ 31 →
  let l := openStreams m in
  let rest := filter regular (around l (roundRobinIndex m) 0 (zlen l)) in
  ∃ m' w' p k, RoundRobinIterate (traced fn) m (w, tr) = Some (m', (w', tr ++ p ++ take k rest), None) ∧
    listed m' ∧ iterating m m' ∧ Forall (λ id, ¬ regular id) p ∧ (k ≤ length rest)%nat ∧
    roundRobinIndex m' = (if decide (k = O) then roundRobinIndex m else (roundRobinIndex m + Z.of_nat k) mod zlen l).
Proof.
  intros Hfn Hm Hl l rest. unfold RoundRobinIterate. rewrite (listed_size m Hm).
  pose proof (zlen_nonneg (openStreams m)). rewrite u32_small by lia.
  assert (0 ≤ zlen l < 2 ^ 31) as Hll by (unfold l; lia).
  destruct (prioritised_visits fn m w tr [1; 3] Hfn) as (m1 & w1 & p & r & -> & Hr & Hit & Hi1 & Hp).
  { unfold regular. repeat constructor; lia. }
  assert (listed m1) as Hm1 by (apply (listed_iterating m); [done|done|rewrite Hi1; apply Hm]).
  destruct Hr as [-> | ->].
  2: { exists m1, w1, p, O. cbn. rewrite app_nil_r. split; [done|]. split; [done|]. split; [done|].
       split; [done|]. split; [lia|done]. }
  destruct (decide (zlen l = 0)) as [Hz|Hz].
  { fold l. rewrite Hz. exists m1, w1, p, O. cbn. rewrite app_nil_r. split; [done|]. split; [done|]. split; [done|].
    split; [done|]. split; [lia|done]. }
  pose proof (li_index _ Hm) as Hix. fold l in Hix. pose proof (it_order _ _ Hit) as Eo.
  destruct (round_robin_visits fn (roundRobinIndex m) (Z.to_nat (zlen l)) 0 m1 w1 (tr ++ p))
    as (m' & w' & k & E & Hit' & Hk & Hidx).
  - done.
  - intros id. by apply Hm1.
  - rewrite Eo. fold l. lia.
  - lia.
  - rewrite Eo. fold l. lia.
  - rewrite Eo. fold l. lia.
  - rewrite Eo, Hi1. fold l. lia.
  - rewrite Eo in *. fold l in E, Hk, Hidx. rewrite Z2Nat.id in E, Hk by lia. rewrite Hi1 in Hidx.
    exists m', w', p, k. fold l. rewrite E, <-app_assoc. split; [done|].
    assert (iterating m m') as Hit2 by (by eapply iterating_trans).
    split; [|done]. apply (listed_iterating m); [done|done|]. rewrite Hidx. fold l.
    destruct (decide (k = O)); [done|]. pose proof (Z.mod_pos_bound (roundRobinIndex m + Z.of_nat k) (zlen l)). lia.
Qed.

(** One call after the other. *)
Fixpoint rr_calls (fns : list (@streamLambda (W * list Z))) (m : streamsMap) (w : W * list Z) :
    option (streamsMap * (W * list Z)) :=
  match fns with
  | [] => Some (m, w)
  | fn :: fns => '(m, w, _) ← RoundRobinIterate fn m w; rr_calls fns m w
  end.

Lemma take_filter (P : Z → Prop) `{∀ x, Decision (P x)} (r : list Z) k t x :
  r !! t = Some x → (t < k)%nat → P x → x ∈ take k (filter P r).
Proof.
  intros Ht Hk Hx. assert (x ∈ filter P (take k r)) as Hin.
  { apply list_elem_of_filter. split; [done|]. apply (list_elem_of_lookup_2 _ t). by rewrite lookup_take_lt. }
  rewrite <-(take_drop k r), filter_app. pose proof (length_filter P (take k r)) as Hl. rewrite length_take in Hl.
  rewrite take_app. apply elem_of_app. left. rewrite take_ge by lia. done.
Qed.

Definition visited_up_to (l : list Z) (start : Z) (K : nat) (tr : list Z) : Prop :=
  ∀ j, 0 ≤ j < Z.of_nat K → regular (at_position l start j) → at_position l start j ∈ tr.

Lemma regular_none p : Forall (λ id, ¬ regular id) p → filter regular p = [].
Proof.
  induction 1 as [|x p Hx Hp IH]; [done|]. rewrite filter_cons. by destruct (decide (regular x)).
Qed.
Lemma regular_taken l k : filter regular (take k (filter regular l)) = take k (filter regular l).
Proof.
  assert (Forall regular (take k (filter regular l))) as HF.
  { apply Forall_take, Forall_forall. intros x Hx. by apply list_elem_of_filter in Hx as [? _]. }
  induction HF as [|x p Hx Hp IH]; [done|]. rewrite filter_cons, decide_True by done. by rewrite IH.
Qed.

Lemma rr_calls_visit fns m w l start K tr m' w' tr' :
  Forall (λ fn, ∃ g, on_stream_only g ∧ fn = traced g) fns → listed m → openStreams m = l → 0 < zlen l < 2 ^ 31 →
  length (filter regular tr) = K → visited_up_to l start K tr →
  (roundRobinIndex m) mod zlen l = (start + Z.of_nat K) mod zlen l →
  rr_calls fns m (w, tr) = Some (m', (w', tr')) →
  visited_up_to l start (length (filter regular tr')) tr' ∧ openStreams m' = l.
Proof.
  revert m w K tr. induction fns as [|fn fns IH]; intros m w K tr Hfns Hm Ho Hl HK Hv Hidx.
  { cbn. intros [= <- <- <-]. by rewrite HK. }
  apply Forall_cons in Hfns as [(g & Hg & ->) Hfns]. cbn [rr_calls].
  destruct (round_robin_call g m w tr Hg Hm) as (m1 & w1 & p & k & -> & Hm1 & Hit & Hp & Hk & Hidx1); [rewrite Ho; lia|].
  rewrite Ho in *. cbn [mbind option_bind]. set (rest := filter regular (around l (roundRobinIndex m) 0 (zlen l))) in *.
  apply (IH m1 w1 (K + k)%nat); [done|done|by rewrite (it_order _ _ Hit)|done| | |].
  - rewrite !filter_app, (regular_none p), !length_app, HK by done. unfold rest. rewrite regular_taken. cbn.
    rewrite length_take. fold rest. lia.
  - intros j Hj Hreg. destruct (decide (j < Z.of_nat K)) as [Hlt|Hge].
    { apply elem_of_app. left. apply Hv; [lia|done]. }
    apply elem_of_app. right. apply elem_of_app. right.
    assert (at_position l start j = at_position l (roundRobinIndex m) (j - Z.of_nat K)) as E.
    { unfold at_position. do 2 f_equal. rewrite (Zplus_mod (j - _)), Hidx, <-Zplus_mod. f_equal. lia. }
    rewrite E in *. apply (take_filter regular _ k (Z.to_nat (j - Z.of_nat K))); [|lia|done].
    assert (k ≤ length (around l (roundRobinIndex m) 0 (zlen l)))%nat as Hkl.
    { etransitivity; [exact Hk|apply length_filter]. }
    unfold around in *. rewrite length_fmap, length_seqZ in Hkl. rewrite list_lookup_fmap, lookup_seqZ_lt by lia.
    cbn. do 2 f_equal. lia.
  - rewrite Hidx1. case_decide as Hk0; [subst k; by rewrite Nat.add_0_r|].
    rewrite Z.mod_mod by lia. rewrite (Zplus_mod (roundRobinIndex m)), Hidx, <-Zplus_mod. f_equal. lia.
Qed.

(** C34: No stream starves: over any sequence of [RoundRobinIterate] calls, whatever the callbacks do with
    the streams and whenever they stop, once as many callbacks have been made for streams other than 1 and
    3 as there are open streams, each of those streams has had one. *)
Theorem round_robin_no_starvation fns m w m' w' tr id :
  Forall (λ fn, ∃ g, on_stream_only g ∧ fn = traced g) fns → sm_ok m → zlen (openStreams m) < 2 ^ 31 →
  rr_calls fns m (w, []) = Some (m', (w', tr)) → zlen (openStreams m) ≤ zlen (filter regular tr) →
  id ∈ openStreams m → regular id → id ∈ tr.
Proof.
  intros Hfns Hok Hlt Hcalls Hmany Hid Hreg.
  assert (listed m) as Hm by (destruct Hok; by split).
  assert (0 < zlen (openStreams m)) as Hl.
  { destruct (openStreams m); [set_solver|]. rewrite zlen_cons. pose proof (zlen_nonneg l). lia. }
  destruct (rr_calls_visit fns m w (openStreams m) (roundRobinIndex m) 0 [] m' w' tr) as [Hv _]; [done..| | |done|].
  - intros j. lia.
  - by rewrite Z.add_0_r.
  - set (l := openStreams m) in *. apply list_elem_of_lookup in Hid as [i Hi]. apply lookup_lt_Some in Hi as Hil.
    set (j := (Z.of_nat i - roundRobinIndex m) mod zlen l).
    pose proof (Z.mod_pos_bound (Z.of_nat i - roundRobinIndex m) (zlen l) Hl) as Hj.
    assert (at_position l (roundRobinIndex m) j = id) as E.
    { unfold at_position, j. rewrite Zplus_mod_idemp_l. replace (Z.of_nat i - roundRobinIndex m + roundRobinIndex m) with (Z.of_nat i) by lia.
      rewrite Z.mod_small by (unfold zlen in *; lia). rewrite Nat2Z.id. by apply list_lookup_total_correct. }
    rewrite <-E. apply Hv; [unfold zlen in *; fold j; unfold j; lia|by rewrite E].
Qed.
End round_robin.

(** ** What becomes of the streams *)

Section every_stream.
Context (Q : Z → stream → Prop).
Definition every (m : streamsMap) : Prop := ∀ id s, streams m !! id = Some s → Q id s.

Lemma every_put m id : every m → (streams m !! id = None → Q id (Stream.newStream id)) →
  every (putStream m (Stream.newStream id)).1.
Proof.
  intros Hm Hnew. unfold putStream. cbn [s_streamID Stream.newStream]. destruct (streams m !! id) eqn:Hid; [done|].
  intros x s. cbn. intros [[<- <-]|[_ Hs]]%lookup_insert_Some; [by apply Hnew|by apply Hm].
Qed.
Lemma put_lookup m s x : streams (putStream m s).1 !! x = None → streams m !! x = None.
Proof. unfold putStream. destruct (streams m !! s_streamID s); [done|]. cbn. by intros [? _]%lookup_insert_None. Qed.

Lemma every_open_remote cp limit m f id m' f' e :
  openRemoteStream cp limit m f id = (m', f', e) →
  (every m → (streams m !! id = None → Q id (Stream.newStream id)) → every m') ∧
  (∀ x, streams m' !! x = None → streams m !! x = None).
Proof.
  intros Ho. unfold openRemoteStream, session_newStream in Ho. case_decide; [by injection Ho as <- _ _|].
  case_decide; [by injection Ho as <- _ _|]. destruct (match sm_perspective m with PerspectiveServer => _ | _ => _ end).
  injection Ho as <- _ _. set (m1 := set_ids _ _ _ _ _ _).
  split; [intros Hm Hnew; by apply every_put|]. intros x. apply (put_lookup m1).
Qed.

Lemma every_open_up_to fuel cp limit m f sid id m' f' e :
  open_up_to fuel cp limit m f sid id = Some (m', f', e) → every m →
  (∀ x, streams m !! x = None → Q x (Stream.newStream x)) → every m'.
Proof.
  revert m f sid. induction fuel as [|fuel IH]; intros m f sid; cbn [open_up_to].
  { case_decide; [done|]. by intros [= <- _ _]. }
  case_decide; [|by intros [= <- _ _]]. destruct (openRemoteStream cp limit m f sid) as [[m1 f1] e1] eqn:Ho.
  destruct (every_open_remote _ _ _ _ _ _ _ _ Ho) as [Hev Hsub]. intros Hr Hm Hnew.
  destruct e1 as [e1|]; [injection Hr as <- _ _; by apply Hev, Hnew|].
  apply (IH _ _ _ Hr); [by apply Hev, Hnew|]. intros x Hx. by apply Hnew, Hsub.
Qed.

Lemma every_collect ids m f : every m → every (iterate_ids collect m f ids).1.1.
Proof.
  revert m f. induction ids as [|x ids IH]; intros m f Hm; [done|]. cbn [iterate_ids]. unfold iterateFunc.
  destruct (streams m !! x) as [s|] eqn:Hs; [|done]. unfold collect at 1.
  destruct (finished s); [|by apply IH].
  destruct (RemoveStream m x) as [m1 [e|]] eqn:Er; cbn beta iota.
  - unfold RemoveStream in Er. rewrite Hs in Er. by repeat case_match; simplify_eq.
  - apply IH. unfold RemoveStream in Er. rewrite Hs in Er. intros y t Ht. apply Hm.
    destruct (if decide _ then _ else _), (match list_find _ _ with Some _ => _ | _ => _ end).
    injection Er as <-. cbn in Ht. by apply lookup_delete_Some in Ht as [_ ?].
Qed.

Lemma every_cancel e ids (ss : gmap Z stream) :
  (∀ id s, Q id s → Q id (Cancel s e)) → (∀ id s, ss !! id = Some s → Q id s) →
  ∀ id s, foldl (λ ss id, alter (λ s, Cancel s e) id ss) ss ids !! id = Some s → Q id s.
Proof.
  intros Hc. revert ss. induction ids as [|x ids IH]; intros ss Hss; [done|]. cbn [foldl]. apply IH.
  intros id s. rewrite lookup_alter. case_decide as E; [subst x|by apply Hss].
  intros (t & Ht & ->)%fmap_Some. by apply Hc, Hss.
Qed.

(** A property of all streams holds after a step if new streams have it and the streams' own steps and
    cancellation keep it. *)
Lemma every_step cp m f o m' f' :
  sm_step cp (m, f) o = Some (m', f') → every m → (∀ x, streams m !! x = None → Q x (Stream.newStream x)) →
  (∀ id s e, Q id s → Q id (Cancel s e)) →
  match o with
  | OpStream id o => ∀ s f f' s' d, streams m !! id = Some s → Q id s →
      stream_step f s o = Some (Ok (f', s', d)) → Q id s'
  | _ => True
  end → every m'.
Proof.
  intros Hstep Hm Hnew Hc Ho. destruct o as [limit id|limit| | |e|id o]; cbn [sm_step] in Hstep.
  - unfold GetOrOpenStream in Hstep. destruct (streams m !! id); [by injection Hstep as <- _|].
    destruct (refuse_stream m id); [by injection Hstep as <- _|].
    destruct (open_up_to _ _ _ _ _ _ _) as [[[m1 f1] e]|] eqn:E; [|done]. injection Hstep as <- _.
    by eapply every_open_up_to.
  - unfold OpenStream in Hstep. destruct (closeErr m); [by injection Hstep as <- _|].
    unfold openStreamImpl, session_newStream in Hstep. case_decide; [by injection Hstep as <- _|].
    destruct (match sm_perspective m with PerspectiveServer => _ | _ => _ end). injection Hstep as <- _.
    apply every_put; [exact Hm|]. exact (Hnew (nextStream m)).
  - injection Hstep as <- _. unfold AcceptStream. destruct (closeErr m); [done|].
    by destruct (streams m !! nextStreamToAccept m).
  - pose proof (every_collect (openStreams m) m f Hm) as H. unfold garbageCollectStreams, Iterate in Hstep.
    fold collect in Hstep. destruct (iterate_ids collect m f (openStreams m)) as [[m1 f1] e]. by injection Hstep as <- _.
  - injection Hstep as <- _. intros id s. cbn. apply every_cancel; [by intros; apply Hc|exact Hm].
  - destruct (streams m !! id) as [s|] eqn:Es; [|by injection Hstep as <- _].
    destruct (stream_step f s o) as [[[[f1 s1] d]|e]|] eqn:Estep; cbn in Hstep; [|by injection Hstep as <- _|done].
    injection Hstep as <- _. intros x t. cbn. intros [[<- <-]|[_ Ht]]%lookup_insert_Some; [|by apply Hm].
    eapply Ho; [done|by apply Hm|done].
Qed.
End every_stream.

(** ** Invariants of an iteration *)

Section iteration_invariant.
Context {W : Type} (fn : @streamLambda W) (P : gmap Z stream → W → Prop).
Context (Hfn : on_stream_only fn).
Context (Hstep : ∀ m w id s, streams m !! id = Some s → P (streams m) w →
  P (streams (fn m w id s).1.1) (fn m w id s).1.2).

(** The map an iteration leaves behind. *)
Definition iterated (m m' : streamsMap) : Prop :=
  ∃ ss i, m' = set_streams m ss (openStreams m) i ∧ (∀ id, is_Some (ss !! id) ↔ is_Some (streams m !! id)) ∧
    0 ≤ i ≤ zlen (openStreams m).

Lemma iterated_refl m : 0 ≤ roundRobinIndex m ≤ zlen (openStreams m) → iterated m m.
Proof. intros H. exists (streams m), (roundRobinIndex m). by destruct m. Qed.
Lemma iterated_trans m1 m2 m3 : iterated m1 m2 → iterated m2 m3 → iterated m1 m3.
Proof.
  intros (s1 & i1 & -> & H1 & I1) (s2 & i2 & -> & H2 & I2). exists s2, i2. cbn in *. split; [done|]. split; [|done].
  intros id. by rewrite H2.
Qed.

Lemma iterated_step m w id s :
  streams m !! id = Some s → 0 ≤ roundRobinIndex m ≤ zlen (openStreams m) →
  ∃ m' w' c, fn m w id s = (m', w', (c, None)) ∧ iterated m m' ∧ roundRobinIndex m' = roundRobinIndex m ∧
    (P (streams m) w → P (streams m') w').
Proof.
  intros Hs Hi. pose proof (Hstep m w id s Hs) as HP. destruct (Hfn m w id s Hs) as (s' & w' & c & E). rewrite E in *.
  eexists _, w', c. split; [done|]. split; [|done].
  exists (<[id:=s']> (streams m)), (roundRobinIndex m). split; [done|]. split; [|done].
  intros x. destruct (decide (x = id)) as [->|]; [|by rewrite lookup_insert_ne].
  rewrite lookup_insert_eq, Hs. split; by eexists.
Qed.

Lemma prioritised_inv m w ids :
  0 ≤ roundRobinIndex m ≤ zlen (openStreams m) → P (streams m) w →
  ∃ m' w' r, prioritised fn m w ids = (m', w', r) ∧ (r = None ∨ r = Some None) ∧ iterated m m' ∧ P (streams m') w'.
Proof.
  revert m w. induction ids as [|id ids IH]; intros m w Hi HP.
  { exists m, w, None. split; [done|]. split; [by left|]. split; [by apply iterated_refl|done]. }
  cbn [prioritised]. unfold iterateFunc. destruct (streams m !! id) as [s|] eqn:Hs; [|by apply IH].
  destruct (iterated_step m w id s Hs Hi) as (m1 & w1 & c & -> & Hit & Hx & HP1). cbv beta iota. destruct c.
  - destruct (IH m1 w1) as (m2 & w2 & r & -> & Hr & Hit2 & HP2); [|by apply HP1|].
    { destruct Hit as (ss & i & -> & _ & Hii). cbn. by cbn in Hx. }
    exists m2, w2, r. split; [done|]. split; [done|]. split; [by eapply iterated_trans|done].
  - exists m1, w1, (Some None). split; [done|]. split; [by right|]. split; [done|by apply HP1].
Qed.

Lemma round_robin_inv start n i m w :
  let l := openStreams m in
  (∀ id, id ∈ l → is_Some (streams m !! id)) → 0 < zlen l < 2 ^ 31 → 0 ≤ i → i + Z.of_nat n ≤ zlen l →
  0 ≤ start ≤ zlen l → 0 ≤ roundRobinIndex m ≤ zlen l → P (streams m) w →
  ∃ m' w', round_robin fn (zlen l) start n i m w = Some (m', w', None) ∧ iterated m m' ∧ P (streams m') w'.
Proof.
  intros l. revert i m w l. induction n as [|n IH]; intros i m w l Hdom Hl Hi Hin Hst Hidx HP.
  { exists m, w. split; [done|]. split; [by apply iterated_refl|done]. }
  cbn [round_robin]. rewrite u32_small by lia.
  pose proof (Z.mod_pos_bound (i + start) (zlen l) ltac:(lia)) as Hpos.
  destruct (lookup_lt_is_Some_2 l (Z.to_nat ((i + start) mod zlen l))) as [id Hid]; [unfold zlen in *; lia|].
  assert (index (openStreams m) ((i + start) mod zlen l) = Some id) as ->.
  { unfold index. rewrite decide_True by (fold l; lia). done. }
  cbn [mbind option_bind]. apply list_elem_of_lookup_2 in Hid. destruct (Hdom id Hid) as [s Hs].
  case_decide; [apply (IH (i + 1) m w); fold l; done || lia|].
  unfold iterateFunc. rewrite Hs. destruct (iterated_step m w id s Hs Hidx) as (m1 & w1 & c & -> & Hit & Hx & HP1).
  set (m2 := set_streams m1 _ _ _).
  assert (openStreams m1 = l) as El by (by destruct Hit as (? & ? & -> & _)).
  assert (roundRobinIndex m2 = (roundRobinIndex m + 1) mod zlen l) as E2 by (cbn; by rewrite Hx, u32_small by lia).
  assert (iterated m m2) as Hit2.
  { destruct Hit as (ss & j & -> & Hss & _). exists ss, ((roundRobinIndex m + 1) mod zlen l). cbn in *.
    split; [unfold m2; by rewrite <-E2|]. split; [done|]. pose proof (Z.mod_pos_bound (roundRobinIndex m + 1) (zlen l)). fold l. lia. }
  destruct c; [|exists m2, w1; split; [done|split; [done|by apply HP1]]].
  assert (openStreams m2 = l) as El2 by done.
  destruct (IH (i + 1) m2 w1) as (m3 & w3 & E & Hit3 & HP3); rewrite ?El2; try done; try lia.
  - intros x Hin2. destruct Hit2 as (ss & j & -> & Hss & _). cbn. by apply Hss, Hdom.
  - rewrite E2. pose proof (Z.mod_pos_bound (roundRobinIndex m + 1) (zlen l)). lia.
  - by apply HP1.
  - exists m3, w3. rewrite El2 in E. split; [exact E|]. split; [by eapply iterated_trans|done].
Qed.

(** A call neither panics nor fails, keeps the list of streams, and preserves what every callback does. *)
Lemma RoundRobinIterate_inv m w :
  listed m → zlen (openStreams m) < 2 ^ 31 → P (streams m) w →
  ∃ m' w', RoundRobinIterate fn m w = Some (m', w', None) ∧ iterated m m' ∧ P (streams m') w'.
Proof.
  intros Hm Hl HP. unfold RoundRobinIterate. rewrite (listed_size m Hm). pose proof (zlen_nonneg (openStreams m)).
  rewrite u32_small by lia. pose proof (li_index _ Hm) as Hi.
  destruct (prioritised_inv m w [1; 3] Hi HP) as (m1 & w1 & r & -> & Hr & Hit & HP1).
  destruct Hr as [-> | ->]; [|by exists m1, w1].
  assert (openStreams m1 = openStreams m) as Eo by (by destruct Hit as (? & ? & -> & _)).
  destruct (decide (zlen (openStreams m) = 0)) as [Hz|Hz].
  { rewrite Hz. exists m1, w1. done. }
  destruct (round_robin_inv (roundRobinIndex m) (Z.to_nat (zlen (openStreams m))) 0 m1 w1) as (m2 & w2 & E & Hit2 & HP2);
    rewrite ?Eo; try done; try lia.
  - intros id. rewrite (li_dom _ Hm). destruct Hit as (ss & i & -> & Hss & _). cbn. apply Hss.
  - by destruct Hit as (ss & i & -> & _ & ?).
  - rewrite Eo in E. exists m2, w2. split; [done|]. split; [by eapply iterated_trans|done].
Qed.

Lemma sm_ok_iterated m m' : iterated m m' → (∀ id s, streams m' !! id = Some s → s_streamID s = id) → sm_ok m → sm_ok m'.
Proof.
  intros (ss & i & -> & Hss & Hi) Hids Hok. cbn in Hids.
  destruct Hok as [A1 A2 A3 A4 A5 A6 A7 A8]. split; try done. intros id. cbn. by rewrite Hss.
Qed.
End iteration_invariant.

(** * Concrete runs *)

(** Streams 5 and 7 next to the crypto and the header stream, and callbacks that stop after one stream:
    an entry the loop skips does not move the index, so stream 5 gets three of four turns. *)
Definition one_each : @streamLambda () := λ m w id _,
  (m, w, (bool_decide (id = 1 ∨ id = 3), None)).
Definition sample_map : streamsMap :=
  match sm_run sample_params (newStreamsMap PerspectiveServer, NewFlowControlManager sample_params) [OpGetOrOpen 100 7] with
  | Some (m, _) => m
  | None => newStreamsMap PerspectiveServer
  end.
Lemma round_robin_unfair :
  (λ r : streamsMap * (() * list Z), filter regular r.2.2) <$> rr_calls (replicate 8 (traced one_each)) sample_map (tt, []) =
  Some [5; 5; 5; 7; 5; 5; 5; 7].
Proof. vm_compute. reflexivity. Qed.

Definition sample_keep : @streamLambda () := λ m w id s,
  (set_streams m (<[id := s]> (streams m)) (openStreams m) (roundRobinIndex m), w, (bool_decide (id = 1 ∨ id = 3), None)).
Lemma sample_keep_ok : on_stream_only sample_keep.
Proof. intros m w id s _. by exists s, w, (bool_decide (id = 1 ∨ id = 3)). Qed.
Lemma sample_map_ok : sm_ok sample_map.
Proof.
  destruct (get_or_open sample_params 100 (newStreamsMap PerspectiveServer) (NewFlowControlManager sample_params) 7)
    as (m' & f' & r & E & Hok & _); [apply sm_ok_new|done|done|done|].
  unfold sample_map, sm_run. cbn [foldl mbind option_bind sm_step]. rewrite E. exact Hok.
Qed.
Lemma sample_calls :
  ∃ m' w', rr_calls (replicate 4 (traced sample_keep)) sample_map (tt, []) = Some (m', (w', [1; 3; 5; 1; 3; 5; 1; 3; 5; 1; 3; 7])).
Proof. eexists _, _. vm_compute. reflexivity. Qed.
Lemma sample_open : openStreams sample_map = [1; 3; 5; 7].
Proof. vm_compute. reflexivity. Qed.
Lemma round_robin_no_starvation_witness : 7 ∈ [1; 3; 5; 1; 3; 5; 1; 3; 5; 1; 3; 7].
Proof.
  destruct sample_calls as (m' & w' & E).
  apply (round_robin_no_starvation (replicate 4 (traced sample_keep)) sample_map tt m' w' _ 7).
  - apply Forall_replicate. exists sample_keep. split; [exact sample_keep_ok|reflexivity].
  - exact sample_map_ok.
  - rewrite sample_open. reflexivity.
  - exact E.
  - rewrite sample_open. vm_compute. discriminate.
  - rewrite sample_open. right. right. right. left.
  - unfold regular. lia.
Defined.

Lemma GetOrOpenStream_cases_witness :
  ∃ m' f', GetOrOpenStream sample_params 3 (newStreamsMap PerspectiveServer) (NewFlowControlManager sample_params) 7 =
    Some (m', f', Err TooManyOpenStreams) ∧ openStreams m' = [1; 3; 5].
Proof.
  destruct (GetOrOpenStream_cases sample_params 3 (newStreamsMap PerspectiveServer) (NewFlowControlManager sample_params) 7)
    as (m' & f' & r & E & _ & _ & _ & Hcase); [exact (sm_ok_new _)|lia|reflexivity|reflexivity|].
  exists m', f'. destruct Hcase as (Hopen & _ & Hr). rewrite E, Hr, Hopen. split; vm_compute; reflexivity.
Defined.

Lemma incoming_limit_witness :
  ∃ m' f', GetOrOpenStream sample_params 1 (newStreamsMap PerspectiveClient) (NewFlowControlManager sample_params) 1000 =
    Some (m', f', Ok (Some 1000)) ∧ openStreams m' = consecutive 2 500.
Proof.
  destruct (incoming_limit sample_params 1 (NewFlowControlManager sample_params) 1000) as [_ H];
    [lia|reflexivity|lia|]. exact (H eq_refl).
Defined.

(** A client opens streams up to 5 and resets the last before the server accepted it. *)
Definition sample_opens : list sm_op :=
  [OpGetOrOpen 100 5; OpAccept; OpAccept; OpStream 5 (OpRemoteError (Some (EGiven 1))); OpCollect].
Definition sample_later : list sm_op := [OpGetOrOpen 100 9; OpAccept; OpAccept].
Local Notation sample_start := (newStreamsMap PerspectiveServer, NewFlowControlManager sample_params).
Local Notation sample_state := (default sample_start (sm_run sample_params sample_start sample_opens)).
Local Notation sample_end := (default sample_start (sm_run sample_params sample_state sample_later)).

Lemma sample_first_run : sm_run sample_params sample_start sample_opens = Some (sample_state.1, sample_state.2).
Proof. vm_compute. reflexivity. Qed.
Lemma sample_second_run : sm_run sample_params (sample_state.1, sample_state.2) sample_later = Some (sample_end.1, sample_end.2).
Proof. vm_compute. reflexivity. Qed.
Lemma sample_next : nextStreamToAccept sample_state.1 = 5 ∧ highestStreamOpenedByPeer sample_state.1 = 5 ∧
  sm_perspective sample_state.1 = PerspectiveServer ∧ openStreams sample_state.1 = [1; 3] ∧ closeErr sample_end.1 = None ∧
  openStreams sample_end.1 = [1; 3; 7; 9].
Proof. vm_compute. repeat split. Qed.
Lemma sample_ops_ok : Forall sm_op_ok sample_opens ∧ Forall sm_op_ok sample_later.
Proof.
  unfold sample_opens, sample_later. rewrite !Forall_cons. cbn. unfold MaxNewStreamIDDelta, MaxStreamsPerConnection.
  repeat split; try lia; constructor.
Qed.

Lemma accept_blocked_by_collected_witness : AcceptStream sample_end.1 = (sample_end.1, None).
Proof.
  destruct sample_next as (E1 & E2 & E3 & E4 & E5 & _).
  apply (accept_blocked_by_collected sample_params PerspectiveServer (NewFlowControlManager sample_params) sample_opens
    sample_later sample_state.1 sample_state.2 sample_end.1 sample_end.2).
  - exact (proj1 sample_ops_ok).
  - exact (proj2 sample_ops_ok).
  - reflexivity.
  - exact sample_first_run.
  - exact sample_second_run.
  - unfold opened. rewrite E1, E2, E3. split; [lia|]. rewrite decide_False by (unfold own_id, even_id; vm_compute; intuition discriminate). lia.
  - rewrite E1, E4. intros H. apply list_elem_of_In in H. cbn in H. lia.
  - exact E5.
Defined.
Lemma streams_opened_once_witness : 5 ∉ openStreams sample_end.1.
Proof.
  destruct sample_next as (E1 & E2 & E3 & E4 & _ & _).
  destruct (streams_opened_once sample_params PerspectiveServer (NewFlowControlManager sample_params) sample_opens
    sample_later sample_state.1 sample_state.2 sample_end.1 sample_end.2) as (_ & _ & _ & H).
  - exact (proj1 sample_ops_ok).
  - exact (proj2 sample_ops_ok).
  - reflexivity.
  - exact sample_first_run.
  - exact sample_second_run.
  - apply H.
    + unfold opened. rewrite E2, E3. split; [lia|]. rewrite decide_False by (unfold own_id, even_id; vm_compute; intuition discriminate). lia.
    + rewrite E4. intros Hin. apply list_elem_of_In in Hin. cbn in Hin. lia.
Defined.

Close Scope Z_scope.
