(* ===== verification/StreamFramer.v ===== *)
(** The framing of stream data for packets (src/mp-quic/stream_framer.go).

    The framer of a session shares the map of streams and the flow control manager, which
    its methods take and return.  A frame is a value, though the framer cuts the frame at the
    front of its queue in place.  When that frame comes from a packet that was lost nothing else holds
    it; when it comes from a packet that [DuplicatePacket] queued, the packet is still in flight and
    shares the frame, so that if it is lost in turn only what was not cut off is queued again.  The
    part that was cut off has been sent in a packet of its own by then; in the model the whole frame
    is queued again.  Errors of the flow control manager are dropped, as in the code. *)

From Stdlib Require Import ZArith Lia.
From Stdlib Require Import Strings.Byte.
From stdpp Require Import prelude numbers list gmap.
From S2P Require Import Prelude Wire Handshake StreamSorter ReceivedPackets FlowControl PublicHeader Stream StreamsMap.

Open Scope Z_scope.

Record streamFramer : Type := {
  retransmissionQueue : list StreamFrame;
  blockedFrameQueue : list BlockedFrame;
  addAddressFrameQueue : list AddAddressFrame;
  closePathFrameQueue : list ClosePathFrame;
  pathsFrame : option PathsFrame
}.

Definition newStreamFramer : streamFramer := {|
  retransmissionQueue := []; blockedFrameQueue := []; addAddressFrameQueue := []; closePathFrameQueue := [];
  pathsFrame := None
|}.

Definition set_retransmission (f : streamFramer) (q : list StreamFrame) : streamFramer := {|
  retransmissionQueue := q; blockedFrameQueue := blockedFrameQueue f; addAddressFrameQueue := addAddressFrameQueue f;
  closePathFrameQueue := closePathFrameQueue f; pathsFrame := pathsFrame f
|}.
Definition set_control (f : streamFramer) (blocked : list BlockedFrame) (addresses : list AddAddressFrame)
    (closed : list ClosePathFrame) (paths : option PathsFrame) : streamFramer := {|
  retransmissionQueue := retransmissionQueue f; blockedFrameQueue := blocked; addAddressFrameQueue := addresses;
  closePathFrameQueue := closed; pathsFrame := paths
|}.

(** * Control frames *)

Definition PopBlockedFrame (f : streamFramer) : streamFramer * option BlockedFrame :=
  match blockedFrameQueue f with
  | [] => (f, None)
  | b :: q => (set_control f q (addAddressFrameQueue f) (closePathFrameQueue f) (pathsFrame f), Some b)
  end.
Definition AddAddressForTransmission (f : streamFramer) (ipVersion : Z) (ip : list byte) (port : Z) : streamFramer :=
  set_control f (blockedFrameQueue f)
    (addAddressFrameQueue f ++ [{| IPVersion := ipVersion; IP := ip; Port := port |}])
    (closePathFrameQueue f) (pathsFrame f).
Definition PopAddAddressFrame (f : streamFramer) : streamFramer * option AddAddressFrame :=
  match addAddressFrameQueue f with
  | [] => (f, None)
  | a :: q => (set_control f (blockedFrameQueue f) q (closePathFrameQueue f) (pathsFrame f), Some a)
  end.

(** The paths of the session, in the order of the traversal: ID, potentially failed, smoothed RTT. *)
Definition Hour : Z := 3600 * 10 ^ 9.
Definition AddPathsFrameForTransmission (f : streamFramer) (paths : list (Z * (bool * Z))) : streamFramer :=
  set_control f (blockedFrameQueue f) (addAddressFrameQueue f) (closePathFrameQueue f)
    (Some {| MaxNumPaths := 255; NumPaths := u8 (zlen paths); PathIDs := paths.*1;
             RemoteRTTs := (λ p : Z * (bool * Z), if p.2.1 then Hour else p.2.2) <$> paths |}).
Definition PopPathsFrame (f : streamFramer) : streamFramer * option PathsFrame :=
  match pathsFrame f with
  | None => (f, None)
  | Some p => (set_control f (blockedFrameQueue f) (addAddressFrameQueue f) (closePathFrameQueue f) None, Some p)
  end.
Definition AddClosePathFrameForTransmission (f : streamFramer) (frame : ClosePathFrame) : streamFramer :=
  set_control f (blockedFrameQueue f) (addAddressFrameQueue f) (closePathFrameQueue f ++ [frame]) (pathsFrame f).
Definition PopClosePathFrame (f : streamFramer) : streamFramer * option ClosePathFrame :=
  match closePathFrameQueue f with
  | [] => (f, None)
  | c :: q => (set_control f (blockedFrameQueue f) (addAddressFrameQueue f) q (pathsFrame f), Some c)
  end.

(** * Retransmissions *)

Definition AddFrameForRetransmission (f : streamFramer) (frame : StreamFrame) : streamFramer :=
  set_retransmission f (retransmissionQueue f ++ [frame]).
Definition HasFramesForRetransmission (f : streamFramer) : bool := bool_decide (0 < zlen (retransmissionQueue f)).

Definition with_DataLen (frame : StreamFrame) (present : bool) : StreamFrame := {|
  StreamID := StreamID frame; FinBit := FinBit frame; DataLenPresent := present; Offset := Offset frame;
  SData := SData frame
|}.

(** The first [n] bytes as a frame of their own, and what is left of the frame. *)
Definition maybeSplitOffFrame (frame : StreamFrame) (n : Z) : option (StreamFrame * StreamFrame) :=
  if decide (DataLen frame ≤ n) then None
  else Some
    ({| StreamID := StreamID frame; FinBit := false; DataLenPresent := DataLenPresent frame; Offset := Offset frame;
        SData := take (Z.to_nat n) (SData frame) |},
     {| StreamID := StreamID frame; FinBit := FinBit frame; DataLenPresent := DataLenPresent frame;
        Offset := u64 (Offset frame + n); SData := drop (Z.to_nat n) (SData frame) |}).

(** The queue that is left, the flow control manager, the frames and their length. *)
Fixpoint pop_retransmissions (q : list StreamFrame) (fc : flowControlManager) (maxLen currentLen : Z)
    (res : list StreamFrame) : list StreamFrame * flowControlManager * list StreamFrame * Z :=
  match q with
  | [] => ([], fc, res, currentLen)
  | frame :: rest =>
      let frame := with_DataLen frame true in
      let frameHeaderLen := stream_MinLength frame in
      if decide (maxLen ≤ u64 (currentLen + frameHeaderLen)) then (frame :: rest, fc, res, currentLen)
      else
        let currentLen := u64 (currentLen + frameHeaderLen) in
        match maybeSplitOffFrame frame (u64 (maxLen - currentLen)) with
        | Some (splitFrame, frame) =>
            (frame :: rest, (AddBytesRetrans fc (StreamID splitFrame) (DataLen splitFrame)).1, res ++ [splitFrame],
             u64 (currentLen + DataLen splitFrame))
        | None =>
            pop_retransmissions rest (AddBytesRetrans fc (StreamID frame) (DataLen frame)).1 maxLen
              (u64 (currentLen + DataLen frame)) (res ++ [frame])
        end
  end.
Definition maybePopFramesForRetransmission (f : streamFramer) (fc : flowControlManager) (maxLen : Z) :
    streamFramer * flowControlManager * list StreamFrame * Z :=
  let '(q, fc, res, currentLen) := pop_retransmissions (retransmissionQueue f) fc maxLen 0 [] in
  (set_retransmission f q, fc, res, currentLen).

(** * New data *)

(** What the callback of [maybePopNormalFrames] closes over. *)
Record popping : Type := {
  po_flow : flowControlManager; po_blocked : list BlockedFrame; po_res : list StreamFrame; po_len : Z
}.

Definition frame_at_offset (s : stream) : StreamFrame := {|
  StreamID := s_streamID s; FinBit := false; DataLenPresent := true; Offset := writeOffset s; SData := []
|}.

(** What is sent of a stream and whether with a FIN; [None] leaves it alone. *)
Definition take_data (cp : ConnectionParameters) (fc : flowControlManager) (s : stream) (maxLen : Z) :
    option (stream * option (list byte) * bool * Z) :=
  let lenStreamData := lenOfDataForWriting s in
  let sendWindowSize := if decide (lenStreamData = 0) then 0
                        else match SendWindowSize cp fc (s_streamID s) with Ok n => n | Err _ => 0 end in
  let maxLen := if decide (lenStreamData = 0) then maxLen else Z.min maxLen sendWindowSize in
  if decide (maxLen = 0) then None
  else
    let '(s, data) := if decide (lenStreamData = 0) then (s, None) else getDataForWriting s maxLen in
    let fin := shouldSendFin s in
    match data, fin with
    | None, false => None
    | _, _ => Some (if fin then sentFin s else s, data, fin, sendWindowSize)
    end.

Definition pop_frame (cp : ConnectionParameters) (maxBytes : Z) : @streamLambda popping := λ m w id s,
  if decide (s_streamID s = 1) then (m, w, (true, None))
  else
    let frame := frame_at_offset s in
    let frameHeaderBytes := stream_MinLength frame in
    if decide (maxBytes < u64 (po_len w + frameHeaderBytes)) then (m, w, (false, None))
    else
      match take_data cp (po_flow w) s (u64 (u64 (maxBytes - po_len w) - frameHeaderBytes)) with
      | None => (m, w, (true, None))
      | Some (s, data, fin, sendWindowSize) =>
          let frame := {| StreamID := StreamID frame; FinBit := fin; DataLenPresent := true; Offset := Offset frame;
                          SData := default [] data |} in
          let fc := (AddBytesSent (po_flow w) (s_streamID s) (DataLen frame)).1 in
          let blocked :=
            if decide (RemainingConnectionWindowSize cp fc = 0) then po_blocked w ++ [{| BStreamID := 0 |}]
            else if decide (fin = false ∧ u64 (sendWindowSize - DataLen frame) = 0)
                 then po_blocked w ++ [{| BStreamID := s_streamID s |}]
                 else po_blocked w in
          let currentLen := u64 (po_len w + u64 (frameHeaderBytes + DataLen frame)) in
          (set_streams m (<[id := s]> (streams m)) (openStreams m) (roundRobinIndex m),
           {| po_flow := fc; po_blocked := blocked; po_res := po_res w ++ [frame]; po_len := currentLen |},
           (negb (bool_decide (currentLen = maxBytes)), None))
      end.

(** [None] is a panic. *)
Definition maybePopNormalFrames (cp : ConnectionParameters) (f : streamFramer) (m : streamsMap) (fc : flowControlManager)
    (maxBytes : Z) : option (streamFramer * streamsMap * flowControlManager * list StreamFrame) :=
  '(m, w, _) ← RoundRobinIterate (pop_frame cp maxBytes) m
    {| po_flow := fc; po_blocked := blockedFrameQueue f; po_res := []; po_len := 0 |};
  Some (set_control f (po_blocked w) (addAddressFrameQueue f) (closePathFrameQueue f) (pathsFrame f), m, po_flow w, po_res w).

Definition PopStreamFrames (cp : ConnectionParameters) (f : streamFramer) (m : streamsMap) (fc : flowControlManager)
    (maxLen : Z) : option (streamFramer * streamsMap * flowControlManager * list StreamFrame) :=
  let '(f, fc, fs, currentLen) := maybePopFramesForRetransmission f fc maxLen in
  '(f, m, fc, more) ← maybePopNormalFrames cp f m fc (u64 (maxLen - currentLen));
  Some (f, m, fc, fs ++ more).

(** * The crypto stream *)

(** [GetOrOpenStream(1)]; a nil stream panics at the call of its method. *)
Definition crypto_stream (cp : ConnectionParameters) (limit : Z) (m : streamsMap) (fc : flowControlManager) :
    option (streamsMap * flowControlManager * stream) :=
  '(m, fc, r) ← GetOrOpenStream cp limit m fc 1;
  match r with
  | Ok (Some id) => s ← streams m !! id; Some (m, fc, s)
  | _ => None
  end.
Definition HasCryptoStreamFrame (cp : ConnectionParameters) (limit : Z) (m : streamsMap) (fc : flowControlManager) :
    option (streamsMap * flowControlManager * bool) :=
  '(m, fc, cs) ← crypto_stream cp limit m fc;
  Some (m, fc, bool_decide (0 < lenOfDataForWriting cs)).
Definition PopCryptoStreamFrame (cp : ConnectionParameters) (limit : Z) (m : streamsMap) (fc : flowControlManager)
    (maxLen : Z) : option (streamsMap * flowControlManager * option StreamFrame) :=
  '(m, fc, b) ← HasCryptoStreamFrame cp limit m fc;
  if negb b then Some (m, fc, None)
  else
    '(m, fc, cs) ← crypto_stream cp limit m fc;
    let frame := {| StreamID := 1; FinBit := false; DataLenPresent := false; Offset := writeOffset cs; SData := [] |} in
    let '(cs', data) := getDataForWriting cs (u64 (maxLen - stream_MinLength frame)) in
    Some (set_streams m (<[1 := cs']> (streams m)) (openStreams m) (roundRobinIndex m), fc,
          Some {| StreamID := 1; FinBit := false; DataLenPresent := false; Offset := Offset frame; SData := default [] data |}).

Close Scope Z_scope.

(** * The writing side of a stream *)

(** Of a stream the bytes [W] were taken for sending, out of [A], what the application wrote. *)
Record write_ok (W A : list byte) (s : stream) : Prop := {
  wr_off : writeOffset s = zlen W;
  wr_data : A = W ++ default [] (dataForWriting s);
  wr_some d : dataForWriting s = Some d → d ≠ [];
  wr_fin : finSent s = true → finishedWriting s = true ∧ dataForWriting s = None
}.

Lemma write_ok_new id : write_ok [] [] (newStream id).
Proof. by split. Qed.

Definition writing (s : stream) : Z * option (list byte) * bool * bool :=
  (writeOffset s, dataForWriting s, finSent s, finishedWriting s).

Lemma write_ok_writing W A s s' : writing s' = writing s → write_ok W A s → write_ok W A s'.
Proof. intros [= E1 E2 E3 E4] []. by split; rewrite ?E1, ?E2, ?E3, ?E4. Qed.

Lemma set_err_writing s e (wake : stream → stream) :
  (∀ s, writing (wake s) = writing s) → writing (set_err s e wake) = writing s.
Proof. intros Hw. unfold set_err. destruct (s_err s); [done|]. by rewrite Hw. Qed.
Lemma send_reset_writing s : writing (send_reset s).1 = writing s.
Proof. unfold send_reset. by destruct (shouldSendReset s). Qed.
Lemma Cancel_writing s e : writing (Cancel s e) = writing s.
Proof. unfold Cancel. by rewrite set_err_writing. Qed.
Lemma Reset_writing s e : writing (Reset s e).1 = writing s.
Proof. unfold Reset. destruct (resetLocally s); [done|]. by rewrite send_reset_writing, set_err_writing. Qed.
Lemma RegisterRemoteError_writing s e : writing (RegisterRemoteError s e).1 = writing s.
Proof. unfold RegisterRemoteError. destruct (resetRemotely s); [done|]. by rewrite send_reset_writing, set_err_writing. Qed.

Lemma read_frame_writing env n f s got frame :
  match read_frame env n f s got frame with Stop _ s' _ | More _ s' _ => writing s' = writing s end.
Proof. unfold read_frame. repeat case_match; try done; by simplify_eq/=. Qed.
Lemma Read_writing env now n f s : writing (Read env now n f s).1.2 = writing s.
Proof.
  unfold Read. destruct (cancelled s || resetLocally s); [done|]. destruct (finishedReading s); [done|].
  generalize (read_fuel n s) (@nil byte). intros fuel got. revert f s got.
  induction fuel as [|fuel IH]; intros f s got; cbn [read_loop]; case_decide; try done.
  assert (match read_iter env now n f s got with Stop _ s' _ | More _ s' _ => writing s' = writing s end) as Hiter.
  { unfold read_iter. destruct (Head (frameQueue s)) as [frame|].
    - destruct (read_stop now s) as [[e|]|]; [done|apply read_frame_writing|].
      exact (read_frame_writing env n f (set_read s _ _ _ _ _ _) got frame).
    - case_decide; [done|]. by destruct (read_stop now s) as [[e|]|]. }
  destruct (read_iter env now n f s got) as [f' s' o|f' s' got']; [done|]. by rewrite IH.
Qed.

(** The steps the framer makes, and the data a [Write] leaves for it. *)
Definition framer_step_of (o : stream_op) : bool := match o with OpTake _ | OpSentFin => true | _ => false end.
Definition accepted_data (s : stream) (o : stream_op) : option (list byte) :=
  match o with OpWrite p => match Write_start s p with (_, None) => Some p | _ => None end | _ => None end.

(** Every other step leaves the writing side alone, but for a [Write], which replaces what was left of an
    earlier one, and [Close]. *)
Lemma write_ok_step W A s f o f' s' d :
  stream_step f s o = Some (Ok (f', s', d)) → framer_step_of o = false → write_ok W A s →
  write_ok W (default A ((λ p, W ++ p) <$> accepted_data s o)) s' ∧
  (finSent s = true → accepted_data s o = None ∧ finSent s' = true).
Proof.
  intros Hstep Ho Hok.
  assert (∀ s', writing s' = writing s → write_ok W A s' ∧ (finSent s = true → None = @None (list byte) ∧ finSent s' = true)) as Hsame.
  { intros t E. split; [by apply (write_ok_writing W A s)|]. intros Hs. split; [done|]. injection E as _ _ E _. congruence. }
  destruct o as [frame|env now n|p|now p| | | |e|e|e|t|t]; try done; cbn [stream_step] in Hstep.
  { unfold AddStreamFrame in Hstep. destruct (UpdateHighestReceived _ _ _) as [f1 [e|]]; [done|].
    destruct (Push _ _) as [[q err]|]; [|done]. cbn in Hstep.
    apply Hsame; destruct err as [[]|]; try done; by injection Hstep as _ <- _. }
  { pose proof (Read_writing env now n f s) as Hr. destruct (Read env now n f s) as [[f1 s1] [[| |dd e]|]]; try done;
      injection Hstep as _ <- _; by apply Hsame. }
  all: injection Hstep as _ <- _; cbn [local_step accepted_data].
  - unfold Write_start. destruct (resetLocally s || bool_decide (is_Some (s_err s))); [by apply Hsame|].
    destruct (finishedWriting s) eqn:Hfin; [by apply Hsame|]. case_decide as Hp; [by apply Hsame|].
    destruct Hok as [H1 H2 H3 H4]. assert (finSent s ≠ true) as Hns by (intros [Hc _]%H4; congruence).
    split; [|done]. split; cbn; [done|done|by intros ? [= <-] ->|done].
  - apply Hsame. unfold Write_check. destruct (passed _ _); [done|]. by destruct (dataForWriting s) eqn:E, (s_err s); unfold writing; cbn; rewrite ?E.
  - split; [|done]. destruct Hok as [H1 H2 H3 H4]. split; cbn; try done. by intros [_ ?]%H4.
  - apply Hsame, Cancel_writing.
  - apply Hsame, Reset_writing.
  - apply Hsame, RegisterRemoteError_writing.
  - apply Hsame. unfold SetReadDeadline. destruct t, (readDeadline s); cbn; try case_decide; done.
  - apply Hsame. unfold SetWriteDeadline. destruct t, (writeDeadline s); cbn; try case_decide; done.
Qed.

(** Taking data for a frame. *)
Lemma getDataForWriting_ok W A s n :
  write_ok W A s → (zlen A < 2 ^ 64)%Z → (0 < n)%Z → lenOfDataForWriting s ≠ 0%Z →
  ∃ s' d, getDataForWriting s n = (s', Some d) ∧ d ≠ [] ∧ (zlen d ≤ n)%Z ∧ write_ok (W ++ d) A s' ∧
    s_streamID s' = s_streamID s ∧ finSent s = false ∧ finSent s' = false ∧ (W ++ d) `prefix_of` A.
Proof.
  intros [H1 H2 H3 H4] HA Hn Hl. unfold lenOfDataForWriting in Hl. unfold getDataForWriting.
  destruct (s_err s); [done|]. destruct (dataForWriting s) as [data|] eqn:Hdata; [|done]. cbn in *.
  pose proof (zlen_nonneg data). pose proof (zlen_nonneg W). rewrite H2, zlen_app in HA.
  assert (finSent s = false) as Hns by (destruct (finSent s); [by destruct H4|done]).
  case_decide as Hd.
  - assert (zlen (take (Z.to_nat n) data) = n) as Hz by (rewrite zlen_take; lia).
    assert (take (Z.to_nat n) data ≠ []) as Hne by (intros E; rewrite E in Hz; unfold zlen in Hz; cbn in Hz; lia).
    eexists _, _. split; [done|]. split; [done|]. split; [lia|]. split; [|split; [done|split; [done|split; [done|]]]].
    + split; cbn.
      * rewrite zlen_app, H1, u64_small; [done|]. rewrite Hz. lia.
      * by rewrite <-app_assoc, take_drop.
      * intros ? [= <-] E. assert (zlen (drop (Z.to_nat n) data) = 0%Z) as E0 by (by rewrite E). rewrite zlen_drop in E0. lia.
      * intros Hc. congruence.
    + rewrite H2. exists (drop (Z.to_nat n) data). by rewrite <-app_assoc, take_drop.
  - eexists _, _. split; [done|]. split; [by apply H3|]. split; [lia|]. split; [|split; [done|split; [done|split; [done|]]]].
    + split; cbn; [rewrite zlen_app, H1, u64_small; [done|lia]|by rewrite app_nil_r|done|]. intros Hc. congruence.
    + by rewrite H2.
Qed.

Lemma take_data_ok cp fc W A s maxLen s' data fin win :
  write_ok W A s → (zlen A < 2 ^ 64)%Z → (0 ≤ maxLen)%Z → take_data cp fc s maxLen = Some (s', data, fin, win) →
  let d := default [] data in
  write_ok (W ++ d) A s' ∧ s_streamID s' = s_streamID s ∧ (zlen d ≤ maxLen)%Z ∧ (d = [] → fin = true) ∧
  finSent s = false ∧ finSent s' = fin ∧ (W ++ d) `prefix_of` A ∧ (fin = true → W ++ d = A) ∧
  (d ≠ [] → SendWindowSize cp fc (s_streamID s) = Ok win ∧ zlen d ≤ win)%Z.
Proof.
  intros Hok HA Hmax. unfold take_data. set (len := lenOfDataForWriting s). set (window := if decide (len = 0%Z) then 0%Z else _).
  set (max' := if decide (len = 0%Z) then maxLen else _). case_decide as Hm0; [done|].
  assert (∀ t d, write_ok (W ++ d) A t → s_streamID t = s_streamID s → finSent t = false → (W ++ d) `prefix_of` A →
    ∀ t', t' = (if shouldSendFin t then sentFin t else t) →
    write_ok (W ++ d) A t' ∧ s_streamID t' = s_streamID s ∧ finSent t' = shouldSendFin t ∧ (shouldSendFin t = true → W ++ d = A)) as Hfin.
  { intros t d Ht Hid Hns Hpre t' ->. destruct (shouldSendFin t) eqn:Hs; [|done]. unfold shouldSendFin in Hs.
    apply andb_true_iff in Hs as [[[Hfw _]%andb_true_iff _]%andb_true_iff Hdn]. apply bool_decide_eq_true in Hdn.
    destruct Ht as [T1 T2 T3 T4]. split; [split; cbn; try done; by rewrite Hdn|]. split; [done|]. split; [done|].
    intros _. by rewrite T2, Hdn, app_nil_r. }
  destruct (decide (len = 0%Z)) as [Hl|Hl].
  - assert (finSent s = false ∨ shouldSendFin s = false) as Hns.
    { unfold shouldSendFin. destruct (finSent s); [right|by left]. cbn. by rewrite andb_false_r. }
    destruct (shouldSendFin s) eqn:Hs; [|done]. intros [= <- <- <- <-]. cbn. destruct Hns as [Hns|]; [|done].
    destruct (Hfin s []) with (t' := sentFin s) as (F1 & F2 & F3 & F4); try done; rewrite ?app_nil_r in *; try done.
    { exists (default [] (dataForWriting s)). apply Hok. }
    { by rewrite Hs. }
    split; [done|]. split; [done|]. split; [done|]. split; [done|]. split; [done|]. split; [done|].
    split; [by rewrite F4|]. split; [intros _; by apply F4|done].
  - assert (0 < max' ∧ max' ≤ maxLen ∧ max' ≤ window)%Z as (Hp & Hle & Hlw).
    { unfold max' in *. split_and!; [|lia|lia]. assert (0 ≤ window)%Z; [|lia]. unfold window, SendWindowSize.
      destruct (getFlowController fc (s_streamID s)) as [c|]; [|done]. unfold fc_SendWindowSize. cbv zeta.
      destruct (contributesToConnection c); repeat case_decide; try lia; repeat match goal with |- context [u64 ?z] => pose proof (u64_range z); generalize dependent (u64 z); intros end; lia. }
    destruct (getDataForWriting_ok W A s max' Hok HA Hp Hl) as (t & d & E & Hd & Hz & Ht & Hid & Hns & Hns' & Hpre).
    rewrite E. intros Hr. assert (Some (if shouldSendFin t then sentFin t else t, Some d, shouldSendFin t, window) = Some (s', data, fin, win)) as Hr'
      by (by destruct (shouldSendFin t)). injection Hr' as <- <- <- Hw. cbn.
    destruct (Hfin t d Ht Hid Hns' Hpre _ eq_refl) as (F1 & F2 & F3 & F4).
    split; [done|]. split; [done|]. split; [lia|]. split; [done|]. split; [done|]. split; [done|]. split; [done|]. split; [done|].
    intros _. subst win. unfold window in *. destruct (SendWindowSize cp fc (s_streamID s)) as [n|]; [split; [done|lia]|lia].
Qed.

(** * What is known of the frames *)

(** Frames that were handed out ([out]) and that wait in the queue carry the bytes taken from the
    streams, and every such byte was handed out; a FIN is at the end of what the application wrote.  All of it
    is of streams in [L], the ones ever opened. *)
Record framing_ok (L : Z → Prop) (W A : Z → list byte) (out queue : list StreamFrame) (ss : gmap Z stream) : Prop := {
  fo_sent f : f ∈ out ++ queue → sent_frame (W (StreamID f)) f;
  fo_fin f : f ∈ out ++ queue → FinBit f = true →
    W (StreamID f) = A (StreamID f) ∧ ∀ s, ss !! StreamID f = Some s → finSent s = true;
  fo_streams id s : ss !! id = Some s → s_streamID s = id ∧ write_ok (W id) (A id) s;
  fo_prefix id : W id `prefix_of` A id;
  fo_cover id p : (0 ≤ p < zlen (W id))%Z → ∃ f, f ∈ out ∧ StreamID f = id ∧ has_byte f p;
  fo_live f : f ∈ out ++ queue → L (StreamID f);
  fo_open id : is_Some (ss !! id) → L id
}.

Lemma sent_frame_app W d f : sent_frame W f → FinBit f = false → sent_frame (W ++ d) f.
Proof.
  intros [[[H1 H2 H3 H4] H5] H6] Hf. pose proof (zlen_nonneg d). pose proof (zlen_nonneg (SData f)).
  assert (DataLen f ≠ 0%Z) as Hz by (intros Hz; by rewrite H5 in Hf).
  split; [|by rewrite Hf]. split; [|done]. split; [done|rewrite zlen_app; lia| |done].
  rewrite H3 at 1. unfold DataLen, zlen in *. rewrite drop_app_le by lia. rewrite take_app_le; [done|].
  rewrite length_drop. lia.
Qed.

Lemma emit L W A out queue ss id s s' d fin :
  framing_ok L W A out queue ss → ss !! id = Some s → write_ok (W id ++ d) (A id) s' → s_streamID s' = id →
  (d = [] → fin = true) → finSent s = false → finSent s' = fin → (W id ++ d) `prefix_of` A id →
  (fin = true → W id ++ d = A id) → ∀ present,
  let f := {| StreamID := id; FinBit := fin; DataLenPresent := present; Offset := zlen (W id); SData := d |} in
  framing_ok L (λ x, if decide (x = id) then W id ++ d else W x) A (out ++ [f]) queue (<[id := s']> ss).
Proof.
  intros [H1 H2 H3 H4 H5 H6 H7] Hs Hok Hid Hd Hns Hns' Hpre Hfin present f. pose proof (zlen_nonneg d).
  pose proof (zlen_nonneg (W id)).
  assert (∀ g, g ∈ out ++ queue → StreamID g = id → FinBit g = false) as Hnofin.
  { intros g Hg Eg. destruct (FinBit g) eqn:Hf; [|done]. destruct (H2 g Hg Hf) as [_ Hx]. rewrite Eg in Hx.
    rewrite (Hx s Hs) in Hns. done. }
  assert (∀ g, g ∈ (out ++ [f]) ++ queue → g = f ∨ g ∈ out ++ queue) as Hin.
  { intros g. rewrite !elem_of_app, list_elem_of_singleton. tauto. }
  split.
  - intros g [->|Hg]%Hin.
    + cbn [StreamID f]. rewrite decide_True by done. split; [split; [split|]|]; unfold f, DataLen; cbn.
      * done.
      * by rewrite zlen_app.
      * unfold zlen. rewrite !Nat2Z.id, drop_app_length. by rewrite firstn_all.
      * intros Hz. rewrite zlen_app. lia.
      * intros Hz. apply Hd. by destruct d; [|unfold zlen in Hz; cbn in Hz; lia].
      * intros _. by rewrite zlen_app.
    + case_decide as Eg; [|by apply H1]. rewrite <-Eg. apply sent_frame_app; [by apply H1|by apply Hnofin].
  - intros g [->|Hg]%Hin Hf.
    + cbn in *. rewrite decide_True by done. split; [by apply Hfin|]. intros t. rewrite lookup_insert_eq. intros [= <-]. congruence.
    + case_decide as Eg; [rewrite Hnofin in Hf by done; done|]. rewrite lookup_insert_ne by done. by apply H2.
  - intros x t [[<- <-]|[Hx Ht]]%lookup_insert_Some; [rewrite decide_True by done; done|].
    rewrite decide_False by done. by apply H3.
  - intros x. case_decide as Ex; [by subst x|done].
  - intros x p Hp. case_decide as Ex.
    + subst x. rewrite zlen_app in Hp. destruct (decide (p < zlen (W id))%Z) as [Hlt|Hge].
      * destruct (H5 id p ltac:(lia)) as (g & Hg & ? & ?). exists g. rewrite elem_of_app. split; [by left|done].
      * exists f. rewrite elem_of_app, list_elem_of_singleton. split; [by right|]. split; [done|]. unfold has_byte, DataLen, f. cbn. lia.
    + destruct (H5 x p Hp) as (g & Hg & ? & ?). exists g. rewrite elem_of_app. split; [by left|done].
  - intros g [->|Hg]%Hin; [|by apply H6]. apply H7. by eexists.
  - intros x. destruct (decide (x = id)) as [->|]; [intros _; apply H7; by eexists|]. rewrite lookup_insert_ne by done. apply H7.
Qed.

(** ** Lengths *)

Definition frame_len (f : StreamFrame) : Z := (stream_MinLength f + DataLen f)%Z.
Definition frames_len (fs : list StreamFrame) : Z := foldr (λ f n, frame_len f + n)%Z 0%Z fs.

Lemma frames_len_app fs gs : frames_len (fs ++ gs) = (frames_len fs + frames_len gs)%Z.
Proof. induction fs as [|f fs IH]; cbn; [done|]. fold (frames_len (fs ++ gs)) (frames_len fs). lia. Qed.
Lemma frames_len_snoc fs f : frames_len (fs ++ [f]) = (frames_len fs + frame_len f)%Z.
Proof. rewrite frames_len_app. cbn. lia. Qed.

Lemma MinLength_bounds f : (2 ≤ stream_MinLength f ≤ 15)%Z.
Proof.
  unfold stream_MinLength, calculateStreamIDLength, getOffsetLength. cbv zeta.
  destruct (DataLenPresent f); repeat case_decide; vm_compute; split; discriminate.
Qed.

(** ** New data *)

(** The state of the callback: what it took keeps to the windows and fits. *)
Record pop_ok (L : Z → Prop) (cp : ConnectionParameters) (fc : flowControlManager) (A : Z → list byte) (out queue : list StreamFrame) (maxBytes : Z)
    (ss : gmap Z stream) (w : popping) : Prop := {
  pk_framing : ∃ W, framing_ok L W A (out ++ po_res w) queue ss;
  pk_len : po_len w = frames_len (po_res w);
  pk_fits : (0 ≤ po_len w ≤ maxBytes)%Z;
  pk_flow : send_params_ok cp → all_within cp fc → all_within cp (po_flow w);
  pk_present : Forall (λ f, DataLenPresent f = true) (po_res w)
}.

Lemma SendWindowSize_nonneg cp fc id n : SendWindowSize cp fc id = Ok n → (0 ≤ n)%Z.
Proof.
  unfold SendWindowSize. destruct (getFlowController fc id) as [c|]; [|done]. intros [= <-].
  assert (∀ c, 0 ≤ fc_SendWindowSize cp c)%Z as Hw.
  { intros c'. unfold fc_SendWindowSize. cbv zeta. case_decide; [lia|]. apply u64_range. }
  pose proof (Hw c). pose proof (Hw (connFlowController fc)). destruct (contributesToConnection c); lia.
Qed.

Lemma AddBytesSent_within cp (Hcp : send_params_ok cp) fc id n :
  all_within cp fc → (0 ≤ n)%Z → (n = 0 ∨ ∃ win, SendWindowSize cp fc id = Ok win ∧ n ≤ win)%Z →
  all_within cp (AddBytesSent fc id n).1.
Proof.
  intros Hfc Hn Hwin. pose proof (send_step_within cp Hcp fc (SSend id n) Hfc Hn) as Hs. cbn [send_step] in Hs.
  destruct (SendWindowSize cp fc id) as [win|e] eqn:Ew.
  - pose proof (SendWindowSize_nonneg _ _ _ _ Ew). rewrite decide_True in Hs; [done|].
    destruct Hwin as [->|(? & [= <-] & ?)]; lia.
  - unfold AddBytesSent, on_both. unfold SendWindowSize in Ew. by destruct (getFlowController fc id).
Qed.

Lemma AddBytesRetrans_within cp fc id n : all_within cp fc → all_within cp (AddBytesRetrans fc id n).1.
Proof.
  intros [Hs Hc]. unfold AddBytesRetrans, on_both, getFlowController.
  destruct (streamFlowController fc !! id) as [c|] eqn:Hid; [|done].
  assert (∀ c, send_within cp c → send_within cp (fc_AddBytesRetrans c n)) as Hw by (intros c'; by unfold send_within, allowance).
  cbn. destruct (contributesToConnection c); (split; [apply map_Forall_insert_2; [by apply Hw, (Hs id)|done]|]); [by apply Hw|done].
Qed.

Lemma pop_frame_on_stream cp maxBytes : on_stream_only (pop_frame cp maxBytes).
Proof.
  intros m w id s Hs. unfold pop_frame.
  assert (∀ c : bool, ∃ (s' : stream) (w' : popping) (c' : bool), (m, w, (c, @None StreamsMapError)) =
    (set_streams m (<[id := s']> (streams m)) (openStreams m) (roundRobinIndex m), w', (c', None))) as Hsame.
  { intros c. exists s, w, c. rewrite insert_id by done. by destruct m. }
  case_decide; [apply Hsame|]. case_decide; [apply Hsame|].
  destruct (take_data _ _ _ _) as [[[[s' data] fin] win]|]; [|apply Hsame]. by eexists _, _, _.
Qed.

(** The header of a frame does not depend on its data or FIN. *)
Lemma frame_len_header f g :
  StreamID f = StreamID g → Offset f = Offset g → DataLenPresent f = DataLenPresent g →
  frame_len f = (stream_MinLength g + DataLen f)%Z.
Proof.
  intros E1 E2 E3. unfold frame_len, stream_MinLength, calculateStreamIDLength, getOffsetLength. by rewrite E1, E2, E3.
Qed.

Lemma pop_frame_ok L cp fc A out queue maxBytes m w id s :
  (maxBytes < 2 ^ 63)%Z → (∀ id, zlen (A id) < 2 ^ 64)%Z → streams m !! id = Some s →
  pop_ok L cp fc A out queue maxBytes (streams m) w →
  pop_ok L cp fc A out queue maxBytes (streams (pop_frame cp maxBytes m w id s).1.1) (pop_frame cp maxBytes m w id s).1.2.
Proof.
  intros Hmax HA Hs Hok. unfold pop_frame. case_decide; [done|]. case_decide as Hroom; [done|].
  destruct (take_data _ _ _ _) as [[[[s' data] fin] win]|] eqn:Htake; [|done].
  cbn [fst snd streams set_streams StreamID FinBit Offset].
  destruct Hok as [[W HW] Hlen Hfits Hflow Hpres]. destruct (fo_streams _ _ _ _ _ _ HW id s Hs) as [Hid Hw].
  pose proof (MinLength_bounds (frame_at_offset s)) as Hh. set (h := stream_MinLength (frame_at_offset s)) in *.
  rewrite u64_small in Hroom by lia. rewrite (u64_small (maxBytes - _)) in Htake by lia.
  rewrite u64_small in Htake by lia.
  assert (0 ≤ maxBytes - po_len w - h)%Z as Hroom' by lia.
  destruct (take_data_ok _ _ _ _ _ _ _ _ _ _ Hw (HA id) Hroom' Htake) as (T1 & T2 & T3 & T4 & T5 & T6 & T7 & T8 & T9). set (d := default [] data) in *.
  pose proof (zlen_nonneg d). unfold DataLen. cbn [SData]. rewrite (u64_small (h + _)), (u64_small (po_len w + _)) by lia.
  set (f := {| StreamID := StreamID (frame_at_offset s); FinBit := fin; DataLenPresent := true; Offset := Offset (frame_at_offset s); SData := d |}).
  assert (frame_len f = h + zlen d)%Z as Hf by (by apply frame_len_header).
  split; cbn [po_flow po_blocked po_res po_len].
  - exists (λ x, if decide (x = id) then W id ++ d else W x). rewrite app_assoc. unfold f.
    change (StreamID (frame_at_offset s)) with (s_streamID s). change (Offset (frame_at_offset s)) with (writeOffset s).
    rewrite Hid, (wr_off _ _ _ Hw). eapply emit; try done. by rewrite T2.
  - rewrite frames_len_snoc, Hf, Hlen. lia.
  - lia.
  - intros Hcp Hfc. apply AddBytesSent_within; [done|by apply Hflow|done|]. destruct (decide (d = [])) as [->|Hd]; [by left|right].
    exists win. rewrite T2. by apply T9.
  - apply Forall_app. by split; [|constructor].
Qed.

Lemma maybePopNormalFrames_ok L cp W A out f m fc maxBytes :
  listed m → (zlen (openStreams m) < 2 ^ 31)%Z → (0 ≤ maxBytes < 2 ^ 63)%Z → (∀ id, zlen (A id) < 2 ^ 64)%Z →
  framing_ok L W A out (retransmissionQueue f) (streams m) →
  ∃ f' m' fc' res W', maybePopNormalFrames cp f m fc maxBytes = Some (f', m', fc', res) ∧
    retransmissionQueue f' = retransmissionQueue f ∧ iterated m m' ∧
    framing_ok L W' A (out ++ res) (retransmissionQueue f) (streams m') ∧ (send_params_ok cp → all_within cp fc → all_within cp fc') ∧
    (frames_len res ≤ maxBytes)%Z ∧ Forall (λ f, DataLenPresent f = true) res.
Proof.
  intros Hm Hl Hmax HA HW. unfold maybePopNormalFrames.
  destruct (RoundRobinIterate_inv (pop_frame cp maxBytes) (pop_ok L cp fc A out (retransmissionQueue f) maxBytes)
    (pop_frame_on_stream cp maxBytes)) with (m := m)
    (w := {| po_flow := fc; po_blocked := blockedFrameQueue f; po_res := []; po_len := 0 |})
    as (m' & w' & -> & Hit & [[W' HW'] Hlen Hfits Hflow Hpres]); [|done|done| |].
  - intros m1 w1 id s Hs. apply pop_frame_ok; try done. lia.
  - split; cbn; [exists W; by rewrite app_nil_r|done|lia|done|constructor].
  - eexists _, m', _, _, W'. cbn. split; [done|]. split; [done|]. split; [done|]. split; [done|]. split; [done|].
    split; [lia|done].
Qed.

(** ** Retransmissions *)

(** What a frame carries: its bytes, each with its position on the stream, and its FIN. *)
Definition content (f : StreamFrame) : list (Z * Z * option byte) :=
  imap (λ i b, (StreamID f, Offset f + Z.of_nat i, Some b)%Z) (SData f) ++
  if FinBit f then [(StreamID f, Offset f + DataLen f, None)%Z] else [].
Definition contents (fs : list StreamFrame) : list (Z * Z * option byte) := concat (content <$> fs).

Lemma contents_app fs gs : contents (fs ++ gs) = contents fs ++ contents gs.
Proof. unfold contents. by rewrite fmap_app, concat_app. Qed.
Lemma contents_cons f fs : contents (f :: fs) = content f ++ contents fs.
Proof. done. Qed.

Definition offset_ok (f : StreamFrame) : Prop := (0 ≤ Offset f ∧ Offset f + DataLen f < 2 ^ 64)%Z.

Lemma split_frame f n g r :
  offset_ok f → (0 ≤ n)%Z → maybeSplitOffFrame f n = Some (g, r) →
  content g ++ content r = content f ∧ DataLen g = n ∧ offset_ok r ∧ DataLenPresent g = DataLenPresent f ∧
  frame_len g = (stream_MinLength f + n)%Z.
Proof.
  intros [Ho Hend] Hn. unfold maybeSplitOffFrame. case_decide as Hd; [done|]. intros [= <- <-].
  assert (zlen (take (Z.to_nat n) (SData f)) = n) as Hz by (unfold DataLen in *; rewrite zlen_take; lia).
  unfold DataLen in Hd. rewrite u64_small by (unfold DataLen in *; lia).
  split; [|split; [done|split; [unfold offset_ok, DataLen in *; cbn [Offset SData]; rewrite zlen_drop; lia|split; [done|]]]].
  - unfold content. cbn. rewrite app_nil_r, app_assoc. f_equal.
    + rewrite <-(take_drop (Z.to_nat n) (SData f)) at 3. rewrite imap_app. f_equal. apply imap_ext. intros i x Hx. cbn.
      do 2 f_equal. unfold zlen in Hz. rewrite <-Hz at 1. lia.
    + destruct (FinBit f); [|done]. unfold DataLen in *. cbn.
      replace (Offset f + n + zlen (drop (Z.to_nat n) (SData f)))%Z with (Offset f + zlen (SData f))%Z; [done|rewrite zlen_drop; lia].
  - rewrite (frame_len_header _ f) by done. unfold DataLen. cbn. by rewrite Hz.
Qed.

Lemma pop_retransmissions_ok q fc maxLen cur res :
  Forall offset_ok q → (0 ≤ cur)%Z → (maxLen < 2 ^ 63)%Z → (cur ≤ maxLen)%Z → cur = frames_len res →
  let '(q', fc', res', cur') := pop_retransmissions q fc maxLen cur res in
  contents res' ++ contents q' = contents res ++ contents q ∧ Forall offset_ok q' ∧
  cur' = frames_len res' ∧ (cur ≤ cur' ≤ maxLen)%Z ∧
  (∀ Q : StreamFrame → Prop,
     (∀ f b, Q f → Q (with_DataLen f b)) →
     (∀ f n g r, Q f → (0 < n)%Z → maybeSplitOffFrame f n = Some (g, r) → Q g ∧ Q r) →
     Forall Q q → Forall Q res → Forall Q q' ∧ Forall Q res') ∧
  (Forall (λ f, DataLenPresent f = true) res → Forall (λ f, DataLenPresent f = true) res') ∧
  (∀ cp, all_within cp fc → all_within cp fc') ∧
  res `prefix_of` res' ∧
  match q with
  | f :: _ => (cur + stream_MinLength (with_DataLen f true) < maxLen)%Z → res' ≠ res
  | [] => True
  end.
Proof.
  revert fc cur res. induction q as [|f q IH]; intros fc cur res Hq Hcur Hmax Hle Hlen; cbn [pop_retransmissions].
  { split; [done|]. split; [done|]. split; [done|]. split; [lia|]. split; [by intros|]. split; [done|]. split; [done|]. done. }
  apply Forall_cons in Hq as [Hf Hq]. set (f1 := with_DataLen f true).
  pose proof (MinLength_bounds f1) as Hh. set (h := stream_MinLength f1) in *. rewrite (u64_small (cur + h)) by lia.
  assert (offset_ok f1) as Hf1 by done. assert (content f1 = content f) as Hcf by done.
  case_decide as Hroom.
  { split; [by rewrite !contents_cons, Hcf|]. split; [by constructor|]. split; [done|]. split; [lia|].
    split; [intros Q Hb _ [H1 H2]%Forall_cons Hres; split; [constructor; [by apply Hb|done]|done]|].
    split; [done|]. split; [done|]. split; [done|]. intros Hx. exfalso. fold f1 h in Hx. lia. }
  rewrite (u64_small (maxLen - _)) by lia.
  destruct (maybeSplitOffFrame f1 (maxLen - (cur + h))) as [[g r]|] eqn:Hsplit.
  - destruct (split_frame f1 (maxLen - (cur + h)) g r Hf1 ltac:(lia) Hsplit) as (Hc & Hg & Hr & Hp & Hgl). fold h in Hgl.
    rewrite Hg, u64_small by lia.
    split; [by rewrite contents_app, !contents_cons, <-Hcf, <-Hc, <-!app_assoc|].
    split; [by constructor|]. split; [rewrite frames_len_snoc, Hgl, Hlen; lia|]. split; [lia|].
    split.
    { intros Q Hb Hs [H1 H2]%Forall_cons Hres. destruct (Hs f1 (maxLen - (cur + h))%Z g r (Hb _ _ H1) ltac:(lia) Hsplit) as [Qg Qr].
      split; [by constructor|]. apply Forall_app. by split; [|constructor]. }
    split; [intros; apply Forall_app; split; [done|constructor; [by rewrite Hp|constructor]]|].
    split; [intros cp; apply AddBytesRetrans_within|].
    split; [by exists [g]|]. intros _ E. apply (f_equal length) in E. rewrite length_app in E. cbn in E. lia.
  - assert (DataLen f1 ≤ maxLen - (cur + h))%Z as Hd.
    { unfold maybeSplitOffFrame in Hsplit. by case_decide. }
    pose proof (zlen_nonneg (SData f1)). fold (DataLen f1) in *. rewrite u64_small by lia.
    specialize (IH (AddBytesRetrans fc (StreamID f1) (DataLen f1)).1 (cur + h + DataLen f1)%Z (res ++ [f1]) Hq
      ltac:(lia) Hmax ltac:(lia)).
    destruct (pop_retransmissions _ _ _ _ _) as [[[q' fc'] res'] cur'].
    destruct IH as (I1 & I2 & I3 & I4 & I5 & I6 & I7 & I8 & I9).
    { rewrite frames_len_snoc, Hlen. unfold frame_len. fold h. lia. }
    split; [by rewrite I1, contents_app, !contents_cons, <-Hcf, <-!app_assoc|].
    split; [done|]. split; [done|]. split; [lia|].
    split.
    { intros Q Hb Hs [H1 H2]%Forall_cons Hres. apply I5; [done..|]. apply Forall_app. split; [done|]. constructor; [by apply Hb|done]. }
    split; [intros; apply I6, Forall_app; split; [done|by constructor]|].
    split; [intros cp Hc; by apply I7, AddBytesRetrans_within|].
    split; [etransitivity; [|exact I8]; by exists [f1]|].
    intros _ E. apply prefix_length in I8. rewrite E, length_app in I8. cbn in I8. lia.
Qed.

(** ** What a cut or a change of the length flag leaves *)

Lemma sent_frame_flag W f b : sent_frame W f → sent_frame W (with_DataLen f b).
Proof. intros [[[] ?] ?]. by repeat split. Qed.

Lemma sent_frame_split W f n g r :
  (zlen W < 2 ^ 64)%Z → sent_frame W f → (0 < n)%Z → maybeSplitOffFrame f n = Some (g, r) → sent_frame W g ∧ sent_frame W r.
Proof.
  intros HW [[[H1 H2 H3 H4] H5] H6] Hn. unfold maybeSplitOffFrame. case_decide as Hd; [done|]. intros [= <- <-].
  assert (zlen (take (Z.to_nat n) (SData f)) = n) as Hz by (unfold DataLen in *; rewrite zlen_take; lia).
  assert (zlen (drop (Z.to_nat n) (SData f)) = DataLen f - n)%Z as Hr by (unfold DataLen in *; rewrite zlen_drop; lia).
  rewrite u64_small by lia. split; (split; [split; [split|]|]); cbn [Offset SData FinBit]; unfold DataLen; cbn [SData]; rewrite ?Hz, ?Hr.
  all: try lia; try done.
  - rewrite H3, take_take. f_equal. lia.
  - rewrite H3 at 1. rewrite skipn_firstn_comm, drop_drop. f_equal; [lia|f_equal; lia].
  - intros Hf. specialize (H6 Hf). lia.
Qed.

Lemma framing_ok_queue L W A out queue ss res queue' :
  framing_ok L W A out queue ss → (∀ id, zlen (A id) < 2 ^ 64)%Z →
  (∀ Q : StreamFrame → Prop,
     (∀ f b, Q f → Q (with_DataLen f b)) →
     (∀ f n g r, Q f → (0 < n)%Z → maybeSplitOffFrame f n = Some (g, r) → Q g ∧ Q r) →
     Forall Q queue → Forall Q queue' ∧ Forall Q res) →
  framing_ok L W A (out ++ res) queue' ss.
Proof.
  intros [H1 H2 H3 H4 H5 H6 H7] HA Hmove.
  set (Q f := sent_frame (W (StreamID f)) f ∧ (FinBit f = true →
    W (StreamID f) = A (StreamID f) ∧ ∀ s, ss !! StreamID f = Some s → finSent s = true) ∧ L (StreamID f)).
  assert (∀ f, f ∈ out ++ queue → Q f) as HQ by (intros f Hf; split; [by apply H1|split; [by apply H2|by apply H6]]).
  destruct (Hmove Q) as [Hq' Hres].
  - intros f b [Hs Hfin]. split; [by apply sent_frame_flag|done].
  - intros f n g r (Hs & Hfin & HL) Hn Hsplit. pose proof (H4 (StreamID f)) as Hlen%prefix_length. specialize (HA (StreamID f)).
    destruct (sent_frame_split (W (StreamID f)) f n g r) as [Hg Hr]; [unfold zlen in *; lia|done..|].
    unfold maybeSplitOffFrame in Hsplit. case_decide; [done|]. injection Hsplit as <- <-. split; (split; [done|by split]).
  - apply Forall_forall. intros f Hf. apply HQ. apply elem_of_app. by right.
  - rewrite Forall_forall in Hq', Hres.
    assert (∀ f, f ∈ (out ++ res) ++ queue' → Q f) as HQ'.
    { intros f. rewrite !elem_of_app. intros [[Hf|Hf]|Hf]; [apply HQ, elem_of_app; by left|by apply Hres|by apply Hq']. }
    split; [intros f Hf; by apply HQ'|intros f Hf; by apply HQ'|done|done| |intros f Hf; by apply HQ'|done].
    intros id p Hp. destruct (H5 id p Hp) as (f & Hf & ? & ?). exists f. split; [apply elem_of_app; by left|done].
Qed.

(** * A packet's worth of frames *)

Lemma listed_ok m : sm_ok m → listed m.
Proof. intros []. by split. Qed.

Lemma sent_offset_ok W f : sent_frame W f → (zlen W < 2 ^ 64)%Z → offset_ok f.
Proof. intros [[[? ?] ?] ?] ?. split; lia. Qed.

Lemma PopStreamFrames_ok L cp W A out f m fc maxLen :
  sm_ok m → (zlen (openStreams m) < 2 ^ 31)%Z → (0 ≤ maxLen < 2 ^ 63)%Z → (∀ id, zlen (A id) < 2 ^ 64)%Z →
  framing_ok L W A out (retransmissionQueue f) (streams m) →
  ∃ f' m' fc' res more W', PopStreamFrames cp f m fc maxLen = Some (f', m', fc', res ++ more) ∧ iterated m m' ∧
    framing_ok L W' A (out ++ res ++ more) (retransmissionQueue f') (streams m') ∧
    (send_params_ok cp → all_within cp fc → all_within cp fc') ∧ (frames_len (res ++ more) ≤ maxLen)%Z ∧
    Forall (λ f, DataLenPresent f = true) (res ++ more) ∧
    contents res ++ contents (retransmissionQueue f') = contents (retransmissionQueue f) ∧
    match retransmissionQueue f with
    | g :: _ => (stream_MinLength (with_DataLen g true) < maxLen)%Z → res ≠ []
    | [] => True
    end.
Proof.
  intros Hm Hl Hmax HA HW. unfold PopStreamFrames, maybePopFramesForRetransmission.
  assert (Forall offset_ok (retransmissionQueue f)) as Hoff.
  { apply Forall_forall. intros g Hg. pose proof (fo_prefix _ _ _ _ _ _ HW (StreamID g)) as Hp%prefix_length.
    specialize (HA (StreamID g)). eapply sent_offset_ok; [eapply (fo_sent _ _ _ _ _ _ HW); apply elem_of_app; by right|].
    unfold zlen in *. lia. }
  pose proof (pop_retransmissions_ok (retransmissionQueue f) fc maxLen 0 [] Hoff ltac:(lia) ltac:(lia) ltac:(lia) eq_refl) as Hpop.
  destruct (pop_retransmissions _ _ _ _ _) as [[[q' fc1] res] cur].
  destruct Hpop as (P1 & P2 & P3 & P4 & P5 & P6 & P7 & P8 & P9).
  rewrite u64_small by lia.
  destruct (maybePopNormalFrames_ok L cp W A (out ++ res) (set_retransmission f q') m fc1 (maxLen - cur))
    as (f' & m' & fc' & more & W' & -> & Hq & Hit & HW' & Hfc & Hfl & Hpr).
  { by apply listed_ok. } { done. } { lia. } { done. }
  { eapply framing_ok_queue; [done|done|]. intros Q Hb Hs HQ. by apply P5. }
  cbn [mbind option_bind].
  exists f', m', fc', res, more, W'. split; [done|]. split; [done|]. rewrite Hq. cbn [retransmissionQueue set_retransmission].
  split; [by rewrite app_assoc|]. split; [intros; apply Hfc; [done|by apply P7]|].
  split; [rewrite frames_len_app; lia|]. split; [apply Forall_app; split; [by apply P6|done]|].
  split; [exact P1|]. destruct (retransmissionQueue f); [done|]. intros Hroom. apply P9. lia.
Qed.

(** * A sender: streams, framer and flow control together *)

(** [se_out] are the frames handed out so far, [se_accepted] what the application wrote on each stream. *)
Record sender : Type := {
  se_map : streamsMap; se_flow : flowControlManager; se_framer : streamFramer;
  se_out : list StreamFrame; se_accepted : gmap Z (list byte)
}.
Definition new_sender (pers : Perspective) (fc : flowControlManager) : sender := {|
  se_map := newStreamsMap pers; se_flow := fc; se_framer := newStreamFramer; se_out := []; se_accepted := ∅
|}.
Definition accepted (st : sender) (id : Z) : list byte := default [] (se_accepted st !! id).

(** A [Write] that waits replaces what an earlier one, whose deadline passed, left unsent. *)
Definition accept (m : streamsMap) (acc : gmap Z (list byte)) (o : sm_op) : gmap Z (list byte) :=
  match o with
  | OpStream id o =>
      match streams m !! id with
      | Some s =>
          match accepted_data s o with
          | Some p => <[id := take (Z.to_nat (writeOffset s)) (default [] (acc !! id)) ++ p]> acc
          | None => acc
          end
      | None => acc
      end
  | _ => acc
  end.

(** Any step of the streams and their map but the framer's; a frame handed out is lost and queued again;
    frames are popped; the peer opens a window; control frames are queued and taken. *)
Inductive sender_op : Type :=
| OpMap (o : sm_op)
| OpLost (i : nat) (present : bool)
| OpPop (maxLen : Z)
| OpPopCrypto (limit maxLen : Z)
| OpWindow (id offset : Z)
| OpControl (blocked : list BlockedFrame) (addresses : list AddAddressFrame) (closed : list ClosePathFrame) (paths : option PathsFrame).

Definition sender_step (cp : ConnectionParameters) (st : sender) (o : sender_op) : option sender :=
  match o with
  | OpMap o =>
      '(m, fc) ← sm_step cp (se_map st, se_flow st) o;
      Some {| se_map := m; se_flow := fc; se_framer := se_framer st; se_out := se_out st;
              se_accepted := accept (se_map st) (se_accepted st) o |}
  | OpLost i present =>
      let framer := match se_out st !! i with
                    | Some f => AddFrameForRetransmission (se_framer st) (with_DataLen f present)
                    | None => se_framer st
                    end in
      Some {| se_map := se_map st; se_flow := se_flow st; se_framer := framer; se_out := se_out st;
              se_accepted := se_accepted st |}
  | OpPop maxLen =>
      '(framer, m, fc, fs) ← PopStreamFrames cp (se_framer st) (se_map st) (se_flow st) maxLen;
      Some {| se_map := m; se_flow := fc; se_framer := framer; se_out := se_out st ++ fs; se_accepted := se_accepted st |}
  | OpPopCrypto limit maxLen =>
      '(m, fc, r) ← PopCryptoStreamFrame cp limit (se_map st) (se_flow st) maxLen;
      Some {| se_map := m; se_flow := fc; se_framer := se_framer st; se_out := se_out st ++ option_list r;
              se_accepted := se_accepted st |}
  | OpWindow id offset =>
      Some {| se_map := se_map st; se_flow := (UpdateWindow (se_flow st) id offset).1; se_framer := se_framer st;
              se_out := se_out st; se_accepted := se_accepted st |}
  | OpControl blocked addresses closed paths =>
      Some {| se_map := se_map st; se_flow := se_flow st; se_framer := set_control (se_framer st) blocked addresses closed paths;
              se_out := se_out st; se_accepted := se_accepted st |}
  end.
Definition sender_run (cp : ConnectionParameters) (st : sender) (os : list sender_op) : option sender :=
  foldl (λ st o, st ← st; sender_step cp st o) (Some st) os.

(** Stream IDs below 2 ^ 30, packets that have room for a header. *)
Definition max_ids : Z := 2 ^ 30.
Definition sender_op_ok (o : sender_op) : Prop :=
  match o with
  | OpMap o => ids_below max_ids o ∧ match o with OpStream _ o => framer_step_of o = false | _ => True end
  | OpPop maxLen => (0 ≤ maxLen < 2 ^ 63)%Z
  | OpPopCrypto limit maxLen => (limit < 2 ^ 32 ∧ 15 < maxLen < 2 ^ 63)%Z
  | _ => True
  end.
Definition op_bytes (o : sender_op) : Z :=
  match o with OpMap (OpStream _ (OpWrite p)) => zlen p | _ => 0%Z end.
Definition written_bytes (os : list sender_op) : Z := foldr (λ o n, op_bytes o + n)%Z 0%Z os.

(** The invariant after [k] steps that wrote at most [B] bytes. *)
Record sender_ok (k B : Z) (st : sender) : Prop := {
  sd_map : sm_ok (se_map st);
  sd_next : (nextStream (se_map st) ≤ 2 + 2 * k)%Z;
  sd_highest : (highestStreamOpenedByPeer (se_map st) < max_ids)%Z;
  sd_framing : ∃ W, framing_ok (opened (se_map st)) W (accepted st) (se_out st) (retransmissionQueue (se_framer st)) (streams (se_map st));
  sd_bytes id : (zlen (accepted st id) ≤ B)%Z;
  sd_fresh id : ¬ opened (se_map st) id → accepted st id = []
}.

Lemma sender_ok_new pers fc : sender_ok 0 0 (new_sender pers fc).
Proof.
  split; try done; [apply sm_ok_new|by destruct pers|exists (λ _, [])].
  split; cbn.
  - by intros f ?%not_elem_of_nil.
  - by intros f ?%not_elem_of_nil.
  - done.
  - done.
  - intros id p Hp. unfold zlen in Hp. cbn in Hp. lia.
  - by intros f ?%not_elem_of_nil.
  - by intros id [? ?].
Qed.

(** What an iteration leaves of the map. *)
Lemma iterated_opened m m' id : iterated m m' → opened m' id ↔ opened m id.
Proof. by intros (ss & i & -> & _). Qed.

Lemma sm_ok_framed L W A out queue m m' : sm_ok m → iterated m m' → framing_ok L W A out queue (streams m') → sm_ok m'.
Proof. intros Hm Hit HW. eapply sm_ok_iterated; [done| |done]. intros id s Hs. by apply (fo_streams _ _ _ _ _ _ HW). Qed.


Lemma sender_ok_weaken k B k' B' st : sender_ok k B st → (k ≤ k')%Z → (B ≤ B')%Z → sender_ok k' B' st.
Proof. intros [H1 H2 H3 H4 H5 H6] Hk HB. split; try done; [lia|]. intros id. specialize (H5 id). lia. Qed.

Lemma accepted_data_write s o p : accepted_data s o = Some p → o = OpWrite p.
Proof. destruct o; try done. cbn. by destruct (Write_start s p0) as [? [?|]]; intros [= ->]. Qed.

(** Of what the streams send, steps keep everything but for the data that [Write] adds. *)
Definition sends_ok (W A : Z → list byte) (known : list StreamFrame) (id : Z) (s : stream) : Prop :=
  s_streamID s = id ∧ write_ok (W id) (A id) s ∧
  ∀ f, f ∈ known → FinBit f = true → StreamID f = id → finSent s = true.

Lemma sends_new L W A out queue ss id : framing_ok L W A out queue ss → ¬ L id → A id = [] → sends_ok W A (out ++ queue) id (newStream id).
Proof.
  intros [H1 H2 H3 H4 H5 H6 H7] HL HA. pose proof (H4 id) as Hp. rewrite HA in Hp. apply prefix_nil_inv in Hp.
  split; [done|]. split; [rewrite HA, Hp; apply write_ok_new|]. intros f Hf _ <-. by destruct HL; apply H6.
Qed.

Lemma framing_streams L L' W A out queue ss ss' :
  framing_ok L W A out queue ss → (∀ id s, ss' !! id = Some s → sends_ok W A (out ++ queue) id s) →
  (∀ id, L id → L' id) → (∀ id, is_Some (ss' !! id) → L' id) → framing_ok L' W A out queue ss'.
Proof.
  intros [H1 H2 H3 H4 H5 H6 H7] Hss HL Hopen. split; try done.
  - intros f Hf Hfin. destruct (H2 f Hf Hfin) as [? _]. split; [done|]. intros s Hs. destruct (Hss _ _ Hs) as (_ & _ & Hx). by apply (Hx f).
  - intros id s Hs. destruct (Hss id s Hs) as (? & ? & _). done.
  - intros f Hf. by apply HL, H6.
Qed.

Lemma framing_sends L W A out queue ss id s : framing_ok L W A out queue ss → ss !! id = Some s → sends_ok W A (out ++ queue) id s.
Proof.
  intros [H1 H2 H3 H4 H5 H6 H7] Hs. destruct (H3 id s Hs) as [? ?]. split; [done|]. split; [done|].
  intros f Hf Hfin <-. by apply (H2 f Hf Hfin).
Qed.

(** Steps of the map other than those of a stream. *)
Lemma framing_other cp T m fc o m' fc' W A out queue :
  match o with OpStream _ _ => False | _ => True end →
  step_keeps T m m' → sm_ok m → sm_step cp (m, fc) o = Some (m', fc') → (∀ id, ¬ opened m id → A id = []) →
  framing_ok (opened m) W A out queue (streams m) → framing_ok (opened m') W A out queue (streams m').
Proof.
  intros Ho Hk Hm Hstep Hfresh Hfr. pose proof (so_dom _ Hm) as Hdom.
  assert (every (λ id s, is_Some (streams m !! id) ∨ ¬ opened m id → sends_ok W A (out ++ queue) id s) m') as HQ.
  { apply (every_step _ cp m fc o m' fc' Hstep).
    - intros id s Hs _. by eapply framing_sends.
    - intros id Hnew [[? ?]|Hc]; [congruence|]. apply (sends_new _ _ _ _ _ _ _ Hfr); [done|by apply Hfresh].
    - intros id s e Hs Hc. destruct (Hs Hc) as (Hid & Hw & Hf). pose proof (Cancel_writing s e) as [= E1 E2 E3 E4].
      split; [|split; [apply (write_ok_writing _ _ s); [apply Cancel_writing|done]|by rewrite E3]]. unfold Cancel. by rewrite set_err_id.
    - by destruct o. }
  pose proof (sk_ok _ _ _ Hk) as Hm'. eapply framing_streams; [exact Hfr| | |].
  - intros id s Hs. apply HQ; [done|]. destruct (decide (id ∈ openStreams m)) as [Hin|Hout]; [left; by apply Hdom|right].
    apply (sk_new _ _ _ Hk); [|done]. apply (so_dom _ Hm'). by eexists.
  - intros id. by eapply opened_mono.
  - intros id Hs. by apply (so_opened _ Hm'), (so_dom _ Hm').
Qed.

(** A step of a stream. *)
Lemma framing_stream m W A out queue id s s' (d : option (list byte)) m' :
  framing_ok (opened m) W A out queue (streams m) → streams m !! id = Some s → s_streamID s' = id →
  write_ok (W id) (default (A id) ((λ p, W id ++ p) <$> d)) s' → (finSent s = true → d = None ∧ finSent s' = true) →
  streams m' = <[id := s']> (streams m) → (∀ id, opened m id → opened m' id) →
  framing_ok (opened m') W (λ x, if decide (x = id) then default (A id) ((λ p, W id ++ p) <$> d) else A x) out queue (streams m').
Proof.
  intros Hfr Hs Hid Hw Hfin Hm' Hop. pose proof Hfr as [H1 H2 H3 H4 H5 H6 H7]. rewrite Hm'.
  assert (∀ f, f ∈ out ++ queue → FinBit f = true → StreamID f = id → d = None ∧ finSent s' = true) as Hknown.
  { intros f Hf Hb <-. apply Hfin. by apply (H2 f Hf Hb). }
  split; try done.
  - intros f Hf Hb. destruct (H2 f Hf Hb) as [E Hx]. case_decide as Ei.
    + destruct (Hknown f Hf Hb Ei) as [-> Hs']. rewrite <-Ei. split; [done|]. rewrite Ei. intros t. rewrite lookup_insert_eq.
      by intros [= <-].
    + split; [done|]. intros t. rewrite lookup_insert_ne by done. apply Hx.
  - intros x t [[<- <-]|[Hx Ht]]%lookup_insert_Some; [by rewrite decide_True|]. rewrite decide_False by done. by apply H3.
  - intros x. case_decide as Ex; [|done]. subst x. destruct d as [p|]; [cbn; by exists p|apply H4].
  - intros f Hf. by apply Hop, H6.
  - intros x Hx. apply Hop, H7. destruct (decide (x = id)) as [->|]; [by eexists|]. by rewrite lookup_insert_ne in Hx.
Qed.

Lemma max_ids_ok : (max_ids ≤ 2 ^ 32 - MaxNewStreamIDDelta)%Z.
Proof. unfold max_ids, MaxNewStreamIDDelta, MaxStreamsPerConnection. lia. Qed.

Lemma sender_open_bound k B st : sender_ok k B st → (0 ≤ k < 2 ^ 28)%Z → (zlen (openStreams (se_map st)) < 2 ^ 30)%Z.
Proof. intros [H1 H2 H3 _ _ _] Hk. apply open_bound; [lia|done|lia|done]. Qed.

Lemma map_step_ok cp k B st o m' fc' :
  sender_ok k B st → ids_below max_ids o → match o with OpStream _ o => framer_step_of o = false | _ => True end →
  (0 ≤ k < 2 ^ 28)%Z → sm_step cp (se_map st, se_flow st) o = Some (m', fc') →
  sender_ok (k + 1) (B + op_bytes (OpMap o)) {| se_map := m'; se_flow := fc'; se_framer := se_framer st; se_out := se_out st;
    se_accepted := accept (se_map st) (se_accepted st) o |}.
Proof.
  intros Hok Hids Hframer Hk Hstep. pose proof (sender_open_bound _ _ _ Hok Hk) as Hlen.
  pose proof Hok as [H1 H2 H3 [W HW] H5 H6].
  pose proof (sm_step_keeps max_ids max_ids_ok cp _ _ o m' fc' H1 Hids ltac:(lia) H3 ltac:(lia) Hstep) as Hkeep.
  pose proof Hkeep as [K1 K2 K3 K4 K5 K6].
  assert (∀ id, opened (se_map st) id → opened m' id) as Hmono by (intros id; by eapply opened_mono).
  assert (0 ≤ op_bytes (OpMap o))%Z as Hbytes by (destruct o as [| | | | |? []]; try done; apply zlen_nonneg).
  assert (accept (se_map st) (se_accepted st) o = se_accepted st →
    framing_ok (opened m') W (accepted st) (se_out st) (retransmissionQueue (se_framer st)) (streams m') →
    sender_ok (k + 1) (B + op_bytes (OpMap o)) {| se_map := m'; se_flow := fc'; se_framer := se_framer st;
      se_out := se_out st; se_accepted := accept (se_map st) (se_accepted st) o |}) as Hsame.
  { intros -> Hfr. split; cbn [se_map se_out se_framer]; [done|lia|lia|by exists W| |].
    - intros id. unfold accepted. cbn [se_accepted]. specialize (H5 id). unfold accepted in H5. lia.
    - intros id Hno. apply H6. auto. }
  destruct (match o with OpStream _ _ => true | _ => false end) eqn:Eo.
  2: { apply Hsame; [by destruct o|]. eapply framing_other; try done. by destruct o. }
  destruct o as [| | | | |id o]; try done. cbn [sm_step accept op_bytes] in *.
  destruct (streams (se_map st) !! id) as [s|] eqn:Hs; [|apply Hsame; [done|]; by injection Hstep as <- _].
  destruct (stream_step (se_flow st) s o) as [[[[f1 s1] d1]|e]|] eqn:Estep; [| |done].
  2: { injection Hstep as <- _. apply Hsame; [|done]. destruct (accepted_data s o) as [p|] eqn:Ep; [|done].
       apply accepted_data_write in Ep. by subst o. }
  injection Hstep as <- <-. destruct (fo_streams _ _ _ _ _ _ HW id s Hs) as [Hid Hw].
  destruct (write_ok_step _ _ _ _ _ _ _ _ Estep Hframer Hw) as [Hw' Hfin']. pose proof (stream_step_id _ _ _ _ _ _ Estep) as Hid'.
  set (m' := set_streams _ _ _ _) in *.
  pose proof (framing_stream (se_map st) W (accepted st) _ _ id s s1 (accepted_data s o) m' HW Hs ltac:(congruence) Hw' Hfin' eq_refl Hmono) as Hfr.
  destruct (accepted_data s o) as [p|] eqn:Ep.
  2: { apply Hsame; [done|]. cbn [default from_option fmap option_fmap option_map] in Hfr.
       destruct Hfr as [F1 F2 F3 F4 F5 F6 F7].
       assert (∀ x, (if decide (x = id) then accepted st id else accepted st x) = accepted st x) as EA by (intros x; by case_decide; subst).
       split; try done; intros; first [rewrite <-EA; by apply F2 | rewrite <-EA; by apply F3 | rewrite <-EA; apply F4 | idtac]. }
  apply accepted_data_write in Ep. subst o. cbn [op_bytes] in *.
  set (acc := <[id:=_]> (se_accepted st)).
  assert (∀ x, default [] (acc !! x) = if decide (x = id) then W id ++ p else accepted st x) as EA.
  { intros x. unfold acc. case_decide as Ex; [subst x; rewrite lookup_insert_eq|by rewrite lookup_insert_ne]. cbn.
    f_equal. rewrite (wr_off _ _ _ Hw). destruct (fo_prefix _ _ _ _ _ _ HW id) as [rest Er]. unfold accepted in Er. rewrite Er.
    unfold zlen. by rewrite Nat2Z.id, take_app_length. }
  split; cbn [se_map se_out se_framer]; [done|lia|lia| | |].
  - exists W. cbn in Hfr. destruct Hfr as [F1 F2 F3 F4 F5 F6 F7]. unfold accepted. cbn [se_accepted].
    split; try done; intros; rewrite ?EA; [by apply F2|by apply F3|apply F4].
  - intros x. unfold accepted. cbn [se_accepted]. rewrite EA. case_decide as Ex; [|specialize (H5 x); lia].
    rewrite zlen_app. specialize (H5 id). pose proof (fo_prefix _ _ _ _ _ _ HW id) as Hp%prefix_length. unfold zlen in *. lia.
  - intros x Hno. unfold accepted. cbn [se_accepted]. rewrite EA. case_decide as Ex; [|apply H6; auto].
    subst x. destruct Hno. apply Hmono, (so_opened _ H1), (so_dom _ H1). by eexists.
Qed.

(** ** The steps of the framer *)

Lemma lost_step_ok k B st i present f :
  sender_ok k B st → se_out st !! i = Some f →
  sender_ok k B {| se_map := se_map st; se_flow := se_flow st;
    se_framer := AddFrameForRetransmission (se_framer st) (with_DataLen f present);
    se_out := se_out st; se_accepted := se_accepted st |}.
Proof.
  intros [H1 H2 H3 [W [F1 F2 F3 F4 F5 F6 F7]] H5 H6] Hi. apply list_elem_of_lookup_2 in Hi.
  split; try done. exists W. cbn.
  assert (∀ g, g ∈ se_out st ++ (retransmissionQueue (se_framer st) ++ [with_DataLen f present]) →
    g ∈ se_out st ++ retransmissionQueue (se_framer st) ∨ g = with_DataLen f present) as Hin.
  { intros g. rewrite !elem_of_app, list_elem_of_singleton. tauto. }
  assert (f ∈ se_out st ++ retransmissionQueue (se_framer st)) as Hf by (apply elem_of_app; by left).
  split; try done.
  - intros g [Hg| ->]%Hin; [by apply F1|]. apply sent_frame_flag. cbn. by apply F1.
  - intros g [Hg| ->]%Hin; [by apply F2|]. exact (F2 f Hf).
  - intros g [Hg| ->]%Hin; [by apply F6|]. exact (F6 f Hf).
Qed.

Lemma pop_step_ok cp k B st maxLen :
  sender_ok k B st → (0 ≤ k < 2 ^ 28)%Z → (B < 2 ^ 63)%Z → (0 ≤ maxLen < 2 ^ 63)%Z →
  ∃ st', sender_step cp st (OpPop maxLen) = Some st' ∧ sender_ok k B st'.
Proof.
  intros Hok Hk HB Hmax. pose proof (sender_open_bound _ _ _ Hok Hk) as Hlen. pose proof Hok as [H1 H2 H3 [W HW] H5 H6].
  destruct (PopStreamFrames_ok (opened (se_map st)) cp W (accepted st) (se_out st) (se_framer st) (se_map st) (se_flow st) maxLen H1 ltac:(lia) Hmax)
    as (f' & m' & fc' & res & more & W' & E & Hit & HW' & _); [intros id; specialize (H5 id); lia|exact HW|].
  cbn [sender_step]. rewrite E. eexists. split; [done|].
  pose proof (sm_ok_framed _ _ _ _ _ _ _ H1 Hit HW') as Hm'.
  destruct Hit as (ss & i & -> & _). split; try done. by exists W'.
Qed.

Lemma crypto_step_ok cp k B st limit maxLen st' :
  sender_ok k B st → (0 ≤ k < 2 ^ 28)%Z → (B < 2 ^ 63)%Z → (limit < 2 ^ 32)%Z → (15 < maxLen < 2 ^ 63)%Z →
  sender_step cp st (OpPopCrypto limit maxLen) = Some st' → sender_ok (k + 1) B st'.
Proof.
  intros Hok Hk HB Hlim Hmax. cbn [sender_step]. unfold PopCryptoStreamFrame, HasCryptoStreamFrame, crypto_stream.
  destruct (GetOrOpenStream cp limit (se_map st) (se_flow st) 1) as [[[m1 fc1] r]|] eqn:Eget; [|done].
  assert (sm_step cp (se_map st, se_flow st) (OpGetOrOpen limit 1) = Some (m1, fc1)) as Estep by (cbn; by rewrite Eget).
  pose proof (map_step_ok cp k B st (OpGetOrOpen limit 1) m1 fc1 Hok) as Hok1. cbn [op_bytes accept] in Hok1. rewrite Z.add_0_r in Hok1.
  specialize (Hok1 ltac:(cbn; unfold max_ids; lia) I Hk Estep). cbn [mbind option_bind].
  destruct r as [[id|]|]; cbn [mbind option_bind]; [|done|done].
  destruct (streams m1 !! id) as [s0|] eqn:Hs0; [|done]. cbn [mbind option_bind].
  assert (id = 1%Z) as ->.
  { unfold GetOrOpenStream in Eget. destruct (streams (se_map st) !! 1%Z); [by injection Eget as _ _ <-|].
    destruct (refuse_stream (se_map st) 1) as [rr|] eqn:Er.
    - injection Eget as _ _ ->. unfold refuse_stream in Er. repeat case_match; try done; simplify_eq.
    - destruct (open_up_to _ _ _ _ _ _ _) as [[[? ?] []]|]; try done. cbn in Eget. injection Eget as _ _ Er'. by repeat case_match; simplify_eq. }
  case_bool_decide as Hdata; cbn [negb].
  2: { intros [= <-]. cbn. rewrite app_nil_r. exact Hok1. }
  assert (GetOrOpenStream cp limit m1 fc1 1 = Some (m1, fc1, Ok (Some 1%Z))) as -> by (unfold GetOrOpenStream; by rewrite Hs0).
  cbn [mbind option_bind]. rewrite Hs0. cbn [mbind option_bind].
  set (hdr := {| StreamID := 1; FinBit := false; DataLenPresent := false; Offset := writeOffset s0; SData := [] |}).
  pose proof (MinLength_bounds hdr) as Hh. rewrite u64_small by lia.
  destruct Hok1 as [G1 G2 G3 [W HW] G5 G6]. cbn [se_map se_framer se_out] in *.
  destruct (fo_streams _ _ _ _ _ _ HW 1%Z s0 Hs0) as [Hid Hw].
  destruct (getDataForWriting_ok _ _ _ (maxLen - stream_MinLength hdr) Hw) as (s' & d & -> & Hd & _ & Hw' & Hid' & Hns & Hns' & Hpre).
  { specialize (G5 1%Z). unfold accepted in *. cbn [se_accepted] in *. lia. }
  { lia. } { lia. }
  intros [= <-].
  assert (framing_ok (opened m1) (λ x, if decide (x = 1%Z) then W 1%Z ++ d else W x) (accepted st)
    (se_out st ++ [{| StreamID := 1; FinBit := false; DataLenPresent := false; Offset := zlen (W 1%Z); SData := d |}])
    (retransmissionQueue (se_framer st)) (<[1%Z := s']> (streams m1))) as HW2.
  { eapply emit; try done. congruence. }
  assert (iterated m1 (set_streams m1 (<[1%Z := s']> (streams m1)) (openStreams m1) (roundRobinIndex m1))) as Hit.
  { exists (<[1%Z := s']> (streams m1)), (roundRobinIndex m1). split; [done|]. split; [|apply G1].
    intros x. destruct (decide (x = 1%Z)) as [->|]; [|by rewrite lookup_insert_ne]. rewrite lookup_insert_eq, Hs0. split; by eexists. }
  pose proof (sm_ok_framed _ _ _ _ _ _ _ G1 Hit HW2) as Hm'.
  split; try done. cbn. rewrite (wr_off _ _ _ Hw). eexists. exact HW2.
Qed.

Lemma sender_step_ok cp k B st o st' :
  sender_ok k B st → sender_op_ok o → (0 ≤ k < 2 ^ 28)%Z → (B < 2 ^ 63)%Z →
  sender_step cp st o = Some st' → sender_ok (k + 1) (B + op_bytes o) st'.
Proof.
  intros Hok Ho Hk HB. destruct o as [o|i present|maxLen|limit maxLen|id off|b a c p]; cbn [op_bytes]; rewrite ?Z.add_0_r.
  - cbn [sender_step]. destruct (sm_step cp (se_map st, se_flow st) o) as [[m' fc']|] eqn:E; [|done]. intros [= <-].
    destruct Ho as [Hids Hf]. by apply (map_step_ok cp).
  - intros [= <-]. apply (sender_ok_weaken k B); [|lia|lia].
    destruct (se_out st !! i) as [f|] eqn:Hi; [by apply (lost_step_ok k B st i)|]. by destruct Hok.
  - intros Hstep. destruct (pop_step_ok cp k B st maxLen Hok Hk HB Ho) as (st2 & E & Hok2). rewrite E in Hstep.
    injection Hstep as <-. apply (sender_ok_weaken k B); [done|lia|lia].
  - intros Hstep. destruct Ho as [Hl Hm]. by eapply crypto_step_ok.
  - intros [= <-]. apply (sender_ok_weaken k B); [|lia|lia]. by destruct Hok.
  - intros [= <-]. apply (sender_ok_weaken k B); [|lia|lia]. by destruct Hok.
Qed.

Lemma sender_run_ok cp os k B st st' :
  sender_ok k B st → Forall sender_op_ok os → (0 ≤ k)%Z → (k + zlen os < 2 ^ 28)%Z → (B + written_bytes os < 2 ^ 63)%Z →
  sender_run cp st os = Some st' → sender_ok (k + zlen os) (B + written_bytes os) st'.
Proof.
  assert (∀ os, 0 ≤ written_bytes os)%Z as Hnn.
  { induction os0 as [|o os0 IH]; cbn; [done|]. fold (written_bytes os0).
    assert (0 ≤ op_bytes o)%Z; [|lia]. destruct o as [[| | | | |? []]| | | | |]; try done; apply zlen_nonneg. }
  revert k B st. induction os as [|o os IH]; intros k B st Hok Hos Hk Hkn HB.
  { intros [= <-]. cbn. by rewrite !Z.add_0_r. }
  apply Forall_cons in Hos as [Ho Hos]. rewrite zlen_cons in *. pose proof (zlen_nonneg os). specialize (Hnn os) as Hn.
  cbn [written_bytes foldr] in *. fold (written_bytes os) in *.
  assert (0 ≤ op_bytes o)%Z by (destruct o as [[| | | | |? []]| | | | |]; try done; apply zlen_nonneg).
  unfold sender_run. cbn [foldl mbind option_bind]. destruct (sender_step cp st o) as [st1|] eqn:E.
  2: { intros Hr. exfalso. clear -Hr. assert (foldl (λ (st : option sender) o, st ← st; sender_step cp st o) None os = None) as En by (clear; induction os as [|x l IHl]; [done|exact IHl]).
       by rewrite En in Hr. }
  intros Hrun. pose proof (sender_step_ok cp k B st o st1 Hok Ho ltac:(lia) ltac:(lia) E) as Hok1.
  replace (k + (1 + zlen os))%Z with (k + 1 + zlen os)%Z by lia.
  replace (B + (op_bytes o + written_bytes os))%Z with (B + op_bytes o + written_bytes os)%Z by lia.
  apply (IH _ _ st1); [done|done|lia|lia|lia|exact Hrun].
Qed.

Lemma new_sender_run_ok cp pers fc os st :
  Forall sender_op_ok os → (zlen os < 2 ^ 28)%Z → (written_bytes os < 2 ^ 63)%Z →
  sender_run cp (new_sender pers fc) os = Some st → sender_ok (zlen os) (written_bytes os) st.
Proof.
  intros Hos Hk HB Hrun.
  by apply (sender_run_ok cp os 0 0 (new_sender pers fc) st (sender_ok_new pers fc) Hos).
Qed.

(** Every frame handed out can be written, and is read back unchanged. *)
Lemma frames_writable k B st f : sender_ok k B st → (k < 2 ^ 28)%Z → (B < 2 ^ 63)%Z → f ∈ se_out st → stream_frame_ok f.
Proof.
  intros [H1 H2 H3 [W HW] H5 H6] Hk HB Hf. assert (f ∈ se_out st ++ retransmissionQueue (se_framer st)) as Hf' by (apply elem_of_app; by left).
  destruct (fo_sent _ _ _ _ _ _ HW f Hf') as [[[S1 S2 S3 S4] S5] S6].
  pose proof (fo_prefix _ _ _ _ _ _ HW (StreamID f)) as Hp%prefix_length. specialize (H5 (StreamID f)). unfold zlen in *.
  destruct (fo_live _ _ _ _ _ _ HW f Hf') as [L0 L1]. unfold max_ids in *.
  split; [|done|unfold zlen in *; lia|].
  - unfold u32_ok. destruct (decide (own_id _ _)); lia.
  - intros Hfin E. assert (DataLen f = 0%Z) as Hz by (unfold DataLen; by rewrite E). by rewrite (S5 Hz) in Hfin.
Qed.

(** * Properties *)

(** C36: Whatever the application and the peer did before, [PopStreamFrames] returns, and what it returns
    fits: the frames with their headers and data lengths take up at most [maxLen], every one of them can be
    written and is not empty, and new data keeps to the windows of the peer. *)
Theorem popped_frames_fit cp pers fc os st maxLen :
  Forall sender_op_ok os → (zlen os < 2 ^ 28)%Z → (written_bytes os < 2 ^ 62)%Z →
  sender_run cp (new_sender pers fc) os = Some st → (0 ≤ maxLen < 2 ^ 63)%Z →
  ∃ framer m fc' fs, PopStreamFrames cp (se_framer st) (se_map st) (se_flow st) maxLen = Some (framer, m, fc', fs) ∧
    (frames_len fs ≤ maxLen)%Z ∧ Forall (λ f, DataLenPresent f = true) fs ∧ Forall stream_frame_ok fs ∧
    (send_params_ok cp → all_within cp (se_flow st) → all_within cp fc').
Proof.
  intros Hos Hk HB Hrun Hmax. pose proof (new_sender_run_ok cp pers fc os st Hos Hk ltac:(lia) Hrun) as Hok. pose proof (zlen_nonneg os).
  destruct (pop_step_ok cp _ _ st maxLen Hok ltac:(lia) ltac:(lia) Hmax) as (st' & E & Hok'). cbn [sender_step] in E.
  pose proof (sender_open_bound _ _ _ Hok ltac:(lia)). destruct Hok as [H1 H2 H3 [W HW] H5 H6].
  destruct (PopStreamFrames_ok (opened (se_map st)) cp W (accepted st) (se_out st) (se_framer st) (se_map st) (se_flow st) maxLen H1
    ltac:(lia) Hmax) as (f' & m' & fc' & res & more & W' & Ep & _ & _ & Hfc & Hfit & Hpres & _); [intros id; specialize (H5 id); lia|exact HW|].
  rewrite Ep in E. cbn in E. injection E as <-. exists f', m', fc', (res ++ more). split; [done|]. split; [done|]. split; [done|].
  split; [|done]. apply Forall_forall. intros f Hf. apply (frames_writable _ _ _ f Hok'); [done|lia|]. cbn. apply elem_of_app. by right.
Qed.

(** Retransmission loses nothing and sends nothing twice: the bytes and FINs of the frames that
    [PopStreamFrames] takes from the queue, followed by those of the frames it leaves there, are the ones
    of the queue, however the frame at the front is cut; and when its header fits, at least one is taken. *)
Theorem retransmissions_conserved cp pers fc os st maxLen :
  Forall sender_op_ok os → (zlen os < 2 ^ 28)%Z → (written_bytes os < 2 ^ 62)%Z →
  sender_run cp (new_sender pers fc) os = Some st → (0 ≤ maxLen < 2 ^ 63)%Z →
  ∃ framer m fc' res more,
    PopStreamFrames cp (se_framer st) (se_map st) (se_flow st) maxLen = Some (framer, m, fc', res ++ more) ∧
    contents res ++ contents (retransmissionQueue framer) = contents (retransmissionQueue (se_framer st)) ∧
    match retransmissionQueue (se_framer st) with
    | f :: _ => (stream_MinLength (with_DataLen f true) < maxLen)%Z → res ≠ []
    | [] => True
    end.
Proof.
  intros Hos Hk HB Hrun Hmax. pose proof (new_sender_run_ok cp pers fc os st Hos Hk ltac:(lia) Hrun) as Hok. pose proof (zlen_nonneg os).
  pose proof (sender_open_bound _ _ _ Hok ltac:(lia)). destruct Hok as [H1 H2 H3 [W HW] H5 H6].
  destruct (PopStreamFrames_ok (opened (se_map st)) cp W (accepted st) (se_out st) (se_framer st) (se_map st) (se_flow st) maxLen H1
    ltac:(lia) Hmax) as (f' & m' & fc' & res & more & W' & Ep & _ & _ & _ & _ & _ & Hc & Hfirst); [intros id; specialize (H5 id); lia|exact HW|].
  by exists f', m', fc', res, more.
Qed.

(** Of the frames that arrive with a FIN and data, every other one with its last byte starts where it does:
    the frame was not cut for a retransmission while the whole of it arrived too. *)
Definition fin_not_cut (frames : list StreamFrame) : Prop :=
  ∀ f g, f ∈ frames → g ∈ frames → FinBit f = true → has_byte f (Offset f + DataLen f - 1) →
  has_byte g (Offset f + DataLen f - 1) → Offset g = Offset f.

(** C35: What is written is what is read.  A sender's application writes on any streams while frames are
    popped, lost and retransmitted; any of the popped frames of a stream arrive in any order at the peer's
    stream, interleaved with its reads.  Then nothing panics, what was read is a prefix of what was
    written, the end of the stream is reported only after all of it, and once every popped frame has
    arrived, a [Read] returns what is left of the popped data, which is all of the written data when the
    framer left none behind.  No frame with a FIN may arrive both cut and whole. *)
Theorem written_is_read cp pers fc os st id f0 rops :
  Forall sender_op_ok os → (zlen os < 2 ^ 28)%Z → (written_bytes os < 2 ^ 62)%Z →
  sender_run cp (new_sender pers fc) os = Some st →
  (∀ g, g ∈ received rops → ∃ f, f ∈ se_out st ∧ StreamID f = id ∧ g = with_DataLen f (DataLenPresent g)) →
  fin_not_cut (received rops) → Forall read_count_ok rops →
  ∃ popped, popped `prefix_of` accepted st id ∧
    (∀ s, streams (se_map st) !! id = Some s → dataForWriting s = None → popped = accepted st id) ∧
    match stream_run f0 (newStream id) [] rops with
    | None => False
    | Some (Err e) => (∃ e', e = EFlow e') ∨ e = ESorter errTooManyGapsInReceivedStreamData
    | Some (Ok (f, s, out)) =>
        out `prefix_of` popped ∧ (finishedReading s = true → out = accepted st id) ∧
        ((∀ f, f ∈ se_out st → StreamID f = id → ∃ b, with_DataLen f b ∈ received rops) →
         ∀ env now n, (0 ≤ n)%Z → (zlen out + n ≤ zlen popped)%Z →
           cancelled s = false → resetLocally s = false → finishedReading s = false → passed now (readDeadline s) = false →
           ∃ f' s' e, Read env now n f s = (f', s', Some (ReadDone (take (Z.to_nat n) (drop (length out) popped)) e)))
    end.
Proof.
  intros Hos Hk HB Hrun Hrec Hcut Hcount. pose proof (new_sender_run_ok cp pers fc os st Hos Hk ltac:(lia) Hrun) as [H1 H2 H3 [W HW] H5 H6].
  pose proof (fo_prefix _ _ _ _ _ _ HW id) as Hpre. exists (W id). split; [done|]. split.
  { intros s Hs Hd. destruct (fo_streams _ _ _ _ _ _ HW id s Hs) as [_ [_ Ha _ _]]. by rewrite Hd, app_nil_r in Ha. }
  assert (zlen (W id) < 2 ^ 62)%Z as Hsrc0.
  { apply prefix_length in Hpre. specialize (H5 id). unfold zlen in *. lia. }
  assert (zlen (W id) < 2 ^ 63)%Z as Hsrc by lia.
  assert (∀ f, f ∈ se_out st → StreamID f = id → sent_frame (W id) f) as Hout.
  { intros f Hf <-. apply (fo_sent _ _ _ _ _ _ HW), elem_of_app. by left. }
  assert (Forall (sent_frame (W id)) (received rops)) as Hsent.
  { apply Forall_forall. intros g Hg. destruct (Hrec g Hg) as (f & Hf & Hid & ->). by apply sent_frame_flag, Hout. }
  assert (fins_agree (W id) (received rops)) as Hagree.
  { intros f g Hf Hg Hfin Hbf Hbg. rewrite Forall_forall in Hsent. destruct (Hsent f Hf) as [_ Hend]. rewrite <-(Hend Hfin) in *.
    by apply (Hcut f g). }
  pose proof (stream_run_ok (W id) Hsrc [] f0 (newStream id) [] rops Hsent Hagree Hcount (read_ok_new _ id) eq_refl eq_refl) as Hr.
  destruct (stream_run _ _ _ _) as [[[[f s] out]|e]|] eqn:E; [|done|done]. destruct Hr as (Hpo & Hoff & Hok). cbn [app] in Hok.
  split; [rewrite Hpo; apply prefix_take|]. split.
  - intros Hfd. pose proof (ro_done _ _ _ Hok Hfd) as Hd. rewrite Hoff in Hd.
    assert (out = W id) as Eout by (rewrite Hpo; apply take_ge; unfold zlen in *; lia).
    destruct (decide (Exists (λ g, FinBit g = true) (received rops))) as [Hx|Hx].
    { apply Exists_exists in Hx as (g & Hg & Hfin). destruct (Hrec g Hg) as (f1 & Hf1 & Hid & Eg). rewrite Eg in Hfin.
      rewrite Eout, <-Hid. apply (fo_fin _ _ _ _ _ _ HW f1); [apply elem_of_app; by left|done]. }
    exfalso. assert (∀ g, g ∈ received rops → FinBit g = false) as Hno.
    { intros g Hg. destruct (FinBit g) eqn:Hf; [|done]. destruct Hx. apply Exists_exists. by exists g. }
    pose proof (stream_run_ok (W id ++ [x00]) ltac:(rewrite zlen_app; unfold zlen in *; cbn; lia) [] f0 (newStream id) [] rops) as Hr.
    rewrite E in Hr. destruct Hr as (_ & _ & Hok2); try done.
    + apply Forall_forall. intros g Hg. rewrite Forall_forall in Hsent. apply sent_frame_app; [by apply Hsent|by apply Hno].
    + intros g g' Hg _ Hfin. by rewrite Hno in Hfin.
    + apply read_ok_new.
    + pose proof (ro_done _ _ _ Hok2 Hfd) as Hd2. rewrite zlen_app in Hd2. unfold zlen in *. cbn in *. lia.
  - intros Hall env now n Hn Hle Hc Hrl Hfr Hdl.
    destruct (Read_ok (W id) Hsrc (received rops) env now n f s Hsent Hok Hn) as (f' & s' & d & o & Hread & Hadv & Hcase & Hlive).
    specialize (Hlive Hc Hrl Hfr Hdl). assert (zlen d = n) as Hd.
    { apply Hlive. intros p Hp. destruct (fo_cover _ _ _ _ _ _ HW id p) as (g & Hg & Hid & Hb); [unfold zlen in *; lia|].
      destruct (Hall g Hg Hid) as [b Hb']. apply Exists_exists. by exists (with_DataLen g b). }
    assert (d = take (Z.to_nat n) (drop (length out) (W id))) as Ed.
    { rewrite (ad_data _ _ _ _ _ Hadv), Hoff. f_equal; [unfold zlen in *; lia|f_equal; unfold zlen; lia]. }
    destruct Hcase as [(_ & -> & Hn1)|[e ->]]; [unfold zlen in Hd; cbn in Hd; lia|].
    exists f', s', e. by rewrite <-Ed.
Qed.

(** * Concrete runs *)

Local Notation sample_sender := (new_sender PerspectiveServer (NewFlowControlManager sample_params)).

(** A server opens stream 2, writes five bytes and closes; the frame with all of them is lost, and a small
    packet takes the first four bytes of it. *)
Definition sample_data : list byte := [x01; x02; x03; x04; x05].
Definition sample_sending : list sender_op :=
  [OpMap (OpOpen 10); OpMap (OpStream 2 (OpWrite sample_data)); OpMap (OpStream 2 OpClose); OpPop 100; OpLost 0 true;
   OpPop 8; OpPop 100].
Definition sample_flow_control_2 : flowControlManager := NewStream sample_params (NewFlowControlManager sample_params) 2 true.
Definition sample_sent : sender := default sample_sender (sender_run sample_params sample_sender sample_sending).

Definition sample_frame (offset : Z) (data : list byte) (fin : bool) : StreamFrame :=
  {| StreamID := 2; FinBit := fin; DataLenPresent := true; Offset := offset; SData := data |}.
Lemma sample_sending_run : sender_run sample_params sample_sender sample_sending = Some sample_sent.
Proof. vm_compute. reflexivity. Qed.
Lemma sample_sent_frames :
  se_out sample_sent = [sample_frame 0 sample_data true; sample_frame 0 (take 4 sample_data) false; sample_frame 4 [x05] true] ∧
  accepted sample_sent 2 = sample_data.
Proof. vm_compute. split; reflexivity. Qed.
Lemma sample_sending_ok :
  Forall sender_op_ok sample_sending ∧ (zlen sample_sending < 2 ^ 28)%Z ∧ (written_bytes sample_sending < 2 ^ 62)%Z.
Proof. split; [repeat (constructor; [cbn; done || (split; (done || lia))|]); constructor|by vm_compute]. Qed.

(** A FIN frame that was cut for its retransmission can end the stream too early: when the rest of it
    arrives first and the whole frame, delayed and not lost, arrives next, the peer cuts the whole frame
    where the rest begins but keeps its FIN.  The application reads four of the five bytes and then the
    end of the stream. *)
Theorem cut_fin_truncates :
  sender_run sample_params sample_sender sample_sending = Some sample_sent ∧
  accepted sample_sent 2 = sample_data ∧
  ∃ whole rest, se_out sample_sent !! 0 = Some whole ∧ se_out sample_sent !! 2 = Some rest ∧
    ∃ f s, stream_run sample_flow_control_2 (newStream 2) [] [OpFrame rest; OpFrame whole; OpRead sample_env 0 10] =
      Some (Ok (f, s, take 4 sample_data)) ∧ finishedReading s = true.
Proof.
  split; [exact sample_sending_run|]. destruct sample_sent_frames as [E1 E2]. split; [exact E2|]. rewrite E1.
  eexists _, _. split; [reflexivity|]. split; [reflexivity|]. eexists _, _. vm_compute. split; reflexivity.
Qed.

Lemma popped_frames_fit_witness :
  ∃ framer m fc' fs, PopStreamFrames sample_params (se_framer sample_sent) (se_map sample_sent) (se_flow sample_sent) 50 =
    Some (framer, m, fc', fs) ∧ (frames_len fs ≤ 50)%Z.
Proof.
  destruct sample_sending_ok as (H1 & H2 & H3).
  destruct (popped_frames_fit sample_params PerspectiveServer (NewFlowControlManager sample_params) sample_sending sample_sent 50
    H1 H2 H3 sample_sending_run) as (framer & m & fc' & fs & E & Hl & _); [lia|].
  exists framer, m, fc', fs. split; [exact E|exact Hl].
Defined.

(** The state before the last two packets: the lost frame waits. *)
Definition sample_lost : sender := default sample_sender (sender_run sample_params sample_sender (take 5 sample_sending)).
Lemma sample_lost_run : sender_run sample_params sample_sender (take 5 sample_sending) = Some sample_lost.
Proof. vm_compute. reflexivity. Qed.
Lemma sample_lost_queue : retransmissionQueue (se_framer sample_lost) = [sample_frame 0 sample_data true].
Proof. vm_compute. reflexivity. Qed.
Lemma sample_lost_ok :
  Forall sender_op_ok (take 5 sample_sending) ∧ (zlen (take 5 sample_sending) < 2 ^ 28)%Z ∧
  (written_bytes (take 5 sample_sending) < 2 ^ 62)%Z.
Proof. split; [apply Forall_take, sample_sending_ok|by vm_compute]. Qed.
Lemma retransmissions_conserved_witness :
  ∃ framer m fc' res more,
    PopStreamFrames sample_params (se_framer sample_lost) (se_map sample_lost) (se_flow sample_lost) 8 =
      Some (framer, m, fc', res ++ more) ∧
    contents res ++ contents (retransmissionQueue framer) = contents [sample_frame 0 sample_data true] ∧ res ≠ [].
Proof.
  destruct sample_lost_ok as (H1 & H2 & H3).
  destruct (retransmissions_conserved sample_params PerspectiveServer (NewFlowControlManager sample_params) (take 5 sample_sending)
    sample_lost 8 H1 H2 H3 sample_lost_run) as (framer & m & fc' & res & more & E & Hc & Hfirst); [lia|].
  rewrite sample_lost_queue in *. exists framer, m, fc', res, more. split; [exact E|]. split; [exact Hc|].
  apply Hfirst. reflexivity.
Defined.

(** The rest of the frame arrives, then its beginning; the whole frame never does. *)
Definition sample_arrivals : list stream_op :=
  [OpFrame (sample_frame 4 [x05] true); OpRead sample_env 0 10; OpFrame (sample_frame 0 (take 4 sample_data) false);
   OpRead sample_env 0 10].
Lemma sample_arrivals_sent g :
  g ∈ received sample_arrivals → ∃ f, f ∈ se_out sample_sent ∧ StreamID f = 2%Z ∧ g = with_DataLen f (DataLenPresent g).
Proof.
  destruct sample_sent_frames as [-> _]. intros Hg. apply list_elem_of_In in Hg. destruct Hg as [<-|[<-|[]]].
  - exists (sample_frame 4 [x05] true). split; [right; right; left|done].
  - exists (sample_frame 0 (take 4 sample_data) false). split; [right; left|done].
Qed.
Lemma sample_arrivals_not_cut : fin_not_cut (received sample_arrivals).
Proof.
  intros f g Hf Hg. apply list_elem_of_In in Hf, Hg. unfold has_byte.
  destruct Hf as [<-|[<-|[]]], Hg as [<-|[<-|[]]]; cbn; try done; unfold DataLen, zlen; cbn; lia.
Qed.
Lemma sample_arrivals_counts : Forall read_count_ok sample_arrivals.
Proof. unfold sample_arrivals. rewrite !Forall_cons. cbn. repeat (split; [done|]). constructor. Qed.
Lemma sample_arrivals_run :
  match stream_run sample_flow_control_2 (newStream 2) [] sample_arrivals with
  | Some (Ok (_, s, _)) => finishedReading s = true
  | _ => False
  end.
Proof. vm_compute. reflexivity. Qed.
Lemma written_is_read_witness :
  ∃ f s, stream_run sample_flow_control_2 (newStream 2) [] sample_arrivals = Some (Ok (f, s, sample_data)).
Proof.
  destruct sample_sending_ok as (H1 & H2 & H3).
  destruct (written_is_read sample_params PerspectiveServer (NewFlowControlManager sample_params) sample_sending sample_sent 2
    sample_flow_control_2 sample_arrivals H1 H2 H3 sample_sending_run sample_arrivals_sent sample_arrivals_not_cut
    sample_arrivals_counts) as (popped & _ & _ & Hr).
  pose proof sample_arrivals_run as Hrun. destruct sample_sent_frames as [_ Ea]. rewrite Ea in Hr.
  destruct (stream_run _ _ _ _) as [[[[f s] out]|e]|]; [|destruct Hrun|destruct Hrun].
  exists f, s. destruct Hr as (_ & Hfin & _). rewrite (Hfin Hrun). reflexivity.
Defined.
