(* ===== verification/NullAEAD.v ===== *)
(** The AEAD of packets that are not encrypted yet (src/mp-quic/internal/crypto:
    AEAD.go, null_aead.go, null_aead_fnv64a.go, null_aead_fnv128a.go).

    The payload is sent in the clear with a hash of the header and the payload.  FNV-1a with
    64 bits is Go's hash/fnv; the 128-bit variant is a third-party package and an argument.
    [dst] only says where the result is stored: the results are values. *)

From Stdlib Require Import ZArith Lia.
From Stdlib Require Import Strings.Byte Strings.String.
From stdpp Require Import prelude numbers list.
From S2P Require Import Prelude ByteOrder Protocol Wire ReceivedPackets AckCodec PublicHeader.

Open Scope Z_scope.

Inductive AEADError : Type := ErrShortCiphertext | ErrAuthentication.

(** The interface. *)
Record AEAD : Type := {
  aead_Open : list byte → Z → list byte → result AEADError (list byte);
  Seal : list byte → Z → list byte → list byte;
  Overhead : Z
}.

(** What the two ends of a connection rely on: one opens what the other seals. *)
Class AEADLaws (sealer opener : AEAD) : Prop := {
  aead_opens p n a : aead_Open opener (Seal sealer p n a) n a = Ok p;
  aead_overhead p n a : zlen (Seal sealer p n a) = zlen p + Overhead sealer
}.

(** * FNV-1a, 64 bits (hash/fnv) *)

Definition offset64 : Z := 14695981039346656037.
Definition prime64 : Z := 1099511628211.
Definition fnv64a_step (h : Z) (b : byte) : Z := u64 (Z.lxor h (byte_val b) * prime64).
Definition fnv64a (data : list byte) : Z := foldl fnv64a_step offset64 data.

Definition nullAEADFNV64a : AEAD := {|
  aead_Open := λ src _ associatedData,
    if decide (zlen src < 8) then Err ErrShortCiphertext
    else
      let data := take (Z.to_nat (zlen src - 8)) src in
      if decide (fnv64a (associatedData ++ data) ≠ be_val (drop (Z.to_nat (zlen src - 8)) src)) then Err ErrAuthentication
      else Ok data;
  Seal := λ src _ associatedData, src ++ be_bytes 8 (fnv64a (associatedData ++ src));
  Overhead := 8
|}.

(** * FNV-1a, 128 bits *)

Section fnv128a.
(** [Sum128] of what was written: the high and the low half. *)
Context (fnv128a : list byte → Z * Z).

(** [[]byte("Client")] and [[]byte("Server")] *)
Definition role_suffix (p : Perspective) : list byte :=
  match p with
  | PerspectiveServer => list_byte_of_string "Server"
  | PerspectiveClient => list_byte_of_string "Client"
  end.
Definition other_side (p : Perspective) : Perspective :=
  match p with PerspectiveServer => PerspectiveClient | PerspectiveClient => PerspectiveServer end.

Definition nullAEADFNV128a (perspective : Perspective) : AEAD := {|
  aead_Open := λ src _ associatedData,
    if decide (zlen src < 12) then Err ErrShortCiphertext
    else
      let '(testHigh, testLow) := fnv128a (associatedData ++ drop 12 src ++ role_suffix (other_side perspective)) in
      let low := le_val (take 8 src) in
      let high := le_val (take 4 (drop 8 src)) in
      if decide (u32 (Z.land testHigh 0xffffffff) ≠ high ∨ testLow ≠ low) then Err ErrAuthentication
      else Ok (drop 12 src);
  Seal := λ src _ associatedData,
    let '(high, low) := fnv128a (associatedData ++ src ++ role_suffix perspective) in
    le_bytes 8 low ++ le_bytes 4 (u32 high) ++ src;
  Overhead := 12
|}.

Definition NewNullAEAD (p : Perspective) (v : Z) : AEAD :=
  if UsesTLS v then nullAEADFNV64a else nullAEADFNV128a p.

Close Scope Z_scope.

(** * What is sealed is opened *)

Lemma fnv64a_range data : (0 ≤ fnv64a data < 2 ^ 64)%Z.
Proof.
  unfold fnv64a. destruct data as [|b data _] using rev_ind; [done|]. rewrite foldl_snoc. apply u64_range.
Qed.

(** The last eight bytes are the hash. *)
Lemma open64 q t n a : length t = 8 →
  aead_Open nullAEADFNV64a (q ++ t) n a = if decide (fnv64a (a ++ q) ≠ be_val t) then Err ErrAuthentication else Ok q.
Proof.
  intros Ht. cbn. assert (zlen (q ++ t) = Z.of_nat (length q) + 8)%Z as -> by (rewrite zlen_app; unfold zlen; lia).
  rewrite decide_False by lia. replace (Z.to_nat (Z.of_nat (length q) + 8 - 8)) with (length q) by lia.
  by rewrite take_app_length, drop_app_length.
Qed.

#[export] Instance null64_laws : AEADLaws nullAEADFNV64a nullAEADFNV64a.
Proof.
  split; intros p n a.
  - cbn [Seal nullAEADFNV64a]. rewrite open64 by apply length_be_bytes. rewrite be_val_bytes_small by apply fnv64a_range.
    by rewrite decide_False by auto.
  - cbn [Seal nullAEADFNV64a Overhead]. rewrite zlen_app. unfold zlen at 2. by rewrite length_be_bytes.
Qed.

(** [Sum128] yields two 64-bit halves. *)
Context (Hhash : ∀ data, (0 ≤ (fnv128a data).2 < 2 ^ 64)%Z).

Lemma null128_laws p : AEADLaws (nullAEADFNV128a p) (nullAEADFNV128a (other_side p)).
Proof.
  split; intros q n a; cbn [aead_Open Seal nullAEADFNV128a Overhead].
  - pose proof (Hhash (a ++ q ++ role_suffix p)) as Hr. destruct (fnv128a (a ++ q ++ role_suffix p)) as [high low] eqn:E. cbn in Hr.
    pose proof (zlen_nonneg q).
    assert (drop 12 (le_bytes 8 low ++ le_bytes 4 (u32 high) ++ q) = q) as Ed.
    { rewrite app_assoc. apply drop_app_length'. by rewrite length_app, !length_le_bytes. }
    rewrite !zlen_app, decide_False by (unfold zlen at 1 2; rewrite !length_le_bytes; lia).
    assert (other_side (other_side p) = p) as -> by by destruct p. rewrite Ed, E.
    rewrite (take_app_length' _ _ 8) by (by rewrite length_le_bytes). rewrite (drop_app_length' _ _ 8) by (by rewrite length_le_bytes).
    rewrite (take_app_length' _ _ 4) by (by rewrite length_le_bytes).
    rewrite (le_val_bytes 8), (le_val_bytes 4); [|unfold u32; apply Z.mod_pos_bound; lia|exact Hr].
    rewrite decide_False; [done|]. intros [Hc|Hc]; [|done]. apply Hc. unfold u32.
    change 0xffffffff%Z with (Z.ones 32). by rewrite Z.land_ones, Zmod_mod by lia.
  - destruct (fnv128a _) as [high low]. rewrite !zlen_app. unfold zlen at 1 2. rewrite !length_le_bytes. lia.
Qed.

Lemma null_laws p v : AEADLaws (NewNullAEAD p v) (NewNullAEAD (other_side p) v).
Proof. unfold NewNullAEAD. destruct (UsesTLS v); [apply null64_laws|apply null128_laws]. Qed.
End fnv128a.

Close Scope Z_scope.

(** * Changes are noticed *)

(** The inverse of the prime modulo 2 ^ 64. *)
Definition prime64_inverse : Z := 14886173955864302971.

Lemma times_prime_inj x y : u64 (x * prime64) = u64 (y * prime64) → u64 x = u64 y.
Proof.
  unfold u64. intros E. assert (∀ z, (z mod 2 ^ 64 = (z * prime64) mod 2 ^ 64 * prime64_inverse mod 2 ^ 64)%Z) as Hinv.
  { intros z. rewrite Z.mul_mod_idemp_l by done. rewrite <-Z.mul_assoc.
    rewrite <-(Z.mul_mod_idemp_r z) by done. change ((prime64 * prime64_inverse) mod 2 ^ 64)%Z with 1%Z. by rewrite Z.mul_1_r. }
  by rewrite (Hinv x), (Hinv y), E.
Qed.

Lemma lxor_range h b : (0 ≤ h < 2 ^ 64)%Z → (0 ≤ Z.lxor h (byte_val b) < 2 ^ 64)%Z.
Proof.
  intros Hh. pose proof (byte_val_range b).
  assert (Z.lxor h (byte_val b) = Z.lxor h (byte_val b) mod 2 ^ 64)%Z as ->; [|apply Z.mod_pos_bound; done].
  rewrite <-!Z.land_ones by lia. apply Z.bits_inj'. intros i Hi. rewrite Z.land_spec, Z.lxor_spec.
  destruct (decide (i < 64)%Z) as [Hlt|Hge]; [rewrite Z.ones_spec_low by lia; by rewrite andb_true_r|].
  rewrite Z.ones_spec_high, andb_false_r by lia.
  assert (∀ z, (0 ≤ z < 2 ^ 64)%Z → Z.testbit z i = false) as Hz.
  { intros z Hz. rewrite <-(Z.mod_small z (2 ^ 64)) by done. by rewrite Z.mod_pow2_bits_high by lia. }
  by rewrite !Hz by lia.
Qed.

Lemma lxor_cancel_l x y z : Z.lxor x y = Z.lxor x z → y = z.
Proof. intros E. apply (f_equal (Z.lxor x)) in E. by rewrite <-!Z.lxor_assoc, !Z.lxor_nilpotent, !Z.lxor_0_l in E. Qed.

Lemma fnv64a_step_inj h h' b b' :
  (0 ≤ h < 2 ^ 64)%Z → (0 ≤ h' < 2 ^ 64)%Z → fnv64a_step h b = fnv64a_step h' b' →
  Z.lxor h (byte_val b) = Z.lxor h' (byte_val b').
Proof.
  intros Hh Hh' E%times_prime_inj. by rewrite !u64_small in E by (by apply lxor_range).
Qed.

Lemma foldl_fnv_range data h : (0 ≤ h < 2 ^ 64)%Z → (0 ≤ foldl fnv64a_step h data < 2 ^ 64)%Z.
Proof. revert h. induction data as [|b data IH]; intros h Hh; [done|]. apply IH, u64_range. Qed.
Lemma foldl_fnv_inj data h h' :
  (0 ≤ h < 2 ^ 64)%Z → (0 ≤ h' < 2 ^ 64)%Z → foldl fnv64a_step h data = foldl fnv64a_step h' data → h = h'.
Proof.
  revert h h'. induction data as [|b data IH]; intros h h' Hh Hh' E; [done|]. cbn in E.
  apply IH, fnv64a_step_inj in E; [|done|done|apply u64_range|apply u64_range].
  rewrite !(Z.lxor_comm _ (byte_val b)) in E. by apply lxor_cancel_l in E.
Qed.

(** Texts that differ in one byte have different hashes. *)
Lemma fnv64a_one_byte data i b b0 : data !! i = Some b0 → b ≠ b0 → fnv64a (<[i := b]> data) ≠ fnv64a data.
Proof.
  intros Hi Hb E. pose proof (take_drop_middle data i b0 Hi) as Hd.
  assert (<[i := b]> data = take i data ++ b :: drop (S i) data) as Hu by (apply insert_take_drop; by apply lookup_lt_Some in Hi).
  rewrite Hu in E. rewrite <-Hd in E at 3. unfold fnv64a in E. rewrite !foldl_app in E. cbn in E.
  set (h := foldl fnv64a_step offset64 (take i data)) in *.
  assert (0 ≤ h < 2 ^ 64)%Z as Hh by (by apply foldl_fnv_range).
  apply foldl_fnv_inj in E; [|apply u64_range|apply u64_range].
  apply fnv64a_step_inj in E; [|done|done]. apply lxor_cancel_l, byte_val_inj in E. done.
Qed.

(** * Properties *)

(** The null AEAD refuses every packet in which one byte was changed on the way: of the payload, of the
    hash, or of the header it was sealed with. *)
Theorem null_aead_detects p n a i b b0 :
  let sealed := Seal nullAEADFNV64a p n a in
  aead_Open nullAEADFNV64a sealed n a = Ok p ∧
  (sealed !! i = Some b0 → b ≠ b0 → aead_Open nullAEADFNV64a (<[i := b]> sealed) n a = Err ErrAuthentication) ∧
  (a !! i = Some b0 → b ≠ b0 → aead_Open nullAEADFNV64a sealed n (<[i := b]> a) = Err ErrAuthentication).
Proof.
  cbv zeta. split; [apply aead_opens|]. cbn [Seal nullAEADFNV64a].
  set (tag := be_bytes 8 (fnv64a (a ++ p))).
  assert (length tag = 8 ∧ be_val tag = fnv64a (a ++ p)) as [Hl Hv].
  { split; [apply length_be_bytes|]. apply be_val_bytes_small, fnv64a_range. }
  split; intros Hi Hb.
  - destruct (decide (i < length p)) as [Hp|Hp].
    + rewrite insert_app_l, open64 by done. rewrite decide_True; [done|]. rewrite Hv, <-insert_app_r.
      apply fnv64a_one_byte with b0; [|done]. rewrite lookup_app_l in Hi by done. by rewrite lookup_app_r, Nat.add_comm, Nat.add_sub by lia.
    + rewrite lookup_app_r in Hi by lia. rewrite insert_app_r_alt, open64 by (rewrite ?length_insert; lia).
      rewrite decide_True; [done|]. rewrite <-Hv. intros E. apply be_val_inj in E; [|by rewrite length_insert].
      apply (f_equal (.!! (i - length p))) in E. rewrite Hi, list_lookup_insert_eq in E by (by apply lookup_lt_Some in Hi). congruence.
  - rewrite open64 by done. rewrite decide_True; [done|]. rewrite Hv, <-insert_app_l by (by apply lookup_lt_Some in Hi).
    apply fnv64a_one_byte with b0; [|done]. by apply lookup_app_l_Some.
Qed.

Lemma null_aead_detects_witness :
  aead_Open nullAEADFNV64a (<[1%nat := xff]> (Seal nullAEADFNV64a [x01; x02] 7 [x03])) 7 [x03] = Err ErrAuthentication.
Proof.
  destruct (null_aead_detects [x01; x02] 7 [x03] 1 xff x02) as (_ & H & _). apply H; [vm_compute; reflexivity|discriminate].
Defined.
