(* ===== verification/PacketNumberGenerator.v ===== *)
(** The numbers of the packets sent on a path (src/mp-quic/packet_number_generator.go).

    [rand.Read] is an argument of each call: a number of 16 bits, or [None] when it fails.  A
    failed draw leaves the number to skip as it was, as its error is dropped by the caller. *)

From Stdlib Require Import ZArith Lia.
From stdpp Require Import prelude numbers list.
From S2P Require Import Prelude.

Open Scope Z_scope.

Record packetNumberGenerator : Type := { averagePeriod : Z; next : Z; nextToSkip : Z }.

Definition newPacketNumberGenerator (averagePeriod : Z) : packetNumberGenerator :=
  {| averagePeriod := averagePeriod; next := 1; nextToSkip := 0 |}.

Definition Peek (p : packetNumberGenerator) : Z := next p.

Definition getRandomNumber (drawn : option (Z * Z)) : option Z :=
  '(b0, b1) ← drawn; Some (u16 (u16 (Z.shiftl b0 8) + b1)).

Definition generateNewSkip (p : packetNumberGenerator) (drawn : option (Z * Z)) : packetNumberGenerator :=
  match getRandomNumber drawn with
  | None => p
  | Some num =>
      let skip := u64 (num * u64 (averagePeriod p - 1)) / (65535 / 2) in
      {| averagePeriod := averagePeriod p; next := next p; nextToSkip := u64 (next p + 2 + skip) |}
  end.

Definition Pop (p : packetNumberGenerator) (drawn : option (Z * Z)) : packetNumberGenerator * Z :=
  let p' := {| averagePeriod := averagePeriod p; next := u64 (next p + 1); nextToSkip := nextToSkip p |} in
  let p' := if decide (next p' = nextToSkip p')
            then generateNewSkip {| averagePeriod := averagePeriod p'; next := u64 (next p' + 1); nextToSkip := nextToSkip p' |} drawn
            else p' in
  (p', next p).

(** The numbers of the packets, one after the other. *)
Fixpoint pops (p : packetNumberGenerator) (draws : list (option (Z * Z))) : packetNumberGenerator * list Z :=
  match draws with
  | [] => (p, [])
  | d :: ds => let '(p, n) := Pop p d in let '(p, ns) := pops p ds in (p, n :: ns)
  end.

Close Scope Z_scope.

Lemma Pop_next p d :
  (0 ≤ next p)%Z → (next p + 2 < 2 ^ 64)%Z →
  (next (Pop p d).1 = next p + 1 ∨ next (Pop p d).1 = next p + 2 ∧ nextToSkip p = next p + 1)%Z ∧ (Pop p d).2 = next p.
Proof.
  intros H0 Hn. unfold Pop. cbn. rewrite u64_small by lia. case_decide as Hs; [|split; [by left|done]]. cbn in Hs. split; [|done].
  right. split; [|done]. unfold generateNewSkip. destruct (getRandomNumber d); cbn; rewrite u64_small by lia; lia.
Qed.

(** A number to skip that is not ahead never comes up. *)
Lemma pops_without_skip p draws :
  (nextToSkip p < next p)%Z → (0 ≤ next p)%Z → (next p + zlen draws < 2 ^ 64)%Z →
  (pops p draws).2 = seqZ (next p) (zlen draws).
Proof.
  revert p. induction draws as [|d ds IH]; intros p Hs H0 Hn; [done|]. rewrite zlen_cons in *. pose proof (zlen_nonneg ds).
  cbn [pops]. unfold Pop. rewrite u64_small by lia. rewrite decide_False by (cbn; lia).
  specialize (IH {| averagePeriod := averagePeriod p; next := next p + 1; nextToSkip := nextToSkip p |}).
  cbn [next nextToSkip] in IH. destruct (pops _ ds) as [p' ns]. cbn [snd] in *. rewrite IH by lia. rewrite (seqZ_cons (next p)) by lia.
  f_equal. f_equal; lia.
Qed.

Lemma pops_first p d ds : (pops p (d :: ds)).2 = next p :: (pops (Pop p d).1 ds).2.
Proof. cbn [pops]. unfold Pop. destruct (pops _ ds). done. Qed.

(** * Properties *)

(** The numbers of a path's packets never repeat and never leave out two in a row, whatever is drawn:
    each is the one before it plus one or two.  And a generator as it is set up never leaves one out:
    the number to skip is only drawn after a skip, and starts at 0, which has passed already. *)
Theorem packet_numbers p draws :
  (0 ≤ next p)%Z → (next p + 2 * zlen draws < 2 ^ 64)%Z →
  (∀ i n n', (pops p draws).2 !! i = Some n → (pops p draws).2 !! S i = Some n' → n' = n + 1 ∨ n' = n + 2)%Z ∧
  ∀ period, p = newPacketNumberGenerator period → (pops p draws).2 = seqZ 1 (zlen draws).
Proof.
  intros H0 Hn. split.
  - revert p H0 Hn. induction draws as [|d ds IH]; intros p H0 Hn i n n'; [done|]. rewrite zlen_cons in Hn.
    pose proof (zlen_nonneg ds). rewrite pops_first. destruct (Pop_next p d H0 ltac:(lia)) as [Hnext _].
    destruct i as [|i]; [|apply IH; lia]. intros [= <-]. destruct ds as [|d2 ds]; [done|]. rewrite pops_first.
    intros E. change (Some (next (Pop p d).1) = Some n') in E. apply (inj Some) in E. subst n'. destruct Hnext as [Hx|[Hx _]]; rewrite Hx; [left|right]; done.
  - intros period ->. apply pops_without_skip; cbn; [done|done|]. cbn in Hn. pose proof (zlen_nonneg draws). lia.
Qed.
Lemma packet_numbers_witness :
  (pops (newPacketNumberGenerator 500) (replicate 5 (Some (0, 7)%Z))).2 = [1; 2; 3; 4; 5]%Z.
Proof.
  destruct (packet_numbers (newPacketNumberGenerator 500) (replicate 5 (Some (0, 7)%Z))) as [_ H]; [done|by vm_compute|].
  rewrite (H 500%Z eq_refl). vm_compute. reflexivity.
Defined.
