(* ===== verification/Path.v ===== *)
(** A path of a connection (src/mp-quic/path.go, internal/utils/minmax.go).

    A path has its own packet numbers, congestion control and acknowledgements.  The
    round-trip statistics it shares with its sent packet handler are the ones of the handler.
    Channels: [closeChan] and [sentPacket] hold at most one element and are flags, the others
    only wake goroutines.  [handlePacketImpl], which calls the session, is in Session.v. *)

From Stdlib Require Import ZArith Lia.
From Stdlib Require Import Strings.Byte.
From stdpp Require Import prelude numbers list.
From S2P Require Import Prelude Protocol Wire ReceivedPackets AckCodec PacketUnpacker Handshake RTTStats SentPackets PacketNumberGenerator.

Open Scope Z_scope.

Definition minPathTimer : Z := 10 * Millisecond.
Definition maxPathTimer : Z := 1 * Second.
Definition SkipPacketAveragePeriodLength : Z := 500.

Definition MinTime (a b : Z) : Z := if decide (b < a) then b else a.
Definition MaxTime (a b : Z) : Z := if decide (b < a) then a else b.
Definition MaxPacketNumber (a b : Z) : Z := if decide (b < a) then a else b.

(** A connection is told by its two addresses. *)
Record UDPAddr : Type := { addr_IP : list byte; addr_Port : Z }.
#[export] Instance UDPAddr_eq_dec : EqDecision UDPAddr.
Proof. solve_decision. Defined.
Record connection : Type := { LocalAddr : UDPAddr; RemoteAddr : UDPAddr }.

Record path (C : Type) : Type := {
  pathID : Z;
  conn : connection;
  sent : sentPacketHandler C;
  rcvd : receivedPacketHandler;
  open : bool;
  closeChan : bool;
  potentiallyFailed : bool;
  sentPacket : bool;
  generator : packetNumberGenerator;
  lastRcvdPacketNumber : Z;
  largestRcvdPacketNumber : Z;
  leastUnacked : Z;
  lastNetworkActivityTime : Z
}.
#[global] Arguments pathID {C} _.
#[global] Arguments conn {C} _.
#[global] Arguments sent {C} _.
#[global] Arguments rcvd {C} _.
#[global] Arguments open {C} _.
#[global] Arguments closeChan {C} _.
#[global] Arguments potentiallyFailed {C} _.
#[global] Arguments sentPacket {C} _.
#[global] Arguments generator {C} _.
#[global] Arguments lastRcvdPacketNumber {C} _.
#[global] Arguments largestRcvdPacketNumber {C} _.
#[global] Arguments leastUnacked {C} _.
#[global] Arguments lastNetworkActivityTime {C} _.

Section path.
Context {C : Type} `{!SendAlgorithm C}.
Implicit Types p : path C.

(** Assignments to groups of fields. *)
Definition set_handlers p (s : sentPacketHandler C) (r : receivedPacketHandler) (g : packetNumberGenerator) : path C := {|
  pathID := pathID p; conn := conn p; sent := s; rcvd := r; open := open p; closeChan := closeChan p;
  potentiallyFailed := potentiallyFailed p; sentPacket := sentPacket p; generator := g; lastRcvdPacketNumber := lastRcvdPacketNumber p;
  largestRcvdPacketNumber := largestRcvdPacketNumber p; leastUnacked := leastUnacked p;
  lastNetworkActivityTime := lastNetworkActivityTime p
|}.
Definition set_liveness p (op closing failed : bool) (last : Z) : path C := {|
  pathID := pathID p; conn := conn p; sent := sent p; rcvd := rcvd p; open := op; closeChan := closing;
  potentiallyFailed := failed; sentPacket := sentPacket p; generator := generator p; lastRcvdPacketNumber := lastRcvdPacketNumber p;
  largestRcvdPacketNumber := largestRcvdPacketNumber p; leastUnacked := leastUnacked p;
  lastNetworkActivityTime := last
|}.
Definition set_numbers p (c : connection) (last largest least : Z) : path C := {|
  pathID := pathID p; conn := c; sent := sent p; rcvd := rcvd p; open := open p; closeChan := closeChan p;
  potentiallyFailed := potentiallyFailed p; sentPacket := sentPacket p; generator := generator p; lastRcvdPacketNumber := last;
  largestRcvdPacketNumber := largest; leastUnacked := least;
  lastNetworkActivityTime := lastNetworkActivityTime p
|}.
Definition set_sent p (s : sentPacketHandler C) : path C := set_handlers p s (rcvd p) (generator p).
Definition set_rcvd p (r : receivedPacketHandler) : path C := set_handlers p (sent p) r (generator p).
Definition set_generator p (g : packetNumberGenerator) : path C := set_handlers p (sent p) (rcvd p) g.
Definition set_sentPacket p (b : bool) : path C := {|
  pathID := pathID p; conn := conn p; sent := sent p; rcvd := rcvd p; open := open p; closeChan := closeChan p;
  potentiallyFailed := potentiallyFailed p; sentPacket := b; generator := generator p;
  lastRcvdPacketNumber := lastRcvdPacketNumber p; largestRcvdPacketNumber := largestRcvdPacketNumber p;
  leastUnacked := leastUnacked p; lastNetworkActivityTime := lastNetworkActivityTime p
|}.
Definition set_failed p (failed : bool) : path C := set_liveness p (open p) (closeChan p) failed (lastNetworkActivityTime p).

(** [p.rttStats] changes. *)
Definition set_rtt p (r : RTTStats) : path C :=
  let h := sent p in
  set_sent p (set_acked h (largestAcked h) (largestReceivedPacketWithAck h) (skippedPackets h) (stopWaiting h) r).


(** Whether [setup] makes the path one of the coupled OLIA senders; the sender itself is [cong]. *)
Definition coupled (version id : Z) (has_senders : bool) : bool :=
  bool_decide (VersionMP ≤ version) && has_senders && negb (bool_decide (id = InitialPathID)).
Definition setup (id : Z) (c : connection) (version : Z) (cong : C) (now : Z) : path C := {|
  pathID := id; conn := c; sent := NewSentPacketHandler NewRTTStats cong; rcvd := NewReceivedPacketHandler version;
  open := true; closeChan := false; potentiallyFailed := false; sentPacket := false;
  generator := newPacketNumberGenerator SkipPacketAveragePeriodLength;
  lastRcvdPacketNumber := 0; largestRcvdPacketNumber := 0; leastUnacked := 0; lastNetworkActivityTime := now
|}.

Definition path_close p : path C := set_liveness p false (closeChan p) (potentiallyFailed p) (lastNetworkActivityTime p).

(** [run] when a request to close has come. *)
Definition run_closed p : path C :=
  if closeChan p then path_close (set_liveness p (open p) false (potentiallyFailed p) (lastNetworkActivityTime p)) else p.

(** [run] when a packet was sent: the timer is reset. *)
Definition run_sent p : path C := if open p then set_sentPacket p false else p.

Definition path_SendingAllowed p : bool := open p && SendingAllowed (sent p).

Definition path_GetStopWaitingFrame p (force : bool) : path C * option StopWaitingFrame :=
  let '(s, f) := sent_GetStopWaitingFrame (sent p) force in
  (set_sent p s, (λ least, {| LeastUnacked := least; SPacketNumberLen := 0; SPacketNumber := 0 |}) <$> f).

Definition with_path_id (id : Z) (a : AckFrame) : AckFrame := {|
  APathID := id; LargestAcked := LargestAcked a; LowestAcked := LowestAcked a; AckRanges := AckRanges a;
  PacketReceivedTime := PacketReceivedTime a; DelayTime := DelayTime a
|}.
Definition path_GetAckFrame p (now : Z) : option (path C * option AckFrame) :=
  match GetAckFrame (rcvd p) now with
  | None => None
  | Some (r, ack) => Some (set_rcvd p r, with_path_id (pathID p) <$> ack)
  end.

(** [None] is a panic: no packet was received on the path. *)
Definition path_GetClosePathFrame p : option ClosePathFrame :=
  f ← GetClosePathFrame (rcvd p);
  Some {| CPathID := pathID p; CLargestAcked := CLargestAcked f; CLowestAcked := CLowestAcked f; CAckRanges := CAckRanges f |}.

(** What [idleTimeout] reads of the session. *)
Record idle_env : Type := {
  ie_crypto : bool; ie_handshakeComplete : bool; ie_IdleConnectionStateLifetime : Z; ie_HandshakeTimeout : Z
}.
Definition path_idleTimeout p (e : idle_env) : Z :=
  if ie_crypto e then
    if open p && (negb (bool_decide (pathID p = 0)) || ie_handshakeComplete e) then ie_IdleConnectionStateLifetime e
    else ie_HandshakeTimeout e
  else Second.

(** The deadline the timer is reset to; the clock is read twice. *)
Definition path_maybeResetTimer p (e : idle_env) (now1 now2 : Z) : Z :=
  let deadline := lastNetworkActivityTime p + path_idleTimeout p e in
  let deadline := match ackAlarm (rcvd p) with Some t => t | None => deadline end in
  let deadline := match GetAlarmTimeout (sent p) with Some t => MinTime deadline t | None => deadline end in
  MinTime (MaxTime deadline (now1 + minPathTimer)) (now2 + maxPathTimer).

(** The path, and whether it failed: then the session schedules a PATHS frame. *)
Definition onRTO p (lastSentTime : Z) : path C * bool :=
  if decide (lastNetworkActivityTime p < lastSentTime) then (set_failed p true, true) else (p, false).

Definition SetLeastUnacked p (least : Z) : path C :=
  set_numbers p (conn p) (lastRcvdPacketNumber p) (largestRcvdPacketNumber p) least.
End path.

Close Scope Z_scope.
