(* ===== verification/PacketPacker.v ===== *)
(** The packing of frames into sealed packets (src/mp-quic/packet_packer.go).

    Methods of the packer change its queues, the framer, the streams and windows below it
    ([packing]) and the path the packet is for; they return the packet or an error.  The
    cryptographic setup is an argument, by the answers of its interface
    (src/mp-quic/internal/handshake/interface.go); a sealer is an [AEAD] that is not opened.
    [None] is a panic. *)

From Stdlib Require Import ZArith Lia.
From Stdlib Require Import Strings.Byte.
From stdpp Require Import prelude numbers list gmap.
From S2P Require Import Prelude ByteOrder Protocol Wire StreamSorter ReceivedPackets FlowControl AckCodec PublicHeader.
From S2P Require Import PacketUnpacker Handshake RTTStats SentPackets Stream StreamsMap StreamFramer NullAEAD PacketNumberGenerator Path.

Open Scope Z_scope.

Definition NonForwardSecurePacketSizeReduction : Z := 50.

Inductive PackError : Type :=
| PackWire (e : WireError)
| errNoSealer
| errNoAckQueued
| errForwardSecureHandshake
| errNoStopWaiting
| errPayloadTooLarge
| errPacketTooLarge
| errNumbersDiffer.

Record packedPacket : Type := {
  pp_number : Z; pp_raw : list byte; pp_frames : list Frame; pp_level : EncryptionLevel
}.

(** What the setup answers at the time of the call. *)
Record CryptoSetup : Type := {
  GetSealer : EncryptionLevel * AEAD;
  GetSealerWithEncryptionLevel : EncryptionLevel → option AEAD;
  GetSealerForCryptoStream : EncryptionLevel * AEAD;
  crypto_DiversificationNonce : list byte
}.

(** A nil frame in one of the maps is no entry. *)
Record packetPacker : Type := {
  pa_connectionID : Z; pa_perspective : Perspective; pa_version : Z;
  pa_controlFrames : list Frame; pa_stopWaiting : gmap Z StopWaitingFrame; pa_ackFrame : gmap Z AckFrame
}.
Definition newPacketPacker (connectionID : Z) (perspective : Perspective) (version : Z) : packetPacker := {|
  pa_connectionID := connectionID; pa_perspective := perspective; pa_version := version;
  pa_controlFrames := []; pa_stopWaiting := ∅; pa_ackFrame := ∅
|}.
Definition set_queues (p : packetPacker) (control : list Frame) (stop : gmap Z StopWaitingFrame) (ack : gmap Z AckFrame) :
    packetPacker := {|
  pa_connectionID := pa_connectionID p; pa_perspective := pa_perspective p; pa_version := pa_version p;
  pa_controlFrames := control; pa_stopWaiting := stop; pa_ackFrame := ack
|}.

(** The packer with the framer it calls, and what that calls. *)
Record packing : Type := {
  pk_packer : packetPacker; pk_framer : streamFramer; pk_map : streamsMap; pk_flow : flowControlManager
}.
Definition with_packer (k : packing) (p : packetPacker) : packing :=
  {| pk_packer := p; pk_framer := pk_framer k; pk_map := pk_map k; pk_flow := pk_flow k |}.

(** What a call reads elsewhere: the connection parameters, the limit on streams, whether the
    handshake is complete, the age of ACK frames and the random bytes. *)
Record pack_env : Type := {
  pe_crypto : CryptoSetup; pe_params : ConnectionParameters; pe_limit : Z; pe_TruncateConnectionID : bool;
  pe_handshakeComplete : bool; pe_since : AckFrame → Z; pe_drawn : option (Z * Z)
}.

#[export] Instance EncryptionLevel_eq_dec : EqDecision EncryptionLevel.
Proof. solve_decision. Defined.

(** * Queues *)

(** The two maps also take nil frames. *)
Definition queue_stop_waiting (p : packetPacker) (id : Z) (f : option StopWaitingFrame) : packetPacker :=
  set_queues p (pa_controlFrames p) (partial_alter (λ _, f) id (pa_stopWaiting p)) (pa_ackFrame p).
Definition queue_ack (p : packetPacker) (id : Z) (f : option AckFrame) : packetPacker :=
  set_queues p (pa_controlFrames p) (pa_stopWaiting p) (partial_alter (λ _, f) id (pa_ackFrame p)).
Definition queue_control (p : packetPacker) (fs : list Frame) : packetPacker :=
  set_queues p fs (pa_stopWaiting p) (pa_ackFrame p).

Definition QueueControlFrame (p : packetPacker) (f : Frame) (id : Z) : packetPacker :=
  match f with
  | FStopWaiting f => queue_stop_waiting p id (Some f)
  | FAck f => queue_ack p id (Some f)
  | _ => queue_control p (pa_controlFrames p ++ [f])
  end.

(** [p.stopWaiting[id].PacketNumber = ...], if there is one. *)
Definition number_stop_waiting (p : packetPacker) (id : Z) (h : PublicHeader) : packetPacker :=
  queue_stop_waiting p id
    ((λ f, {| LeastUnacked := LeastUnacked f; SPacketNumberLen := PacketNumberLen h; SPacketNumber := PacketNumber h |})
     <$> pa_stopWaiting p !! id).

Definition canSendData (pers : Perspective) (level : EncryptionLevel) : bool :=
  match pers with
  | PerspectiveClient => bool_decide (level_value EncryptionSecure ≤ level_value level)
  | PerspectiveServer => bool_decide (level = EncryptionForwardSecure)
  end.

Section packer.
Context {C : Type} `{!SendAlgorithm C}.
Implicit Types (e : pack_env) (k : packing) (pth : path C).

(** * Headers and sealing *)

Definition getPublicHeader e (p : packetPacker) (level : EncryptionLevel) pth : PublicHeader :=
  let pnum := Peek (generator pth) in
  let with_version := bool_decide (pa_perspective p = PerspectiveClient ∧ level ≠ EncryptionForwardSecure) in
  let multipath := pe_handshakeComplete e && bool_decide (VersionMP ≤ pa_version p) in
  {| ConnectionID := pa_connectionID p; HPathID := if multipath then pathID pth else 0;
     VersionFlag := with_version; ResetFlag := false;
     TruncateConnectionID := if multipath then false else pe_TruncateConnectionID e;
     MultipathFlag := multipath; PacketNumberLen := GetPacketNumberLengthForPublicHeader pnum (leastUnacked pth);
     PacketNumber := pnum; VersionNumber := if with_version then pa_version p else 0; SupportedVersionsField := [];
     DiversificationNonce :=
       if decide (pa_perspective p = PerspectiveServer ∧ level = EncryptionSecure)
       then crypto_DiversificationNonce (pe_crypto e) else [] |}.

(** The packet is sealed in its buffer. *)
Definition writeAndSealPacket e (p : packetPacker) (h : PublicHeader) (fs : list Frame) (sealer : AEAD) pth :
    option (path C * result PackError (list byte)) :=
  '(header, err) ← write_PublicHeader h (pa_version p) (pa_perspective p);
  match err with
  | Some err => Some (pth, Err (PackWire err))
  | None =>
      '(payload, err) ← write_frames (pa_version p) (pe_since e) fs;
      match err with
      | Some err => Some (pth, Err (PackWire err))
      | None =>
          let len := zlen header + zlen payload + Overhead sealer in
          if decide (MaxPacketSize < len) then Some (pth, Err errPacketTooLarge)
          else
            let raw := take (Z.to_nat len) (header ++ Seal sealer payload (PacketNumber h) header) in
            let '(g, num) := Pop (generator pth) (pe_drawn e) in
            let pth := set_generator pth g in
            if decide (num ≠ PacketNumber h) then Some (pth, Err errNumbersDiffer) else Some (pth, Ok raw)
      end
  end.

(** Header, frames and sealing of a packet; [k] is what the queues are by then. *)
Definition pack_frames e k (level : EncryptionLevel) (sealer : AEAD) (h : PublicHeader) (fs : list Frame) pth :
    option (packing * path C * result PackError (option packedPacket)) :=
  '(pth, r) ← writeAndSealPacket e (pk_packer k) h fs sealer pth;
  Some (k, pth, let* raw := r in
                Ok (Some {| pp_number := PacketNumber h; pp_raw := raw; pp_frames := fs; pp_level := level |})).

(** * Composing the payload *)

(** Control frames are taken from the end, the last one first in [queue]. *)
Fixpoint take_control (queue : list Frame) (maxFrameSize payloadLength : Z) (payload : list Frame) :
    list Frame * list Frame * Z * option WireError :=
  match queue with
  | [] => ([], payload, payloadLength, None)
  | f :: rest =>
      match frame_MinLength f with
      | Err err => (queue, payload, payloadLength, Some err)
      | Ok minLength =>
          if decide (maxFrameSize < u64 (payloadLength + minLength)) then (queue, payload, payloadLength, None)
          else take_control rest maxFrameSize (u64 (payloadLength + minLength)) (payload ++ [f])
      end
  end.

(** The loop over [PopBlockedFrame]: each turn takes a frame out. *)
Fixpoint requeue_blocked (fuel : nat) (f : streamFramer) (control : list Frame) : streamFramer * list Frame :=
  match fuel with
  | O => (f, control)
  | S fuel =>
      match PopBlockedFrame f with
      | (f, Some b) => requeue_blocked fuel f (control ++ [FBlocked b])
      | (f, None) => (f, control)
      end
  end.

(** [fs[len(fs)-1].DataLenPresent = false] *)
Fixpoint shorten_last (fs : list StreamFrame) : list StreamFrame :=
  match fs with
  | [] => []
  | [f] => [with_DataLen f false]
  | f :: fs => f :: shorten_last fs
  end.

(** The STOP_WAITING and the ACK frame of the path. *)
Definition first_frames (p : packetPacker) (id : Z) : list Frame :=
  option_list (FStopWaiting <$> pa_stopWaiting p !! id) ++ option_list (FAck <$> pa_ackFrame p !! id).
Fixpoint add_lengths (fs : list Frame) (n : Z) : result WireError Z :=
  match fs with
  | [] => Ok n
  | f :: fs => let* l := frame_MinLength f in add_lengths fs (u64 (n + l))
  end.

Definition composeNextPacket e k (maxFrameSize : Z) (canSendStreamFrames : bool) (id : Z) :
    option (packing * result PackError (list Frame)) :=
  let p := pk_packer k in
  let payloadFrames := first_frames p id in
  match add_lengths payloadFrames 0 with
  | Err err => Some (k, Err (PackWire err))
  | Ok payloadLength =>
      let '(queue, payloadFrames, payloadLength, err) :=
        take_control (reverse (pa_controlFrames p)) maxFrameSize payloadLength payloadFrames in
      let p := queue_control p (reverse queue) in
      let k := with_packer k p in
      match err with
      | Some err => Some (k, Err (PackWire err))
      | None =>
          if decide (maxFrameSize < payloadLength) then Some (k, Err errPayloadTooLarge)
          else if negb canSendStreamFrames then Some (k, Ok payloadFrames)
          else
            '(f, m, fc, fs) ← PopStreamFrames (pe_params e) (pk_framer k) (pk_map k) (pk_flow k)
                                (u64 (u64 (maxFrameSize + 2) - payloadLength));
            let '(f, control) := requeue_blocked (length (blockedFrameQueue f)) f (pa_controlFrames p) in
            Some ({| pk_packer := queue_control p control; pk_framer := f; pk_map := m; pk_flow := fc |},
                  Ok (payloadFrames ++ (FStream <$> shorten_last fs)))
      end
  end.

(** * Packets *)

Definition packCryptoPacket e k pth : option (packing * path C * result PackError (option packedPacket)) :=
  let '(level, sealer) := GetSealerForCryptoStream (pe_crypto e) in
  let h := getPublicHeader e (pk_packer k) level pth in
  match GetLength h (pa_perspective (pk_packer k)) with
  | Err err => Some (k, pth, Err (PackWire err))
  | Ok len =>
      let maxLen := u64 (u64 (u64 (MaxPacketSize - Overhead sealer) - NonForwardSecurePacketSizeReduction) - len) in
      '(m, fc, r) ← PopCryptoStreamFrame (pe_params e) (pe_limit e) (pk_map k) (pk_flow k) maxLen;
      f ← r;
      pack_frames e {| pk_packer := pk_packer k; pk_framer := pk_framer k; pk_map := m; pk_flow := fc |} level sealer h
        [FStream f] pth
  end.

(** A PING at the front of the queue is sent alone. *)
Definition choose_payload e k (maxSize : Z) (level : EncryptionLevel) (id : Z) :
    option (packing * result PackError (list Frame)) :=
  match pa_controlFrames (pk_packer k) with
  | FPing :: rest => Some (with_packer k (queue_control (pk_packer k) rest), Ok [FPing])
  | _ => composeNextPacket e k maxSize (canSendData (pa_perspective (pk_packer k)) level) id
  end.

Definition PackPacket e k pth : option (packing * path C * result PackError (option packedPacket)) :=
  '(m, fc, crypto) ← HasCryptoStreamFrame (pe_params e) (pe_limit e) (pk_map k) (pk_flow k);
  let k := {| pk_packer := pk_packer k; pk_framer := pk_framer k; pk_map := m; pk_flow := fc |} in
  if (crypto : bool) then packCryptoPacket e k pth
  else
    let '(level, sealer) := GetSealer (pe_crypto e) in
    let h := getPublicHeader e (pk_packer k) level pth in
    match GetLength h (pa_perspective (pk_packer k)) with
    | Err err => Some (k, pth, Err (PackWire err))
    | Ok len =>
        let id := pathID pth in
        let k := with_packer k (number_stop_waiting (pk_packer k) id h) in
        '(k, r) ← choose_payload e k (u64 (u64 (MaxPacketSize - Overhead sealer) - len)) level id;
        match r with
        | Err err => Some (k, pth, Err err)
        | Ok [] => Some (k, pth, Ok None)
        | Ok payloadFrames =>
            if decide (length payloadFrames = 1%nat ∧ is_Some (pa_stopWaiting (pk_packer k) !! id))
            then Some (k, pth, Ok None)
            else
              let k := with_packer k (queue_ack (queue_stop_waiting (pk_packer k) id None) id None) in
              pack_frames e k level sealer h payloadFrames pth
        end
    end.

Definition PackPing e k pth : option (packing * path C * result PackError (option packedPacket)) :=
  let pth := SetLeastUnacked pth (GetLeastUnacked (sent pth)) in
  PackPacket e (with_packer k (queue_control (pk_packer k) (FPing :: pa_controlFrames (pk_packer k)))) pth.

Definition PackConnectionClose e k (ccf : ConnectionCloseFrame) pth :
    option (packing * path C * result PackError (option packedPacket)) :=
  let '(level, sealer) := GetSealer (pe_crypto e) in
  pack_frames e k level sealer (getPublicHeader e (pk_packer k) level pth) [FConnectionClose ccf] pth.

Definition PackAckPacket e k pth : option (packing * path C * result PackError (option packedPacket)) :=
  let id := pathID pth in
  match pa_ackFrame (pk_packer k) !! id with
  | None => Some (k, pth, Err errNoAckQueued)
  | Some ack =>
      let '(level, sealer) := GetSealer (pe_crypto e) in
      let h := getPublicHeader e (pk_packer k) level pth in
      let p := number_stop_waiting (pk_packer k) id h in
      let frames := FAck ack :: option_list (FStopWaiting <$> pa_stopWaiting p !! id) in
      pack_frames e (with_packer k (queue_ack (queue_stop_waiting p id None) id None)) level sealer h frames pth
  end.

Definition PackHandshakeRetransmission e k (packet : Packet) pth :
    option (packing * path C * result PackError (option packedPacket)) :=
  let id := pathID pth in
  if decide (PktEncryptionLevel packet = EncryptionForwardSecure) then Some (k, pth, Err errForwardSecureHandshake)
  else
    match GetSealerWithEncryptionLevel (pe_crypto e) (PktEncryptionLevel packet) with
    | None => Some (k, pth, Err errNoSealer)
    | Some sealer =>
        let h := getPublicHeader e (pk_packer k) (PktEncryptionLevel packet) pth in
        let p := number_stop_waiting (pk_packer k) id h in
        match pa_stopWaiting p !! id with
        | None => Some (k, pth, Err errNoStopWaiting)
        | Some stop =>
            pack_frames e (with_packer k (queue_stop_waiting p id None)) (PktEncryptionLevel packet) sealer h
              (FStopWaiting stop :: PktFrames packet) pth
        end
    end.
End packer.

Close Scope Z_scope.

(** * Lengths *)

(** The bytes of a frame in a packet; STREAM frames carry data on top of [MinLength]. *)
Definition packed_len (f : Frame) : Z :=
  match f with
  | FStream f => frame_len f
  | f => match frame_MinLength f with Ok n => n | Err _ => 0 end
  end.
Definition packed_lens (fs : list Frame) : Z := foldr (λ f n, packed_len f + n)%Z 0%Z fs.

Lemma packed_lens_app fs gs : packed_lens (fs ++ gs) = (packed_lens fs + packed_lens gs)%Z.
Proof. unfold packed_lens. induction fs as [|f fs IH]; simpl; lia. Qed.

(** The length byte of a PATHS frame wraps around from 85 paths on. *)
Definition few_paths (f : Frame) : Prop := match f with FPaths f => (NumPaths f ≤ 84)%Z | _ => True end.

Definition not_stream (f : Frame) : bool := match f with FStream _ => false | _ => true end.

Lemma roundtrip_written {A} w (parse : reader A) h len : roundtrip w parse h len → ∃ bs, writes w bs ∧ zlen bs = len.
Proof. intros (bs & ? & _ & ?). by exists bs. Qed.

Lemma stop_waiting_len f pnLen :
  SPacketNumberLen f = pnLen → valid_len pnLen → stop_waiting_MinLength f = Ok (1 + pnLen)%Z.
Proof.
  intros <- Hl. unfold stop_waiting_MinLength, PacketNumberLenInvalid, valid_len in *.
  by rewrite decide_False, u64_small by lia.
Qed.

Lemma carried_MinLength pn pnLen level since f g :
  carried pn pnLen level since f g → not_stream f = true → frame_MinLength f = Ok (packed_len f).
Proof.
  destruct 1 as [f|f|f|f|f|f|f|f Hpn Hlen| |f ip Hip Hport|f|f]; intros Hn; try done.
  - cbn. by rewrite (stop_waiting_len f pnLen).
  - destruct (add_address_roundtrip 0 f ip Hip Hport) as (len & E & _). cbn. by rewrite E.
Qed.

Lemma carried_written version pn pnLen level since f g :
  carried pn pnLen level since f g → few_paths f →
  ∃ bs, writes (write_frame version since f) bs ∧ zlen bs = packed_len f.
Proof.
  destruct 1 as [f Hok Hlev Hl|f|f|f|f|f|f|f Hpn Hlen| |f ip Hip Hport|f|f Hf]; intros Hfew.
  - destruct (stream_frame_roundtrip version f [] Hok) as (bs & Hw & _ & Hz).
    { destruct (DataLenPresent f); done. }
    by exists bs.
  - by eapply roundtrip_written, ack_written.
  - by eapply roundtrip_written, rst_roundtrip.
  - by eapply roundtrip_written, connection_close_roundtrip.
  - by eapply roundtrip_written, goaway_roundtrip.
  - by eapply roundtrip_written, window_update_roundtrip.
  - by eapply roundtrip_written, blocked_roundtrip.
  - cbn [packed_len frame_MinLength]. rewrite (stop_waiting_len f pnLen) by done.
    destruct f as [lu len n]. cbn in *. subst n len. by eapply roundtrip_written, stop_waiting_written.
  - by eapply roundtrip_written, ping_roundtrip.
  - destruct (add_address_roundtrip version f ip) as (len & E & Hr); [done|done|]. cbn [packed_len frame_MinLength].
    rewrite E. by eapply roundtrip_written.
  - by eapply roundtrip_written, close_path_written.
  - assert (packed_len (FPaths f) = 3 + 3 * NumPaths f)%Z as ->; [|by eapply roundtrip_written, paths_roundtrip].
    cbn in *. unfold paths_MinLength. pose proof (paths_ids f Hf). pose proof (zlen_nonneg (PathIDs f)).
    rewrite (u8_small (3 * _)) by lia. rewrite u8_small; lia.
Qed.

Lemma frames_written version pn pnLen level since fs gs :
  Forall2 (carried pn pnLen level since) fs gs → Forall few_paths fs →
  ∃ bs, writes (write_frames version since fs) bs ∧ zlen bs = packed_lens fs.
Proof.
  induction 1 as [|f g fs gs Hfg _ IH]; intros Hfew; [by exists []|]. apply Forall_cons in Hfew as [Hf Hfs].
  destruct (carried_written version _ _ _ _ f g Hfg Hf) as (b & Hw & Hz). destruct (IH Hfs) as (bs & Hws & Hzs).
  exists (b ++ bs). split.
  - cbn [write_frames]. rewrite Hw. by eapply writes_put.
  - rewrite zlen_app. simpl. lia.
Qed.

(** ** An ACK frame leaves room *)

Lemma below_short B lo rs : below lo rs → (lo < B ≤ 2 ^ 48)%Z → Forall (λ r, range_length r < B)%Z rs.
Proof.
  revert lo. induction rs as [|r rs IH]; intros lo; [constructor|]. intros (Hr & Hl & Hb) Hlo.
  constructor; [|apply (IH (First r)); [done|lia]]. unfold range_length. rewrite u64_small; lia.
Qed.

(** Up to packet number [2 ^ 32 - 2] a block takes at most four bytes. *)
Lemma short_delta f : ack_sendable f → (LargestAcked f < 2 ^ 32 - 1)%Z → (getMissingSequenceNumberDeltaLen f ≤ 4)%Z.
Proof.
  intros Hf Hs. pose proof Hf as [_ Hl _ _ _ _]. unfold getMissingSequenceNumberDeltaLen, HasMissingRanges.
  assert (∀ m, (m ≤ 4294967295)%Z → ((if decide (m ≤ 255) then PacketNumberLen1
           else if decide (m ≤ 65535) then PacketNumberLen2
           else if decide (m ≤ 4294967295) then PacketNumberLen4 else PacketNumberLen6) ≤ 4)%Z) as H.
  { intros m Hm. unfold PacketNumberLen1, PacketNumberLen2, PacketNumberLen4. repeat case_decide; lia. }
  apply H. clear H. case_bool_decide as Hr; [|rewrite u64_small; lia].
  destruct (AckRanges f) as [|r rs] eqn:E; [done|]. destruct (sendable_ranges f r rs Hf E) as (_ & H2 & H3 & H4).
  destruct (max_range_length_spec (r :: rs) 0) as (_ & _ & H5). unfold max_range_length.
  enough (foldl (λ m r, if decide (m < range_length r) then range_length r else m) 0 (r :: rs) < 4294967296)%Z by lia.
  apply H5; [lia|]. constructor; [unfold range_length; rewrite u64_small; lia|].
  eapply below_short; [done|lia].
Qed.

(** The bytes of the ranges, at most [255] blocks of width [w]. *)
Lemma blocks_len f w : ack_sendable f → first_gap_fits f → (getMissingSequenceNumberDeltaLen f ≤ w)%Z →
  (0 < (if HasMissingRanges f then (1 + getMissingSequenceNumberDeltaLen f) * numWritableNackRanges f
        else getMissingSequenceNumberDeltaLen f) ≤ (1 + w) * 255)%Z.
Proof.
  intros Hf Hg Hle. destruct (delta_width f Hf) as (Hw & _).
  destruct (ranges_written bigEndian mask48 mask48_ok f finish [] Hf Hg) as (_ & _ & _ & _ & Hn); [done|].
  unfold valid_len in *. destruct (HasMissingRanges f); [specialize (Hn eq_refl)|]; nia.
Qed.

Lemma ack_len_bounds f : ack_sendable f → first_gap_fits f → (0 < ack_MinLength f ≤ 1796)%Z.
Proof.
  intros Hf Hg. pose proof Hf as [_ Hl Hlg _ _ _]. destruct (largest_width (LargestAcked f)) as [Hw1 _]; [lia|].
  pose proof (blocks_len f 6 Hf Hg) as Hb. destruct (delta_width f Hf) as (Hw & _). unfold valid_len in *.
  unfold ack_MinLength. destruct (HasMissingRanges f); case_decide; lia.
Qed.

Lemma ack_leaves_room f :
  ack_sendable f → first_gap_fits f → (LargestAcked f < 2 ^ 32 - 1)%Z → (0 < ack_MinLength f ≤ 1284)%Z.
Proof.
  intros Hf Hg Hs. pose proof Hf as [_ Hl _ _ _ _].
  pose proof (blocks_len f 4 Hf Hg (short_delta f Hf Hs)) as Hb.
  assert (1 ≤ GetPacketNumberLength (LargestAcked f) ≤ 4)%Z as Hw1.
  { unfold GetPacketNumberLength, PacketNumberLen1, PacketNumberLen2, PacketNumberLen4, PacketNumberLen6.
    rewrite !Z.shiftl_mul_pow2 by lia. repeat case_decide; lia. }
  unfold ack_MinLength. destruct (HasMissingRanges f); case_decide; lia.
Qed.

(** ** Frames that wait *)

(** The peer gets them whatever packet they are sent in, and they are shorter than [2 ^ 11]. *)
Record waiting (f : Frame) : Prop := {
  wt_carried pn pnLen level since : ∃ g, carried pn pnLen level since f g;
  wt_control : match f with FStream _ | FAck _ | FStopWaiting _ => False | _ => True end;
  wt_few : few_paths f
}.

Lemma waiting_len f : waiting f → frame_MinLength f = Ok (packed_len f) ∧ (0 < packed_len f < 2048)%Z.
Proof.
  intros [Hc Hk Hfew]. destruct (Hc 1 2 EncryptionForwardSecure (λ _, 0))%Z as [g Hg]. split.
  { eapply carried_MinLength; [exact Hg|by destruct f]. }
  destruct Hg as [f|f|f|f Hx Hr|f Hx Hy Hr|f|f|f| |f ip Hip Hport|f Hf Hgap|f Hf]; try done; cbn [packed_len frame_MinLength].
  - unfold connection_close_MinLength. unfold reason_ok, MaxPacketSize in Hr. pose proof (zlen_nonneg (CReasonPhrase f)). lia.
  - unfold goaway_MinLength. unfold reason_ok, MaxPacketSize in Hr. pose proof (zlen_nonneg (GReasonPhrase f)). lia.
  - unfold add_address_MinLength. destruct Hip as [[-> _]|[-> _]]; lia.
  - pose proof (blocks_len (as_ack f) 6 Hf Hgap) as Hb. destruct (delta_width (as_ack f) Hf) as (Hw & _).
    pose proof Hf as [_ Hl Hlg _ _ _]. destruct (largest_width (LargestAcked (as_ack f))) as [Hw1 _]; [lia|].
    unfold valid_len in *. unfold ClosePath.MinLength. change (CLargestAcked f) with (LargestAcked (as_ack f)).
    change (ClosePath.HasMissingRanges f) with (HasMissingRanges (as_ack f)).
    unfold ClosePath.numWritableNackRanges, ClosePath.getMissingSequenceNumberDeltaLen.
    destruct (HasMissingRanges (as_ack f)); lia.
  - cbn in Hfew. unfold paths_MinLength. pose proof (paths_ids f Hf). pose proof (zlen_nonneg (PathIDs f)).
    rewrite (u8_small (3 * _)) by lia. rewrite u8_small; lia.
Qed.

(** * What is composed *)

Lemma take_control_ok maxSize q : Forall waiting q → (maxSize ≤ 2 ^ 32)%Z → ∀ len payload, (0 ≤ len ≤ 2 ^ 32)%Z →
  ∃ taken rest, take_control q maxSize len payload = (rest, payload ++ taken, (len + packed_lens taken)%Z, None) ∧
    q = taken ++ rest ∧ (len ≤ maxSize → len + packed_lens taken ≤ maxSize)%Z.
Proof.
  intros Hq Hmax. induction Hq as [|f q Hf Hq IH]; intros len payload Hlen.
  { exists [], []. cbn [take_control]. change (packed_lens []) with 0%Z. rewrite app_nil_r, Z.add_0_r. done. }
  destruct (waiting_len f Hf) as [E Hb]. cbn [take_control]. rewrite E. rewrite u64_small by lia. case_decide as Hd.
  { exists [], (f :: q). change (packed_lens []) with 0%Z. rewrite app_nil_r, Z.add_0_r. done. }
  destruct (IH (len + packed_len f)%Z (payload ++ [f])) as (taken & rest & -> & -> & Hle); [lia|].
  exists (f :: taken), rest. change (packed_lens (f :: taken)) with (packed_len f + packed_lens taken)%Z.
  rewrite <-app_assoc, Z.add_assoc. split; [done|]. split; [done|]. intros _. apply Hle. lia.
Qed.

Lemma requeue_blocked_ok f control :
  requeue_blocked (length (blockedFrameQueue f)) f control =
    (set_control f [] (addAddressFrameQueue f) (closePathFrameQueue f) (pathsFrame f), control ++ (FBlocked <$> blockedFrameQueue f)).
Proof.
  remember (blockedFrameQueue f) as q eqn:E. revert f control E. induction q as [|b q IH]; intros f control E.
  - cbn. rewrite app_nil_r. f_equal. destruct f; cbn in *. by rewrite <-E.
  - cbn [length requeue_blocked]. unfold PopBlockedFrame. rewrite <-E. rewrite IH by done.
    cbn. by rewrite <-app_assoc.
Qed.

Lemma add_lengths_ok fs n :
  Forall (λ f, frame_MinLength f = Ok (packed_len f) ∧ 0 ≤ packed_len f < 2 ^ 32)%Z fs → (0 ≤ n)%Z →
  (n + zlen fs * 2 ^ 32 < 2 ^ 64)%Z → add_lengths fs n = Ok (n + packed_lens fs)%Z.
Proof.
  intros Hfs. revert n. induction Hfs as [|f fs [E Hf] Hfs IH]; intros n Hn Hz; [cbn; f_equal; lia|].
  rewrite zlen_cons in Hz. pose proof (zlen_nonneg fs). cbn [add_lengths]. rewrite E. cbn [result_bind].
  rewrite u64_small by lia. rewrite IH by lia. f_equal. cbn. fold (packed_lens fs). lia.
Qed.

(** The last frame saves its two bytes of length. *)
Lemma shorten_snoc fs f : shorten_last (fs ++ [f]) = fs ++ [with_DataLen f false].
Proof.
  induction fs as [|g fs IH]; [done|]. cbn [app shorten_last]. rewrite IH.
  destruct (fs ++ [f]) eqn:E; [by destruct fs|done].
Qed.
Lemma short_frame_len f : DataLenPresent f = true → (frame_len (with_DataLen f false) = frame_len f - 2)%Z.
Proof.
  intros Hp. unfold frame_len, stream_MinLength, calculateStreamIDLength, getOffsetLength. rewrite Hp. cbn [with_DataLen DataLenPresent StreamID Offset].
  unfold DataLen. cbn [with_DataLen SData]. cbv zeta. repeat case_decide; rewrite !u64_small; lia.
Qed.
Lemma packed_streams fs : packed_lens (FStream <$> fs) = frames_len fs.
Proof. induction fs as [|f fs IH]; [done|]. cbn. fold (packed_lens (FStream <$> fs)) (frames_len fs). by rewrite IH. Qed.

Lemma shorten_fits fs room :
  Forall (λ f, DataLenPresent f = true) fs → (0 ≤ room)%Z → (frames_len fs ≤ room + 2)%Z → (frames_len (shorten_last fs) ≤ room)%Z.
Proof.
  intros Hp Hr Hfs. destruct fs as [|f fs _] using rev_ind; [done|]. rewrite shorten_snoc. rewrite frames_len_snoc in *.
  apply Forall_app in Hp as [_ [Hp _]%Forall_cons]. rewrite short_frame_len by done. lia.
Qed.

Lemma rest_last_app fs gs :
  Forall (λ f, takes_rest f = false) fs → rest_last gs → rest_last (fs ++ gs).
Proof.
  intros Hf Hg. induction Hf as [|f fs Hf Hfs IH]; [done|]. cbn [app rest_last].
  destruct (fs ++ gs) eqn:E; [done|]. by split.
Qed.
Lemma shorten_rest_last fs : Forall (λ f, DataLenPresent f = true) fs → rest_last (FStream <$> shorten_last fs).
Proof.
  intros Hp. destruct fs as [|f fs _] using rev_ind; [done|]. rewrite shorten_snoc, fmap_app.
  apply Forall_app in Hp as [Hp _]. apply rest_last_app; [|done]. apply Forall_fmap. eapply Forall_impl; [exact Hp|].
  intros g Hg. cbn. by rewrite Hg.
Qed.
Lemma frame_len_data f : (DataLen f ≤ frame_len f)%Z.
Proof. pose proof (MinLength_bounds f). unfold frame_len. lia. Qed.
Lemma frames_len_elem f fs : f ∈ fs → (frame_len f ≤ frames_len fs)%Z.
Proof.
  assert (∀ g, 0 < frame_len g)%Z as Hpos.
  { intros g. pose proof (MinLength_bounds g). unfold frame_len, DataLen. pose proof (zlen_nonneg (SData g)). lia. }
  assert (∀ l, 0 ≤ frames_len l)%Z as Hnn.
  { induction l as [|g l IH]; [done|]. cbn. fold (frames_len l). specialize (Hpos g). lia. }
  induction fs as [|g fs IH]; [by intros ?%not_elem_of_nil|]. intros [->|Hf]%elem_of_cons; cbn; fold (frames_len fs).
  - specialize (Hnn fs). lia.
  - specialize (IH Hf). specialize (Hpos g). lia.
Qed.

Lemma shorten_elem fs f : f ∈ shorten_last fs → ∃ g b, g ∈ fs ∧ f = with_DataLen g b.
Proof.
  destruct fs as [|g fs _] using rev_ind; [by intros ?%not_elem_of_nil|]. rewrite shorten_snoc.
  intros [Hf|Hf]%elem_of_app.
  - exists f, (DataLenPresent f). split; [apply elem_of_app; by left|by destruct f].
  - apply list_elem_of_singleton in Hf as ->. exists g, false. split; [apply elem_of_app; right; by apply list_elem_of_singleton|done].
Qed.

Lemma stream_frame_ok_flag f b : stream_frame_ok f → stream_frame_ok (with_DataLen f b).
Proof. intros []. by split. Qed.

(** The streams, framer and windows of the packer are those of a [sender]. *)
Definition view (k : packing) (out : list StreamFrame) (acc : gmap Z (list byte)) : sender := {|
  se_map := pk_map k; se_flow := pk_flow k; se_framer := pk_framer k; se_out := out; se_accepted := acc
|}.

(** STOP_WAITING and ACK first, then control frames off the end of the queue, then stream data. *)
Definition composed (p p' : packetPacker) (id : Z) (popped : list StreamFrame) (fs : list Frame) : Prop :=
  ∃ taken rest blocked,
    fs = first_frames p id ++ taken ++ (FStream <$> shorten_last popped) ∧
    pa_controlFrames p = rest ++ reverse taken ∧ p' = queue_control p (rest ++ (FBlocked <$> blocked)).

Section composing.
Context (e : pack_env) (pn pnLen : Z) (level : EncryptionLevel).

Definition arrives_as (f : Frame) : Prop := ∃ g, carried pn pnLen level (pe_since e) f g.

Lemma first_frames_ok p id :
  Forall arrives_as (first_frames p id) →
  Forall (λ f, (frame_MinLength f = Ok (packed_len f) ∧ 0 ≤ packed_len f < 2 ^ 32)%Z ∧ few_paths f ∧ takes_rest f = false)
    (first_frames p id).
Proof.
  assert (∀ f, match f with FStopWaiting _ | FAck _ => True | _ => False end → arrives_as f →
    (frame_MinLength f = Ok (packed_len f) ∧ 0 ≤ packed_len f < 2 ^ 32)%Z ∧ few_paths f ∧ takes_rest f = false) as H.
  { intros f Hk [g Hg]. split; [|by destruct f]. split; [eapply carried_MinLength; [exact Hg|by destruct f]|].
    destruct Hg as [f|f Hf Hgap|f|f|f|f|f|f Hpn Hlen Hv| |f|f|f]; try done.
    - cbn. pose proof (ack_len_bounds f Hf Hgap). lia.
    - cbn. rewrite (stop_waiting_len f pnLen) by done. unfold valid_len in Hv. lia. }
  unfold first_frames. intros [Hs Ha]%Forall_app. apply Forall_app. split.
  - destruct (pa_stopWaiting p !! id); [|constructor]. apply Forall_cons in Hs as [Hs _]. (apply Forall_cons_2; [by apply H|constructor]).
  - destruct (pa_ackFrame p !! id); [|constructor]. apply Forall_cons in Ha as [Ha _]. (apply Forall_cons_2; [by apply H|constructor]).
Qed.

Lemma popped_arrive popped :
  Forall stream_frame_ok popped → (level_value EncryptionUnencrypted < level_value level)%Z →
  (frames_len (shorten_last popped) ≤ MaxPacketSize)%Z → Forall arrives_as (FStream <$> shorten_last popped).
Proof.
  intros Hok Hlev Hlen. apply Forall_fmap, Forall_forall. intros f Hf. exists (FStream f).
  destruct (shorten_elem _ _ Hf) as (g & b & Hg & ->). rewrite Forall_forall in Hok.
  pose proof (frames_len_elem _ _ Hf). pose proof (frame_len_data (with_DataLen g b)) as Hd. unfold DataLen, MaxPacketSize in *.
  apply carried_stream; [by apply stream_frame_ok_flag, Hok|by right|]. unfold MaxPacketSize. cbn in *. destruct b; lia.
Qed.

Lemma composeNextPacket_ok k maxSize can out acc n B id :
  sender_ok n B (view k out acc) → (0 ≤ n < 2 ^ 28)%Z → (B < 2 ^ 62)%Z → (0 ≤ maxSize ≤ MaxPacketSize)%Z →
  Forall waiting (pa_controlFrames (pk_packer k)) → Forall arrives_as (first_frames (pk_packer k) id) →
  (packed_lens (first_frames (pk_packer k) id) ≤ maxSize)%Z →
  (can = true → level_value EncryptionUnencrypted < level_value level)%Z →
  ∃ k' fs popped ops, composeNextPacket e k maxSize can id = Some (k', Ok fs) ∧
    sender_run (pe_params e) (view k out acc) ops = Some (view k' (out ++ popped) acc) ∧
    Forall sender_op_ok ops ∧ length ops ≤ 2 ∧ written_bytes ops = 0%Z ∧
    composed (pk_packer k) (pk_packer k') id popped fs ∧
    Forall arrives_as fs ∧ (packed_lens fs ≤ maxSize)%Z ∧ Forall few_paths fs ∧ rest_last fs.
Proof.
  intros Hok Hn HB Hmax Hwait Hfirst Hfit Hcan. pose proof (first_frames_ok _ _ Hfirst) as Hff.
  unfold MaxPacketSize in Hmax. set (p := pk_packer k) in *. unfold composeNextPacket. fold p.
  assert (0 ≤ packed_lens (first_frames p id))%Z as Hnn.
  { clear -Hff. induction Hff as [|f fs [[_ H] _] _ IH]; [done|]. cbn. fold (packed_lens fs). lia. }
  rewrite add_lengths_ok.
  2: { eapply Forall_impl; [exact Hff|]. tauto. } 2: done.
  2: { unfold first_frames, zlen. rewrite length_app. destruct (pa_stopWaiting p !! id), (pa_ackFrame p !! id); cbn; lia. }
  rewrite Z.add_0_l.
  destruct (take_control_ok maxSize (reverse (pa_controlFrames p)) ltac:(by apply Forall_reverse) ltac:(lia)
    (packed_lens (first_frames p id)) (first_frames p id)) as (taken & rest & -> & Eq & Hle); [lia|].
  specialize (Hle Hfit). cbv zeta. rewrite decide_False by lia.
  assert (pa_controlFrames p = reverse rest ++ reverse taken) as Ec.
  { rewrite <-reverse_app, <-Eq. by rewrite reverse_involutive. }
  assert (Forall waiting taken) as Htaken.
  { apply Forall_reverse in Hwait. rewrite Eq in Hwait. by apply Forall_app in Hwait as [? _]. }
  assert (0 ≤ packed_lens taken)%Z as Hnt.
  { clear -Htaken. induction Htaken as [|f fs Hf _ IH]; [done|]. destruct (waiting_len f Hf). cbn. fold (packed_lens fs). lia. }
  assert (Forall arrives_as (first_frames p id ++ taken)) as Harr.
  { apply Forall_app. split; [done|]. eapply Forall_impl; [exact Htaken|]. intros f [Hc _ _]. apply Hc. }
  assert (Forall few_paths (first_frames p id ++ taken)) as Hfew.
  { apply Forall_app. split; eapply Forall_impl; [exact Hff|tauto|exact Htaken|by intros f []]. }
  assert (Forall (λ f, takes_rest f = false) (first_frames p id ++ taken)) as Hrest.
  { apply Forall_app. split; eapply Forall_impl; [exact Hff|tauto|exact Htaken|by intros [] []]. }
  destruct can; cbn [negb].
  2: { eexists _, _, [], []. split; [done|]. rewrite app_nil_r. split; [done|]. split; [constructor|]. split; [cbn; lia|]. split; [done|].
       split; [exists taken, (reverse rest), []; split_and!; [by rewrite app_nil_r|done|by rewrite app_nil_r]|].
       split; [done|]. split; [by rewrite packed_lens_app|]. split; [done|]. rewrite <-(app_nil_r (_ ++ _)). by apply rest_last_app. }
  specialize (Hcan eq_refl). rewrite (u64_small (maxSize + 2)) by lia. rewrite u64_small by lia.
  remember (maxSize + 2 - (packed_lens (first_frames p id) + packed_lens taken))%Z as room eqn:Eroom.
  assert (2 ≤ room < 2 ^ 63)%Z as Hroom by lia.
  pose proof (sender_open_bound _ _ _ Hok Hn) as Hopen.
  destruct (pop_step_ok (pe_params e) n B (view k out acc) room Hok Hn ltac:(lia) ltac:(lia)) as (st' & Estep & Hok').
  pose proof Hok as [H1 H2 H3 [W HW] H5 H6].
  destruct (PopStreamFrames_ok (opened (pk_map k)) (pe_params e) W (accepted (view k out acc)) out (pk_framer k) (pk_map k) (pk_flow k) room H1
    ltac:(cbn in Hopen; lia) ltac:(lia)) as (f' & m' & fc' & res & more & W' & Ep & _ & _ & _ & Hlen & Hpres & _).
  { intros x. specialize (H5 x). lia. } { exact HW. }
  assert (Estep' := Estep). cbn [sender_step view se_framer se_map se_flow se_out se_accepted] in Estep'. rewrite Ep in Estep'. cbn [mbind option_bind] in Estep'.
  injection Estep' as <-. cbn [pk_framer pk_map pk_flow with_packer]. rewrite Ep. cbn [mbind option_bind]. rewrite requeue_blocked_ok.
  assert (Forall stream_frame_ok (res ++ more)) as Hsf.
  { apply Forall_forall. intros f Hf. eapply (frames_writable n B); [exact Hok'|lia|lia|]. cbn. apply elem_of_app. by right. }
  pose proof (shorten_fits (res ++ more) (room - 2) Hpres ltac:(lia) ltac:(lia)) as Hshort.
  eexists _, _, (res ++ more), [OpPop room; OpControl [] (addAddressFrameQueue f') (closePathFrameQueue f') (pathsFrame f')].
  split; [done|]. split.
  { unfold sender_run. cbn [foldl mbind option_bind]. rewrite Estep. done. }
  split; [repeat constructor; lia|]. split; [done|]. split; [done|].
  split; [exists taken, (reverse rest), (blockedFrameQueue f'); split_and!; [by rewrite <-app_assoc|done|done]|].
  split; [apply Forall_app; split; [done|]; apply popped_arrive; [done|done|unfold MaxPacketSize; lia]|].
  split; [rewrite !packed_lens_app, packed_streams; lia|].
  split; [apply Forall_app; split; [done|]; apply Forall_fmap, Forall_true; done|].
  apply rest_last_app; [done|]. by apply shorten_rest_last.
Qed.
End composing.

(** * The header *)

(** A connection ID that is left out reads as 0. *)
Definition wire_header (h : PublicHeader) : PublicHeader :=
  if TruncateConnectionID h then
    {| ConnectionID := 0; HPathID := HPathID h; VersionFlag := VersionFlag h; ResetFlag := ResetFlag h;
       TruncateConnectionID := true; MultipathFlag := MultipathFlag h; PacketNumberLen := PacketNumberLen h;
       PacketNumber := PacketNumber h; VersionNumber := VersionNumber h; SupportedVersionsField := SupportedVersionsField h;
       DiversificationNonce := DiversificationNonce h |}
  else h.

Lemma write_wire_header h version pers : write_PublicHeader (wire_header h) version pers = write_PublicHeader h version pers.
Proof.
  unfold wire_header. destruct (TruncateConnectionID h) eqn:E; [|done].
  unfold write_PublicHeader, public_flag_byte, hasPacketNumber, write_packet_number. cbn. by rewrite E.
Qed.
Lemma GetLength_wire_header h pers : GetLength (wire_header h) pers = GetLength h pers.
Proof.
  unfold wire_header. destruct (TruncateConnectionID h) eqn:E; [|done]. unfold GetLength, hasPacketNumber. cbn. by rewrite E.
Qed.

(** [hdr.PacketNumber = ...] *)
Definition number_header (h : PublicHeader) (n : Z) : PublicHeader := {|
  ConnectionID := ConnectionID h; HPathID := HPathID h; VersionFlag := VersionFlag h; ResetFlag := ResetFlag h;
  TruncateConnectionID := TruncateConnectionID h; MultipathFlag := MultipathFlag h; PacketNumberLen := PacketNumberLen h;
  PacketNumber := n; VersionNumber := VersionNumber h; SupportedVersionsField := SupportedVersionsField h;
  DiversificationNonce := DiversificationNonce h
|}.

Lemma number_len_cases pn lu :
  (0 < lu ≤ pn)%Z → (pn < 2 ^ 62)%Z → (pn - lu < 2 ^ 31)%Z →
  GetPacketNumberLengthForPublicHeader pn lu = 2%Z ∨ GetPacketNumberLengthForPublicHeader pn lu = 4%Z.
Proof.
  intros Hlu Hpn Hd. unfold GetPacketNumberLengthForPublicHeader. rewrite u64_small by lia.
  rewrite !Z.shiftl_mul_pow2 by (vm_compute; discriminate). case_decide; [by left|]. case_decide as Hx; [by right|].
  destruct Hx. change (2 * 2 ^ (PacketNumberLen4 * 8 - 2))%Z with (2 ^ 31)%Z. lia.
Qed.

Section packed.
Context {C : Type} `{!SendAlgorithm C}.
Context (e : pack_env) (p : packetPacker) (pth : path C).

(** What a header needs. *)
Record header_ready : Prop := {
  hr_conn : (1 ≤ pa_connectionID p < 2 ^ 64)%Z;
  hr_truncate : pe_TruncateConnectionID e = true → pa_perspective p = PerspectiveServer;
  hr_path : (0 ≤ pathID pth < 2 ^ 8)%Z;
  hr_nonce : crypto_DiversificationNonce (pe_crypto e) = [] ∨ zlen (crypto_DiversificationNonce (pe_crypto e)) = 32%Z;
  hr_version : (0 ≤ pa_version p < 1000)%Z;
  hr_number : (0 < leastUnacked pth ≤ next (generator pth))%Z;
  hr_small : (next (generator pth) < 2 ^ 62)%Z;
  hr_window : (next (generator pth) - leastUnacked pth < 2 ^ 31)%Z
}.

Lemma public_header_ok level : header_ready →
  header_ok (wire_header (getPublicHeader e p level pth)) (pa_perspective p) (pa_version p).
Proof using Type.
  intros [H1 H2 H3 H4 H5 H6 H7 H8]. pose proof (number_len_cases _ _ H6 H7 H8) as Hlen.
  set (h := getPublicHeader e p level pth).
  assert (hasPacketNumber h (pa_perspective p) = true) as Hhas.
  { unfold hasPacketNumber, has_packet_number. cbn. case_bool_decide as Hv; [|done]. destruct Hv as [-> _]. done. }
  assert (valid_len (PacketNumberLen h) ∧ 0 ≤ PacketNumber h < 2 ^ 64)%Z as Hnum.
  { cbn. unfold valid_len, Peek. lia. }
  assert (VersionFlag h && ResetFlag h = false) as Hflags by (cbn; by rewrite andb_false_r).
  assert (if MultipathFlag h then (0 ≤ HPathID h < 2 ^ 8)%Z else HPathID h = 0%Z) as Hpath
    by (cbn; destruct (pe_handshakeComplete e); [case_bool_decide|]; done || exact H3).
  assert (DiversificationNonce h = [] ∨ (zlen (DiversificationNonce h) = 32%Z ∧ pa_perspective p = PerspectiveServer ∧
    VersionFlag h = false ∧ ResetFlag h = false)) as Hnonce.
  { cbn. case_decide as Hd; [|by left]. destruct Hd as [-> ->]. destruct H4 as [->|H4]; [by left|right].
    split_and!; try done. }
  assert (if VersionFlag h then pa_perspective p = PerspectiveClient ∧ (0 ≤ VersionNumber h < 1000)%Z ∧ pa_version p = VersionNumber h
          else VersionNumber h = 0%Z) as Hver.
  { cbn. case_bool_decide as Hv; [|done]. by destruct Hv. }
  unfold wire_header. destruct (TruncateConnectionID h) eqn:Et.
  - split; try done; [cbn; split; [done|]|].
    + apply H2. cbn in Et. by destruct (pe_handshakeComplete e), (bool_decide (VersionMP ≤ pa_version p)%Z).
    + unfold hasPacketNumber in *. cbn in *. by rewrite Hhas.
  - split; try done; [by rewrite Et|by rewrite Hhas].
Qed.

Lemma public_header_len level : header_ready →
  ∃ len, GetLength (getPublicHeader e p level pth) (pa_perspective p) = Ok len ∧
    (0 < len ∧ (len ≤ 18 ∨ len ≤ 14 + zlen (crypto_DiversificationNonce (pe_crypto e))))%Z.
Proof using Type.
  intros [H1 H2 H3 H4 H5 H6 H7 H8]. pose proof (number_len_cases _ _ H6 H7 H8) as Hlen.
  pose proof (zlen_nonneg (crypto_DiversificationNonce (pe_crypto e))) as Hn.
  unfold GetLength. set (h := getPublicHeader e p level pth).
  assert (hasPacketNumber h (pa_perspective p) = true) as ->.
  { unfold hasPacketNumber, has_packet_number. cbn. case_bool_decide as Hv; [|done]. destruct Hv as [-> _]. done. }
  assert (VersionFlag h && ResetFlag h = false) as -> by (cbn; by rewrite andb_false_r).
  assert (VersionFlag h && bool_decide (pa_perspective p = PerspectiveServer) = false) as ->.
  { cbn. case_bool_decide as Hv; [|done]. by destruct Hv as [-> _]. }
  assert (0 < PacketNumberLen h ≤ 4)%Z as Hpl by (cbn; unfold Peek; lia).
  assert (zlen (DiversificationNonce h) ≤ zlen (crypto_DiversificationNonce (pe_crypto e)) ∧ 0 ≤ zlen (DiversificationNonce h))%Z as Hdn.
  { cbn. case_decide; [split; [done|apply zlen_nonneg]|]. change (zlen (@nil byte)) with 0%Z. lia. }
  rewrite decide_False by (unfold PacketNumberLen2, PacketNumberLen4; cbn; unfold Peek; lia). cbn [result_bind].
  assert (VersionFlag h = true → zlen (DiversificationNonce h) = 0)%Z as Hvn.
  { cbn. intros [-> _]%bool_decide_eq_true. by rewrite decide_False by (by intros []). }
  eexists. split; [done|]. destruct (VersionFlag h), (TruncateConnectionID h), (MultipathFlag h);
    (specialize (Hvn eq_refl) || clear Hvn); lia.
Qed.
End packed.

(** * What the peer receives *)

Section delivery.
Context {C : Type} `{!SendAlgorithm C}.
(** [Open] of the peer's cryptographic setup. *)
Context {E : Type} (opener : list byte → Z → list byte → result E (list byte * EncryptionLevel)).

(** It opens what a sealer seals, at its level; with a nonce in the header the tag is shorter. *)
Record opens (nonce : list byte) (s : EncryptionLevel * AEAD) : Prop := {
  op_open t n a : opener (Seal s.2 t n a) n a = Ok (t, s.1);
  op_len t n a : zlen (Seal s.2 t n a) = (zlen t + Overhead s.2)%Z;
  op_overhead : (0 ≤ Overhead s.2 ≤ 16 ∧ zlen nonce + Overhead s.2 ≤ 47)%Z
}.

(** A packet from [pers]: the receiver parses the header, infers the number from the last one it has got
    and unpacks the frames, each in the form it is carried in. *)
Definition delivered (pers : Perspective) (version known last : Z) (since : AckFrame → Z) (pkt : packedPacket) : Prop :=
  ∃ header sealed h gs, pp_raw pkt = header ++ sealed ∧
    ParsePublicHeader pers known (pp_raw pkt) = Ok (h, sealed) ∧
    InferPacketNumber (PacketNumberLen h) last (PacketNumber h) = pp_number pkt ∧
    Unpack E opener version header (number_header h (pp_number pkt)) sealed =
      Some (Ok {| encryptionLevel := pp_level pkt; frames := gs |}) ∧
    Forall2 (carried (pp_number pkt) (PacketNumberLen h) (pp_level pkt) since) (pp_frames pkt) gs.

Lemma arrives_list e pn pnLen level fs :
  Forall (arrives_as e pn pnLen level) fs → ∃ gs, Forall2 (carried pn pnLen level (pe_since e)) fs gs.
Proof using Type.
  induction 1 as [|f fs [g Hg] _ [gs IH]]; [by exists []|]. exists (g :: gs). by constructor.
Qed.

Lemma writeAndSealPacket_ok e p (pth : path C) level sealer fs known last len :
  let h := getPublicHeader e p level pth in
  header_ready e p pth → opens (crypto_DiversificationNonce (pe_crypto e)) (level, sealer) →
  Forall (arrives_as e (PacketNumber h) (PacketNumberLen h) level) fs → Forall few_paths fs → rest_last fs → fs ≠ [] →
  GetLength h (pa_perspective p) = Ok len → (len + packed_lens fs + Overhead sealer ≤ MaxPacketSize)%Z →
  VersionFlag h = true ∨ known = pa_version p → (leastUnacked pth - 1 ≤ last ≤ next (generator pth))%Z →
  ∃ raw, writeAndSealPacket e p h fs sealer pth = Some (set_generator pth (Pop (generator pth) (pe_drawn e)).1, Ok raw) ∧
    (zlen raw ≤ MaxPacketSize)%Z ∧
    delivered (pa_perspective p) (pa_version p) known last (pe_since e)
      {| pp_number := PacketNumber h; pp_raw := raw; pp_frames := fs; pp_level := level |}.
Proof using Type.
  intros h Hr [Hopen Hseal Hover] Harr Hfew Hlast Hne Hlen Hfit Hknown Hrange. cbn [fst snd] in *.
  destruct (public_header_written (wire_header h) (pa_perspective p) (pa_version p) known) as (len' & E1 & bs & Hw & Hread & Hz).
  { by apply public_header_ok. }
  { assert (VersionFlag (wire_header h) = VersionFlag h) as -> by (unfold wire_header; by destruct (TruncateConnectionID h)).
    destruct Hknown as [->| ->]; [done|]. destruct (_ || _); [done|]. split; [done|].
    pose proof (hr_version _ _ _ Hr). unfold VersionUnknown. lia. }
  rewrite GetLength_wire_header, Hlen in E1. injection E1 as <-. rewrite write_wire_header in Hw.
  destruct (arrives_list _ _ _ _ _ Harr) as [gs Hgs].
  destruct (frames_written (pa_version p) _ _ _ _ _ _ Hgs Hfew) as (payload & Hp & Hpz).
  destruct (frames_unpacked (pa_version p) _ _ _ _ _ _ Hgs Hlast) as (payload' & Hp' & Hpne & Hu).
  unfold writes in Hp, Hp'. rewrite Hp in Hp'. injection Hp' as <-.
  unfold writeAndSealPacket. rewrite Hw. cbn [mbind option_bind]. rewrite Hp. cbn [mbind option_bind].
  rewrite decide_False by lia.
  assert (take (Z.to_nat (zlen bs + zlen payload + Overhead sealer)) (bs ++ Seal sealer payload (PacketNumber h) bs) =
    bs ++ Seal sealer payload (PacketNumber h) bs) as ->.
  { apply take_ge. apply Nat2Z.inj_le. change (Z.of_nat (length (bs ++ Seal sealer payload (PacketNumber h) bs))) with
      (zlen (bs ++ Seal sealer payload (PacketNumber h) bs)). rewrite zlen_app, Hseal. lia. }
  assert (Pop (generator pth) (pe_drawn e) = ((Pop (generator pth) (pe_drawn e)).1, PacketNumber h)) as Epop.
  { unfold Pop. cbn. done. }
  rewrite Epop. cbn [fst]. rewrite decide_False by auto. eexists. split; [done|]. split.
  { rewrite zlen_app, Hseal. lia. }
  exists bs, (Seal sealer payload (PacketNumber h) bs), (received_header (wire_header h)), gs.
  cbn [pp_raw pp_number pp_level pp_frames].
  assert (PacketNumberLen (received_header (wire_header h)) = PacketNumberLen h) as Epl.
  { cbn. unfold wire_header. by destruct (TruncateConnectionID h). }
  assert (PacketNumber (received_header (wire_header h)) = PacketNumber h mod 2 ^ (8 * PacketNumberLen h))%Z as Epn.
  { cbn [received_header PacketNumber]. unfold wire_header. by destruct (TruncateConnectionID h). }
  split; [done|]. split; [apply Hread|]. split.
  { rewrite Epl, Epn. destruct Hr as [_ _ _ _ _ R6 R7 R8]. apply (packet_number_recovered _ (leastUnacked pth)); cbn; unfold Peek; lia. }
  split; [|by rewrite Epl].
  unfold Unpack. cbn [number_header PacketNumber PacketNumberLen]. rewrite Epl, Hopen, decide_False by auto.
  by rewrite Hu.
Qed.
End delivery.

(** ** Which frames a packet carries *)

Definition cleared (p : packetPacker) (id : Z) : packetPacker := queue_ack (queue_stop_waiting p id None) id None.

(** A packet has data of the crypto stream, or a PING, or what was composed. *)
Inductive packed (p p' : packetPacker) (id : Z) (popped : list StreamFrame) : list Frame → Prop :=
| packed_crypto f : popped = [f] → p' = p → packed p p' id popped [FStream f]
| packed_ping rest h :
    pa_controlFrames p = FPing :: rest → popped = [] →
    p' = cleared (queue_control (number_stop_waiting p id h) rest) id → packed p p' id popped [FPing]
| packed_composed p1 fs h :
    composed (number_stop_waiting p id h) p1 id popped fs → p' = cleared p1 id → packed p p' id popped fs.

Section ready.
Context {C : Type} `{!SendAlgorithm C}.
Context (e : pack_env) (p : packetPacker) (pth : path C).

(** The queued frames can be sent: an ACK frame is recent enough to leave room for the rest, and what
    STOP_WAITING announces is close to the packet number. *)
Record packer_ready : Prop := {
  pr_control : Forall waiting (pa_controlFrames p);
  pr_ack f : pa_ackFrame p !! pathID pth = Some f →
    ack_sendable f ∧ first_gap_fits f ∧ duration_ok (pe_since e f) ∧ (LargestAcked f < 2 ^ 32 - 1)%Z;
  pr_stop f : pa_stopWaiting p !! pathID pth = Some f →
    (0 < LeastUnacked f ≤ next (generator pth))%Z ∧ (next (generator pth) - LeastUnacked f < 2 ^ 16)%Z
}.

Lemma first_frames_ready level : header_ready e p pth → packer_ready →
  let h := getPublicHeader e p level pth in
  let p1 := number_stop_waiting p (pathID pth) h in
  Forall (arrives_as e (PacketNumber h) (PacketNumberLen h) level) (first_frames p1 (pathID pth)) ∧
  (packed_lens (first_frames p1 (pathID pth)) ≤ 1289)%Z.
Proof using Type.
  intros Hr [_ Hack Hstop] h p1. destruct Hr as [_ _ _ _ _ R6 R7 R8]. pose proof (number_len_cases _ _ R6 R7 R8) as Hlen.
  assert (pa_ackFrame p1 = pa_ackFrame p) as Ea by done.
  assert (pa_stopWaiting p1 !! pathID pth = (λ f, {| LeastUnacked := LeastUnacked f; SPacketNumberLen := PacketNumberLen h;
    SPacketNumber := PacketNumber h |}) <$> pa_stopWaiting p !! pathID pth) as Es.
  { unfold p1, number_stop_waiting, queue_stop_waiting. cbn. by rewrite lookup_partial_alter_eq. }
  unfold first_frames. rewrite Ea, Es. split.
  - apply Forall_app. split.
    + destruct (pa_stopWaiting p !! pathID pth) as [f|] eqn:Ef; [|constructor]. destruct (Hstop f eq_refl) as [S1 S2].
      apply Forall_cons_2; [|constructor]. eexists. apply carried_stop; try done; cbn; unfold Peek, valid_len; destruct Hlen as [-> | ->]; lia.
    + destruct (pa_ackFrame p !! pathID pth) as [f|] eqn:Ef; [|constructor]. destruct (Hack f eq_refl) as (A1 & A2 & A3 & A4).
      apply Forall_cons_2; [|constructor]. eexists. by apply carried_ack.
  - rewrite packed_lens_app.
    assert (packed_lens (option_list (FAck <$> pa_ackFrame p !! pathID pth)) ≤ 1284)%Z as H1.
    { destruct (pa_ackFrame p !! pathID pth) as [f|] eqn:Ef; cbn; [|lia]. destruct (Hack f eq_refl) as (A1 & A2 & A3 & A4).
      pose proof (ack_leaves_room f A1 A2 A4). lia. }
    match goal with |- (packed_lens (option_list (FStopWaiting <$> ?o)) + _ ≤ _)%Z =>
      assert (packed_lens (option_list (FStopWaiting <$> o)) ≤ 5)%Z; [|lia] end.
    destruct (pa_stopWaiting p !! pathID pth) as [f|]; [|done].
    change (match stop_waiting_MinLength {| LeastUnacked := LeastUnacked f; SPacketNumberLen := PacketNumberLen h;
      SPacketNumber := PacketNumber h |} with Ok n => n | Err _ => 0 end + 0 ≤ 5)%Z.
    rewrite (stop_waiting_len _ (PacketNumberLen h)); [|done|]; cbn; unfold Peek, valid_len; lia.
Qed.
End ready.

(** * Packing *)

Lemma crypto_stream_found cp limit m fc s :
  streams m !! 1%Z = Some s → crypto_stream cp limit m fc = Some (m, fc, s).
Proof.
  intros Hs. unfold crypto_stream. assert (GetOrOpenStream cp limit m fc 1 = Some (m, fc, Ok (Some 1%Z))) as ->
    by (unfold GetOrOpenStream; by rewrite Hs).
  cbn [mbind option_bind]. by rewrite Hs.
Qed.

Lemma pop_crypto_ok cp n B st limit maxLen s :
  sender_ok n B st → (B < 2 ^ 63)%Z → (15 < maxLen < 2 ^ 63)%Z →
  streams (se_map st) !! 1%Z = Some s → (0 < lenOfDataForWriting s)%Z →
  ∃ m f, PopCryptoStreamFrame cp limit (se_map st) (se_flow st) maxLen = Some (m, se_flow st, Some f) ∧
    StreamID f = 1%Z ∧ DataLenPresent f = false ∧ (frame_len f ≤ maxLen)%Z.
Proof.
  intros [H1 H2 H3 [W HW] H5 H6] HB Hmax Hs Hl. unfold PopCryptoStreamFrame, HasCryptoStreamFrame.
  rewrite (crypto_stream_found cp limit _ _ s Hs). cbn [mbind option_bind]. rewrite bool_decide_eq_true_2 by done. cbn [negb].
  rewrite (crypto_stream_found cp limit _ _ s Hs). cbn [mbind option_bind].
  set (hdr := {| StreamID := 1; FinBit := false; DataLenPresent := false; Offset := writeOffset s; SData := [] |}).
  pose proof (MinLength_bounds hdr) as Hh. rewrite u64_small by lia.
  destruct (fo_streams _ _ _ _ _ _ HW 1%Z s Hs) as [_ Hw].
  destruct (getDataForWriting_ok _ _ _ (maxLen - stream_MinLength hdr) Hw) as (s' & d & -> & _ & Hd & _).
  { specialize (H5 1%Z). cbn in *. lia. } { lia. } { lia. }
  eexists _, _. split; [done|]. split; [done|]. split; [done|].
  match goal with |- (frame_len ?f ≤ _)%Z => assert (frame_len f = stream_MinLength hdr + zlen d)%Z as -> by reflexivity end. lia.
Qed.

(** The STREAM frames of a packet. *)
Definition stream_frames (fs : list Frame) : list StreamFrame :=
  omap (λ f, match f with FStream s => Some s | _ => None end) fs.

Lemma composed_streams p p' id popped fs :
  Forall waiting (pa_controlFrames p) → composed p p' id popped fs → stream_frames fs = shorten_last popped.
Proof.
  intros Hw (taken & rest & blocked & -> & Ec & _). rewrite Ec in Hw. apply Forall_app in Hw as [_ Ht%Forall_reverse].
  rewrite reverse_involutive in Ht. unfold stream_frames. rewrite !omap_app.
  assert (omap (λ f, match f with FStream s => Some s | _ => None end) (first_frames p id) = []) as ->.
  { unfold first_frames. by destruct (pa_stopWaiting p !! id), (pa_ackFrame p !! id). }
  assert (omap (λ f, match f with FStream s => Some s | _ => None end) taken = []) as ->.
  { clear -Ht. induction Ht as [|f fs [_ Hk _] _ IH]; [done|]. cbn. by destruct f. }
  cbn. induction (shorten_last popped) as [|f fs IH]; [done|]. cbn. by rewrite IH.
Qed.

Section PackPacket.
Context {C : Type} `{!SendAlgorithm C}.
Context {E : Type} (opener : list byte → Z → list byte → result E (list byte * EncryptionLevel)).
Context (e : pack_env) (k : packing) (pth : path C) (out : list StreamFrame) (acc : gmap Z (list byte)) (n B : Z).
Context (known last : Z).

(** The peer opens what is sealed, knows the version unless the header tells it, and has got a packet
    at least as late as the last one below the first that is not acknowledged. *)
Record peer_ready : Prop := {
  pd_opens s : s = GetSealer (pe_crypto e) ∨ s = GetSealerForCryptoStream (pe_crypto e) →
    opens opener (crypto_DiversificationNonce (pe_crypto e)) s ∧
    (VersionFlag (getPublicHeader e (pk_packer k) s.1 pth) = true ∨ known = pa_version (pk_packer k));
  pd_last : (leastUnacked pth - 1 ≤ last ≤ next (generator pth))%Z
}.

Definition advanced_path : path C := set_generator pth (Pop (generator pth) (pe_drawn e)).1.

(** What packing yields: a packet or nothing, no error and no panic. *)
Definition packs (k' : packing) (pth' : path C) (r : option packedPacket) (popped : list StreamFrame) : Prop :=
  match r with
  | None => pth' = pth ∧ popped = []
  | Some pkt =>
      pth' = advanced_path ∧ pp_number pkt = next (generator pth) ∧ (zlen (pp_raw pkt) ≤ MaxPacketSize)%Z ∧
      packed (pk_packer k) (pk_packer k') (pathID pth) popped (pp_frames pkt) ∧
      stream_frames (pp_frames pkt) = shorten_last popped ∧
      delivered opener (pa_perspective (pk_packer k)) (pa_version (pk_packer k)) known last (pe_since e) pkt
  end.

Lemma pack_frames_ok k' p level sealer fs popped len :
  let h := getPublicHeader e (pk_packer k) level pth in
  header_ready e (pk_packer k) pth → peer_ready →
  (level, sealer) = GetSealer (pe_crypto e) ∨ (level, sealer) = GetSealerForCryptoStream (pe_crypto e) →
  Forall (arrives_as e (PacketNumber h) (PacketNumberLen h) level) fs → Forall few_paths fs → rest_last fs → fs ≠ [] →
  GetLength h (pa_perspective (pk_packer k)) = Ok len → (len + packed_lens fs + Overhead sealer ≤ MaxPacketSize)%Z →
  pk_packer k' = p → pa_connectionID p = pa_connectionID (pk_packer k) → pa_perspective p = pa_perspective (pk_packer k) →
  pa_version p = pa_version (pk_packer k) → packed (pk_packer k) p (pathID pth) popped fs →
  stream_frames fs = shorten_last popped →
  ∃ pkt, pack_frames e k' level sealer h fs pth = Some (k', advanced_path, Ok (Some pkt)) ∧
    packs k' advanced_path (Some pkt) popped ∧ pp_frames pkt = fs.
Proof using Type.
  intros h Hr [Hp Hlast] Hs Harr Hfew Hrest Hne Hlen Hfit Ep E1 E2 E3 Hpk Hst. destruct (Hp _ Hs) as [Hop Hk]. cbn [fst] in Hk.
  destruct (writeAndSealPacket_ok opener e (pk_packer k) pth level sealer fs known last len Hr Hop Harr Hfew Hrest Hne Hlen Hfit Hk Hlast)
    as (raw & Ew & Hz & Hd).
  unfold pack_frames. rewrite Ep. assert (writeAndSealPacket e p h fs sealer pth = writeAndSealPacket e (pk_packer k) h fs sealer pth) as ->.
  { unfold writeAndSealPacket. by rewrite E2, E3. }
  fold h in Ew. rewrite Ew. cbn [mbind option_bind result_bind]. eexists. split; [done|]. split; [|done].
  split; [done|]. split; [done|]. split; [done|]. split; [by rewrite Ep|]. by split.
Qed.

Lemma choose_payload_cases k1 maxSize level id :
  (∃ rest, pa_controlFrames (pk_packer k1) = FPing :: rest ∧
     choose_payload e k1 maxSize level id = Some (with_packer k1 (queue_control (pk_packer k1) rest), Ok [FPing])) ∨
  choose_payload e k1 maxSize level id =
    composeNextPacket e k1 maxSize (canSendData (pa_perspective (pk_packer k1)) level) id.
Proof using Type.
  unfold choose_payload. destruct (pa_controlFrames (pk_packer k1)) as [|[] rest]; [by right|..]; try by right.
  left. by exists rest.
Qed.

Lemma shorten_nil fs : shorten_last fs = [] → fs = [].
Proof using Type. destruct fs as [|f fs _] using rev_ind; [done|]. rewrite shorten_snoc. by destruct fs. Qed.

Lemma canSendData_level pers level : canSendData pers level = true → (level_value EncryptionUnencrypted < level_value level)%Z.
Proof using Type. unfold canSendData. destruct pers; intros H%bool_decide_eq_true; [by subst|]. destruct level; cbn in *; lia. Qed.

Context (s1 : stream) (Hok : sender_ok n B (view k out acc)) (Hn : (0 ≤ n < 2 ^ 28 - 1)%Z) (HB : (B < 2 ^ 62)%Z)
  (Hs1 : streams (pk_map k) !! 1%Z = Some s1) (Hlimit : (pe_limit e < 2 ^ 32)%Z)
  (Hhead : header_ready e (pk_packer k) pth) (Hpack : packer_ready e (pk_packer k) pth) (Hpeer : peer_ready).

(** The streams, framer and windows afterwards, as steps of the sender. *)
Definition framed (k' : packing) (popped : list StreamFrame) : Prop :=
  ∃ ops, sender_run (pe_params e) (view k out acc) ops = Some (view k' (out ++ popped) acc) ∧
    Forall sender_op_ok ops ∧ length ops ≤ 2 ∧ written_bytes ops = 0%Z.

Lemma room_for level sealer :
  (level, sealer) = GetSealer (pe_crypto e) ∨ (level, sealer) = GetSealerForCryptoStream (pe_crypto e) →
  ∃ len, GetLength (getPublicHeader e (pk_packer k) level pth) (pa_perspective (pk_packer k)) = Ok len ∧
    (0 < len ∧ 0 ≤ Overhead sealer ∧ len + Overhead sealer ≤ 61)%Z.
Proof using Hhead Hpeer.
  intros Hs. destruct (pd_opens Hpeer _ Hs) as [[_ _ Hover] _]. cbn [snd] in Hover.
  destruct (public_header_len e (pk_packer k) pth level Hhead) as (len & E1 & Hl). exists len. split; [done|]. lia.
Qed.

Lemma packCryptoPacket_ok : (0 < lenOfDataForWriting s1)%Z →
  ∃ k' pkt popped, packCryptoPacket e k pth = Some (k', advanced_path, Ok (Some pkt)) ∧ framed k' popped ∧
    packs k' advanced_path (Some pkt) popped.
Proof using HB Hhead Hlimit Hn Hok Hpeer Hs1.
  intros Hdata. unfold packCryptoPacket. destruct (GetSealerForCryptoStream (pe_crypto e)) as [level sealer] eqn:Es.
  destruct (room_for level sealer (or_intror (eq_sym Es))) as (len & E1 & Hl & Ho & Hlo). rewrite E1. unfold MaxPacketSize, NonForwardSecurePacketSizeReduction.
  rewrite (u64_small (1350 - _)), (u64_small (1350 - _ - 50)), u64_small by lia.
  remember (1350 - Overhead sealer - 50 - len)%Z as maxLen eqn:Emax. assert (15 < maxLen < 2 ^ 63)%Z as Hmax by lia.
  destruct (pop_crypto_ok (pe_params e) n B (view k out acc) (pe_limit e) maxLen s1 Hok ltac:(lia) Hmax Hs1 Hdata)
    as (m & f & Epop & Hid & Hpres & Hlen).
  cbn [view se_map se_flow] in Epop. rewrite Epop. cbn [mbind option_bind].
  set (k1 := {| pk_packer := pk_packer k; pk_framer := pk_framer k; pk_map := m; pk_flow := pk_flow k |}).
  assert (sender_step (pe_params e) (view k out acc) (OpPopCrypto (pe_limit e) maxLen) = Some (view k1 (out ++ [f]) acc)) as Estep.
  { cbn [sender_step view se_map se_flow se_framer se_out se_accepted]. rewrite Epop. done. }
  pose proof (crypto_step_ok _ _ _ _ _ _ _ Hok ltac:(lia) ltac:(lia) Hlimit Hmax Estep) as Hok1.
  assert (stream_frame_ok f) as Hf.
  { eapply (frames_writable (n + 1) B); [exact Hok1|lia|lia|]. cbn. apply elem_of_app. right. by apply list_elem_of_singleton. }
  pose proof (frame_len_data f) as Hd. unfold DataLen in Hd.
  destruct (pack_frames_ok k1 (pk_packer k) level sealer [FStream f] [f] len) as (pkt & Epk & Hpk & _); try done.
  - by right.
  - apply Forall_cons_2; [|constructor]. exists (FStream f). apply carried_stream; [done|by left|]. rewrite Hpres. lia.
  - by repeat constructor.
  - unfold packed_lens, MaxPacketSize. cbn [foldr packed_len]. lia.
  - by apply (packed_crypto _ _ _ _ f).
  - cbn. f_equal. destruct f; cbn in *. by rewrite Hpres.
  - exists k1, pkt, [f]. rewrite Epk. split; [done|]. split; [|done].
    exists [OpPopCrypto (pe_limit e) maxLen]. split; [unfold sender_run; cbn [foldl mbind option_bind]; by rewrite Estep|].
    split; [apply Forall_cons_2; [done|constructor]|]. split; [cbn; lia|done].
Qed.

Lemma PackPacket_ok :
  ∃ k' pth' r popped, PackPacket e k pth = Some (k', pth', Ok r) ∧ framed k' popped ∧ packs k' pth' r popped.
Proof using All.
  unfold PackPacket, HasCryptoStreamFrame. rewrite (crypto_stream_found _ _ _ _ s1 Hs1). cbn [mbind option_bind].
  replace {| pk_packer := pk_packer k; pk_framer := pk_framer k; pk_map := pk_map k; pk_flow := pk_flow k |} with k by (by destruct k).
  case_bool_decide as Hdata.
  { destruct (packCryptoPacket_ok Hdata) as (k' & pkt & popped & -> & Hfr & Hpk). by exists k', advanced_path, (Some pkt), popped. }
  destruct (GetSealer (pe_crypto e)) as [level sealer] eqn:Es.
  destruct (room_for level sealer (or_introl (eq_sym Es))) as (len & E1 & Hl & Ho & Hlo). rewrite E1.
  set (h := getPublicHeader e (pk_packer k) level pth). set (p1 := number_stop_waiting (pk_packer k) (pathID pth) h).
  set (k1 := with_packer k p1). unfold MaxPacketSize at 1. rewrite (u64_small (1350 - _)), u64_small by lia.
  remember (1350 - Overhead sealer - len)%Z as maxSize eqn:Emax. cbv zeta.
  destruct (first_frames_ready e (pk_packer k) pth level Hhead Hpack) as [Hfirst Hfirstlen]. fold h p1 in Hfirst, Hfirstlen.
  destruct (choose_payload_cases k1 maxSize level (pathID pth)) as [(rest & Ec & ->)| ->]; cbn [mbind option_bind].
  - cbn [pk_packer with_packer]. case_decide as Hd.
    { eexists _, pth, None, []. split; [done|]. split; [|done]. exists []. rewrite app_nil_r. split; [done|]. split; [constructor|]. split; [cbn; lia|done]. }
    destruct (pack_frames_ok (with_packer k (cleared (queue_control p1 rest) (pathID pth)))
      (cleared (queue_control p1 rest) (pathID pth)) level sealer [FPing] [] len) as (pkt & Epk & Hpk & _); try done.
    + by left.
    + apply Forall_cons_2; [|constructor]. exists FPing. constructor.
    + by repeat constructor.
    + unfold packed_lens, MaxPacketSize. cbn [foldr packed_len frame_MinLength]. unfold ping_MinLength. lia.
    + by apply (packed_ping _ _ _ _ rest h).
    + eexists _, _, (Some pkt), []. split; [exact Epk|]. split; [|done].
      exists []. rewrite app_nil_r. split; [done|]. split; [constructor|]. split; [cbn; lia|done].
  - destruct (composeNextPacket_ok e (PacketNumber h) (PacketNumberLen h) level k1 maxSize
      (canSendData (pa_perspective (pk_packer k1)) level) out acc n B (pathID pth)) as
      (k2 & fs & popped & ops & -> & Hrun & Hops & Hlops & Hw & Hc & Harr & Hfit & Hfew & Hrest); try done.
    { lia. } { unfold MaxPacketSize. lia. } { exact (pr_control _ _ _ Hpack). } { cbn [k1 with_packer pk_packer]. lia. }
    { apply canSendData_level. }
    cbn [mbind option_bind]. cbn [k1 with_packer pk_packer] in Hc.
    pose proof (composed_streams p1 _ _ _ _ (pr_control _ _ _ Hpack) Hc) as Hst.
    assert (framed k2 popped) as Hfr by by exists ops.
    destruct fs as [|f0 fs0].
    { assert (popped = []) as -> by (by apply shorten_nil). by exists k2, pth, None, []. }
    pose proof Hc as (taken & rest & blocked & Efs & _ & Ep2). case_decide as Hd.
    { assert (popped = []) as ->; [|by exists k2, pth, None, []]. apply shorten_nil.
      destruct Hd as [H1 [stop H2]]. rewrite Ep2 in H2. rewrite Efs in H1. unfold first_frames in H1.
      change (pa_stopWaiting p1 !! pathID pth = Some stop) in H2. rewrite H2 in H1.
      destruct (shorten_last popped) as [|g gs]; [done|]. revert H1. cbn. rewrite !length_app. cbn. lia. }
    destruct (pack_frames_ok (with_packer k2 (cleared (pk_packer k2) (pathID pth))) (cleared (pk_packer k2) (pathID pth))
      level sealer (f0 :: fs0) popped len) as (pkt & Epk & Hpk & _); try done.
    + by left.
    + fold h. unfold MaxPacketSize. lia.
    + by rewrite Ep2.
    + by rewrite Ep2.
    + by rewrite Ep2.
    + by apply (packed_composed _ _ _ _ (pk_packer k2) _ h).
    + fold h in Epk. eexists _, _, (Some pkt), popped. split; [exact Epk|]. by split.
Qed.
End PackPacket.

(** * Properties *)

(** C37: What is packed arrives.  After any history of the streams, with frames queued that can be sent and
    a sealer that the peer opens, [PackPacket] does not panic or fail, and a packet it returns takes at
    most [MaxPacketSize] bytes: the errors for oversized packets never come up.  It has the path's next
    number, and the peer parses its header, infers that number, opens it and unpacks exactly its frames,
    each as its format carries it.  They are crypto data, a PING, or the path's STOP_WAITING and ACK with
    the last control frames and stream data, and control frames that found no room stay queued; beside
    crypto data all other frames wait, but a PING costs the path its queued ACK ([ping_drops_ack]).  The
    streams advance as those of a sender that popped this data.  Nothing is said of the queues of the
    packer when there is no packet. *)
Theorem packet_delivered {C} `{!SendAlgorithm C} {E : Type} (opener : list byte → Z → list byte → result E (list byte * EncryptionLevel))
    e k (pth : path C) out acc known last pers fc os :
  Forall sender_op_ok os → (zlen os < 2 ^ 28 - 1)%Z → (written_bytes os < 2 ^ 62)%Z →
  sender_run (pe_params e) (new_sender pers fc) os = Some (view k out acc) →
  is_Some (streams (pk_map k) !! 1%Z) → (pe_limit e < 2 ^ 32)%Z →
  header_ready e (pk_packer k) pth → packer_ready e (pk_packer k) pth → peer_ready opener e k pth known last →
  ∃ k' pth' r popped, PackPacket e k pth = Some (k', pth', Ok r) ∧
    framed e k out acc k' popped ∧ packs opener e k pth known last k' pth' r popped.
Proof.
  intros Hos Hn HB Hrun [s1 Hs1] Hlimit Hhead Hpack Hpeer. pose proof (zlen_nonneg os).
  pose proof (new_sender_run_ok _ _ _ _ _ Hos ltac:(lia) ltac:(lia) Hrun) as Hok.
  by eapply (PackPacket_ok opener e k pth out acc (zlen os) (written_bytes os) known last s1); [..|lia|lia| | | | |].
Qed.

(** A PING at the front of the control frames, which every nineteenth packet without data adds, costs the
    frames of the path that wait beside it: the packet has only the PING, but the queued ACK is dropped.
    With a STOP_WAITING queued it is the PING that is dropped and no packet is packed, which [sendPing]
    takes for a bug. *)
Theorem ping_drops_ack {C} `{!SendAlgorithm C} e k (pth : path C) s rest k' pth' r :
  streams (pk_map k) !! 1%Z = Some s → (lenOfDataForWriting s ≤ 0)%Z →
  pa_controlFrames (pk_packer k) = FPing :: rest → PackPacket e k pth = Some (k', pth', Ok r) →
  pa_controlFrames (pk_packer k') = rest ∧
  match r with
  | Some pkt =>
      pa_stopWaiting (pk_packer k) !! pathID pth = None ∧ pp_frames pkt = [FPing] ∧
      pa_ackFrame (pk_packer k') !! pathID pth = None
  | None => is_Some (pa_stopWaiting (pk_packer k) !! pathID pth) ∧ pth' = pth
  end.
Proof.
  intros Hs Hl Hc. unfold PackPacket, HasCryptoStreamFrame. rewrite (crypto_stream_found _ _ _ _ s Hs). cbn [mbind option_bind].
  rewrite bool_decide_eq_false_2 by lia. destruct (GetSealer (pe_crypto e)) as [level sealer].
  cbn [pk_packer]. destruct (GetLength _ _) as [len|]; [|done]. unfold choose_payload. cbn [pk_packer with_packer].
  change (pa_controlFrames (number_stop_waiting (pk_packer k) (pathID pth) _)) with (pa_controlFrames (pk_packer k)). rewrite Hc.
  cbn [mbind option_bind pk_packer with_packer]. set (h := getPublicHeader e (pk_packer k) level pth).
  assert (pa_stopWaiting (queue_control (number_stop_waiting (pk_packer k) (pathID pth) h) rest) !! pathID pth =
    (λ f, {| LeastUnacked := LeastUnacked f; SPacketNumberLen := PacketNumberLen h; SPacketNumber := PacketNumber h |}) <$>
    pa_stopWaiting (pk_packer k) !! pathID pth) as ->.
  { unfold number_stop_waiting, queue_stop_waiting, queue_control. cbn. by rewrite lookup_partial_alter_eq. }
  case_decide as Hd.
  - intros [= <- <- <-]. split; [done|]. destruct Hd as [_ Hd]. split; [|done]. by apply fmap_is_Some in Hd.
  - assert (pa_stopWaiting (pk_packer k) !! pathID pth = None) as Hnone.
    { destruct (pa_stopWaiting (pk_packer k) !! pathID pth); [|done]. destruct Hd. split; [done|]. by eexists. }
    unfold pack_frames. destruct (writeAndSealPacket _ _ _ _ _ _) as [[pth1 [raw|err]]|]; [|done|done].
    cbn [mbind option_bind result_bind]. intros [= <- <- <-]. split; [done|]. split; [done|]. split; [done|].
    cbn. unfold queue_ack. cbn. by rewrite lookup_partial_alter_eq.
Qed.

(** ** Witnesses *)

(** A server with five bytes to send on stream 2, an ACK and a STOP_WAITING frame for path 3 and two control frames. *)
Definition sample_opener (data : list byte) (n : Z) (aad : list byte) : result AEADError (list byte * EncryptionLevel) :=
  let* t := aead_Open nullAEADFNV64a data n aad in Ok (t, EncryptionForwardSecure).
Definition sample_env : pack_env := {|
  pe_crypto := {|
    GetSealer := (EncryptionForwardSecure, nullAEADFNV64a);
    GetSealerWithEncryptionLevel := λ _, Some nullAEADFNV64a;
    GetSealerForCryptoStream := (EncryptionForwardSecure, nullAEADFNV64a);
    crypto_DiversificationNonce := []
  |};
  pe_params := sample_params; pe_limit := 100; pe_TruncateConnectionID := false; pe_handshakeComplete := true;
  pe_since := λ _, 25000000%Z; pe_drawn := Some (1, 2)%Z
|}.
Definition sample_path : path fixedWindow :=
  let p := setup 3 {| LocalAddr := {| addr_IP := []; addr_Port := 1 |}; RemoteAddr := {| addr_IP := []; addr_Port := 2 |} |}
             VersionMP {| window_bytes := 40000 |} 0 in
  SetLeastUnacked (set_generator p {| averagePeriod := 500; next := 90000; nextToSkip := 90001 |}) 89000.
Definition sample_ops : list sender_op :=
  [OpMap (OpGetOrOpen 100 1); OpMap (OpOpen 10); OpMap (OpStream 2 (OpWrite sample_data))].
Definition sample_sender : sender :=
  default (new_sender PerspectiveServer (NewFlowControlManager sample_params))
    (sender_run sample_params (new_sender PerspectiveServer (NewFlowControlManager sample_params)) sample_ops).
Definition sample_packing (control : list Frame) : packing := {|
  pk_packer := {|
    pa_connectionID := 77; pa_perspective := PerspectiveServer; pa_version := VersionMP; pa_controlFrames := control;
    pa_stopWaiting := {[3%Z := {| LeastUnacked := 89000; SPacketNumberLen := 0; SPacketNumber := 0 |}]};
    pa_ackFrame := {[3%Z := sample_ack]}
  |};
  pk_framer := se_framer sample_sender; pk_map := se_map sample_sender; pk_flow := se_flow sample_sender
|}.
Definition sample_control : list Frame := [FWindowUpdate {| WStreamID := 2; WByteOffset := 100000 |};
                                           FWindowUpdate {| WStreamID := 0; WByteOffset := 200000 |}].

Lemma sample_run :
  sender_run sample_params (new_sender PerspectiveServer (NewFlowControlManager sample_params)) sample_ops =
    Some (view (sample_packing sample_control) [] (se_accepted sample_sender)).
Proof. vm_compute. reflexivity. Qed.
Lemma sample_packing_ops_ok : Forall sender_op_ok sample_ops ∧ (zlen sample_ops < 2 ^ 28 - 1)%Z ∧ (written_bytes sample_ops < 2 ^ 62)%Z.
Proof. split; [repeat (constructor; [cbn; done || (split; (done || lia))|]); constructor|by vm_compute]. Qed.
Lemma sample_crypto_stream : is_Some (streams (pk_map (sample_packing sample_control)) !! 1%Z).
Proof. vm_compute. by eexists. Qed.
Lemma sample_header_ready : header_ready sample_env (pk_packer (sample_packing sample_control)) sample_path.
Proof. split; try done. by left. Qed.
Lemma sample_packer_ready : packer_ready sample_env (pk_packer (sample_packing sample_control)) sample_path.
Proof.
  split.
  - repeat (apply Forall_cons_2; [|]); [..|constructor]; (split; [|done|done]); intros; eexists; by constructor.
  - intros f Hf. injection Hf as <-. split; [exact sample_ack_sendable|]. split; [by vm_compute|]. by vm_compute.
  - intros f Hf. injection Hf as <-. by vm_compute.
Qed.
Lemma sample_peer_ready : peer_ready sample_opener sample_env (sample_packing sample_control) sample_path VersionMP 89500.
Proof.
  split; [|by vm_compute]. intros s Hs. assert (s = (EncryptionForwardSecure, nullAEADFNV64a)) as -> by (by destruct Hs as [-> | ->]).
  split; [|by right]. split; [| |by vm_compute].
  - intros t n a. cbn [fst snd]. unfold sample_opener. by rewrite (aead_opens (AEADLaws := null64_laws)).
  - intros t n a. cbn [fst snd]. apply (aead_overhead (AEADLaws := null64_laws)).
Qed.
Lemma packet_delivered_witness :
  ∃ k' pth' r popped, PackPacket sample_env (sample_packing sample_control) sample_path = Some (k', pth', Ok r) ∧
    packs sample_opener sample_env (sample_packing sample_control) sample_path VersionMP 89500 k' pth' r popped.
Proof.
  destruct sample_packing_ops_ok as (H1 & H2 & H3).
  destruct (packet_delivered sample_opener sample_env (sample_packing sample_control) sample_path [] (se_accepted sample_sender)
    VersionMP 89500 PerspectiveServer (NewFlowControlManager sample_params) sample_ops H1 H2 H3 sample_run sample_crypto_stream)
    as (k' & pth' & r & popped & E & _ & Hp).
  - reflexivity.
  - exact sample_header_ready.
  - exact sample_packer_ready.
  - exact sample_peer_ready.
  - exists k', pth', r, popped. split; [exact E|exact Hp].
Defined.

(** The packet has the STOP_WAITING, the ACK, the control frames and the data. *)
Example sample_packed :
  match PackPacket sample_env (sample_packing sample_control) sample_path with
  | Some (_, _, Ok (Some pkt)) =>
      pp_number pkt = 90000%Z ∧
      match pp_frames pkt with
      | [FStopWaiting _; FAck _; FWindowUpdate w; FWindowUpdate _; FStream f] => WStreamID w = 0%Z ∧ SData f = sample_data
      | _ => False
      end
  | _ => False
  end.
Proof. vm_compute. by split_and!. Qed.

Lemma sample_no_crypto_data :
  match streams (pk_map (sample_packing [FPing])) !! 1%Z with Some s => lenOfDataForWriting s = 0%Z | None => False end.
Proof. vm_compute. reflexivity. Qed.
Definition sample_dropped : option (packing * path fixedWindow * result PackError (option packedPacket)) :=
  PackPacket sample_env (sample_packing [FPing]) sample_path.
Lemma sample_dropped_ok : match sample_dropped with Some (_, _, Ok _) => True | _ => False end.
Proof. vm_compute. exact I. Qed.
Lemma ping_drops_ack_witness :
  match sample_dropped with
  | Some (k', pth', Ok None) => pa_controlFrames (pk_packer k') = [] ∧ pth' = sample_path
  | _ => False
  end.
Proof.
  pose proof sample_dropped_ok as Hok. remember sample_dropped as d eqn:Ed. unfold sample_dropped in Ed. symmetry in Ed.
  destruct d as [[[k' pth'] [r|err]]|]; [|destruct Hok|destruct Hok].
  pose proof sample_no_crypto_data as Hc. destruct (streams _ !! 1%Z) as [s|] eqn:Es; [|destruct Hc].
  destruct (ping_drops_ack sample_env (sample_packing [FPing]) sample_path s [] k' pth' r Es) as [Hq Hr];
    [rewrite Hc; reflexivity|reflexivity|exact Ed|].
  destruct r as [pkt|].
  - destruct Hr as [Hr _]. discriminate Hr.
  - destruct Hr as [_ Hr]. split; [exact Hq|exact Hr].
Defined.
