(* ===== verification/SessionState.v ===== *)
(** The state of a session and what its parts share (src/mp-quic/session.go).

    The path manager, the scheduler and the handlers of a session work on one state,
    [session]; a pointer to a path is its ID.  They are written in a monad of their own:
    a call ends with a value or an error and the state it leaves, it panics, or it blocks
    forever.  What they read from their surroundings, the clock, random bytes, the order of
    a map traversal, the errors of a socket, are the answers of [surroundings] to one
    question after the other; [describe] is the code and the text of an error.  [written_out]
    and [sealed] record what was written to sockets and the paths and numbers of the packets sealed.  Congestion controllers are values, one for each path. *)

From Stdlib Require Import ZArith Lia.
From Stdlib Require Import Strings.Byte.
From stdpp Require Import prelude numbers list gmap sorting.
From S2P Require Import Prelude ByteOrder Protocol Wire StreamSorter ReceivedPackets FlowControl AckCodec PublicHeader.
From S2P Require Import PacketUnpacker Handshake RTTStats SentPackets Stream StreamsMap StreamFramer NullAEAD PacketNumberGenerator.
From S2P Require Import Path PacketPacker.

Open Scope Z_scope.

(** * Data *)

Record receivedPacket : Type := {
  remoteAddr : UDPAddr; publicHeader : PublicHeader; rawHeader : list byte; rp_data : list byte; rcvTime : Z; rcvPconn : UDPAddr
}.

Inductive SessionError : Type :=
| SePack (e : PackError) | SeSent (e : SentError) | SeReceived (e : AckError) | SeWire (e : WireError)
| SeStreams (e : StreamsMapError) | SeStream (e : StreamError) | SeFlow (e : FlowError)
| errRstStreamOnInvalidStream
| errWindowUpdateOnClosedStream
| errGoaway
| errPathExists | errOddPathID | errEvenPathID | errUnknownPathID
| errNoPing
| errWrite
| errRemote (code : Z)
| errTooManyUndecryptable | errHandshakeTimeout | errNetworkIdleTimeout
| PeerGoingAway | errCloseSessionForNewVersion
| ErrHOLExperiment | ErrNSTPExperiment | SeCrypto (code : Z).

Record closeError : Type := { close_err : SessionError; close_remote : bool }.

(** The fields of a session that do not change. *)
Record session_config : Type := {
  cf_createPaths : bool; cf_manager : bool; cf_KeepAlive : bool; cf_HandshakeTimeout : Z
}.

Record pathManager : Type := {
  nxtPathID : Z; remoteAddrs4 : list UDPAddr; remoteAddrs6 : list UDPAddr; advertisedLocAddrs : list UDPAddr;
  localAddrs : list UDPAddr
}.

(** What the handshake has settled; [hs_open] is [Open] of the setup, [hs_nonces] what
    [SetDiversificationNonce] was called with. *)
Record handshake_state : Type := {
  handshakeComplete : bool; cryptoSetup : CryptoSetup;
  hs_open : list byte → Z → list byte → result () (list byte * EncryptionLevel);
  hs_nonces : list (list byte); connectionParameters : connectionParametersManager
}.

(** What was learned from the peer. *)
Record peer_state : Type := { closedPaths : gset Z; remoteRTTs : gmap Z Z; peerBlocked : bool }.

Record timing : Type := {
  lastPathsFrameSent : Z; sessionCreationTime : Z; ss_lastNetworkActivityTime : Z; keepAlivePingSent : bool;
  receivedTooManyUndecrytablePacketsTime : option Z
}.

Record session (C : Type) : Type := {
  ss_config : session_config;
  ss_paths : gmap Z (path C);
  ss_manager : pathManager;
  ss_packing : packing;
  ss_handshake : handshake_state;
  ss_peer : peer_state;
  ss_timing : timing;
  receivedPackets : list receivedPacket;
  undecryptablePackets : list receivedPacket;
  quotas : gmap Z Z;
  ss_close : option closeError;
  sendingScheduled : bool;
  written_out : list (Z * connection * list byte);
  sealed : list (Z * Z);
  questions : nat
}.
#[global] Arguments ss_config {C} _.
#[global] Arguments ss_paths {C} _.
#[global] Arguments ss_manager {C} _.
#[global] Arguments ss_packing {C} _.
#[global] Arguments ss_handshake {C} _.
#[global] Arguments ss_peer {C} _.
#[global] Arguments ss_timing {C} _.
#[global] Arguments receivedPackets {C} _.
#[global] Arguments undecryptablePackets {C} _.
#[global] Arguments quotas {C} _.
#[global] Arguments ss_close {C} _.
#[global] Arguments sendingScheduled {C} _.
#[global] Arguments written_out {C} _.
#[global] Arguments sealed {C} _.
#[global] Arguments questions {C} _.

Record surroundings (C : Type) : Type := {
  clock : nat → Z;
  ack_clock : nat → Z → Z;
  draws : nat → option (Z * Z);
  order : nat → list Z → list Z;
  write_fails : nat → bool;
  ack_age : nat → AckFrame → Z;
  new_congestion : nat → Z → C;
  describe : SessionError → Z * list byte
}.
#[global] Arguments clock {C} _ _.
#[global] Arguments ack_clock {C} _ _ _.
#[global] Arguments draws {C} _ _.
#[global] Arguments order {C} _ _ _.
#[global] Arguments write_fails {C} _ _.
#[global] Arguments ack_age {C} _ _ _.
#[global] Arguments new_congestion {C} _ _ _.
#[global] Arguments describe {C} _ _.

(** A traversal visits each key once. *)
Class Traverses {C} (ω : surroundings C) : Prop := order_perm n l : order ω n l ≡ₚ l.

Section state.
Context {C : Type}.
Implicit Types s : session C.

Definition set_paths s (ps : gmap Z (path C)) (m : pathManager) : session C := {|
  ss_config := ss_config s; ss_paths := ps; ss_manager := m; ss_packing := ss_packing s; ss_handshake := ss_handshake s;
  ss_peer := ss_peer s; ss_timing := ss_timing s; receivedPackets := receivedPackets s;
  undecryptablePackets := undecryptablePackets s; quotas := quotas s; ss_close := ss_close s;
  sendingScheduled := sendingScheduled s; written_out := written_out s; sealed := sealed s; questions := questions s
|}.
Definition set_packing s (k : packing) : session C := {|
  ss_config := ss_config s; ss_paths := ss_paths s; ss_manager := ss_manager s; ss_packing := k; ss_handshake := ss_handshake s;
  ss_peer := ss_peer s; ss_timing := ss_timing s; receivedPackets := receivedPackets s;
  undecryptablePackets := undecryptablePackets s; quotas := quotas s; ss_close := ss_close s;
  sendingScheduled := sendingScheduled s; written_out := written_out s; sealed := sealed s; questions := questions s
|}.
Definition set_learned s (h : handshake_state) (p : peer_state) (t : timing) : session C := {|
  ss_config := ss_config s; ss_paths := ss_paths s; ss_manager := ss_manager s; ss_packing := ss_packing s; ss_handshake := h;
  ss_peer := p; ss_timing := t; receivedPackets := receivedPackets s;
  undecryptablePackets := undecryptablePackets s; quotas := quotas s; ss_close := ss_close s;
  sendingScheduled := sendingScheduled s; written_out := written_out s; sealed := sealed s; questions := questions s
|}.
Definition set_packets s (received undecryptable : list receivedPacket) : session C := {|
  ss_config := ss_config s; ss_paths := ss_paths s; ss_manager := ss_manager s; ss_packing := ss_packing s;
  ss_handshake := ss_handshake s; ss_peer := ss_peer s; ss_timing := ss_timing s; receivedPackets := received;
  undecryptablePackets := undecryptable; quotas := quotas s; ss_close := ss_close s;
  sendingScheduled := sendingScheduled s; written_out := written_out s; sealed := sealed s; questions := questions s
|}.
Definition set_sending s (qs : gmap Z Z) (close : option closeError) (scheduled : bool) : session C := {|
  ss_config := ss_config s; ss_paths := ss_paths s; ss_manager := ss_manager s; ss_packing := ss_packing s;
  ss_handshake := ss_handshake s; ss_peer := ss_peer s; ss_timing := ss_timing s; receivedPackets := receivedPackets s;
  undecryptablePackets := undecryptablePackets s; quotas := qs; ss_close := close;
  sendingScheduled := scheduled; written_out := written_out s; sealed := sealed s; questions := questions s
|}.
Definition set_outside s (out : list (Z * connection * list byte)) (n : nat) : session C := {|
  ss_config := ss_config s; ss_paths := ss_paths s; ss_manager := ss_manager s; ss_packing := ss_packing s;
  ss_handshake := ss_handshake s; ss_peer := ss_peer s; ss_timing := ss_timing s; receivedPackets := receivedPackets s;
  undecryptablePackets := undecryptablePackets s; quotas := quotas s; ss_close := ss_close s;
  sendingScheduled := sendingScheduled s; written_out := out; sealed := sealed s; questions := n
|}.

Definition log_sealed s (id number : Z) : session C := {|
  ss_config := ss_config s; ss_paths := ss_paths s; ss_manager := ss_manager s; ss_packing := ss_packing s;
  ss_handshake := ss_handshake s; ss_peer := ss_peer s; ss_timing := ss_timing s; receivedPackets := receivedPackets s;
  undecryptablePackets := undecryptablePackets s; quotas := quotas s; ss_close := ss_close s;
  sendingScheduled := sendingScheduled s; written_out := written_out s; sealed := sealed s ++ [(id, number)];
  questions := questions s
|}.

Definition put_path s (id : Z) (p : path C) : session C := set_paths s (<[id := p]> (ss_paths s)) (ss_manager s).
Definition set_manager s (m : pathManager) : session C := set_paths s (ss_paths s) m.
Definition set_peer s (p : peer_state) : session C := set_learned s (ss_handshake s) p (ss_timing s).
Definition set_timing s (t : timing) : session C := set_learned s (ss_handshake s) (ss_peer s) t.
Definition ss_perspective s : Perspective := pa_perspective (pk_packer (ss_packing s)).
Definition ss_version s : Z := pa_version (pk_packer (ss_packing s)).
End state.

(** * The monad *)

Inductive outcome (C A : Type) : Type :=
| Done (s : session C) (r : result SessionError A)
| Panics
| Blocks.
#[global] Arguments Done {C A} _ _.
#[global] Arguments Panics {C A}.
#[global] Arguments Blocks {C A}.

Definition M (C A : Type) : Type := session C → outcome C A.

Section monad.
Context {C : Type}.

Definition ret {A} (a : A) : M C A := λ s, Done s (Ok a).
Definition throw {A} (e : SessionError) : M C A := λ s, Done s (Err e).
Definition panic {A} : M C A := λ _, Panics.
Definition block {A} : M C A := λ _, Blocks.
Definition bind {A B} (m : M C A) (f : A → M C B) : M C B := λ s,
  match m s with
  | Done s (Ok a) => f a s
  | Done s (Err e) => Done s (Err e)
  | Panics => Panics
  | Blocks => Blocks
  end.
Definition get : M C (session C) := λ s, Done s (Ok s).
Definition modify (f : session C → session C) : M C () := λ s, Done (f s) (Ok ()).
(** The error of a call as a value. *)
Definition try {A} (m : M C A) : M C (result SessionError A) := λ s,
  match m s with Done s r => Done s (Ok r) | Panics => Panics | Blocks => Blocks end.
Definition from_result {A} (r : result SessionError A) : M C A := λ s, Done s r.
End monad.

Declare Scope session_scope.
Delimit Scope session_scope with session.
Notation "'let!' x := m 'in' k" := (bind m (λ x, k)) (at level 200, x pattern, m at level 100, k at level 200) : session_scope.
Notation "'do!' m 'in' k" := (bind m (λ _, k)) (at level 200, m at level 100, k at level 200) : session_scope.
Open Scope session_scope.

Section session.
Context {C : Type} `{!SendAlgorithm C} (ω : surroundings C).
Implicit Types (s : session C) (id : Z).

(** The number of the next question. *)
Definition ask : M C nat := λ s, Done (set_outside s (written_out s) (S (questions s))) (Ok (questions s)).
Definition Now : M C Z := let! n := ask in ret (clock ω n).

(** A nil pointer to a path is a panic once it is used. *)
Definition the_path id : M C (path C) :=
  let! s := get in match ss_paths s !! id with Some p => ret p | None => panic end.
Definition on_path id (f : path C → path C) : M C () :=
  let! p := the_path id in modify (λ s, put_path s id (f p)).
Definition path_ids : M C (list Z) :=
  let! n := ask in let! s := get in ret (order ω n (merge_sort Z.le (elements (dom (ss_paths s))))).
Fixpoint for_each_path (ids : list Z) (f : Z → M C ()) : M C () :=
  match ids with [] => ret () | id :: ids => do! f id in for_each_path ids f end.

(** * What the parts share *)

Definition parameters_of (h : connectionParametersManager) : ConnectionParameters := {|
  GetSendStreamFlowControlWindow := sendStreamFlowControlWindow h;
  GetSendConnectionFlowControlWindow := sendConnectionFlowControlWindow h;
  GetReceiveStreamFlowControlWindow := receiveStreamFlowControlWindow h;
  GetReceiveConnectionFlowControlWindow := receiveConnectionFlowControlWindow h;
  GetMaxReceiveStreamFlowControlWindow := maxReceiveStreamFlowControlWindow h;
  GetMaxReceiveConnectionFlowControlWindow := maxReceiveConnectionFlowControlWindow h
|}.
Definition ss_params s : ConnectionParameters := parameters_of (connectionParameters (ss_handshake s)).
Definition idleTimeout s : Z := idleConnectionStateLifetime (connectionParameters (ss_handshake s)).

(** [s.rttStats] are those of the initial path. *)
Definition session_smoothedRTT s : Z :=
  match ss_paths s !! InitialPathID with Some p => smoothedRTT (rttStats (sent p)) | None => 0 end.

Definition pack_env_of s (n : nat) : pack_env := {|
  pe_crypto := cryptoSetup (ss_handshake s); pe_params := ss_params s; pe_limit := GetMaxIncomingStreams;
  pe_TruncateConnectionID := TruncateConnectionID_ (connectionParameters (ss_handshake s));
  pe_handshakeComplete := handshakeComplete (ss_handshake s); pe_since := ack_age ω n; pe_drawn := draws ω n
|}.

(** A method of the packer, for a path; the packets it seals are noted in [sealed]. *)
Definition with_packer (id : Z)
    (op : pack_env → packing → path C → option (packing * path C * result PackError (option packedPacket))) :
    M C (option packedPacket) :=
  let! p := the_path id in
  let! n := ask in
  let! s := get in
  match op (pack_env_of s n) (ss_packing s) p with
  | None => panic
  | Some (k, p, r) =>
      do! modify (λ s, put_path (set_packing s k) id p) in
      match r with
      | Ok None => ret None
      | Ok (Some packet) => do! modify (λ s, log_sealed s id (pp_number packet)) in ret (Some packet)
      | Err e => throw (SePack e)
      end
  end.
Definition queue_frame (f : Frame) (id : Z) : M C () :=
  modify (λ s, set_packing s (PacketPacker.with_packer (ss_packing s) (QueueControlFrame (pk_packer (ss_packing s)) f id))).

Definition as_Packet (p : packedPacket) : Packet := {|
  PktNumber := pp_number p; PktFrames := pp_frames p; PktLength := zlen (pp_raw p);
  PktEncryptionLevel := pp_level p; PktSendTime := None
|}.

Definition conn_Write (id : Z) (raw : list byte) : M C () :=
  let! n := ask in
  let! p := the_path id in
  if write_fails ω n then throw errWrite
  else modify (λ s, set_outside s (written_out s ++ [(id, conn p, raw)]) (questions s)).

(** The path takes the element out of [sentPacket] as long as it runs. *)
Definition notify_sent (id : Z) : M C () :=
  let! p := the_path id in
  if sentPacket p && negb (open p) then block else on_path id (λ p, set_sentPacket p true).

Definition sendPackedPacket (packet : packedPacket) (id : Z) : M C () :=
  let! now := Now in
  let! p := the_path id in
  let '(h, e) := SentPacket (sent p) (as_Packet packet) now in
  do! on_path id (λ p, set_sent p h) in
  match e with
  | Some e => throw (SeSent e)
  | None => do! notify_sent id in conn_Write id (pp_raw packet)
  end.

Definition sendPing (id : Z) : M C () :=
  let! packet := with_packer id PackPing in
  match packet with
  | None => throw errNoPing
  | Some packet => sendPackedPacket packet id
  end.

Definition fc_environment s (now : Z) : environment := {|
  env_now := now; FlowControl.SmoothedRTT := session_smoothedRTT s; FlowControl.remoteRTTs := remoteRTTs (ss_peer s)
|}.
Definition getWindowUpdateFrames (force : bool) : M C (list WindowUpdateFrame) :=
  let! n := ask in
  let! s := get in
  let k := ss_packing s in
  let ids := order ω n (merge_sort Z.le (elements (dom (streamFlowController (pk_flow k))))) in
  let '(fc, updates) := GetWindowUpdates (fc_environment s (clock ω n)) force (pk_flow k) ids in
  do! modify (λ s, set_packing s {| pk_packer := pk_packer k; pk_framer := pk_framer k; pk_map := pk_map k; pk_flow := fc |}) in
  ret ((λ u : Z * Z, {| WStreamID := u.1; WByteOffset := u.2 |}) <$> updates).

Definition with_framer (k : packing) (f : streamFramer) : packing :=
  {| pk_packer := pk_packer k; pk_framer := f; pk_map := pk_map k; pk_flow := pk_flow k |}.
Definition on_framer (f : streamFramer → streamFramer) : M C () :=
  modify (λ s, set_packing s (with_framer (ss_packing s) (f (pk_framer (ss_packing s))))).

Definition path_reports s (ids : list Z) : list (Z * (bool * Z)) :=
  omap (λ id, (λ p, (id, (potentiallyFailed p, smoothedRTT (rttStats (sent p))))) <$> ss_paths s !! id) ids.
Definition schedulePathsFrame : M C () :=
  let! now := Now in
  do! modify (λ s, let t := ss_timing s in set_timing s {|
    lastPathsFrameSent := now; sessionCreationTime := sessionCreationTime t;
    ss_lastNetworkActivityTime := ss_lastNetworkActivityTime t; keepAlivePingSent := keepAlivePingSent t;
    receivedTooManyUndecrytablePacketsTime := receivedTooManyUndecrytablePacketsTime t |}) in
  let! ids := path_ids in
  let! s := get in
  on_framer (λ f, AddPathsFrameForTransmission f (path_reports s ids)).

(** Only the first request to close counts. *)
Definition request_close (e : closeError) : M C () :=
  modify (λ s, match ss_close s with Some _ => s | None => set_sending s (quotas s) (Some e) (sendingScheduled s) end).
Definition closeLocal (e : SessionError) : M C () := request_close {| close_err := e; close_remote := false |}.
Definition closeRemote (e : SessionError) : M C () := request_close {| close_err := e; close_remote := true |}.

Definition scheduleSending : M C () := modify (λ s, set_sending s (quotas s) (ss_close s) true).
End session.

Close Scope Z_scope.

(** * What a call keeps *)

(** Steps from one state to another, for calls that return. *)
Definition keeps_at {C A} (R : relation (session C)) (m : M C A) (s : session C) : Prop :=
  match m s with Done s' _ => R s s' | _ => True end.
Definition preserves {C A} (R : relation (session C)) (m : M C A) : Prop := ∀ s, keeps_at R m s.

Create HintDb session.

Section preserves.
Context {C : Type} (R : relation (session C)) `{!PreOrder R}.

Lemma preserves_done {A} (m : M C A) s s' r : preserves R m → m s = Done s' r → R s s'.
Proof using Type. intros Hm E. specialize (Hm s). unfold keeps_at in Hm. by rewrite E in Hm. Qed.
Lemma preserves_ret {A} (a : A) : preserves R (ret a).
Proof using PreOrder0. intros s. unfold keeps_at. cbn. reflexivity. Qed.
Lemma preserves_throw {A} e : preserves R (throw (A := A) e).
Proof using PreOrder0. intros s. unfold keeps_at. cbn. reflexivity. Qed.
Lemma preserves_panic {A} : preserves R (panic (A := A)).
Proof using Type. by intros s. Qed.
Lemma preserves_blocks {A} : preserves R (block (A := A)).
Proof using Type. by intros s. Qed.
Lemma preserves_get : preserves R get.
Proof using PreOrder0. intros s. unfold keeps_at. cbn. reflexivity. Qed.
Lemma preserves_modify f : (∀ s, R s (f s)) → preserves R (modify f).
Proof using Type. intros Hf s. apply Hf. Qed.
Lemma preserves_from_result {A} (r : result SessionError A) : preserves R (from_result r).
Proof using PreOrder0. intros s. unfold keeps_at. cbn. reflexivity. Qed.

Lemma keeps_bind {A B} (m : M C A) (f : A → M C B) s :
  keeps_at R m s → (∀ a s', m s = Done s' (Ok a) → keeps_at R (f a) s') → keeps_at R (bind m f) s.
Proof using PreOrder0.
  unfold keeps_at, bind. destruct (m s) as [s' [a|e]| |]; [|done..]. intros Hm Hf. specialize (Hf a s' eq_refl).
  destruct (f a s') as [s'' r| |]; [|done..]. by etransitivity.
Qed.
Lemma preserves_bind {A B} (m : M C A) (f : A → M C B) :
  preserves R m → (∀ a, preserves R (f a)) → preserves R (bind m f).
Proof using PreOrder0. intros Hm Hf s. apply keeps_bind; [apply Hm|]. intros a s' _. apply Hf. Qed.
Lemma preserves_try {A} (m : M C A) : preserves R m → preserves R (try m).
Proof using Type. intros Hm s. specialize (Hm s). unfold keeps_at, try in *. by destruct (m s). Qed.
Lemma preserves_for_each_path ids f : (∀ id, preserves R (f id)) → preserves R (for_each_path ids f).
Proof using PreOrder0.
  intros Hf. induction ids as [|id ids IH]; [apply preserves_ret|]. cbn. apply preserves_bind; [apply Hf|]. by intros _.
Qed.

(** The path of a call that goes on is there. *)
Lemma the_path_keeps id {B} (f : path C → M C B) s :
  (∀ p, ss_paths s !! id = Some p → keeps_at R (f p) s) → keeps_at R (bind (the_path id) f) s.
Proof using Type.
  intros H. unfold keeps_at, bind, the_path, get, ret, panic in *. cbn. destruct (ss_paths s !! id) as [p|]; [|done]. by apply (H p).
Qed.
Lemma get_keeps {B} (f : session C → M C B) s : keeps_at R (f s) s → keeps_at R (bind get f) s.
Proof using Type. done. Qed.
Lemma preserves_the_path id : preserves R (the_path id).
Proof using PreOrder0.
  intros s. unfold the_path, bind, get, keeps_at. cbn. destruct (ss_paths s !! id); [cbn; reflexivity|done].
Qed.
End preserves.

#[export] Hint Resolve preserves_ret preserves_throw preserves_panic preserves_blocks preserves_get preserves_from_result
  preserves_bind preserves_try preserves_the_path : session.

(** Goes through a call: binds, cases, and what the database knows. *)
Ltac preserve :=
  repeat first
    [ progress intros
    | match goal with |- preserves _ (bind _ _) => apply preserves_bind; [typeclasses eauto| |intros] end
    | match goal with |- preserves _ (try _) => apply preserves_try end
    | match goal with |- preserves _ (match ?x with _ => _ end) => destruct x end
    | match goal with |- preserves _ (let '_ := ?x in _) => destruct x end
    | solve [eauto with session typeclass_instances] ].
