(* ===== verification/PathManager.v ===== *)
(** The path manager of a session (src/mp-quic/path_manager.go, the interface connection of
    conn.go, and the set-up of a session in session.go).

    Addresses are compared by the text they print as: an IPv4 address has two forms.  A
    packet connection is told by its local address. *)

From Stdlib Require Import ZArith Lia.
From Stdlib Require Import Strings.Byte.
From stdpp Require Import prelude numbers list gmap.
From S2P Require Import Prelude ByteOrder Protocol Wire FlowControl AckCodec PublicHeader PacketUnpacker Handshake RTTStats SentPackets.
From S2P Require Import Stream StreamsMap StreamFramer NullAEAD PacketNumberGenerator Path PacketPacker SessionState.

Open Scope Z_scope.

Definition getIPVersion (ip : list byte) : Z := match To4 ip with Some _ => 4 | None => 6 end.

(** What [String()] shows of an address. *)
Definition addr_key (a : UDPAddr) : list byte * Z := (default (addr_IP a) (To4 (addr_IP a)), addr_Port a).

Definition set_next (m : pathManager) (next : Z) : pathManager := {|
  nxtPathID := next; remoteAddrs4 := remoteAddrs4 m; remoteAddrs6 := remoteAddrs6 m; advertisedLocAddrs := advertisedLocAddrs m;
  localAddrs := localAddrs m
|}.
Definition set_addresses (m : pathManager) (r4 r6 advertised : list UDPAddr) : pathManager := {|
  nxtPathID := nxtPathID m; remoteAddrs4 := r4; remoteAddrs6 := r6; advertisedLocAddrs := advertised; localAddrs := localAddrs m
|}.

(** A path with these addresses is there. *)
Definition has_path {C} (s : session C) (loc rem : UDPAddr) : bool :=
  existsb (λ p, bool_decide (addr_key loc = addr_key (LocalAddr (conn p.2)) ∧ addr_key rem = addr_key (RemoteAddr (conn p.2))))
    (map_to_list (ss_paths s)).

Section manager.
Context {C : Type} `{!SendAlgorithm C} (ω : surroundings C).

(** [path.setup] of a new path in the map. *)
Definition add_path (id : Z) (c : connection) : M C () :=
  let! n := ask in
  modify (λ s, put_path s id (setup id c (ss_version s) (new_congestion ω n id) (clock ω n))).

Fixpoint advertise (addrs : list UDPAddr) : M C () :=
  match addrs with
  | [] => ret ()
  | a :: addrs =>
      let! s := get in
      do! if decide (addr_key a ∈ addr_key <$> advertisedLocAddrs (ss_manager s)) then ret ()
          else
            do! on_framer (λ f, AddAddressForTransmission f (getIPVersion (addr_IP a)) (addr_IP a) (addr_Port a)) in
            modify (λ s, let m := ss_manager s in
              set_manager s (set_addresses m (remoteAddrs4 m) (remoteAddrs6 m) (advertisedLocAddrs m ++ [a]))) in
      advertise addrs
  end.
Definition advertiseAddresses : M C () := let! s := get in advertise (localAddrs (ss_manager s)).

Definition createPath (loc rem : UDPAddr) : M C () :=
  let! s := get in
  if has_path s loc rem then ret ()
  else
    let id := nxtPathID (ss_manager s) in
    do! add_path id {| LocalAddr := loc; RemoteAddr := rem |} in
    do! modify (λ s, set_manager s (set_next (ss_manager s) (u8 (id + 2)))) in
    sendPing ω id.

Fixpoint create_to (loc : UDPAddr) (rems : list UDPAddr) : M C () :=
  match rems with [] => ret () | rem :: rems => do! createPath loc rem in create_to loc rems end.
Fixpoint create_from (locs : list UDPAddr) : M C () :=
  match locs with
  | [] => ret ()
  | loc :: locs =>
      let! s := get in
      do! create_to loc (if decide (getIPVersion (addr_IP loc) = 4) then remoteAddrs4 (ss_manager s) else remoteAddrs6 (ss_manager s)) in
      create_from locs
  end.
Definition createPaths : M C () :=
  let! s := get in
  match ss_perspective s with
  | PerspectiveServer => advertiseAddresses
  | PerspectiveClient => do! create_from (localAddrs (ss_manager s)) in schedulePathsFrame ω
  end.

Definition createPathFromRemote (p : receivedPacket) : M C Z :=
  let! s := get in
  let id := HPathID (publicHeader p) in
  if decide (is_Some (ss_paths s !! id)) then throw errPathExists
  else if decide (ss_perspective s = PerspectiveClient ∧ id mod 2 ≠ 0) then throw errOddPathID
  else if decide (ss_perspective s = PerspectiveServer ∧ id mod 2 = 0) then throw errEvenPathID
  else do! add_path id {| LocalAddr := rcvPconn p; RemoteAddr := remoteAddr p |} in ret id.

Definition handleAddAddressFrame (f : AddAddressFrame) : M C () :=
  let a := {| addr_IP := IP f; addr_Port := Port f |} in
  do! if decide (IPVersion f = 4) then
        modify (λ s, let m := ss_manager s in set_manager s (set_addresses m (remoteAddrs4 m ++ [a]) (remoteAddrs6 m) (advertisedLocAddrs m)))
      else if decide (IPVersion f = 6) then
        modify (λ s, let m := ss_manager s in set_manager s (set_addresses m (remoteAddrs4 m) (remoteAddrs6 m ++ [a]) (advertisedLocAddrs m)))
      else throw (SeWire ErrUnknownIPVersion) in
  let! s := get in
  if cf_createPaths (ss_config s) then createPaths else ret ().

(** The running path takes the request. *)
Definition request_path_close (p : path C) : path C :=
  if open p then set_liveness p (open p) true (potentiallyFailed p) (lastNetworkActivityTime p) else p.
Definition pm_closePath (id : Z) : M C () :=
  modify (λ s, match ss_paths s !! id with Some p => put_path s id (request_path_close p) | None => s end).
Definition pm_closePaths : M C () :=
  modify (λ s, set_paths s (request_path_close <$> ss_paths s) (ss_manager s)).

(** [run] when the handshake has completed or the addresses have changed. *)
Definition pm_handshakeCompleted : M C () :=
  let! s := get in
  if cf_createPaths (ss_config s) then
    let! r := try createPaths in
    match r with Ok _ => ret () | Err _ => pm_closePaths end
  else ret ().
Definition pm_changePaths : M C () :=
  let! s := get in
  if cf_createPaths (ss_config s) then let! _ := try createPaths in ret () else ret ().

Definition pm_setup (pers : Perspective) (c : connection) (locs : list UDPAddr) : pathManager :=
  let rem := RemoteAddr c in
  let v4 := bool_decide (is_Some (To4 (addr_IP rem))) in
  {| nxtPathID := match pers with PerspectiveClient => 1 | PerspectiveServer => 2 end;
     remoteAddrs4 := if v4 then [rem] else []; remoteAddrs6 := if v4 then [] else [rem]; advertisedLocAddrs := [];
     localAddrs := locs |}.

(** [session.setup], for the cryptographic setup it creates: the stream of the handshake is
    opened, and a server accepts it itself. *)
Definition open_crypto_stream (cpm : connectionParametersManager) (pers : Perspective) : option (streamsMap * flowControlManager) :=
  let cp := parameters_of cpm in
  let m := newStreamsMap pers in
  let fc := NewFlowControlManager cp in
  match pers with
  | PerspectiveServer =>
      '(m, fc, _) ← GetOrOpenStream cp GetMaxIncomingStreams m fc 1;
      Some ((AcceptStream m).1, fc)
  | PerspectiveClient => let '(m, fc, _) := OpenStream cp (GetMaxOutgoingStreams cpm) m fc in Some (m, fc)
  end.
Definition session_setup (cf : session_config) (pers : Perspective) (version connectionID : Z) (c : connection)
    (locs : list UDPAddr) (maxStream maxConnection idle : Z) (cs : CryptoSetup)
    (open : list byte → Z → list byte → result () (list byte * EncryptionLevel)) : option (session C) :=
  let cpm := NewConnectionParamatersManager pers version maxStream maxConnection idle in
  let now := clock ω 0 in
  '(m, fc) ← open_crypto_stream cpm pers;
  Some {|
    ss_config := cf;
    ss_paths := {[InitialPathID := setup InitialPathID c version (new_congestion ω 0 InitialPathID) now]};
    ss_manager := pm_setup pers c locs;
    ss_packing := {| pk_packer := newPacketPacker connectionID pers version; pk_framer := newStreamFramer; pk_map := m; pk_flow := fc |};
    ss_handshake := {| handshakeComplete := false; cryptoSetup := cs; hs_open := open; hs_nonces := []; connectionParameters := cpm |};
    ss_peer := {| closedPaths := ∅; remoteRTTs := ∅; peerBlocked := false |};
    ss_timing := {| lastPathsFrameSent := 0; sessionCreationTime := now; ss_lastNetworkActivityTime := now;
                    keepAlivePingSent := false; receivedTooManyUndecrytablePacketsTime := None |};
    receivedPackets := []; undecryptablePackets := []; quotas := ∅; ss_close := None; sendingScheduled := false;
    written_out := []; sealed := []; questions := 1
  |}.
End manager.

Close Scope Z_scope.

(** * A sample: a session with one local address besides that of its first path *)

Definition sample_surroundings : surroundings fixedWindow := {|
  clock := λ n, (1000 + Z.of_nat n)%Z; ack_clock := λ _ n, n; draws := λ _, Some (1, 2)%Z; order := λ _ l, l;
  write_fails := λ _, false; ack_age := λ _ _, 25000000%Z; new_congestion := λ _ _, {| window_bytes := 40000 |};
  describe := λ _, (0%Z, [])
|}.
#[export] Instance sample_traverses : Traverses sample_surroundings.
Proof. by intros n l. Qed.
Definition sample_crypto : CryptoSetup := {|
  GetSealer := (EncryptionForwardSecure, nullAEADFNV64a); GetSealerWithEncryptionLevel := λ _, Some nullAEADFNV64a;
  GetSealerForCryptoStream := (EncryptionForwardSecure, nullAEADFNV64a); crypto_DiversificationNonce := []
|}.
Definition sample_open_packet (data : list byte) (n : Z) (aad : list byte) : result () (list byte * EncryptionLevel) :=
  match aead_Open nullAEADFNV64a data n aad with Ok t => Ok (t, EncryptionForwardSecure) | Err _ => Err () end.
Definition sample_address (last : byte) (port : Z) : UDPAddr := {| addr_IP := [x0a; x00; x00; last]; addr_Port := port |}.
Definition sample_config : session_config := {| cf_createPaths := true; cf_manager := true; cf_KeepAlive := false; cf_HandshakeTimeout := 10 * Second |}.
Definition sample_connection : connection := {| LocalAddr := sample_address x01 1; RemoteAddr := sample_address x02 2 |}.
Definition sample_setup (pers : Perspective) : option (session fixedWindow) :=
  session_setup sample_surroundings sample_config pers VersionMP 77 sample_connection [sample_address x03 3] 100000 200000
    (30 * Second) sample_crypto sample_open_packet.
