(* ===== verification/Scheduler.v ===== *)
(** The scheduler of a session (src/mp-quic/scheduler.go).

    Which packets are sent again, which path sends next, and what is sent when no path may.
    A map traversal asks the surroundings for its order.  The loop of [sendPacket] is a
    relation over its turns. *)

From Stdlib Require Import ZArith Lia.
From Stdlib Require Import Strings.Byte.
From stdpp Require Import prelude numbers list gmap sorting.
From S2P Require Import Prelude ByteOrder Protocol Wire ReceivedPackets FlowControl AckCodec PublicHeader PacketUnpacker.
From S2P Require Import Handshake RTTStats SentPackets Stream StreamsMap StreamFramer PacketNumberGenerator Path PacketPacker.
From S2P Require Import SessionState PathManager.

Open Scope Z_scope.

(** An absent quota reads as 0. *)
Definition quota (q : gmap Z Z) (id : Z) : Z := default 0 (q !! id).
Definition path_rtt {C} (p : path C) : Z := smoothedRTT (rttStats (sent p)).

Section scheduler.
Context {C : Type} `{!SendAlgorithm C} (ω : surroundings C).
Implicit Types (s : session C) (id : Z).

(** * What is sent again *)

(** The first path in the order that has a packet. *)
Fixpoint dequeue (ids : list Z) : M C (option (Z * Packet)) :=
  match ids with
  | [] => ret None
  | id :: ids =>
      let! p := the_path id in
      let '(h, r) := DequeuePacketForRetransmission (sent p) in
      do! on_path id (λ p, set_sent p h) in
      match r with Some packet => ret (Some (id, packet)) | None => dequeue ids end
  end.

Definition resend_frame (id : Z) (f : Frame) : M C () :=
  match f with
  | FStream f => on_framer (λ fr, AddFrameForRetransmission fr f)
  | FWindowUpdate w =>
      let! s := get in
      match GetReceiveWindow (pk_flow (ss_packing s)) (WStreamID w) with
      | Ok current => if decide (current ≤ WByteOffset w) then queue_frame (FWindowUpdate w) id else ret ()
      | Err _ => ret ()
      end
  | FPaths _ => schedulePathsFrame ω
  | f => queue_frame f id
  end.
Fixpoint resend_frames (id : Z) (fs : list Frame) : M C () :=
  match fs with [] => ret () | f :: fs => do! resend_frame id f in resend_frames id fs end.

(** The path is the one of the last packet, also when no packet is returned. *)
Fixpoint retransmit_loop (fuel : nat) (has : bool) (from : option Z) : M C (bool * option Packet * option Z) :=
  match fuel with
  | O => block
  | S fuel =>
      let! ids := path_ids ω in
      let! r := dequeue ids in
      match r with
      | None => ret (has, None, from)
      | Some (id, packet) =>
          let! s := get in
          if decide (PktEncryptionLevel packet ≠ EncryptionForwardSecure) then
            if handshakeComplete (ss_handshake s) then retransmit_loop fuel true (Some id)
            else ret (true, Some packet, Some id)
          else do! resend_frames id (GetFramesForRetransmission packet) in retransmit_loop fuel true (Some id)
      end
  end.
(** The packets that wait on all paths. *)
Definition waiting_packets s : list (Z * Packet) :=
  map_to_list (ss_paths s) ≫= λ p, (λ packet, (p.1, packet)) <$> SentPackets.retransmissionQueue (sent p.2).
Definition getRetransmission : M C (bool * option Packet * option Z) :=
  let! s := get in retransmit_loop (S (length (waiting_packets s))) false None.

(** * Which path sends *)

Definition touch_quota s id : session C :=
  set_sending s (<[id := quota (quotas s) id]> (quotas s)) (ss_close s) (sendingScheduled s).

(** With at most one path, that path. *)
Definition only_path (hasRetransmission : bool) : M C (option Z) :=
  let! p := the_path InitialPathID in
  ret (if negb hasRetransmission && negb (path_SendingAllowed p) then None else Some InitialPathID).

Definition may_send (hasRetransmission : bool) id (p : path C) : bool :=
  (hasRetransmission || path_SendingAllowed p) && negb (potentiallyFailed p) && negb (bool_decide (id = InitialPathID)).

Fixpoint round_robin_loop (hasRetransmission : bool) (ids : list Z) (selected : option Z) (lowerQuota : Z) : M C (option Z) :=
  match ids with
  | [] => ret selected
  | id :: ids =>
      let! p := the_path id in
      if negb (may_send hasRetransmission id p) then round_robin_loop hasRetransmission ids selected lowerQuota
      else
        let! s := get in
        let currentQuota := quota (quotas s) id in
        do! modify (λ s, touch_quota s id) in
        if decide (currentQuota < lowerQuota) then round_robin_loop hasRetransmission ids (Some id) currentQuota
        else round_robin_loop hasRetransmission ids selected lowerQuota
  end.
Definition selectPathRoundRobin (hasRetransmission : bool) : M C (option Z) :=
  let! s := get in
  if decide (size (ss_paths s) ≤ 1)%nat then only_path hasRetransmission
  else let! ids := path_ids ω in round_robin_loop hasRetransmission ids None (2 ^ 64 - 1).

(** A turn of the loop over the paths; [None] keeps the selection. *)
Record choice : Type := { ch_path : option Z; ch_rtt : Z; ch_id : Z }.
Definition no_choice : choice := {| ch_path := None; ch_rtt := 0; ch_id := 255 |}.
Definition low_latency_turn (hasRetransmission : bool) (ch : choice) id : M C choice :=
  let! p := the_path id in
  if negb (may_send hasRetransmission id p) then ret ch
  else
    let currentRTT := path_rtt p in
    if decide (ch_rtt ch ≠ 0 ∧ currentRTT = 0) then ret ch
    else
      let! s := get in
      let currentQuota := quota (quotas s) id in
      let lowerQuota := quota (quotas s) (ch_id ch) in
      do! (if decide (currentRTT = 0) then modify (λ s, touch_quota s id) else ret ()) in
      if decide (currentRTT = 0 ∧ is_Some (ch_path ch) ∧ lowerQuota < currentQuota) then ret ch
      else if decide (currentRTT ≠ 0 ∧ ch_rtt ch ≠ 0 ∧ is_Some (ch_path ch) ∧ ch_rtt ch ≤ currentRTT) then ret ch
      else ret {| ch_path := Some id; ch_rtt := currentRTT; ch_id := id |}.
Fixpoint low_latency_loop (hasRetransmission : bool) (ids : list Z) (ch : choice) : M C (option Z) :=
  match ids with
  | [] => ret (ch_path ch)
  | id :: ids => let! ch := low_latency_turn hasRetransmission ch id in low_latency_loop hasRetransmission ids ch
  end.

(** Another path that was sent on less than [from]. *)
Definition less_used s (from : Z) (ids : list Z) : option Z :=
  (list_find (λ id, id ≠ InitialPathID ∧ id ≠ from ∧ quota (quotas s) id < quota (quotas s) from) ids) ≫= λ r, Some r.2.

Definition selectPathLowLatency (hasRetransmission hasStreamRetransmission : bool) (fromPth : option Z) : M C (option Z) :=
  let! s := get in
  if decide (size (ss_paths s) ≤ 1)%nat then only_path hasRetransmission
  else
    let! again :=
      if hasRetransmission && hasStreamRetransmission then
        match fromPth with
        | None => panic
        | Some from =>
            let! p := the_path from in
            if decide (path_rtt p = 0) then let! ids := path_ids ω in let! s := get in ret (less_used s from ids)
            else ret None
        end
      else ret None in
    match again with
    | Some id => ret (Some id)
    | None => let! ids := path_ids ω in low_latency_loop hasRetransmission ids no_choice
    end.
Definition selectPath := selectPathLowLatency.

(** * Sending *)

Fixpoint queue_updates (wufs : list WindowUpdateFrame) id : M C () :=
  match wufs with [] => ret () | f :: wufs => do! queue_frame (FWindowUpdate f) id in queue_updates wufs id end.

(** Frames that may be nil. *)
Definition queue_stop (id : Z) (f : option StopWaitingFrame) : M C () :=
  modify (λ s, set_packing s (PacketPacker.with_packer (ss_packing s) (queue_stop_waiting (pk_packer (ss_packing s)) id f))).
Definition queue_ack_frame (id : Z) (f : option AckFrame) : M C () :=
  modify (λ s, set_packing s (PacketPacker.with_packer (ss_packing s) (queue_ack (pk_packer (ss_packing s)) id f))).

Definition count_quota id : M C () :=
  modify (λ s, set_sending s (<[id := u64 (quota (quotas s) id + 1)]> (quotas s)) (ss_close s) (sendingScheduled s)).

(** The packet that was sent, if one was. *)
Definition performPacketSending (windowUpdateFrames : list WindowUpdateFrame) id : M C (option Packet) :=
  let! p := the_path id in
  do! (if ShouldSendRetransmittablePacket (sent p) then queue_frame FPing id else ret ()) in
  let! packet := with_packer ω id PackPacket in
  match packet with
  | None => ret None
  | Some packet =>
      do! sendPackedPacket ω packet id in
      do! queue_updates windowUpdateFrames id in
      do! count_quota id in
      ret (Some (as_Packet packet))
  end.

Definition get_ack_frame id : M C (option AckFrame) :=
  let! now := Now ω in
  let! p := the_path id in
  match path_GetAckFrame p now with
  | None => panic
  | Some (p, ack) => do! modify (λ s, put_path s id p) in ret ack
  end.
Definition get_stop_waiting id (force : bool) : M C (option StopWaitingFrame) :=
  let! p := the_path id in
  let '(p, f) := path_GetStopWaitingFrame p force in
  do! modify (λ s, put_path s id p) in ret f.

Definition ack_path (wufs : list WindowUpdateFrame) id : M C () :=
  let! ack := get_ack_frame id in
  do! queue_updates wufs id in
  if decide (ack = None ∧ (wufs = [] ∨ id = InitialPathID)) then ret ()
  else
    let! swf := get_stop_waiting id false in
    do! (match swf with Some f => queue_stop id (Some f) | None => ret () end) in
    do! queue_ack_frame id ack in
    let! packet := with_packer ω id (match ack with Some _ => PackAckPacket | None => PackPacket end) in
    match packet with
    | None => panic
    | Some packet => sendPackedPacket ω packet id
    end.
Definition ackRemainingPaths (totalWindowUpdateFrames : list WindowUpdateFrame) : M C () :=
  let! s := get in
  let! wufs := match totalWindowUpdateFrames with
               | [] => getWindowUpdateFrames ω (peerBlocked (ss_peer s))
               | wufs => ret wufs
               end in
  let! ids := path_ids ω in
  do! for_each_path ids (ack_path wufs) in
  modify (λ s, set_peer s {| closedPaths := closedPaths (ss_peer s); remoteRTTs := remoteRTTs (ss_peer s); peerBlocked := false |}).

(** The queues of the framer are emptied into those of the packer. *)
Definition queue_framer_frames id : M C () :=
  let! s := get in
  let f := pk_framer (ss_packing s) in
  let frames := (FClosePath <$> closePathFrameQueue f) ++ (FAddAddress <$> addAddressFrameQueue f) ++
                option_list (FPaths <$> pathsFrame f) in
  do! on_framer (λ f, set_control f (blockedFrameQueue f) [] [] None) in
  modify (λ s, set_packing s (PacketPacker.with_packer (ss_packing s)
                 (foldl (λ p f, QueueControlFrame p f id) (pk_packer (ss_packing s)) frames))).

(** A packet on a path without a round-trip time is sent on another path too. *)
Definition duplicate_on s (id : Z) (ids : list Z) : bool :=
  existsb (λ other, bool_decide (other ≠ InitialPathID ∧ other ≠ id ∧ quota (quotas s) other < quota (quotas s) id) &&
                    match ss_paths s !! other with Some p => SendingAllowed (sent p) | None => false end) ids.
Definition maybe_duplicate id (packet : Packet) : M C () :=
  let! p := the_path id in
  if decide (path_rtt p = 0) then
    let! ids := path_ids ω in
    let! s := get in
    if duplicate_on s id ids then on_path id (λ p, set_sent p (DuplicatePacket (sent p) packet)) else ret ()
  else ret ().

(** A turn of the loop of [sendPacket]: the window updates for the next turn, or the end. *)
Definition send_turn (windowUpdateFrames : list WindowUpdateFrame) : M C (option (list WindowUpdateFrame)) :=
  let! r := getRetransmission in
  let '(hasRetransmission, handshakePacket, fromPth) := r in
  let! s := get in
  let hasStreamRetransmission := HasFramesForRetransmission (pk_framer (ss_packing s)) in
  let! pth := selectPath hasRetransmission hasStreamRetransmission fromPth in
  match pth with
  | None => let! wufs := getWindowUpdateFrames ω false in do! ackRemainingPaths wufs in ret None
  | Some id =>
      match handshakePacket with
      | Some packet =>
          let! swf := get_stop_waiting id true in
          do! queue_stop id swf in
          let! packed := with_packer ω id (λ e k p, PackHandshakeRetransmission e k packet p) in
          match packed with
          | None => panic
          | Some packed => do! sendPackedPacket ω packed id in ret (Some windowUpdateFrames)
          end
      | None =>
          let! ack := get_ack_frame id in
          do! (match ack with Some a => queue_ack_frame id (Some a) | None => ret () end) in
          do! (if decide (is_Some ack ∨ hasStreamRetransmission = true) then
                 let! swf := get_stop_waiting id hasStreamRetransmission in
                 match swf with Some f => queue_stop id (Some f) | None => ret () end
               else ret ()) in
          do! queue_framer_frames id in
          let! sent := performPacketSending windowUpdateFrames id in
          match sent with
          | None => do! ackRemainingPaths [] in ret None
          | Some packet =>
              do! maybe_duplicate id packet in
              match fromPth with
              | None => ret (Some [])
              | Some from =>
                  let! p := the_path from in
                  do! (if potentiallyFailed p then sendPing ω from else ret ()) in ret (Some [])
              end
          end
      end
  end.

Fixpoint update_least_unacked (ids : list Z) : M C () :=
  match ids with
  | [] => ret ()
  | id :: ids => do! on_path id (λ p, SetLeastUnacked p (GetLeastUnacked (sent p))) in update_least_unacked ids
  end.
Definition sendPacket_start : M C (list WindowUpdateFrame) :=
  let! ids := path_ids ω in
  do! update_least_unacked ids in
  let! wufs := getWindowUpdateFrames ω false in
  do! queue_updates wufs InitialPathID in
  ret wufs.

Inductive sending (wufs : list WindowUpdateFrame) s : outcome C () → Prop :=
| sending_ends s' : send_turn wufs s = Done s' (Ok None) → sending wufs s (Done s' (Ok ()))
| sending_fails s' e : send_turn wufs s = Done s' (Err e) → sending wufs s (Done s' (Err e))
| sending_panics : send_turn wufs s = Panics → sending wufs s Panics
| sending_blocks : send_turn wufs s = Blocks → sending wufs s Blocks
| sending_on s' wufs' o : send_turn wufs s = Done s' (Ok (Some wufs')) → sending wufs' s' o → sending wufs s o.

Inductive sendPacket s : outcome C () → Prop :=
| sendPacket_run s' wufs o : sendPacket_start s = Done s' (Ok wufs) → sending wufs s' o → sendPacket s o
| sendPacket_panics : sendPacket_start s = Panics → sendPacket s Panics.
End scheduler.

Close Scope Z_scope.

(** * The path of the lowest latency *)

Section selection.
Context {C : Type} `{!SendAlgorithm C} (ω : surroundings C) (has : bool) (s0 : session C).

Definition eligible (id : Z) (p : path C) : Prop := ss_paths s0 !! id = Some p ∧ may_send has id p = true.

(** The best of the eligible paths among [ids]: the lowest round-trip time that is known, and while none
    is known the one that was sent on least. *)
Definition best_among (ids : list Z) (r : option Z) : Prop :=
  match r with
  | None => ∀ j q, j ∈ ids → ¬ eligible j q
  | Some id =>
      id ∈ ids ∧ ∃ p, eligible id p ∧
        (∀ j q, j ∈ ids → eligible j q → path_rtt q ≠ 0%Z → path_rtt p ≠ 0 ∧ path_rtt p ≤ path_rtt q)%Z ∧
        ((∀ j q, j ∈ ids → eligible j q → path_rtt q = 0%Z) →
         ∀ j q, j ∈ ids → eligible j q → (quota (quotas s0) id ≤ quota (quotas s0) j)%Z)
  end.

(** Quotas are created, not changed. *)
Record selecting (s : session C) : Prop := {
  sl_paths : ss_paths s = ss_paths s0;
  sl_quota id : quota (quotas s) id = quota (quotas s0) id
}.

Record chosen (ids : list Z) (ch : choice) : Prop := {
  cn_best : best_among ids (ch_path ch);
  cn_none : ch_path ch = None → ch = no_choice;
  cn_some id : ch_path ch = Some id → ch_id ch = id ∧ ∃ p, eligible id p ∧ path_rtt p = ch_rtt ch;
  cn_unknown : ch_rtt ch = 0%Z → ∀ j q, j ∈ ids → eligible j q → path_rtt q = 0%Z
}.

Lemma touch_selecting s id : selecting s → selecting (touch_quota s id).
Proof using Type.
  intros [H1 H2]. split; [done|]. intros j. rewrite <-H2. unfold touch_quota, quota. cbn.
  destruct (decide (j = id)) as [->|]; [by rewrite lookup_insert_eq|by rewrite lookup_insert_ne].
Qed.

Lemma eligible_same id p q : eligible id p → eligible id q → p = q.
Proof using Type. intros [E1 _] [E2 _]. congruence. Qed.

Lemma best_skip ids ch id :
  chosen ids ch → (∀ q, eligible id q → path_rtt q ≠ 0 → ch_rtt ch ≠ 0 ∧ ch_rtt ch ≤ path_rtt q)%Z →
  (∀ q, eligible id q → is_Some (ch_path ch) ∧ (ch_rtt ch = 0 → path_rtt q = 0 ∧ quota (quotas s0) (ch_id ch) ≤ quota (quotas s0) id))%Z →
  chosen (ids ++ [id]) ch.
Proof using Type.
  intros [H1 H2 H3 H4] Hrtt Hel. split; [|done|done|].
  - destruct (ch_path ch) as [c|] eqn:Ec; cbn in *.
    + destruct (H3 c eq_refl) as (Ei & p & Hp & Er). destruct H1 as (Hin & p' & Hp' & Ha & Hb). assert (p' = p) as -> by (by eapply eligible_same).
      split; [apply elem_of_app; by left|]. exists p. split; [done|]. split.
      * intros j q [Hj| ->%list_elem_of_singleton]%elem_of_app Hq Hn; [by apply (Ha j)|]. rewrite Er. by apply Hrtt.
      * intros Hall j q [Hj| ->%list_elem_of_singleton]%elem_of_app Hq.
        -- apply (Hb (λ j q Hj, Hall j q ltac:(apply elem_of_app; by left)) j q Hj Hq).
        -- destruct (Hel q Hq) as [_ H]. rewrite Ei in H. apply H. rewrite <-Er. apply (Hall c p); [apply elem_of_app; by left|done].
    + intros j q [Hj| ->%list_elem_of_singleton]%elem_of_app Hq; [by apply (H1 j q)|]. destruct (Hel q Hq) as [[? [=]] _].
  - intros E j q [Hj| ->%list_elem_of_singleton]%elem_of_app Hq; [by apply (H4 E j q)|]. by destruct (Hel q Hq) as [_ [? _]].
Qed.
Lemma best_take ids ch id p :
  chosen ids ch → eligible id p → (path_rtt p = 0 → ch_rtt ch = 0)%Z →
  (path_rtt p = 0 → is_Some (ch_path ch) → quota (quotas s0) id ≤ quota (quotas s0) (ch_id ch))%Z →
  (path_rtt p ≠ 0 → ch_rtt ch ≠ 0 → path_rtt p ≤ ch_rtt ch)%Z →
  chosen (ids ++ [id]) {| ch_path := Some id; ch_rtt := path_rtt p; ch_id := id |}.
Proof using Type.
  intros [H1 H2 H3 H4] Hp Hz Hq Hr. split; cbn [ch_path ch_rtt ch_id].
  - split; [apply elem_of_app; right; by apply list_elem_of_singleton|]. exists p. split; [done|]. split.
    + intros j q [Hj| ->%list_elem_of_singleton]%elem_of_app Hjq Hn; [|assert (q = p) as -> by (by eapply eligible_same); lia].
      destruct (ch_path ch) as [c|] eqn:Ec; [|by destruct (H1 j q Hj)].
      destruct (H3 c eq_refl) as (Ei & pc & Hpc & Er). destruct H1 as (_ & p' & Hp' & Ha & _). assert (p' = pc) as -> by (by eapply eligible_same).
      destruct (Ha j q Hj Hjq Hn) as [A1 A2]. lia.
    + intros Hall j q [Hj| ->%list_elem_of_singleton]%elem_of_app Hjq; [|done].
      destruct (ch_path ch) as [c|] eqn:Ec; [|by destruct (H1 j q Hj)].
      destruct (H3 c eq_refl) as (Ei & pc & Hpc & Er). destruct H1 as (_ & p' & Hp' & _ & Hb). assert (p' = pc) as -> by (by eapply eligible_same).
      assert (path_rtt p = 0)%Z as E0 by (apply (Hall id p); [apply elem_of_app; right; by apply list_elem_of_singleton|done]).
      specialize (Hq E0 ltac:(by eexists)). rewrite Ei in Hq.
      specialize (Hb (λ j q Hj, Hall j q ltac:(apply elem_of_app; by left)) j q Hj Hjq). lia.
  - done.
  - intros i [= <-]. split; [done|]. by exists p.
  - intros E j q [Hj| ->%list_elem_of_singleton]%elem_of_app Hjq; [by apply (H4 (Hz E) j q)|]. by assert (q = p) as -> by (by eapply eligible_same).
Qed.

Definition take_choice (s : session C) (ch : choice) (id : Z) (p : path C) : choice :=
  if decide (path_rtt p = 0 ∧ is_Some (ch_path ch) ∧ quota (quotas s) (ch_id ch) < quota (quotas s) id)%Z then ch
  else if decide (path_rtt p ≠ 0 ∧ ch_rtt ch ≠ 0 ∧ is_Some (ch_path ch) ∧ ch_rtt ch ≤ path_rtt p)%Z then ch
  else {| ch_path := Some id; ch_rtt := path_rtt p; ch_id := id |}.
Lemma low_latency_turn_eq ch id s p :
  ss_paths s !! id = Some p →
  low_latency_turn has ch id s =
    if negb (may_send has id p) then Done s (Ok ch)
    else if decide (ch_rtt ch ≠ 0 ∧ path_rtt p = 0)%Z then Done s (Ok ch)
    else Done (if decide (path_rtt p = 0)%Z then touch_quota s id else s) (Ok (take_choice s ch id p)).
Proof using Type.
  intros Hp. unfold low_latency_turn, the_path, bind, get, take_choice. rewrite Hp. unfold ret at 1.
  destruct (negb _); [done|]. case_decide; [done|]. unfold modify, ret. repeat case_decide; done.
Qed.

Lemma low_latency_turn_ok ids ch id s :
  selecting s → is_Some (ss_paths s0 !! id) → chosen ids ch →
  ∃ s' ch', low_latency_turn has ch id s = Done s' (Ok ch') ∧ selecting s' ∧ chosen (ids ++ [id]) ch'.
Proof using Type.
  intros Hs [p Hp] Hch. pose proof Hs as [Es Eq]. pose proof Hch as [H1 H2 H3 H4]. rewrite (low_latency_turn_eq _ _ _ p) by (by rewrite Es).
  destruct (may_send has id p) eqn:Hmay; cbn [negb].
  2: { exists s, ch. split; [done|]. split; [done|]. apply best_skip; [done|..]; intros q [Hq Hm]; congruence. }
  assert (eligible id p) as Hel by by split. assert (∀ q, eligible id q → q = p) as Huniq by (intros q Hq; by eapply eligible_same).
  case_decide as D1.
  { exists s, ch. split; [done|]. split; [done|]. destruct D1 as [D1 D2]. apply best_skip; [done|..]; intros q ->%Huniq; [lia|].
    split; [|lia]. destruct (ch_path ch) eqn:Ec; [by eexists|]. by rewrite (H2 eq_refl) in D1. }
  assert (path_rtt p = 0 → ch_rtt ch = 0)%Z as D1' by lia. clear D1.
  eexists _, _. split; [done|]. split; [case_decide; [by apply touch_selecting|done]|].
  unfold take_choice. rewrite !Eq. case_decide as D2.
  { destruct D2 as (D2 & Dp & Dq). apply best_skip; [done|..]; intros q ->%Huniq; [lia|]. split; [done|lia]. }
  case_decide as D3.
  { destruct D3 as (D3 & D4 & Dp & D5). apply best_skip; [done|..]; intros q ->%Huniq; [lia|]. split; [done|lia]. }
  apply best_take with ch; try done.
  - intros E Hsome. destruct (Z_le_gt_dec (quota (quotas s0) id) (quota (quotas s0) (ch_id ch))); [done|]. destruct D2. split_and!; [done..|lia].
  - intros En En'. destruct (ch_path ch) as [c|] eqn:Ec; [|by rewrite (H2 eq_refl) in En'].
    destruct (Z_le_gt_dec (path_rtt p) (ch_rtt ch)); [done|]. destruct D3. split_and!; [done..|by eexists|lia].
Qed.

Lemma low_latency_loop_ok ids done ch s :
  selecting s → Forall (λ id, is_Some (ss_paths s0 !! id)) ids → chosen done ch →
  ∃ s' r, low_latency_loop has ids ch s = Done s' (Ok r) ∧ selecting s' ∧ best_among (done ++ ids) r.
Proof using Type.
  intros Hs Hids. revert done ch s Hs. induction Hids as [|id ids Hid Hids IH]; intros done ch s Hs Hch.
  - exists s, (ch_path ch). rewrite app_nil_r. split; [done|]. split; [done|]. apply Hch.
  - destruct (low_latency_turn_ok done ch id s Hs Hid Hch) as (s1 & ch1 & E & Hs1 & Hch1).
    destruct (IH _ _ _ Hs1 Hch1) as (s' & r & E' & Hs' & Hb). exists s', r. cbn. unfold bind. rewrite E, E'.
    split; [done|]. split; [done|]. by rewrite <-app_assoc in Hb.
Qed.

Lemma path_ids_all (s : session C) ids n :
  Traverses ω → ids = order ω n (merge_sort Z.le (elements (dom (ss_paths s)))) → ∀ id, id ∈ ids ↔ is_Some (ss_paths s !! id).
Proof using Type.
  intros Hω -> id. rewrite (order_perm n), merge_sort_Permutation. rewrite elem_of_elements. apply elem_of_dom.
Qed.

(** What the selection is to return: the best of all eligible paths, none if there is none. *)
Definition best (r : option Z) : Prop :=
  match r with
  | None => ∀ id p, ss_paths s0 !! id = Some p → may_send has id p = false
  | Some id => ∃ p, ss_paths s0 !! id = Some p ∧ may_send has id p = true ∧
      (∀ j q, ss_paths s0 !! j = Some q → may_send has j q = true → path_rtt q ≠ 0 → path_rtt p ≠ 0 ∧ path_rtt p ≤ path_rtt q)%Z ∧
      ((∀ j q, ss_paths s0 !! j = Some q → may_send has j q = true → path_rtt q = 0%Z) →
       ∀ j q, ss_paths s0 !! j = Some q → may_send has j q = true → quota (quotas s0) id ≤ quota (quotas s0) j)%Z
  end.
(** Lost stream data may go to path [id] although another would be the best. *)
Definition elsewhere (lost_data : bool) (from : option Z) (id : Z) : Prop :=
  lost_data = true ∧ ∃ f p, from = Some f ∧ ss_paths s0 !! f = Some p ∧ path_rtt p = 0%Z ∧
    is_Some (ss_paths s0 !! id) ∧ id ≠ InitialPathID ∧ id ≠ f ∧ (quota (quotas s0) id < quota (quotas s0) f)%Z.
End selection.

(** The selection, whether the loop is the second over the paths or the first. *)
Lemma low_latency_best {C} `{!SendAlgorithm C} (ω : surroundings C) `{!Traverses ω} has s0 s :
  ss_paths s = ss_paths s0 → quotas s = quotas s0 →
  ∃ s' r, (let! ids := path_ids ω in low_latency_loop has ids no_choice) s = Done s' (Ok r) ∧ ss_paths s' = ss_paths s0 ∧
    (∀ id, quota (quotas s') id = quota (quotas s0) id) ∧ best has s0 r.
Proof.
  intros Es Eq. unfold path_ids, ask, bind at 1. cbn [get bind ret].
  set (s1 := set_outside s (written_out s) (S (questions s))).
  remember (order ω (questions s) (merge_sort Z.le (elements (dom (ss_paths s1))))) as ids eqn:Eids.
  assert (∀ id, id ∈ ids ↔ is_Some (ss_paths s0 !! id)) as Hall by (rewrite <-Es; by apply (path_ids_all ω s1 ids (questions s))).
  destruct (low_latency_loop_ok has s0 ids [] no_choice s1) as (s' & r & E & [Ep Eqs] & Hb).
  - split; [done|]. intros id. cbn. by rewrite Eq.
  - apply Forall_forall. intros id Hid. by apply Hall.
  - split; cbn; [by intros j q ?%not_elem_of_nil|done|done|by intros _ j q ?%not_elem_of_nil].
  - exists s', r. split; [exact E|]. split; [done|]. split; [done|]. cbn in Hb. destruct r as [id|]; cbn in Hb |- *.
    + destruct Hb as (_ & p & [Hp Hm] & Ha & Hz). exists p. split; [done|]. split; [done|]. split.
      * intros j q Hq Hmq Hn. apply (Ha j q); [|by split|done]. apply Hall. by exists q.
      * intros Hnone j q Hq Hmq. apply (Hz (λ j q _ Hjq, Hnone j q (proj1 Hjq) (proj2 Hjq)) j q); [|by split]. apply Hall. by exists q.
    + intros id p Hp. destruct (may_send has id p) eqn:Hm; [|done]. destruct (Hb id p); [|by split]. apply Hall. by exists p.
Qed.

Lemma less_used_spec {C} (s : session C) f ids :
  match less_used s f ids with
  | Some id => id ∈ ids ∧ id ≠ InitialPathID ∧ id ≠ f ∧ (quota (quotas s) id < quota (quotas s) f)%Z
  | None => ∀ id, id ∈ ids → ¬ (id ≠ InitialPathID ∧ id ≠ f ∧ (quota (quotas s) id < quota (quotas s) f)%Z)
  end.
Proof.
  unfold less_used. match goal with |- context [list_find ?P ids] => destruct (list_find P ids) as [[i id]|] eqn:E end; cbn.
  - apply list_find_Some in E as (Hi & H & _). split; [by eapply list_elem_of_lookup_2|done].
  - apply list_find_None in E. rewrite Forall_forall in E. exact E.
Qed.

(** C12: The scheduler takes the best path.  With one path that is the initial one, if it may send or a packet waits for
    retransmission.  Among several, lost stream data is sent again on a path other than the initial one and the one it
    was lost on that was sent on less, if the latter has no round-trip time yet and there is such a path.
    Otherwise [selectPath] returns a path that may send (or any, for a retransmission), is not suspected to
    have failed and is not the initial one: if the round-trip time of such a path is known, one with the
    shortest; while none is known, the one that was sent on least.  It returns none exactly if there is no
    such path, and the order in which the map of paths is traversed does not matter. *)
Theorem lowest_latency_selected {C} `{!SendAlgorithm C} (ω : surroundings C) `{!Traverses ω} has strm from s p0 :
  ss_paths s !! InitialPathID = Some p0 →
  (has && strm = true → ∃ f, from = Some f ∧ is_Some (ss_paths s !! f)) →
  ∃ s' r, selectPath ω has strm from s = Done s' (Ok r) ∧ ss_paths s' = ss_paths s ∧
    (∀ id, quota (quotas s') id = quota (quotas s) id) ∧
    if decide (size (ss_paths s) ≤ 1) then r = if has || path_SendingAllowed p0 then Some InitialPathID else None
    else (∃ id, r = Some id ∧ elsewhere s (has && strm) from id) ∨ (∀ id, ¬ elsewhere s (has && strm) from id) ∧ best has s r.
Proof.
  intros H0 Hfrom. unfold selectPath, selectPathLowLatency, bind at 1. cbn [get]. case_decide as Hsize.
  { exists s, (if has || path_SendingAllowed p0 then Some InitialPathID else None). split; [|done].
    unfold only_path, the_path, bind, get. rewrite H0. cbn. by destruct has, (path_SendingAllowed p0). }
  destruct (has && strm) eqn:Hboth.
  2: { unfold bind at 1. cbn [ret]. destruct (low_latency_best ω has s s) as (s' & r & E & H1 & H2 & H3); [done..|].
    exists s', r. split; [exact E|]. split; [done|]. split; [done|]. right. split; [|done]. by intros id [? _]. }
  destruct (Hfrom eq_refl) as (f & -> & p & Hp).
  set (s1 := set_outside s (written_out s) (S (questions s))).
  set (ids := order ω (questions s) (merge_sort Z.le (elements (dom (ss_paths s1))))).
  assert (∀ id, id ∈ ids ↔ is_Some (ss_paths s1 !! id)) as Hall by by apply (path_ids_all ω s1 ids (questions s)).
  match goal with |- context [bind ?m _ s] =>
    assert (m s = if decide (path_rtt p = 0)%Z then Done s1 (Ok (less_used s1 f ids)) else Done s (Ok None)) as Eagain end.
  { unfold bind at 1, the_path, bind, get. rewrite Hp. unfold ret at 1. by case_decide. }
  unfold bind at 1. rewrite Eagain. clear Eagain. pose proof (less_used_spec s1 f ids) as Hless. case_decide as Hrtt.
  2: { destruct (low_latency_best ω has s s) as (s' & r & E & H1 & H2 & H3); [done..|].
    exists s', r. split; [exact E|]. split; [done|]. split; [done|]. right. split; [|done].
    intros id (_ & f' & p' & [= <-] & Hp' & Hr & _). congruence. }
  destruct (less_used s1 f ids) as [id|].
  - exists s1, (Some id). split; [done|]. split; [done|]. split; [done|]. left. exists id. split; [done|]. destruct Hless as (Hin & ? & ? & ?).
    split; [done|]. exists f, p. split_and!; try done. by apply Hall in Hin.
  - destruct (low_latency_best ω has s s1) as (s' & r & E & H1 & H2 & H3); [done..|]. exists s', r. split; [exact E|]. split; [done|].
    split; [done|]. right. split; [|done]. intros id (_ & f' & p' & [= <-] & _ & _ & Hid & Hne & Hnf & Hq).
    by apply (Hless id); [apply Hall|].
Qed.

(** * What is sent again *)

Section retransmission.
Context {C : Type} `{!SendAlgorithm C} (ω : surroundings C).
Implicit Types s : session C.

Local Notation framer s := (pk_framer (ss_packing s)).
Local Notation control s := (pa_controlFrames (pk_packer (ss_packing s))).

(** The control frames a frame is queued again as. *)
Definition requeued s (f : Frame) : list Frame :=
  match f with
  | FStream _ | FPaths _ | FAck _ | FStopWaiting _ => []
  | FWindowUpdate w =>
      match GetReceiveWindow (pk_flow (ss_packing s)) (WStreamID w) with
      | Ok current => if decide (current ≤ WByteOffset w)%Z then [FWindowUpdate w] else []
      | Err _ => []
      end
  | f => [f]
  end.

(** What is handed over, the rest being as before. *)
Record handed s s' (fs : list Frame) : Prop := {
  hd_handshake : ss_handshake s' = ss_handshake s;
  hd_flow : pk_flow (ss_packing s') = pk_flow (ss_packing s);
  hd_streams : retransmissionQueue (framer s') = retransmissionQueue (framer s) ++ stream_frames fs;
  hd_control : control s' = control s ++ (fs ≫= requeued s);
  hd_paths_frame : existsb (λ f, match f with FPaths _ => true | _ => false end) fs = true → is_Some (pathsFrame (framer s'));
  hd_paths_keep : is_Some (pathsFrame (framer s)) → is_Some (pathsFrame (framer s'))
}.

Lemma requeued_same s s' f : pk_flow (ss_packing s') = pk_flow (ss_packing s) → requeued s' f = requeued s f.
Proof using Type. unfold requeued. by intros ->. Qed.
Lemma handed_nil s : handed s s [].
Proof using Type. split; cbn; rewrite ?app_nil_r; done. Qed.
Lemma handed_app s s1 s2 fs gs : handed s s1 fs → handed s1 s2 gs → handed s s2 (fs ++ gs).
Proof using Type.
  intros [A2 A3 A4 A5 A6 A7] [B2 B3 B4 B5 B6 B7]. split; try congruence.
  - rewrite B4, A4, <-app_assoc. unfold stream_frames. by rewrite omap_app.
  - rewrite B5, A5, <-app_assoc, bind_app. do 2 f_equal. clear -A3. induction gs as [|g gs IH]; [done|]. cbn. by rewrite IH, (requeued_same s s1).
  - rewrite existsb_app. intros [H|H]%orb_true_iff; [by apply B7, A6|by apply B6].
  - auto.
Qed.

Lemma schedulePathsFrame_handed s f : ∃ s', schedulePathsFrame ω s = Done s' (Ok ()) ∧ ss_paths s' = ss_paths s ∧ handed s s' [FPaths f].
Proof using Type. eexists. split; [done|]. split; [done|]. split; cbn; rewrite ?app_nil_r; try done; intros _; by eexists. Qed.
Lemma resend_frame_handed id f s : ∃ s', resend_frame ω id f s = Done s' (Ok ()) ∧ ss_paths s' = ss_paths s ∧ handed s s' [f].
Proof using Type.
  destruct f as [f|f|f|f|f|w|f|f| |f|f|f]; try (eexists; split; [done|]; split; [done|]; split; cbn; rewrite ?app_nil_r; done).
  unfold resend_frame, bind, get.
  assert (requeued s (FWindowUpdate w) = match GetReceiveWindow (pk_flow (ss_packing s)) (WStreamID w) with
      | Ok current => if decide (current ≤ WByteOffset w)%Z then [FWindowUpdate w] else [] | Err _ => [] end) as Er by done.
  destruct (GetReceiveWindow _ _) as [current|e]; [case_decide|]; (eexists; split; [done|]; split; [done|]; split; cbn [bind list_bind mbind stream_frames omap list_omap];
      rewrite ?app_nil_r, ?Er; try done; cbn; by rewrite ?app_nil_r).
Qed.
Lemma resend_frames_handed id fs s : ∃ s', resend_frames ω id fs s = Done s' (Ok ()) ∧ ss_paths s' = ss_paths s ∧ handed s s' fs.
Proof using Type.
  revert s. induction fs as [|f fs IH]; intros s; [exists s; split; [done|]; split; [done|apply handed_nil]|].
  destruct (resend_frame_handed id f s) as (s1 & E1 & P1 & H1). destruct (IH s1) as (s2 & E2 & P2 & H2).
  exists s2. cbn. unfold bind. rewrite E1, E2. split; [done|]. split; [congruence|]. by apply (handed_app s s1 s2 [f] fs).
Qed.

Lemma put_same s id p : ss_paths s !! id = Some p → put_path s id p = s.
Proof using Type. intros Hp. unfold put_path, set_paths. rewrite insert_id by done. by destruct s. Qed.

Lemma dequeue_ok ids s : Forall (λ id, is_Some (ss_paths s !! id)) ids →
  (∀ id p, id ∈ ids → ss_paths s !! id = Some p → SentPackets.retransmissionQueue (sent p) = []) ∧ dequeue ids s = Done s (Ok None) ∨
  ∃ id p packet q, ss_paths s !! id = Some p ∧ SentPackets.retransmissionQueue (sent p) = packet :: q ∧
    dequeue ids s = Done (put_path s id (set_sent p (DequeuePacketForRetransmission (sent p)).1)) (Ok (Some (id, packet))).
Proof using Type.
  induction 1 as [|id ids [p Hp] _ IH]; [left; split; [by intros id p ?%not_elem_of_nil|done]|].
  destruct (SentPackets.retransmissionQueue (sent p)) as [|packet q] eqn:Eq.
  - assert (dequeue (id :: ids) s = dequeue ids s) as ->.
    { cbn [dequeue]. unfold bind, on_path, the_path, bind, get, DequeuePacketForRetransmission. rewrite Hp. cbn [ret]. rewrite Eq, Hp. unfold modify, ret.
      assert (set_sent p (sent p) = p) as -> by (by destruct p). by rewrite put_same. }
    destruct IH as [[IH1 IH2]|IH]; [left|by right]. split; [|done].
    intros i p' [->|Hi]%elem_of_cons Hp'; [by assert (p' = p) as -> by congruence|by apply (IH1 i)].
  - right. exists id, p, packet, q. split; [done|]. split; [done|].
    cbn [dequeue]. unfold bind, on_path, the_path, bind, get, DequeuePacketForRetransmission. rewrite Hp. cbn [ret]. rewrite Eq, Hp. done.
Qed.

Lemma waiting_put s id p p' packet q :
  ss_paths s !! id = Some p → SentPackets.retransmissionQueue (sent p) = packet :: q → SentPackets.retransmissionQueue (sent p') = q →
  waiting_packets s ≡ₚ (id, packet) :: waiting_packets (put_path s id p').
Proof using Type.
  intros Hp Eq Eq'. unfold waiting_packets. cbn [ss_paths put_path set_paths].
  rewrite <-(map_to_list_delete _ id p Hp). rewrite <-insert_delete_eq, map_to_list_insert by apply lookup_delete_eq.
  cbn. rewrite Eq, Eq'. done.
Qed.
Lemma waiting_none s : (∀ id p, ss_paths s !! id = Some p → SentPackets.retransmissionQueue (sent p) = []) → waiting_packets s = [].
Proof using Type.
  intros H. unfold waiting_packets. assert (Forall (λ p, SentPackets.retransmissionQueue (sent p.2) = []) (map_to_list (ss_paths s))) as Hl.
  { apply Forall_forall. intros [id p] Hin%elem_of_map_to_list. by apply (H id). }
  induction Hl as [|[id p] l Hp _ IH]; [done|]. cbn in *. by rewrite Hp.
Qed.

(** What a packet that is taken out gives back: handshake packets are dropped once the handshake is complete. *)
Definition given_back (packet : Packet) : list Frame :=
  if decide (PktEncryptionLevel packet = EncryptionForwardSecure) then GetFramesForRetransmission packet else [].

Record taken_out s s' (taken : list (Z * Packet)) (r : option (Z * Packet)) : Prop := {
  tk_all : waiting_packets s ≡ₚ taken ++ option_list r ++ waiting_packets s';
  tk_handed : handed s s' (taken ≫= λ t, given_back t.2);
  tk_end : match r with
           | None => waiting_packets s' = []
           | Some (_, packet) => PktEncryptionLevel packet ≠ EncryptionForwardSecure ∧ handshakeComplete (ss_handshake s) = false
           end
}.

Lemma handed_ask s : handed s (set_outside s (written_out s) (S (questions s))) [].
Proof using Type. split; cbn; rewrite ?app_nil_r; done. Qed.
Lemma handed_put s id p : handed s (put_path s id p) [].
Proof using Type. split; cbn; rewrite ?app_nil_r; done. Qed.

Lemma retransmit_loop_ok `{!Traverses ω} fuel has from s : length (waiting_packets s) < fuel →
  ∃ s' taken r from', retransmit_loop ω fuel has from s =
      Done s' (Ok (has || negb (bool_decide (taken = [] ∧ r = None)), snd <$> r, from')) ∧ taken_out s s' taken r ∧
      (∀ t, r = Some t → from' = Some t.1).
Proof using Type.
  revert has from s. induction fuel as [|fuel IH]; intros has from s Hf; [lia|].
  set (s1 := set_outside s (written_out s) (S (questions s))).
  remember (order ω (questions s) (merge_sort Z.le (elements (dom (ss_paths s1))))) as ids eqn:Eids.
  pose proof (path_ids_all ω s1 ids _ _ Eids) as Hall.
  assert (∀ B (f : list Z → M C B), bind (path_ids ω) f s = f ids s1) as Hids by (intros B f; by rewrite Eids).
  cbn [retransmit_loop]. rewrite Hids.
  destruct (dequeue_ok ids s1) as [[Hnone E]|(id & p & packet & q & Hp & Eq & E)].
  { apply Forall_forall. intros id Hid. by apply Hall. }
  { exists s1, [], None, from. unfold bind. rewrite E. cbn. rewrite orb_false_r. split; [done|]. split; [|done].
    assert (waiting_packets s1 = []) as Hw by (apply waiting_none; intros id p Hp; apply (Hnone id p); [apply Hall; by eexists|done]).
    split; [done|apply handed_ask|done]. }
  set (p' := set_sent p (DequeuePacketForRetransmission (sent p)).1) in *.
  assert (waiting_packets s ≡ₚ (id, packet) :: waiting_packets (put_path s1 id p')) as Hw.
  { change (waiting_packets s) with (waiting_packets s1). apply (waiting_put s1 id p p' packet q); [done|done|].
    unfold p', DequeuePacketForRetransmission. by rewrite Eq. }
  pose proof (Permutation_length Hw) as Hl. cbn in Hl.
  pose proof (handed_app _ _ _ _ _ (handed_ask s) (handed_put s1 id p')) as Hh. cbn [app] in Hh.
  unfold bind at 1. rewrite E. unfold bind at 1. cbn [get]. change (ss_handshake (put_path s1 id p')) with (ss_handshake s).
  destruct (decide (PktEncryptionLevel packet = EncryptionForwardSecure)) as [Hfs|Hfs].
  - rewrite decide_False by auto. destruct (resend_frames_handed id (GetFramesForRetransmission packet) (put_path s1 id p')) as (s3 & E3 & P3 & H3).
    assert (waiting_packets s3 = waiting_packets (put_path s1 id p')) as Hw3 by (unfold waiting_packets; by rewrite P3).
    unfold bind. rewrite E3. destruct (IH true (Some id) s3) as (s' & taken & r & from' & -> & [T1 T2 T3] & Hfrom); [rewrite Hw3; lia|].
    exists s', ((id, packet) :: taken), r, from'. split.
    { rewrite (bool_decide_eq_false_2 ((id, packet) :: taken = [] ∧ r = None)) by (by intros [[=] _]). by rewrite orb_true_r. }
    split; [|done]. split; [by rewrite Hw, <-Hw3, T1| |].
    + change (((id, packet) :: taken) ≫= λ t, given_back t.2) with (given_back packet ++ (taken ≫= λ t, given_back t.2)).
      unfold given_back at 1. rewrite decide_True by done. eapply handed_app; [|exact T2]. eapply (handed_app _ _ _ []); [exact Hh|exact H3].
    + destruct r as [[i pkt]|]; [|done]. by rewrite (hd_handshake _ _ _ H3) in T3.
  - rewrite decide_True by done. destruct (handshakeComplete (ss_handshake s)) eqn:Hc.
    + destruct (IH true (Some id) (put_path s1 id p')) as (s' & taken & r & from' & -> & [T1 T2 T3] & Hfrom); [lia|].
      exists s', ((id, packet) :: taken), r, from'. split.
      { rewrite (bool_decide_eq_false_2 ((id, packet) :: taken = [] ∧ r = None)) by (by intros [[=] _]). by rewrite orb_true_r. }
      split; [|done]. split; [by rewrite Hw, T1| |].
      * change (((id, packet) :: taken) ≫= λ t, given_back t.2) with (given_back packet ++ (taken ≫= λ t, given_back t.2)).
        unfold given_back at 1. rewrite decide_False by done. eapply (handed_app _ _ _ []); [exact Hh|exact T2].
      * destruct r as [[i pkt]|]; [|done]. destruct T3 as [_ T3]. change (handshakeComplete (ss_handshake s) = false) in T3. congruence.
    + exists (put_path s1 id p'), [], (Some (id, packet)), (Some id). split; [by rewrite orb_true_r|].
      split; [|by intros t [= <-]]. split; [done|exact Hh|by split].
Qed.
End retransmission.

(** C10: Lost packets are handed over.  [getRetransmission] returns, in whatever order the paths are traversed: it takes
    packets out of the paths' queues until one of the handshake is to be sent again or none is left, and
    loses none.  From each forward-secure one it hands the STREAM frames to the framer, asks for a new PATHS
    frame for an old one, and queues the other frames but window updates that a later one has replaced;
    handshake packets are returned while the handshake runs and dropped once it is complete. *)
Theorem retransmissions_handed_over {C} `{!SendAlgorithm C} (ω : surroundings C) `{!Traverses ω} s :
  ∃ s' taken r from,
    getRetransmission ω s = Done s' (Ok (negb (bool_decide (taken = [] ∧ r = None)), snd <$> r, from)) ∧
    waiting_packets s ≡ₚ taken ++ option_list r ++ waiting_packets s' ∧
    match r with
    | None => waiting_packets s' = []
    | Some (id, packet) => from = Some id ∧ PktEncryptionLevel packet ≠ EncryptionForwardSecure ∧ handshakeComplete (ss_handshake s) = false
    end ∧
    let back := taken ≫= λ t, given_back t.2 in
    retransmissionQueue (pk_framer (ss_packing s')) = retransmissionQueue (pk_framer (ss_packing s)) ++ stream_frames back ∧
    pa_controlFrames (pk_packer (ss_packing s')) = pa_controlFrames (pk_packer (ss_packing s)) ++ (back ≫= requeued s) ∧
    (existsb (λ f, match f with FPaths _ => true | _ => false end) back = true → is_Some (pathsFrame (pk_framer (ss_packing s')))).
Proof.
  destruct (retransmit_loop_ok ω (S (length (waiting_packets s))) false None s) as (s' & taken & r & from & E & [T1 T2 T3] & Hfrom); [lia|].
  exists s', taken, r, from. split; [exact E|]. split; [done|]. split.
  { destruct r as [[id packet]|]; [|done]. by split; [apply (Hfrom (id, packet))|]. }
  cbv zeta. split; [apply T2|]. split; apply T2.
Qed.

(** ** Witnesses *)

(** A client with two more paths, with round-trip times of 80 and 20 milliseconds; a lost packet waits on the first. *)
Definition sample_path_rtt (id rtt : Z) : path fixedWindow :=
  let p := setup id sample_connection VersionMP {| window_bytes := 40000 |} 0 in
  set_rtt p (UpdateSessionRTT (rttStats (sent p)) rtt).
Definition sample_lost_packet : Packet := {|
  PktNumber := 4; PktFrames := [FStream {| StreamID := 5; FinBit := false; DataLenPresent := true; Offset := 3; SData := [x07] |}; FPing];
  PktLength := 40; PktEncryptionLevel := EncryptionForwardSecure; PktSendTime := Some 500%Z
|}.
Definition sample_paths : option (session fixedWindow) :=
  s ← sample_setup PerspectiveClient;
  let p := sample_path_rtt 1 (80 * Millisecond) in
  Some (put_path (put_path s 1 (set_sent p (DuplicatePacket (sent p) sample_lost_packet))) 3 (sample_path_rtt 3 (20 * Millisecond))).

Lemma sample_paths_ok :
  match sample_paths with
  | Some s => 1 < size (ss_paths s) ∧ match ss_paths s !! InitialPathID with Some _ => True | None => False end ∧
      match ss_paths s !! 3%Z with Some p => may_send false 3 p = true | None => False end
  | None => False
  end.
Proof. vm_compute. split; [lia|done]. Qed.
Lemma lowest_latency_selected_witness :
  match sample_paths with
  | Some s => ∃ s' id, selectPath sample_surroundings false false None s = Done s' (Ok (Some id)) ∧ best false s (Some id)
  | None => False
  end.
Proof.
  pose proof sample_paths_ok as H. destruct sample_paths as [s|]; [|destruct H]. destruct H as (Hs & H0 & H3).
  destruct (ss_paths s !! InitialPathID) as [p0|] eqn:E0; [|destruct H0].
  destruct (lowest_latency_selected sample_surroundings false false None s p0 E0) as (s' & r & E & _ & _ & Hr); [discriminate|].
  destruct (decide (size (ss_paths s) ≤ 1)) as [Hle|_]; [lia|]. destruct Hr as [(id & _ & [? _])|[_ Hr]]; [discriminate|].
  destruct r as [id|]; [exists s', id; split; [exact E|exact Hr]|]. destruct (ss_paths s !! 3%Z) as [p|] eqn:E3; [|destruct H3].
  cbn in Hr. rewrite (Hr 3%Z p E3) in H3. discriminate H3.
Defined.

Lemma sample_waiting :
  match sample_paths with
  | Some s => waiting_packets s = [(1%Z, sample_lost_packet)] ∧ retransmissionQueue (pk_framer (ss_packing s)) = []
  | None => False
  end.
Proof. vm_compute. by split. Qed.
Lemma retransmissions_handed_over_witness :
  match sample_paths with
  | Some s => ∃ s' has r from, getRetransmission sample_surroundings s = Done s' (Ok (has, r, from)) ∧
      (r = None → length (retransmissionQueue (pk_framer (ss_packing s'))) = 1)
  | None => False
  end.
Proof.
  pose proof sample_waiting as H. destruct sample_paths as [s|]; [|destruct H]. destruct H as [Hw Hq].
  destruct (retransmissions_handed_over sample_surroundings s) as (s' & taken & r & from & E & Hp & Hr & Hs & _).
  eexists s', _, (snd <$> r), from. split; [exact E|]. intros Hn. destruct r as [t|]; [discriminate Hn|].
  rewrite Hr, Hw in Hp. cbn in Hp. rewrite app_nil_r in Hp. apply Permutation_singleton_l in Hp. subst taken.
  rewrite Hs, Hq. reflexivity.
Defined.
