(* ===== verification/Session.v ===== *)
(** A session at work (src/mp-quic/session.go, handlePacketImpl of path.go).

    [handleFrames] and the handlers it calls, packets that cannot be decrypted yet, the
    timers, the turns of the loop of [run] and the end of a session.  A turn of [run] takes
    one event; the relation [run_turn] sends what is to be sent after it. *)

From Stdlib Require Import ZArith Lia.
From Stdlib Require Import Strings.Byte.
From stdpp Require Import prelude numbers list gmap sorting.
From S2P Require Import Prelude ByteOrder Protocol Wire StreamSorter ReceivedPackets FlowControl AckCodec PublicHeader PacketUnpacker.
From S2P Require Import Handshake RTTStats SentPackets Stream StreamsMap StreamFramer PacketNumberGenerator Path PacketPacker.
From S2P Require Import NullAEAD SessionState PathManager Scheduler.

Open Scope Z_scope.

Definition MaxUndecryptablePackets : Z := 10.
Definition MaxSessionUnprocessedPackets : Z := DefaultMaxCongestionWindow.
Definition PublicResetTimeout : Z := 500 * Millisecond.
Definition Minute : Z := 60 * Second.

Inductive run_event : Type :=
| EvTimer
| EvScheduled
| EvPathTimer (id : Z)
| EvReceived
| EvAead
| EvHandshakeDone.

Section session.
Context {C : Type} `{!SendAlgorithm C} (ω : surroundings C).
Implicit Types (s : session C) (id : Z).

(** * Frames *)

Definition set_streams_flow (m : streamsMap) (fc : flowControlManager) : M C () :=
  modify (λ s, let k := ss_packing s in
    set_packing s {| pk_packer := pk_packer k; pk_framer := pk_framer k; pk_map := m; pk_flow := fc |}).

(** [GetOrOpenStream] of the streams map; the stream is [None] once it is collected. *)
Definition get_or_open (sid : Z) : M C (option stream) :=
  let! s := get in
  let k := ss_packing s in
  match GetOrOpenStream (ss_params s) GetMaxIncomingStreams (pk_map k) (pk_flow k) sid with
  | None => panic
  | Some (m, fc, r) =>
      do! set_streams_flow m fc in
      match r with
      | Err e => throw (SeStreams e)
      | Ok None => ret None
      | Ok (Some _) => ret (streams m !! sid)
      end
  end.
Definition put_stream (sid : Z) (str : stream) (fc : flowControlManager) : M C () :=
  let! s := get in
  let m := pk_map (ss_packing s) in
  set_streams_flow (StreamsMap.set_streams m (<[sid := str]> (streams m)) (openStreams m) (roundRobinIndex m)) fc.

Definition handleStreamFrame (f : StreamFrame) : M C () :=
  let! str := get_or_open (StreamID f) in
  match str with
  | None => ret ()
  | Some str =>
      let! s := get in
      match AddStreamFrame (pk_flow (ss_packing s)) str f with
      | None => panic
      | Some (fc, str, e) =>
          do! put_stream (StreamID f) str fc in
          match e with Some e => throw (SeStream e) | None => ret () end
      end
  end.

Definition handleWindowUpdateFrame (f : WindowUpdateFrame) : M C () :=
  do! (if decide (WStreamID f = 0) then ret ()
       else let! str := get_or_open (WStreamID f) in
            match str with None => throw errWindowUpdateOnClosedStream | Some _ => ret () end) in
  let! s := get in
  let k := ss_packing s in
  let '(fc, r) := UpdateWindow (pk_flow k) (WStreamID f) (WByteOffset f) in
  do! set_streams_flow (pk_map k) fc in
  match r with Ok _ => ret () | Err e => throw (SeFlow e) end.

Definition queueResetStreamFrame (sid offset : Z) : M C () :=
  do! queue_frame (FRstStream {| RStreamID := sid; ErrorCode := 0; RByteOffset := offset |}) InitialPathID in
  scheduleSending.

Definition handleRstStreamFrame (f : RstStreamFrame) : M C () :=
  let! str := get_or_open (RStreamID f) in
  match str with
  | None => throw errRstStreamOnInvalidStream
  | Some str =>
      let '(str, reset) := RegisterRemoteError str (Some (EGiven (ErrorCode f))) in
      let! s := get in
      do! put_stream (RStreamID f) str (pk_flow (ss_packing s)) in
      do! (match reset with Some (sid, offset) => queueResetStreamFrame sid offset | None => ret () end) in
      let! s := get in
      let k := ss_packing s in
      let '(fc, e) := ResetStream (pk_flow k) (RStreamID f) (RByteOffset f) in
      do! set_streams_flow (pk_map k) fc in
      match e with Some e => throw (SeFlow e) | None => ret () end
  end.

Definition handleAckFrame (f : AckFrame) : M C () :=
  let! p := the_path (APathID f) in
  let! n := ask in
  let! now := Now ω in
  let '(h, e) := sent_ReceivedAck (sent p) f (lastRcvdPacketNumber p) (lastNetworkActivityTime p) (clock ω n) (ack_clock ω n) now in
  do! on_path (APathID f) (λ p, set_sent p h) in
  match e with
  | Some e => throw (SeSent e)
  | None =>
      let! s := get in
      let rtt := smoothedRTT (rttStats h) in
      if decide (session_smoothedRTT s < rtt)
      then on_path InitialPathID (λ p, set_rtt p (UpdateSessionRTT (rttStats (sent p)) rtt)) else ret ()
  end.

Definition closePath (id : Z) (sendClosePathFrame : bool) : M C () :=
  let! s := get in
  match ss_paths s !! id with
  | None => throw errUnknownPathID
  | Some _ =>
      if decide (id ∈ closedPaths (ss_peer s)) then ret ()
      else
        do! (if cf_manager (ss_config s) then pm_closePath id else ret ()) in
        do! modify (λ s, set_peer s {| closedPaths := closedPaths (ss_peer s) ∪ {[id]}; remoteRTTs := remoteRTTs (ss_peer s);
                                       peerBlocked := peerBlocked (ss_peer s) |}) in
        if negb sendClosePathFrame then ret ()
        else
          do! on_path id (λ p, set_sent p (SetInflightAsLost (sent p))) in
          let! p := the_path id in
          match path_GetClosePathFrame p with
          | None => panic
          | Some f => on_framer (λ fr, AddClosePathFrameForTransmission fr f)
          end
  end.
Definition handleClosePathFrame (f : ClosePathFrame) : M C () :=
  do! closePath (CPathID f) false in
  let! p := the_path (CPathID f) in
  let! n := ask in
  let '(h, e) := ReceivedClosePath (sent p) f (lastRcvdPacketNumber p) (ack_clock ω n) in
  do! on_path (CPathID f) (λ p, set_sent p h) in
  match e with Some e => throw (SeSent e) | None => ret () end.

(** The first [NumPaths] entries; an index out of range is a panic. *)
Fixpoint learn_rtts (n : nat) (ids rtts : list Z) : M C () :=
  match n, ids, rtts with
  | O, _, _ => ret ()
  | S n, id :: ids, rtt :: rtts =>
      do! modify (λ s, set_peer s {| closedPaths := closedPaths (ss_peer s); remoteRTTs := <[id := rtt]> (remoteRTTs (ss_peer s));
                                     peerBlocked := peerBlocked (ss_peer s) |}) in
      do! (if decide (30 * Minute ≤ rtt) then on_path id (λ p, set_failed p true) else ret ()) in
      learn_rtts n ids rtts
  | S _, _, _ => panic
  end.

Definition handle_frame (id : Z) (f : Frame) : M C () :=
  match f with
  | FStream f => handleStreamFrame f
  | FAck f => handleAckFrame f
  | FConnectionClose f => closeRemote (errRemote (CErrorCode f))
  | FGoaway _ => throw errGoaway
  | FStopWaiting f => on_path id (λ p, set_rcvd p (SetLowerLimit (rcvd p) (u64 (LeastUnacked f - 1))))
  | FRstStream f => handleRstStreamFrame f
  | FWindowUpdate f => handleWindowUpdateFrame f
  | FBlocked _ =>
      modify (λ s, set_peer s {| closedPaths := closedPaths (ss_peer s); remoteRTTs := remoteRTTs (ss_peer s); peerBlocked := true |})
  | FPing => ret ()
  | FAddAddress f =>
      let! s := get in
      if cf_manager (ss_config s) then
        let! r := try (handleAddAddressFrame ω f) in
        do! schedulePathsFrame ω in
        from_result r
      else ret ()
  | FClosePath f => let! _ := try (handleClosePathFrame f) in ret ()
  | FPaths f => learn_rtts (Z.to_nat (NumPaths f)) (PathIDs f) (RemoteRTTs f)
  end.

(** Errors that come up when frames overtake each other. *)
Definition ignored (e : SessionError) : bool :=
  match e with
  | SeSent ErrDuplicateOrOutOfOrderAck | errRstStreamOnInvalidStream | errWindowUpdateOnClosedStream => true
  | _ => false
  end.
Fixpoint handleFrames (id : Z) (fs : list Frame) : M C () :=
  match fs with
  | [] => ret ()
  | f :: fs =>
      let! r := try (handle_frame id f) in
      match r with
      | Ok _ => handleFrames id fs
      | Err e => if ignored e then handleFrames id fs else throw e
      end
  end.

(** * Packets *)

Definition with_number (p : receivedPacket) (n : Z) : receivedPacket := {|
  remoteAddr := remoteAddr p; publicHeader := number_header (publicHeader p) n; rawHeader := rawHeader p; rp_data := rp_data p;
  rcvTime := rcvTime p; rcvPconn := rcvPconn p
|}.

Definition decryption_failed (e : SessionError) : bool :=
  match e with SeWire (QuicError code) => bool_decide (code = DecryptionFailure) | _ => false end.

(** [handlePacketImpl] of the path: its packet, whose number it has changed, and its error. *)
Definition path_handlePacketImpl (id : Z) (pkt : receivedPacket) : M C (receivedPacket * option SessionError) :=
  let! p := the_path id in
  if negb (open p) then ret (pkt, None)
  else
    do! on_path id (λ p, set_liveness p (open p) (closeChan p) false (rcvTime pkt)) in
    let h := publicHeader pkt in
    let number := InferPacketNumber (PacketNumberLen h) (largestRcvdPacketNumber p) (PacketNumber h) in
    let pkt := with_number pkt number in
    let! s := get in
    match Unpack () (hs_open (ss_handshake s)) (ss_version s) (rawHeader pkt) (publicHeader pkt) (rp_data pkt) with
    | None => panic
    | Some r =>
        let e := match r with Err e => Some (SeWire e) | Ok _ => None end in
        if match e with Some e => decryption_failed e | None => false end then ret (pkt, e)
        else
          do! (match ss_perspective s with
               | PerspectiveServer =>
                   on_path id (λ p, set_numbers p {| LocalAddr := LocalAddr (conn p); RemoteAddr := remoteAddr pkt |}
                                      (lastRcvdPacketNumber p) (largestRcvdPacketNumber p) (leastUnacked p))
               | PerspectiveClient => ret ()
               end) in
          match r with
          | Err e => ret (pkt, Some (SeWire e))
          | Ok packet =>
              do! on_path id (λ p, set_numbers p (conn p) number (MaxPacketNumber (largestRcvdPacketNumber p) number) (leastUnacked p)) in
              let! now := Now ω in
              let! p := the_path id in
              let '(rh, e) := handler_ReceivedPacket (rcvd p) number (HasRetransmittableFrames (frames packet)) now in
              do! on_path id (λ p, set_rcvd p rh) in
              match e with
              | Some e => ret (pkt, Some (SeReceived e))
              | None =>
                  let! r := try (handleFrames id (frames packet)) in
                  ret (pkt, match r with Ok _ => None | Err e => Some e end)
              end
          end
    end.

Definition note_activity (now : Z) : M C () :=
  modify (λ s, let t := ss_timing s in set_timing s {|
    lastPathsFrameSent := lastPathsFrameSent t; sessionCreationTime := sessionCreationTime t; ss_lastNetworkActivityTime := now;
    keepAlivePingSent := false; receivedTooManyUndecrytablePacketsTime := receivedTooManyUndecrytablePacketsTime t |}).

Definition SetDiversificationNonce (nonce : list byte) : M C () :=
  modify (λ s, let h := ss_handshake s in set_learned s {|
    handshakeComplete := handshakeComplete h; cryptoSetup := cryptoSetup h; hs_open := hs_open h;
    hs_nonces := hs_nonces h ++ [nonce]; connectionParameters := connectionParameters h |} (ss_peer s) (ss_timing s)).

Definition handlePacketImpl (pkt : receivedPacket) : M C (receivedPacket * option SessionError) :=
  let! s := get in
  let nonce := DiversificationNonce (publicHeader pkt) in
  do! (if decide (ss_perspective s = PerspectiveClient ∧ nonce ≠ []) then SetDiversificationNonce nonce else ret ()) in
  do! note_activity (rcvTime pkt) in
  let id := HPathID (publicHeader pkt) in
  match ss_paths s !! id with
  | Some _ => path_handlePacketImpl id pkt
  | None =>
      let! r := try (createPathFromRemote ω pkt) in
      match r with
      | Err e => ret (pkt, Some e)
      | Ok id => path_handlePacketImpl id pkt
      end
  end.

(** The channel drops what it has no room for. *)
Definition handlePacket (pkt : receivedPacket) : M C () :=
  modify (λ s, if decide (zlen (receivedPackets s) < MaxSessionUnprocessedPackets)
               then set_packets s (receivedPackets s ++ [pkt]) (undecryptablePackets s) else s).

Definition tryQueueingUndecryptablePacket (pkt : receivedPacket) : M C () :=
  let! s := get in
  if handshakeComplete (ss_handshake s) then ret ()
  else if decide (MaxUndecryptablePackets < zlen (undecryptablePackets s) + 1) then
    match receivedTooManyUndecrytablePacketsTime (ss_timing s) with
    | Some _ => ret ()
    | None =>
        let! now := Now ω in
        modify (λ s, let t := ss_timing s in set_timing s {|
          lastPathsFrameSent := lastPathsFrameSent t; sessionCreationTime := sessionCreationTime t;
          ss_lastNetworkActivityTime := ss_lastNetworkActivityTime t; keepAlivePingSent := keepAlivePingSent t;
          receivedTooManyUndecrytablePacketsTime := Some now |})
    end
  else modify (λ s, set_packets s (receivedPackets s) (undecryptablePackets s ++ [pkt])).

Fixpoint handle_again (pkts : list receivedPacket) : M C () :=
  match pkts with [] => ret () | pkt :: pkts => do! handlePacket pkt in handle_again pkts end.
Definition tryDecryptingQueuedPackets : M C () :=
  let! s := get in
  do! handle_again (undecryptablePackets s) in
  modify (λ s, set_packets s (receivedPackets s) []).

(** * Timers *)

Definition maybeResetTimer s : Z :=
  let t := ss_timing s in
  let complete := handshakeComplete (ss_handshake s) in
  let deadline :=
    if cf_KeepAlive (ss_config s) && complete && negb (keepAlivePingSent t)
    then ss_lastNetworkActivityTime t + Z.quot (idleTimeout s) 2 else ss_lastNetworkActivityTime t + idleTimeout s in
  let deadline := if complete then deadline
                  else MinTime deadline (sessionCreationTime t + cf_HandshakeTimeout (ss_config s)) in
  match receivedTooManyUndecrytablePacketsTime t with
  | Some since => MinTime deadline (since + PublicResetTimeout)
  | None => deadline
  end.

(** [OnAlarm] reaches its callback when neither losses nor tail probes are due. *)
Definition rto_due (h : sentPacketHandler C) : bool :=
  hasOutstandingRetransmittablePacket h && bool_decide (lossTime h = None) && negb (bool_decide (tlpCount h < maxTailLossProbes)).
Definition path_OnAlarm id : M C () :=
  let! p := the_path id in
  let! now := Now ω in
  if rto_due (sent p) then
    let failed := (onRTO p (default 0 (lastSentTime (sent p)))).2 in
    do! on_path id (λ p, (onRTO p (default 0 (lastSentTime (sent p)))).1) in
    do! (if (failed : bool) then schedulePathsFrame ω else ret ()) in
    on_path id (λ p, set_sent p (OnAlarm (sent p) now (Some failed)))
  else on_path id (λ p, set_sent p (OnAlarm (sent p) now None)).

(** * The loop of [run] *)

(** The event; the rest of the turn is skipped after an error. *)
Definition take_event (ev : run_event) : M C (bool * option Z) :=
  match ev with
  | EvTimer | EvScheduled => ret (true, None)
  | EvPathTimer id => ret (true, Some id)
  | EvReceived =>
      let! s := get in
      match receivedPackets s with
      | [] => ret (false, None)
      | pkt :: pkts =>
          do! modify (λ s, set_packets s pkts (undecryptablePackets s)) in
          let! r := handlePacketImpl pkt in
          match r with
          | (_, None) => ret (true, None)
          | (pkt, Some e) =>
              do! (if decryption_failed e then tryQueueingUndecryptablePacket pkt else closeLocal e) in
              ret (false, None)
          end
      end
  | EvAead => do! tryDecryptingQueuedPackets in ret (true, None)
  | EvHandshakeDone =>
      do! modify (λ s, let h := ss_handshake s in set_learned s {|
        handshakeComplete := true; cryptoSetup := cryptoSetup h; hs_open := hs_open h; hs_nonces := hs_nonces h;
        connectionParameters := connectionParameters h |} (ss_peer s) (ss_timing s)) in
      ret (true, None)
  end.

Fixpoint queue_pings (ids : list Z) : M C () :=
  match ids with [] => ret () | id :: ids => do! queue_frame FPing id in queue_pings ids end.
Definition before_sending (now : Z) (timer_path : option Z) : M C () :=
  do! (match timer_path with
       | None => ret ()
       | Some id =>
           let! p := the_path id in
           match GetAlarmTimeout (sent p) with
           | Some timeout => if decide (timeout < now) then path_OnAlarm id else ret ()
           | None => ret ()
           end
       end) in
  let! s := get in
  let! since := Now ω in
  if cf_KeepAlive (ss_config s) && handshakeComplete (ss_handshake s) &&
     bool_decide (Z.quot (idleTimeout s) 2 ≤ since - ss_lastNetworkActivityTime (ss_timing s)) then
    let! ids := path_ids ω in
    do! queue_pings ids in
    modify (λ s, let t := ss_timing s in set_timing s {|
      lastPathsFrameSent := lastPathsFrameSent t; sessionCreationTime := sessionCreationTime t;
      ss_lastNetworkActivityTime := ss_lastNetworkActivityTime t; keepAlivePingSent := true;
      receivedTooManyUndecrytablePacketsTime := receivedTooManyUndecrytablePacketsTime t |})
  else ret ().

Definition check_timeouts (now : Z) : M C () :=
  let! s := get in
  let t := ss_timing s in
  let complete := handshakeComplete (ss_handshake s) in
  do! (match receivedTooManyUndecrytablePacketsTime t with
       | Some since => if decide (since + PublicResetTimeout < now ∧ undecryptablePackets s ≠ []) then closeLocal errTooManyUndecryptable
                       else ret ()
       | None => ret ()
       end) in
  do! (if negb complete && bool_decide (cf_HandshakeTimeout (ss_config s) ≤ now - sessionCreationTime t)
       then closeLocal errHandshakeTimeout else ret ()) in
  if complete && bool_decide (idleTimeout s ≤ now - ss_lastNetworkActivityTime t) then closeLocal errNetworkIdleTimeout else ret ().

Definition after_sending (now : Z) : M C () :=
  do! check_timeouts now in
  let! s := get in
  do! (if handshakeComplete (ss_handshake s) && bool_decide (VersionMP ≤ ss_version s) &&
          bool_decide (200 * Millisecond ≤ now - lastPathsFrameSent (ss_timing s)) &&
          bool_decide (2 < zlen (openStreams (pk_map (ss_packing s))))
       then schedulePathsFrame ω else ret ()) in
  let! s := get in
  let '(m, fc) := garbageCollectStreams (pk_map (ss_packing s)) (pk_flow (ss_packing s)) in
  set_streams_flow m fc.

(** What comes before the packets of a turn: the time, if the turn goes on. *)
Definition turn_start (ev : run_event) : M C (option Z) :=
  let! r := take_event ev in
  let '(go_on, timer_path) := r in
  if (go_on : bool) then
    let! now := Now ω in
    do! before_sending now timer_path in
    ret (Some now)
  else ret None.
(** What comes after them. *)
Definition turn_end (now : Z) (e : option SessionError) : M C () :=
  do! (match e with Some e => closeLocal e | None => ret () end) in after_sending now.

Inductive run_turn (ev : run_event) s : session C → Prop :=
| turn_skipped s' : turn_start ev s = Done s' (Ok None) → run_turn ev s s'
| turn_sends s1 now s2 r s3 u :
    turn_start ev s = Done s1 (Ok (Some now)) → sendPacket ω s1 (Done s2 r) →
    turn_end now (match r with Ok _ => None | Err e => Some e end) s2 = Done s3 u → run_turn ev s s3.

(** * The end *)

Definition sendPublicReset (rejected : Z) : M C () :=
  let! s := get in
  match WritePublicReset (pa_connectionID (pk_packer (ss_packing s))) rejected 0 with
  | None => panic
  | Some raw => conn_Write ω InitialPathID raw
  end.
Definition sendConnectionClose (code : Z) (reason : list byte) : M C () :=
  do! on_path InitialPathID (λ p, SetLeastUnacked p (GetLeastUnacked (sent p))) in
  let! packet := with_packer ω InitialPathID (λ e k p, PackConnectionClose e k {| CErrorCode := code; CReasonPhrase := reason |} p) in
  match packet with
  | None => panic
  | Some packet => conn_Write ω InitialPathID (pp_raw packet)
  end.

(** It waits for the paths to end. *)
Definition closePaths : M C () :=
  do! pm_closePaths in
  modify (λ s, set_paths s (run_closed <$> ss_paths s) (ss_manager s)).

Definition handleCloseError (c : closeError) : M C () :=
  let '(code, reason) := describe ω (close_err c) in
  do! modify (λ s, let k := ss_packing s in set_packing s {|
    pk_packer := pk_packer k; pk_framer := pk_framer k; pk_map := CloseWithError (pk_map k) (Some (EGiven code)); pk_flow := pk_flow k |}) in
  if match close_err c with errCloseSessionForNewVersion => true | _ => false end then ret ()
  else
    do! closePaths in
    if close_remote c then ret ()
    else if bool_decide (code = DecryptionFailure) || match close_err c with ErrHOLExperiment | ErrNSTPExperiment => true | _ => false end then
      let! p := the_path InitialPathID in sendPublicReset (lastRcvdPacketNumber p)
    else sendConnectionClose code reason.
End session.

Close Scope Z_scope.

(** * Data reaches the streams *)

(** What a STREAM frame does to the streams of the session. *)
Definition feed (f : StreamFrame) : list sm_op := [OpGetOrOpen GetMaxIncomingStreams (StreamID f); OpStream (StreamID f) (OpFrame f)].

(** A STREAM frame given to the streams: its stream is opened, with all before it, unless it is open or gone,
    and takes the data.  [None] is a panic. *)
Definition take_frame (cp : ConnectionParameters) (st : sm_state) (f : StreamFrame) : option (sm_state * option SessionError) :=
  match GetOrOpenStream cp GetMaxIncomingStreams st.1 st.2 (StreamID f) with
  | None => None
  | Some (m, fc, Err e) => Some (m, fc, Some (SeStreams e))
  | Some (m, fc, Ok None) => Some (m, fc, None)
  | Some (m, fc, Ok (Some _)) =>
      match streams m !! StreamID f with
      | None => Some (m, fc, None)
      | Some str =>
          match AddStreamFrame fc str f with
          | None => None
          | Some (fc, str, e) =>
              Some (StreamsMap.set_streams m (<[StreamID f := str]> (streams m)) (openStreams m) (roundRobinIndex m), fc, SeStream <$> e)
          end
      end
  end.
(** Frames in order, up to the first that is refused. *)
Fixpoint take_frames (cp : ConnectionParameters) (st : sm_state) (fs : list StreamFrame) : option (sm_state * option SessionError) :=
  match fs with
  | [] => Some (st, None)
  | f :: fs =>
      match take_frame cp st f with
      | Some (st, None) => take_frames cp st fs
      | r => r
      end
  end.

Section feeding.
Context {C : Type} `{!SendAlgorithm C} (ω : surroundings C).
Implicit Types (s : session C).

Local Notation streams_of s := (pk_map (ss_packing s), pk_flow (ss_packing s)).

Lemma sm_run_app cp st os1 os2 st1 : sm_run cp st os1 = Some st1 → sm_run cp st (os1 ++ os2) = sm_run cp st1 os2.
Proof using Type. unfold sm_run. rewrite foldl_app. by intros ->. Qed.

Lemma GetOrOpenStream_collected cp limit m fc sid m' fc' :
  GetOrOpenStream cp limit m fc sid = Some (m', fc', Ok None) → streams m' !! sid = None.
Proof using Type.
  unfold GetOrOpenStream. destruct (streams m !! sid) as [str|] eqn:E; [done|].
  destruct (refuse_stream m sid) as [r|]; [by intros [= <- _ _]|].
  destruct (open_up_to _ _ _ _ _ _ _) as [[[m1 f1] [e|]]|]; cbn [mbind option_bind]; [done| |done].
  destruct (streams m1 !! sid) eqn:E1; [done|]. by intros [= <- _].
Qed.

(** Accepted STREAM frames make of the streams and their flow control what [feed] says. *)
Lemma take_frame_feed cp st f st' : take_frame cp st f = Some (st', None) → sm_run cp st (feed f) = Some st'.
Proof using Type.
  destruct st as [m0 fc0]. unfold take_frame, sm_run, feed. cbn [fst snd foldl mbind option_bind sm_step].
  destruct (GetOrOpenStream _ _ _ _ _) as [[[m fc] [[i|]|e]]|] eqn:E; [| |done..]; cbn [mbind option_bind sm_step].
  - destruct (streams m !! StreamID f) as [str|]; [|by intros [= <-]]. cbn [stream_step].
    destruct (AddStreamFrame fc str f) as [[[fc1 str1] [e|]]|]; [done| |done]. by intros [= <-].
  - intros [= <-]. by rewrite (GetOrOpenStream_collected _ _ _ _ _ _ _ E).
Qed.
Lemma take_frames_feed cp st fs st' : take_frames cp st fs = Some (st', None) → sm_run cp st (fs ≫= feed) = Some st'.
Proof using Type.
  revert st. induction fs as [|f fs IH]; intros st; [by intros [= ->]|]. cbn [take_frames mbind list_bind].
  destruct (take_frame cp st f) as [[st1 [e|]]|] eqn:E; [done| |done]. intros H%IH.
  by rewrite (sm_run_app _ _ _ _ _ (take_frame_feed _ _ _ _ E)).
Qed.
Lemma handleStreamFrame_error f s s' e : handleStreamFrame f s = Done s' (Err e) → ignored e = false.
Proof using Type.
  unfold handleStreamFrame, bind at 1. destruct (get_or_open (StreamID f) s) as [s1 [[str|]|e1]| |] eqn:E; [|done| |done|done].
  - unfold bind at 1. cbn [get]. destruct (AddStreamFrame _ str f) as [[[fc1 str1] [e1|]]|]; [|done|done].
    unfold put_stream, set_streams_flow, bind, get, modify. cbn. by intros [= _ <-].
  - intros [= -> ->]. revert E. unfold get_or_open, bind, get.
    destruct (GetOrOpenStream _ _ _ _ _) as [[[m fc] [[i|]|e']]|]; cbn; try done. by intros [= _ <-].
Qed.

(** The streams and their flow control are all of a session that STREAM frames read or write. *)
Definition with_streams s (st : sm_state) : session C :=
  set_packing s {| pk_packer := pk_packer (ss_packing s); pk_framer := pk_framer (ss_packing s); pk_map := st.1; pk_flow := st.2 |}.

Lemma handleStreamFrame_with f s :
  handleStreamFrame f s =
  match take_frame (ss_params s) (streams_of s) f with
  | None => Panics
  | Some (st, e) => Done (with_streams s st) (match e with None => Ok () | Some e => Err e end)
  end.
Proof using Type.
  unfold handleStreamFrame, get_or_open, take_frame, bind, get.
  destruct (GetOrOpenStream _ _ _ _ _) as [[[m fc] [[i|]|e]]|]; [|done..]. cbn.
  destruct (streams m !! StreamID f) as [str|]; [|done]. cbn. by destruct (AddStreamFrame fc str f) as [[[fc1 str1] [e|]]|].
Qed.

Lemma handleFrames_with id fs s :
  handleFrames ω id (FStream <$> fs) s =
  match take_frames (ss_params s) (streams_of s) fs with
  | None => Panics
  | Some (st, e) => Done (with_streams s st) (match e with None => Ok () | Some e => Err e end)
  end.
Proof using Type.
  revert s. induction fs as [|f fs IH]; intros s.
  { cbn. unfold with_streams. by destruct s as [? ? ? []]. }
  cbn [fmap list_fmap handleFrames handle_frame take_frames]. unfold bind, try.
  destruct (handleStreamFrame f s) as [s1 [[]|e]| |] eqn:E; pose proof E as Ee; rewrite handleStreamFrame_with in E;
    destruct (take_frame _ _ f) as [[st [e'|]]|]; try done; injection E as <-.
  - rewrite IH. by destruct st as [m fc].
  - subst e'. by rewrite (handleStreamFrame_error _ _ _ _ Ee).
Qed.

(** ** A packet *)

(** The path once the packet is unpacked: it works, and on a server follows the packet's sender. *)
Definition path_received s (p : path C) (pkt : receivedPacket) (number : Z) : path C :=
  let p := set_liveness p (open p) (closeChan p) false (rcvTime pkt) in
  let p := match ss_perspective s with
           | PerspectiveServer => set_numbers p {| LocalAddr := LocalAddr (conn p); RemoteAddr := remoteAddr pkt |}
                                    (lastRcvdPacketNumber p) (largestRcvdPacketNumber p) (leastUnacked p)
           | PerspectiveClient => p
           end in
  set_numbers p (conn p) number (MaxPacketNumber (largestRcvdPacketNumber p) number) (leastUnacked p).

Definition accepted_at s (id : Z) (p : path C) (rh : receivedPacketHandler) : session C :=
  put_path (set_outside s (written_out s) (S (questions s))) id (set_rcvd p rh).

Lemma bind_done {A B} (m : M C A) (f : A → M C B) s s' a : m s = Done s' (Ok a) → bind m f s = f a s'.
Proof using Type. unfold bind. by intros ->. Qed.
Lemma the_path_eq id s p : ss_paths s !! id = Some p → the_path id s = Done s (Ok p).
Proof using Type. intros Hp. unfold the_path, bind, get. by rewrite Hp. Qed.
Lemma on_path_eq id f s p : ss_paths s !! id = Some p → on_path id f s = Done (put_path s id (f p)) (Ok ()).
Proof using Type. intros Hp. unfold on_path. by erewrite bind_done by by apply the_path_eq. Qed.
Lemma put_put s id p q : put_path (put_path s id p) id q = put_path s id q.
Proof using Type. unfold put_path, set_paths. cbn. by rewrite insert_insert_eq. Qed.
Lemma put_path_lookup s id p : ss_paths (put_path s id p) !! id = Some p.
Proof using Type. apply lookup_insert_eq. Qed.

(** A packet that opens: its number is noted, then its frames are handled. *)
Lemma path_handlePacketImpl_opened s id p pkt fs level :
  let number := InferPacketNumber (PacketNumberLen (publicHeader pkt)) (largestRcvdPacketNumber p) (PacketNumber (publicHeader pkt)) in
  ss_paths s !! id = Some p → open p = true →
  Unpack () (hs_open (ss_handshake s)) (ss_version s) (rawHeader pkt) (number_header (publicHeader pkt) number) (rp_data pkt) =
    Some (Ok {| encryptionLevel := level; frames := fs |}) →
  path_handlePacketImpl ω id pkt s =
    let '(rh, e) := handler_ReceivedPacket (rcvd p) number (HasRetransmittableFrames fs) (clock ω (questions s)) in
    let s1 := accepted_at s id (path_received s p pkt number) rh in
    match e with
    | Some e => Done s1 (Ok (with_number pkt number, Some (SeReceived e)))
    | None =>
        match handleFrames ω id fs s1 with
        | Done s2 r => Done s2 (Ok (with_number pkt number, match r with Ok _ => None | Err e => Some e end))
        | Panics => Panics
        | Blocks => Blocks
        end
    end.
Proof using Type.
  cbv zeta. intros Hp Ho Hu. unfold path_handlePacketImpl.
  rewrite (bind_done _ _ _ _ _ (the_path_eq id s p Hp)), Ho. cbn [negb].
  rewrite (bind_done _ _ _ _ _ (on_path_eq id _ s p Hp)). rewrite (bind_done get _ _ _ _ eq_refl).
  set (p1 := set_liveness p (open p) (closeChan p) false (rcvTime pkt)).
  set (number := InferPacketNumber _ _ _) in *. cbn [with_number publicHeader rawHeader rp_data].
  change (ss_handshake (put_path s id p1)) with (ss_handshake s). change (ss_version (put_path s id p1)) with (ss_version s).
  change (ss_perspective (put_path s id p1)) with (ss_perspective s). rewrite Hu.
  set (p2 := match ss_perspective s with
             | PerspectiveServer => set_numbers p1 {| LocalAddr := LocalAddr (conn p1); RemoteAddr := remoteAddr pkt |}
                                      (lastRcvdPacketNumber p1) (largestRcvdPacketNumber p1) (leastUnacked p1)
             | PerspectiveClient => p1
             end).
  match goal with |- bind ?m _ _ = _ => assert (m (put_path s id p1) = Done (put_path s id p2) (Ok ())) as E end.
  { unfold p2. destruct (ss_perspective s); [|done]. rewrite (on_path_eq id _ _ p1) by apply put_path_lookup. by rewrite put_put. }
  rewrite (bind_done _ _ _ _ _ E). cbn [with_number publicHeader].
  assert (rcvd p2 = rcvd p) as Er by (unfold p2; by destruct (ss_perspective s)).
  erewrite bind_done by (apply on_path_eq, put_path_lookup). rewrite put_put.
  assert (path_received s p pkt number = set_numbers p2 (conn p2) number (MaxPacketNumber (largestRcvdPacketNumber p2) number) (leastUnacked p2)) as Ep by done.
  cbv beta. rewrite <-Ep. set (p3 := path_received s p pkt number).
  assert (rcvd p3 = rcvd p) as Er3 by (unfold p3; by rewrite Ep).
  rewrite (bind_done _ _ _ (set_outside (put_path s id p3) (written_out s) (S (questions s))) (clock ω (questions s))) by done.
  rewrite (bind_done _ _ _ _ _ (the_path_eq id (set_outside (put_path s id p3) (written_out s) (S (questions s))) p3 (put_path_lookup s id p3))).
  rewrite Er3. destruct (handler_ReceivedPacket _ _ _ _) as [rh e].
  rewrite (bind_done _ _ _ _ _ (on_path_eq id _ (set_outside (put_path s id p3) (written_out s) (S (questions s))) p3 (put_path_lookup s id p3))).
  assert (put_path (set_outside (put_path s id p3) (written_out s) (S (questions s))) id (set_rcvd p3 rh) = accepted_at s id p3 rh) as ->.
  { unfold accepted_at, put_path, set_paths, set_outside. cbn. by rewrite insert_insert_eq. }
  destruct e; [done|]. unfold bind, try. cbn [frames]. by destruct (handleFrames ω id fs (accepted_at s id p3 rh)).
Qed.
Lemma carried_stream_frames n len level since fs gs : Forall2 (carried n len level since) (FStream <$> fs) gs → gs = FStream <$> fs.
Proof using Type.
  revert gs. induction fs as [|f fs IH]; intros gs H; inversion H as [|? g ? gs' Hg Hgs]; subst; [done|].
  inversion Hg; subst. cbn. by rewrite (IH _ Hgs).
Qed.
Lemma larger_number a b : MaxPacketNumber a b = Z.max a b.
Proof using Type. unfold MaxPacketNumber. case_decide; lia. Qed.
End feeding.

(** * Properties *)

(** C7: Sealed data reaches the streams.  A packet of STREAM frames that a packer delivers (in the sense of
    [packet_delivered]) and that the packet history of its path takes is opened by the session under the
    number it was sealed with, inferred from the largest one of the path.  Then the streams and their flow
    control are what [take_frames] makes of the frames, in this order: if one is refused, its error is the
    result; if all are accepted they have gone through [feed]; and it panics only if the streams do.  Of the
    paths only this one changes: it has noted the number and works. *)
Theorem packet_feeds_streams {C} `{!SendAlgorithm C} (ω : surroundings C) s id p pers version known since packet fs pkt rh :
  delivered (hs_open (ss_handshake s)) pers version known (largestRcvdPacketNumber p) since packet →
  pp_frames packet = FStream <$> fs → version = ss_version s →
  pp_raw packet = rawHeader pkt ++ rp_data pkt → ParsePublicHeader pers known (pp_raw packet) = Ok (publicHeader pkt, rp_data pkt) →
  ss_paths s !! id = Some p → open p = true →
  handler_ReceivedPacket (rcvd p) (pp_number packet) (HasRetransmittableFrames (FStream <$> fs)) (clock ω (questions s)) = (rh, None) →
  let streams_before := (pk_map (ss_packing s), pk_flow (ss_packing s)) in
  match take_frames (ss_params s) streams_before fs with
  | None => path_handlePacketImpl ω id pkt s = Panics
  | Some (streams_after, e) =>
      ∃ s' p', path_handlePacketImpl ω id pkt s = Done s' (Ok (with_number pkt (pp_number packet), e)) ∧
        (pk_map (ss_packing s'), pk_flow (ss_packing s')) = streams_after ∧
        (e = None → sm_run (ss_params s) streams_before (fs ≫= feed) = Some streams_after) ∧
        ss_paths s' = <[id := p']> (ss_paths s) ∧ rcvd p' = rh ∧ lastRcvdPacketNumber p' = pp_number packet ∧
        largestRcvdPacketNumber p' = Z.max (largestRcvdPacketNumber p) (pp_number packet) ∧ potentiallyFailed p' = false ∧ sent p' = sent p
  end.
Proof.
  intros (header & sealed & h & gs & Eraw & Eparse & Enum & Eu & Hgs) Efs -> Eraw' Eparse' Hp Ho Hrh. cbv zeta.
  rewrite Eparse in Eparse'. injection Eparse' as Eh Esealed.
  assert (rawHeader pkt = header) as Ehd by (rewrite <-Esealed, Eraw in Eraw'; by apply app_inv_tail in Eraw').
  assert (gs = FStream <$> fs) as -> by (apply (carried_stream_frames _ _ _ _ _ _ ltac:(by rewrite <-Efs))).
  rewrite (path_handlePacketImpl_opened ω s id p pkt (FStream <$> fs) (pp_level packet) Hp Ho); rewrite <-?Eh, Enum, ?Ehd, <-?Esealed; [|exact Eu].
  rewrite Hrh. cbv zeta. rewrite handleFrames_with. set (s1 := accepted_at s id _ rh).
  change (take_frames _ (pk_map (ss_packing s1), _) fs) with (take_frames (ss_params s) (pk_map (ss_packing s), pk_flow (ss_packing s)) fs).
  destruct (take_frames _ _ fs) as [[[m fc] e]|] eqn:E; [|done].
  exists (with_streams s1 (m, fc)), (set_rcvd (path_received s p pkt (pp_number packet)) rh). split; [by destruct e|].
  split; [done|]. split; [intros ->; by eapply take_frames_feed|]. split; [reflexivity|].
  unfold path_received. destruct (ss_perspective s); split_and!; try done; apply larger_number.
Qed.

(** C38: A frame about a path that does not exist ends the program.  The ID in an ACK frame is not checked: a packet that
    opens and whose first frame acknowledges packets of a path the session does not have makes it
    dereference a nil pointer; so does a PATHS frame that calls such a path failed. *)
Theorem unknown_path_panics {C} `{!SendAlgorithm C} (ω : surroundings C) s id p pkt f fs level :
  let number := InferPacketNumber (PacketNumberLen (publicHeader pkt)) (largestRcvdPacketNumber p) (PacketNumber (publicHeader pkt)) in
  ss_paths s !! id = Some p → open p = true →
  Unpack () (hs_open (ss_handshake s)) (ss_version s) (rawHeader pkt) (number_header (publicHeader pkt) number) (rp_data pkt) =
    Some (Ok {| encryptionLevel := level; frames := f :: fs |}) →
  (handler_ReceivedPacket (rcvd p) number (HasRetransmittableFrames (f :: fs)) (clock ω (questions s))).2 = None →
  match f with
  | FAck a => ss_paths s !! APathID a = None
  | FPaths a =>
      match PathIDs a, RemoteRTTs a with
      | i :: _, rtt :: _ => (1 ≤ NumPaths a)%Z ∧ ss_paths s !! i = None ∧ (30 * Minute ≤ rtt)%Z
      | _, _ => False
      end
  | _ => False
  end →
  path_handlePacketImpl ω id pkt s = Panics.
Proof.
  cbv zeta. intros Hp Ho Hu Hr Hf. rewrite (path_handlePacketImpl_opened ω s id p pkt (f :: fs) level Hp Ho Hu).
  destruct (handler_ReceivedPacket _ _ _ _) as [rh e]. cbn in Hr. subst e. cbv zeta. set (s1 := accepted_at s id _ rh).
  assert (∀ i, ss_paths s !! i = None → ss_paths s1 !! i = None) as Hnone.
  { intros i Hi. unfold s1, accepted_at, put_path, set_paths. cbn. rewrite lookup_insert_ne; [done|congruence]. }
  cbn [handleFrames]. unfold bind at 1, try. destruct f as [|a| | | | | | | | | |a]; try done; cbn [handle_frame].
  - unfold handleAckFrame, the_path, bind, get. by rewrite (Hnone _ Hf).
  - destruct (PathIDs a) as [|i others]; [done|]. destruct (RemoteRTTs a) as [|rtt rtts]; [done|]. destruct Hf as (Hn & Hi & Hrtt).
    destruct (Z.to_nat (NumPaths a)) as [|n] eqn:En; [lia|]. cbn [learn_rtts]. unfold bind. cbn [modify]. rewrite decide_True by done.
    unfold on_path, the_path, bind, get. cbn [ss_paths set_peer set_learned]. by rewrite (Hnone _ Hi).
Qed.

(** ** Witnesses *)

(** A packet of a server on the initial path, as it is sealed and as the client gets it. *)
Definition sample_packet (fs : list Frame) : option (packedPacket * receivedPacket) :=
  let packer := newPacketPacker 77 PerspectiveServer VersionMP in
  let p := SetLeastUnacked (setup InitialPathID sample_connection VersionMP {| window_bytes := 40000 |} 0) 1 in
  let k := {| pk_packer := packer; pk_framer := newStreamFramer; pk_map := newStreamsMap PerspectiveServer;
              pk_flow := NewFlowControlManager sample_params |} in
  '(_, _, r) ← pack_frames sample_env k EncryptionForwardSecure nullAEADFNV64a (getPublicHeader sample_env packer EncryptionForwardSecure p) fs p;
  match r with
  | Ok (Some packet) =>
      match ParsePublicHeader PerspectiveServer VersionMP (pp_raw packet) with
      | Ok (h, rest) =>
          Some (packet, {| remoteAddr := RemoteAddr sample_connection; publicHeader := h;
                           rawHeader := take (length (pp_raw packet) - length rest) (pp_raw packet); rp_data := rest;
                           rcvTime := 5000; rcvPconn := LocalAddr sample_connection |})
      | Err _ => None
      end
  | _ => None
  end.

Definition sample_data_frames : list StreamFrame :=
  [{| StreamID := 2; FinBit := false; DataLenPresent := true; Offset := 0; SData := [x01; x02; x03] |};
   {| StreamID := 2; FinBit := true; DataLenPresent := false; Offset := 3; SData := [x04; x05] |}].
Lemma sample_data_facts :
  match sample_setup PerspectiveClient, sample_packet (FStream <$> sample_data_frames) with
  | Some s, Some (packet, pkt) =>
      pp_raw packet = rawHeader pkt ++ rp_data pkt ∧
      ParsePublicHeader PerspectiveServer VersionMP (pp_raw packet) = Ok (publicHeader pkt, rp_data pkt) ∧
      pp_frames packet = FStream <$> sample_data_frames ∧ ss_version s = VersionMP ∧
      match ss_paths s !! InitialPathID with
      | Some p =>
          open p = true ∧
          InferPacketNumber (PacketNumberLen (publicHeader pkt)) (largestRcvdPacketNumber p) (PacketNumber (publicHeader pkt)) = pp_number packet ∧
          Unpack () (hs_open (ss_handshake s)) VersionMP (rawHeader pkt) (number_header (publicHeader pkt) (pp_number packet)) (rp_data pkt) =
            Some (Ok {| encryptionLevel := pp_level packet; frames := FStream <$> sample_data_frames |}) ∧
          (handler_ReceivedPacket (rcvd p) (pp_number packet) true (clock sample_surroundings (questions s))).2 = None ∧
          pp_level packet = EncryptionForwardSecure
      | None => False
      end ∧
      match take_frames (ss_params s) (pk_map (ss_packing s), pk_flow (ss_packing s)) sample_data_frames with
      | Some (m, _, e) => e = None ∧ readPosInFrame <$> streams m !! 2%Z = Some 0%Z
      | None => False
      end
  | _, _ => False
  end.
Proof. vm_compute. by split_and!. Qed.
Lemma sample_data_carried n l : Forall2 (carried n l EncryptionForwardSecure (λ _, 0%Z)) (FStream <$> sample_data_frames) (FStream <$> sample_data_frames).
Proof. repeat constructor; cbn; try lia; try done; by right. Qed.

Lemma packet_feeds_streams_witness :
  match sample_setup PerspectiveClient, sample_packet (FStream <$> sample_data_frames) with
  | Some s, Some (packet, pkt) =>
      ∃ s', path_handlePacketImpl sample_surroundings InitialPathID pkt s = Done s' (Ok (with_number pkt (pp_number packet), None)) ∧
        sm_run (ss_params s) (pk_map (ss_packing s), pk_flow (ss_packing s)) (sample_data_frames ≫= feed) =
          Some (pk_map (ss_packing s'), pk_flow (ss_packing s')) ∧
        readPosInFrame <$> streams (pk_map (ss_packing s')) !! 2%Z = Some 0%Z
  | _, _ => False
  end.
Proof.
  pose proof sample_data_facts as H. destruct (sample_setup PerspectiveClient) as [s|]; [|destruct H].
  destruct (sample_packet (FStream <$> sample_data_frames)) as [[packet pkt]|]; [|destruct H].
  destruct H as (H1 & H2 & H3 & H4 & H5 & H6). destruct (ss_paths s !! InitialPathID) as [p|] eqn:Hp; [|destruct H5].
  destruct H5 as (P1 & P2 & P3 & P4 & P5).
  destruct (handler_ReceivedPacket (rcvd p) (pp_number packet) true (clock sample_surroundings (questions s))) as [rh e] eqn:Erh.
  cbn in P4. subst e.
  pose proof (packet_feeds_streams sample_surroundings s InitialPathID p PerspectiveServer VersionMP VersionMP (λ _, 0%Z) packet
    sample_data_frames pkt rh) as T. cbv zeta in T.
  destruct (take_frames _ _ sample_data_frames) as [[[m fc] e]|]; [|destruct H6]. destruct H6 as [-> Hm].
  destruct T as (s' & p' & E1 & E2 & E3 & _); [|exact H3|symmetry; exact H4|exact H1|exact H2|exact Hp|exact P1|exact Erh|].
  - exists (rawHeader pkt), (rp_data pkt), (publicHeader pkt), (FStream <$> sample_data_frames).
    split; [exact H1|]. split; [exact H2|]. split; [exact P2|]. split; [exact P3|]. rewrite H3, P5. apply sample_data_carried.
  - injection E2 as <- <-. exists s'. split; [exact E1|]. split; [by apply E3|exact Hm].
Defined.

(** An ACK frame for path 9, which the client does not have. *)
Definition sample_stray_ack : AckFrame := with_path_id 9 sample_ack.
Lemma sample_stray_facts :
  match sample_setup PerspectiveClient, sample_packet [FAck sample_stray_ack] with
  | Some s, Some (packet, pkt) =>
      match ss_paths s !! InitialPathID with
      | Some p =>
          let number := InferPacketNumber (PacketNumberLen (publicHeader pkt)) (largestRcvdPacketNumber p) (PacketNumber (publicHeader pkt)) in
          open p = true ∧
          match Unpack () (hs_open (ss_handshake s)) (ss_version s) (rawHeader pkt) (number_header (publicHeader pkt) number) (rp_data pkt) with
          | Some (Ok u) =>
              match frames u with
              | [FAck a] => ss_paths s !! APathID a = None ∧
                  (handler_ReceivedPacket (rcvd p) number (HasRetransmittableFrames (frames u)) (clock sample_surroundings (questions s))).2 = None
              | _ => False
              end
          | _ => False
          end
      | None => False
      end
  | _, _ => False
  end.
Proof. vm_compute. by split_and!. Qed.
Lemma unknown_path_panics_witness :
  match sample_setup PerspectiveClient, sample_packet [FAck sample_stray_ack] with
  | Some s, Some (_, pkt) => path_handlePacketImpl sample_surroundings InitialPathID pkt s = Panics
  | _, _ => False
  end.
Proof.
  pose proof sample_stray_facts as H. destruct (sample_setup PerspectiveClient) as [s|]; [|destruct H].
  destruct (sample_packet [FAck sample_stray_ack]) as [[packet pkt]|]; [|destruct H].
  destruct (ss_paths s !! InitialPathID) as [p|] eqn:Hp; [|destruct H]. cbv zeta in H. destruct H as [Ho H].
  destruct (Unpack _ _ _ _ _ _) as [[[level fs]|e]|] eqn:Eu; [|destruct H|destruct H]. cbn in H.
  destruct fs as [|[|a| | | | | | | | | |] [|f fs]]; try destruct H.
  eapply (unknown_path_panics sample_surroundings s InitialPathID p pkt (FAck a) [] level Hp Ho Eu); assumption.
Defined.

(** What [closed_path_blocks] says of any session, for a client: when the peer has closed its path 1, window updates are
    still sent on it by [ackRemainingPaths], and the second time the session blocks. *)
Lemma sample_closed_path_blocks :
  match sample_setup PerspectiveClient with
  | Some s0 =>
      match pm_handshakeCompleted sample_surroundings s0 with
      | Done s1 (Ok _) =>
          let wufs := [{| WStreamID := 0; WByteOffset := 100000 |}] in
          match pm_closePath 1 s1 with
          | Done s2 _ =>
              let s3 := set_paths s2 ((λ p, run_closed (run_sent p)) <$> ss_paths s2) (ss_manager s2) in
              match ackRemainingPaths sample_surroundings wufs s3 with
              | Done s4 (Ok _) =>
                  (open <$> ss_paths s4 !! 1%Z) = Some false ∧
                  match ackRemainingPaths sample_surroundings wufs s4 with Blocks => True | _ => False end
              | _ => False
              end
          | _ => False
          end
      | _ => False
      end
  | None => False
  end.
Proof. vm_compute. by split. Qed.
