(* ===== verification/SessionPaths.v ===== *)
(** The paths of a session over its life.

    [session_step] lets a session turn, its path manager, paths, streams, setup and
    application act in any order; over any run of it no path is replaced and the packet
    numbers of a path only grow, so that path and number tell its packets apart. *)

From Stdlib Require Import ZArith Lia.
From Stdlib Require Import Strings.Byte.
From stdpp Require Import prelude numbers list gmap sorting.
From S2P Require Import Prelude ByteOrder Protocol Wire StreamSorter ReceivedPackets FlowControl AckCodec PublicHeader PacketUnpacker.
From S2P Require Import Handshake RTTStats SentPackets Stream StreamsMap StreamFramer PacketNumberGenerator Path PacketPacker.
From S2P Require Import NullAEAD SessionState PathManager Scheduler Session.

Section steps.
Context {C : Type} `{!SendAlgorithm C} (ω : surroundings C).

(** What happens to a session: a turn of its loop, its path manager at work, a path that ends or resets
    its timer, its streams, a packet that arrives, the handshake, its application, and its end. *)
Inductive session_step (s : session C) : session C → Prop :=
| step_turn ev s' : run_turn ω ev s s' → session_step s s'
| step_handshakeCompleted s' r : pm_handshakeCompleted ω s = Done s' r → session_step s s'
| step_changePaths s' r : pm_changePaths ω s = Done s' r → session_step s s'
| step_addresses locs :
    let m := ss_manager s in
    session_step s (set_manager s {| nxtPathID := nxtPathID m; remoteAddrs4 := remoteAddrs4 m; remoteAddrs6 := remoteAddrs6 m;
      advertisedLocAddrs := advertisedLocAddrs m; localAddrs := locs |})
| step_path_closed id p : ss_paths s !! id = Some p → session_step s (put_path s id (run_closed p))
| step_path_sent id p : ss_paths s !! id = Some p → session_step s (put_path s id (run_sent p))
| step_streams op m fc :
    let k := ss_packing s in
    sm_step (ss_params s) (pk_map k, pk_flow k) op = Some (m, fc) →
    session_step s (set_packing s {| pk_packer := pk_packer k; pk_framer := pk_framer k; pk_map := m; pk_flow := fc |})
| step_packet pkt s' r : handlePacket pkt s = Done s' r → session_step s s'
| step_crypto cs opener params :
    let h := ss_handshake s in
    session_step s (set_learned s {| handshakeComplete := handshakeComplete h; cryptoSetup := cs; hs_open := opener;
      hs_nonces := hs_nonces h; connectionParameters := params |} (ss_peer s) (ss_timing s))
| step_schedule s' r : scheduleSending s = Done s' r → session_step s s'
| step_close e s' r : closeLocal e s = Done s' r → session_step s s'
| step_close_path id s' r : closePath id true s = Done s' r → session_step s s'
| step_end c s' r : ss_close s = Some c → handleCloseError ω c s = Done s' r → session_step s s'.

Definition session_run : relation (session C) := rtc session_step.

(** * The invariant *)

(** The client has used all odd IDs for paths of its own: the next one takes the ID of another. *)
Definition exhausted (s : session C) : Prop :=
  ss_perspective s = PerspectiveClient ∧ ∀ i, (0 ≤ i < 128)%Z → is_Some (ss_paths s !! (2 * i + 1)%Z).

Record paths_ok (s : session C) : Prop := {
  po_initial : is_Some (ss_paths s !! InitialPathID);
  po_path id p : ss_paths s !! id = Some p →
    pathID p = id ∧ (1 ≤ next (generator p) ≤ 1 + 2 * Z.of_nat (questions s))%Z;
  po_next : ss_perspective s = PerspectiveClient →
    (nxtPathID (ss_manager s) mod 2 = 1 ∧ 0 ≤ nxtPathID (ss_manager s) < 256)%Z ∧
    ∀ i, (0 ≤ i < 128)%Z → is_Some (ss_paths s !! (2 * i + 1)%Z) ↔ (2 * i + 1 < nxtPathID (ss_manager s))%Z;
  po_sealed id n : (id, n) ∈ sealed s → ∃ p, ss_paths s !! id = Some p ∧ (n < next (generator p))%Z;
  po_unique : NoDup (sealed s)
}.

(** A path that has ended does not start again, and nothing takes the element out of its channel. *)
Definition stays (p p' : path C) : Prop := open p = false → open p' = false ∧ (sentPacket p = true → sentPacket p' = true).

#[export] Instance stays_preorder : PreOrder stays.
Proof using Type. split; [by intros p ?|]. intros p1 p2 p3 H12 H23 H. destruct (H12 H) as [H2 ?]. destruct (H23 H2). split; auto. Qed.
Lemma stays_same p p' : open p' = open p → sentPacket p' = sentPacket p → stays p p'.
Proof using Type. intros E1 E2 H. by rewrite E1, E2. Qed.

(** Paths stay, those that have ended have ended for good, and their packet numbers do not go back. *)
Definition paths_kept (s s' : session C) : Prop :=
  ∀ id p, ss_paths s !! id = Some p →
    ∃ p', ss_paths s' !! id = Some p' ∧ (pathID p' = pathID p ∧ stays p p') ∧ (next (generator p) ≤ next (generator p'))%Z.

Record grows (s s' : session C) : Prop := {
  gr_perspective : ss_perspective s' = ss_perspective s;
  gr_questions : questions s ≤ questions s';
  gr_dom id : is_Some (ss_paths s !! id) → is_Some (ss_paths s' !! id);
  gr_ok : ¬ exhausted s' → (Z.of_nat (questions s') < 2 ^ 61)%Z → paths_ok s → paths_ok s' ∧ paths_kept s s'
}.

Lemma exhausted_grows s s' : grows s s' → exhausted s → exhausted s'.
Proof using Type. intros [Hp _ Hd _] [He Hi]. split; [congruence|]. intros i Hi'. by apply Hd, Hi. Qed.

#[export] Instance grows_preorder : PreOrder grows.
Proof using Type.
  split.
  - intros s. split; try done. intros _ _ Hok. split; [done|]. intros id p Hp. exists p. by split_and!.
  - intros s1 s2 s3 H12 H23. pose proof H12 as [P12 Q12 D12 O12]. pose proof H23 as [P23 Q23 D23 O23].
    split; [congruence|lia|auto|]. intros Hex Hq Hok.
    destruct O12 as [Hok2 K12]; [by intros ?%(exhausted_grows s2 s3)|lia|done|]. destruct O23 as [Hok3 K23]; [done..|].
    split; [done|]. intros id p Hp. destruct (K12 id p Hp) as (p2 & Hp2 & [I2 S2] & N2). destruct (K23 id p2 Hp2) as (p3 & Hp3 & [I3 S3] & N3).
    exists p3. split; [done|]. split; [split; [congruence|by etransitivity]|lia].
Qed.

(** Nothing of it changes. *)
Lemma grows_same s s' :
  ss_paths s' = ss_paths s → nxtPathID (ss_manager s') = nxtPathID (ss_manager s) → ss_perspective s' = ss_perspective s →
  sealed s' = sealed s → questions s ≤ questions s' → grows s s'.
Proof using Type.
  intros Ep En Ev Es Hq. split; [done|done|by rewrite Ep|]. intros _ _ [H1 H2 H3 H4 H5]. split.
  - split; [by rewrite Ep| | |by rewrite Es, Ep|by rewrite Es].
    + intros id p. rewrite Ep. intros Hp. destruct (H2 id p Hp). split; [done|lia].
    + rewrite Ev, En, Ep. done.
  - intros id p Hp. exists p. rewrite Ep. by split_and!.
Qed.

(** A call of the packer: it may take the next number, and a packet it returns has taken it. *)
Definition path_advances (p p' : path C) (r : result PackError (option packedPacket)) : Prop :=
  (pathID p' = pathID p ∧ stays p p') ∧
  ((0 ≤ next (generator p))%Z → (next (generator p) + 2 < 2 ^ 64)%Z →
   (next (generator p) ≤ next (generator p') ≤ next (generator p) + 2)%Z ∧
   match r with
   | Ok (Some packet) => pp_number packet = next (generator p) ∧ (next (generator p) < next (generator p'))%Z
   | _ => True
   end).

(** One path is assigned, and a packet with its number may have been sealed. *)
Lemma grows_path s s' id p p' new :
  ss_paths s !! id = Some p → ss_paths s' = <[id := p']> (ss_paths s) → nxtPathID (ss_manager s') = nxtPathID (ss_manager s) →
  ss_perspective s' = ss_perspective s → sealed s' = sealed s ++ new → questions s ≤ questions s' → pathID p' = pathID p ∧ stays p p' →
  ((Z.of_nat (questions s') < 2 ^ 61)%Z → (1 ≤ next (generator p) ≤ 1 + 2 * Z.of_nat (questions s))%Z →
   (next (generator p) ≤ next (generator p') ≤ 1 + 2 * Z.of_nat (questions s'))%Z ∧
   (new = [] ∨ new = [(id, next (generator p))] ∧ (next (generator p) < next (generator p'))%Z)) →
  grows s s'.
Proof using Type.
  intros Hp Ep En Ev Es Hle [Hid' Hst] Hadv.
  assert (∀ i, is_Some (ss_paths s' !! i) ↔ is_Some (ss_paths s !! i)) as Hdom.
  { intros i. rewrite Ep. destruct (decide (i = id)) as [->|]; [rewrite lookup_insert_eq, Hp; by split; eexists|by rewrite lookup_insert_ne]. }
  split; [done|lia|by intros i ?; apply Hdom|]. intros _ Hq [H1 H2 H3 H4 H5]. destruct (H2 id p Hp) as [Hid Hn].
  destruct (Hadv Hq Hn) as [Hn' Hnew]. split.
  - split; [by apply Hdom| | | |].
    + intros i q. rewrite Ep. destruct (decide (i = id)) as [->|Hne].
      * rewrite lookup_insert_eq. intros [= <-]. split; [congruence|lia].
      * rewrite lookup_insert_ne by done. intros Hq'. destruct (H2 i q Hq'). split; [done|lia].
    + rewrite Ev, En. intros Hc. destruct (H3 Hc) as [? Hi]. split; [done|]. intros i Hi'. rewrite Hdom. by apply Hi.
    + intros i n. rewrite Es, Ep, elem_of_app. intros [Hin|Hin].
      * destruct (H4 i n Hin) as (q & Hq' & Hlt). destruct (decide (i = id)) as [->|Hne].
        -- exists p'. rewrite lookup_insert_eq. split; [done|]. rewrite Hp in Hq'. injection Hq' as <-. lia.
        -- exists q. by rewrite lookup_insert_ne.
      * destruct Hnew as [->|[-> Hlt]]; [by apply not_elem_of_nil in Hin|]. apply list_elem_of_singleton in Hin as [= -> ->].
        exists p'. by rewrite lookup_insert_eq.
    + rewrite Es. destruct Hnew as [->|[-> _]]; [by rewrite app_nil_r|]. apply NoDup_app. split; [done|]. split; [|apply NoDup_singleton].
      intros [i n] Hin Hs. apply list_elem_of_singleton in Hs as [= -> ->]. destruct (H4 _ _ Hin) as (q & Hq' & Hlt).
      rewrite Hp in Hq'. injection Hq' as <-. lia.
  - intros i q Hq'. rewrite Ep. destruct (decide (i = id)) as [->|Hne].
    + rewrite lookup_insert_eq. exists p'. rewrite Hp in Hq'. injection Hq' as <-. split; [done|]. split; [done|lia].
    + rewrite lookup_insert_ne by done. exists q. by split_and!.
Qed.
End steps.

(** * Packing *)

Definition same_packer (k k' : packing) : Prop :=
  pa_perspective (pk_packer k') = pa_perspective (pk_packer k).

Section packing.
Context {C : Type} `{!SendAlgorithm C}.

(** What a method of the packer does to the path and the packer. *)
Definition advances (op : pack_env → packing → path C → option (packing * path C * result PackError (option packedPacket))) : Prop :=
  ∀ e k p k' p' r, op e k p = Some (k', p', r) → path_advances p p' r ∧ same_packer k k'.

Lemma path_advances_refl (p : path C) r : match r with Ok (Some _) => False | _ => True end → path_advances p p r.
Proof using Type. intros Hr. split; [done|]. intros _ _. split; [lia|]. by destruct r as [[]|]. Qed.

Lemma writeAndSealPacket_advances e p h fs sealer (pth pth' : path C) r :
  writeAndSealPacket e p h fs sealer pth = Some (pth', r) →
  pth' = pth ∧ (∃ err, r = Err err) ∨
  pth' = set_generator pth (Pop (generator pth) (pe_drawn e)).1 ∧ ((∃ err, r = Err err) ∨ PacketNumber h = next (generator pth)).
Proof using Type.
  unfold writeAndSealPacket. destruct (write_PublicHeader _ _ _) as [[header [err|]]|]; cbn [mbind option_bind]; [|cbn [mbind option_bind]|done].
  { intros [= <- <-]. left. split; [done|by eexists]. }
  destruct (write_frames _ _ _) as [[payload [err|]]|]; cbn [mbind option_bind]; [|cbn [mbind option_bind]|done].
  { intros [= <- <-]. left. split; [done|by eexists]. }
  case_decide; [intros [= <- <-]; left; split; [done|by eexists]|].
  unfold Pop. cbv zeta. case_decide as Hd.
  - intros [= <- <-]. right. split; [done|]. left. by eexists.
  - intros [= <- <-]. right. split; [done|]. right. destruct (decide (next (generator pth) = PacketNumber h)); [done|by destruct Hd].
Qed.
Lemma pack_frames_advances e k level sealer h fs (pth : path C) k' pth' r :
  pack_frames e k level sealer h fs pth = Some (k', pth', r) → path_advances pth pth' r ∧ k' = k.
Proof using Type.
  unfold pack_frames. destruct (writeAndSealPacket _ _ _ _ _ _) as [[p w]|] eqn:E; [|done]. cbn [mbind option_bind].
  intros [= <- <- <-]. split; [|done].
  destruct (writeAndSealPacket_advances _ _ _ _ _ _ _ _ E) as [[-> [err ->]]|[-> Hw]]; [by apply path_advances_refl|].
  split; [done|]. intros H0 Hn. destruct (Pop_next (generator pth) (pe_drawn e) H0 Hn) as [Hp _]. cbn [set_generator set_handlers generator].
  split; [lia|]. destruct w as [raw|err]; [|done]. destruct Hw as [[err [=]]|Hw]. cbn [result_bind pp_number]. split; [done|lia].
Qed.

Lemma composeNextPacket_packer e k maxSize can id k' r :
  composeNextPacket e k maxSize can id = Some (k', r) → same_packer k k'.
Proof using Type.
  unfold composeNextPacket. destruct (add_lengths _ _) as [n|]; [|by intros [= <- _]].
  destruct (take_control _ _ _ _) as [[[queue fs] len] [err|]]; [by intros [= <- _]|].
  case_decide; [by intros [= <- _]|]. destruct (negb can); [by intros [= <- _]|].
  destruct (PopStreamFrames _ _ _ _ _) as [[[[f m] fc] res]|]; [|done]. cbn [mbind option_bind].
  destruct (requeue_blocked _ _ _) as [f' control]. by intros [= <- _].
Qed.
Lemma choose_payload_packer e k maxSize level id k' r :
  choose_payload e k maxSize level id = Some (k', r) → same_packer k k'.
Proof using Type.
  destruct (choose_payload_cases e k maxSize level id) as [(rest & _ & ->)| ->]; [by intros [= <- _]|]. apply composeNextPacket_packer.
Qed.

Lemma packCryptoPacket_advances : advances packCryptoPacket.
Proof using Type.
  intros e k p k' p' r. unfold packCryptoPacket. destruct (GetSealerForCryptoStream _) as [level sealer].
  destruct (GetLength _ _); [|intros [= <- <- <-]; by split; [apply path_advances_refl|]].
  destruct (PopCryptoStreamFrame _ _ _ _ _) as [[[m fc] [f|]]|]; cbn [mbind option_bind]; [|done|done].
  intros [Hadv ->]%pack_frames_advances. by split.
Qed.
Lemma PackPacket_advances : advances PackPacket.
Proof using Type.
  intros e k p k' p' r. unfold PackPacket. destruct (HasCryptoStreamFrame _ _ _ _) as [[[m fc] crypto]|]; [|done].
  cbn [mbind option_bind]. destruct crypto; [by intros E%packCryptoPacket_advances|]. destruct (GetSealer _) as [level sealer].
  destruct (GetLength _ _) as [len|]; [|intros [= <- <- <-]; by split; [apply path_advances_refl|]]. cbv zeta.
  destruct (choose_payload _ _ _ _ _) as [[k1 r1]|] eqn:E; [|done]. apply choose_payload_packer in E.
  cbn [mbind option_bind]. assert (same_packer k k1) as Hk by exact E. clear E.
  destruct r1 as [[|f fs]|err]; [intros [= <- <- <-]; by split; [apply path_advances_refl|]..| |intros [= <- <- <-]; by split; [apply path_advances_refl|]].
  case_decide; [intros [= <- <- <-]; by split; [apply path_advances_refl|]|].
  intros [Hadv ->]%pack_frames_advances. by split.
Qed.
Lemma PackPing_advances : advances PackPing.
Proof using Type.
  intros e k p k' p' r E%PackPacket_advances. destruct E as [[Hid Hn] Hk]. by split.
Qed.
Lemma PackConnectionClose_advances f : advances (λ e k p, PackConnectionClose e k f p).
Proof using Type.
  intros e k p k' p' r. unfold PackConnectionClose. destruct (GetSealer _) as [level sealer].
  intros [Hadv ->]%pack_frames_advances. by split.
Qed.
Lemma PackAckPacket_advances : advances PackAckPacket.
Proof using Type.
  intros e k p k' p' r. unfold PackAckPacket. destruct (pa_ackFrame _ !! _); [|intros [= <- <- <-]; by split; [apply path_advances_refl|]].
  destruct (GetSealer _) as [level sealer]. intros [Hadv ->]%pack_frames_advances. by split.
Qed.
Lemma PackHandshakeRetransmission_advances packet : advances (λ e k p, PackHandshakeRetransmission e k packet p).
Proof using Type.
  intros e k p k' p' r. unfold PackHandshakeRetransmission. case_decide; [intros [= <- <- <-]; by split; [apply path_advances_refl|]|].
  destruct (GetSealerWithEncryptionLevel _ _) as [sealer|]; [|intros [= <- <- <-]; by split; [apply path_advances_refl|]]. cbv zeta.
  destruct (pa_stopWaiting _ !! _); [|intros [= <- <- <-]; by split; [apply path_advances_refl|]].
  intros [Hadv ->]%pack_frames_advances. by split.
Qed.
End packing.
#[export] Hint Resolve PackPacket_advances PackPing_advances PackConnectionClose_advances PackAckPacket_advances
  PackHandshakeRetransmission_advances : session.

(** * Every operation keeps the paths *)

Section grows.
Context {C : Type} `{!SendAlgorithm C} (ω : surroundings C).
Implicit Types (s : session C) (id : Z).

(** Assignments to a path that leave its ID and its packet numbers. *)
Definition calm (f : path C → path C) : Prop := ∀ p, (pathID (f p) = pathID p ∧ stays p (f p)) ∧ generator (f p) = generator p.

Lemma grows_put s id p p' :
  ss_paths s !! id = Some p → pathID p' = pathID p ∧ stays p p' → generator p' = generator p → grows s (put_path s id p').
Proof using Type. intros Hp Hi Hg. eapply (grows_path _ _ id p p' []); [exact Hp|done..|cbn; by rewrite app_nil_r|done|done|].
  intros _ Hn. rewrite Hg. split; [cbn; lia|by left]. Qed.
Lemma on_path_grows id f : calm f → preserves grows (on_path id f).
Proof using Type.
  intros Hf s. apply the_path_keeps. intros p Hp. unfold keeps_at. cbn. destruct (Hf p). by eapply grows_put.
Qed.
Lemma modify_same f :
  (∀ s, ss_paths (f s) = ss_paths s ∧ nxtPathID (ss_manager (f s)) = nxtPathID (ss_manager s) ∧
        ss_perspective (f s) = ss_perspective s ∧ sealed (f s) = sealed s ∧ questions s ≤ questions (f s)) → preserves grows (modify f).
Proof using Type. intros Hf. apply preserves_modify. intros s. destruct (Hf s) as (? & ? & ? & ? & ?). by apply grows_same. Qed.

Lemma with_packer_grows id op : advances op → preserves grows (with_packer ω id op).
Proof using Type.
  intros Hop s. apply the_path_keeps. intros p Hp. unfold keeps_at, bind, ask, get. cbn.
  destruct (op _ _ p) as [[[k' p'] r]|] eqn:E; [|done]. destruct (Hop _ _ _ _ _ _ E) as [[Hid Hadv] Hk]. cbn.
  set (s1 := put_path (set_packing (set_outside s (written_out s) (S (questions s))) k') id p').
  assert (∀ s' new, ss_paths s' = ss_paths s1 → nxtPathID (ss_manager s') = nxtPathID (ss_manager s1) →
    ss_perspective s' = ss_perspective s1 → sealed s' = sealed s ++ new → questions s' = questions s1 →
    (match r with Ok (Some packet) => new = [] ∨ new = [(id, pp_number packet)] | _ => new = [] end) → grows s s') as H.
  { intros s' new E1 E2 E3 E4 E5 Hnew. eapply (grows_path s s' id p p' new); [exact Hp|by rewrite E1|by rewrite E2|by rewrite E3|done|
      rewrite E5; cbn; lia|done|]. intros Hq Hn. rewrite E5 in *. cbn [s1 questions put_path set_paths set_packing set_outside] in *.
    destruct (Hadv ltac:(lia) ltac:(lia)) as [Hr Hpk]. split; [lia|]. destruct r as [[packet|]|err]; [|by left..].
    destruct Hpk as [Epk Hlt]. destruct Hnew as [->| ->]; [by left|]. right. by rewrite Epk. }
  destruct r as [[packet|]|err]; cbn.
  - eapply H; [done..|by right].
  - eapply (H _ []); [done..|cbn; by rewrite app_nil_r|done|done].
  - eapply (H _ []); [done..|cbn; by rewrite app_nil_r|done|done].
Qed.
Lemma ask_grows : preserves grows (@ask C).
Proof using Type. intros s. unfold keeps_at. cbn. apply grows_same; cbn; try done. lia. Qed.
Lemma QueueControlFrame_packer p f id : pa_perspective (QueueControlFrame p f id) = pa_perspective p.
Proof using Type. by destruct f. Qed.
Lemma queue_frame_grows f id : preserves grows (queue_frame (C := C) f id).
Proof using Type. apply modify_same. intros s. split_and!; try done. apply QueueControlFrame_packer. Qed.
Lemma for_each_path_grows ids f : (∀ id, preserves grows (f id)) → preserves grows (for_each_path (C := C) ids f).
Proof using Type. apply preserves_for_each_path. typeclasses eauto. Qed.
End grows.

Ltac calm := first [apply on_path_grows; intros ?; split; [split; [reflexivity|first [by apply stays_same|by intros ?]]|reflexivity] | apply modify_same; intros ?; split_and!; reflexivity].
#[export] Hint Resolve ask_grows queue_frame_grows with_packer_grows grows_preorder : session.
#[export] Hint Extern 1 (preserves grows (on_path _ _)) => calm : session.
#[export] Hint Extern 1 (preserves grows (modify _)) => calm : session.

Section shared.
Context {C : Type} `{!SendAlgorithm C} (ω : surroundings C).

Lemma Now_grows : preserves grows (Now ω).
Proof using Type. unfold Now. preserve. Qed.
Hint Resolve Now_grows : session.
Lemma path_ids_grows : preserves grows (path_ids ω).
Proof using Type. unfold path_ids. preserve. Qed.
Lemma conn_Write_grows id raw : preserves grows (conn_Write ω id raw).
Proof using Type. unfold conn_Write. preserve. Qed.
Lemma notify_sent_grows id : preserves grows (notify_sent (C := C) id).
Proof using Type. unfold notify_sent. preserve. Qed.
Hint Resolve path_ids_grows conn_Write_grows notify_sent_grows : session.
Lemma sendPackedPacket_grows packet id : preserves grows (sendPackedPacket ω packet id).
Proof using Type. unfold sendPackedPacket. preserve. Qed.
Hint Resolve sendPackedPacket_grows : session.
Lemma sendPing_grows id : preserves grows (sendPing ω id).
Proof using Type. unfold sendPing. preserve. Qed.
Lemma getWindowUpdateFrames_grows force : preserves grows (getWindowUpdateFrames ω force).
Proof using Type.
  intros s. unfold keeps_at, getWindowUpdateFrames, bind, ask, get. cbn. destruct (GetWindowUpdates _ _ _ _) as [fc updates]. cbn.
  apply grows_same; try done. cbn. lia.
Qed.
Lemma on_framer_grows f : preserves grows (on_framer (C := C) f).
Proof using Type. unfold on_framer. preserve. Qed.
Hint Resolve sendPing_grows getWindowUpdateFrames_grows on_framer_grows : session.
Lemma schedulePathsFrame_grows : preserves grows (schedulePathsFrame ω).
Proof using Type. unfold schedulePathsFrame. preserve. Qed.
Lemma request_close_grows e : preserves grows (request_close (C := C) e).
Proof using Type. apply modify_same. intros s. by destruct (ss_close s). Qed.
End shared.
#[export] Hint Resolve Now_grows path_ids_grows conn_Write_grows notify_sent_grows sendPackedPacket_grows sendPing_grows
  getWindowUpdateFrames_grows on_framer_grows schedulePathsFrame_grows request_close_grows : session.

(** ** The path manager *)

(** A new path: the map had none with its ID. *)
Lemma grows_new {C} (s s' : session C) id p :
  ss_paths s !! id = None → ss_paths s' = <[id := p]> (ss_paths s) → ss_perspective s' = ss_perspective s →
  sealed s' = sealed s → questions s ≤ questions s' → pathID p = id → next (generator p) = 1%Z →
  (ss_perspective s = PerspectiveClient →
   nxtPathID (ss_manager s') = nxtPathID (ss_manager s) ∧ (id mod 2 = 0)%Z ∨
   nxtPathID (ss_manager s') = u8 (nxtPathID (ss_manager s) + 2) ∧ id = nxtPathID (ss_manager s)) →
  grows s s'.
Proof.
  intros Hid Ep Ev Es Hq Hi Hn Hnext.
  assert (∀ i, is_Some (ss_paths s' !! i) ↔ is_Some (ss_paths s !! i) ∨ i = id) as Hdom.
  { intros i. rewrite Ep. destruct (decide (i = id)) as [->|]; [rewrite lookup_insert_eq; naive_solver|rewrite lookup_insert_ne by done; naive_solver]. }
  split; [done|done|intros i ?; apply Hdom; by left|]. intros Hex Hb [H1 H2 H3 H4 H5]. split.
  - split; [apply Hdom; by left| | | |by rewrite Es].
    + intros i q. rewrite Ep. destruct (decide (i = id)) as [->|Hne].
      * rewrite lookup_insert_eq. intros [= <-]. split; [done|lia].
      * rewrite lookup_insert_ne by done. intros Hq'. destruct (H2 i q Hq'). split; [done|lia].
    + rewrite Ev. intros Hc. destruct (H3 Hc) as [[Hodd Hr] Hlt]. destruct (Hnext Hc) as [[-> Heven]|[-> ->]].
      * split; [done|]. intros i Hi'. rewrite Hdom, Hlt by done. split; [intros [?|E]; [done|]|by left].
        exfalso. rewrite <-E in Heven. revert Heven. rewrite Z.add_comm, Z.mul_comm, Z.mod_add by lia. done.
      * set (n := nxtPathID (ss_manager s)) in *.
        assert (n ≠ 255)%Z as Hne.
        { intros E. apply Hex. split; [congruence|]. intros i Hi'. apply Hdom.
          destruct (decide (i = 127)%Z) as [->|]; [right; lia|]. left. apply Hlt; lia. }
        assert (n = 2 * (n / 2) + 1)%Z as Hn2.
        { pose proof (Z.div_mod n 2 ltac:(lia)). lia. }
        rewrite u8_small by lia. split; [split; [|lia]|].
        { replace (n + 2)%Z with (n + 1 * 2)%Z by lia. by rewrite Z.mod_add by lia. }
        intros i Hi'. rewrite Hdom, Hlt by done.
        split; [intros [?|?]; lia|]. intros ?. destruct (decide (2 * i + 1 = n)%Z); [by right|left; lia].
    + intros i n. rewrite Es, Ep. intros Hin. destruct (H4 i n Hin) as (q & Hq' & Hlt). exists q. rewrite lookup_insert_ne; [done|]. congruence.
  - intros i q Hq'. rewrite Ep. destruct (decide (i = id)) as [->|Hne]; [congruence|]. rewrite lookup_insert_ne by done. by exists q.
Qed.

(** Nothing is claimed once the IDs are used up. *)
Lemma grows_exhausted {C} (s s' : session C) :
  ss_perspective s' = ss_perspective s → questions s ≤ questions s' → (∀ id, is_Some (ss_paths s !! id) → is_Some (ss_paths s' !! id)) →
  exhausted s → grows s s'.
Proof.
  intros Ev Hq Hd [Hc He]. split; [done..|]. intros []. split; [congruence|]. intros i Hi. by apply Hd, He.
Qed.

Section manager.
Context {C : Type} `{!SendAlgorithm C} (ω : surroundings C).

(** [createPath] with the ID after the last one: what the two updates make together. *)
Definition opened (id : Z) (c : connection) : M C () :=
  do! add_path ω id c in modify (λ s, set_manager s (set_next (ss_manager s) (u8 (id + 2)))).

Lemma opened_grows s c : ss_perspective s = PerspectiveClient → keeps_at grows (opened (nxtPathID (ss_manager s)) c) s.
Proof using Type.
  intros Hc. unfold keeps_at. cbn. set (id := nxtPathID (ss_manager s)).
  split; [done|cbn; lia|intros i Hi; cbn; apply lookup_insert_is_Some'; by right|]. intros Hex Hq Hok.
  destruct (po_next _ Hok Hc) as [[Hodd Hr] Hlt]. fold id in Hodd, Hr, Hlt.
  assert (id = 2 * (id / 2) + 1)%Z as Hn2 by (pose proof (Z.div_mod id 2 ltac:(lia)); lia).
  destruct (ss_paths s !! id) eqn:Hid.
  - exfalso. assert (is_Some (ss_paths s !! (2 * (id / 2) + 1)%Z)) as H by (rewrite <-Hn2, Hid; by eexists).
    apply Hlt in H; lia.
  - revert Hex Hq Hok. apply gr_ok. eapply (grows_new _ _ id); [exact Hid|done|done|done|cbn; lia|done|done|]. intros _. right. by split.
Qed.
Lemma add_remote_grows s id c :
  ss_paths s !! id = None → (ss_perspective s = PerspectiveClient → id mod 2 = 0)%Z → keeps_at grows (add_path ω id c) s.
Proof using Type.
  intros Hid Hev. unfold keeps_at. cbn.
  eapply (grows_new _ _ id); [exact Hid|done|done|done|cbn; lia|done|done|]. intros Hc. left. by split; [|apply Hev].
Qed.
End manager.

Section creating.
Context {C : Type} `{!SendAlgorithm C} (ω : surroundings C).

(** What only a client does. *)
Definition client_keeps {A} (m : M C A) : Prop := ∀ s, ss_perspective s = PerspectiveClient → keeps_at grows m s.
Lemma client_keeps_all {A} (m : M C A) : preserves grows m → client_keeps m.
Proof using Type. intros Hm s _. apply Hm. Qed.
Lemma client_keeps_bind {A B} (m : M C A) (f : A → M C B) :
  client_keeps m → (∀ a, client_keeps (f a)) → client_keeps (bind m f).
Proof using Type.
  intros Hm Hf s Hc. apply keeps_bind; [typeclasses eauto|by apply Hm|]. intros a s' E. apply Hf.
  specialize (Hm s Hc). unfold keeps_at in Hm. rewrite E in Hm. by rewrite (gr_perspective _ _ Hm).
Qed.

Lemma createPath_grows loc rem : client_keeps (createPath ω loc rem).
Proof using Type.
  intros s Hc. apply get_keeps. destruct (has_path s loc rem); [apply preserves_ret; typeclasses eauto|]. cbv zeta.
  set (id := nxtPathID (ss_manager s)).
  change (keeps_at grows (bind (opened ω id {| LocalAddr := loc; RemoteAddr := rem |}) (λ _, sendPing ω id)) s).
  apply keeps_bind; [typeclasses eauto|by apply opened_grows|]. intros _ s' _. apply sendPing_grows.
Qed.
Lemma create_to_grows loc rems : client_keeps (create_to ω loc rems).
Proof using Type.
  induction rems as [|rem rems IH]; [apply client_keeps_all; cbn; preserve|]. apply client_keeps_bind; [apply createPath_grows|by intros _].
Qed.
Lemma create_from_grows locs : client_keeps (create_from ω locs).
Proof using Type.
  induction locs as [|loc locs IH]; [apply client_keeps_all; cbn; preserve|]. intros s Hc. apply get_keeps.
  generalize (if decide (getIPVersion (addr_IP loc) = 4%Z) then remoteAddrs4 (ss_manager s) else remoteAddrs6 (ss_manager s)).
  intros rems. revert s Hc. apply client_keeps_bind; [apply create_to_grows|by intros _].
Qed.
Lemma advertise_grows addrs : preserves grows (advertise (C := C) addrs).
Proof using Type. induction addrs as [|a addrs IH]; cbn; preserve. Qed.
Lemma createPaths_grows : preserves grows (createPaths ω).
Proof using Type.
  intros s. apply get_keeps. destruct (ss_perspective s) eqn:Hc.
  - apply advertise_grows.
  - generalize (localAddrs (ss_manager s)). intros locs. revert s Hc.
    apply client_keeps_bind; [apply create_from_grows|intros _; apply client_keeps_all, schedulePathsFrame_grows].
Qed.
End creating.
#[export] Hint Resolve createPaths_grows : session.

Section remote.
Context {C : Type} `{!SendAlgorithm C} (ω : surroundings C).

Lemma createPathFromRemote_grows pkt : preserves grows (createPathFromRemote ω pkt).
Proof using Type.
  intros s. apply get_keeps. cbv zeta. set (id := HPathID (publicHeader pkt)).
  case_decide as H1; [apply preserves_throw; typeclasses eauto|]. case_decide as H2; [apply preserves_throw; typeclasses eauto|].
  case_decide; [apply preserves_throw; typeclasses eauto|].
  apply keeps_bind; [typeclasses eauto| |intros _ s' _; apply preserves_ret; typeclasses eauto].
  apply add_remote_grows; [by apply eq_None_not_Some|]. intros Hc. destruct (decide (id mod 2 = 0)%Z); [done|by destruct H2].
Qed.
Lemma handleAddAddressFrame_grows f : preserves grows (handleAddAddressFrame ω f).
Proof using Type. unfold handleAddAddressFrame. preserve. Qed.

Lemma grows_fmap s s' (f : path C → path C) :
  calm f → ss_paths s' = f <$> ss_paths s →
  nxtPathID (ss_manager s') = nxtPathID (ss_manager s) → ss_perspective s' = ss_perspective s → sealed s' = sealed s → questions s' = questions s →
  grows s s'.
Proof using Type.
  intros Hf Ep En Ev Es Eq.
  assert (∀ i, is_Some (ss_paths s' !! i) ↔ is_Some (ss_paths s !! i)) as Hdom.
  { intros i. rewrite Ep, lookup_fmap. apply fmap_is_Some. }
  split; [done|lia|intros i ?; by apply Hdom|]. intros _ _ [H1 H2 H3 H4 H5]. split.
  - split; [by apply Hdom| | | |by rewrite Es].
    + intros i q. rewrite Ep, lookup_fmap. destruct (ss_paths s !! i) as [p|] eqn:E; [|done]. intros [= <-].
      destruct (Hf p) as [[-> _] ->]. rewrite Eq. by apply H2.
    + rewrite Ev, En. intros Hc. destruct (H3 Hc) as [? Hi]. split; [done|]. intros i ?. rewrite Hdom. by apply Hi.
    + intros i n. rewrite Es, Ep. intros Hin. destruct (H4 i n Hin) as (q & Hq & Hlt). exists (f q). rewrite lookup_fmap, Hq.
      destruct (Hf q) as [_ ->]. done.
  - intros i p Hp. exists (f p). rewrite Ep, lookup_fmap, Hp. destruct (Hf p) as [[-> ?] ->]. by split_and!.
Qed.
Lemma request_path_close_calm : calm (request_path_close (C := C)).
Proof using Type. intros p. unfold request_path_close. destruct (open p) eqn:Ho; split; try split; try done. by apply stays_same. Qed.
Lemma run_closed_calm : calm (run_closed (C := C)).
Proof using Type. intros p. unfold run_closed. destruct (closeChan p); split; try split; try done. Qed.
Lemma pm_closePath_grows id : preserves grows (pm_closePath (C := C) id).
Proof using Type.
  apply preserves_modify. intros s. destruct (ss_paths s !! id) as [p|] eqn:E; [|reflexivity].
  destruct (request_path_close_calm p). by eapply grows_put.
Qed.
Lemma pm_closePaths_grows : preserves grows (pm_closePaths (C := C)).
Proof using Type. apply preserves_modify. intros s. eapply grows_fmap; [apply request_path_close_calm|done..]. Qed.
Hint Resolve pm_closePaths_grows : session.
Lemma pm_handshakeCompleted_grows : preserves grows (pm_handshakeCompleted ω).
Proof using Type. unfold pm_handshakeCompleted. preserve. Qed.
Lemma pm_changePaths_grows : preserves grows (pm_changePaths ω).
Proof using Type. unfold pm_changePaths. preserve. Qed.
End remote.
#[export] Hint Resolve createPathFromRemote_grows handleAddAddressFrame_grows pm_closePath_grows pm_closePaths_grows : session.

(** ** The scheduler *)

Section scheduler.
Context {C : Type} `{!SendAlgorithm C} (ω : surroundings C).

Lemma dequeue_grows ids : preserves grows (dequeue (C := C) ids).
Proof using Type. induction ids as [|id ids IH]; cbn; preserve. Qed.
Lemma resend_frame_grows id f : preserves grows (resend_frame ω id f).
Proof using Type. unfold resend_frame. preserve. Qed.
Hint Resolve dequeue_grows resend_frame_grows : session.
Lemma resend_frames_grows id fs : preserves grows (resend_frames ω id fs).
Proof using Type. induction fs as [|f fs IH]; cbn; preserve. Qed.
Hint Resolve resend_frames_grows : session.
Lemma retransmit_loop_grows fuel has from : preserves grows (retransmit_loop ω fuel has from).
Proof using Type. revert has from. induction fuel as [|fuel IH]; intros has from; cbn; preserve. Qed.
Hint Resolve retransmit_loop_grows : session.
Lemma getRetransmission_grows : preserves grows (getRetransmission ω).
Proof using Type. unfold getRetransmission. preserve. Qed.
Lemma only_path_grows has : preserves grows (only_path (C := C) has).
Proof using Type. unfold only_path. preserve. Qed.
Lemma low_latency_turn_grows has ch id : preserves grows (low_latency_turn (C := C) has ch id).
Proof using Type. unfold low_latency_turn. preserve. Qed.
Hint Resolve only_path_grows low_latency_turn_grows : session.
Lemma low_latency_loop_grows has ids ch : preserves grows (low_latency_loop (C := C) has ids ch).
Proof using Type. revert ch. induction ids as [|id ids IH]; intros ch; cbn; preserve. Qed.
Hint Resolve low_latency_loop_grows : session.
Lemma selectPath_grows has strm from : preserves grows (selectPath ω has strm from).
Proof using Type. unfold selectPath, selectPathLowLatency. preserve. Qed.
Lemma queue_updates_grows wufs id : preserves grows (queue_updates (C := C) wufs id).
Proof using Type. induction wufs as [|f wufs IH]; cbn; preserve. Qed.
Hint Resolve queue_updates_grows : session.
Lemma performPacketSending_grows wufs id : preserves grows (performPacketSending ω wufs id).
Proof using Type. unfold performPacketSending, count_quota. preserve. Qed.
Lemma get_ack_frame_grows id : preserves grows (get_ack_frame ω id).
Proof using Type.
  apply preserves_bind; [typeclasses eauto|apply Now_grows|]. intros now s. apply the_path_keeps. intros p Hp. unfold keeps_at, path_GetAckFrame.
  destruct (GetAckFrame _ _) as [[r ack]|]; [|done]. cbn. by eapply grows_put.
Qed.
Lemma get_stop_waiting_grows id force : preserves grows (get_stop_waiting (C := C) id force).
Proof using Type.
  intros s. apply the_path_keeps. intros p Hp. unfold keeps_at, path_GetStopWaitingFrame.
  destruct (sent_GetStopWaitingFrame _ _) as [h f]. cbn. by eapply grows_put.
Qed.
Hint Resolve getRetransmission_grows selectPath_grows performPacketSending_grows get_ack_frame_grows get_stop_waiting_grows : session.
Lemma queue_stop_grows id f : preserves grows (queue_stop (C := C) id f).
Proof using Type. unfold queue_stop. preserve. Qed.
Lemma queue_ack_frame_grows id f : preserves grows (queue_ack_frame (C := C) id f).
Proof using Type. unfold queue_ack_frame. preserve. Qed.
Hint Resolve queue_stop_grows queue_ack_frame_grows : session.
Lemma ack_path_grows wufs id : preserves grows (ack_path ω wufs id).
Proof using Type.
  unfold ack_path. preserve. match goal with |- context [match ?ack with Some _ => PackAckPacket | None => PackPacket end] => destruct ack end; preserve.
Qed.
Hint Resolve ack_path_grows for_each_path_grows : session.
Lemma ackRemainingPaths_grows wufs : preserves grows (ackRemainingPaths ω wufs).
Proof using Type. unfold ackRemainingPaths. preserve. Qed.
Lemma foldl_queue_packer id fs p : pa_perspective (foldl (λ p f, QueueControlFrame p f id) p fs) = pa_perspective p.
Proof using Type. revert p. induction fs as [|f fs IH]; intros p; [done|]. cbn. rewrite IH. apply QueueControlFrame_packer. Qed.
Lemma queue_framer_frames_grows id : preserves grows (queue_framer_frames (C := C) id).
Proof using Type.
  unfold queue_framer_frames. preserve. apply modify_same. intros s. split_and!; try done. apply foldl_queue_packer.
Qed.
Lemma maybe_duplicate_grows id packet : preserves grows (maybe_duplicate ω id packet).
Proof using Type. unfold maybe_duplicate. preserve. Qed.
Hint Resolve ackRemainingPaths_grows queue_framer_frames_grows maybe_duplicate_grows : session.
Lemma send_turn_grows wufs : preserves grows (send_turn ω wufs).
Proof using Type. unfold send_turn. preserve. Qed.
Lemma update_least_unacked_grows ids : preserves grows (update_least_unacked (C := C) ids).
Proof using Type. induction ids as [|id ids IH]; cbn; preserve. Qed.
Hint Resolve update_least_unacked_grows : session.
Lemma sendPacket_start_grows : preserves grows (sendPacket_start ω).
Proof using Type. unfold sendPacket_start. preserve. Qed.
Lemma sending_grows wufs s o : sending ω wufs s o → match o with Done s' _ => grows s s' | _ => True end.
Proof using Type.
  induction 1 as [wufs s s' E|wufs s s' e E|wufs s E|wufs s E|wufs s s' wufs' o E _ IH]; try done;
    pose proof (preserves_done _ _ _ _ _ (send_turn_grows wufs) E) as Hg; [done|done|].
  destruct o as [s'' r| |]; [|done..]. by etransitivity.
Qed.
Lemma sendPacket_grows s s' r : sendPacket ω s (Done s' r) → grows s s'.
Proof using Type.
  intros Hs. inversion Hs as [s1 wufs o E Hsend|]; subst. apply sending_grows in Hsend.
  pose proof (preserves_done _ _ _ _ _ sendPacket_start_grows E). by etransitivity.
Qed.
End scheduler.
#[export] Hint Resolve sendPacket_start_grows for_each_path_grows : session.

(** ** The session *)

Section session.
Context {C : Type} `{!SendAlgorithm C} (ω : surroundings C).

Lemma set_streams_flow_grows m fc : preserves grows (set_streams_flow (C := C) m fc).
Proof using Type. unfold set_streams_flow. preserve. Qed.
Hint Resolve set_streams_flow_grows : session.
Lemma get_or_open_grows sid : preserves grows (get_or_open (C := C) sid).
Proof using Type. unfold get_or_open. preserve. Qed.
Lemma put_stream_grows sid str fc : preserves grows (put_stream (C := C) sid str fc).
Proof using Type. unfold put_stream. preserve. Qed.
Hint Resolve get_or_open_grows put_stream_grows : session.
Lemma handleStreamFrame_grows f : preserves grows (handleStreamFrame (C := C) f).
Proof using Type. unfold handleStreamFrame. preserve. Qed.
Lemma handleWindowUpdateFrame_grows f : preserves grows (handleWindowUpdateFrame (C := C) f).
Proof using Type. unfold handleWindowUpdateFrame. preserve. Qed.
Lemma scheduleSending_grows : preserves grows (scheduleSending (C := C)).
Proof using Type. unfold scheduleSending. preserve. Qed.
Hint Resolve scheduleSending_grows : session.
Lemma queueResetStreamFrame_grows sid offset : preserves grows (queueResetStreamFrame (C := C) sid offset).
Proof using Type. unfold queueResetStreamFrame. preserve. Qed.
Hint Resolve queueResetStreamFrame_grows : session.
Lemma handleRstStreamFrame_grows f : preserves grows (handleRstStreamFrame (C := C) f).
Proof using Type. unfold handleRstStreamFrame. preserve. Qed.
Lemma handleAckFrame_grows f : preserves grows (handleAckFrame ω f).
Proof using Type. unfold handleAckFrame. preserve. Qed.
Lemma closePath_grows id notify : preserves grows (closePath (C := C) id notify).
Proof using Type. unfold closePath. preserve. Qed.
Hint Resolve closePath_grows : session.
Lemma handleClosePathFrame_grows f : preserves grows (handleClosePathFrame ω f).
Proof using Type. unfold handleClosePathFrame. preserve. Qed.
Lemma learn_rtts_grows n ids rtts : preserves grows (learn_rtts (C := C) n ids rtts).
Proof using Type. revert ids rtts. induction n as [|n IH]; intros ids rtts; cbn; preserve. Qed.
Hint Resolve handleStreamFrame_grows handleWindowUpdateFrame_grows handleRstStreamFrame_grows handleAckFrame_grows
  handleClosePathFrame_grows learn_rtts_grows : session.
Lemma handle_frame_grows id f : preserves grows (handle_frame ω id f).
Proof using Type. unfold handle_frame, closeRemote. preserve. Qed.
Hint Resolve handle_frame_grows : session.
Lemma handleFrames_grows id fs : preserves grows (handleFrames ω id fs).
Proof using Type. induction fs as [|f fs IH]; cbn; preserve. Qed.
Hint Resolve handleFrames_grows : session.
Lemma path_handlePacketImpl_grows id pkt : preserves grows (path_handlePacketImpl ω id pkt).
Proof using Type. unfold path_handlePacketImpl. preserve. Qed.
Lemma note_activity_grows now : preserves grows (note_activity (C := C) now).
Proof using Type. unfold note_activity. preserve. Qed.
Lemma SetDiversificationNonce_grows nonce : preserves grows (SetDiversificationNonce (C := C) nonce).
Proof using Type. unfold SetDiversificationNonce. preserve. Qed.
Hint Resolve path_handlePacketImpl_grows note_activity_grows SetDiversificationNonce_grows : session.
Lemma handlePacketImpl_grows pkt : preserves grows (handlePacketImpl ω pkt).
Proof using Type. unfold handlePacketImpl. preserve. Qed.
Lemma handlePacket_grows pkt : preserves grows (handlePacket (C := C) pkt).
Proof using Type. apply modify_same. intros s. by case_decide. Qed.
Lemma tryQueueingUndecryptablePacket_grows pkt : preserves grows (tryQueueingUndecryptablePacket ω pkt).
Proof using Type. unfold tryQueueingUndecryptablePacket. preserve. Qed.
Hint Resolve handlePacketImpl_grows handlePacket_grows tryQueueingUndecryptablePacket_grows : session.
Lemma handle_again_grows pkts : preserves grows (handle_again (C := C) pkts).
Proof using Type. induction pkts as [|pkt pkts IH]; cbn; preserve. Qed.
Hint Resolve handle_again_grows : session.
Lemma tryDecryptingQueuedPackets_grows : preserves grows (tryDecryptingQueuedPackets (C := C)).
Proof using Type. unfold tryDecryptingQueuedPackets. preserve. Qed.
Lemma path_OnAlarm_grows id : preserves grows (path_OnAlarm ω id).
Proof using Type.
  unfold path_OnAlarm. preserve. apply on_path_grows. intros p. unfold onRTO. by case_decide.
Qed.
Hint Resolve tryDecryptingQueuedPackets_grows path_OnAlarm_grows : session.
Lemma take_event_grows ev : preserves grows (take_event ω ev).
Proof using Type. unfold take_event, closeLocal. preserve. Qed.
Lemma queue_pings_grows ids : preserves grows (queue_pings (C := C) ids).
Proof using Type. induction ids as [|id ids IH]; cbn; preserve. Qed.
Hint Resolve take_event_grows queue_pings_grows : session.
Lemma before_sending_grows now timer : preserves grows (before_sending ω now timer).
Proof using Type. unfold before_sending. preserve. Qed.
Lemma check_timeouts_grows now : preserves grows (check_timeouts (C := C) now).
Proof using Type. unfold check_timeouts, closeLocal. preserve. Qed.
Hint Resolve before_sending_grows check_timeouts_grows : session.
Lemma after_sending_grows now : preserves grows (after_sending ω now).
Proof using Type. unfold after_sending. preserve. Qed.
Hint Resolve after_sending_grows : session.
Lemma turn_start_grows ev : preserves grows (turn_start ω ev).
Proof using Type. unfold turn_start. preserve. Qed.
Lemma turn_end_grows now e : preserves grows (turn_end ω now e).
Proof using Type. unfold turn_end, closeLocal. preserve. Qed.
Lemma run_turn_grows ev s s' : run_turn ω ev s s' → grows s s'.
Proof using Type.
  intros [s1 E|s1 now s2 r s3 u E1 E2 E3]; [by eapply preserves_done; [apply turn_start_grows|]|].
  etransitivity; [by eapply preserves_done; [apply turn_start_grows|]|]. etransitivity; [by eapply sendPacket_grows|].
  by eapply preserves_done; [apply turn_end_grows|].
Qed.
Lemma handleCloseError_grows c : preserves grows (handleCloseError ω c).
Proof using Type.
  unfold handleCloseError, closePaths, sendPublicReset, sendConnectionClose. preserve.
  apply preserves_modify. intros s. eapply grows_fmap; [apply run_closed_calm|done..].
Qed.

Lemma session_step_grows s s' : session_step ω s s' → grows s s'.
Proof using Type.
  destruct 1 as [ev s' Hr|s' r E|s' r E|locs m|id p Hp|id p Hp|op m fc k E|pkt s' r E|cs opener params h|s' r E|e s' r E|id s' r E|c s' r _ E].
  - by eapply run_turn_grows.
  - by eapply preserves_done; [apply pm_handshakeCompleted_grows|].
  - by eapply preserves_done; [apply pm_changePaths_grows|].
  - by apply grows_same.
  - destruct (run_closed_calm p). by eapply grows_put.
  - unfold run_sent. eapply grows_put; [exact Hp| |by destruct (open p)]. destruct (open p) eqn:Ho; (split; [done|]); [|done]. intros ?; congruence.
  - by apply grows_same.
  - by eapply preserves_done; [apply handlePacket_grows|].
  - by apply grows_same.
  - by eapply preserves_done; [apply scheduleSending_grows|].
  - by eapply preserves_done; [apply request_close_grows|].
  - by eapply preserves_done; [apply closePath_grows|].
  - by eapply preserves_done; [apply handleCloseError_grows|].
Qed.
Lemma session_run_grows s s' : session_run ω s s' → grows s s'.
Proof using Type. induction 1 as [s|s s1 s' Hstep _ IH]; [done|]. apply session_step_grows in Hstep. by etransitivity. Qed.
End session.

(** * Properties *)

Section setup.
Context {C : Type} `{!SendAlgorithm C} (ω : surroundings C).

Lemma session_setup_ok cf pers version cid c locs ms mc idle cs opener (s : session C) :
  session_setup ω cf pers version cid c locs ms mc idle cs opener = Some s → paths_ok s.
Proof using Type.
  unfold session_setup. destruct (open_crypto_stream _ _) as [[m fc]|]; [|done]. cbn [mbind option_bind]. intros [= <-].
  split; cbn [ss_paths ss_manager ss_packing sealed questions].
  - by exists (setup InitialPathID c version (new_congestion ω 0 InitialPathID) (clock ω 0)).
  - intros id p [<- <-]%lookup_singleton_Some. cbn. lia.
  - unfold ss_perspective. cbn. intros ->. split; [done|]. intros i Hi. split; [|lia].
    intros [q [E _]%lookup_singleton_Some]. unfold InitialPathID in E. lia.
  - by intros id n ?%not_elem_of_nil.
  - constructor.
Qed.
End setup.

(** C4: No packet number is used twice on a path.  Over any run of a session, with its turns, its path manager, its
    streams, setup and application acting in any order, the packets it seals are told apart by path and
    number; paths are never removed or replaced, each is found under its own
    ID, the initial one is always there, and their next numbers do not go back.  The one exception is a
    client that has given all 128 odd IDs to paths of its own. *)
Theorem numbers_never_reused {C} `{!SendAlgorithm C} (ω : surroundings C) cf pers version cid c locs ms mc idle cs opener s0 s s' :
  session_setup ω cf pers version cid c locs ms mc idle cs opener = Some s0 →
  session_run ω s0 s → session_run ω s s' → ¬ exhausted s' → (Z.of_nat (questions s') < 2 ^ 61)%Z →
  NoDup (sealed s') ∧ is_Some (ss_paths s' !! InitialPathID) ∧
  (∀ id n, (id, n) ∈ sealed s' → ∃ p, ss_paths s' !! id = Some p ∧ (n < next (generator p))%Z) ∧
  ∀ id p, ss_paths s !! id = Some p → pathID p = id ∧
    ∃ p', ss_paths s' !! id = Some p' ∧ pathID p' = id ∧ (next (generator p) ≤ next (generator p'))%Z.
Proof.
  intros H0%session_setup_ok Hs%session_run_grows Hs'%session_run_grows Hex Hq. pose proof (gr_questions _ _ Hs').
  destruct (gr_ok _ _ Hs) as [Hok _]; [by intros ?%(exhausted_grows s s')|lia|done|].
  destruct (gr_ok _ _ Hs') as [Hok' Hk]; [done..|]. split; [apply Hok'|]. split; [apply Hok'|]. split; [apply (po_sealed _ Hok')|].
  intros id p Hp. destruct (po_path _ Hok id p Hp) as [Hid _]. split; [done|]. destruct (Hk id p Hp) as (p' & ? & [? _] & ?).
  exists p'. split; [done|]. split; [congruence|done].
Qed.

(** What [sendPackedPacket] does on a path that has ended. *)
Lemma sendPackedPacket_ended {C} `{!SendAlgorithm C} (ω : surroundings C) s id p packet h e :
  ss_paths s !! id = Some p → open p = false → SentPacket (sent p) (as_Packet packet) (clock ω (questions s)) = (h, e) →
  let s1 := put_path (set_outside s (written_out s) (S (questions s))) id (set_sent p h) in
  sendPackedPacket ω packet id s =
    match e with
    | Some e => Done s1 (Err (SeSent e))
    | None => if sentPacket p then Blocks else conn_Write ω id (pp_raw packet) (put_path s1 id (set_sentPacket (set_sent p h) true))
    end.
Proof.
  intros Hp Ho E. cbv zeta. set (s0 := set_outside s (written_out s) (S (questions s))). assert (ss_paths s0 !! id = Some p) as Hp0 by done.
  unfold sendPackedPacket. rewrite (bind_done (Now ω) _ s s0 (clock ω (questions s))) by done.
  rewrite (bind_done _ _ _ _ _ (the_path_eq id s0 p Hp0)), E. cbn match.
  rewrite (bind_done _ _ _ _ _ (on_path_eq id (λ p, set_sent p h) s0 p Hp0)). destruct e as [e|]; [done|].
  set (s1 := put_path s0 id (set_sent p h)). assert (ss_paths s1 !! id = Some (set_sent p h)) as Hp1 by apply put_path_lookup.
  unfold bind at 1, notify_sent. rewrite (bind_done _ _ _ _ _ (the_path_eq id s1 _ Hp1)). cbn [sentPacket open set_sent set_handlers].
  rewrite Ho. destruct (sentPacket p); [done|]. cbn [andb negb]. by rewrite (on_path_eq id _ s1 _ Hp1).
Qed.
Lemma conn_Write_paths {C} (ω : surroundings C) id raw (s s' : session C) r : conn_Write ω id raw s = Done s' r → ss_paths s' = ss_paths s.
Proof.
  unfold conn_Write, ask, bind, get. cbn. destruct (ss_paths s !! id); [|done]. cbn.
  match goal with |- context [if ?b then _ else _] => destruct b end; by intros [= <- _].
Qed.

(** C39: A closed path can stop the session for good.  Over any run of a session, a path that has ended stays ended, and
    the element that [sendPackedPacket] puts in its channel of one stays there.  The first packet sent on
    such a path leaves one there; from then on, whatever the session does, every further packet that the
    sent-packet handler takes blocks it.  Nothing keeps [ackRemainingPaths] from sending on such a path
    ([sample_closed_path_blocks]). *)
Theorem closed_path_blocks {C} `{!SendAlgorithm C} (ω : surroundings C) cf pers version cid c locs ms mc idle cs opener s0 s id p :
  session_setup ω cf pers version cid c locs ms mc idle cs opener = Some s0 → session_run ω s0 s →
  ss_paths s !! id = Some p → open p = false →
  (∀ packet s', sendPackedPacket ω packet id s = Done s' (Ok ()) →
     ∃ p', ss_paths s' !! id = Some p' ∧ open p' = false ∧ sentPacket p' = true) ∧
  (sentPacket p = true → ∀ s', session_run ω s s' → ¬ exhausted s' → (Z.of_nat (questions s') < 2 ^ 61)%Z →
     ∃ p', ss_paths s' !! id = Some p' ∧ open p' = false ∧
       ∀ packet, (SentPacket (sent p') (as_Packet packet) (clock ω (questions s'))).2 = None → sendPackedPacket ω packet id s' = Blocks).
Proof.
  intros H0%session_setup_ok Hs%session_run_grows Hp Ho. split.
  - intros packet s'. destruct (SentPacket (sent p) (as_Packet packet) (clock ω (questions s))) as [h e] eqn:E.
    rewrite (sendPackedPacket_ended ω s id p packet h e Hp Ho E). destruct e; [done|]. destruct (sentPacket p); [done|].
    intros ->%conn_Write_paths. eexists. split; [apply put_path_lookup|]. by split.
  - intros Hf s' Hs'%session_run_grows Hex Hq. pose proof (gr_questions _ _ Hs').
    destruct (gr_ok _ _ Hs) as [Hok _]; [by intros ?%(exhausted_grows s s')|lia|done|].
    destruct (gr_ok _ _ Hs') as [_ Hk]; [done..|]. destruct (Hk id p Hp) as (p' & Hp' & [_ Hst] & _).
    destruct (Hst Ho) as [Ho' Hf']. exists p'. split; [done|]. split; [done|]. intros packet He.
    destruct (SentPacket (sent p') _ _) as [h e] eqn:E. cbn in He. subst e.
    by rewrite (sendPackedPacket_ended ω s' id p' packet h None Hp' Ho' E), (Hf' Hf).
Qed.

(** A client whose IDs have run out replaces its path 1 by a new one, which counts its packets from 1 again. *)
Lemma path_ids_run_out {C} `{!SendAlgorithm C} (ω : surroundings C) s c :
  nxtPathID (ss_manager s) = 255%Z →
  match opened ω 255 c s with
  | Done s' _ =>
      nxtPathID (ss_manager s') = 1%Z ∧
      match opened ω (nxtPathID (ss_manager s')) c s' with
      | Done s2 _ => (λ p, next (generator p)) <$> ss_paths s2 !! 1%Z = Some 1%Z
      | _ => False
      end
  | _ => False
  end.
Proof. intros _. cbn. split; [done|]. by rewrite lookup_insert_eq. Qed.

(** ** Witness *)

(** When its handshake has completed the client creates path 1 and sends a PING on it. *)
Lemma sample_client_run :
  match sample_setup PerspectiveClient with
  | Some s0 =>
      match pm_handshakeCompleted sample_surroundings s0 with
      | Done s' (Ok _) => ss_paths s' !! 3%Z = None ∧ sealed s' = [(1, 1)]%Z ∧ (Z.of_nat (questions s') < 2 ^ 61)%Z
      | _ => False
      end
  | None => False
  end.
Proof. vm_compute. by split_and!. Qed.

Lemma numbers_never_reused_witness :
  match sample_setup PerspectiveClient with
  | Some s0 => ∃ s', session_run sample_surroundings s0 s' ∧ sealed s' = [(1, 1)]%Z ∧ is_Some (ss_paths s' !! InitialPathID)
  | None => False
  end.
Proof.
  pose proof sample_client_run as H. destruct (sample_setup PerspectiveClient) as [s0|] eqn:E0; [|destruct H].
  destruct (pm_handshakeCompleted sample_surroundings s0) as [s' [r|e]| |] eqn:E1; [|destruct H..].
  destruct H as (H1 & H2 & H3).
  assert (session_run sample_surroundings s0 s') as Hrun.
  { eapply rtc_once, step_handshakeCompleted. exact E1. }
  exists s'. split; [exact Hrun|]. split; [exact H2|].
  eapply (numbers_never_reused sample_surroundings _ _ _ _ _ _ _ _ _ _ _ s0 s0 s' E0); [apply rtc_refl|exact Hrun| |exact H3].
  intros [_ Hx]. destruct (Hx 1%Z) as [p Hp]; [lia|]. change (2 * 1 + 1)%Z with 3%Z in Hp. rewrite H1 in Hp. discriminate Hp.
Defined.

(** A turn is computed: the loop of [sendPacket] ends within [fuel] turns. *)
Fixpoint send_turns {C} `{!SendAlgorithm C} (ω : surroundings C) (fuel : nat) (wufs : list WindowUpdateFrame) (s : session C) : option (session C) :=
  match fuel with
  | O => None
  | S fuel =>
      match send_turn ω wufs s with
      | Done s' (Ok None) => Some s'
      | Done s' (Ok (Some wufs')) => send_turns ω fuel wufs' s'
      | _ => None
      end
  end.
Definition whole_turn {C} `{!SendAlgorithm C} (ω : surroundings C) (fuel : nat) (ev : run_event) (s : session C) : option (session C) :=
  match turn_start ω ev s with
  | Done s1 (Ok (Some now)) =>
      match sendPacket_start ω s1 with
      | Done s2 (Ok wufs) =>
          s3 ← send_turns ω fuel wufs s2;
          match turn_end ω now None s3 with Done s4 _ => Some s4 | _ => None end
      | _ => None
      end
  | _ => None
  end.
Lemma send_turns_sending {C} `{!SendAlgorithm C} (ω : surroundings C) fuel wufs s s' :
  send_turns ω fuel wufs s = Some s' → sending ω wufs s (Done s' (Ok ())).
Proof.
  revert wufs s. induction fuel as [|fuel IH]; intros wufs s; [done|]. cbn [send_turns].
  destruct (send_turn ω wufs s) as [s1 [[wufs'|]|e]| |] eqn:E; [|by intros [= ->]; apply sending_ends|done..].
  intros H%IH. by eapply sending_on.
Qed.
Lemma whole_turn_run {C} `{!SendAlgorithm C} (ω : surroundings C) fuel ev s s' : whole_turn ω fuel ev s = Some s' → run_turn ω ev s s'.
Proof.
  unfold whole_turn. destruct (turn_start ω ev s) as [s1 [[now|]|]| |] eqn:E1; [|done..].
  destruct (sendPacket_start ω s1) as [s2 [wufs|]| |] eqn:E2; [|done..].
  destruct (send_turns ω fuel wufs s2) as [s3|] eqn:E3; [|done]. cbn [mbind option_bind].
  destruct (turn_end ω now None s3) as [s4 u| |] eqn:E4; [|done..]. intros [= <-].
  apply (turn_sends _ _ _ s1 now s3 (Ok ()) s4 u E1); [|exact E4].
  apply (sendPacket_run _ _ s2 wufs); [exact E2|]. by eapply send_turns_sending.
Qed.

(** A client gets a CLOSE_PATH frame for path 1, on which it has sent a PING; the path ends before its timer is reset. *)
Definition sample_close_frame : Frame := FClosePath {| CPathID := 1; CLargestAcked := 1; CLowestAcked := 1; CAckRanges := [] |}.
Definition sample_closed : option (session fixedWindow * session fixedWindow * session fixedWindow * session fixedWindow) :=
  s0 ← sample_setup PerspectiveClient;
  '(_, pkt) ← sample_packet [sample_close_frame];
  match pm_handshakeCompleted sample_surroundings s0 with
  | Done s1 _ =>
      match handlePacket pkt s1 with
      | Done s2 _ => s3 ← whole_turn sample_surroundings 20 EvReceived s2; Some (s0, s1, s2, s3)
      | _ => None
      end
  | _ => None
  end.
Lemma sample_closed_run s0 s1 s2 s3 :
  sample_closed = Some (s0, s1, s2, s3) → sample_setup PerspectiveClient = Some s0 ∧ session_run sample_surroundings s0 s3.
Proof.
  unfold sample_closed. destruct (sample_setup PerspectiveClient) as [s|]; [|done]. cbn [mbind option_bind].
  destruct (sample_packet _) as [[packet pkt]|]; [|done]. cbn [mbind option_bind].
  destruct (pm_handshakeCompleted sample_surroundings s) as [t1 r1| |] eqn:E1; [|done..].
  destruct (handlePacket pkt t1) as [t2 r2| |] eqn:E2; [|done..]. destruct (whole_turn _ _ _ t2) as [t3|] eqn:E3; [|done].
  cbn [mbind option_bind]. intros [= <- <- <- <-]. split; [done|].
  eapply rtc_l; [by eapply step_handshakeCompleted|]. eapply rtc_l; [by eapply step_packet|].
  apply rtc_once. apply (step_turn _ _ EvReceived). by eapply whole_turn_run.
Qed.

Definition sample_ping : packedPacket := {| pp_number := 9; pp_raw := [x07]; pp_frames := [FPing]; pp_level := EncryptionForwardSecure |}.
Lemma sample_closed_facts :
  match sample_closed with
  | Some (_, _, _, s3) =>
      match ss_paths s3 !! 1%Z with
      | Some p =>
          let s4 := put_path s3 1 (run_closed p) in
          (open p = true ∧ open (run_closed p) = false ∧ sentPacket (run_closed p) = true) ∧ ss_paths s4 !! 3%Z = None ∧
          (Z.of_nat (questions s4) < 2 ^ 61)%Z ∧
          (SentPacket (sent (run_closed p)) (as_Packet sample_ping) (clock sample_surroundings (questions s4))).2 = None
      | None => False
      end
  | None => False
  end.
Proof. vm_compute. by split_and!. Qed.

Lemma closed_path_blocks_witness :
  match sample_closed with
  | Some (s0, _, _, s3) =>
      ∃ p, ss_paths s3 !! 1%Z = Some p ∧ open p = true ∧
        sendPackedPacket sample_surroundings sample_ping 1 (put_path s3 1 (run_closed p)) = Blocks
  | None => False
  end.
Proof.
  pose proof sample_closed_facts as H. destruct sample_closed as [[[[s0 s1] s2] s3]|] eqn:E; [|destruct H].
  destruct (sample_closed_run s0 s1 s2 s3 E) as [E0 Hrun]. destruct (ss_paths s3 !! 1%Z) as [p|] eqn:Hp; [|destruct H]. cbv zeta in H.
  set (s4 := put_path s3 1 (run_closed p)) in *. destruct H as ((Hopen & Ho & Hf) & H3 & Hq & He).
  assert (session_run sample_surroundings s0 s4) as Hrun4.
  { etransitivity; [exact Hrun|]. apply rtc_once. apply step_path_closed. exact Hp. }
  assert (ss_paths s4 !! 1%Z = Some (run_closed p)) as Hp4 by apply put_path_lookup.
  exists p. split; [reflexivity|]. split; [exact Hopen|].
  destruct (closed_path_blocks sample_surroundings _ _ _ _ _ _ _ _ _ _ _ s0 s4 1 (run_closed p) E0 Hrun4 Hp4 Ho) as [_ T].
  destruct (T Hf s4) as (p' & Hp' & _ & Hblocks); [apply rtc_refl| |exact Hq|].
  - intros [_ Hx]. destruct (Hx 1%Z) as [q Hq']; [lia|]. change (2 * 1 + 1)%Z with 3%Z in Hq'. rewrite H3 in Hq'. discriminate Hq'.
  - rewrite Hp4 in Hp'. injection Hp' as <-. apply Hblocks. exact He.
Defined.
