(* ===== verification/KeyDerivation.v ===== *)
(** Keys of encrypted packets (src/mp-quic/internal/crypto: curve_25519.go,
    key_derivation_quic_crypto.go, key_derivation.go, aesgcm12_aead.go, aesgcm_aead.go).

    The primitives are the record [primitives], with what the code relies on as the class
    [PrimitiveLaws]: Curve25519 and HKDF of golang.org/x/crypto, AES-GCM with tags of 12 bytes
    (aes12) and of 16 (crypto/cipher), and encoding/asn1.  What is modelled is how the code uses them: which
    bytes go into a key, whose key is whose, and the nonce of a packet. *)

From Stdlib Require Import ZArith Lia.
From Stdlib Require Import Strings.Byte Strings.String.
From stdpp Require Import prelude numbers list.
From S2P Require Import Prelude ByteOrder Protocol Wire ReceivedPackets AckCodec PublicHeader NullAEAD.

Open Scope Z_scope.

Record primitives : Type := {
  ScalarMult : list byte → list byte → list byte;
  ScalarBaseMult : list byte → list byte;
  (** The reader of [hkdf.New] with SHA-256: its bytes, for a secret, a salt and an info. *)
  hkdf_byte : list byte → list byte → list byte → nat → byte;
  (** Seal and open with a key and a nonce: tags of 12 bytes, and of 16. *)
  gcm12_Seal : list byte → list byte → list byte → list byte → list byte;
  gcm12_Open : list byte → list byte → list byte → list byte → option (list byte);
  gcm_Seal : list byte → list byte → list byte → list byte → list byte;
  gcm_Open : list byte → list byte → list byte → list byte → option (list byte);
  (** [encoding/asn1] for a structure of bytes and an integer of 64 bits. *)
  asn1_Marshal : list byte * Z → list byte;
  asn1_Unmarshal : list byte → option (list byte * Z * list byte)
}.

Class PrimitiveLaws (P : primitives) : Prop := {
  length_scalar_mult a b : length (ScalarMult P a b) = 32%nat;
  length_scalar_base a : length (ScalarBaseMult P a) = 32%nat;
  scalar_mult_comm a b : length a = 32%nat → length b = 32%nat →
    ScalarMult P a (ScalarBaseMult P b) = ScalarMult P b (ScalarBaseMult P a);
  gcm12_opens k n p a : zlen k = 16 → zlen n = 12 → gcm12_Open P k n (gcm12_Seal P k n p a) a = Some p;
  gcm12_overhead k n p a : zlen (gcm12_Seal P k n p a) = zlen p + 12;
  gcm_opens k n p a : zlen k = 16 ∨ zlen k = 24 ∨ zlen k = 32 → n ≠ [] → gcm_Open P k n (gcm_Seal P k n p a) a = Some p;
  gcm_overhead k n p a : zlen (gcm_Seal P k n p a) = zlen p + 16;
  asn1_unmarshals d n : - 2 ^ 63 ≤ n < 2 ^ 63 → asn1_Unmarshal P (asn1_Marshal P (d, n)) = Some (d, n, []);
  asn1_length d n : zlen d ≤ 100 → - 2 ^ 63 ≤ n < 2 ^ 63 → zlen (asn1_Marshal P (d, n)) ≤ zlen d + 20
}.

Inductive CryptoError : Type :=
| errPublicKeyLength | errKeyLength | errExporter
| errSTKTooShort | errSTKInvalid | errRandom.

(** [b &= m] and [b |= m] of a byte *)
Definition byte_and (b : byte) (m : Z) : byte := byte_of (Z.land (byte_val b) m).
Definition byte_or (b : byte) (m : Z) : byte := byte_of (Z.lor (byte_val b) m).
Definition byte_xor (a b : byte) : byte := byte_of (Z.lxor (byte_val a) (byte_val b)).

Section keys.
Context (P : primitives).

(** * Key exchange *)

Record KeyExchange : Type := { kex_secret : list byte; PublicKey : list byte }.

(** The private key made of 32 random bytes. *)
Definition clamp (drawn : list byte) : list byte :=
  alter (λ b, byte_and b 248) 0%nat (alter (λ b, byte_or (byte_and b 127) 64) 31%nat drawn).
Definition NewCurve25519KEX (drawn : list byte) : KeyExchange :=
  {| kex_secret := clamp drawn; PublicKey := ScalarBaseMult P (clamp drawn) |}.

Definition CalculateSharedKey (c : KeyExchange) (otherPublic : list byte) : result CryptoError (list byte) :=
  if decide (zlen otherPublic ≠ 32) then Err errPublicKeyLength else Ok (ScalarMult P (kex_secret c) otherPublic).

(** * AEADs *)

Definition of_open (r : option (list byte)) : result AEADError (list byte) :=
  match r with Some data => Ok data | None => Err ErrAuthentication end.

Definition makeNonce12 (iv : list byte) (packetNumber : Z) : list byte := iv ++ le_bytes 8 (u64 packetNumber).
Definition NewAEADAESGCM12 (otherKey myKey otherIV myIV : list byte) : result CryptoError AEAD :=
  if decide (zlen myKey ≠ 16 ∨ zlen otherKey ≠ 16 ∨ zlen myIV ≠ 4 ∨ zlen otherIV ≠ 4) then Err errKeyLength
  else Ok {|
    aead_Open := λ src packetNumber associatedData,
      of_open (gcm12_Open P otherKey (makeNonce12 otherIV packetNumber) src associatedData);
    Seal := λ src packetNumber associatedData, gcm12_Seal P myKey (makeNonce12 myIV packetNumber) src associatedData;
    Overhead := 12
  |}.

Definition ivLen : Z := 12.
Definition makeNonce (iv : list byte) (packetNumber : Z) : list byte :=
  zip_with byte_xor (replicate 4 x00 ++ be_bytes 8 (u64 packetNumber)) iv.
(** AES takes keys of 16, 24 and 32 bytes. *)
Definition aes_key (key : list byte) : bool := bool_decide (zlen key = 16 ∨ zlen key = 24 ∨ zlen key = 32).
Definition NewAEADAESGCM (otherKey myKey otherIV myIV : list byte) : result CryptoError AEAD :=
  if decide (zlen otherIV ≠ ivLen ∨ zlen myIV ≠ ivLen) then Err errKeyLength
  else if negb (aes_key myKey) || negb (aes_key otherKey) then Err errKeyLength
  else Ok {|
    aead_Open := λ src packetNumber associatedData,
      of_open (gcm_Open P otherKey (makeNonce otherIV packetNumber) src associatedData);
    Seal := λ src packetNumber associatedData, gcm_Seal P myKey (makeNonce myIV packetNumber) src associatedData;
    Overhead := 16
  |}.

(** * Derivation *)

(** [n] bytes of the reader from [off] on. *)
Definition hkdf_read (secret salt info : list byte) (off n : nat) : list byte := hkdf_byte P secret salt info <$> seq off n.

Definition diversify (key iv divNonce : list byte) : list byte * list byte :=
  let secret := key ++ iv in
  let info := list_byte_of_string "QUIC key diversification" in
  (hkdf_read secret divNonce info 0 (length key), hkdf_read secret divNonce info (length key) (length iv)).

Definition expansion_label (forwardSecure : bool) : list byte :=
  list_byte_of_string (if forwardSecure then "QUIC forward secure key expansion" else "QUIC key expansion") ++ [x00].
(** Other key, my key, other IV, my IV. *)
Definition deriveKeys (forwardSecure : bool) (sharedSecret nonces : list byte) (connID : Z) (chlo scfg cert divNonce : list byte)
    (keyLen : nat) (swap : bool) : list byte * list byte * list byte * list byte :=
  let info := expansion_label forwardSecure ++ le_bytes 8 (u64 connID) ++ chlo ++ scfg ++ cert in
  let s := hkdf_read sharedSecret nonces info 0 (2 * keyLen + 2 * 4) in
  let key1 := take keyLen s in
  let key2 := take keyLen (drop keyLen s) in
  let iv1 := take 4 (drop (2 * keyLen) s) in
  let iv2 := drop (2 * keyLen + 4) s in
  let '(key2, iv2) := if forwardSecure then (key2, iv2) else diversify key2 iv2 divNonce in
  if swap then (key2, key1, iv2, iv1) else (key1, key2, iv1, iv2).

Definition DeriveQuicCryptoAESKeys (forwardSecure : bool) (sharedSecret nonces : list byte) (connID : Z)
    (chlo scfg cert divNonce : list byte) (pers : Perspective) : result CryptoError AEAD :=
  let '(otherKey, myKey, otherIV, myIV) :=
    deriveKeys forwardSecure sharedSecret nonces connID chlo scfg cert divNonce 16 (bool_decide (pers = PerspectiveClient)) in
  NewAEADAESGCM12 otherKey myKey otherIV myIV.

(** ** TLS: keys exported by mint *)

Record MintController : Type := {
  ComputeExporter : string → option (list byte);
  HkdfExpandLabel : list byte → string → Z → list byte;
  KeyLength : Z; IVLength : Z
}.
Definition exporter_label (p : Perspective) : string :=
  match p with
  | PerspectiveClient => "EXPORTER-QUIC client 1-RTT Secret"
  | PerspectiveServer => "EXPORTER-QUIC server 1-RTT Secret"
  end.
Definition computeKeyAndIV (mc : MintController) (label : string) : result CryptoError (list byte * list byte) :=
  match ComputeExporter mc label with
  | None => Err errExporter
  | Some secret => Ok (HkdfExpandLabel mc secret "key" (KeyLength mc), HkdfExpandLabel mc secret "iv" (IVLength mc))
  end.
Definition DeriveAESKeys (mc : MintController) (pers : Perspective) : result CryptoError AEAD :=
  let* (myKey, myIV) := computeKeyAndIV mc (exporter_label pers) in
  let* (otherKey, otherIV) := computeKeyAndIV mc (exporter_label (other_side pers)) in
  NewAEADAESGCM otherKey myKey otherIV myIV.

Close Scope Z_scope.

(** * Both sides get the same keys *)

Context `{!PrimitiveLaws P}.

Lemma length_clamp drawn : length (clamp drawn) = length drawn.
Proof using Type. unfold clamp. by rewrite !length_alter. Qed.

Lemma kex_agree d1 d2 : length d1 = 32 → length d2 = 32 →
  CalculateSharedKey (NewCurve25519KEX d1) (PublicKey (NewCurve25519KEX d2)) =
    Ok (ScalarMult P (clamp d1) (ScalarBaseMult P (clamp d2))) ∧
  CalculateSharedKey (NewCurve25519KEX d2) (PublicKey (NewCurve25519KEX d1)) =
    Ok (ScalarMult P (clamp d1) (ScalarBaseMult P (clamp d2))).
Proof using Type*.
  intros H1 H2. unfold CalculateSharedKey. cbn [NewCurve25519KEX PublicKey kex_secret]. unfold zlen.
  rewrite !length_scalar_base, !decide_False by (by intros []). split; [done|]. by rewrite scalar_mult_comm by by rewrite length_clamp.
Qed.

Lemma length_hkdf_read secret salt info off n : length (hkdf_read secret salt info off n) = n.
Proof using Type. unfold hkdf_read. by rewrite length_fmap, length_seq. Qed.

(** A key and an IV for each direction. *)
Lemma deriveKeys_sides fs secret nonces cid chlo scfg cert div :
  ∃ k1 k2 iv1 iv2,
    deriveKeys fs secret nonces cid chlo scfg cert div 16 false = (k1, k2, iv1, iv2) ∧
    deriveKeys fs secret nonces cid chlo scfg cert div 16 true = (k2, k1, iv2, iv1) ∧
    length k1 = 16 ∧ length k2 = 16 ∧ length iv1 = 4 ∧ length iv2 = 4.
Proof using Type.
  unfold deriveKeys. set (s := hkdf_read secret nonces _ 0 (2 * 16 + 2 * 4)).
  assert (length s = 40) as Hs by apply length_hkdf_read.
  assert (length (take 16 s) = 16) by (rewrite length_take; lia).
  assert (length (take 16 (drop 16 s)) = 16) as H2 by (rewrite length_take, length_drop; lia).
  assert (length (take 4 (drop (2 * 16) s)) = 4) by (rewrite length_take, length_drop; lia).
  assert (length (drop (2 * 16 + 4) s) = 4) as H4 by (rewrite length_drop; lia).
  destruct fs; [by eexists _, _, _, _|]. unfold diversify. eexists _, _, _, _. split_and!; try done; by rewrite length_hkdf_read.
Qed.

Lemma gcm12_laws k1 k2 iv1 iv2 s c :
  NewAEADAESGCM12 k1 k2 iv1 iv2 = Ok s → NewAEADAESGCM12 k2 k1 iv2 iv1 = Ok c → AEADLaws s c.
Proof using Type*.
  unfold NewAEADAESGCM12. case_decide as Hl; [done|]. intros [= <-]. case_decide; [done|]. intros [= <-].
  split; intros p n a; cbn [aead_Open Seal Overhead].
  - rewrite gcm12_opens; [done|lia|]. unfold makeNonce12. rewrite zlen_app. unfold zlen at 2. rewrite length_le_bytes. lia.
  - apply gcm12_overhead.
Qed.

Lemma makeNonce_nonempty iv n : zlen iv = ivLen → makeNonce iv n ≠ [].
Proof using Type. destruct iv; [done|]. done. Qed.
Lemma gcm_laws k1 k2 iv1 iv2 s c :
  NewAEADAESGCM k1 k2 iv1 iv2 = Ok s → NewAEADAESGCM k2 k1 iv2 iv1 = Ok c → AEADLaws s c.
Proof using Type*.
  unfold NewAEADAESGCM. case_decide as Hl; [done|]. destruct (negb _ || negb _) eqn:Hk; [done|]. intros [= <-].
  case_decide; [done|]. destruct (negb (aes_key k1) || _); [done|]. intros [= <-].
  apply orb_false_iff in Hk as [Hk%negb_false_iff%bool_decide_eq_true _].
  split; intros p n a; cbn [aead_Open Seal Overhead].
  - rewrite gcm_opens; [done|tauto|]. apply makeNonce_nonempty. lia.
  - apply gcm_overhead.
Qed.

(** What one side seals the other opens, once both have derived their keys from the same handshake. *)
Lemma derived_match fs secret nonces cid chlo scfg cert div :
  ∃ s c,
    DeriveQuicCryptoAESKeys fs secret nonces cid chlo scfg cert div PerspectiveServer = Ok s ∧
    DeriveQuicCryptoAESKeys fs secret nonces cid chlo scfg cert div PerspectiveClient = Ok c ∧ AEADLaws s c ∧ AEADLaws c s.
Proof using Type*.
  destruct (deriveKeys_sides fs secret nonces cid chlo scfg cert div) as (k1 & k2 & iv1 & iv2 & Es & Ec & H1 & H2 & H3 & H4).
  unfold DeriveQuicCryptoAESKeys. rewrite bool_decide_false, Es by done. rewrite bool_decide_true, Ec by done.
  assert (∃ s, NewAEADAESGCM12 k1 k2 iv1 iv2 = Ok s) as [s Hs].
  { unfold NewAEADAESGCM12, zlen. rewrite H1, H2, H3, H4, decide_False by lia. by eexists. }
  assert (∃ c, NewAEADAESGCM12 k2 k1 iv2 iv1 = Ok c) as [c Hc].
  { unfold NewAEADAESGCM12, zlen. rewrite H1, H2, H3, H4, decide_False by lia. by eexists. }
  exists s, c. split_and!; [done|done|by eapply gcm12_laws..].
Qed.

Lemma tls_match mc s c : DeriveAESKeys mc PerspectiveServer = Ok s → DeriveAESKeys mc PerspectiveClient = Ok c → AEADLaws s c ∧ AEADLaws c s.
Proof using Type*.
  unfold DeriveAESKeys. cbn [other_side]. destruct (computeKeyAndIV mc (exporter_label PerspectiveServer)) as [[k1 i1]|]; [|done].
  destruct (computeKeyAndIV mc (exporter_label PerspectiveClient)) as [[k2 i2]|]; [|done]. cbn [result_bind].
  intros Hs Hc. by split; eapply gcm_laws.
Qed.

(** Different packet numbers, different nonces. *)
Lemma makeNonce12_inj iv n m : (0 ≤ n < 2 ^ 64)%Z → (0 ≤ m < 2 ^ 64)%Z → makeNonce12 iv n = makeNonce12 iv m → n = m.
Proof using Type.
  intros Hn Hm E. apply app_inv_head in E. apply (f_equal le_val) in E. by rewrite !u64_small, !le_val_bytes in E by (simpl; lia).
Qed.
End keys.
