(* ===== verification/ServerConfig.v ===== *)
(** Server configs and source-address tokens (src/mp-quic/internal/handshake: server_config.go,
    server_config_client.go, cookie_generator.go, ephermal_cache.go, tags.go;
    internal/crypto/source_address_token.go; the default check of a cookie in server.go).

    A server config tells a client the server's public key.  A token proves that a client gets
    what is sent to its address.  Random bytes are arguments, [None] where the random source
    fails; a time is in nanoseconds since the epoch.  Addresses are those of UDP; what
    [String()] shows of one is its shortest form. *)

From Stdlib Require Import ZArith Lia.
From Stdlib Require Import Strings.Byte Strings.String.
From stdpp Require Import prelude numbers list gmap sorting.
From S2P Require Import Prelude ByteOrder Protocol Wire ReceivedPackets AckCodec PublicHeader PacketUnpacker Handshake NullAEAD KeyDerivation.
From S2P Require Import RTTStats SentPackets PacketNumberGenerator Path.

Open Scope Z_scope.

Definition TagCHLO : Z := tag4 "C" "H" "L" "O".
Definition TagREJ : Z := tag4 "R" "E" "J" x00.
Definition TagSCFG : Z := tag4 "S" "C" "F" "G".
Definition TagPAD : Z := tag4 "P" "A" "D" x00.
Definition TagSNI : Z := tag4 "S" "N" "I" x00.
Definition TagVER : Z := tag4 "V" "E" "R" x00.
Definition TagCCS : Z := tag4 "C" "C" "S" x00.
Definition TagCCRT : Z := tag4 "C" "C" "R" "T".
Definition TagSVID : Z := tag4 "S" "V" "I" "D".
Definition TagPDMD : Z := tag4 "P" "D" "M" "D".
Definition TagFHL2 : Z := tag4 "F" "H" "L" "2".
Definition TagNSTP : Z := tag4 "N" "S" "T" "P".
Definition TagSTK : Z := tag4 "S" "T" "K" x00.
Definition TagSNO : Z := tag4 "S" "N" "O" x00.
Definition TagPROF : Z := tag4 "P" "R" "O" "F".
Definition TagNONC : Z := tag4 "N" "O" "N" "C".
Definition TagXLCT : Z := tag4 "X" "L" "C" "T".
Definition TagSCID : Z := tag4 "S" "C" "I" "D".
Definition TagKEXS : Z := tag4 "K" "E" "X" "S".
Definition TagAEAD : Z := tag4 "A" "E" "A" "D".
Definition TagPUBS : Z := tag4 "P" "U" "B" "S".
Definition TagOBIT : Z := tag4 "O" "B" "I" "T".
Definition TagEXPY : Z := tag4 "E" "X" "P" "Y".
Definition TagCERT : Z := 0xff545243.
Definition TagSHLO : Z := tag4 "S" "H" "L" "O".

Definition InvalidCryptoMessageParameter : Z := 34.
Definition CryptoMessageParameterNotFound : Z := 35.
Definition CryptoNoSupport : Z := 40.

Inductive HandshakeError : Type :=
| HeQuic (code : Z) | HeWire (e : WireError) | HeCrypto (e : CryptoError) | HeParam (e : ParamError)
| errMessageNotServerConfig
| errNoObitForClientNonce | errClientNonceAlreadyExists | errConflictingDiversificationNonces
| HeCert (what : list byte)
| errTLSHandshake (alert : Z)
| errHOL | errNSTP.

Definition of_crypto {A} (r : result CryptoError A) : result HandshakeError A :=
  match r with Ok a => Ok a | Err e => Err (HeCrypto e) end.
Definition drawn_bytes (r : option (list byte)) : result HandshakeError (list byte) :=
  match r with Some bs => Ok bs | None => Err (HeCrypto errRandom) end.

Section config.
Context (P : primitives).

(** * The server's side *)

Record ServerConfig : Type := { scfg_kex : KeyExchange; scfg_ID : list byte; scfg_obit : list byte }.

Definition NewServerConfig (kex : KeyExchange) (id obit : option (list byte)) : result HandshakeError ServerConfig :=
  let* id := drawn_bytes id in
  let* obit := drawn_bytes obit in
  Ok {| scfg_kex := kex; scfg_ID := id; scfg_obit := obit |}.

Definition config_message (s : ServerConfig) : HandshakeMessage := {|
  MTag := TagSCFG;
  MData := <[TagSCID := scfg_ID s]> (<[TagKEXS := list_byte_of_string "C255"]> (<[TagAEAD := list_byte_of_string "AESG"]>
    (<[TagPUBS := [x20; x00; x00] ++ PublicKey (scfg_kex s)]> (<[TagOBIT := scfg_obit s]> (<[TagEXPY := replicate 8 xff]> ∅)))))
|}.
Definition scfg_Get (s : ServerConfig) : option (list byte) := write_HandshakeMessage (config_message s).

(** * The client's side *)

Record serverConfigClient : Type := {
  sc_raw : list byte; sc_ID : list byte; sc_obit : list byte; sc_expiry : Z; sc_kex : KeyExchange; sc_sharedSecret : list byte
}.

(** The index of the first four bytes that are [name]. *)
Fixpoint find_name (name : list byte) (n : nat) (value : list byte) : option nat :=
  match n with
  | O => None
  | S n => if decide (take 4 value = name) then Some O else S <$> find_name name n (drop 4 value)
  end.

(** The public values, each behind its length of three bytes; one byte of [pubs] at least is taken
    in a turn. *)
Fixpoint split_pubs (fuel : nat) (pubs : list byte) : result HandshakeError (list (list byte)) :=
  match fuel with
  | O => Ok []
  | S fuel =>
      if decide (zlen pubs ≤ 3) then Ok []
      else
        let last_len := le_val (take 3 pubs) in
        if decide (last_len = 0) then Err (HeQuic CryptoInvalidValueLength)
        else if decide (zlen pubs < 3 + last_len) then Err (HeQuic CryptoInvalidValueLength)
        else
          let* others := split_pubs fuel (drop (Z.to_nat (3 + last_len)) pubs) in
          Ok (take (Z.to_nat last_len) (drop 3 pubs) :: others)
  end.

Definition need (tagMap : gmap Z (list byte)) (tag : Z) : result HandshakeError (list byte) :=
  match tagMap !! tag with Some v => Ok v | None => Err (HeQuic CryptoMessageParameterNotFound) end.
Definition check (b : bool) (code : Z) : result HandshakeError () := if b then Ok () else Err (HeQuic code).

Definition MaxInt64 : Z := 2 ^ 63 - 1.

Definition parseValues (raw : list byte) (tagMap : gmap Z (list byte)) (drawn : option (list byte)) :
    result HandshakeError serverConfigClient :=
  let* id := need tagMap TagSCID in
  let* _ := check (bool_decide (zlen id = 16)) CryptoInvalidValueLength in
  let* kexs := need tagMap TagKEXS in
  let* _ := check (bool_decide (zlen kexs mod 4 = 0)) CryptoInvalidValueLength in
  match find_name (list_byte_of_string "C255") (length kexs / 4) kexs with
  | None => Err (HeQuic CryptoNoSupport)
  | Some c255Foundat =>
      let* aead := need tagMap TagAEAD in
      let* _ := check (bool_decide (zlen aead mod 4 = 0)) CryptoInvalidValueLength in
      let* _ := check (bool_decide (is_Some (find_name (list_byte_of_string "AESG") (length aead / 4) aead))) CryptoNoSupport in
      let* pubs := need tagMap TagPUBS in
      let* pubs_kexs := split_pubs (length pubs) pubs in
      match pubs_kexs !! c255Foundat with
      | None => Err (HeQuic CryptoMessageParameterNotFound)
      | Some pub =>
          let* _ := check (bool_decide (zlen pub = 32)) CryptoInvalidValueLength in
          let* drawn := drawn_bytes drawn in
          let kex := NewCurve25519KEX P drawn in
          let* sharedSecret := of_crypto (CalculateSharedKey P kex pub) in
          let* obit := need tagMap TagOBIT in
          let* _ := check (bool_decide (zlen obit = 8)) CryptoInvalidValueLength in
          let* expy := need tagMap TagEXPY in
          let* _ := check (bool_decide (zlen expy = 8)) CryptoInvalidValueLength in
          Ok {| sc_raw := raw; sc_ID := id; sc_obit := obit; sc_expiry := Z.min (le_val expy) (Z.quot MaxInt64 2);
                sc_kex := kex; sc_sharedSecret := sharedSecret |}
      end
  end.

Definition parseServerConfig (data : list byte) (drawn : option (list byte)) : result HandshakeError serverConfigClient :=
  match ParseHandshakeMessage data with
  | Err e => Err (HeWire e)
  | Ok (message, _) => if decide (MTag message ≠ TagSCFG) then Err errMessageNotServerConfig else parseValues data (MData message) drawn
  end.

Definition IsExpired (s : serverConfigClient) (now : Z) : bool := bool_decide (sc_expiry s * Second < now).

(** * Source-address tokens *)

Definition stkNonceSize : Z := 16.
Definition stk_NewToken (key data : list byte) (drawn : option (list byte)) : result CryptoError (list byte) :=
  match drawn with None => Err errRandom | Some nonce => Ok (nonce ++ gcm_Seal P key nonce data []) end.
Definition stk_DecodeToken (key p : list byte) : result CryptoError (list byte) :=
  if decide (zlen p < stkNonceSize) then Err errSTKTooShort
  else match gcm_Open P key (take 16 p) (drop 16 p) [] with Some data => Ok data | None => Err errSTKInvalid end.

(** [deriveKey] of the secret the source has drawn. *)
Definition stk_key (secret : list byte) : list byte :=
  hkdf_read P secret [] (list_byte_of_string "QUIC source address token key") 0 16.

(** What an address prints as. *)
Definition ip_text (ip : list byte) : list byte := default ip (To4 ip).
Inductive cookie_addr : Type := CookieIP (text : list byte) | CookieString (text : list byte).
Record Cookie : Type := { CookieAddr : cookie_addr; SentTime : Z }.

Definition encodeRemoteAddr (a : UDPAddr) : list byte := x00 :: addr_IP a.
Definition decodeRemoteAddr (data : list byte) : cookie_addr :=
  match data with
  | [] => CookieString []
  | b :: rest => if decide (b = x00) then CookieIP (ip_text rest) else CookieString rest
  end.

Definition NewToken (key : list byte) (raddr : UDPAddr) (now : Z) (drawn : option (list byte)) : result CryptoError (list byte) :=
  stk_NewToken key (asn1_Marshal P (encodeRemoteAddr raddr, now / Second)) drawn.
(** No token, no cookie. *)
Definition DecodeToken (key encrypted : list byte) : result CryptoError (option Cookie) :=
  if decide (encrypted = []) then Ok None
  else
    let* data := stk_DecodeToken key encrypted in
    match asn1_Unmarshal P data with
    | Some (data, timestamp, []) => Ok (Some {| CookieAddr := decodeRemoteAddr data; SentTime := timestamp * Second |})
    | _ => Err errSTKInvalid
    end.

Definition CookieExpiryTime : Z := 24 * 60 * 60 * Second.
Definition defaultAcceptCookie (now : Z) (clientAddr : UDPAddr) (cookie : option Cookie) : bool :=
  match cookie with
  | None => false
  | Some c =>
      if decide (SentTime c + CookieExpiryTime < now) then false
      else match CookieAddr c with CookieIP text => bool_decide (text = ip_text (addr_IP clientAddr)) | CookieString _ => false end
  end.

(** * The ephemeral key of all connections, kept for a minute *)

Definition kexLifetime : Z := 60 * Second.
Definition ephermal : Type := option (KeyExchange * Z).
Definition getEphermalKEX (e : ephermal) (now : Z) (drawn : option (list byte)) : ephermal * option KeyExchange :=
  let fresh := match drawn with
               | Some bs => let kex := NewCurve25519KEX P bs in (Some (kex, now), Some kex)
               | None => (e, fst <$> e)
               end in
  match e with
  | Some (kex, t) => if decide (now - t ≤ kexLifetime) then (e, Some kex) else fresh
  | None => fresh
  end.

Close Scope Z_scope.

(** * Properties of the parts *)

Context `{!PrimitiveLaws P}.

Record config_ok (s : ServerConfig) : Prop := {
  co_id : length (scfg_ID s) = 16;
  co_obit : length (scfg_obit s) = 8;
  co_pub : length (PublicKey (scfg_kex s)) = 32
}.

Lemma message_ok_insert tag k v m : message_ok {| MTag := tag; MData := m |} → (0 ≤ k < 2 ^ 32)%Z → (zlen v ≤ CryptoParameterMaxLength)%Z →
  (Z.of_nat (size m) < CryptoMaxParams)%Z → message_ok {| MTag := tag; MData := <[k := v]> m |}.
Proof using Type.
  intros [Ht Hs Hd] Hk Hv Hm. split; [done| |]; cbn [MData MTag] in *.
  - rewrite map_size_insert. destruct (m !! k); cbn; lia.
  - by apply map_Forall_insert_2.
Qed.

Lemma config_message_ok s : config_ok s → message_ok (config_message s).
Proof using Type.
  intros [H1 H2 H3]. unfold config_message.
  repeat (apply message_ok_insert; [|by vm_compute|unfold zlen, CryptoParameterMaxLength; rewrite ?length_app, ?H1, ?H2, ?H3; by vm_compute|
    rewrite ?map_size_insert, ?lookup_insert_ne, ?lookup_empty by done; by vm_compute]).
  split; [by vm_compute|by vm_compute|]. by intros k v Hk.
Qed.

Lemma config_lookups s :
  let m := MData (config_message s) in
  m !! TagSCID = Some (scfg_ID s) ∧ m !! TagKEXS = Some (list_byte_of_string "C255") ∧ m !! TagAEAD = Some (list_byte_of_string "AESG") ∧
  m !! TagPUBS = Some ([x20; x00; x00] ++ PublicKey (scfg_kex s)) ∧ m !! TagOBIT = Some (scfg_obit s) ∧ m !! TagEXPY = Some (replicate 8 xff).
Proof using Type. by vm_compute. Qed.

Lemma split_pubs_one pub n : length pub = 32 → split_pubs (S (S n)) ([x20; x00; x00] ++ pub) = Ok [pub].
Proof using Type.
  intros Hl. assert (zlen ([x20; x00; x00] ++ pub) = 35)%Z as Hz by (unfold zlen; rewrite length_app, Hl; done).
  cbn [split_pubs]. rewrite Hz, decide_False by lia.
  change (take 3 ([x20; x00; x00] ++ pub)) with [x20; x00; x00]. change (drop 3 ([x20; x00; x00] ++ pub)) with pub.
  change (le_val [x20; x00; x00]) with 32%Z. rewrite !decide_False by lia.
  change (Z.to_nat (3 + 32)) with 35. change (Z.to_nat 32) with 32.
  rewrite (drop_ge _ 35) by (rewrite length_app, Hl; done). rewrite decide_True by done. cbn [result_bind].
  by rewrite take_ge by lia.
Qed.

Lemma parseValues_read raw m drawn id obit pub expy :
  m !! TagSCID = Some id → length id = 16 → m !! TagKEXS = Some (list_byte_of_string "C255") →
  m !! TagAEAD = Some (list_byte_of_string "AESG") → m !! TagPUBS = Some ([x20; x00; x00] ++ pub) → length pub = 32 →
  m !! TagOBIT = Some obit → length obit = 8 → m !! TagEXPY = Some expy → length expy = 8 →
  parseValues raw m (Some drawn) = Ok {|
    sc_raw := raw; sc_ID := id; sc_obit := obit; sc_expiry := Z.min (le_val expy) (Z.quot MaxInt64 2);
    sc_kex := NewCurve25519KEX P drawn; sc_sharedSecret := ScalarMult P (clamp drawn) pub |}.
Proof using Type.
  intros L1 H1 L2 L3 L4 H4 L5 H5 L6 H6. unfold parseValues, need. rewrite L1, L2, L3, L4, L5, L6. cbn [result_bind].
  unfold zlen. rewrite H1, bool_decide_true by done. cbn [check result_bind].
  change (bool_decide (Z.of_nat (length (list_byte_of_string "C255")) `mod` 4 = 0)%Z) with true.
  change (find_name (list_byte_of_string "C255") _ _) with (Some 0). cbn [check result_bind].
  change (bool_decide (Z.of_nat (length (list_byte_of_string "AESG")) `mod` 4 = 0)%Z) with true.
  change (find_name (list_byte_of_string "AESG") _ _) with (Some 0). rewrite bool_decide_true by by eexists. cbn [check result_bind].
  rewrite length_app, H4. change (length [x20; x00; x00] + 32) with (S (S 33)). rewrite split_pubs_one by done. cbn [result_bind].
  change ([pub] !! 0) with (Some pub). cbn match. rewrite H4, bool_decide_true by done. cbn [check drawn_bytes result_bind].
  unfold CalculateSharedKey, zlen. rewrite H4, decide_False by (by intros []). cbn [of_crypto result_bind].
  rewrite H5, H6, !bool_decide_true by done. cbn [check result_bind]. done.
Qed.

(** A client reads the config as the server means it, and both compute the same secret. *)
Lemma server_config_read s secret drawn :
  config_ok s → scfg_kex s = NewCurve25519KEX P secret → length secret = 32 → length drawn = 32 →
  ∃ raw c, scfg_Get s = Some raw ∧ parseServerConfig raw (Some drawn) = Ok c ∧ sc_raw c = raw ∧
    sc_ID c = scfg_ID s ∧ sc_obit c = scfg_obit s ∧ sc_kex c = NewCurve25519KEX P drawn ∧
    CalculateSharedKey P (scfg_kex s) (PublicKey (sc_kex c)) = Ok (sc_sharedSecret c) ∧
    length (sc_sharedSecret c) = 32 ∧ ∀ now, (now ≤ 2 ^ 62)%Z → IsExpired c now = false.
Proof using Type*.
  intros Hok Ek Hs Hd. destruct (message_written _ (config_message_ok s Hok)) as (raw & Hw & Hr). destruct Hok as [H1 H2 H3].
  specialize (Hr []). rewrite app_nil_r in Hr. destruct (config_lookups s) as (L1 & L2 & L3 & L4 & L5 & L6).
  exists raw. unfold scfg_Get. rewrite Hw. unfold parseServerConfig. rewrite Hr. rewrite decide_False by (by intros []).
  rewrite (parseValues_read raw _ drawn _ _ _ _ L1 H1 L2 L3 L4 H3 L5 H2 L6 eq_refl). eexists. split; [done|]. split; [done|].
  cbn [sc_raw sc_ID sc_obit sc_kex sc_sharedSecret]. destruct (kex_agree P secret drawn Hs Hd) as [Ks Kd]. rewrite Ek in *.
  do 4 (split; [reflexivity|]). split; [|split].
  - rewrite Ks. f_equal. by rewrite scalar_mult_comm by by rewrite length_clamp.
  - apply length_scalar_mult.
  - intros now Hn. unfold IsExpired. cbn [sc_expiry]. apply bool_decide_false.
    change (Z.min (le_val (replicate 8 xff)) (Z.quot MaxInt64 2) * Second)%Z with 4611686018427387903000000000%Z. lia.
Qed.

(** ** Tokens *)

(** What the server hands out it takes back, from the same address within a day. *)
Lemma token_accepted key a now nonce later :
  zlen key = 16%Z → length nonce = 16 → (0 ≤ now < 2 ^ 62)%Z → (now ≤ later ≤ now + CookieExpiryTime - Second)%Z →
  ∃ token cookie, NewToken key a now (Some nonce) = Ok token ∧ token ≠ [] ∧ DecodeToken key token = Ok (Some cookie) ∧
    defaultAcceptCookie later a (Some cookie) = true.
Proof using Type*.
  intros Hkey Hn Hnow Hlater. unfold NewToken, stk_NewToken. set (data := asn1_Marshal P _).
  exists (nonce ++ gcm_Seal P key nonce data []). eexists. split; [done|]. split.
  { intros E. apply (f_equal length) in E. rewrite length_app, Hn in E. cbn in E. lia. }
  assert (nonce ++ gcm_Seal P key nonce data [] ≠ []) as Hne.
  { intros E. apply (f_equal length) in E. rewrite length_app, Hn in E. cbn in E. lia. }
  unfold DecodeToken. rewrite decide_False by done. unfold stk_DecodeToken.
  rewrite decide_False by (rewrite zlen_app; pose proof (zlen_nonneg (gcm_Seal P key nonce data [])); unfold zlen, stkNonceSize in *; lia).
  rewrite take_app_length', drop_app_length' by done. rewrite gcm_opens by (by left || by intros ->). cbn [result_bind]. unfold data.
  assert (Second = 1000000000)%Z as ES by done. pose proof (Z.div_mod now Second ltac:(done)). pose proof (Z.mod_pos_bound now Second ltac:(done)).
  rewrite asn1_unmarshals by (rewrite ES in *; lia). split; [done|].
  unfold defaultAcceptCookie. cbn [SentTime CookieAddr decodeRemoteAddr encodeRemoteAddr].
  rewrite decide_False by (unfold CookieExpiryTime in *; rewrite ES in *; lia). rewrite decide_True by done. by apply bool_decide_true.
Qed.
End config.
