(* ===== verification/CryptoSetup.v ===== *)
(** What the setups of the QUIC handshake share (src/mp-quic/internal/handshake: interface.go,
    crypto_setup_tls.go; the interfaces CertChain and CertManager of internal/crypto).

    The certificates of a server are a record of functions [CertChain], the client's check of
    them a class [CertManager] over its state.  A method of a setup is in the monad [SM]: it
    changes the setup, returns a value or an error, or panics. *)

From Stdlib Require Import ZArith Lia.
From Stdlib Require Import Strings.Byte Strings.String.
From stdpp Require Import prelude numbers list gmap sorting.
From S2P Require Import Prelude ByteOrder Protocol Wire ReceivedPackets AckCodec PublicHeader PacketUnpacker Handshake NullAEAD.
From S2P Require Import KeyDerivation RTTStats SentPackets PacketNumberGenerator Path FlowControl Stream StreamsMap StreamFramer PacketPacker.
From S2P Require Import ServerConfig.

Open Scope Z_scope.

Definition HandshakeFailed : Z := 28.
Definition InvalidCryptoMessageType : Z := 33.
Definition CryptoTooManyRejects : Z := 41.
Definition ProofInvalid : Z := 42.
Definition CryptoEncryptionLevelIncorrect : Z := 44.
Definition CryptoServerConfigExpired : Z := 45.
Definition VersionNegotiationMismatch : Z := 55.
Definition ClientHelloMinimumSize : Z := 1024.
Definition MaxClientHellos : Z := 3.

(** * The monad *)

Definition SM (S A : Type) : Type := S → option (S * result HandshakeError A).

Section monad.
Context {S : Type}.

Definition sm_ret {A} (a : A) : SM S A := λ s, Some (s, Ok a).
Definition sm_throw {A} (e : HandshakeError) : SM S A := λ s, Some (s, Err e).
Definition sm_panic {A} : SM S A := λ _, None.
Definition sm_bind {A B} (m : SM S A) (f : A → SM S B) : SM S B := λ s,
  match m s with
  | Some (s, Ok a) => f a s
  | Some (s, Err e) => Some (s, Err e)
  | None => None
  end.
Definition sm_get : SM S S := λ s, Some (s, Ok s).
Definition sm_modify (f : S → S) : SM S () := λ s, Some (f s, Ok ()).
Definition sm_lift {A} (r : result HandshakeError A) : SM S A := λ s, Some (s, r).
(** A call that may panic. *)
Definition sm_some {A} (r : option A) : SM S A := λ s, (λ a, (s, Ok a)) <$> r.
End monad.

Declare Scope setup_scope.
Notation "'let+' x := m 'in' k" := (sm_bind m (λ x, k)) (at level 200, x pattern, m at level 100, k at level 200) : setup_scope.
Notation "'do+' m 'in' k" := (sm_bind m (λ _, k)) (at level 200, m at level 100, k at level 200) : setup_scope.
Open Scope setup_scope.

(** * Certificates *)

(** [SignServerProof] may draw random bytes. *)
Record CertChain : Type := {
  SignServerProof : list byte → list byte → list byte → list byte → result HandshakeError (list byte);
  GetCertsCompressed : list byte → list byte → list byte → result HandshakeError (list byte);
  chain_GetLeafCert : list byte → result HandshakeError (list byte)
}.

Class CertManager (M : Type) : Type := {
  SetData : M → list byte → M * option HandshakeError;
  GetCommonCertificateHashes : M → list byte;
  GetLeafCert : M → option (list byte);
  VerifyServerProof : M → list byte → list byte → list byte → bool;
  Verify : M → Z → list byte → option HandshakeError
}.

(** FNV-1a of a certificate. *)
Definition HashCert (cert : list byte) : Z := fnv64a cert.

(** * The AEADs of a setup *)

(** What both setups keep: [changed] is what was sent on the channel of the levels, of two
    elements, [changed_closed] whether it was closed. *)
Record aeads : Type := {
  nullAEAD : AEAD; secureAEAD : option AEAD; forwardSecureAEAD : option AEAD;
  receivedSecurePacket : bool; receivedForwardSecurePacket : bool;
  changed : list EncryptionLevel; changed_closed : bool
}.
Definition new_aeads (null : AEAD) : aeads := {|
  nullAEAD := null; secureAEAD := None; forwardSecureAEAD := None; receivedSecurePacket := false;
  receivedForwardSecurePacket := false; changed := []; changed_closed := false
|}.
Definition set_secure (k : aeads) (a : AEAD) : aeads := {|
  nullAEAD := nullAEAD k; secureAEAD := Some a; forwardSecureAEAD := forwardSecureAEAD k;
  receivedSecurePacket := receivedSecurePacket k; receivedForwardSecurePacket := receivedForwardSecurePacket k;
  changed := changed k; changed_closed := changed_closed k
|}.
Definition set_forward_secure (k : aeads) (a : AEAD) : aeads := {|
  nullAEAD := nullAEAD k; secureAEAD := secureAEAD k; forwardSecureAEAD := Some a;
  receivedSecurePacket := receivedSecurePacket k; receivedForwardSecurePacket := receivedForwardSecurePacket k;
  changed := changed k; changed_closed := changed_closed k
|}.
Definition set_received (k : aeads) (secure forward : bool) : aeads := {|
  nullAEAD := nullAEAD k; secureAEAD := secureAEAD k; forwardSecureAEAD := forwardSecureAEAD k;
  receivedSecurePacket := secure; receivedForwardSecurePacket := forward; changed := changed k; changed_closed := changed_closed k
|}.
(** Sending on a closed channel and closing it again panic. *)
Definition send_level (k : aeads) (l : EncryptionLevel) : option aeads :=
  if changed_closed k then None
  else Some {|
    nullAEAD := nullAEAD k; secureAEAD := secureAEAD k; forwardSecureAEAD := forwardSecureAEAD k;
    receivedSecurePacket := receivedSecurePacket k; receivedForwardSecurePacket := receivedForwardSecurePacket k;
    changed := changed k ++ [l]; changed_closed := false
  |}.
Definition close_levels (k : aeads) : option aeads :=
  if changed_closed k then None
  else Some {|
    nullAEAD := nullAEAD k; secureAEAD := secureAEAD k; forwardSecureAEAD := forwardSecureAEAD k;
    receivedSecurePacket := receivedSecurePacket k; receivedForwardSecurePacket := receivedForwardSecurePacket k;
    changed := changed k; changed_closed := true
  |}.

Definition null_Open (k : aeads) (src : list byte) (n : Z) (ad : list byte) : result AEADError (list byte * EncryptionLevel) :=
  match aead_Open (nullAEAD k) src n ad with Ok data => Ok (data, EncryptionUnencrypted) | Err e => Err e end.

Definition sealer_with_level (k : aeads) (l : EncryptionLevel) : option AEAD :=
  match l with
  | EncryptionUnencrypted => Some (nullAEAD k)
  | EncryptionSecure => secureAEAD k
  | EncryptionForwardSecure => forwardSecureAEAD k
  | EncryptionUnspecified => None
  end.

(** * TLS *)

Record cryptoSetupTLS : Type := { tls_perspective : Perspective; tls_null : AEAD; tls_aead : option AEAD; tls_changed : list EncryptionLevel; tls_closed : bool }.

Definition NewCryptoSetupTLS (fnv128a : list byte → Z * Z) (pers : Perspective) (version : Z) : cryptoSetupTLS := {|
  tls_perspective := pers; tls_null := NewNullAEAD fnv128a pers version; tls_aead := None; tls_changed := []; tls_closed := false
|}.
(** [alert] is what the handshake of mint ends with, [mc] its controller. *)
Definition tls_HandleCryptoStream (P : primitives) (h : cryptoSetupTLS) (alert : option Z) (mc : MintController) :
    cryptoSetupTLS * option HandshakeError :=
  match alert with
  | Some a => (h, Some (errTLSHandshake a))
  | None =>
      match DeriveAESKeys P mc (tls_perspective h) with
      | Err e => (h, Some (HeCrypto e))
      | Ok aead => ({| tls_perspective := tls_perspective h; tls_null := tls_null h; tls_aead := Some aead;
                       tls_changed := tls_changed h ++ [EncryptionForwardSecure]; tls_closed := true |}, None)
      end
  end.
Definition tls_Open (h : cryptoSetupTLS) (src : list byte) (n : Z) (ad : list byte) : result AEADError (list byte * EncryptionLevel) :=
  match tls_aead h with
  | Some aead => match aead_Open aead src n ad with Ok data => Ok (data, EncryptionForwardSecure) | Err e => Err e end
  | None => match aead_Open (tls_null h) src n ad with Ok data => Ok (data, EncryptionUnencrypted) | Err e => Err e end
  end.
(** The diversification nonce is not asked for with TLS. *)
Definition tls_CryptoSetup (h : cryptoSetupTLS) : CryptoSetup := {|
  GetSealer := match tls_aead h with Some a => (EncryptionForwardSecure, a) | None => (EncryptionUnencrypted, tls_null h) end;
  GetSealerWithEncryptionLevel := λ l,
    match l with EncryptionUnencrypted => Some (tls_null h) | EncryptionForwardSecure => tls_aead h | _ => None end;
  GetSealerForCryptoStream := (EncryptionUnencrypted, tls_null h);
  crypto_DiversificationNonce := []
|}.

Close Scope Z_scope.

Lemma sm_bind_ok {S A B} (m : SM S A) (f : A → SM S B) s s' a : m s = Some (s', Ok a) → sm_bind m f s = f a s'.
Proof. unfold sm_bind. by intros ->. Qed.
Section steps.
Context {S A B : Type}.
Lemma sm_bind_get (f : S → SM S B) s : sm_bind sm_get f s = f s s.
Proof using Type. done. Qed.
Lemma sm_bind_modify g (f : () → SM S B) s : sm_bind (sm_modify g) f s = f () (g s).
Proof using Type. done. Qed.
Lemma sm_bind_lift (a : A) (f : A → SM S B) s : sm_bind (sm_lift (Ok a)) f s = f a s.
Proof using Type. done. Qed.
Lemma sm_bind_crypto (a : A) (f : A → SM S B) s : sm_bind (sm_lift (of_crypto (Ok a))) f s = f a s.
Proof using Type. done. Qed.
Lemma sm_bind_drawn (a : list byte) (f : list byte → SM S B) s : sm_bind (sm_lift (drawn_bytes (Some a))) f s = f a s.
Proof using Type. done. Qed.
Lemma sm_bind_some (a : A) (f : A → SM S B) s : sm_bind (sm_some (Some a)) f s = f a s.
Proof using Type. done. Qed.
Lemma sm_bind_ret (a : A) (f : A → SM S B) s : sm_bind (sm_ret a) f s = f a s.
Proof using Type. done. Qed.
End steps.

Create HintDb setup.
#[export] Hint Rewrite @sm_bind_get @sm_bind_modify @sm_bind_lift @sm_bind_crypto @sm_bind_drawn @sm_bind_some @sm_bind_ret : setup.
(** Runs a call up to what is not known. *)
Ltac run_setup := autorewrite with setup.
