(* ===== verification/CryptoSetupServer.v ===== *)
(** The server's side of the QUIC handshake
    (src/mp-quic/internal/handshake/crypto_setup_server.go).

    A client hello without what is needed for keys is answered with a rejection, any other with
    a server hello and both keys.  The random bytes, the clock and the ephemeral key of a
    message are its [server_env]. *)

From Stdlib Require Import ZArith Lia.
From Stdlib Require Import Strings.Byte Strings.String.
From stdpp Require Import prelude numbers list gmap sorting.
From S2P Require Import Prelude ByteOrder Protocol Wire ReceivedPackets AckCodec PublicHeader PacketUnpacker Handshake NullAEAD.
From S2P Require Import KeyDerivation RTTStats SentPackets PacketNumberGenerator Path FlowControl Stream StreamsMap StreamFramer PacketPacker.
From S2P Require Import ServerConfig CryptoSetup.

Open Scope Z_scope.

Record cryptoSetupServer : Type := {
  sv_connID : Z; sv_remoteAddr : UDPAddr; sv_scfg : ServerConfig; sv_certs : CertChain; sv_stkKey : list byte;
  sv_diversificationNonce : list byte;
  sv_version : Z; sv_supportedVersions : list Z;
  sv_acceptSTKCallback : Z → UDPAddr → option Cookie → bool;
  sv_aeads : aeads;
  sv_sentSHLO : bool;
  sv_written : list (list byte);
  sv_parameters : connectionParametersManager
}.

Record server_env : Type := {
  se_now : Z; se_stkNonce : option (list byte); se_serverNonce : option (list byte); se_divNonce : option (list byte);
  se_signing : list byte; se_kex : option KeyExchange; se_write_fails : option HandshakeError
}.

Definition sv_update (h : cryptoSetupServer) (div : list byte) (k : aeads) (sent : bool) (written : list (list byte))
    (params : connectionParametersManager) : cryptoSetupServer := {|
  sv_connID := sv_connID h; sv_remoteAddr := sv_remoteAddr h; sv_scfg := sv_scfg h; sv_certs := sv_certs h; sv_stkKey := sv_stkKey h;
  sv_diversificationNonce := div; sv_version := sv_version h; sv_supportedVersions := sv_supportedVersions h;
  sv_acceptSTKCallback := sv_acceptSTKCallback h; sv_aeads := k; sv_sentSHLO := sent; sv_written := written; sv_parameters := params
|}.
Definition sv_set_aeads (h : cryptoSetupServer) (k : aeads) : cryptoSetupServer :=
  sv_update h (sv_diversificationNonce h) k (sv_sentSHLO h) (sv_written h) (sv_parameters h).

Section server.
Context (P : primitives) (fnv128a : list byte → Z * Z).

(** The token source draws its secret. *)
Definition NewCryptoSetup (connID : Z) (remoteAddr : UDPAddr) (version : Z) (scfg : ServerConfig) (certs : CertChain)
    (params : connectionParametersManager) (supported : list Z) (acceptSTK : Z → UDPAddr → option Cookie → bool)
    (stkSecret : option (list byte)) : result HandshakeError cryptoSetupServer :=
  let* secret := drawn_bytes stkSecret in
  Ok {|
    sv_connID := connID; sv_remoteAddr := remoteAddr; sv_scfg := scfg; sv_certs := certs; sv_stkKey := stk_key P secret;
    sv_diversificationNonce := []; sv_version := version; sv_supportedVersions := supported; sv_acceptSTKCallback := acceptSTK;
    sv_aeads := new_aeads (NewNullAEAD fnv128a PerspectiveServer version); sv_sentSHLO := false; sv_written := []; sv_parameters := params
  |}.

Definition acceptSTK (e : server_env) (h : cryptoSetupServer) (token : list byte) : bool :=
  match DecodeToken P (sv_stkKey h) token with
  | Err _ => false
  | Ok stk => sv_acceptSTKCallback h (se_now e) (sv_remoteAddr h) stk
  end.

Definition isInchoateCHLO (e : server_env) (h : cryptoSetupServer) (cryptoData : gmap Z (list byte)) (cert : list byte) : bool :=
  match cryptoData !! TagPUBS with
  | None => true
  | Some _ =>
      match cryptoData !! TagSCID with
      | None => true
      | Some scid =>
          if decide (scfg_ID (sv_scfg h) ≠ scid) then true
          else
            match cryptoData !! TagXLCT with
            | None => true
            | Some xlct =>
                if decide (zlen xlct ≠ 8) then true
                else if decide (HashCert cert ≠ le_val xlct) then true
                else negb (acceptSTK e h (default [] (cryptoData !! TagSTK)))
            end
      end
  end.

(** A hello of the server, and its own config; neither write can fail on values that fit. *)
Definition sm_scfg_Get : SM cryptoSetupServer (list byte) := let+ h := sm_get in sm_some (scfg_Get (sv_scfg h)).

Definition handleInchoateCHLO (e : server_env) (sni chlo : list byte) (cryptoData : gmap Z (list byte)) : SM cryptoSetupServer (list byte) :=
  let+ h := sm_get in
  if decide (zlen chlo < ClientHelloMinimumSize) then sm_throw (HeQuic CryptoInvalidValueLength)
  else
    let+ token := sm_lift (of_crypto (NewToken P (sv_stkKey h) (sv_remoteAddr h) (se_now e) (se_stkNonce e))) in
    let+ scfg := sm_scfg_Get in
    let replyMap : gmap Z (list byte) := <[TagSCFG := scfg]> (<[TagSTK := token]> (<[TagSVID := list_byte_of_string "quic-go"]> ∅)) in
    let+ replyMap :=
      if acceptSTK e h (default [] (cryptoData !! TagSTK)) then
        let+ proof := sm_lift (SignServerProof (sv_certs h) (se_signing e) sni chlo scfg) in
        let commonSetHashes := default [] (cryptoData !! TagCCS) in
        let cachedCertsHashes := default [] (cryptoData !! TagCCRT) in
        let+ certCompressed := sm_lift (GetCertsCompressed (sv_certs h) sni commonSetHashes cachedCertsHashes) in
        sm_ret (<[TagPROF := proof]> (<[TagCERT := certCompressed]> replyMap))
      else sm_ret replyMap in
    sm_some (write_HandshakeMessage {| MTag := TagREJ; MData := replyMap |}).

Definition validateClientNonce (h : cryptoSetupServer) (nonce : list byte) : result HandshakeError () :=
  if decide (zlen nonce ≠ 32) then Err (HeQuic InvalidCryptoMessageParameter)
  else if decide (take 8 (drop 4 nonce) ≠ scfg_obit (sv_scfg h)) then Err (HeQuic InvalidCryptoMessageParameter)
  else Ok ().

Definition version_list (versions : list Z) : list byte := versions ≫= λ v, le_bytes 4 (VersionNumberToTag v).

Definition sv_on_aeads (f : aeads → option aeads) : SM cryptoSetupServer () :=
  let+ h := sm_get in let+ k := sm_some (f (sv_aeads h)) in sm_modify (λ h, sv_set_aeads h k).

Definition handleCHLO (e : server_env) (sni data : list byte) (cryptoData : gmap Z (list byte)) : SM cryptoSetupServer (list byte) :=
  let pubs := default [] (cryptoData !! TagPUBS) in
  let+ h := sm_get in
  let+ sharedSecret := sm_lift (of_crypto (CalculateSharedKey P (scfg_kex (sv_scfg h)) pubs)) in
  let+ certUncompressed := sm_lift (chain_GetLeafCert (sv_certs h) sni) in
  let+ serverNonce := sm_lift (drawn_bytes (se_serverNonce e)) in
  let+ divNonce := sm_lift (drawn_bytes (se_divNonce e)) in
  do+ sm_modify (λ h, sv_update h divNonce (sv_aeads h) (sv_sentSHLO h) (sv_written h) (sv_parameters h)) in
  let clientNonce := default [] (cryptoData !! TagNONC) in
  do+ sm_lift (validateClientNonce h clientNonce) in
  if decide (default [] (cryptoData !! TagAEAD) ≠ list_byte_of_string "AESG") then sm_throw (HeQuic CryptoNoSupport)
  else if decide (default [] (cryptoData !! TagKEXS) ≠ list_byte_of_string "C255") then sm_throw (HeQuic CryptoNoSupport)
  else
    let+ scfg := sm_scfg_Get in
    let+ secure := sm_lift (of_crypto (DeriveQuicCryptoAESKeys P false sharedSecret clientNonce (sv_connID h) data scfg certUncompressed
                                         divNonce PerspectiveServer)) in
    do+ sv_on_aeads (λ k, Some (set_secure k secure)) in
    do+ sv_on_aeads (λ k, send_level k EncryptionSecure) in
    let+ ephermalKex := sm_some (se_kex e) in
    let+ ephermalSharedSecret := sm_lift (of_crypto (CalculateSharedKey P ephermalKex pubs)) in
    let+ forward := sm_lift (of_crypto (DeriveQuicCryptoAESKeys P true ephermalSharedSecret (clientNonce ++ serverNonce) (sv_connID h)
                                          data scfg certUncompressed [] PerspectiveServer)) in
    do+ sv_on_aeads (λ k, Some (set_forward_secure k forward)) in
    let '(params, err) := SetFromMap (sv_parameters h) cryptoData in
    do+ sm_modify (λ h, sv_update h (sv_diversificationNonce h) (sv_aeads h) (sv_sentSHLO h) (sv_written h) params) in
    match err with
    | Some err => sm_throw (HeParam err)
    | None =>
        let+ replyMap := sm_some (GetHelloMap params) in
        let replyMap := <[TagVER := version_list (sv_supportedVersions h)]> (<[TagSNO := serverNonce]>
                          (<[TagPUBS := PublicKey ephermalKex]> replyMap)) in
        sm_some (write_HandshakeMessage {| MTag := TagSHLO; MData := replyMap |})
    end.

Definition sv_write (e : server_env) (reply : list byte) : SM cryptoSetupServer () :=
  match se_write_fails e with
  | Some err => sm_throw err
  | None => sm_modify (λ h, sv_update h (sv_diversificationNonce h) (sv_aeads h) (sv_sentSHLO h) (sv_written h ++ [reply]) (sv_parameters h))
  end.

(** A name that is there and not empty, and a version that was not negotiated down. *)
Definition check_hello (h : cryptoSetupServer) (cryptoData : gmap Z (list byte)) : result HandshakeError (list byte) :=
  if decide (is_Some (cryptoData !! TagFHL2)) then Err errHOL
  else if decide (is_Some (cryptoData !! TagNSTP)) then Err errNSTP
  else
    match cryptoData !! TagSNI with
    | None | Some [] => Err (HeQuic CryptoMessageParameterNotFound)
    | Some sni =>
        match cryptoData !! TagVER with
        | None => Err (HeQuic InvalidCryptoMessageParameter)
        | Some verSlice =>
            if decide (zlen verSlice ≠ 4) then Err (HeQuic InvalidCryptoMessageParameter)
            else
              let ver := VersionTagToNumber (le_val verSlice) in
              if bool_decide (ver ≠ sv_version h) && IsSupportedVersion (sv_supportedVersions h) ver
              then Err (HeQuic VersionNegotiationMismatch) else Ok sni
        end
    end.

(** Whether the handshake is done. *)
Definition handleMessage (e : server_env) (chloData : list byte) (cryptoData : gmap Z (list byte)) : SM cryptoSetupServer bool :=
  let+ h := sm_get in
  let+ sni := sm_lift (check_hello h cryptoData) in
  let+ certUncompressed := sm_lift (chain_GetLeafCert (sv_certs h) sni) in
  if negb (isInchoateCHLO e h cryptoData certUncompressed) then
    let+ reply := handleCHLO e sni chloData cryptoData in
    do+ sv_write e reply in
    do+ sv_on_aeads (λ k, send_level k EncryptionForwardSecure) in
    do+ sm_modify (λ h, sv_update h (sv_diversificationNonce h) (sv_aeads h) true (sv_written h) (sv_parameters h)) in
    sm_ret true
  else
    let+ reply := handleInchoateCHLO e sni chloData cryptoData in
    do+ sv_write e reply in
    sm_ret false.

(** A turn of [HandleCryptoStream] on the bytes that have come: what is left of them, and whether
    the handshake is done. *)
Definition sv_turn (e : server_env) (incoming : list byte) : SM cryptoSetupServer (list byte * bool) :=
  match ParseHandshakeMessage incoming with
  | Err _ => sm_throw (HeQuic HandshakeFailed)
  | Ok (message, rest) =>
      if decide (MTag message ≠ TagCHLO) then sm_throw (HeQuic InvalidCryptoMessageType)
      else
        let chloData := take (length incoming - length rest) incoming in
        let+ done := handleMessage e chloData (MData message) in
        sm_ret (rest, done)
  end.
Fixpoint sv_HandleCryptoStream (es : list server_env) (incoming : list byte) : SM cryptoSetupServer () :=
  match es with
  | [] => sm_ret ()
  | e :: es =>
      let+ r := sv_turn e incoming in
      let '(rest, done) := r in
      if (done : bool) then sm_ret () else sv_HandleCryptoStream es rest
  end.

(** * Packets *)

(** The first forward-secure packet waits until the server hello was written: [None] then. *)
Definition sv_Open (k : aeads) (sentSHLO : bool) (src : list byte) (n : Z) (ad : list byte) :
    option (aeads * result AEADError (list byte * EncryptionLevel)) :=
  let below (k : aeads) :=
    match secureAEAD k with
    | Some aead =>
        match aead_Open aead src n ad with
        | Ok data => (set_received k true (receivedForwardSecurePacket k), Ok (data, EncryptionSecure))
        | Err e => if receivedSecurePacket k then (k, Err e) else (k, null_Open k src n ad)
        end
    | None => (k, null_Open k src n ad)
    end in
  match forwardSecureAEAD k with
  | Some aead =>
      match aead_Open aead src n ad with
      | Ok data =>
          if receivedForwardSecurePacket k then Some (k, Ok (data, EncryptionForwardSecure))
          else if negb sentSHLO then None
          else
            let k := set_received k (receivedSecurePacket k) true in
            (λ k, (k, Ok (data, EncryptionForwardSecure))) <$> close_levels k
      | Err e => if receivedForwardSecurePacket k then Some (k, Err e) else Some (below k)
      end
  | None => Some (below k)
  end.

Definition sv_CryptoSetup (h : cryptoSetupServer) : CryptoSetup :=
  let k := sv_aeads h in {|
    GetSealer := match forwardSecureAEAD k with Some a => (EncryptionForwardSecure, a) | None => (EncryptionUnencrypted, nullAEAD k) end;
    GetSealerWithEncryptionLevel := sealer_with_level k;
    GetSealerForCryptoStream := match secureAEAD k with Some a => (EncryptionSecure, a) | None => (EncryptionUnencrypted, nullAEAD k) end;
    crypto_DiversificationNonce := sv_diversificationNonce h
  |}.
End server.

Close Scope Z_scope.

Lemma sv_bind_aeads {B} f k (g : () → SM cryptoSetupServer B) h :
  f (sv_aeads h) = Some k → sm_bind (sv_on_aeads f) g h = g () (sv_set_aeads h k).
Proof. intros E. unfold sv_on_aeads, sm_bind, sm_get, sm_some. by rewrite E. Qed.
