(* ===== verification/CryptoSetupClient.v ===== *)
(** The client's side of the QUIC handshake
    (src/mp-quic/internal/handshake/crypto_setup_client.go).

    [HandleCryptoStream] is the start of its loop, [cl_top], and what it does with an event,
    [cl_event]: a message of the server, a diversification nonce, or the end of the stream.
    The files of the handshake cache are read through [ce_cache] and written to [cl_cached]. *)

From Stdlib Require Import ZArith Lia.
From Stdlib Require Import Strings.Byte Strings.String.
From stdpp Require Import prelude numbers list gmap sorting.
From S2P Require Import Prelude ByteOrder Protocol Wire ReceivedPackets AckCodec PublicHeader PacketUnpacker Handshake NullAEAD.
From S2P Require Import KeyDerivation RTTStats SentPackets PacketNumberGenerator Path FlowControl Stream StreamsMap StreamFramer PacketPacker.
From S2P Require Import ServerConfig CryptoSetup.

Open Scope Z_scope.

Record TransportParameters : Type := { RequestConnectionIDTruncation : bool; CacheHandshake : bool }.

(** What does not change. *)
Record client_config : Type := {
  cc_hostname : list byte; cc_connID : Z; cc_version : Z; cc_negotiatedVersions : list Z; cc_params : TransportParameters
}.

Record cryptoSetupClient (M : Type) : Type := {
  cl_config : client_config;
  cl_serverConfig : option serverConfigClient;
  cl_stk : list byte; cl_sno : option (list byte); cl_nonc : list byte;
  cl_proof : list byte; cl_chloForSignature : list byte; cl_lastSentCHLO : list byte;
  cl_certManager : M; cl_certData : list byte; cl_scfgData : list byte;
  cl_diversificationNonce : list byte;
  cl_clientHelloCounter : Z; cl_serverVerified : bool;
  cl_aeads : aeads;
  cl_parameters : connectionParametersManager;
  cl_written : list (list byte);
  cl_cached : list (string * list byte)
}.
#[global] Arguments cl_config {M} _.
#[global] Arguments cl_serverConfig {M} _.
#[global] Arguments cl_stk {M} _.
#[global] Arguments cl_sno {M} _.
#[global] Arguments cl_nonc {M} _.
#[global] Arguments cl_proof {M} _.
#[global] Arguments cl_chloForSignature {M} _.
#[global] Arguments cl_lastSentCHLO {M} _.
#[global] Arguments cl_certManager {M} _.
#[global] Arguments cl_certData {M} _.
#[global] Arguments cl_scfgData {M} _.
#[global] Arguments cl_diversificationNonce {M} _.
#[global] Arguments cl_clientHelloCounter {M} _.
#[global] Arguments cl_serverVerified {M} _.
#[global] Arguments cl_aeads {M} _.
#[global] Arguments cl_parameters {M} _.
#[global] Arguments cl_written {M} _.
#[global] Arguments cl_cached {M} _.

(** Random bytes for a key exchange and a nonce, the clock, and the files of the cache by name. *)
Record client_env : Type := {
  ce_now : Z; ce_kexSecret : option (list byte); ce_random : option (list byte); ce_write_fails : option HandshakeError;
  ce_cache : string → option (list byte)
}.

Inductive client_event : Type :=
| CeNonce (divNonce : list byte)
| CeMessage (message : HandshakeMessage)
| CeError (e : WireError).

Section client.
Context (P : primitives) (fnv128a : list byte → Z * Z) {M : Type} `{!CertManager M}.
Implicit Types h : cryptoSetupClient M.
Local Notation CM := (SM (cryptoSetupClient M)).

(** Assignments to groups of fields. *)
Definition cl_set_server h (sc : option serverConfigClient) (stk : list byte) (sno : option (list byte)) (nonc : list byte) : cryptoSetupClient M := {|
  cl_config := cl_config h; cl_serverConfig := sc; cl_stk := stk; cl_sno := sno; cl_nonc := nonc; cl_proof := cl_proof h;
  cl_chloForSignature := cl_chloForSignature h; cl_lastSentCHLO := cl_lastSentCHLO h; cl_certManager := cl_certManager h;
  cl_certData := cl_certData h; cl_scfgData := cl_scfgData h; cl_diversificationNonce := cl_diversificationNonce h;
  cl_clientHelloCounter := cl_clientHelloCounter h; cl_serverVerified := cl_serverVerified h; cl_aeads := cl_aeads h;
  cl_parameters := cl_parameters h; cl_written := cl_written h; cl_cached := cl_cached h
|}.
Definition cl_set_proof h (proof chlo : list byte) (m : M) (cert scfg : list byte) (verified : bool) : cryptoSetupClient M := {|
  cl_config := cl_config h; cl_serverConfig := cl_serverConfig h; cl_stk := cl_stk h; cl_sno := cl_sno h; cl_nonc := cl_nonc h; cl_proof := proof;
  cl_chloForSignature := chlo; cl_lastSentCHLO := cl_lastSentCHLO h; cl_certManager := m;
  cl_certData := cert; cl_scfgData := scfg; cl_diversificationNonce := cl_diversificationNonce h;
  cl_clientHelloCounter := cl_clientHelloCounter h; cl_serverVerified := verified; cl_aeads := cl_aeads h;
  cl_parameters := cl_parameters h; cl_written := cl_written h; cl_cached := cl_cached h
|}.
Definition cl_set_hello h (counter : Z) (last : list byte) (written : list (list byte)) : cryptoSetupClient M := {|
  cl_config := cl_config h; cl_serverConfig := cl_serverConfig h; cl_stk := cl_stk h; cl_sno := cl_sno h; cl_nonc := cl_nonc h; cl_proof := cl_proof h;
  cl_chloForSignature := cl_chloForSignature h; cl_lastSentCHLO := last; cl_certManager := cl_certManager h;
  cl_certData := cl_certData h; cl_scfgData := cl_scfgData h; cl_diversificationNonce := cl_diversificationNonce h;
  cl_clientHelloCounter := counter; cl_serverVerified := cl_serverVerified h; cl_aeads := cl_aeads h;
  cl_parameters := cl_parameters h; cl_written := written; cl_cached := cl_cached h
|}.
Definition cl_set_keys h (div : list byte) (k : aeads) (params : connectionParametersManager) (cached : list (string * list byte)) : cryptoSetupClient M := {|
  cl_config := cl_config h; cl_serverConfig := cl_serverConfig h; cl_stk := cl_stk h; cl_sno := cl_sno h; cl_nonc := cl_nonc h; cl_proof := cl_proof h;
  cl_chloForSignature := cl_chloForSignature h; cl_lastSentCHLO := cl_lastSentCHLO h; cl_certManager := cl_certManager h;
  cl_certData := cl_certData h; cl_scfgData := cl_scfgData h; cl_diversificationNonce := div;
  cl_clientHelloCounter := cl_clientHelloCounter h; cl_serverVerified := cl_serverVerified h; cl_aeads := k;
  cl_parameters := params; cl_written := cl_written h; cl_cached := cached
|}.
Definition cl_set_aeads h (k : aeads) : cryptoSetupClient M :=
  cl_set_keys h (cl_diversificationNonce h) k (cl_parameters h) (cl_cached h).
Definition cl_set_verified h (verified : bool) : cryptoSetupClient M :=
  cl_set_proof h (cl_proof h) (cl_chloForSignature h) (cl_certManager h) (cl_certData h) (cl_scfgData h) verified.

Definition NewCryptoSetupClient (cf : client_config) (certManager : M) (params : connectionParametersManager) : cryptoSetupClient M := {|
  cl_config := cf; cl_serverConfig := None; cl_stk := []; cl_sno := None; cl_nonc := []; cl_proof := []; cl_chloForSignature := [];
  cl_lastSentCHLO := []; cl_certManager := certManager; cl_certData := []; cl_scfgData := []; cl_diversificationNonce := [];
  cl_clientHelloCounter := 0; cl_serverVerified := false;
  cl_aeads := new_aeads (NewNullAEAD fnv128a PerspectiveClient (cc_version cf));
  cl_parameters := params; cl_written := []; cl_cached := []
|}.

(** * The client nonce *)

Definition generateClientNonce (e : client_env) : CM () :=
  let+ h := sm_get in
  if decide (cl_nonc h ≠ []) then sm_throw errClientNonceAlreadyExists
  else
    let+ sc := sm_some (cl_serverConfig h) in
    if decide (zlen (sc_obit sc) ≠ 8) then sm_throw errNoObitForClientNonce
    else
      let+ random := sm_lift (drawn_bytes (ce_random e)) in
      let nonc := be_bytes 4 (u32 (ce_now e / Second)) ++ sc_obit sc ++ random in
      sm_modify (λ h, cl_set_server h (cl_serverConfig h) (cl_stk h) (cl_sno h) nonc).

(** * The cache *)

Definition cache_files : list string := ["sni"; "stk"; "cert"; "scfg"]%string.
(** A file that is there is left as it is. *)
Definition cacheHandshake (e : client_env) : CM () :=
  sm_modify (λ h,
    let data := zip cache_files [cc_hostname (cl_config h); cl_stk h; cl_certData h; cl_scfgData h] in
    let fresh := filter (λ f, ce_cache e f.1 = None ∧ f.1 ∉ (cl_cached h).*1) data in
    cl_set_keys h (cl_diversificationNonce h) (cl_aeads h) (cl_parameters h) (cl_cached h ++ fresh)).

(** What was read up to the first failure is kept. *)
Definition useHandshakeCache (e : client_env) : CM () :=
  let+ h := sm_get in
  match ce_cache e "sni" with
  | None => sm_ret ()
  | Some sni =>
      if decide (cc_hostname (cl_config h) ≠ sni) then sm_ret ()
      else
        match ce_cache e "stk" with
        | None => sm_ret ()
        | Some stk =>
            do+ sm_modify (λ h, cl_set_server h (cl_serverConfig h) stk (cl_sno h) (cl_nonc h)) in
            match ce_cache e "cert" with
            | None => sm_ret ()
            | Some certData =>
                let '(m, err) := SetData (cl_certManager h) certData in
                do+ sm_modify (λ h, cl_set_proof h (cl_proof h) (cl_chloForSignature h) m certData (cl_scfgData h) (cl_serverVerified h)) in
                match err, ce_cache e "scfg" with
                | Some _, _ | None, None => sm_ret ()
                | None, Some scfgData =>
                    do+ sm_modify (λ h, cl_set_proof h (cl_proof h) (cl_chloForSignature h) (cl_certManager h) (cl_certData h) scfgData
                                          (cl_serverVerified h)) in
                    match parseServerConfig P scfgData (ce_kexSecret e) with
                    | Err _ => sm_modify (λ h, cl_set_server h None (cl_stk h) (cl_sno h) (cl_nonc h))
                    | Ok sc =>
                        do+ sm_modify (λ h, cl_set_server h (Some sc) (cl_stk h) (cl_sno h) (cl_nonc h)) in
                        λ h, match generateClientNonce e h with
                             | None => None
                             | Some (h, Err _) => Some (h, Ok ())
                             | Some (h, Ok _) => Some (cl_set_verified h true, Ok ())
                             end
                    end
                end
            end
        end
  end.

(** * Messages of the server *)

Definition verified_name : list byte := list_byte_of_string "quic.clemente.io".

Definition rej_config (e : client_env) (cryptoData : gmap Z (list byte)) : CM () :=
  match cryptoData !! TagSCFG with
  | None => sm_ret ()
  | Some scfg =>
      match parseServerConfig P scfg (ce_kexSecret e) with
      | Err err => do+ sm_modify (λ h, cl_set_server h None (cl_stk h) (cl_sno h) (cl_nonc h)) in sm_throw err
      | Ok sc =>
          do+ sm_modify (λ h, cl_set_server h (Some sc) (cl_stk h) (cl_sno h) (cl_nonc h)) in
          if IsExpired sc (ce_now e) then sm_throw (HeQuic CryptoServerConfigExpired)
          else
            do+ sm_modify (λ h, cl_set_proof h (cl_proof h) (cl_chloForSignature h) (cl_certManager h) (cl_certData h) scfg (cl_serverVerified h)) in
            let+ h := sm_get in
            if decide (cl_nonc h = []) then generateClientNonce e else sm_ret ()
      end
  end.
Definition rej_cert (e : client_env) (cryptoData : gmap Z (list byte)) : CM () :=
  match cryptoData !! TagCERT with
  | None => sm_ret ()
  | Some crt =>
      let+ h := sm_get in
      let '(m, err) := SetData (cl_certManager h) crt in
      let set (cert : list byte) := sm_modify (λ h, cl_set_proof h (cl_proof h) (cl_chloForSignature h) m cert (cl_scfgData h) (cl_serverVerified h)) in
      match err with
      | Some _ => do+ set (cl_certData h) in sm_throw (HeQuic InvalidCryptoMessageParameter)
      | None =>
          do+ set crt in
          match Verify m (ce_now e) verified_name with
          | Some _ => sm_throw (HeQuic ProofInvalid)
          | None => sm_ret ()
          end
      end
  end.
Definition rej_verify : CM () :=
  let+ h := sm_get in
  match cl_serverConfig h, GetLeafCert (cl_certManager h) with
  | Some sc, Some _ =>
      if decide (cl_proof h = []) then sm_ret ()
      else if VerifyServerProof (cl_certManager h) (cl_proof h) (cl_chloForSignature h) (sc_raw sc)
      then sm_modify (λ h, cl_set_verified h true) else sm_throw (HeQuic ProofInvalid)
  | _, _ => sm_ret ()
  end.
Definition handleREJMessage (e : client_env) (cryptoData : gmap Z (list byte)) : CM () :=
  do+ sm_modify (λ h, cl_set_server h (cl_serverConfig h) (default (cl_stk h) (cryptoData !! TagSTK))
                        (match cryptoData !! TagSNO with Some sno => Some sno | None => cl_sno h end) (cl_nonc h)) in
  do+ rej_config e cryptoData in
  do+ (match cryptoData !! TagPROF with
       | None => sm_ret ()
       | Some proof => sm_modify (λ h, cl_set_proof h proof (cl_lastSentCHLO h) (cl_certManager h) (cl_certData h) (cl_scfgData h) (cl_serverVerified h))
       end) in
  do+ rej_cert e cryptoData in
  rej_verify.

Fixpoint versions_match (negotiated : list Z) (tags : list byte) : bool :=
  match negotiated with
  | [] => true
  | v :: negotiated =>
      let ver := VersionTagToNumber (le_val (take 4 tags)) in
      let ver := if IsSupportedVersion SupportedVersions ver then ver else VersionUnsupported in
      if decide (ver ≠ v) then false else versions_match negotiated (drop 4 tags)
  end.
Definition validateVersionList (negotiated : list Z) (verTags : list byte) : bool :=
  if decide (negotiated = []) then true
  else if decide (zlen verTags mod 4 ≠ 0 ∨ zlen verTags / 4 ≠ zlen negotiated) then false
  else versions_match negotiated verTags.

Definition cl_on_aeads (f : aeads → option aeads) : CM () :=
  let+ h := sm_get in let+ k := sm_some (f (cl_aeads h)) in sm_modify (λ h, cl_set_aeads h k).

Definition handleSHLOMessage (cryptoData : gmap Z (list byte)) : CM () :=
  let+ h := sm_get in
  if negb (receivedSecurePacket (cl_aeads h)) then sm_throw (HeQuic CryptoEncryptionLevelIncorrect)
  else
    do+ (match cryptoData !! TagSNO with
         | Some sno => sm_modify (λ h, cl_set_server h (cl_serverConfig h) (cl_stk h) (Some sno) (cl_nonc h))
         | None => sm_ret ()
         end) in
    match cryptoData !! TagPUBS with
    | None => sm_throw (HeQuic CryptoMessageParameterNotFound)
    | Some serverPubs =>
        match cryptoData !! TagVER with
        | None => sm_throw (HeQuic InvalidCryptoMessageParameter)
        | Some verTag =>
            if negb (validateVersionList (cc_negotiatedVersions (cl_config h)) verTag) then sm_throw (HeQuic VersionNegotiationMismatch)
            else
              let+ h := sm_get in
              let nonce := cl_nonc h ++ default [] (cl_sno h) in
              let+ sc := sm_some (cl_serverConfig h) in
              let+ ephermalSharedSecret := sm_lift (of_crypto (CalculateSharedKey P (sc_kex sc) serverPubs)) in
              let leafCert := default [] (GetLeafCert (cl_certManager h)) in
              let+ forward := sm_lift (of_crypto (DeriveQuicCryptoAESKeys P true ephermalSharedSecret nonce (cc_connID (cl_config h))
                                                    (cl_lastSentCHLO h) (sc_raw sc) leafCert [] PerspectiveClient)) in
              do+ cl_on_aeads (λ k, Some (set_forward_secure k forward)) in
              let '(params, err) := SetFromMap (cl_parameters h) cryptoData in
              do+ sm_modify (λ h, cl_set_keys h (cl_diversificationNonce h) (cl_aeads h) params (cl_cached h)) in
              match err with
              | Some _ => sm_throw (HeQuic InvalidCryptoMessageParameter)
              | None => do+ cl_on_aeads (λ k, send_level k EncryptionForwardSecure) in cl_on_aeads close_levels
              end
        end
    end.

(** * Hellos *)

Definition put_if (b : bool) (t : Z) (v : list byte) (tags : gmap Z (list byte)) : gmap Z (list byte) := if b then <[t := v]> tags else tags.
Definition is_empty (v : list byte) : bool := match v with [] => true | _ => false end.
(** What a client that knows the server's config and certificate adds. *)
Definition key_tags h (sc : serverConfigClient) (leafCert : list byte) (tags : gmap Z (list byte)) : gmap Z (list byte) :=
  <[TagPUBS := PublicKey (sc_kex sc)]> (<[TagAEAD := list_byte_of_string "AESG"]> (<[TagKEXS := list_byte_of_string "C255"]>
    (<[TagXLCT := le_bytes 8 (HashCert leafCert)]> (<[TagNONC := cl_nonc h]> tags)))).
Definition getTags : CM (gmap Z (list byte)) :=
  let+ h := sm_get in
  let+ tags := sm_some (GetHelloMap (cl_parameters h)) in
  let tags := <[TagPDMD := list_byte_of_string "X509"]> (<[TagSNI := cc_hostname (cl_config h)]> tags) in
  let ccs := GetCommonCertificateHashes (cl_certManager h) in
  let tags := put_if (negb (is_empty ccs)) TagCCS ccs tags in
  let tags := <[TagVER := le_bytes 4 (VersionNumberToTag (cc_version (cl_config h)))]> tags in
  let tags := put_if (RequestConnectionIDTruncation (cc_params (cl_config h))) TagTCID [x00; x00; x00; x00] tags in
  let tags := put_if (negb (is_empty (cl_stk h))) TagSTK (cl_stk h) tags in
  let sno := default [] (cl_sno h) in
  let tags := put_if (negb (is_empty sno)) TagSNO sno tags in
  sm_ret (match cl_serverConfig h with
          | None => tags
          | Some sc =>
              let tags := <[TagSCID := sc_ID sc]> tags in
              match GetLeafCert (cl_certManager h) with
              | None => tags
              | Some leafCert => key_tags h sc leafCert tags
              end
          end).

Definition addPadding (tags : gmap Z (list byte)) : gmap Z (list byte) :=
  let size := map_fold (λ _ v acc, 8 + zlen v + acc) 0 tags in
  let paddingSize := ClientHelloMinimumSize - size in
  if decide (0 < paddingSize) then <[TagPAD := replicate (Z.to_nat paddingSize) x00]> tags else tags.

Definition sendCHLO (e : client_env) : CM () :=
  do+ sm_modify (λ h, cl_set_hello h (cl_clientHelloCounter h + 1) (cl_lastSentCHLO h) (cl_written h)) in
  let+ h := sm_get in
  if decide (MaxClientHellos < cl_clientHelloCounter h) then sm_throw (HeQuic CryptoTooManyRejects)
  else
    let+ tags := getTags in
    let+ b := sm_some (write_HandshakeMessage {| MTag := TagCHLO; MData := addPadding tags |}) in
    match ce_write_fails e with
    | Some err => sm_throw err
    | None => sm_modify (λ h, cl_set_hello h (cl_clientHelloCounter h) b (cl_written h ++ [b]))
    end.

(** * Keys *)

Definition maybeUpgradeCrypto : CM () :=
  let+ h := sm_get in
  if negb (cl_serverVerified h) then sm_ret ()
  else
    let leafCert := default [] (GetLeafCert (cl_certManager h)) in
    match secureAEAD (cl_aeads h), cl_serverConfig h with
    | None, Some sc =>
        if decide (sc_sharedSecret sc = [] ∨ cl_nonc h = [] ∨ leafCert = [] ∨ cl_diversificationNonce h = [] ∨ cl_lastSentCHLO h = [])
        then sm_ret ()
        else
          let nonce := match cl_sno h with None => cl_nonc h | Some sno => cl_nonc h ++ sno end in
          let+ secure := sm_lift (of_crypto (DeriveQuicCryptoAESKeys P false (sc_sharedSecret sc) nonce (cc_connID (cl_config h))
                                               (cl_lastSentCHLO h) (sc_raw sc) leafCert (cl_diversificationNonce h) PerspectiveClient)) in
          do+ cl_on_aeads (λ k, Some (set_secure k secure)) in
          cl_on_aeads (λ k, send_level k EncryptionSecure)
    | _, _ => sm_ret ()
    end.

(** * The loop *)

(** Before it waits for an event. *)
Definition cl_top (e : client_env) : CM () :=
  do+ maybeUpgradeCrypto in
  let+ h := sm_get in
  match secureAEAD (cl_aeads h) with None => sendCHLO e | Some _ => sm_ret () end.

Definition cl_take (e : client_env) (ev : client_event) : CM () :=
  let+ h := sm_get in
  match ev with
  | CeNonce divNonce =>
      if decide (cl_diversificationNonce h ≠ [] ∧ cl_diversificationNonce h ≠ divNonce) then sm_throw errConflictingDiversificationNonces
      else sm_modify (λ h, cl_set_keys h divNonce (cl_aeads h) (cl_parameters h) (cl_cached h))
  | CeError _ => sm_throw (HeQuic HandshakeFailed)
  | CeMessage message =>
      if decide (MTag message = TagREJ) then handleREJMessage e (MData message)
      else if decide (MTag message = TagSHLO) then
        do+ handleSHLOMessage (MData message) in
        if CacheHandshake (cc_params (cl_config h)) then cacheHandshake e else sm_ret ()
      else sm_throw (HeQuic InvalidCryptoMessageType)
  end.
Definition cl_start (e : client_env) : CM () :=
  let+ h := sm_get in
  do+ (if CacheHandshake (cc_params (cl_config h)) then useHandshakeCache e else sm_ret ()) in
  cl_top e.
Definition cl_event (e : client_env) (ev : client_event) : CM () := do+ cl_take e ev in cl_top e.

(** * Packets *)

Definition cl_Open (k : aeads) (src : list byte) (n : Z) (ad : list byte) : aeads * result AEADError (list byte * EncryptionLevel) :=
  match forwardSecureAEAD k with
  | Some aead =>
      (k, match aead_Open aead src n ad with Ok data => Ok (data, EncryptionForwardSecure) | Err e => Err e end)
  | None =>
      match secureAEAD k with
      | Some aead =>
          match aead_Open aead src n ad with
          | Ok data => (set_received k true (receivedForwardSecurePacket k), Ok (data, EncryptionSecure))
          | Err e => if receivedSecurePacket k then (k, Err e) else (k, null_Open k src n ad)
          end
      | None => (k, null_Open k src n ad)
      end
  end.

(** A client is never asked for a diversification nonce, which would panic. *)
Definition cl_CryptoSetup h : CryptoSetup :=
  let k := cl_aeads h in {|
    GetSealer := match forwardSecureAEAD k, secureAEAD k with
                 | Some a, _ => (EncryptionForwardSecure, a)
                 | None, Some a => (EncryptionSecure, a)
                 | None, None => (EncryptionUnencrypted, nullAEAD k)
                 end;
    GetSealerWithEncryptionLevel := sealer_with_level k;
    GetSealerForCryptoStream := (EncryptionUnencrypted, nullAEAD k);
    crypto_DiversificationNonce := []
  |}.
End client.

Close Scope Z_scope.

Lemma cl_bind_aeads {M B} f k (g : () → SM (cryptoSetupClient M) B) h :
  f (cl_aeads h) = Some k → sm_bind (cl_on_aeads f) g h = g () (cl_set_aeads h k).
Proof. intros E. unfold cl_on_aeads, sm_bind, sm_get, sm_some. by rewrite E. Qed.
