(* ===== verification/CryptoHello.v ===== *)
(** Client hellos as the server reads them: how long a message is, what the tags of a hello say,
    and that [sendCHLO] sends what it means ([sendCHLO_run]), padded to what a server answers. *)

From Stdlib Require Import ZArith Lia.
From Stdlib Require Import Strings.Byte Strings.String.
From stdpp Require Import prelude numbers list gmap sorting.
From S2P Require Import Prelude ByteOrder Protocol Wire ReceivedPackets AckCodec PublicHeader PacketUnpacker Handshake NullAEAD.
From S2P Require Import KeyDerivation RTTStats SentPackets PacketNumberGenerator Path FlowControl Stream StreamsMap StreamFramer PacketPacker.
From S2P Require Import ServerConfig CryptoSetup CryptoSetupServer CryptoSetupClient.

(** * The size of a message *)

Definition message_size (m : gmap Z (list byte)) : Z := map_fold (λ _ v acc, 8 + zlen v + acc)%Z 0%Z m.

Lemma write_entries_size data tags offset :
  let '(index, values) := write_entries data tags offset in
  (zlen index + zlen values = foldr (λ t acc, 8 + zlen (default [] (data !! t)) + acc) 0 tags)%Z.
Proof.
  revert offset. induction tags as [|t tags IH]; intros offset; [done|]. cbn [write_entries foldr].
  specialize (IH (u32 (offset + u32 (zlen (default [] (data !! t)))))). destruct (write_entries data tags _) as [index values].
  rewrite !zlen_app. unfold zlen at 1 2. rewrite !length_le_bytes. lia.
Qed.

Lemma foldr_fst_perm (data : gmap Z (list byte)) tags l :
  (∀ t v, (t, v) ∈ l → data !! t = Some v) → tags ≡ₚ l.*1 →
  foldr (λ t acc, 8 + zlen (default [] (data !! t)) + acc)%Z 0%Z tags = foldr (λ (p : Z * list byte) acc, 8 + zlen p.2 + acc)%Z 0%Z l.
Proof.
  intros Hd Hp.
  assert (foldr (λ t acc, 8 + zlen (default [] (data !! t)) + acc)%Z 0%Z tags = foldr (λ t acc, 8 + zlen (default [] (data !! t)) + acc)%Z 0%Z (l.*1)) as ->.
  { apply (foldr_permutation (=)); [intros x y z ->; done|intros; lia|done]. }
  clear Hp. induction l as [|[t v] l IH]; [done|]. cbn. rewrite (Hd t v) by by left. cbn. rewrite IH; [done|]. intros t' v' Hin. apply Hd. by right.
Qed.

Lemma message_length tag m bs :
  message_ok {| MTag := tag; MData := m |} → write_HandshakeMessage {| MTag := tag; MData := m |} = Some bs → zlen bs = (8 + message_size m)%Z.
Proof.
  intros [Ht Hs _]. unfold write_HandshakeMessage. cbn [MTag MData] in *. unfold CryptoMaxParams in Hs.
  rewrite (u32_small tag), (u16_small (Z.of_nat (size m))), (little_write32 tag), (little_write16 (Z.of_nat (size m))), (little_write16 0) by lia.
  cbn [mbind option_bind]. pose proof (write_entries_size m (getTagsSorted {| MTag := tag; MData := m |}) 0) as Hz.
  rewrite le_bytes_enc. destruct (write_entries _ _ _) as [index values]. intros [= <-]. rewrite !zlen_cons, zlen_app.
  unfold message_size. rewrite map_fold_foldr.
  rewrite (foldr_fst_perm m _ (map_to_list m)) in Hz.
  - rewrite (foldr_ext _ (λ (p : Z * list byte) acc, 8 + zlen p.2 + acc)%Z 0%Z 0%Z _ (map_to_list m)); [lia|by intros [k v]|done|done].
  - intros t v. apply elem_of_map_to_list.
  - rewrite tags_sorted_perm. apply NoDup_Permutation; [apply NoDup_elements|apply NoDup_fst_map_to_list|].
    intros t. rewrite elem_of_elements, elem_of_dom, list_elem_of_fmap. cbn [MData]. split.
    + intros [v Hv]. exists (t, v). split; [done|]. by apply elem_of_map_to_list.
    + intros ([t' v] & -> & Hin). apply elem_of_map_to_list in Hin. by eexists.
Qed.

(** A padded message is as large as the server asks for. *)
Lemma addPadding_size tags : tags !! TagPAD = None → (ClientHelloMinimumSize ≤ message_size (addPadding tags))%Z.
Proof.
  intros Hp. unfold addPadding. fold (message_size tags). case_decide as H; [|lia].
  unfold message_size. rewrite map_fold_insert_L; [|intros; lia|done]. fold (message_size tags). rewrite zlen_replicate. lia.
Qed.

(** * What a client's hello says *)

Lemma put_if_ne b t v m k : t ≠ k → put_if b t v m !! k = m !! k.
Proof. intros H. destruct b; [by apply lookup_insert_ne|done]. Qed.
Lemma put_if_eq b t v m : put_if b t v m !! t = if b then Some v else m !! t.
Proof. destruct b; [apply lookup_insert_eq|done]. Qed.

(** Goes past insertions under other tags. *)
Ltac tags_apart := let H := fresh in intros H; vm_compute in H; discriminate H.
Ltac tag_step :=
  first
    [ rewrite lookup_insert_ne by tags_apart
    | rewrite put_if_ne by tags_apart ].
Ltac tag_lookup := repeat tag_step.
Ltac tag_found :=
  tag_lookup;
  match goal with
  | |- <[_ := _]> _ !! _ = _ => apply lookup_insert_eq
  | |- ∅ !! _ = _ => apply lookup_empty
  | _ => assumption
  end.

Ltac tag_notin := apply (bool_decide_eq_true_1 _); vm_compute; reflexivity.

(** The tags [SetFromMap] looks at. *)
Definition parameter_tags : list Z := [TagTCID; TagMSPC; TagMIDS; TagICSL; TagSFCW; TagCFCW].

Lemma on_tag_ext m1 m2 tag apply k1 k2 h :
  m1 !! tag = m2 !! tag → (∀ h, k1 h = k2 h) → on_tag m1 tag apply k1 h = on_tag m2 tag apply k2 h.
Proof. intros E Hk. unfold on_tag. rewrite E. destruct (m2 !! tag); [|done]. destruct (LittleEndian.ReadUint32 l) as [[v r]|]; [apply Hk|done]. Qed.
Lemma on_window_ext m1 m2 tag apply k1 k2 h :
  m1 !! tag = m2 !! tag → (∀ h, k1 h = k2 h) → on_window m1 tag apply k1 h = on_window m2 tag apply k2 h.
Proof.
  intros E Hk. unfold on_window. rewrite E. destruct (m2 !! tag) eqn:E2; [|apply Hk]. destruct (flowControlNegotiated h); [done|].
  apply on_tag_ext; [congruence|done].
Qed.
Lemma SetFromMap_ext m1 m2 h : (∀ t, t ∈ parameter_tags → m1 !! t = m2 !! t) → SetFromMap h m1 = SetFromMap h m2.
Proof.
  intros H. assert (∀ t, t ∈ parameter_tags → m1 !! t = m2 !! t) as Hm by done. unfold SetFromMap.
  assert (∀ t, bool_decide (t ∈ parameter_tags) = true → m1 !! t = m2 !! t) as Ht by (intros t Hin%bool_decide_eq_true; by apply Hm).
  destruct (bool_decide (perspective h = PerspectiveServer)).
  - apply on_tag_ext; [by apply Ht|intros h1]. apply on_tag_ext; [by apply Ht|intros h2]. apply on_tag_ext; [by apply Ht|intros h3].
    apply on_tag_ext; [by apply Ht|intros h4]. apply on_window_ext; [by apply Ht|intros h5]. apply on_window_ext; [by apply Ht|intros h6].
    by rewrite (Ht TagCFCW), (Ht TagSFCW) by done.
  - apply on_tag_ext; [by apply Ht|intros h2]. apply on_tag_ext; [by apply Ht|intros h3].
    apply on_tag_ext; [by apply Ht|intros h4]. apply on_window_ext; [by apply Ht|intros h5]. apply on_window_ext; [by apply Ht|intros h6].
    by rewrite (Ht TagCFCW), (Ht TagSFCW) by done.
Qed.

Lemma message_ok_put tag b k v m : message_ok {| MTag := tag; MData := m |} → (0 ≤ k < 2 ^ 32)%Z → (zlen v ≤ CryptoParameterMaxLength)%Z →
  (Z.of_nat (size m) < CryptoMaxParams)%Z → message_ok {| MTag := tag; MData := put_if b k v m |}.
Proof. intros. destruct b; [by apply message_ok_insert|done]. Qed.
Lemma size_put b k v m : size (put_if b k v m) ≤ S (size m).
Proof. destruct b; cbn; [rewrite map_size_insert; destruct (m !! k); cbn; lia|lia]. Qed.
Lemma size_insert_S (k : Z) (v : list byte) (m : gmap Z (list byte)) : size (<[k := v]> m) ≤ S (size m).
Proof. rewrite map_size_insert. destruct (m !! k); cbn; lia. Qed.

Lemma message_ok_tag tag tag' m : message_ok {| MTag := tag; MData := m |} → (0 ≤ tag' < 2 ^ 32)%Z → message_ok {| MTag := tag'; MData := m |}.
Proof. intros [_ H2 H3] H. by split. Qed.

(** At most [n] tags, all of which fit. *)
Definition fits (n : nat) (m : gmap Z (list byte)) : Prop := message_ok {| MTag := TagCHLO; MData := m |} ∧ size m ≤ n.
Lemma fits_put n b k v m : fits n m → (bool_decide (0 ≤ k < 2 ^ 32)%Z && bool_decide (n < 100)) = true → (zlen v ≤ CryptoParameterMaxLength)%Z →
  fits (S n) (put_if b k v m).
Proof.
  intros [Hm Hs] [Hk%bool_decide_eq_true Hn%bool_decide_eq_true]%andb_true_iff Hv. split.
  - apply message_ok_put; try done. unfold CryptoMaxParams. lia.
  - etransitivity; [apply size_put|lia].
Qed.
Lemma fits_insert n k v m : fits n m → (bool_decide (0 ≤ k < 2 ^ 32)%Z && bool_decide (n < 100)) = true → (zlen v ≤ CryptoParameterMaxLength)%Z →
  fits (S n) (<[k := v]> m).
Proof. exact (fits_put n true k v m). Qed.
Lemma fits_le_bytes n v : n < 100 → (zlen (le_bytes n v) ≤ CryptoParameterMaxLength)%Z.
Proof. intros Hn. unfold zlen. rewrite length_le_bytes. unfold CryptoParameterMaxLength. lia. Qed.

Ltac fit_all :=
  repeat (first [assumption|apply fits_put|apply fits_insert]; [|vm_compute; reflexivity|]);
  first [assumption|apply fits_le_bytes; lia|vm_compute; discriminate].

Lemma fits_empty : fits 0 ∅.
Proof. split; [|done]. split; [by vm_compute|by vm_compute|by intros k v Hk]. Qed.
Lemma fits_message n m tag : fits n m → (bool_decide (0 ≤ tag < 2 ^ 32)%Z) = true → message_ok {| MTag := tag; MData := m |}.
Proof. intros [H _] Ht%bool_decide_eq_true. by apply (message_ok_tag TagCHLO). Qed.

Section hellos.
Context {M : Type} `{!CertManager M}.
Implicit Types h : cryptoSetupClient M.

(** A client whose values fit into a message. *)
Record hello_ready h : Prop := {
  hr_params : Handshake.params_ok (cl_parameters h);
  hr_hostname : (zlen (cc_hostname (cl_config h)) ≤ CryptoParameterMaxLength)%Z;
  hr_ccs : (zlen (GetCommonCertificateHashes (cl_certManager h)) ≤ CryptoParameterMaxLength)%Z;
  hr_stk : (zlen (cl_stk h) ≤ CryptoParameterMaxLength)%Z;
  hr_sno : (zlen (default [] (cl_sno h)) ≤ CryptoParameterMaxLength)%Z;
  hr_nonc : (zlen (cl_nonc h) ≤ CryptoParameterMaxLength)%Z;
  hr_config sc : cl_serverConfig h = Some sc → (zlen (sc_ID sc) ≤ CryptoParameterMaxLength)%Z ∧ (zlen (PublicKey (sc_kex sc)) ≤ CryptoParameterMaxLength)%Z;
  hr_truncation : RequestConnectionIDTruncation (cc_params (cl_config h)) = false
}.

(** What the server looks at. *)
Record hello_says h (tags : gmap Z (list byte)) : Prop := {
  hs_fhl2 : tags !! TagFHL2 = None;
  hs_nstp : tags !! TagNSTP = None;
  hs_sni : tags !! TagSNI = Some (cc_hostname (cl_config h));
  hs_ver : tags !! TagVER = Some (le_bytes 4 (VersionNumberToTag (cc_version (cl_config h))));
  hs_stk : default [] (tags !! TagSTK) = cl_stk h;
  hs_ccs : default [] (tags !! TagCCS) = GetCommonCertificateHashes (cl_certManager h);
  hs_ccrt : tags !! TagCCRT = None;
  hs_keys : match cl_serverConfig h, GetLeafCert (cl_certManager h) with
            | Some sc, Some leaf =>
                tags !! TagPUBS = Some (PublicKey (sc_kex sc)) ∧ tags !! TagSCID = Some (sc_ID sc) ∧
                tags !! TagXLCT = Some (le_bytes 8 (HashCert leaf)) ∧ tags !! TagNONC = Some (cl_nonc h) ∧
                tags !! TagAEAD = Some (list_byte_of_string "AESG") ∧ tags !! TagKEXS = Some (list_byte_of_string "C255")
            | _, _ => tags !! TagPUBS = None
            end;
  hs_params : ∃ m, GetHelloMap (cl_parameters h) = Some m ∧ ∀ t, t ∈ parameter_tags → tags !! t = m !! t
}.

Lemma stk_default (v : list byte) (m : gmap Z (list byte)) t : m !! t = None → default [] (put_if (negb (is_empty v)) t v m !! t) = v.
Proof using Type. intros H. rewrite put_if_eq. destruct v; [by rewrite H|done]. Qed.

Lemma hello_map_other p m t : GetHelloMap p = Some m → t ∉ [TagSFCW; TagCFCW; TagMIDS; TagMSPC; TagICSL] → m !! t = None.
Proof using Type.
  unfold GetHelloMap. destruct (LittleEndian.WriteUint32 _) as [a|]; [|done]. destruct (LittleEndian.WriteUint32 _) as [b|]; [|done].
  destruct (LittleEndian.WriteUint32 _) as [c|]; [|done]. destruct (LittleEndian.WriteUint32 _) as [d|]; [|done].
  destruct (LittleEndian.WriteUint32 _) as [e|]; [|done]. cbn [mbind option_bind]. intros [= <-] Ht.
  rewrite !lookup_insert_ne by (intros <-; apply Ht; set_solver). apply lookup_empty.
Qed.
Lemma hello_map_size p m : GetHelloMap p = Some m → size m ≤ 5.
Proof using Type.
  unfold GetHelloMap. destruct (LittleEndian.WriteUint32 _) as [a|]; [|done]. destruct (LittleEndian.WriteUint32 _) as [b|]; [|done].
  destruct (LittleEndian.WriteUint32 _) as [c|]; [|done]. destruct (LittleEndian.WriteUint32 _) as [d|]; [|done].
  destruct (LittleEndian.WriteUint32 _) as [e|]; [|done]. cbn [mbind option_bind]. intros [= <-].
  etransitivity; [apply size_insert_S|]. repeat (apply le_n_S; etransitivity; [apply size_insert_S|]). by vm_compute.
Qed.
Lemma hello_map_fits p m : Handshake.params_ok p → GetHelloMap p = Some m → fits 5 m.
Proof using Type.
  intros Hp Hm. split; [|by apply (hello_map_size p)]. destruct (hello_map p Hp) as (m' & Hm' & Hok & _).
  rewrite Hm in Hm'. injection Hm' as <-. by apply (message_ok_tag 0).
Qed.
End hellos.

Section hello_runs.
Context {M : Type} `{!CertManager M}.
Implicit Types h : cryptoSetupClient M.

Lemma parameter_tag_cases t : t ∈ parameter_tags → t = TagTCID ∨ t ∈ [TagSFCW; TagCFCW; TagMIDS; TagMSPC; TagICSL].
Proof using Type. unfold parameter_tags. set_solver. Qed.

(** Whether tags are among the first. *)
Local Ltac other Hm := rewrite (hello_map_other _ _ _ Hm) by (apply (bool_decide_eq_false_1 _); vm_compute; reflexivity).

Lemma key_tags_other h sc leaf m t : t ∉ [TagPUBS; TagAEAD; TagKEXS; TagXLCT; TagNONC] → key_tags h sc leaf m !! t = m !! t.
Proof using Type. intros Ht. unfold key_tags. by rewrite !lookup_insert_ne by (intros <-; apply Ht; set_solver). Qed.
(** The tags a hello starts with. *)
Definition first_tags h (m : gmap Z (list byte)) : gmap Z (list byte) :=
  let ccs := GetCommonCertificateHashes (cl_certManager h) in
  let sno := default [] (cl_sno h) in
  put_if (negb (is_empty sno)) TagSNO sno (put_if (negb (is_empty (cl_stk h))) TagSTK (cl_stk h)
    (put_if (RequestConnectionIDTruncation (cc_params (cl_config h))) TagTCID [x00; x00; x00; x00]
      (<[TagVER := le_bytes 4 (VersionNumberToTag (cc_version (cl_config h)))]>
        (put_if (negb (is_empty ccs)) TagCCS ccs (<[TagPDMD := list_byte_of_string "X509"]> (<[TagSNI := cc_hostname (cl_config h)]> m)))))).
Definition hello_tags h (m : gmap Z (list byte)) : gmap Z (list byte) :=
  match cl_serverConfig h with
  | None => first_tags h m
  | Some sc => let tags := <[TagSCID := sc_ID sc]> (first_tags h m) in
               match GetLeafCert (cl_certManager h) with None => tags | Some leafCert => key_tags h sc leafCert tags end
  end.
Lemma getTags_eq h m : GetHelloMap (cl_parameters h) = Some m → getTags h = Some (h, Ok (hello_tags h m)).
Proof using Type. intros Hm. unfold getTags. erewrite sm_bind_ok by reflexivity. rewrite Hm. unfold hello_tags. by destruct (cl_serverConfig h); [destruct (GetLeafCert _)|]. Qed.

Lemma first_tags_fit h m : hello_ready h → fits 5 m → fits 12 (first_tags h m).
Proof using Type.
  intros [H1 H2 H3 H4 H5 H6 H7 H8] Hm. unfold first_tags. fit_all.
Qed.
Lemma hello_tags_fit h m : hello_ready h → fits 5 m → fits 18 (hello_tags h m).
Proof using Type.
  intros Hr Hm. pose proof (first_tags_fit h m Hr Hm) as Hf. destruct Hr as [H1 H2 H3 H4 H5 H6 H7 H8].
  unfold hello_tags. destruct (cl_serverConfig h) as [sc|] eqn:Esc; [|destruct Hf; split; [done|lia]].
  destruct (H7 sc eq_refl) as [Hid Hpub].
  assert (fits 13 (<[TagSCID := sc_ID sc]> (first_tags h m))) as Hc by fit_all.
  destruct (GetLeafCert _) as [leaf|]; [|destruct Hc; split; [done|lia]]. unfold key_tags.
  fit_all.
Qed.

(** ** Sending it *)

Lemma hello_tags_first h m t : t ∉ [TagPUBS; TagAEAD; TagKEXS; TagXLCT; TagNONC; TagSCID] → hello_tags h m !! t = first_tags h m !! t.
Proof using Type.
  intros Ht. unfold hello_tags. destruct (cl_serverConfig h) as [sc|]; [|done].
  assert (<[TagSCID := sc_ID sc]> (first_tags h m) !! t = first_tags h m !! t) as E by (apply lookup_insert_ne; intros <-; apply Ht; set_solver).
  destruct (GetLeafCert _); [|done]. rewrite key_tags_other, E; [done|]. set_solver.
Qed.
Lemma first_tags_other h m t : t ∉ [TagSNO; TagSTK; TagTCID; TagVER; TagCCS; TagPDMD; TagSNI] → first_tags h m !! t = m !! t.
Proof using Type.
  intros Ht. unfold first_tags.
  repeat first [rewrite put_if_ne by (intros <-; apply Ht; set_solver)|rewrite lookup_insert_ne by (intros <-; apply Ht; set_solver)]. done.
Qed.

Lemma hello_tags_say h m : hello_ready h → GetHelloMap (cl_parameters h) = Some m → hello_says h (hello_tags h m).
Proof using Type.
  intros [H1 H2 H3 H4 H5 H6 H7 H8] Hm.
  assert (∀ t, t ∉ [TagSFCW; TagCFCW; TagMIDS; TagMSPC; TagICSL] → m !! t = None) as Hother by (intros t; apply (hello_map_other _ _ _ Hm)).
  split.
  1,2: rewrite hello_tags_first, first_tags_other by tag_notin; apply Hother; tag_notin.
  5: rewrite hello_tags_first, first_tags_other by tag_notin; apply Hother; tag_notin.
  1-4: rewrite hello_tags_first by tag_notin; unfold first_tags.
  - tag_lookup. apply lookup_insert_eq.
  - tag_lookup. apply lookup_insert_eq.
  - rewrite put_if_ne by tags_apart. apply stk_default. tag_lookup. apply Hother. tag_notin.
  - tag_lookup. apply stk_default. tag_lookup. apply Hother. tag_notin.
  - unfold hello_tags. destruct (cl_serverConfig h) as [sc|].
    + destruct (GetLeafCert _) as [leaf|].
      * unfold key_tags. split_and!; tag_lookup; apply lookup_insert_eq.
      * tag_lookup. rewrite first_tags_other by tag_notin. apply Hother. tag_notin.
    + rewrite first_tags_other by tag_notin. apply Hother. tag_notin.
  - exists m. split; [done|]. intros t [->|Ht]%parameter_tag_cases.
    + rewrite hello_tags_first by tag_notin. unfold first_tags. rewrite H8. tag_lookup. cbn [put_if]. tag_lookup. done.
    + rewrite hello_tags_first, first_tags_other; [done|..]; revert t Ht; rewrite <-Forall_forall; repeat constructor; tag_notin.
Qed.

Lemma padded_fits n m : fits n m → m !! TagPAD = None → n < 99 → fits (S n) (addPadding m).
Proof using Type.
  intros Hm Hp Hn. unfold addPadding. case_decide as Hs; [|destruct Hm; split; [done|lia]]. apply fits_insert; [done| |].
  - rewrite (bool_decide_true (0 ≤ TagPAD < _)%Z) by by vm_compute. by apply bool_decide_true; lia.
  - rewrite zlen_replicate. unfold ClientHelloMinimumSize, CryptoParameterMaxLength.
    assert (0 ≤ map_fold (λ _ v acc, 8 + zlen v + acc) 0 m)%Z; [|lia].
    apply (map_fold_weak_ind (λ r _, 0 ≤ r)%Z); [done|]. intros k v m' r _ Hr. pose proof (zlen_nonneg v). lia.
Qed.
Lemma addPadding_other m t : t ≠ TagPAD → addPadding m !! t = m !! t.
Proof using Type. intros Ht. unfold addPadding. case_decide; [by apply lookup_insert_ne|done]. Qed.
Lemma padded_says h m : hello_says h m → hello_says h (addPadding m).
Proof using Type.
  intros [S1 S2 S3 S4 S5 S6 S7 S8 (m' & Hm' & S9)]. split; rewrite ?addPadding_other by tags_apart; try assumption.
  exists m'. split; [done|]. intros t Ht. rewrite addPadding_other; [by apply S9|]. intros ->. revert Ht. tag_notin.
Qed.

(** [sendCHLO] sends a hello that the server reads as it is meant, large enough to be answered. *)
Lemma sendCHLO_run e h :
  hello_ready h → (cl_clientHelloCounter h < MaxClientHellos)%Z → ce_write_fails e = None →
  ∃ chlo tags, sendCHLO e h = Some (cl_set_hello h (cl_clientHelloCounter h + 1) chlo (cl_written h ++ [chlo]), Ok ()) ∧
    reads ParseHandshakeMessage chlo {| MTag := TagCHLO; MData := tags |} ∧ (ClientHelloMinimumSize ≤ zlen chlo)%Z ∧ hello_says h tags.
Proof using Type.
  intros Hr Hc He. destruct (hello_map _ (hr_params _ Hr)) as (m & Hm & Hok & _).
  pose proof (hello_map_fits _ _ (hr_params _ Hr) Hm) as Hf.
  assert (hello_tags h m !! TagPAD = None) as Hpad.
  { rewrite hello_tags_first, first_tags_other by tag_notin. apply (hello_map_other _ _ _ Hm). tag_notin. }
  pose proof (padded_fits 18 _ (hello_tags_fit h m Hr Hf) Hpad ltac:(lia)) as [Hpok _].
  destruct (message_written _ Hpok) as (chlo & Hw & Hread). exists chlo, (addPadding (hello_tags h m)).
  split; [|split; [done|split]].
  - unfold sendCHLO. erewrite sm_bind_ok by reflexivity. erewrite sm_bind_ok by reflexivity.
    rewrite decide_False by (cbn; lia).
    rewrite (sm_bind_ok getTags _ _ _ _ (getTags_eq (cl_set_hello h (cl_clientHelloCounter h + 1) (cl_lastSentCHLO h) (cl_written h)) m Hm)).
    change (hello_tags (cl_set_hello h _ _ _) m) with (hello_tags h m). unfold sm_bind, sm_some. rewrite Hw. cbn [fmap option_fmap option_map]. by rewrite He.
  - rewrite (message_length _ _ _ Hpok Hw). pose proof (addPadding_size _ Hpad). lia.
  - by apply padded_says, hello_tags_say.
Qed.
End hello_runs.
