(* ===== verification/CryptoAnswers.v ===== *)
(** The answers of a server to the hellos of a client.

    An inchoate hello gets a rejection with the server's config, a token, and, for a valid token,
    a proof with certificates ([sv_turn_inchoate]); a hello with keys gets a server hello, with
    both keys derived ([sv_turn_full]). *)

From Stdlib Require Import ZArith Lia.
From Stdlib Require Import Strings.Byte Strings.String.
From stdpp Require Import prelude numbers list gmap sorting.
From S2P Require Import Prelude ByteOrder Protocol Wire ReceivedPackets AckCodec PublicHeader PacketUnpacker Handshake NullAEAD.
From S2P Require Import KeyDerivation RTTStats SentPackets PacketNumberGenerator Path FlowControl Stream StreamsMap StreamFramer PacketPacker.
From S2P Require Import ServerConfig CryptoSetup CryptoSetupServer CryptoSetupClient CryptoHello.

(** * The server's answers *)

Lemma message_size_insert m k v : m !! k = None → message_size (<[k := v]> m) = (8 + zlen v + message_size m)%Z.
Proof. intros H. unfold message_size. rewrite map_fold_insert_L; [done|intros; lia|done]. Qed.

Section server_runs.
Context (P : primitives) `{!PrimitiveLaws P} {M : Type} `{!CertManager M}.
Context (certs : CertChain) (hostname leaf crt : list byte) (cm0 cm1 : M).
Implicit Types (h : cryptoSetupClient M) (s : cryptoSetupServer).

(** The certificate of the server is one the client accepts. *)
Record certificates_ok : Prop := {
  ck_hostname : hostname ≠ [];
  ck_leaf : chain_GetLeafCert certs hostname = Ok leaf;
  ck_leaf_some : leaf ≠ [];
  ck_before : GetLeafCert cm0 = None;
  ck_compressed : GetCertsCompressed certs hostname (GetCommonCertificateHashes cm0) [] = Ok crt ∧ (zlen crt ≤ CryptoParameterMaxLength)%Z;
  ck_set : SetData cm0 crt = (cm1, None);
  ck_after : GetLeafCert cm1 = Some leaf;
  ck_ccs : (zlen (GetCommonCertificateHashes cm0) ≤ CryptoParameterMaxLength)%Z ∧ (zlen (GetCommonCertificateHashes cm1) ≤ CryptoParameterMaxLength)%Z;
  ck_verified now : Verify cm1 now verified_name = None;
  ck_signed rnd chlo scfg : ∃ proof, SignServerProof certs rnd hostname chlo scfg = Ok proof ∧ proof ≠ [] ∧
    (zlen proof ≤ CryptoParameterMaxLength)%Z ∧ VerifyServerProof cm1 proof chlo scfg = true
}.

Lemma config_raw_length sc raw : config_ok sc → scfg_Get sc = Some raw → (zlen raw ≤ CryptoParameterMaxLength)%Z.
Proof using Type.
  intros Hok Hw. rewrite (message_length _ _ _ (config_message_ok sc Hok) Hw). destruct Hok as [H1 H2 H3].
  rewrite !message_size_insert by (tag_lookup; apply lookup_empty). rewrite zlen_app. unfold zlen. rewrite H1, H2, H3. by vm_compute.
Qed.

Definition sv_wrote s (reply : list byte) : cryptoSetupServer :=
  sv_update s (sv_diversificationNonce s) (sv_aeads s) (sv_sentSHLO s) (sv_written s ++ [reply]) (sv_parameters s).

(** A hello with a name, in the version spoken, is looked at. *)
Lemma check_hello_ok s h tags :
  hello_says h tags → cc_hostname (cl_config h) ≠ [] → VersionTagToNumber (VersionNumberToTag (cc_version (cl_config h))) = sv_version s →
  check_hello s tags = Ok (cc_hostname (cl_config h)).
Proof using Type.
  intros [S1 S2 S3 S4 _ _ _ _ _] Hn Hv. unfold check_hello. rewrite S1, S2, S3, S4. rewrite !decide_False by (by intros [? ?]).
  destruct (cc_hostname (cl_config h)) as [|b l]; [done|]. unfold zlen. rewrite length_le_bytes, decide_False by (by intros []).
  rewrite le_val_bytes by (pose proof (VersionNumberToTag_range (cc_version (cl_config h))); simpl; lia).
  by rewrite Hv, bool_decide_false by auto.
Qed.

(** What a rejection carries. *)
Record rejection (reply : gmap Z (list byte)) (raw token : list byte) (more : option (list byte * list byte)) : Prop := {
  rj_scfg : reply !! TagSCFG = Some raw;
  rj_stk : reply !! TagSTK = Some token;
  rj_sno : reply !! TagSNO = None;
  rj_prof : reply !! TagPROF = fst <$> more;
  rj_cert : reply !! TagCERT = snd <$> more
}.

Lemma reads_all m bs v : reads (A := HandshakeMessage) m bs v → m bs = Ok (v, []).
Proof using Type. intros H. specialize (H []). by rewrite app_nil_r in H. Qed.

Lemma sv_turn_eq e s chlo tags :
  reads ParseHandshakeMessage chlo {| MTag := TagCHLO; MData := tags |} →
  sv_turn P e chlo s = sm_bind (handleMessage P e chlo tags) (λ done, sm_ret ([], done)) s.
Proof using Type.
  intros Hr%reads_all. unfold sv_turn. rewrite Hr. rewrite decide_False by (by intros []). cbn [length MData].
  by rewrite Nat.sub_0_r, take_ge by lia.
Qed.

Lemma sv_turn_inchoate e s h chlo tags raw nonce :
  certificates_ok → cc_hostname (cl_config h) = hostname → GetCommonCertificateHashes (cl_certManager h) = GetCommonCertificateHashes cm0 →
  sv_certs s = certs → VersionTagToNumber (VersionNumberToTag (cc_version (cl_config h))) = sv_version s →
  reads ParseHandshakeMessage chlo {| MTag := TagCHLO; MData := tags |} → (ClientHelloMinimumSize ≤ zlen chlo)%Z → hello_says h tags →
  tags !! TagPUBS = None → config_ok (sv_scfg s) → scfg_Get (sv_scfg s) = Some raw →
  se_stkNonce e = Some nonce → length nonce = 16 → (0 ≤ se_now e < 2 ^ 62)%Z → (zlen (addr_IP (sv_remoteAddr s)) ≤ 16)%Z → se_write_fails e = None →
  ∃ rej reply token more,
    sv_turn P e chlo s = Some (sv_wrote s rej, Ok ([], false)) ∧
    reads ParseHandshakeMessage rej {| MTag := TagREJ; MData := reply |} ∧ rejection reply raw token more ∧
    NewToken P (sv_stkKey s) (sv_remoteAddr s) (se_now e) (Some nonce) = Ok token ∧ (zlen token ≤ CryptoParameterMaxLength)%Z ∧
    if acceptSTK P e s (cl_stk h)
    then ∃ proof, more = Some (proof, crt) ∧ proof ≠ [] ∧ VerifyServerProof cm1 proof chlo raw = true
    else more = None.
Proof using Type*.
  intros Hck Hn Hccs Hcerts Hv Hread Hsize Hs Hpubs Hcfg Hraw Hst Hl Hnow Hip Hw.
  destruct (NewToken P (sv_stkKey s) (sv_remoteAddr s) (se_now e) (Some nonce)) as [token|] eqn:Et; [|done].
  assert (zlen token ≤ CryptoParameterMaxLength)%Z as Htl.
  { unfold NewToken, stk_NewToken in Et. injection Et as <-. rewrite zlen_app, gcm_overhead.
    assert (Second = 1000000000)%Z as ES by done. assert (0 ≤ se_now e / Second < 2 ^ 62)%Z as Hq.
    { rewrite ES. split; [apply Z.div_pos; lia|]. apply Z.div_lt_upper_bound; lia. }
    assert (zlen (encodeRemoteAddr (sv_remoteAddr s)) ≤ 17)%Z as He by (unfold encodeRemoteAddr; rewrite zlen_cons; lia).
    pose proof (asn1_length (P := P) (encodeRemoteAddr (sv_remoteAddr s)) (se_now e / Second) ltac:(lia) ltac:(lia)).
    unfold zlen at 1. rewrite Hl. unfold CryptoParameterMaxLength. lia. }
  assert (∀ (m : gmap Z (list byte)) (v1 v2 : list byte), m !! TagSNO = None → m !! TagSCFG = Some raw → m !! TagSTK = Some token →
    rejection (<[TagPROF := v1]> (<[TagCERT := v2]> m)) raw token (Some (v1, v2))) as Hmore.
  { intros m v1 v2 L1 L2 L3. split; tag_found. }
  set (m0 := <[TagSCFG := raw]> (<[TagSTK := token]> (<[TagSVID := list_byte_of_string "quic-go"]> (∅ : gmap Z (list byte))))).
  assert (fits 3 m0) as Hm0.
  { pose proof (config_raw_length _ _ Hcfg Hraw). pose proof fits_empty. unfold m0. fit_all. }
  destruct Hck as [K1 K2 K3 K4 [K5 K5'] K6 K7 K8 K9 K10]. destruct (K10 (se_signing e) chlo raw) as (proof & Hsign & Hpne & Hplen & Hproof).
  assert (∃ reply more, (if acceptSTK P e s (cl_stk h)
      then ∃ proof, more = Some (proof, crt) ∧ proof ≠ [] ∧ VerifyServerProof cm1 proof chlo raw = true else more = None) ∧
    rejection reply raw token more ∧ fits 5 reply ∧
    handleInchoateCHLO P e hostname chlo tags s = sm_some (write_HandshakeMessage {| MTag := TagREJ; MData := reply |}) s) as
    (reply & more & Hmore' & Hrej & Hfits & Hrun).
  { unfold handleInchoateCHLO. rewrite (hs_stk _ _ Hs), (hs_ccs _ _ Hs), (hs_ccrt _ _ Hs), Hccs.
    erewrite (sm_bind_ok sm_get) by reflexivity. rewrite decide_False by lia.
    rewrite Hst, Et. rewrite (sm_bind_ok (sm_lift (of_crypto (Ok token))) _ s s token eq_refl).
    rewrite (sm_bind_ok sm_scfg_Get _ s s raw) by (unfold sm_scfg_Get, sm_bind, sm_get, sm_some; by rewrite Hraw). fold m0. rewrite Hcerts.
    destruct (acceptSTK P e s (cl_stk h)).
    - exists (<[TagPROF := proof]> (<[TagCERT := crt]> m0)), (Some (proof, crt)). split; [exists proof; split; [reflexivity|split; assumption]|]. split; [|split].
      + apply Hmore; unfold m0; tag_found.
      + fit_all.
      + erewrite sm_bind_ok; [reflexivity|]. unfold sm_bind, sm_lift. rewrite Hsign. cbn [default from_option id]. by rewrite K5.
    - exists m0, None. split; [reflexivity|]. split; [|split].
      + unfold m0. split; tag_found.
      + destruct Hm0. split; [done|lia].
      + by erewrite sm_bind_ok by reflexivity. }
  destruct (message_written _ (fits_message 5 reply TagREJ Hfits eq_refl)) as (rej & Hwr & Hrd).
  rewrite Hwr in Hrun. change (sm_some (Some rej) s) with (Some (s, Ok (E := HandshakeError) rej)) in Hrun.
  assert (handleMessage P e chlo tags s = Some (sv_wrote s rej, Ok false)) as Hm.
  { unfold handleMessage. rewrite (sm_bind_ok sm_get _ s s s eq_refl). rewrite (check_hello_ok s h tags Hs) by congruence. rewrite Hn, Hcerts.
    rewrite (sm_bind_ok (sm_lift (Ok hostname)) _ s s hostname eq_refl), K2. rewrite (sm_bind_ok (sm_lift (Ok leaf)) _ s s leaf eq_refl).
    unfold isInchoateCHLO. rewrite Hpubs. cbn [negb]. rewrite (sm_bind_ok _ _ _ _ _ Hrun). unfold sv_write. by rewrite Hw. }
  exists rej, reply, token, more. split; [|split; [exact Hrd|split; [exact Hrej|split; [reflexivity|split; assumption]]]].
  rewrite (sv_turn_eq e s chlo tags Hread), (sm_bind_ok _ _ _ _ _ Hm). reflexivity.
Qed.

(** Both keys are there, and the channel of the levels has both. *)
Definition with_both (k : aeads) (secure forward : AEAD) : aeads := {|
  nullAEAD := nullAEAD k; secureAEAD := Some secure; forwardSecureAEAD := Some forward;
  receivedSecurePacket := receivedSecurePacket k; receivedForwardSecurePacket := receivedForwardSecurePacket k;
  changed := changed k ++ [EncryptionSecure; EncryptionForwardSecure]; changed_closed := false
|}.

(** A server hello, as the client reads it. *)
Record server_hello (reply : gmap Z (list byte)) (sno pubs : list byte) (versions : list Z) (params : connectionParametersManager) : Prop := {
  sh_sno : reply !! TagSNO = Some sno;
  sh_pubs : reply !! TagPUBS = Some pubs;
  sh_ver : reply !! TagVER = Some (version_list versions);
  sh_params : ∃ m, GetHelloMap params = Some m ∧ ∀ t, t ∈ parameter_tags → reply !! t = m !! t
}.

Lemma zlen_version_list vs : zlen (version_list vs) = (4 * zlen vs)%Z.
Proof using Type.
  unfold version_list. induction vs as [|v vs IH]; [done|]. cbn [mbind list_bind]. rewrite zlen_app, zlen_cons.
  change (list_bind _ _ _ vs) with (vs ≫= λ v, le_bytes 4 (VersionNumberToTag v)). rewrite IH. unfold zlen at 1. rewrite length_le_bytes. lia.
Qed.

(** The hello of a client that has verified the server. *)
Record keyed_hello (e : server_env) s h (sc : serverConfigClient) (raw : list byte) : Prop := {
  kh_config : cl_serverConfig h = Some sc;
  kh_cert : GetLeafCert (cl_certManager h) = Some leaf;
  kh_id : sc_ID sc = scfg_ID (sv_scfg s);
  kh_raw : scfg_Get (sv_scfg s) = Some raw;
  kh_nonc : length (cl_nonc h) = 32 ∧ take 8 (drop 4 (cl_nonc h)) = scfg_obit (sv_scfg s);
  kh_secret : CalculateSharedKey P (scfg_kex (sv_scfg s)) (PublicKey (sc_kex sc)) = Ok (sc_sharedSecret sc);
  kh_stk : acceptSTK P e s (cl_stk h) = true
}.

Lemma not_inchoate e s h tags sc raw : hello_says h tags → keyed_hello e s h sc raw → isInchoateCHLO P e s tags leaf = false.
Proof using Type.
  intros Hs [K1 K2 K3 K4 [K5 K6] K7 K8]. pose proof (hs_keys _ _ Hs) as Hk. rewrite K1, K2 in Hk. destruct Hk as (L1 & L2 & L3 & _).
  unfold isInchoateCHLO. rewrite L1, L2, L3, K3. rewrite decide_False by (by intros []). unfold zlen. rewrite length_le_bytes, decide_False by (by intros []).
  rewrite le_val_bytes by apply fnv64a_range. rewrite decide_False by (by intros []). by rewrite (hs_stk _ _ Hs), K8.
Qed.

Lemma handleCHLO_run e s h chlo tags sc raw sn dn ek params m :
  certificates_ok → sv_certs s = certs → hello_says h tags → keyed_hello e s h sc raw →
  se_serverNonce e = Some sn → se_divNonce e = Some dn → se_kex e = Some (NewCurve25519KEX P ek) → (zlen sn ≤ CryptoParameterMaxLength)%Z →
  changed_closed (sv_aeads s) = false → (zlen (sv_supportedVersions s) ≤ 100)%Z →
  GetHelloMap (cl_parameters h) = Some m → SetFromMap (sv_parameters s) m = (params, None) → Handshake.params_ok params →
  ∃ shlo reply secure forward,
    handleCHLO P e hostname chlo tags s =
      Some (sv_set_aeads (sv_update s dn (sv_aeads s) (sv_sentSHLO s) (sv_written s) params)
              (set_forward_secure {| nullAEAD := nullAEAD (sv_aeads s); secureAEAD := Some secure; forwardSecureAEAD := forwardSecureAEAD (sv_aeads s);
                 receivedSecurePacket := receivedSecurePacket (sv_aeads s); receivedForwardSecurePacket := receivedForwardSecurePacket (sv_aeads s);
                 changed := changed (sv_aeads s) ++ [EncryptionSecure]; changed_closed := false |} forward), Ok shlo) ∧
    DeriveQuicCryptoAESKeys P false (sc_sharedSecret sc) (cl_nonc h) (sv_connID s) chlo raw leaf dn PerspectiveServer = Ok secure ∧
    DeriveQuicCryptoAESKeys P true (ScalarMult P (clamp ek) (PublicKey (sc_kex sc))) (cl_nonc h ++ sn) (sv_connID s) chlo raw leaf [] PerspectiveServer = Ok forward ∧
    reads ParseHandshakeMessage shlo {| MTag := TagSHLO; MData := reply |} ∧
    server_hello reply sn (PublicKey (NewCurve25519KEX P ek)) (sv_supportedVersions s) params.
Proof using Type*.
  intros Hck Hcerts Hs [K1 K2 K3 K4 [K5 K6] K7 K8] Hsn Hdn Hek Hsnl Hclosed Hvs Hm Hset Hok.
  pose proof (hs_keys _ _ Hs) as Hk. rewrite K1, K2 in Hk. destruct Hk as (L1 & L2 & L3 & L4 & L5 & L6).
  destruct (derived_match P false (sc_sharedSecret sc) (cl_nonc h) (sv_connID s) chlo raw leaf dn) as (secure & _ & Hsec & _).
  destruct (derived_match P true (ScalarMult P (clamp ek) (PublicKey (sc_kex sc))) (cl_nonc h ++ sn) (sv_connID s) chlo raw leaf []) as (forward & _ & Hfwd & _).
  destruct (hs_params _ _ Hs) as (m0 & Hm0 & Hsame). rewrite Hm in Hm0. injection Hm0 as <-.
  assert (SetFromMap (sv_parameters s) tags = (params, None)) as Hset' by (by rewrite (SetFromMap_ext tags m) by done).
  destruct (hello_map _ Hok) as (ms & Hms & Hmsok & _).
  set (reply := <[TagVER := version_list (sv_supportedVersions s)]> (<[TagSNO := sn]> (<[TagPUBS := PublicKey (NewCurve25519KEX P ek)]> ms))).
  assert (fits 8 reply) as Hfits.
  { pose proof (hello_map_fits _ _ Hok Hms) as Hf.
    pose proof (zlen_version_list (sv_supportedVersions s)).
    assert (zlen (version_list (sv_supportedVersions s)) ≤ CryptoParameterMaxLength)%Z by (unfold CryptoParameterMaxLength; lia).
    assert (zlen (PublicKey (NewCurve25519KEX P ek)) ≤ CryptoParameterMaxLength)%Z.
    { cbn [PublicKey NewCurve25519KEX]. unfold zlen. rewrite length_scalar_base. by vm_compute. }
    unfold reply. fit_all. }
  destruct (message_written _ (fits_message 8 reply TagSHLO Hfits eq_refl)) as (shlo & Hw & Hread).
  exists shlo, reply, secure, forward. split; [|split; [exact Hsec|split; [exact Hfwd|split; [exact Hread|]]]].
  - unfold handleCHLO. rewrite L1, L4, L5, L6. cbn [default from_option id].
    run_setup. rewrite K7, Hcerts, (ck_leaf Hck), Hsn, Hdn, Hek. run_setup.
    set (s1 := sv_update s dn (sv_aeads s) (sv_sentSHLO s) (sv_written s) (sv_parameters s)).
    assert (validateClientNonce s (cl_nonc h) = Ok ()) as Hv.
    { unfold validateClientNonce, zlen. rewrite K5, K6, !decide_False by (by intros []). done. }
    rewrite Hv. run_setup. rewrite !decide_False by (intros Hne; by apply Hne).
    assert (sm_scfg_Get s1 = Some (s1, Ok raw)) as Hg by (unfold sm_scfg_Get, sm_bind, sm_get, sm_some; change (sv_scfg s1) with (sv_scfg s); by rewrite K4).
    rewrite (sm_bind_ok _ _ _ _ _ Hg), Hsec. run_setup. erewrite sv_bind_aeads by reflexivity.
    erewrite sv_bind_aeads by (unfold send_level; cbn [sv_set_aeads sv_update sv_aeads s1 set_secure changed_closed]; rewrite Hclosed; reflexivity).
    run_setup.
    assert (CalculateSharedKey P (NewCurve25519KEX P ek) (PublicKey (sc_kex sc)) = Ok (ScalarMult P (clamp ek) (PublicKey (sc_kex sc)))) as Hek'.
    { unfold CalculateSharedKey in K7 |- *. destruct (decide (zlen (PublicKey (sc_kex sc)) ≠ 32%Z)); [discriminate K7|reflexivity]. }
    rewrite Hek'. run_setup. rewrite Hfwd. run_setup. erewrite sv_bind_aeads by reflexivity.
    rewrite Hset'. run_setup. rewrite Hms. run_setup. unfold sm_some. fold reply. rewrite Hw. reflexivity.
  - unfold reply. split; [tag_found|tag_found|tag_found|]. exists ms. split; [done|]. intros t Ht.
    rewrite !lookup_insert_ne; [done|intros <-; revert Ht; tag_notin..].
Qed.

(** A hello with keys is answered with a server hello, and the handshake is done for the server. *)
Lemma sv_turn_full e s h chlo tags sc raw sn dn ek params m :
  certificates_ok → cc_hostname (cl_config h) = hostname → VersionTagToNumber (VersionNumberToTag (cc_version (cl_config h))) = sv_version s →
  reads ParseHandshakeMessage chlo {| MTag := TagCHLO; MData := tags |} →
  sv_certs s = certs → hello_says h tags → keyed_hello e s h sc raw →
  se_serverNonce e = Some sn → se_divNonce e = Some dn → se_kex e = Some (NewCurve25519KEX P ek) → (zlen sn ≤ CryptoParameterMaxLength)%Z →
  se_write_fails e = None → changed_closed (sv_aeads s) = false → (zlen (sv_supportedVersions s) ≤ 100)%Z →
  GetHelloMap (cl_parameters h) = Some m → SetFromMap (sv_parameters s) m = (params, None) → Handshake.params_ok params →
  ∃ shlo reply secure forward,
    sv_turn P e chlo s =
      Some (sv_update s dn (with_both (sv_aeads s) secure forward) true (sv_written s ++ [shlo]) params, Ok ([], true)) ∧
    DeriveQuicCryptoAESKeys P false (sc_sharedSecret sc) (cl_nonc h) (sv_connID s) chlo raw leaf dn PerspectiveServer = Ok secure ∧
    DeriveQuicCryptoAESKeys P true (ScalarMult P (clamp ek) (PublicKey (sc_kex sc))) (cl_nonc h ++ sn) (sv_connID s) chlo raw leaf [] PerspectiveServer = Ok forward ∧
    reads ParseHandshakeMessage shlo {| MTag := TagSHLO; MData := reply |} ∧
    server_hello reply sn (PublicKey (NewCurve25519KEX P ek)) (sv_supportedVersions s) params.
Proof using Type*.
  intros Hck Hn Hv Hread Hcerts Hs Hkeys Hsn Hdn Hek Hsnl Hw Hclosed Hvs Hm Hset Hok.
  destruct (handleCHLO_run e s h chlo tags sc raw sn dn ek params m Hck Hcerts Hs Hkeys Hsn Hdn Hek Hsnl Hclosed Hvs Hm Hset Hok)
    as (shlo & reply & secure & forward & Hrun & Hsec & Hfwd & Hrd & Hsh).
  exists shlo, reply, secure, forward. split; [|split; [exact Hsec|split; [exact Hfwd|split; [exact Hrd|exact Hsh]]]].
  assert (handleMessage P e chlo tags s = Some (sv_update s dn (with_both (sv_aeads s) secure forward) true (sv_written s ++ [shlo]) params, Ok true)) as Hm'.
  { unfold handleMessage. rewrite (sm_bind_ok sm_get _ s s s eq_refl).
    rewrite (check_hello_ok s h tags Hs) by (exact Hv || rewrite Hn; exact (ck_hostname Hck)). rewrite Hn, Hcerts.
    rewrite (sm_bind_ok (sm_lift (Ok hostname)) _ s s hostname eq_refl), (ck_leaf Hck), (sm_bind_ok (sm_lift (Ok leaf)) _ s s leaf eq_refl).
    rewrite (not_inchoate e s h tags sc raw Hs Hkeys). cbn [negb]. rewrite (sm_bind_ok _ _ _ _ _ Hrun). unfold sv_write. rewrite Hw.
    unfold sm_bind, sm_modify, sv_on_aeads, sm_get, sm_some, sm_ret, send_level, with_both. cbn. by rewrite <-app_assoc. }
  by rewrite (sv_turn_eq e s chlo tags Hread), (sm_bind_ok _ _ _ _ _ Hm').
Qed.
End server_runs.
