(* ===== verification/CryptoHandshake.v ===== *)
(** The QUIC handshake of a client and a server.

    The steps of the client, the whole handshake with the answers of the server, and both sides
    with matching keys in the end ([handshake_completes]); versions that were negotiated down are
    noticed, the level of the packets a side takes does not fall, and two runs that end badly. *)

From Stdlib Require Import ZArith Lia.
From Stdlib Require Import Strings.Byte Strings.String.
From stdpp Require Import prelude numbers list gmap sorting.
From S2P Require Import Prelude ByteOrder Protocol Wire ReceivedPackets AckCodec PublicHeader PacketUnpacker Handshake NullAEAD.
From S2P Require Import KeyDerivation RTTStats SentPackets PacketNumberGenerator Path FlowControl Stream StreamsMap StreamFramer PacketPacker.
From S2P Require Import ServerConfig CryptoSetup CryptoSetupServer CryptoSetupClient CryptoHello CryptoAnswers.

(** * The steps of the client *)

Section client_runs.
Context (P : primitives) `{!PrimitiveLaws P} {M : Type} `{!CertManager M}.
Implicit Types h : cryptoSetupClient M.

(** As long as there is no nonce of the server, or no check of its proof, another hello is sent. *)
Lemma cl_top_waits e h : secureAEAD (cl_aeads h) = None → cl_diversificationNonce h = [] → cl_top P e h = sendCHLO e h.
Proof using Type.
  intros Hs Hd. unfold cl_top.
  assert (maybeUpgradeCrypto P h = Some (h, Ok ())) as Hm.
  { unfold maybeUpgradeCrypto. rewrite (sm_bind_ok sm_get _ h h h eq_refl). destruct (cl_serverVerified h); [cbn [negb]|reflexivity].
    rewrite Hs. destruct (cl_serverConfig h) as [sc|]; [|reflexivity]. rewrite Hd, decide_True by tauto. reflexivity. }
  rewrite (sm_bind_ok _ _ _ _ _ Hm), (sm_bind_ok sm_get _ h h h eq_refl). by rewrite Hs.
Qed.
Lemma cl_top_keyed e h a : secureAEAD (cl_aeads h) = Some a → cl_top P e h = Some (h, Ok ()).
Proof using Type.
  intros Hs. unfold cl_top.
  assert (maybeUpgradeCrypto P h = Some (h, Ok ())) as Hm.
  { unfold maybeUpgradeCrypto. rewrite (sm_bind_ok sm_get _ h h h eq_refl). destruct (cl_serverVerified h); [cbn [negb]|reflexivity].
    by rewrite Hs. }
  rewrite (sm_bind_ok _ _ _ _ _ Hm), (sm_bind_ok sm_get _ h h h eq_refl). by rewrite Hs.
Qed.

Lemma cl_event_eq e ev h h' : cl_take P e ev h = Some (h', Ok ()) → cl_event P e ev h = cl_top P e h'.
Proof using Type. intros H. unfold cl_event. by rewrite (sm_bind_ok _ _ _ _ _ H). Qed.

(** The nonce of a client: the one it has, or a fresh one. *)
Definition client_nonce (e : client_env) h (sc : serverConfigClient) (random : list byte) : list byte :=
  if decide (cl_nonc h = []) then be_bytes 4 (u32 (ce_now e / Second)) ++ sc_obit sc ++ random else cl_nonc h.
(** What a rejection's config and token leave. *)
Definition configured (e : client_env) h (sc : serverConfigClient) (raw token random : list byte) : cryptoSetupClient M :=
  cl_set_server (cl_set_proof h (cl_proof h) (cl_chloForSignature h) (cl_certManager h) (cl_certData h) raw (cl_serverVerified h))
    (Some sc) token (cl_sno h) (client_nonce e h sc random).

Lemma rej_config_run e (reply : gmap Z (list byte)) h raw sc random :
  reply !! TagSCFG = Some raw → parseServerConfig P raw (ce_kexSecret e) = Ok sc → IsExpired sc (ce_now e) = false →
  zlen (sc_obit sc) = 8%Z → ce_random e = Some random →
  rej_config P e reply h = Some (configured e h sc raw (cl_stk h) random, Ok ()).
Proof using Type.
  intros L Hp Hx Ho Hr. unfold rej_config. rewrite L, Hp. run_setup. rewrite Hx. run_setup. cbn [cl_nonc cl_set_proof cl_set_server].
  unfold configured, client_nonce. case_decide as Hn; [|reflexivity].
  unfold generateClientNonce. run_setup. cbn [cl_nonc cl_set_proof cl_set_server cl_serverConfig]. rewrite decide_False by (intros Hne; by apply Hne).
  run_setup. rewrite decide_False by (intros Hne; by apply Hne). rewrite Hr. reflexivity.
Qed.

(** A rejection without a proof. *)
Lemma cl_take_config e (reply : gmap Z (list byte)) h raw token sc random :
  rejection reply raw token None → parseServerConfig P raw (ce_kexSecret e) = Ok sc → IsExpired sc (ce_now e) = false →
  zlen (sc_obit sc) = 8%Z → ce_random e = Some random → GetLeafCert (cl_certManager h) = None →
  cl_take P e (CeMessage {| MTag := TagREJ; MData := reply |}) h = Some (configured e h sc raw token random, Ok ()).
Proof using Type.
  intros [L1 L2 L3 L4 L5] Hp Hx Ho Hr Hl. unfold cl_take. run_setup. cbn [MTag MData]. rewrite decide_True by reflexivity.
  unfold handleREJMessage. rewrite L2, L3, L4. run_setup. cbn [default from_option id].
  rewrite (sm_bind_ok _ _ _ _ _ (rej_config_run e reply _ raw sc random L1 Hp Hx Ho Hr)). cbn [fmap option_fmap option_map]. run_setup.
  unfold rej_cert. rewrite L5. run_setup. unfold rej_verify. run_setup. unfold configured. cbn. by rewrite Hl.
Qed.

(** What the proof and the certificates leave. *)
Definition certified (h : cryptoSetupClient M) (proof : list byte) (m : M) (crt : list byte) : cryptoSetupClient M :=
  cl_set_proof h proof (cl_lastSentCHLO h) m crt (cl_scfgData h) true.

Lemma rej_cert_run e (reply : gmap Z (list byte)) h crt m :
  reply !! TagCERT = Some crt → SetData (cl_certManager h) crt = (m, None) → Verify m (ce_now e) verified_name = None →
  rej_cert e reply h = Some (cl_set_proof h (cl_proof h) (cl_chloForSignature h) m crt (cl_scfgData h) (cl_serverVerified h), Ok ()).
Proof using Type. intros L Hd Hv. unfold rej_cert. rewrite L. run_setup. rewrite Hd. run_setup. by rewrite Hv. Qed.
Lemma rej_verify_run h sc leaf :
  cl_serverConfig h = Some sc → GetLeafCert (cl_certManager h) = Some leaf → cl_proof h ≠ [] →
  VerifyServerProof (cl_certManager h) (cl_proof h) (cl_chloForSignature h) (sc_raw sc) = true →
  rej_verify h = Some (cl_set_verified h true, Ok ()).
Proof using Type. intros Hs Hl Hp Hv. unfold rej_verify. run_setup. rewrite Hs, Hl, Hv. by rewrite decide_False by exact Hp. Qed.

Lemma cl_take_proof e (reply : gmap Z (list byte)) h raw token sc random proof crt m leaf :
  rejection reply raw token (Some (proof, crt)) → parseServerConfig P raw (ce_kexSecret e) = Ok sc → IsExpired sc (ce_now e) = false →
  zlen (sc_obit sc) = 8%Z → ce_random e = Some random → SetData (cl_certManager h) crt = (m, None) →
  Verify m (ce_now e) verified_name = None → GetLeafCert m = Some leaf → proof ≠ [] →
  VerifyServerProof m proof (cl_lastSentCHLO h) (sc_raw sc) = true →
  cl_take P e (CeMessage {| MTag := TagREJ; MData := reply |}) h = Some (certified (configured e h sc raw token random) proof m crt, Ok ()).
Proof using Type.
  intros [L1 L2 L3 L4 L5] Hp Hx Ho Hr Hd Hv Hl Hpn Hvp. unfold cl_take. run_setup. cbn [MTag MData]. rewrite decide_True by reflexivity.
  unfold handleREJMessage. rewrite L2, L3, L4. run_setup. cbn [default from_option id].
  rewrite (sm_bind_ok _ _ _ _ _ (rej_config_run e reply _ raw sc random L1 Hp Hx Ho Hr)). cbn [fmap option_fmap option_map]. run_setup.
  cbn [fst]. run_setup. erewrite sm_bind_ok by (apply rej_cert_run; [exact L5|exact Hd|exact Hv]).
  etransitivity; [apply (rej_verify_run _ sc leaf); [reflexivity|exact Hl|exact Hpn|exact Hvp]|reflexivity].
Qed.
(** A level that was sent. *)
Definition with_level (k : aeads) (l : EncryptionLevel) : aeads := {|
  nullAEAD := nullAEAD k; secureAEAD := secureAEAD k; forwardSecureAEAD := forwardSecureAEAD k;
  receivedSecurePacket := receivedSecurePacket k; receivedForwardSecurePacket := receivedForwardSecurePacket k;
  changed := changed k ++ [l]; changed_closed := false
|}.
(** The client once the nonce of the server has come. *)
Definition keyed h (dn : list byte) (secure : AEAD) : cryptoSetupClient M :=
  cl_set_keys h dn (with_level (set_secure (cl_aeads h) secure) EncryptionSecure) (cl_parameters h) (cl_cached h).

(** Everything for the first key but the server's nonce. *)
Record key_ready h (sc : serverConfigClient) (leaf : list byte) : Prop := {
  kr_verified : cl_serverVerified h = true;
  kr_config : cl_serverConfig h = Some sc;
  kr_cert : GetLeafCert (cl_certManager h) = Some leaf;
  kr_values : sc_sharedSecret sc ≠ [] ∧ cl_nonc h ≠ [] ∧ leaf ≠ [] ∧ cl_lastSentCHLO h ≠ [];
  kr_sno : cl_sno h = None;
  kr_levels : secureAEAD (cl_aeads h) = None ∧ changed_closed (cl_aeads h) = false;
  kr_nonce : cl_diversificationNonce h = []
}.

Lemma cl_event_nonce e h sc leaf dn :
  key_ready h sc leaf → dn ≠ [] →
  ∃ secure, cl_event P e (CeNonce dn) h = Some (keyed h dn secure, Ok ()) ∧
    DeriveQuicCryptoAESKeys P false (sc_sharedSecret sc) (cl_nonc h) (cc_connID (cl_config h)) (cl_lastSentCHLO h) (sc_raw sc) leaf dn
      PerspectiveClient = Ok secure.
Proof using Type*.
  intros [K1 K2 K3 [V1 [V2 [V3 V4]]] K5 [K6 K6'] K7] Hdn.
  destruct (derived_match P false (sc_sharedSecret sc) (cl_nonc h) (cc_connID (cl_config h)) (cl_lastSentCHLO h) (sc_raw sc) leaf dn)
    as (_ & secure & _ & Hsec & _).
  exists secure. split; [|exact Hsec].
  set (h1 := cl_set_keys h dn (cl_aeads h) (cl_parameters h) (cl_cached h)).
  assert (cl_take P e (CeNonce dn) h = Some (h1, Ok ())) as Ht.
  { unfold cl_take. run_setup. rewrite K7, decide_False; [reflexivity|]. intros [H _]. by apply H. }
  rewrite (cl_event_eq _ _ _ _ Ht). unfold cl_top.
  assert (maybeUpgradeCrypto P h1 = Some (keyed h dn secure, Ok ())) as Hm.
  { unfold maybeUpgradeCrypto. run_setup. change (cl_serverVerified h1) with (cl_serverVerified h). rewrite K1. cbn [negb].
    change (secureAEAD (cl_aeads h1)) with (secureAEAD (cl_aeads h)). change (cl_serverConfig h1) with (cl_serverConfig h).
    change (cl_certManager h1) with (cl_certManager h). rewrite K2, K3, K6. cbn [default from_option id h1 cl_set_keys cl_nonc cl_lastSentCHLO cl_diversificationNonce cl_sno cl_config].
    rewrite decide_False by tauto. rewrite K5, Hsec. run_setup. erewrite cl_bind_aeads by reflexivity.
    unfold cl_on_aeads, sm_bind, sm_get, sm_some, sm_modify, send_level. cbn. by rewrite K6'. }
  by rewrite (sm_bind_ok _ _ _ _ _ Hm).
Qed.

(** The client that has read a server hello. *)
Definition secured h (sno : list byte) (forward : AEAD) (params : connectionParametersManager) : cryptoSetupClient M :=
  let k := with_level (set_forward_secure (cl_aeads h) forward) EncryptionForwardSecure in
  cl_set_keys (cl_set_server h (cl_serverConfig h) (cl_stk h) (Some sno) (cl_nonc h)) (cl_diversificationNonce h)
    {| nullAEAD := nullAEAD k; secureAEAD := secureAEAD k; forwardSecureAEAD := forwardSecureAEAD k;
       receivedSecurePacket := receivedSecurePacket k; receivedForwardSecurePacket := receivedForwardSecurePacket k;
       changed := changed k; changed_closed := true |} params (cl_cached h).

Lemma cl_event_shlo e (reply : gmap Z (list byte)) h sc leaf sn pubs versions params m params' secure :
  server_hello reply sn pubs versions params → receivedSecurePacket (cl_aeads h) = true → changed_closed (cl_aeads h) = false →
  secureAEAD (cl_aeads h) = Some secure → cl_serverConfig h = Some sc → GetLeafCert (cl_certManager h) = Some leaf →
  validateVersionList (cc_negotiatedVersions (cl_config h)) (version_list versions) = true →
  length pubs = 32 → GetHelloMap params = Some m → SetFromMap (cl_parameters h) m = (params', None) →
  CacheHandshake (cc_params (cl_config h)) = false →
  ∃ forward, cl_event P e (CeMessage {| MTag := TagSHLO; MData := reply |}) h = Some (secured h sn forward params', Ok ()) ∧
    DeriveQuicCryptoAESKeys P true (ScalarMult P (kex_secret (sc_kex sc)) pubs) (cl_nonc h ++ sn) (cc_connID (cl_config h))
      (cl_lastSentCHLO h) (sc_raw sc) leaf [] PerspectiveClient = Ok forward.
Proof using Type*.
  intros [L1 L2 L3 (m' & Hm' & Hsame)] Hrec Hcl Hsec Hsc Hleaf Hver Hpubs Hm Hset Hcache.
  rewrite Hm in Hm'. injection Hm' as <-.
  destruct (derived_match P true (ScalarMult P (kex_secret (sc_kex sc)) pubs) (cl_nonc h ++ sn) (cc_connID (cl_config h)) (cl_lastSentCHLO h)
    (sc_raw sc) leaf []) as (_ & forward & _ & Hfwd & _).
  exists forward. split; [|exact Hfwd].
  assert (handleSHLOMessage P reply h = Some (secured h sn forward params', Ok ())) as Hs.
  { unfold handleSHLOMessage. run_setup. rewrite Hrec, L1, L2, L3. cbn [negb]. run_setup. rewrite Hver. cbn [negb]. run_setup.
    cbn [cl_set_server cl_nonc cl_sno cl_serverConfig cl_certManager cl_config cl_lastSentCHLO cl_parameters default from_option id].
    rewrite Hsc, Hleaf. run_setup. unfold CalculateSharedKey, zlen. rewrite Hpubs, decide_False by (intros H; by apply H). run_setup.
    cbn [default from_option id]. rewrite Hfwd. run_setup. erewrite cl_bind_aeads by reflexivity.
    rewrite (SetFromMap_ext reply m) by exact Hsame. rewrite Hset. run_setup.
    unfold cl_on_aeads, sm_bind, sm_get, sm_some, sm_modify, send_level. cbn. rewrite Hcl. cbn. unfold secured. rewrite Hsc. reflexivity. }
  assert (cl_take P e (CeMessage {| MTag := TagSHLO; MData := reply |}) h = Some (secured h sn forward params', Ok ())) as Ht.
  { unfold cl_take. run_setup. cbn [MTag MData]. rewrite decide_False by (intros H; vm_compute in H; discriminate H).
    rewrite decide_True by reflexivity. rewrite (sm_bind_ok _ _ _ _ _ Hs), Hcache. reflexivity. }
  rewrite (cl_event_eq _ _ _ _ Ht). apply (cl_top_keyed _ _ secure). exact Hsec.
Qed.

(** The packet that opens with the first key is noticed. *)
Lemma cl_Open_secure (k : aeads) secure sealer data pn ad :
  forwardSecureAEAD k = None → secureAEAD k = Some secure → AEADLaws sealer secure →
  cl_Open k (Seal sealer data pn ad) pn ad = (set_received k true (receivedForwardSecurePacket k), Ok (data, EncryptionSecure)).
Proof using Type. intros Hf Hs Hl. unfold cl_Open. rewrite Hf, Hs. by rewrite aead_opens. Qed.
End client_runs.

(** * A handshake *)

(** The bytes that are drawn and the clock, read at each of the steps. *)
Record handshake_inputs : Type := {
  hi_clock : nat → Z;
  hi_kex1 : list byte; hi_kex2 : list byte; hi_random : list byte;
  hi_stk1 : list byte; hi_stk2 : list byte; hi_signing : list byte;
  hi_serverNonce : list byte; hi_divNonce : list byte; hi_ephermal : list byte
}.

Definition newest (written : list (list byte)) : list byte := default [] (last written).
Definition went {S A} (r : option (S * result HandshakeError A)) : option (S * A) :=
  match r with Some (s, Ok a) => Some (s, a) | _ => None end.

Section handshake.
Context (P : primitives) (fnv128a : list byte → Z * Z) {M : Type} `{!CertManager M}.
Implicit Types (h : cryptoSetupClient M) (s : cryptoSetupServer) (I : handshake_inputs).

Definition client_at I (i : nat) (drawn : list byte) : client_env := {|
  ce_now := hi_clock I i; ce_kexSecret := Some drawn; ce_random := Some (hi_random I); ce_write_fails := None; ce_cache := λ _, None
|}.
Definition server_at I (i : nat) (stk : list byte) : server_env := {|
  se_now := hi_clock I i; se_stkNonce := Some stk; se_serverNonce := Some (hi_serverNonce I); se_divNonce := Some (hi_divNonce I);
  se_signing := hi_signing I; se_kex := Some (NewCurve25519KEX P (hi_ephermal I)); se_write_fails := None
|}.

Definition client_gets (e : client_env) (message : list byte) h : option (cryptoSetupClient M) :=
  match ParseHandshakeMessage message with
  | Ok (m, _) => fst <$> went (cl_event P e (CeMessage m) h)
  | Err _ => None
  end.
Definition server_gets (e : server_env) (message : list byte) s : option cryptoSetupServer := fst <$> went (sv_turn P e message s).

(** The rejections come in the clear; the server hello comes sealed with the server's first key,
    in the packet with number [pn] and header [ad], whose other bytes are those of the frame that
    carries it. *)
Definition handshake_run I (pn : Z) (ad : list byte) h s : option (cryptoSetupClient M * cryptoSetupServer) :=
  h ← fst <$> went (cl_start P (client_at I 0 (hi_kex1 I)) h);
  s ← server_gets (server_at I 1 (hi_stk1 I)) (newest (cl_written h)) s;
  h ← client_gets (client_at I 2 (hi_kex1 I)) (newest (sv_written s)) h;
  s ← server_gets (server_at I 3 (hi_stk2 I)) (newest (cl_written h)) s;
  h ← client_gets (client_at I 4 (hi_kex2 I)) (newest (sv_written s)) h;
  s ← server_gets (server_at I 5 (hi_stk2 I)) (newest (cl_written h)) s;
  h ← fst <$> went (cl_event P (client_at I 6 (hi_kex2 I)) (CeNonce (crypto_DiversificationNonce (sv_CryptoSetup s))) h);
  let '(_, sealer) := GetSealerForCryptoStream (sv_CryptoSetup s) in
  match cl_Open (cl_aeads h) (Seal sealer (newest (sv_written s)) pn ad) pn ad with
  | (k, Ok (message, EncryptionSecure)) =>
      h ← client_gets (client_at I 7 (hi_kex2 I)) message (cl_set_aeads h k);
      Some (h, s)
  | _ => None
  end.

(** Bytes of the sizes the code draws, and a handshake of less than a day. *)
Record inputs_ok I : Prop := {
  io_kex : length (hi_kex1 I) = 32 ∧ length (hi_kex2 I) = 32 ∧ length (hi_ephermal I) = 32;
  io_random : length (hi_random I) = 20;
  io_stk : length (hi_stk1 I) = 16 ∧ length (hi_stk2 I) = 16;
  io_nonces : length (hi_serverNonce I) = 32 ∧ length (hi_divNonce I) = 32;
  io_clock i j : i ≤ j → (0 ≤ hi_clock I i ≤ hi_clock I j)%Z ∧ (hi_clock I j < 2 ^ 61)%Z ∧ (hi_clock I j ≤ hi_clock I i + CookieExpiryTime - Second)%Z
}.

(** What both sides start from. *)
Record parties : Type := {
  pa_config : client_config;
  pa_scfg : ServerConfig; pa_secret : list byte;
  pa_certs : CertChain; pa_leaf : list byte; pa_crt : list byte; pa_before : M; pa_after : M;
  pa_addr : UDPAddr; pa_supported : list Z; pa_stkSecret : list byte;
  pa_client : connectionParametersManager; pa_server : connectionParametersManager
}.
Record parties_ok (p : parties) : Prop := {
  pk_scfg : config_ok (pa_scfg p) ∧ scfg_kex (pa_scfg p) = NewCurve25519KEX P (pa_secret p) ∧ length (pa_secret p) = 32;
  pk_certs : certificates_ok (pa_certs p) (cc_hostname (pa_config p)) (pa_leaf p) (pa_crt p) (pa_before p) (pa_after p);
  pk_hostname : (zlen (cc_hostname (pa_config p)) ≤ CryptoParameterMaxLength)%Z;
  pk_version : (0 ≤ cc_version (pa_config p) < 1000)%Z;
  pk_negotiated : validateVersionList (cc_negotiatedVersions (pa_config p)) (version_list (pa_supported p)) = true;
  pk_supported : (zlen (pa_supported p) ≤ 100)%Z;
  pk_options : RequestConnectionIDTruncation (cc_params (pa_config p)) = false ∧ CacheHandshake (cc_params (pa_config p)) = false;
  pk_addr : (zlen (addr_IP (pa_addr p)) ≤ 16)%Z;
  pk_client : Handshake.params_ok (pa_client p) ∧ flowControlNegotiated (pa_client p) = false;
  pk_server : Handshake.params_ok (pa_server p) ∧ flowControlNegotiated (pa_server p) = false
}.
Definition client_of (p : parties) : cryptoSetupClient M := NewCryptoSetupClient fnv128a (pa_config p) (pa_before p) (pa_client p).
Definition server_of (p : parties) : result HandshakeError cryptoSetupServer :=
  NewCryptoSetup P fnv128a (cc_connID (pa_config p)) (pa_addr p) (cc_version (pa_config p)) (pa_scfg p) (pa_certs p) (pa_server p)
    (pa_supported p) defaultAcceptCookie (Some (pa_stkSecret p)).

Context `{!PrimitiveLaws P}.

(** ** Steps that end with a hello *)

Lemma cl_event_hello e ev h h' :
  cl_take P e ev h = Some (h', Ok ()) → hello_ready h' → (cl_clientHelloCounter h' < MaxClientHellos)%Z → ce_write_fails e = None →
  secureAEAD (cl_aeads h') = None → cl_diversificationNonce h' = [] →
  ∃ chlo tags, cl_event P e ev h = Some (cl_set_hello h' (cl_clientHelloCounter h' + 1) chlo (cl_written h' ++ [chlo]), Ok ()) ∧
    reads ParseHandshakeMessage chlo {| MTag := TagCHLO; MData := tags |} ∧ (ClientHelloMinimumSize ≤ zlen chlo)%Z ∧ hello_says h' tags.
Proof using Type.
  intros Ht Hr Hc Hw Hs Hd. rewrite (cl_event_eq P _ _ _ _ Ht), (cl_top_waits P _ _ Hs Hd). by apply sendCHLO_run.
Qed.

Lemma client_gets_message e bs m h h' :
  reads ParseHandshakeMessage bs m → cl_event P e (CeMessage m) h = Some (h', Ok ()) → client_gets e bs h = Some h'.
Proof using Type. intros Hr%reads_all He. unfold client_gets. by rewrite Hr, He. Qed.
Lemma newest_app l x : newest (l ++ [x]) = x.
Proof using Type. unfold newest. by rewrite last_snoc. Qed.

(** A hello is ready with a config that was read. *)
Lemma configured_ready e h sc raw token random scfg kex :
  hello_ready h → config_ok scfg → sc_ID sc = scfg_ID scfg → sc_obit sc = scfg_obit scfg → sc_kex sc = NewCurve25519KEX P kex →
  (zlen token ≤ CryptoParameterMaxLength)%Z → length random = 20 → hello_ready (configured e h sc raw token random).
Proof using Type*.
  intros [H1 H2 H3 H4 H5 H6 H7 H8] [C1 C2 C3] Eid Eo Ek Ht Hr. split; try assumption.
  - unfold configured, client_nonce. cbn [cl_set_server cl_nonc]. case_decide; [|exact H6].
    unfold zlen. rewrite !length_app, Hr, Eo, C2. unfold be_bytes. rewrite ?length_reverse, ?length_le_bytes. by vm_compute.
  - intros sc' [= <-]. rewrite Eid, Ek. cbn [NewCurve25519KEX PublicKey]. unfold zlen. rewrite C1, length_scalar_base. by vm_compute.
Qed.
Lemma certified_ready h proof m crt :
  hello_ready h → (zlen (GetCommonCertificateHashes m) ≤ CryptoParameterMaxLength)%Z → hello_ready (certified h proof m crt).
Proof using Type. intros [H1 H2 H3 H4 H5 H6 H7 H8] Hm. by split. Qed.

(** ** Tokens *)

Lemma no_token_refused e s : sv_acceptSTKCallback s = defaultAcceptCookie → acceptSTK P e s [] = false.
Proof using Type. intros E. unfold acceptSTK. cbn. by rewrite E. Qed.
Lemma token_taken e s token nonce now :
  sv_acceptSTKCallback s = defaultAcceptCookie → zlen (sv_stkKey s) = 16%Z → length nonce = 16 → (0 ≤ now < 2 ^ 62)%Z → (now ≤ se_now e ≤ now + CookieExpiryTime - Second)%Z →
  NewToken P (sv_stkKey s) (sv_remoteAddr s) now (Some nonce) = Ok token → acceptSTK P e s token = true.
Proof using Type*.
  intros E Hk Hn Hnow Hl Ht. destruct (token_accepted P (sv_stkKey s) (sv_remoteAddr s) now nonce (se_now e) Hk Hn Hnow Hl) as (token' & cookie & Ht' & _ & Hd & Ha).
  rewrite Ht in Ht'. injection Ht' as <-. unfold acceptSTK. by rewrite Hd, E.
Qed.
(** ** Rounds *)

Context (p : parties) (Hp : parties_ok p) (I : handshake_inputs) (HI : inputs_ok I).

(** A client that has sent a hello. *)
Record asked h (n : Z) (chlo : list byte) (tags : gmap Z (list byte)) : Prop := {
  as_config : cl_config h = pa_config p;
  as_params : cl_parameters h = pa_client p;
  as_aeads : cl_aeads h = new_aeads (NewNullAEAD fnv128a PerspectiveClient (cc_version (pa_config p)));
  as_counter : cl_clientHelloCounter h = n;
  as_div : cl_diversificationNonce h = [];
  as_sno : cl_sno h = None;
  as_last : cl_lastSentCHLO h = chlo ∧ newest (cl_written h) = chlo;
  as_ready : hello_ready h;
  as_reads : reads ParseHandshakeMessage chlo {| MTag := TagCHLO; MData := tags |};
  as_size : (ClientHelloMinimumSize ≤ zlen chlo)%Z;
  as_says : hello_says h tags
}.
(** A server that is waiting for one. *)
Record serving s : Prop := {
  se_certs : sv_certs s = pa_certs p;
  se_version : sv_version s = cc_version (pa_config p);
  se_scfg : sv_scfg s = pa_scfg p;
  se_accept : sv_acceptSTKCallback s = defaultAcceptCookie;
  se_addr : sv_remoteAddr s = pa_addr p;
  se_aeads : sv_aeads s = new_aeads (NewNullAEAD fnv128a PerspectiveServer (cc_version (pa_config p)));
  se_supported : sv_supportedVersions s = pa_supported p;
  se_params : sv_parameters s = pa_server p;
  se_connID : sv_connID s = cc_connID (pa_config p);
  se_stkKey : zlen (sv_stkKey s) = 16%Z
}.
Lemma serving_wrote s reply : serving s → serving (sv_wrote s reply).
Proof using Type. intros [H1 H2 H3 H4 H5 H6 H7 H8 H9 H10]. by split. Qed.

Lemma ready_after h n chlo w : hello_ready h → hello_ready (cl_set_hello h n chlo w).
Proof using Type. intros [H1 H2 H3 H4 H5 H6 H7 H8]. by split. Qed.
Lemma says_after h n chlo w tags : hello_says h tags → hello_says (cl_set_hello h n chlo w) tags.
Proof using Type. intros [H1 H2 H3 H4 H5 H6 H7 H8 H9]. by split. Qed.

(** A hello that was sent makes a client that has asked. *)
Lemma asked_after h n chlo tags :
  cl_config h = pa_config p → cl_parameters h = pa_client p →
  cl_aeads h = new_aeads (NewNullAEAD fnv128a PerspectiveClient (cc_version (pa_config p))) →
  cl_diversificationNonce h = [] → cl_sno h = None → hello_ready h →
  reads ParseHandshakeMessage chlo {| MTag := TagCHLO; MData := tags |} → (ClientHelloMinimumSize ≤ zlen chlo)%Z → hello_says h tags →
  asked (cl_set_hello h n chlo (cl_written h ++ [chlo])) n chlo tags.
Proof using Type.
  intros H1 H2 H3 H4 H5 H6 H7 H8 H9. split; try assumption; try reflexivity.
  - split; [reflexivity|]. apply newest_app.
  - by apply ready_after.
  - by apply says_after.
Qed.

Lemma first_hello : ∃ h chlo tags,
  cl_start P (client_at I 0 (hi_kex1 I)) (client_of p) = Some (h, Ok ()) ∧ asked h 1 chlo tags ∧
  cl_serverConfig h = None ∧ cl_stk h = [] ∧ cl_nonc h = [] ∧ cl_certManager h = pa_before p.
Proof using Type*.
  destruct Hp as [K1 K2 K3 K4 K5 K6 [K7 K7'] K8 [K9 K9'] K10].
  assert (hello_ready (client_of p)) as Hr.
  { split; [exact K9|exact K3|exact (proj1 (ck_ccs _ _ _ _ _ _ K2))| | | | |exact K7]; [by vm_compute..|]. intros sc Hsc. discriminate Hsc. }
  destruct (sendCHLO_run (client_at I 0 (hi_kex1 I)) (client_of p) Hr eq_refl eq_refl) as (chlo & tags & Hrun & Hread & Hsize & Hsays).
  exists (cl_set_hello (client_of p) 1 chlo (cl_written (client_of p) ++ [chlo])), chlo, tags.
  split; [|split; [by apply asked_after|by repeat split]].
  unfold cl_start. run_setup. change (cl_config (client_of p)) with (pa_config p). rewrite K7'. run_setup.
  rewrite (cl_top_waits P _ (client_of p)) by reflexivity. exact Hrun.
Qed.

(** The config of the server, as a client with the drawn bytes reads it. *)
Record config_read (raw drawn : list byte) (sc : serverConfigClient) : Prop := {
  cr_raw : sc_raw sc = raw;
  cr_id : sc_ID sc = scfg_ID (pa_scfg p);
  cr_obit : sc_obit sc = scfg_obit (pa_scfg p);
  cr_kex : sc_kex sc = NewCurve25519KEX P drawn;
  cr_shared : CalculateSharedKey P (scfg_kex (pa_scfg p)) (PublicKey (sc_kex sc)) = Ok (sc_sharedSecret sc) ∧ sc_sharedSecret sc ≠ []
}.
Lemma config_known drawn i : length drawn = 32 → ∃ raw sc,
  scfg_Get (pa_scfg p) = Some raw ∧ parseServerConfig P raw (Some drawn) = Ok sc ∧ IsExpired sc (hi_clock I i) = false ∧
  zlen (sc_obit sc) = 8%Z ∧ config_read raw drawn sc.
Proof using Type*.
  intros Hd. destruct (pk_scfg _ Hp) as (Hok & Ek & Hs).
  destruct (server_config_read P _ _ drawn Hok Ek Hs Hd) as (raw & sc & G1 & G2 & G3 & G4 & G5 & G6 & G7 & G8 & G9).
  exists raw, sc. split; [exact G1|]. split; [exact G2|]. split.
  - apply G9. destruct (io_clock _ HI i i (le_n _)) as (_ & ? & _). lia.
  - split; [unfold zlen; by rewrite G5, (co_obit _ Hok)|]. split; try assumption. split; [exact G7|]. intros E. by rewrite E in G8.
Qed.

Lemma version_spoken : VersionTagToNumber (VersionNumberToTag (cc_version (pa_config p))) = cc_version (pa_config p).
Proof using Hp. apply version_tag_roundtrip. exact (pk_version _ Hp). Qed.

Lemma server_rejects i stk h n chlo tags s raw :
  asked h n chlo tags → serving s → tags !! TagPUBS = None → length stk = 16 → scfg_Get (pa_scfg p) = Some raw →
  GetCommonCertificateHashes (cl_certManager h) = GetCommonCertificateHashes (pa_before p) →
  ∃ rej reply token more, server_gets (server_at I i stk) chlo s = Some (sv_wrote s rej) ∧
    reads ParseHandshakeMessage rej {| MTag := TagREJ; MData := reply |} ∧ rejection reply raw token more ∧
    NewToken P (sv_stkKey s) (sv_remoteAddr s) (hi_clock I i) (Some stk) = Ok token ∧ (zlen token ≤ CryptoParameterMaxLength)%Z ∧
    if acceptSTK P (server_at I i stk) s (cl_stk h)
    then ∃ proof, more = Some (proof, pa_crt p) ∧ proof ≠ [] ∧ VerifyServerProof (pa_after p) proof chlo raw = true
    else more = None.
Proof using Type*.
  intros [A1 A2 A3 A4 A5 A6 A7 A8 A9 A10 A11] [S1 S2 S3 S4 S5 S6 S7 S8 S9 S10] Hpubs Hl Hraw Hccs.
  assert (0 ≤ hi_clock I i < 2 ^ 62)%Z as Hnow by (destruct (io_clock _ HI i i (le_n _)) as ([? _] & ? & _); lia).
  destruct (sv_turn_inchoate P _ _ _ _ _ _ (server_at I i stk) s h chlo tags raw stk (pk_certs _ Hp)) as (rej & reply & token & more & T & Hrest);
    try assumption; try reflexivity.
  - by rewrite A1.
  - rewrite A1, S2. exact version_spoken.
  - rewrite S3. exact (proj1 (pk_scfg _ Hp)).
  - by rewrite S3.
  - rewrite S5. exact (pk_addr _ Hp).
  - exists rej, reply, token, more. split; [|exact Hrest]. unfold server_gets. by rewrite T.
Qed.

(** Without a certificate a hello has no keys. *)
Lemma no_keys h n chlo tags : asked h n chlo tags → GetLeafCert (cl_certManager h) = None → tags !! TagPUBS = None.
Proof using Type. intros Ha Hl. pose proof (hs_keys _ _ (as_says _ _ _ _ Ha)) as Hk. rewrite Hl in Hk. by destruct (cl_serverConfig h). Qed.

Lemma first_round h chlo tags s :
  asked h 1 chlo tags → serving s → cl_stk h = [] → cl_nonc h = [] → cl_certManager h = pa_before p →
  ∃ rej token h' chlo' tags',
    server_gets (server_at I 1 (hi_stk1 I)) chlo s = Some (sv_wrote s rej) ∧
    client_gets (client_at I 2 (hi_kex1 I)) rej h = Some h' ∧ asked h' 2 chlo' tags' ∧
    NewToken P (sv_stkKey s) (sv_remoteAddr s) (hi_clock I 1) (Some (hi_stk1 I)) = Ok token ∧ cl_stk h' = token ∧
    cl_certManager h' = pa_before p ∧ length (cl_nonc h') = 32 ∧ take 8 (drop 4 (cl_nonc h')) = scfg_obit (pa_scfg p).
Proof using Type*.
  intros Ha Hs Hstk Hnonc Hcm. destruct (io_kex _ HI) as (Hk1 & _). destruct (io_stk _ HI) as (Hl1 & _).
  destruct (config_known (hi_kex1 I) 2 Hk1) as (raw & sc & Hraw & Hparse & Hexp & Hob & Hread).
  pose proof (ck_before _ _ _ _ _ _ (pk_certs _ Hp)) as Hleaf.
  assert (tags !! TagPUBS = None) as Hpubs by (apply (no_keys _ _ _ _ Ha); rewrite Hcm; exact Hleaf).
  destruct (server_rejects 1 (hi_stk1 I) h 1 chlo tags s raw Ha Hs Hpubs Hl1 Hraw ltac:(by rewrite Hcm))
    as (rej & reply & token & more & Hsv & Hrd & Hrej & Htok & Htl & Hmore).
  rewrite Hstk, (no_token_refused _ _ (se_accept _ Hs)) in Hmore. subst more.
  set (h1 := configured (client_at I 2 (hi_kex1 I)) h sc raw token (hi_random I)).
  assert (cl_take P (client_at I 2 (hi_kex1 I)) (CeMessage {| MTag := TagREJ; MData := reply |}) h = Some (h1, Ok ())) as Ht.
  { apply (cl_take_config P); [exact Hrej|exact Hparse|exact Hexp|exact Hob|reflexivity|]. rewrite Hcm. exact Hleaf. }
  pose proof Ha as [A1 A2 A3 A4 A5 A6 A7 A8 A9 A10 A11].
  assert (hello_ready h1) as Hready.
  { apply (configured_ready _ _ _ _ _ _ (pa_scfg p) (hi_kex1 I)); [exact A8|exact (proj1 (pk_scfg _ Hp))|..].
    - exact (cr_id _ _ _ Hread). - exact (cr_obit _ _ _ Hread). - exact (cr_kex _ _ _ Hread). - exact Htl. - exact (io_random _ HI). }
  destruct (cl_event_hello _ _ h h1 Ht Hready) as (chlo' & tags' & He & Hrd' & Hsz & Hsays).
  { change (cl_clientHelloCounter h1) with (cl_clientHelloCounter h). by rewrite A4. }
  { reflexivity. } { change (cl_aeads h1) with (cl_aeads h). by rewrite A3. } { exact A5. }
  change (cl_clientHelloCounter h1) with (cl_clientHelloCounter h) in He. rewrite A4 in He. change (1 + 1)%Z with 2%Z in He.
  exists rej, token, (cl_set_hello h1 2 chlo' (cl_written h1 ++ [chlo'])), chlo', tags'.
  split; [exact Hsv|]. split; [exact (client_gets_message _ _ _ _ _ Hrd He)|]. split.
  { apply asked_after; try assumption. }
  split; [exact Htok|]. split; [reflexivity|]. split; [exact Hcm|].
  change (cl_nonc (cl_set_hello h1 _ _ _)) with (client_nonce (client_at I 2 (hi_kex1 I)) h sc (hi_random I)).
  unfold client_nonce. rewrite Hnonc, decide_True by reflexivity.
  rewrite !length_app, (cr_obit _ _ _ Hread), (co_obit _ (proj1 (pk_scfg _ Hp))), (io_random _ HI).
  assert (length (be_bytes 4 (u32 (ce_now (client_at I 2 (hi_kex1 I)) / Second))) = 4) as Hb.
  { unfold be_bytes. by rewrite ?length_reverse, ?length_le_bytes. }
  split; [by rewrite Hb|]. rewrite drop_app_length' by exact (eq_sym Hb). apply take_app_length'. by rewrite (co_obit _ (proj1 (pk_scfg _ Hp))).
Qed.

(** The client that has verified the server. *)
Record verified h (raw token nonc : list byte) (sc : serverConfigClient) : Prop := {
  ve_config : cl_serverConfig h = Some sc;
  ve_read : config_read raw (hi_kex2 I) sc;
  ve_raw : scfg_Get (pa_scfg p) = Some raw;
  ve_stk : cl_stk h = token;
  ve_nonc : cl_nonc h = nonc;
  ve_cert : cl_certManager h = pa_after p;
  ve_verified : cl_serverVerified h = true
}.

Lemma second_round h chlo tags s :
  asked h 2 chlo tags → serving s → acceptSTK P (server_at I 3 (hi_stk2 I)) s (cl_stk h) = true → cl_nonc h ≠ [] →
  cl_certManager h = pa_before p →
  ∃ rej token h' chlo' tags' raw sc,
    server_gets (server_at I 3 (hi_stk2 I)) chlo s = Some (sv_wrote s rej) ∧
    client_gets (client_at I 4 (hi_kex2 I)) rej h = Some h' ∧ asked h' 3 chlo' tags' ∧
    NewToken P (sv_stkKey s) (sv_remoteAddr s) (hi_clock I 3) (Some (hi_stk2 I)) = Ok token ∧
    verified h' raw token (cl_nonc h) sc.
Proof using Type*.
  intros Ha Hs Hacc Hnonc Hcm. destruct (io_kex _ HI) as (_ & Hk2 & _). destruct (io_stk _ HI) as (_ & Hl2).
  destruct (config_known (hi_kex2 I) 4 Hk2) as (raw & sc & Hraw & Hparse & Hexp & Hob & Hread).
  pose proof (ck_before _ _ _ _ _ _ (pk_certs _ Hp)) as Hleaf.
  assert (tags !! TagPUBS = None) as Hpubs by (apply (no_keys _ _ _ _ Ha); rewrite Hcm; exact Hleaf).
  destruct (server_rejects 3 (hi_stk2 I) h 2 chlo tags s raw Ha Hs Hpubs Hl2 Hraw ltac:(by rewrite Hcm))
    as (rej & reply & token & more & Hsv & Hrd & Hrej & Htok & Htl & Hmore).
  rewrite Hacc in Hmore. destruct Hmore as (proof & -> & Hpne & Hvp).
  pose proof Ha as [A1 A2 A3 A4 A5 A6 [A7 _] A8 A9 A10 A11].
  set (h1 := certified (configured (client_at I 4 (hi_kex2 I)) h sc raw token (hi_random I)) proof (pa_after p) (pa_crt p)).
  assert (cl_take P (client_at I 4 (hi_kex2 I)) (CeMessage {| MTag := TagREJ; MData := reply |}) h = Some (h1, Ok ())) as Ht.
  { apply (cl_take_proof P _ _ _ _ _ _ _ _ _ _ (pa_leaf p)); [exact Hrej|exact Hparse|exact Hexp|exact Hob|reflexivity|..].
    - rewrite Hcm. exact (ck_set _ _ _ _ _ _ (pk_certs _ Hp)).
    - exact (ck_verified _ _ _ _ _ _ (pk_certs _ Hp) _).
    - exact (ck_after _ _ _ _ _ _ (pk_certs _ Hp)).
    - exact Hpne.
    - rewrite A7, (cr_raw _ _ _ Hread). exact Hvp. }
  assert (hello_ready h1) as Hready.
  { apply certified_ready; [|exact (proj2 (ck_ccs _ _ _ _ _ _ (pk_certs _ Hp)))].
    apply (configured_ready _ _ _ _ _ _ (pa_scfg p) (hi_kex2 I)); [exact A8|exact (proj1 (pk_scfg _ Hp))|..].
    - exact (cr_id _ _ _ Hread). - exact (cr_obit _ _ _ Hread). - exact (cr_kex _ _ _ Hread). - exact Htl. - exact (io_random _ HI). }
  destruct (cl_event_hello _ _ h h1 Ht Hready) as (chlo' & tags' & He & Hrd' & Hsz & Hsays).
  { change (cl_clientHelloCounter h1) with (cl_clientHelloCounter h). by rewrite A4. }
  { reflexivity. } { change (cl_aeads h1) with (cl_aeads h). by rewrite A3. } { exact A5. }
  change (cl_clientHelloCounter h1) with (cl_clientHelloCounter h) in He. rewrite A4 in He. change (2 + 1)%Z with 3%Z in He.
  exists rej, token, (cl_set_hello h1 3 chlo' (cl_written h1 ++ [chlo'])), chlo', tags', raw, sc.
  split; [exact Hsv|]. split; [exact (client_gets_message _ _ _ _ _ Hrd He)|]. split.
  { apply asked_after; try assumption. }
  split; [exact Htok|]. split; try reflexivity; try assumption.
  change (cl_nonc (cl_set_hello h1 _ _ _)) with (client_nonce (client_at I 4 (hi_kex2 I)) h sc (hi_random I)).
  unfold client_nonce. by rewrite decide_False.
Qed.

(** ** The end *)

Lemma adopt_ok q stream conn streams idle :
  Handshake.params_ok q → (0 ≤ streams)%Z → (0 ≤ idle)%Z → Handshake.params_ok (adopt q stream conn streams idle).
Proof using Type.
  intros [H1 H2 H3 H4] Hs Hi. split; [exact H1|exact H2| |].
  - change (maxStreamsPerConnection (adopt q stream conn streams idle)) with (Z.min streams MaxStreamsPerConnection). unfold MaxStreamsPerConnection. lia.
  - change (idleConnectionStateLifetime (adopt q stream conn streams idle)) with (Z.min idle (idleConnectionStateLifetime q)). lia.
Qed.

(** What the server and the client make of each other's parameters. *)
Definition agreed_server : connectionParametersManager :=
  adopt (pa_server p) (receiveStreamFlowControlWindow (pa_client p)) (receiveConnectionFlowControlWindow (pa_client p))
    (maxStreamsPerConnection (pa_client p)) (idleConnectionStateLifetime (pa_client p) / Second * Second).
Definition agreed_client : connectionParametersManager :=
  adopt (pa_client p) (receiveStreamFlowControlWindow agreed_server) (receiveConnectionFlowControlWindow agreed_server)
    (maxStreamsPerConnection agreed_server) (idleConnectionStateLifetime agreed_server / Second * Second).

Lemma agreed_ok : Handshake.params_ok agreed_server.
Proof using Hp.
  apply adopt_ok; [exact (proj1 (pk_server _ Hp))|..]; destruct (pk_client _ Hp) as [[_ _ H3 [H4 _]] _]; [lia|].
  apply Z.mul_nonneg_nonneg; [|by vm_compute]. apply Z.div_pos; [exact H4|by vm_compute].
Qed.

(** The two ends of a handshake that went well. *)
Record agreement h s : Prop := {
  ag_secure : ∃ c v, secureAEAD (cl_aeads h) = Some c ∧ secureAEAD (sv_aeads s) = Some v ∧ AEADLaws c v ∧ AEADLaws v c;
  ag_forward : ∃ c v, forwardSecureAEAD (cl_aeads h) = Some c ∧ forwardSecureAEAD (sv_aeads s) = Some v ∧ AEADLaws c v ∧ AEADLaws v c;
  ag_levels : changed (cl_aeads h) = [EncryptionSecure; EncryptionForwardSecure] ∧ changed_closed (cl_aeads h) = true ∧
    changed (sv_aeads s) = [EncryptionSecure; EncryptionForwardSecure] ∧ sv_sentSHLO s = true;
  ag_verified : cl_serverVerified h = true ∧ GetLeafCert (cl_certManager h) = Some (pa_leaf p);
  ag_windows : sendStreamFlowControlWindow (cl_parameters h) = receiveStreamFlowControlWindow (sv_parameters s) ∧
    sendConnectionFlowControlWindow (cl_parameters h) = receiveConnectionFlowControlWindow (sv_parameters s) ∧
    sendStreamFlowControlWindow (sv_parameters s) = receiveStreamFlowControlWindow (cl_parameters h) ∧
    sendConnectionFlowControlWindow (sv_parameters s) = receiveConnectionFlowControlWindow (cl_parameters h)
}.

Lemma server_keys h chlo tags s raw token nonc sc :
  asked h 3 chlo tags → serving s → verified h raw token nonc sc → length nonc = 32 → take 8 (drop 4 nonc) = scfg_obit (pa_scfg p) →
  acceptSTK P (server_at I 5 (hi_stk2 I)) s token = true →
  ∃ shlo reply secure forward,
    server_gets (server_at I 5 (hi_stk2 I)) chlo s =
      Some (sv_update s (hi_divNonce I) (with_both (sv_aeads s) secure forward) true (sv_written s ++ [shlo]) agreed_server) ∧
    DeriveQuicCryptoAESKeys P false (sc_sharedSecret sc) nonc (cc_connID (pa_config p)) chlo raw (pa_leaf p) (hi_divNonce I) PerspectiveServer = Ok secure ∧
    DeriveQuicCryptoAESKeys P true (ScalarMult P (clamp (hi_ephermal I)) (PublicKey (sc_kex sc))) (nonc ++ hi_serverNonce I) (cc_connID (pa_config p))
      chlo raw (pa_leaf p) [] PerspectiveServer = Ok forward ∧
    reads ParseHandshakeMessage shlo {| MTag := TagSHLO; MData := reply |} ∧
    server_hello reply (hi_serverNonce I) (PublicKey (NewCurve25519KEX P (hi_ephermal I))) (pa_supported p) agreed_server.
Proof using Type*.
  intros [A1 A2 A3 A4 A5 A6 A7 A8 A9 A10 A11] [S1 S2 S3 S4 S5 S6 S7 S8 S9 S10] [V1 V2 V3 V4 V5 V6 V7] Hn Hob Hacc.
  destruct (hello_map _ (proj1 (pk_client _ Hp))) as (m & Hm & _).
  pose proof (SetFromMap_hello (pa_server p) (pa_client p) m (proj1 (pk_client _ Hp)) Hm (proj2 (pk_server _ Hp))) as Hset. fold agreed_server in Hset.
  assert (keyed_hello P (pa_leaf p) (server_at I 5 (hi_stk2 I)) s h sc raw) as Hk.
  { split; [exact V1| |..].
    - rewrite V6. exact (ck_after _ _ _ _ _ _ (pk_certs _ Hp)).
    - rewrite S3. exact (cr_id _ _ _ V2).
    - by rewrite S3.
    - rewrite V5, S3. by split.
    - rewrite S3. exact (proj1 (cr_shared _ _ _ V2)).
    - by rewrite V4. }
  destruct (sv_turn_full P _ _ _ _ _ _ (server_at I 5 (hi_stk2 I)) s h chlo tags sc raw (hi_serverNonce I) (hi_divNonce I) (hi_ephermal I)
    agreed_server m (pk_certs _ Hp)) as (shlo & reply & secure & forward & T & Hsec & Hfwd & Hrd & Hsh); try assumption; try reflexivity.
  - by rewrite A1.
  - rewrite A1, S2. exact version_spoken.
  - unfold zlen. rewrite (proj1 (io_nonces _ HI)). by vm_compute.
  - by rewrite S6.
  - rewrite S7. exact (pk_supported _ Hp).
  - by rewrite A2.
  - by rewrite S8.
  - exact agreed_ok.
  - rewrite V5, S9 in Hsec, Hfwd. rewrite S7 in Hsh.
    exists shlo, reply, secure, forward. split; [unfold server_gets; by rewrite T|]. repeat (split; [assumption|]). assumption.
Qed.

Lemma derived_laws fs secret nonces cid chlo scfg cert div v c :
  DeriveQuicCryptoAESKeys P fs secret nonces cid chlo scfg cert div PerspectiveServer = Ok v →
  DeriveQuicCryptoAESKeys P fs secret nonces cid chlo scfg cert div PerspectiveClient = Ok c → AEADLaws c v ∧ AEADLaws v c.
Proof using PrimitiveLaws0.
  intros Hv Hc. destruct (derived_match P fs secret nonces cid chlo scfg cert div) as (v' & c' & Hv' & Hc' & L1 & L2).
  rewrite Hv in Hv'. rewrite Hc in Hc'. injection Hv' as <-. injection Hc' as <-. by split.
Qed.

(** Both sides compute the forward-secure secret. *)
Lemma forward_shared sc raw : config_read raw (hi_kex2 I) sc →
  ScalarMult P (clamp (hi_ephermal I)) (PublicKey (sc_kex sc)) =
    ScalarMult P (kex_secret (sc_kex sc)) (PublicKey (NewCurve25519KEX P (hi_ephermal I))).
Proof using PrimitiveLaws0 HI.
  intros Hr. rewrite (cr_kex _ _ _ Hr). destruct (io_kex _ HI) as (_ & H2 & H3). cbn [NewCurve25519KEX PublicKey kex_secret].
  by rewrite scalar_mult_comm by by rewrite length_clamp.
Qed.

(** The server that has sent its hello. *)
Definition done_server s (secure forward : AEAD) (shlo : list byte) : cryptoSetupServer :=
  sv_update s (hi_divNonce I) (with_both (sv_aeads s) secure forward) true (sv_written s ++ [shlo]) agreed_server.

Lemma client_keys h chlo tags s raw token nonc sc shlo reply secure forward pn ad :
  asked h 3 chlo tags → serving s → verified h raw token nonc sc → nonc ≠ [] →
  DeriveQuicCryptoAESKeys P false (sc_sharedSecret sc) nonc (cc_connID (pa_config p)) chlo raw (pa_leaf p) (hi_divNonce I) PerspectiveServer = Ok secure →
  DeriveQuicCryptoAESKeys P true (ScalarMult P (clamp (hi_ephermal I)) (PublicKey (sc_kex sc))) (nonc ++ hi_serverNonce I) (cc_connID (pa_config p))
    chlo raw (pa_leaf p) [] PerspectiveServer = Ok forward →
  reads ParseHandshakeMessage shlo {| MTag := TagSHLO; MData := reply |} →
  server_hello reply (hi_serverNonce I) (PublicKey (NewCurve25519KEX P (hi_ephermal I))) (pa_supported p) agreed_server →
  ∃ h1 k h2, cl_event P (client_at I 6 (hi_kex2 I)) (CeNonce (hi_divNonce I)) h = Some (h1, Ok ()) ∧
    cl_Open (cl_aeads h1) (Seal secure shlo pn ad) pn ad = (k, Ok (shlo, EncryptionSecure)) ∧
    client_gets (client_at I 7 (hi_kex2 I)) shlo (cl_set_aeads h1 k) = Some h2 ∧ agreement h2 (done_server s secure forward shlo).
Proof using Type*.
  intros [A1 A2 A3 A4 A5 A6 [A7 _] A8 A9 A10 A11] Hs [V1 V2 V3 V4 V5 V6 V7] Hn Hsec Hfwd Hrd Hsh.
  pose proof (ck_after _ _ _ _ _ _ (pk_certs _ Hp)) as Hleaf.
  assert (key_ready h sc (pa_leaf p)) as Hready.
  { split; [exact V7|exact V1|rewrite V6; exact Hleaf| |exact A6|rewrite A3; split; reflexivity|exact A5].
    split; [exact (proj2 (cr_shared _ _ _ V2))|]. split; [rewrite V5; exact Hn|]. split; [exact (ck_leaf_some _ _ _ _ _ _ (pk_certs _ Hp))|].
    rewrite A7. intros E. rewrite E in A10. exact (A10 eq_refl). }
  destruct (cl_event_nonce P (client_at I 6 (hi_kex2 I)) h sc (pa_leaf p) (hi_divNonce I) Hready) as (csec & He & Hcsec).
  { intros E. pose proof (proj2 (io_nonces _ HI)) as Hl. rewrite E in Hl. discriminate Hl. }
  rewrite V5, A1, A7, (cr_raw _ _ _ V2) in Hcsec. destruct (derived_laws _ _ _ _ _ _ _ _ _ _ Hsec Hcsec) as [L1 L2].
  set (h1 := keyed h (hi_divNonce I) csec) in *. exists h1.
  pose proof (cl_Open_secure (cl_aeads h1) csec secure shlo pn ad ltac:(unfold h1; cbn; rewrite A3; reflexivity) eq_refl L2) as Hopen.
  set (k := set_received (cl_aeads h1) true (receivedForwardSecurePacket (cl_aeads h1))) in *. exists k.
  destruct (hello_map _ agreed_ok) as (m & Hm & _).
  pose proof (SetFromMap_hello (pa_client p) agreed_server m agreed_ok Hm (proj2 (pk_client _ Hp))) as Hset. fold agreed_client in Hset.
  destruct (cl_event_shlo P (client_at I 7 (hi_kex2 I)) reply (cl_set_aeads h1 k) sc (pa_leaf p) (hi_serverNonce I) _ (pa_supported p)
    agreed_server m agreed_client csec Hsh eq_refl eq_refl eq_refl V1) as (cfwd & He' & Hcfwd); try assumption.
  - change (cl_certManager (cl_set_aeads h1 k)) with (cl_certManager h). rewrite V6. exact Hleaf.
  - change (cl_config (cl_set_aeads h1 k)) with (cl_config h). rewrite A1. exact (pk_negotiated _ Hp).
  - apply length_scalar_base.
  - change (cl_parameters (cl_set_aeads h1 k)) with (cl_parameters h). rewrite A2. exact Hset.
  - change (cl_config (cl_set_aeads h1 k)) with (cl_config h). rewrite A1. exact (proj2 (pk_options _ Hp)).
  - change (cl_nonc (cl_set_aeads h1 k)) with (cl_nonc h) in Hcfwd. change (cl_config (cl_set_aeads h1 k)) with (cl_config h) in Hcfwd.
    change (cl_lastSentCHLO (cl_set_aeads h1 k)) with (cl_lastSentCHLO h) in Hcfwd.
    rewrite V5, A1, A7, (cr_raw _ _ _ V2) in Hcfwd. rewrite (forward_shared _ _ V2) in Hfwd.
    destruct (derived_laws _ _ _ _ _ _ _ _ _ _ Hfwd Hcfwd) as [L3 L4].
    eexists. split; [exact He|]. split; [exact Hopen|]. split; [exact (client_gets_message _ _ _ _ _ Hrd He')|].
    split.
    + exists csec, secure. split; [reflexivity|split; [reflexivity|split; assumption]].
    + exists cfwd, forward. split; [reflexivity|split; [reflexivity|split; assumption]].
    + cbn. rewrite A3, (se_aeads _ Hs). repeat split; reflexivity.
    + split; [exact V7|]. cbn. rewrite V6. exact Hleaf.
    + repeat split; reflexivity.
Qed.

Lemma serving_start s : server_of p = Ok s → serving s ∧ sv_written s = [].
Proof using Type. intros [= <-]. split; [|done]. split; try done. Qed.
Lemma then_some {A B} (r : option A) (f : A → option B) a : r = Some a → (r ≫= f) = f a.
Proof using Type. by intros ->. Qed.

(** C6: a client and a server that have the same version, a certificate the client accepts and bytes
    from their random sources finish the handshake in three hellos: the first is rejected with a
    token, the second with a proof, the third makes the keys.  In the end both have a secure and a
    forward-secure key, each opening what the other seals, both have announced first the one and then
    the other, the client has verified the server's proof, and each side sends within the windows the
    other receives with.  What they start from is in [parties_ok] and [inputs_ok]: above all the versions
    the server lists agree with the negotiation, the connection ID is not left out, nothing is known of
    the server from before, and the handshake takes less than a day. *)
Theorem handshake_completes pn ad s :
  server_of p = Ok s → ∃ h s', handshake_run I pn ad (client_of p) s = Some (h, s') ∧ agreement h s'.
Proof using Type*.
  intros Hstart. destruct (serving_start s Hstart) as [Hs Hw]. unfold handshake_run.
  destruct first_hello as (h0 & chlo0 & tags0 & H0 & A0 & _ & Hstk0 & Hn0 & Hcm0). rewrite (then_some _ _ h0) by by rewrite H0.
  rewrite (proj2 (as_last _ _ _ _ A0)).
  destruct (first_round h0 chlo0 tags0 s A0 Hs Hstk0 Hn0 Hcm0) as (rej1 & token1 & h1 & chlo1 & tags1 & T1 & G1 & A1 & K1 & Hstk1 & Hcm1 & Hl1 & Ho1).
  rewrite (then_some _ _ _ T1). pose proof (serving_wrote s rej1 Hs) as Hs1. set (s1 := sv_wrote s rej1) in *.
  change (sv_written s1) with (sv_written s ++ [rej1]). rewrite newest_app, (then_some _ _ _ G1), (proj2 (as_last _ _ _ _ A1)).
  assert (acceptSTK P (server_at I 3 (hi_stk2 I)) s1 (cl_stk h1) = true) as Acc1.
  { rewrite Hstk1. destruct (io_clock _ HI 1 3 ltac:(lia)) as (C1 & C2 & C3).
    apply (token_taken _ s1 token1 (hi_stk1 I) (hi_clock I 1)); [exact (se_accept _ Hs1)|exact (se_stkKey _ Hs1)|exact (proj1 (io_stk _ HI))|lia| |exact K1].
    change (se_now (server_at I 3 (hi_stk2 I))) with (hi_clock I 3). lia. }
  assert (cl_nonc h1 ≠ []) as Hne1 by (intros E; rewrite E in Hl1; discriminate Hl1).
  destruct (second_round h1 chlo1 tags1 s1 A1 Hs1 Acc1 Hne1 Hcm1) as (rej2 & token2 & h2 & chlo2 & tags2 & raw & sc & T2 & G2 & A2 & K2 & V2).
  rewrite (then_some _ _ _ T2). pose proof (serving_wrote s1 rej2 Hs1) as Hs2. set (s2 := sv_wrote s1 rej2) in *.
  change (sv_written s2) with (sv_written s1 ++ [rej2]). rewrite newest_app, (then_some _ _ _ G2), (proj2 (as_last _ _ _ _ A2)).
  assert (acceptSTK P (server_at I 5 (hi_stk2 I)) s2 token2 = true) as Acc2.
  { destruct (io_clock _ HI 3 5 ltac:(lia)) as (C1 & C2 & C3).
    apply (token_taken _ s2 token2 (hi_stk2 I) (hi_clock I 3)); [exact (se_accept _ Hs2)|exact (se_stkKey _ Hs2)|exact (proj2 (io_stk _ HI))|lia| |exact K2].
    change (se_now (server_at I 5 (hi_stk2 I))) with (hi_clock I 5). lia. }
  destruct (server_keys h2 chlo2 tags2 s2 raw token2 _ sc A2 Hs2 V2 Hl1 Ho1 Acc2) as (shlo & reply & secure & forward & T3 & Hsec & Hfwd & Hrd & Hsh).
  rewrite (then_some _ _ _ T3). fold (done_server s2 secure forward shlo).
  destruct (client_keys h2 chlo2 tags2 s2 raw token2 _ sc shlo reply secure forward pn ad A2 Hs2 V2 Hne1 Hsec Hfwd Hrd Hsh)
    as (h3 & k & h4 & G3 & Hopen & G4 & Hag).
  change (crypto_DiversificationNonce (sv_CryptoSetup (done_server s2 secure forward shlo))) with (hi_divNonce I).
  rewrite (then_some _ _ h3) by by rewrite G3.
  change (GetSealerForCryptoStream (sv_CryptoSetup (done_server s2 secure forward shlo))) with (EncryptionSecure, secure).
  change (sv_written (done_server s2 secure forward shlo)) with (sv_written s2 ++ [shlo]). rewrite newest_app. cbn iota beta.
  rewrite Hopen, (then_some _ _ _ G4). by exists h4, (done_server s2 secure forward shlo).
Qed.
End handshake.

(** ** A handshake with simple primitives *)

Section simple.
Local Definition pad32 (a : list byte) : list byte := resize 32 x00 a.
Local Definition shared (a b : list byte) : list byte := zip_with byte_xor (pad32 a) (pad32 b).
Local Definition seal_with (tag : nat) (p : list byte) : list byte := p ++ replicate tag x00.
Local Definition open_with (tag : nat) (c : list byte) : option (list byte) := Some (take (length c - tag) c).
Local Definition sum_bytes (l : list byte) : Z := foldr (λ b acc, byte_val b + acc)%Z 0%Z l.
Definition simple_primitives : primitives := {|
  ScalarMult := shared; ScalarBaseMult := pad32;
  hkdf_byte := λ secret salt info i, byte_of (sum_bytes secret + 3 * sum_bytes salt + 5 * sum_bytes info + Z.of_nat i)%Z;
  gcm12_Seal := λ _ _ p _, seal_with 12 p; gcm12_Open := λ _ _ c _, open_with 12 c;
  gcm_Seal := λ _ _ p _, seal_with 16 p; gcm_Open := λ _ _ c _, open_with 16 c;
  asn1_Marshal := λ d, le_bytes 8 (u64 d.2) ++ d.1;
  asn1_Unmarshal := λ b, Some (drop 8 b, i64 (le_val (take 8 b)), [])
|}.
Lemma opens_sealed tag p : open_with tag (seal_with tag p) = Some p.
Proof. unfold open_with, seal_with. rewrite length_app, length_replicate, Nat.add_sub. by rewrite take_app_length. Qed.
Lemma sealed_length tag p : zlen (seal_with tag p) = (zlen p + Z.of_nat tag)%Z.
Proof. unfold seal_with. rewrite zlen_app, zlen_replicate. lia. Qed.
Lemma byte_xor_comm a b : byte_xor a b = byte_xor b a.
Proof. unfold byte_xor. by rewrite Z.lxor_comm. Qed.
Lemma xor_bytes_comm k l : zip_with byte_xor k l = zip_with byte_xor l k.
Proof. revert l. induction k as [|x k IH]; intros [|y l]; cbn; [done..|]. by rewrite IH, (byte_xor_comm x). Qed.
Lemma i64_u64 z : (- 2 ^ 63 ≤ z < 2 ^ 63)%Z → i64 (u64 z) = z.
Proof. intros Hz. unfold i64, u64. rewrite Zplus_mod_idemp_l, Z.mod_small; lia. Qed.
#[local] Instance simple_laws : PrimitiveLaws simple_primitives.
Proof.
  split; cbn [simple_primitives ScalarMult ScalarBaseMult gcm12_Seal gcm12_Open gcm_Seal gcm_Open asn1_Marshal asn1_Unmarshal].
  - intros a b. unfold shared, pad32. rewrite length_zip_with, !length_resize. done.
  - intros a. apply length_resize.
  - intros a b _ _. unfold shared, pad32. rewrite !resize_idemp. apply xor_bytes_comm.
  - intros k n p a _ _. apply opens_sealed.
  - intros k n p a. apply (sealed_length 12).
  - intros k n p a _ _. apply opens_sealed.
  - intros k n p a. apply (sealed_length 16).
  - intros d n Hn. cbn [fst snd]. rewrite take_app_length', drop_app_length' by by rewrite length_le_bytes.
    rewrite le_val_bytes by (unfold u64; apply Z.mod_pos_bound; lia). by rewrite i64_u64.
  - intros d n Hd Hn. cbn [fst snd]. rewrite zlen_app. unfold zlen at 1. rewrite length_le_bytes. lia.
Qed.

(** The proof is a hash of what it covers, the certificate one byte. *)
Local Definition simple_proof (chlo scfg : list byte) : list byte := be_bytes 8 (fnv64a (chlo ++ scfg)).
Definition simple_chain : CertChain := {|
  SignServerProof := λ _ _ chlo scfg, Ok (simple_proof chlo scfg);
  GetCertsCompressed := λ _ _ _, Ok [x0a];
  chain_GetLeafCert := λ _, Ok [x0b]
|}.
#[local] Instance simple_certs : CertManager (option (list byte)) := {|
  SetData := λ _ _, (Some [x0b], None);
  GetCommonCertificateHashes := λ _, [];
  GetLeafCert := λ m, m;
  VerifyServerProof := λ _ proof chlo scfg, bool_decide (proof = simple_proof chlo scfg);
  Verify := λ _ _ _, None
|}.
Definition simple_parties : parties (M := option (list byte)) := {|
  pa_config := {| cc_hostname := list_byte_of_string "quic.clemente.io"; cc_connID := 77; cc_version := 39; cc_negotiatedVersions := [];
                  cc_params := {| RequestConnectionIDTruncation := false; CacheHandshake := false |} |};
  pa_scfg := {| scfg_kex := NewCurve25519KEX simple_primitives (replicate 32 x05); scfg_ID := replicate 16 x01; scfg_obit := replicate 8 x02 |};
  pa_secret := replicate 32 x05;
  pa_certs := simple_chain; pa_leaf := [x0b]; pa_crt := [x0a]; pa_before := None; pa_after := Some [x0b];
  pa_addr := {| addr_IP := [x0a; x00; x00; x01]; addr_Port := 4433 |}; pa_supported := SupportedVersions; pa_stkSecret := replicate 32 x07;
  pa_client := NewConnectionParamatersManager PerspectiveClient 39 (2 ^ 24) (2 ^ 24) (30 * Second);
  pa_server := NewConnectionParamatersManager PerspectiveServer 39 (2 ^ 20) (2 ^ 20) (29 * Second)
|}.
Definition simple_inputs : handshake_inputs := {|
  hi_clock := λ i, (Second * (1600000000 + Z.min 9 (Z.of_nat i)))%Z;
  hi_kex1 := replicate 32 x11; hi_kex2 := replicate 32 x12; hi_random := replicate 20 x13;
  hi_stk1 := replicate 16 x14; hi_stk2 := replicate 16 x15; hi_signing := [];
  hi_serverNonce := replicate 32 x16; hi_divNonce := replicate 32 x17; hi_ephermal := replicate 32 x18
|}.

Lemma simple_inputs_ok : inputs_ok simple_inputs.
Proof.
  split; [by repeat split..|]. intros i j Hij. unfold simple_inputs, CookieExpiryTime, Second, hi_clock. lia.
Qed.
Local Ltac computed := vm_compute; first [reflexivity|discriminate].
Lemma simple_certificates_ok : certificates_ok simple_chain (cc_hostname (pa_config simple_parties)) [x0b] [x0a] None (Some [x0b]).
Proof.
  split; try reflexivity; try discriminate.
  - split; [reflexivity|computed].
  - split; computed.
  - intros rnd chlo scfg. exists (simple_proof chlo scfg). split; [reflexivity|].
    assert (length (simple_proof chlo scfg) = 8) as Hl by (unfold simple_proof, be_bytes; by rewrite ?length_reverse, ?length_le_bytes).
    split; [intros E; rewrite E in Hl; discriminate Hl|]. split; [unfold zlen; rewrite Hl; computed|]. by apply bool_decide_true.
Qed.
Lemma simple_parties_ok : parties_ok simple_primitives simple_parties.
Proof.
  split.
  - split; [split; reflexivity|split; reflexivity].
  - exact simple_certificates_ok.
  - computed.
  - split; computed.
  - computed.
  - computed.
  - split; reflexivity.
  - computed.
  - split; [split; split; computed|reflexivity].
  - split; [split; split; computed|reflexivity].
Qed.

Lemma handshake_completes_witness : ∃ s h s',
  server_of simple_primitives (λ _, (0, 0)%Z) simple_parties = Ok s ∧
  handshake_run simple_primitives simple_inputs 9 [x0c] (client_of (λ _, (0, 0)%Z) simple_parties) s = Some (h, s') ∧
  agreement simple_parties h s'.
Proof.
  destruct (server_of simple_primitives (λ _, (0, 0)%Z) simple_parties) as [s|e] eqn:E; [|discriminate E]. exists s.
  destruct (handshake_completes simple_primitives (λ _, (0, 0)%Z) simple_parties simple_parties_ok simple_inputs simple_inputs_ok 9 [x0c] s E)
    as (h & s' & H). exists h, s'. split; [reflexivity|exact H].
Defined.
End simple.

(** * What else holds of a setup *)

(** ** Nonces *)

Section nonces.
Context (P : primitives) `{!PrimitiveLaws P} {C : Type}.

(** A packet with keys of the handshake, and the nonce it is sealed with. *)
Lemma sealed_with e p level fs (pth pth' : path C) sealer raw key otherKey iv otherIV :
  NewAEADAESGCM12 P otherKey key otherIV iv = Ok sealer →
  writeAndSealPacket e p (getPublicHeader e p level pth) fs sealer pth = Some (pth', Ok raw) →
  ∃ header payload, raw = header ++ gcm12_Seal P key (makeNonce12 iv (next (generator pth))) payload header.
Proof using PrimitiveLaws0.
  unfold NewAEADAESGCM12. case_decide; [discriminate|]. intros [= <-]. unfold writeAndSealPacket.
  destruct (write_PublicHeader _ _ _) as [[header err]|]; [|discriminate]. cbn [mbind option_bind]. destruct err; [discriminate|].
  destruct (write_frames _ _ _) as [[payload err]|]; [|discriminate]. cbn [mbind option_bind]. destruct err; [discriminate|].
  case_decide; [discriminate|]. destruct (Pop _ _) as [g num]. case_decide; [discriminate|]. intros [= _ <-].
  exists header, payload. cbn [Overhead Seal getPublicHeader PacketNumber]. unfold Peek. apply take_ge.
  set (c := gcm12_Seal _ _ _ _ _). assert (zlen (header ++ c) = zlen header + (zlen payload + 12))%Z as Hz.
  { rewrite zlen_app. unfold c. by rewrite gcm12_overhead. }
  unfold zlen in Hz |- *. lia.
Qed.

(** C16: all packets of a direction are sealed with one key, and the nonces of two of them are the same if and only if
    their packet numbers are: a path never repeats a nonce, but packets of different paths with the same number
    are sealed with the same key and the same nonce. *)
Theorem nonces_of_packets fs secret nonces cid chlo scfg cert div pers sealer :
  DeriveQuicCryptoAESKeys P fs secret nonces cid chlo scfg cert div pers = Ok sealer →
  ∃ key, ∀ e1 e2 p1 p2 level1 level2 fs1 fs2 (pth1 pth2 pth1' pth2' : path C) raw1 raw2,
    (0 ≤ next (generator pth1) < 2 ^ 64)%Z → (0 ≤ next (generator pth2) < 2 ^ 64)%Z →
    writeAndSealPacket e1 p1 (getPublicHeader e1 p1 level1 pth1) fs1 sealer pth1 = Some (pth1', Ok raw1) →
    writeAndSealPacket e2 p2 (getPublicHeader e2 p2 level2 pth2) fs2 sealer pth2 = Some (pth2', Ok raw2) →
    ∃ nonce1 header1 payload1 nonce2 header2 payload2,
      raw1 = header1 ++ gcm12_Seal P key nonce1 payload1 header1 ∧ raw2 = header2 ++ gcm12_Seal P key nonce2 payload2 header2 ∧
      (nonce1 = nonce2 ↔ next (generator pth1) = next (generator pth2)).
Proof using PrimitiveLaws0.
  unfold DeriveQuicCryptoAESKeys. destruct (deriveKeys _ _ _ _ _ _ _ _ _ _ _) as [[[otherKey key] otherIV] iv]. intros Hs. exists key.
  intros e1 e2 p1 p2 l1 l2 fs1 fs2 pth1 pth2 pth1' pth2' raw1 raw2 Hn1 Hn2 H1 H2.
  destruct (sealed_with _ _ _ _ _ _ _ _ _ _ _ _ Hs H1) as (header1 & payload1 & ->).
  destruct (sealed_with _ _ _ _ _ _ _ _ _ _ _ _ Hs H2) as (header2 & payload2 & ->).
  eexists _, header1, payload1, _, header2, payload2. split; [reflexivity|]. split; [reflexivity|]. split.
  - by apply makeNonce12_inj.
  - by intros ->.
Qed.
End nonces.

(** ** Levels *)

Definition level_rank (l : EncryptionLevel) : nat :=
  match l with EncryptionUnspecified => 0 | EncryptionUnencrypted => 1 | EncryptionSecure => 2 | EncryptionForwardSecure => 3 end.

(** What happens to the keys of a side. *)
Inductive aead_event : Type :=
| EvPacket (src : list byte) (n : Z) (ad : list byte)
| EvSecure (a : AEAD)
| EvForward (a : AEAD).

(** The levels of the packets that are taken; [None] is a packet that waits, for ever or until a panic. *)
Fixpoint taken (open : aeads → list byte → Z → list byte → option (aeads * result AEADError (list byte * EncryptionLevel)))
    (k : aeads) (evs : list aead_event) : list EncryptionLevel :=
  match evs with
  | [] => []
  | EvPacket src n ad :: evs =>
      match open k src n ad with
      | None => []
      | Some (k, Ok (_, l)) => l :: taken open k evs
      | Some (k, Err _) => taken open k evs
      end
  | EvSecure a :: evs => taken open (set_secure k a) evs
  | EvForward a :: evs => taken open (set_forward_secure k a) evs
  end.
Definition cl_taken : aeads → list aead_event → list EncryptionLevel := taken (λ k src n ad, Some (cl_Open k src n ad)).
Definition sv_taken (sentSHLO : bool) : aeads → list aead_event → list EncryptionLevel := taken (λ k src n ad, sv_Open k sentSHLO src n ad).

(** The lowest level a side still takes. *)
Definition secure_floor (k : aeads) : nat := if receivedSecurePacket k && bool_decide (is_Some (secureAEAD k)) then 2 else 1.
Definition cl_floor (k : aeads) : nat := if bool_decide (is_Some (forwardSecureAEAD k)) then 3 else secure_floor k.
Definition sv_floor (k : aeads) : nat :=
  if receivedForwardSecurePacket k && bool_decide (is_Some (forwardSecureAEAD k)) then 3 else secure_floor k.

Lemma taken_sorted open floor k evs :
  (∀ k src n ad k' r, open k src n ad = Some (k', r) →
    match r with Ok (_, l) => floor k ≤ level_rank l ∧ level_rank l ≤ floor k' | Err _ => floor k ≤ floor k' end) →
  (∀ k a, floor k ≤ floor (set_secure k a)) → (∀ k a, floor k ≤ floor (set_forward_secure k a)) →
  Sorted le (level_rank <$> taken open k evs) ∧ Forall (λ l, floor k ≤ level_rank l) (taken open k evs).
Proof.
  intros Hopen Hs Hf. revert k. induction evs as [|[src n ad|a|a] evs IH]; intros k; cbn [taken]; [by repeat constructor| | |].
  - destruct (open k src n ad) as [[k' [[data l]|err]]|] eqn:E; [| |by repeat constructor].
    + apply Hopen in E as [E1 E2]. destruct (IH k') as [S F]. split.
      * cbn [fmap list_fmap]. constructor; [exact S|]. destruct (taken open k' evs) as [|l' ls]; constructor. apply Forall_cons in F as [F _]. lia.
      * constructor; [exact E1|]. eapply Forall_impl; [exact F|]. cbn. lia.
    + apply Hopen in E. destruct (IH k') as [S F]. split; [exact S|]. eapply Forall_impl; [exact F|]. cbn. lia.
  - destruct (IH (set_secure k a)) as [S F]. split; [exact S|]. specialize (Hs k a). eapply Forall_impl; [exact F|]. cbn. lia.
  - destruct (IH (set_forward_secure k a)) as [S F]. split; [exact S|]. specialize (Hf k a). eapply Forall_impl; [exact F|]. cbn. lia.
Qed.

Lemma null_Open_level (k : aeads) src n ad : match null_Open k src n ad with Ok (_, l) => level_rank l = 1 | Err _ => True end.
Proof. unfold null_Open. by destruct (aead_Open _ _ _ _). Qed.

Definition opened_from (floor : aeads → nat) (k k' : aeads) (r : result AEADError (list byte * EncryptionLevel)) : Prop :=
  match r with Ok (_, l) => floor k ≤ level_rank l ∧ level_rank l ≤ floor k' | Err _ => floor k ≤ floor k' end.

(** Below the forward-secure key both sides do the same. *)
Definition open_below (k : aeads) (src : list byte) (n : Z) (ad : list byte) : aeads * result AEADError (list byte * EncryptionLevel) :=
  match secureAEAD k with
  | Some aead =>
      match aead_Open aead src n ad with
      | Ok data => (set_received k true (receivedForwardSecurePacket k), Ok (data, EncryptionSecure))
      | Err e => if receivedSecurePacket k then (k, Err e) else (k, null_Open k src n ad)
      end
  | None => (k, null_Open k src n ad)
  end.
Lemma open_below_floor k src n ad : let '(k', r) := open_below k src n ad in
  opened_from secure_floor k k' r ∧ forwardSecureAEAD k' = forwardSecureAEAD k ∧ receivedForwardSecurePacket k' = receivedForwardSecurePacket k ∧
  match r with Ok (_, l) => level_rank l ≤ 2 | Err _ => True end.
Proof.
  assert (secureAEAD k = None ∨ receivedSecurePacket k = false →
    opened_from secure_floor k k (null_Open k src n ad) ∧ match null_Open k src n ad with Ok (_, l) => level_rank l ≤ 2 | Err _ => True end) as Hnull.
  { intros Hk. pose proof (null_Open_level k src n ad) as Hl. unfold opened_from.
    assert (secure_floor k = 1) as -> by (unfold secure_floor; destruct Hk as [-> | ->]; [by rewrite andb_false_r|done]).
    destruct (null_Open k src n ad) as [[data l]|]; [rewrite Hl; by split; [split|]; lia|by split]. }
  unfold open_below. destruct (secureAEAD k) as [a|] eqn:Ea; [destruct (aead_Open a src n ad) as [data|err]; [|destruct (receivedSecurePacket k) eqn:Er]|].
  - split; [|split; [reflexivity|split; [reflexivity|cbn; lia]]]. unfold opened_from, secure_floor. cbn. rewrite Ea.
    destruct (receivedSecurePacket k); cbn; lia.
  - repeat split. cbn. lia.
  - destruct Hnull as [H1 H2]; [by right|]. by repeat split.
  - destruct Hnull as [H1 H2]; [by left|]. by repeat split.
Qed.

Lemma cl_Open_floor k src n ad k' r : cl_Open k src n ad = (k', r) → opened_from cl_floor k k' r.
Proof.
  unfold cl_Open, cl_floor. destruct (forwardSecureAEAD k) as [f|] eqn:Ef.
  - intros [= <- <-]. unfold opened_from. rewrite Ef. destruct (aead_Open f src n ad); cbn; lia.
  - fold (open_below k src n ad). pose proof (open_below_floor k src n ad) as Hb. intros E. rewrite E in Hb. destruct Hb as (Hb & Hf & _ & _).
    unfold opened_from in *. rewrite Hf, Ef. exact Hb.
Qed.
Lemma sv_Open_floor k sent src n ad k' r : sv_Open k sent src n ad = Some (k', r) → opened_from sv_floor k k' r.
Proof.
  unfold sv_Open. fold (open_below k src n ad). pose proof (open_below_floor k src n ad) as Hb. destruct (open_below k src n ad) as [kb rb].
  destruct Hb as (Hb & Hf & Hr & Hl).
  assert (receivedForwardSecurePacket k && bool_decide (is_Some (forwardSecureAEAD k)) = false → opened_from sv_floor k kb rb) as Hbelow.
  { intros E. unfold opened_from, sv_floor in *. rewrite Hf, Hr, E. exact Hb. }
  destruct (forwardSecureAEAD k) as [f|] eqn:Ef.
  - destruct (aead_Open f src n ad) as [data|err].
    + destruct (receivedForwardSecurePacket k) eqn:Er.
      * intros [= <- <-]. unfold opened_from, sv_floor. rewrite Er, Ef. cbn. lia.
      * destruct (negb sent); [discriminate|]. unfold close_levels. cbn. destruct (changed_closed k); [discriminate|]. intros [= <- <-].
        unfold opened_from, sv_floor. cbn [set_received receivedForwardSecurePacket forwardSecureAEAD level_rank]. rewrite Er, Ef.
        rewrite bool_decide_true by by eexists. cbn [andb]. unfold secure_floor. destruct (receivedSecurePacket k && bool_decide (is_Some (secureAEAD k))); lia.
    + destruct (receivedForwardSecurePacket k) eqn:Er.
      * intros [= <- <-]. cbn. lia.
      * intros [= <- <-]. by apply Hbelow.
  - intros [= <- <-]. apply Hbelow. by rewrite andb_false_r.
Qed.

(** C13: whatever packets come and whenever keys are set, the levels of the packets a client takes never fall, and neither do
    those of the packets a server takes: once a packet with a better key was opened, none is opened with a worse one. *)
Theorem levels_never_fall k sentSHLO evs :
  Sorted le (level_rank <$> cl_taken k evs) ∧ Sorted le (level_rank <$> sv_taken sentSHLO k evs).
Proof.
  assert (∀ k a, secure_floor k ≤ secure_floor (set_secure k a)) as Hs.
  { intros k0 a. unfold secure_floor. cbn. destruct (receivedSecurePacket k0), (bool_decide _); cbn; lia. }
  split.
  - apply (taken_sorted _ cl_floor).
    + intros k0 src n ad k' r [= E]. by apply (cl_Open_floor k0 src n ad).
    + intros k0 a. unfold cl_floor. cbn. case_bool_decide; [done|apply Hs].
    + intros k0 a. unfold cl_floor at 2, secure_floor. cbn. unfold cl_floor, secure_floor. repeat destruct (bool_decide _), (receivedSecurePacket k0); cbn; lia.
  - apply (taken_sorted _ sv_floor).
    + intros k0 src n ad k' r E. by apply (sv_Open_floor k0 sentSHLO src n ad).
    + intros k0 a. unfold sv_floor. cbn. destruct (_ && _); [done|apply Hs].
    + intros k0 a. unfold sv_floor, secure_floor. cbn. repeat destruct (bool_decide _), (receivedSecurePacket k0), (receivedForwardSecurePacket k0); cbn; lia.
Qed.

(** ** Versions *)

Definition known_version (v : Z) : Z := if IsSupportedVersion SupportedVersions v then v else VersionUnsupported.

Lemma versions_matched negotiated versions :
  Forall (λ v, (0 ≤ v < 1000)%Z) versions → length negotiated = length versions →
  versions_match negotiated (version_list versions) = bool_decide (negotiated = known_version <$> versions).
Proof.
  intros Hv. revert negotiated. induction Hv as [|v versions Hv _ IH]; intros [|n negotiated] Hl; try discriminate Hl; [by vm_compute|].
  injection Hl as Hl. cbn [versions_match fmap list_fmap].
  change (version_list (v :: versions)) with (le_bytes 4 (VersionNumberToTag v) ++ version_list versions).
  rewrite take_app_length', drop_app_length' by by rewrite length_le_bytes.
  rewrite le_val_bytes by (pose proof (VersionNumberToTag_range v); simpl; lia). rewrite version_tag_roundtrip by exact Hv.
  fold (known_version v). rewrite IH by exact Hl. case_decide as E; symmetry.
  - apply bool_decide_false. intros [= H _]. by apply E.
  - rewrite E. apply bool_decide_ext. split; [by intros [= H]|by intros ->].
Qed.

Lemma validate_versions negotiated versions :
  Forall (λ v, (0 ≤ v < 1000)%Z) versions →
  validateVersionList negotiated (version_list versions) = bool_decide (negotiated = [] ∨ negotiated = known_version <$> versions).
Proof.
  intros Hv. unfold validateVersionList. case_decide as Hn; [symmetry; apply bool_decide_true; by left|].
  rewrite zlen_version_list, Z.mul_comm, Z.mod_mul, Z.div_mul by lia. case_decide as Hl.
  - symmetry. apply bool_decide_false. intros [H|H]; [done|]. destruct Hl as [Hl|Hl]; [done|]. apply Hl. rewrite H. unfold zlen. by rewrite length_fmap.
  - rewrite versions_matched by (exact Hv || unfold zlen in Hl; lia). apply bool_decide_ext. tauto.
Qed.

(** The first step of a server hello: its nonce. *)
Definition with_sno {M : Type} (h : cryptoSetupClient M) (reply : gmap Z (list byte)) : cryptoSetupClient M :=
  match reply !! TagSNO with Some sno => cl_set_server h (cl_serverConfig h) (cl_stk h) (Some sno) (cl_nonc h) | None => h end.
Lemma shlo_sno {M B} (h : cryptoSetupClient M) (reply : gmap Z (list byte)) (k : () → SM (cryptoSetupClient M) B) :
  sm_bind (match reply !! TagSNO with
           | Some sno => sm_modify (λ h, cl_set_server h (cl_serverConfig h) (cl_stk h) (Some sno) (cl_nonc h))
           | None => sm_ret ()
           end) k h = k () (with_sno h reply).
Proof. unfold with_sno. by destruct (reply !! TagSNO). Qed.

Lemma mismatch_refused P {M : Type} `{!CertManager M} (h : cryptoSetupClient M) (reply : gmap Z (list byte)) tags :
  reply !! TagVER = Some tags → is_Some (reply !! TagPUBS) → receivedSecurePacket (cl_aeads h) = true →
  validateVersionList (cc_negotiatedVersions (cl_config h)) tags = false →
  ∃ h', handleSHLOMessage P reply h = Some (h', Err (HeQuic VersionNegotiationMismatch)) ∧ cl_aeads h' = cl_aeads h.
Proof.
  intros L3 [pubs L2] Hrec Hval. unfold handleSHLOMessage. run_setup. rewrite Hrec. cbn [negb].
  rewrite shlo_sno, L2, L3, Hval. cbn [negb]. exists (with_sno h reply). split; [reflexivity|]. unfold with_sno. by destruct (reply !! TagSNO).
Qed.

(** C15: a client that negotiated a version knows when it was made to: if the versions that the version
    negotiation packet listed are not those of the server's hello, which comes encrypted and in which a
    version the client does not know counts as [VersionUnsupported], then it refuses the hello and stays
    with the keys it has; and if they are, so with the same versions, all known to the client, it goes
    on.  For a version it does not know see [honest_server_refused]. *)
Theorem downgrade_detected P {M : Type} `{!CertManager M} (h : cryptoSetupClient M) (reply : gmap Z (list byte)) versions :
  Forall (λ v, (0 ≤ v < 1000)%Z) versions → reply !! TagVER = Some (version_list versions) → is_Some (reply !! TagPUBS) →
  receivedSecurePacket (cl_aeads h) = true → cc_negotiatedVersions (cl_config h) ≠ [] →
  if decide (cc_negotiatedVersions (cl_config h) = known_version <$> versions)
  then ∀ h', handleSHLOMessage P reply h ≠ Some (h', Err (HeQuic VersionNegotiationMismatch))
  else ∃ h', handleSHLOMessage P reply h = Some (h', Err (HeQuic VersionNegotiationMismatch)) ∧ cl_aeads h' = cl_aeads h.
Proof.
  intros Hv L3 Hpubs Hrec Hn. case_decide as Hd.
  - destruct Hpubs as [pubs L2]. unfold handleSHLOMessage. run_setup. rewrite Hrec. cbn [negb].
    rewrite shlo_sno, L2, L3, validate_versions by exact Hv. set (h1 := with_sno h reply). rewrite bool_decide_true by by right. cbn [negb]. intros h'. run_setup. unfold sm_bind, sm_some.
    destruct (cl_serverConfig h1) as [sc|]; [|discriminate]. cbn [fmap option_fmap option_map]. unfold sm_lift.
    destruct (CalculateSharedKey _ _ _) as [shared|]; [|discriminate]. cbn [of_crypto]. destruct (DeriveQuicCryptoAESKeys _ _ _ _ _ _ _ _ _ _) as [fwd|]; [|discriminate].
    cbn [of_crypto]. unfold cl_on_aeads, sm_bind, sm_get, sm_some, sm_modify, sm_throw. cbn.
    destruct (SetFromMap _ _) as [params [err|]]; cbn; [intros [= _ E]; vm_compute in E; discriminate E|].
    unfold send_level, close_levels. cbn. destruct (changed_closed (cl_aeads h1)); cbn; discriminate.
  - apply (mismatch_refused P h reply (version_list versions)); [done..|]. rewrite validate_versions by exact Hv. apply bool_decide_false. tauto.
Qed.

(** C40: a client refuses a server that tells the truth: if the version negotiation packet, whose versions the client keeps as they
    are, listed one that the client does not know, then the same list in the server's hello is taken for a downgrade attack. *)
Theorem honest_server_refused P {M : Type} `{!CertManager M} (h : cryptoSetupClient M) (reply : gmap Z (list byte)) v :
  let versions := cc_negotiatedVersions (cl_config h) in
  Forall (λ v, (0 ≤ v < 1000)%Z) versions → v ∈ versions → v ∉ SupportedVersions → receivedSecurePacket (cl_aeads h) = true →
  reply !! TagVER = Some (version_list versions) → is_Some (reply !! TagPUBS) →
  ∃ h', handleSHLOMessage P reply h = Some (h', Err (HeQuic VersionNegotiationMismatch)) ∧ cl_aeads h' = cl_aeads h.
Proof.
  intros versions Hv Hin Hun Hrec L3 L2. apply (mismatch_refused P h reply (version_list versions)); [done..|]. fold versions.
  rewrite validate_versions by exact Hv. apply bool_decide_false. intros [E|E]; [rewrite E in Hin; by apply elem_of_nil in Hin|].
  apply list_elem_of_lookup in Hin as [i Hi]. pose proof Hi as Hi'. rewrite E, list_lookup_fmap, Hi in Hi'. injection Hi' as Hk.
  unfold known_version in Hk. destruct (IsSupportedVersion SupportedVersions v) eqn:Es; [by apply IsSupportedVersion_elem in Es|].
  rewrite Forall_lookup in Hv. specialize (Hv i v Hi). unfold VersionUnsupported in Hk. lia.
Qed.

(** ** A second server hello *)

Lemma SetFromMap_none q m : (∀ t, t ∈ parameter_tags → m !! t = None) → ∃ q', SetFromMap q m = (q', None).
Proof.
  intros H. exists q. rewrite (SetFromMap_ext m ∅) by (intros t Ht; rewrite lookup_empty; by apply H). unfold SetFromMap. by destruct (bool_decide _).
Qed.

(** a client that has finished the handshake does not survive another server hello without flow-control
    windows: it sends the level on a channel that it has closed, which panics. *)
Theorem second_server_hello_panics P {M : Type} `{!CertManager M} e (h : cryptoSetupClient M) (reply : gmap Z (list byte)) pubs versions :
  changed_closed (cl_aeads h) = true → receivedSecurePacket (cl_aeads h) = true → is_Some (cl_serverConfig h) →
  reply !! TagPUBS = Some pubs → length pubs = 32 → reply !! TagVER = Some versions →
  validateVersionList (cc_negotiatedVersions (cl_config h)) versions = true → (∀ t, t ∈ parameter_tags → reply !! t = None) →
  cl_event P e (CeMessage {| MTag := TagSHLO; MData := reply |}) h = None.
Proof.
  intros Hcl Hrec [sc Hsc] L1 Hpubs L2 Hver Hno. destruct (SetFromMap_none (cl_parameters h) reply Hno) as [q' Hq].
  assert (handleSHLOMessage P reply h = None) as Hs.
  { unfold handleSHLOMessage. run_setup. rewrite Hrec. cbn [negb].
    rewrite shlo_sno, L1, L2, Hver. cbn [negb]. run_setup. set (h1 := with_sno h reply).
    assert (cl_serverConfig h1 = Some sc) as -> by (unfold h1, with_sno; by destruct (reply !! TagSNO)).
    assert (cl_parameters h1 = cl_parameters h) as Ep by (unfold h1, with_sno; by destruct (reply !! TagSNO)).
    assert (cl_aeads h1 = cl_aeads h) as Ea by (unfold h1, with_sno; by destruct (reply !! TagSNO)).
    run_setup. unfold CalculateSharedKey, zlen. rewrite Hpubs, decide_False by (intros H; by apply H). run_setup.
    unfold sm_bind at 1, sm_lift. destruct (DeriveQuicCryptoAESKeys _ _ _ _ _ _ _ _ _ _) as [fwd|err] eqn:Ed.
    - cbn [of_crypto]. erewrite cl_bind_aeads by reflexivity. rewrite Ep, Hq. run_setup.
      unfold cl_on_aeads, sm_bind, sm_get, sm_some, sm_modify, send_level. cbn. by rewrite Ea, Hcl.
    - exfalso. unfold DeriveQuicCryptoAESKeys in Ed. destruct (deriveKeys_sides P true (ScalarMult P (kex_secret (sc_kex sc)) pubs)
        (cl_nonc h1 ++ default [] (cl_sno h1)) (cc_connID (cl_config h1)) (cl_lastSentCHLO h1) (sc_raw sc) (default [] (GetLeafCert (cl_certManager h1))) [])
        as (k1 & k2 & iv1 & iv2 & _ & Ec & K1 & K2 & K3 & K4). rewrite bool_decide_true, Ec in Ed by reflexivity.
      unfold NewAEADAESGCM12, zlen in Ed. rewrite K1, K2, K3, K4, decide_False in Ed by lia. discriminate Ed. }
  assert (cl_take P e (CeMessage {| MTag := TagSHLO; MData := reply |}) h = None) as Ht.
  { unfold cl_take. run_setup. cbn [MTag MData]. rewrite decide_False by (intros H; vm_compute in H; discriminate H).
    rewrite decide_True by reflexivity. unfold sm_bind at 1. by rewrite Hs. }
  unfold cl_event, sm_bind at 1. by rewrite Ht.
Qed.

(** ** Witnesses *)

Section examples.
#[local] Existing Instance simple_laws.
#[local] Existing Instance simple_certs.

(** Two paths that are about to send packets with the same number. *)
Definition simple_sealer : result CryptoError AEAD :=
  DeriveQuicCryptoAESKeys simple_primitives true [x01] [x02] 77 [x03] [x04] [x05] [] PerspectiveServer.
Definition other_path : path fixedWindow :=
  set_generator (setup 5 {| LocalAddr := {| addr_IP := []; addr_Port := 3 |}; RemoteAddr := {| addr_IP := []; addr_Port := 4 |} |}
    VersionMP {| window_bytes := 40000 |} 0) (generator sample_path).
Definition sent_on (pth : path fixedWindow) : option (path fixedWindow * list byte) :=
  match simple_sealer with
  | Ok sealer =>
      let p := pk_packer (sample_packing []) in
      match writeAndSealPacket sample_env p (getPublicHeader sample_env p EncryptionForwardSecure pth) [FPing] sealer pth with
      | Some (pth, Ok raw) => Some (pth, raw)
      | _ => None
      end
  | Err _ => None
  end.
Lemma simple_sent : match sent_on sample_path, sent_on other_path with Some _, Some _ => True | _, _ => False end.
Proof. vm_compute. exact I. Qed.

Lemma nonces_of_packets_witness : ∃ key nonce header1 payload1 header2 payload2,
  snd <$> sent_on sample_path = Some (header1 ++ gcm12_Seal simple_primitives key nonce payload1 header1) ∧
  snd <$> sent_on other_path = Some (header2 ++ gcm12_Seal simple_primitives key nonce payload2 header2).
Proof.
  pose proof simple_sent as H. unfold sent_on in *. destruct simple_sealer as [sealer|err] eqn:Es; [|destruct H].
  set (p := pk_packer (sample_packing [])) in *.
  destruct (writeAndSealPacket sample_env p (getPublicHeader sample_env p EncryptionForwardSecure sample_path) [FPing] sealer sample_path)
    as [[pth1 [raw1|e1]]|] eqn:E1; [|destruct H..].
  destruct (writeAndSealPacket sample_env p (getPublicHeader sample_env p EncryptionForwardSecure other_path) [FPing] sealer other_path)
    as [[pth2 [raw2|e2]]|] eqn:E2; [|destruct H..].
  destruct (nonces_of_packets (C := fixedWindow) simple_primitives true [x01] [x02] 77 [x03] [x04] [x05] [] PerspectiveServer sealer Es) as [key Hk].
  assert (0 ≤ next (generator sample_path) < 2 ^ 64)%Z as Hn by (split; vm_compute; congruence).
  destruct (Hk _ _ _ _ _ _ _ _ sample_path other_path _ _ _ _ Hn Hn E1 E2) as (nonce & h1 & p1 & nonce2 & h2 & p2 & -> & -> & Hiff).
  assert (nonce = nonce2) as <- by (apply Hiff; reflexivity). exists key, nonce, h1, p1, h2, p2. split; reflexivity.
Defined.

(** A client that has finished the handshake. *)
Definition simple_finished : option (cryptoSetupClient (option (list byte)) * cryptoSetupServer) :=
  match server_of simple_primitives (λ _, (0, 0)%Z) simple_parties with
  | Ok s => handshake_run simple_primitives simple_inputs 9 [x0c] (client_of (λ _, (0, 0)%Z) simple_parties) s
  | Err _ => None
  end.
Lemma simple_finished_ok :
  match simple_finished with
  | Some (h, _) => changed_closed (cl_aeads h) = true ∧ receivedSecurePacket (cl_aeads h) = true ∧
      match cl_serverConfig h with Some _ => True | None => False end ∧ cc_negotiatedVersions (cl_config h) = []
  | None => False
  end.
Proof. vm_compute. repeat split. Qed.
Definition short_hello : gmap Z (list byte) := <[TagPUBS := replicate 32 x09]> (<[TagVER := version_list SupportedVersions]> ∅).

Lemma second_server_hello_panics_witness :
  match simple_finished with
  | Some (h, _) => cl_event simple_primitives (client_at simple_inputs 8 []) (CeMessage {| MTag := TagSHLO; MData := short_hello |}) h = None
  | None => False
  end.
Proof.
  pose proof simple_finished_ok as H. destruct simple_finished as [[h s]|]; [|destruct H]. destruct H as (H1 & H2 & H3 & H4).
  apply (second_server_hello_panics simple_primitives _ h short_hello (replicate 32 x09) (version_list SupportedVersions) H1 H2).
  - destruct (cl_serverConfig h); [by eexists|destruct H3].
  - reflexivity.
  - reflexivity.
  - reflexivity.
  - rewrite H4. reflexivity.
  - intros t Ht. revert t Ht. rewrite <-Forall_forall. repeat constructor.
Defined.

(** A client that was told of version 37 only, by someone on the way. *)
Definition downgraded (negotiated : list Z) : cryptoSetupClient (option (list byte)) :=
  let h := NewCryptoSetupClient (λ _, (0, 0)%Z)
    {| cc_hostname := []; cc_connID := 77; cc_version := 37; cc_negotiatedVersions := negotiated;
       cc_params := {| RequestConnectionIDTruncation := false; CacheHandshake := false |} |} None (pa_client simple_parties) in
  cl_set_aeads h (set_received (set_secure (cl_aeads h) (nullAEAD (cl_aeads h))) true false).
Lemma downgrade_detected_witness :
  (∃ h', handleSHLOMessage simple_primitives short_hello (downgraded [Version37]) = Some (h', Err (HeQuic VersionNegotiationMismatch)) ∧
     cl_aeads h' = cl_aeads (downgraded [Version37])) ∧
  ∀ h', handleSHLOMessage simple_primitives short_hello (downgraded SupportedVersions) ≠ Some (h', Err (HeQuic VersionNegotiationMismatch)).
Proof.
  assert (Forall (λ v, (0 ≤ v < 1000)%Z) SupportedVersions) as Hv by (repeat constructor; by vm_compute).
  split.
  - assert (cc_negotiatedVersions (cl_config (downgraded [Version37])) ≠ []) as Hn by discriminate.
    pose proof (downgrade_detected simple_primitives (downgraded [Version37]) short_hello SupportedVersions Hv eq_refl
      (ltac:(by eexists)) eq_refl Hn) as H.
    rewrite decide_False in H by discriminate. exact H.
  - assert (cc_negotiatedVersions (cl_config (downgraded SupportedVersions)) ≠ []) as Hn by discriminate.
    pose proof (downgrade_detected simple_primitives (downgraded SupportedVersions) short_hello SupportedVersions Hv eq_refl
      (ltac:(by eexists)) eq_refl Hn) as H.
    rewrite decide_True in H by reflexivity. exact H.
Defined.

(** A server that also speaks version 36. *)
Lemma honest_server_refused_witness :
  let h := downgraded [36; Version38]%Z in
  ∃ h', handleSHLOMessage simple_primitives (<[TagPUBS := replicate 32 x09]> (<[TagVER := version_list [36; Version38]%Z]> ∅)) h =
      Some (h', Err (HeQuic VersionNegotiationMismatch)) ∧
    cl_aeads h' = cl_aeads h.
Proof.
  apply (honest_server_refused simple_primitives (downgraded [36; Version38]%Z) _ 36%Z).
  - repeat constructor; by vm_compute.
  - by left.
  - apply (bool_decide_unpack _). vm_compute. exact I.
  - reflexivity.
  - reflexivity.
  - by eexists.
Defined.
End examples.
