(* ===== verification/Listener.v ===== *)
(** The listener of a server (src/mp-quic: server.go, the configs of interface.go).

    A listener hands the packets of its sockets to sessions by their connection ID, starts
    sessions, answers versions it does not speak, and drops what comes late.  What it needs of a
    session is the class [packetHandler]; the session of SessionState.v is one.  The goroutines of
    the listener are the steps of [server_step]. *)

From Stdlib Require Import ZArith Lia.
From Stdlib Require Import Strings.Byte Strings.String.
From stdpp Require Import prelude numbers list gmap sorting.
From S2P Require Import Prelude ByteOrder Protocol Wire StreamSorter ReceivedPackets FlowControl AckCodec PublicHeader PacketUnpacker.
From S2P Require Import Handshake RTTStats SentPackets Stream StreamsMap StreamFramer PacketNumberGenerator Path PacketPacker.
From S2P Require Import NullAEAD SessionState PathManager Scheduler Session KeyDerivation ServerConfig CryptoSetup.

Open Scope Z_scope.

(** * Configs *)

Definition DefaultMaxReceiveStreamFlowControlWindowServer : Z := 1 * Z.shiftl 1 20.
Definition DefaultMaxReceiveConnectionFlowControlWindowServer : Z := 3 * Z.shiftl 1 20 / 2.
Definition DefaultMaxReceiveStreamFlowControlWindowClient : Z := 16 * Z.shiftl 1 20.
Definition DefaultMaxReceiveConnectionFlowControlWindowClient : Z := 24 * Z.shiftl 1 20.
Definition DefaultIdleTimeout : Z := 30 * Second.
Definition DefaultHandshakeTimeout : Z := 10 * Second.

(** [AcceptCookie] gets the time, which its default reads. *)
Record Config : Type := {
  Versions : list Z; cfg_RequestConnectionIDTruncation : bool; HandshakeTimeout : Z; IdleTimeout : Z;
  AcceptCookie : option (Z → UDPAddr → option Cookie → bool);
  MaxReceiveStreamFlowControlWindow : Z; MaxReceiveConnectionFlowControlWindow : Z;
  KeepAlive : bool; cfg_CacheHandshake : bool; CreatePaths : bool
}.
Definition empty_config : Config := {|
  Versions := []; cfg_RequestConnectionIDTruncation := false; HandshakeTimeout := 0; IdleTimeout := 0; AcceptCookie := None;
  MaxReceiveStreamFlowControlWindow := 0; MaxReceiveConnectionFlowControlWindow := 0; KeepAlive := false; cfg_CacheHandshake := false;
  CreatePaths := false
|}.
Definition set_CreatePaths (c : Config) (b : bool) : Config := {|
  Versions := Versions c; cfg_RequestConnectionIDTruncation := cfg_RequestConnectionIDTruncation c; HandshakeTimeout := HandshakeTimeout c;
  IdleTimeout := IdleTimeout c; AcceptCookie := AcceptCookie c; MaxReceiveStreamFlowControlWindow := MaxReceiveStreamFlowControlWindow c;
  MaxReceiveConnectionFlowControlWindow := MaxReceiveConnectionFlowControlWindow c; KeepAlive := KeepAlive c;
  cfg_CacheHandshake := cfg_CacheHandshake c; CreatePaths := b
|}.

Definition default_versions (c : Config) : list Z := if decide (Versions c = []) then SupportedVersions else Versions c.
Definition or_default (v d : Z) : Z := if decide (v ≠ 0) then v else d.

Definition populateServerConfig (config : option Config) : Config :=
  let c := default (set_CreatePaths empty_config true) config in {|
    Versions := default_versions c; cfg_RequestConnectionIDTruncation := false;
    HandshakeTimeout := or_default (HandshakeTimeout c) DefaultHandshakeTimeout;
    IdleTimeout := or_default (IdleTimeout c) DefaultIdleTimeout;
    AcceptCookie := Some (default defaultAcceptCookie (AcceptCookie c));
    MaxReceiveStreamFlowControlWindow :=
      or_default (MaxReceiveStreamFlowControlWindow c) DefaultMaxReceiveStreamFlowControlWindowServer;
    MaxReceiveConnectionFlowControlWindow :=
      or_default (MaxReceiveConnectionFlowControlWindow c) DefaultMaxReceiveConnectionFlowControlWindowServer;
    KeepAlive := KeepAlive c; cfg_CacheHandshake := false; CreatePaths := CreatePaths c
  |}.
Definition populateClientConfig (config : option Config) : Config :=
  let c := default empty_config config in {|
    Versions := default_versions c; cfg_RequestConnectionIDTruncation := cfg_RequestConnectionIDTruncation c;
    HandshakeTimeout := or_default (HandshakeTimeout c) DefaultHandshakeTimeout;
    IdleTimeout := or_default (IdleTimeout c) DefaultIdleTimeout; AcceptCookie := None;
    MaxReceiveStreamFlowControlWindow :=
      or_default (MaxReceiveStreamFlowControlWindow c) DefaultMaxReceiveStreamFlowControlWindowClient;
    MaxReceiveConnectionFlowControlWindow :=
      or_default (MaxReceiveConnectionFlowControlWindow c) DefaultMaxReceiveConnectionFlowControlWindowClient;
    KeepAlive := KeepAlive c; cfg_CacheHandshake := cfg_CacheHandshake c; CreatePaths := CreatePaths c
  |}.

(** * Sessions, as a listener and a dialer see them *)

(** [ph_Close] asks the session to stop; that it then waits for the end of its loop is left to the
    interleaving.  [ph_RemoteAddr] is [None] where it dereferences a nil pointer. *)
Class packetHandler (S : Type) : Type := {
  ph_handlePacket : receivedPacket → S → S;
  ph_GetVersion : S → Z;
  ph_Close : SessionError → S → S;
  ph_closeRemote : SessionError → S → S;
  ph_RemoteAddr : S → option UDPAddr
}.

(** A call that cannot fail. *)
Definition after {C A} (m : M C A) (s : session C) : session C := match m s with Done s' _ => s' | _ => s end.
#[export] Instance session_packetHandler {C : Type} : packetHandler (session C) := {|
  ph_handlePacket p s := after (handlePacket p) s;
  ph_GetVersion s := pa_version (pk_packer (ss_packing s));
  ph_Close e s := after (closeLocal e) s;
  ph_closeRemote e s := after (closeRemote e) s;
  ph_RemoteAddr s := (λ p, RemoteAddr (conn p)) <$> ss_paths s !! InitialPathID
|}.

(** * Packets of the sockets *)

Record receivedRawPacket : Type := { raw_rcvPconn : UDPAddr; raw_remoteAddr : UDPAddr; raw_data : list byte; raw_rcvTime : Z }.

Inductive EndpointError : Type :=
| errInvalidHeader (e : WireError)
| errSmallPacket
| errServerBug
| errWriteTo
| errSetup (e : HandshakeError)
| errConnectionID.

(** What is handed to a session. *)
Definition packet_of (raw : receivedRawPacket) (hdr : PublicHeader) (rest : list byte) : receivedPacket := {|
  remoteAddr := raw_remoteAddr raw; publicHeader := hdr;
  rawHeader := take (length (raw_data raw) - length rest) (raw_data raw); rp_data := rest;
  rcvTime := raw_rcvTime raw; rcvPconn := raw_rcvPconn raw
|}.

(** * The listener *)

Section server.
Context {S : Type} `{!packetHandler S}.
(** Makes a session for a socket, a remote address, a version and a connection ID. *)
Context (newSession : UDPAddr → UDPAddr → Z → Z → result HandshakeError S).

(** [srv_sessions] has [Some None] for a session that is closed and not yet deleted; [srv_deletions]
    are the timers of [removeConnection] that run; [srv_waiting] are the sessions whose goroutine waits
    for them to be forward-secure, and [srv_queue] is [sessionQueue]. *)
Record server : Type := {
  srv_config : Config;
  srv_sessions : gmap Z (option S);
  srv_deletions : list Z;
  srv_waiting : list Z;
  srv_queue : list Z;
  srv_sent : list (UDPAddr * UDPAddr * list byte);
  srv_error : option EndpointError
}.
Implicit Types s : server.

Definition new_server (config : option Config) : server := {|
  srv_config := populateServerConfig config; srv_sessions := ∅; srv_deletions := []; srv_waiting := []; srv_queue := []; srv_sent := [];
  srv_error := None
|}.
Definition set_sessions s (m : gmap Z (option S)) (deletions : list Z) : server := {|
  srv_config := srv_config s; srv_sessions := m; srv_deletions := deletions; srv_waiting := srv_waiting s; srv_queue := srv_queue s;
  srv_sent := srv_sent s; srv_error := srv_error s
|}.
Definition set_queue s (waiting queue : list Z) (err : option EndpointError) : server := {|
  srv_config := srv_config s; srv_sessions := srv_sessions s; srv_deletions := srv_deletions s; srv_waiting := waiting; srv_queue := queue;
  srv_sent := srv_sent s; srv_error := err
|}.
(** [pconn.WriteTo], which may fail. *)
Definition server_write (fails : bool) s (raw : receivedRawPacket) (bs : list byte) : server * option EndpointError :=
  if fails then (s, Some errWriteTo)
  else ({| srv_config := srv_config s; srv_sessions := srv_sessions s; srv_deletions := srv_deletions s;
           srv_waiting := srv_waiting s; srv_queue := srv_queue s; srv_sent := srv_sent s ++ [(raw_rcvPconn raw, raw_remoteAddr raw, bs)]; srv_error := srv_error s |}, None).

Definition put_session s (id : Z) (x : option S) : server := set_sessions s (<[id := x]> (srv_sessions s)) (srv_deletions s).

(** A session that just started. *)
Definition start_session s (id : Z) (x : S) : server :=
  set_queue (put_session s id (Some x)) (srv_waiting s ++ [id]) (srv_queue s) (srv_error s).

Definition server_handlePacket (fails : bool) (raw : receivedRawPacket) s : option (server * option EndpointError) :=
  let packet := raw_data raw in
  match PeekConnectionID packet PerspectiveClient with
  | Err e => Some (s, Some (errInvalidHeader e))
  | Ok connID =>
      match srv_sessions s !! connID with
      | Some None => Some (s, None)
      | found =>
          let session := mjoin found in
          let version := match session with Some x => ph_GetVersion x | None => VersionUnknown end in
          match ParsePublicHeader PerspectiveClient version packet with
          | Err ErrPacketWithUnknownVersion => reset ← WritePublicReset connID 0 0; Some (server_write fails s raw reset)
          | Err e => Some (s, Some (errInvalidHeader e))
          | Ok (hdr, rest) =>
              let pkt := packet_of raw hdr rest in
              let unsupported := VersionFlag hdr && negb (IsSupportedVersion (Versions (srv_config s)) (VersionNumber hdr)) in
              if ResetFlag hdr then Some (s, None)
              else
                match session with
                | Some x => if unsupported then Some (s, None) else Some (put_session s connID (Some (ph_handlePacket pkt x)), None)
                | None =>
                    if unsupported then
                      if decide (zlen packet < ClientHelloMinimumSize + zlen (rawHeader pkt)) then Some (s, Some errSmallPacket)
                      else
                        negotiation ← ComposeVersionNegotiation (ConnectionID hdr) (Versions (srv_config s));
                        Some (server_write fails s raw negotiation)
                    else if negb (IsSupportedVersion (Versions (srv_config s)) (VersionNumber hdr)) then Some (s, Some errServerBug)
                    else
                      match newSession (raw_rcvPconn raw) (raw_remoteAddr raw) (VersionNumber hdr) (ConnectionID hdr) with
                      | Err e => Some (s, Some (errSetup e))
                      | Ok x => Some (start_session s connID (ph_handlePacket pkt x), None)
                      end
                end
          end
      end
  end.

Definition removeConnection (id : Z) s : server := set_sessions s (<[id := None]> (srv_sessions s)) (srv_deletions s ++ [id]).
(** The timer of [removeConnection] for one of the IDs fires. *)
Definition delete_closed (id : Z) (deletions : list Z) s : server := set_sessions s (delete id (srv_sessions s)) deletions.

(** [Close] closes every session that is there. *)
Definition server_Close s : server := set_sessions s (option_map (ph_Close PeerGoingAway) <$> srv_sessions s) (srv_deletions s).

(** [Accept]: a session that is secure, or the error of the listener. *)
Definition Accept s : option (server * result EndpointError Z) :=
  match srv_queue s, srv_error s with
  | id :: queue, _ => Some (set_queue s (srv_waiting s) queue (srv_error s), Ok id)
  | [], Some e => Some (s, Err e)
  | [], None => None
  end.

(** What happens to a listener: a packet, the failure of a socket, the end of a session's loop, a timer,
    a session that becomes forward-secure or fails to, [Accept], [Close], and whatever a session does by itself. *)
Inductive server_step : relation server :=
| step_server_packet fails raw s s' r : server_handlePacket fails raw s = Some (s', r) → server_step s s'
| step_server_error e s : server_step s (server_Close (set_queue s (srv_waiting s) (srv_queue s) (Some e)))
| step_session_ended id x s : srv_sessions s !! id = Some (Some x) → server_step s (removeConnection id s)
| step_timer id before behind s : srv_deletions s = before ++ id :: behind → server_step s (delete_closed id (before ++ behind) s)
| step_secure id before behind s : srv_waiting s = before ++ id :: behind → zlen (srv_queue s) < 5 →
    server_step s (set_queue s (before ++ behind) (srv_queue s ++ [id]) (srv_error s))
| step_handshake_failed id before behind s : srv_waiting s = before ++ id :: behind →
    server_step s (set_queue s (before ++ behind) (srv_queue s) (srv_error s))
| step_accept s s' r : Accept s = Some (s', r) → server_step s s'
| step_server_close s : server_step s (server_Close s)
| step_session id x x' s : srv_sessions s !! id = Some (Some x) → server_step s (put_session s id (Some x')).
Definition server_run : relation server := rtc server_step.
End server.
#[global] Arguments server : clear implicits.

Close Scope Z_scope.

(** * What a listener does with a datagram *)

Lemma reset_bytes id : ∃ bs, WritePublicReset id 0 0 = Some bs ∧ length bs = 49.
Proof. by eexists. Qed.
Lemma negotiation_bytes id versions : ∃ bs, ComposeVersionNegotiation id versions = Some bs ∧ zlen bs = (9 + 4 * zlen versions)%Z.
Proof.
  unfold ComposeVersionNegotiation, write_PublicHeader.
  cbn [VersionFlag ResetFlag DiversificationNonce TruncateConnectionID ConnectionID MultipathFlag andb].
  eexists. split; [reflexivity|]. rewrite zlen_app, zlen_write_versions. reflexivity.
Qed.

Section dispatch.
Context {S : Type} `{!packetHandler S} (newSession : UDPAddr → UDPAddr → Z → Z → result HandshakeError S).
Implicit Types s : server S.

(** Where a packet went. *)
Record dispatched (raw : receivedRawPacket) s s' (r : option EndpointError) : Prop := {
  di_others id : PeekConnectionID (raw_data raw) PerspectiveClient ≠ Ok id → srv_sessions s' !! id = srv_sessions s !! id;
  di_session id : PeekConnectionID (raw_data raw) PerspectiveClient = Ok id →
    match srv_sessions s !! id with
    | Some None => s' = s ∧ r = None
    | Some (Some x) =>
        srv_sessions s' !! id = Some (Some x) ∨
        ∃ hdr rest, ParsePublicHeader PerspectiveClient (ph_GetVersion x) (raw_data raw) = Ok (hdr, rest) ∧ ConnectionID hdr = id ∧
          srv_sessions s' !! id = Some (Some (ph_handlePacket (packet_of raw hdr rest) x))
    | None =>
        srv_sessions s' !! id = None ∨
        ∃ hdr rest x, ParsePublicHeader PerspectiveClient VersionUnknown (raw_data raw) = Ok (hdr, rest) ∧ ConnectionID hdr = id ∧
          VersionNumber hdr ∈ Versions (srv_config s) ∧ newSession (raw_rcvPconn raw) (raw_remoteAddr raw) (VersionNumber hdr) id = Ok x ∧
          srv_sessions s' !! id = Some (Some (ph_handlePacket (packet_of raw hdr rest) x))
    end;
  di_reply : srv_sent s' = srv_sent s ∨
    ∃ bs, srv_sent s' = srv_sent s ++ [(raw_rcvPconn raw, raw_remoteAddr raw, bs)] ∧ srv_sessions s' = srv_sessions s ∧
      ((zlen bs ≤ zlen (raw_data raw))%Z ∨ ∃ id, PeekConnectionID (raw_data raw) PerspectiveClient = Ok id ∧ WritePublicReset id 0 0 = Some bs);
  di_bug : r ≠ Some errServerBug
}.

Lemma dispatched_same raw s r : r ≠ Some errServerBug →
  (∀ id, PeekConnectionID (raw_data raw) PerspectiveClient = Ok id → srv_sessions s !! id = Some None → r = None) → dispatched raw s s r.
Proof using Type.
  intros Hr Hc. split; [done| |by left|done]. intros id Hid. destruct (srv_sessions s !! id) as [[x|]|] eqn:E; [by left| |by left].
  split; [done|]. by apply (Hc id).
Qed.

Lemma server_write_dispatched fails raw s id bs :
  PeekConnectionID (raw_data raw) PerspectiveClient = Ok id → srv_sessions s !! id ≠ Some None →
  (zlen bs ≤ zlen (raw_data raw))%Z ∨ WritePublicReset id 0 0 = Some bs →
  let '(s', r) := server_write fails s raw bs in dispatched raw s s' r.
Proof using Type.
  intros Hid Hn Hb. unfold server_write. destruct fails.
  - apply dispatched_same; [done|]. intros id' Hid'. rewrite Hid in Hid'. injection Hid' as <-. done.
  - split; [done| | |done].
    + intros id' Hid'. rewrite Hid in Hid'. injection Hid' as <-. cbn. destruct (srv_sessions s !! id) as [[x|]|]; [by left|done|by left].
    + right. exists bs. split; [done|]. split; [done|]. destruct Hb as [Hb|Hb]; [by left|right]. by exists id.
Qed.

Lemma put_dispatched raw s s' id x :
  PeekConnectionID (raw_data raw) PerspectiveClient = Ok id → srv_sessions s' = <[id := Some x]> (srv_sessions s) → srv_sent s' = srv_sent s →
  match srv_sessions s !! id with
  | Some None => False
  | Some (Some y) => ∃ hdr rest, ParsePublicHeader PerspectiveClient (ph_GetVersion y) (raw_data raw) = Ok (hdr, rest) ∧ ConnectionID hdr = id ∧
                       x = ph_handlePacket (packet_of raw hdr rest) y
  | None => ∃ hdr rest y, ParsePublicHeader PerspectiveClient VersionUnknown (raw_data raw) = Ok (hdr, rest) ∧ ConnectionID hdr = id ∧
              VersionNumber hdr ∈ Versions (srv_config s) ∧ newSession (raw_rcvPconn raw) (raw_remoteAddr raw) (VersionNumber hdr) id = Ok y ∧
              x = ph_handlePacket (packet_of raw hdr rest) y
  end →
  dispatched raw s s' None.
Proof using Type.
  intros Hid Hs Hsent Hx. split; [| |by left|done].
  - intros id' Hid'. rewrite Hs. apply lookup_insert_ne. intros <-. by apply Hid'.
  - intros id' Hid'. rewrite Hid in Hid'. injection Hid' as <-. rewrite Hs, lookup_insert_eq.
    destruct (srv_sessions s !! id) as [[y|]|]; [|done|].
    + destruct Hx as (hdr & rest & H1 & H2 & ->). right. by exists hdr, rest.
    + destruct Hx as (hdr & rest & y & H1 & H2 & H3 & H4 & ->). right. by exists hdr, rest, y.
Qed.

Lemma parse_failed_dispatched fails raw s id e :
  PeekConnectionID (raw_data raw) PerspectiveClient = Ok id → srv_sessions s !! id ≠ Some None →
  ∃ s' r, match e with
          | ErrPacketWithUnknownVersion => reset ← WritePublicReset id 0 0; Some (server_write fails s raw reset)
          | e => Some (s, Some (errInvalidHeader e))
          end = Some (s', r) ∧ dispatched raw s s' r.
Proof using Type.
  intros Hid Hn. destruct (reset_bytes id) as (reset & Hreset & _).
  assert (∀ r, r ≠ Some errServerBug → dispatched raw s s r) as Hsame.
  { intros r Hr. apply dispatched_same; [done|]. intros id' Hid'. rewrite Hid in Hid'. by injection Hid' as <-. }
  destruct e; try (eexists _, _; split; [reflexivity|by apply Hsame]).
  rewrite Hreset. cbn [mbind option_bind].
  pose proof (server_write_dispatched fails raw s id reset Hid Hn (or_intror Hreset)) as Hw.
  destruct (server_write fails s raw reset) as [s' r]. by exists s', r.
Qed.

(** C14: every datagram is handled, without a panic, and touches at most the session with the ID in its header: a live one gets the packet or
    keeps its state, a closed one stays closed, and an unknown one is started only in a version the server supports.  At most one
    datagram is sent back, to the sender and for a packet that starts nothing, and unless it is a public reset it is no longer than
    the one received; the error that the code calls a bug of the server does not occur. *)
Theorem datagram_dispatched fails raw s :
  (zlen (Versions (srv_config s)) ≤ 250)%Z →
  ∃ s' r, server_handlePacket newSession fails raw s = Some (s', r) ∧ dispatched raw s s' r.
Proof using Type.
  intros Hv. unfold server_handlePacket. destruct (PeekConnectionID (raw_data raw) PerspectiveClient) as [id|e] eqn:Hid.
  2: { eexists _, _. split; [reflexivity|]. apply dispatched_same; [done|]. intros id. by rewrite Hid. }
  assert (srv_sessions s !! id = Some None ∨ srv_sessions s !! id ≠ Some None) as [Ec|Hc]
    by (destruct (srv_sessions s !! id) as [[x|]|]; [by right|by left|by right]).
  { rewrite Ec. eexists _, _. split; [reflexivity|]. by apply dispatched_same. }
  assert (∀ r, r ≠ Some errServerBug → dispatched raw s s r) as Hsame.
  { intros r Hr. apply dispatched_same; [done|]. intros id' Hid'. rewrite Hid in Hid'. by injection Hid' as <-. }
  assert (∀ hdr rest version, ParsePublicHeader PerspectiveClient version (raw_data raw) = Ok (hdr, rest) → ConnectionID hdr = id) as Hconn.
  { intros hdr rest version Hp. apply peek_agrees in Hp. rewrite Hid in Hp. by injection Hp. }
  destruct (srv_sessions s !! id) as [[x|]|] eqn:Ex; [|done|]; cbn [mjoin option_join].
  - destruct (ParsePublicHeader PerspectiveClient (ph_GetVersion x) (raw_data raw)) as [[hdr rest]|e] eqn:Ep.
    2: { by apply (parse_failed_dispatched fails raw s id e Hid); rewrite Ex. }
    destruct (ResetFlag hdr); [eexists _, _; split; [reflexivity|by apply Hsame]|].
    destruct (VersionFlag hdr && _); [eexists _, _; split; [reflexivity|by apply Hsame]|].
    eexists _, _. split; [reflexivity|]. apply (put_dispatched _ _ _ id (ph_handlePacket (packet_of raw hdr rest) x)); [done..|]. rewrite Ex. exists hdr, rest. split; [done|]. split; [|done]. by eapply Hconn.
  - destruct (ParsePublicHeader PerspectiveClient VersionUnknown (raw_data raw)) as [[hdr rest]|e] eqn:Ep.
    2: { by apply (parse_failed_dispatched fails raw s id e Hid); rewrite Ex. }
    pose proof (Hconn _ _ _ Ep) as Hh. pose proof (unknown_version_flags _ _ _ _ Ep) as Hf.
    destruct (ResetFlag hdr); [eexists _, _; split; [reflexivity|by apply Hsame]|].
    rewrite orb_false_r in Hf. rewrite Hf. cbn [andb].
    destruct (IsSupportedVersion (Versions (srv_config s)) (VersionNumber hdr)) eqn:Ev; cbn [negb].
    + rewrite Hh. destruct (newSession _ _ _ _) as [y|e] eqn:En; [|eexists _, _; split; [reflexivity|by apply Hsame]].
      eexists _, _. split; [reflexivity|]. apply (put_dispatched _ _ _ id (ph_handlePacket (packet_of raw hdr rest) y)); [done..|]. rewrite Ex. exists hdr, rest, y. repeat split; [done|done| |done].
      by apply IsSupportedVersion_elem.
    + destruct (decide _) as [Hs|Hs]; [eexists _, _; split; [reflexivity|by apply Hsame]|].
      destruct (negotiation_bytes (ConnectionID hdr) (Versions (srv_config s))) as (bs & -> & Hb). cbn [mbind option_bind].
      destruct (server_write fails s raw bs) as [s' r] eqn:Ew. eexists _, _. split; [reflexivity|].
      pose proof (server_write_dispatched fails raw s id bs Hid ltac:(by rewrite Ex)) as Hw. rewrite Ew in Hw. apply Hw. left. rewrite Hb.
      enough (0 ≤ zlen (rawHeader (packet_of raw hdr rest)))%Z by (unfold ClientHelloMinimumSize in Hs; lia). unfold zlen. lia.
Qed.
End dispatch.

(** * What is left of closed sessions *)

Section reachable.
Context {S : Type} `{!packetHandler S} (newSession : UDPAddr → UDPAddr → Z → Z → result HandshakeError S).
Implicit Types s : server S.

(** What a packet cannot change. *)
Record kept_by_packet s s' : Prop := {
  kp_config : srv_config s' = srv_config s;
  kp_deletions : srv_deletions s' = srv_deletions s;
  kp_queue : srv_queue s' = srv_queue s;
  kp_sessions : srv_sessions s' = srv_sessions s ∨
    ∃ id x, srv_sessions s !! id ≠ Some None ∧ srv_sessions s' = <[id := Some x]> (srv_sessions s)
}.
Lemma kept_refl s : kept_by_packet s s.
Proof using Type. split; auto. Qed.
Lemma write_kept fails s raw bs s' r : server_write fails s raw bs = (s', r) → kept_by_packet s s'.
Proof using Type. unfold server_write. destruct fails; intros [= <- <-]; split; auto. Qed.

Lemma packet_kept fails raw s s' r : server_handlePacket newSession fails raw s = Some (s', r) → kept_by_packet s s'.
Proof using Type.
  unfold server_handlePacket. destruct (PeekConnectionID _ _) as [id|e]; [|intros [= <- <-]; apply kept_refl].
  assert (∀ o, o = srv_sessions s !! id → o ≠ Some None → ∀ x s', srv_sessions s' = <[id := Some x]> (srv_sessions s) →
    srv_config s' = srv_config s → srv_deletions s' = srv_deletions s → srv_queue s' = srv_queue s → kept_by_packet s s') as Hput.
  { intros o -> Ho x s1 H1 H2 H3 H4. split; [done..|]. right. by exists id, x. }
  destruct (srv_sessions s !! id) as [[x|]|]; cbn [mjoin option_join]; [|intros [= <- <-]; apply kept_refl|].
  all: match goal with |- context [ParsePublicHeader ?p ?v ?d] => destruct (ParsePublicHeader p v d) as [[hdr rest]|[]] end;
    try (intros [= <- <-]; apply kept_refl);
    try (destruct (WritePublicReset _ _ _) as [bs|]; [|discriminate]; intros [= H]; by eapply write_kept).
  all: destruct (ResetFlag hdr); [intros [= <- <-]; apply kept_refl|].
  all: destruct (VersionFlag hdr && _); try (intros [= <- <-]; apply kept_refl).
  - intros [= <- <-]. by eapply Hput.
  - destruct (decide _); [intros [= <- <-]; apply kept_refl|]. destruct (ComposeVersionNegotiation _ _) as [bs|]; [|discriminate].
    intros [= H]. by eapply write_kept.
  - destruct (negb _); [intros [= <- <-]; apply kept_refl|]. destruct (newSession _ _ _ _) as [y|e]; [|intros [= <- <-]; apply kept_refl].
    intros [= <- <-]. by eapply Hput.
Qed.

(** The entries of closed sessions are those with a timer. *)
Record closed_ok s : Prop := {
  co_timer id : srv_sessions s !! id = Some None ↔ id ∈ srv_deletions s;
  co_once : NoDup (srv_deletions s);
  co_queue : (zlen (srv_queue s) ≤ 5)%Z
}.

Lemma closed_ok_live s s' id x :
  closed_ok s → srv_sessions s !! id ≠ Some None → srv_sessions s' = <[id := Some x]> (srv_sessions s) →
  srv_deletions s' = srv_deletions s → srv_queue s' = srv_queue s → closed_ok s'.
Proof using Type.
  intros [H1 H2 H3] Hid Hs Hd Hq. split; rewrite ?Hd, ?Hq; [|done|done]. intros id'. rewrite Hs. destruct (decide (id' = id)) as [->|Hn].
  - rewrite lookup_insert_eq, <-H1. split; [discriminate|done].
  - rewrite lookup_insert_ne by congruence. apply H1.
Qed.
Lemma closed_ok_queue s waiting queue err : closed_ok s → (zlen queue ≤ 5)%Z → closed_ok (set_queue s waiting queue err).
Proof using Type. intros [H1 H2 H3] Hq. by split. Qed.
Lemma closed_ok_Close s : closed_ok s → closed_ok (server_Close s).
Proof using Type.
  intros [H1 H2 H3]. split; [|done|done]. intros id. cbn. rewrite lookup_fmap, <-H1. destruct (srv_sessions s !! id) as [[x|]|]; done.
Qed.
Lemma closed_ok_removed s id x : closed_ok s → srv_sessions s !! id = Some (Some x) → closed_ok (removeConnection id s).
Proof using Type.
  intros [H1 H2 H3] Hid. assert (id ∉ srv_deletions s) as Hn by (rewrite <-H1, Hid; done). split; [|by apply NoDup_app; set_solver by apply NoDup_singleton|done].
  intros id'. cbn. rewrite elem_of_app, list_elem_of_singleton, <-H1. destruct (decide (id' = id)) as [->|Hne].
  - rewrite lookup_insert_eq. split; [by right|done].
  - rewrite lookup_insert_ne by congruence. split; [by left|by intros [|]].
Qed.
Lemma closed_ok_deleted s id before behind :
  closed_ok s → srv_deletions s = before ++ id :: behind → closed_ok (delete_closed id (before ++ behind) s).
Proof using Type.
  intros [H1 H2 H3] Hd. rewrite Hd in H2. apply NoDup_app in H2 as (Hb & Hbi & Hi). apply NoDup_cons in Hi as [Hi Hbe].
  split; [|by apply NoDup_app; set_solver|done]. intros id'. cbn. destruct (decide (id' = id)) as [->|Hne].
  - rewrite lookup_delete_eq. split; [done|]. intros [Ha|Ha]%elem_of_app; exfalso; set_solver.
  - rewrite lookup_delete_ne by congruence. rewrite H1, Hd. set_solver.
Qed.

Lemma step_closed_ok s s' : server_step newSession s s' → closed_ok s → closed_ok s'.
Proof using Type.
  intros [fails raw s1 s2 r H|e s1|id x s1 Hid|id before behind s1 Hd|id before behind s1 Hw Hq|id before behind s1 Hw|s1 s2 r H|s1|id x x' s1 Hid] Hok.
  - apply packet_kept in H as [_ Hd Hq [Hs|(id & x & Hn & Hs)]].
    + destruct Hok as [H1 H2 H3]. split; rewrite ?Hd, ?Hq, ?Hs; done.
    + by apply (closed_ok_live s1 s2 id x).
  - apply closed_ok_Close, closed_ok_queue; [done|apply Hok].
  - by apply (closed_ok_removed s1 id x).
  - by apply closed_ok_deleted.
  - apply closed_ok_queue; [done|]. rewrite zlen_app, zlen1. lia.
  - apply closed_ok_queue; [done|apply Hok].
  - unfold Accept in H. destruct (srv_queue s1) as [|id queue] eqn:Eq.
    + destruct (srv_error s1); [|discriminate]. by injection H as <- <-.
    + injection H as <- <-. apply closed_ok_queue; [done|]. pose proof (co_queue s1 Hok) as Hq. rewrite Eq, zlen_cons in Hq. lia.
  - by apply closed_ok_Close.
  - apply (closed_ok_live s1 _ id x'); try done. by rewrite Hid.
Qed.

Lemma new_closed_ok config : closed_ok (new_server config).
Proof using Type. split; [|by apply NoDup_nil|done]. intros id. cbn. rewrite lookup_empty. split; [done|]. by intros ?%not_elem_of_nil. Qed.
Lemma run_closed_ok s s' : server_run newSession s s' → closed_ok s → closed_ok s'.
Proof using Type. induction 1 as [s|s s1 s2 Hs _ IH]; [done|]. intros Hok. by apply IH, (step_closed_ok s). Qed.

(** C19: in every state that a listener reaches, the entries of closed sessions, which swallow late packets, are exactly those whose timer
    runs, each once: none is kept for ever, and none is deleted early or twice.  At most five sessions wait for [Accept]. *)
Theorem closed_sessions_collected config s :
  server_run newSession (new_server config) s →
  (∀ id, srv_sessions s !! id = Some None ↔ id ∈ srv_deletions s) ∧ NoDup (srv_deletions s) ∧ (zlen (srv_queue s) ≤ 5)%Z.
Proof using Type. intros H. apply run_closed_ok in H as [H1 H2 H3]; [done|apply new_closed_ok]. Qed.
End reachable.

(** * First packets *)

(** A packet that offers a version, large enough for a first one. *)
Definition first_packet (h : PublicHeader) (payload : list byte) (raw : receivedRawPacket) : Prop :=
  header_ok h PerspectiveClient (VersionNumber h) ∧ VersionFlag h = true ∧ (ClientHelloMinimumSize ≤ zlen payload)%Z ∧
  ∃ bs, writes (write_PublicHeader h (VersionNumber h) PerspectiveClient) bs ∧ raw_data raw = bs ++ payload.

Lemma first_packet_read h payload raw known :
  first_packet h payload raw →
  ParsePublicHeader PerspectiveClient known (raw_data raw) = Ok (received_header h, payload) ∧
  PeekConnectionID (raw_data raw) PerspectiveClient = Ok (ConnectionID h) ∧
  ResetFlag h = false ∧ (1 ≤ ConnectionID h < 2 ^ 64)%Z.
Proof.
  intros (Hh & Hf & Hz & bs & Hw & ->). destruct (public_header_written h PerspectiveClient (VersionNumber h) known Hh) as (len & _ & bs' & Hw' & Hr & _).
  { by rewrite Hf. }
  unfold writes in Hw, Hw'. rewrite Hw in Hw'. injection Hw' as <-. pose proof (Hr payload) as Hp. split; [done|]. split; [by apply peek_agrees in Hp|].
  destruct Hh as [Hflags Hconn _ _ _ _ _]. rewrite Hf in Hflags. split; [by destruct (ResetFlag h)|].
  destruct (TruncateConnectionID h); [by destruct Hconn|done].
Qed.

Section first.
Context {S : Type} `{!packetHandler S} (newSession : UDPAddr → UDPAddr → Z → Z → result HandshakeError S).
Implicit Types s : server S.

Lemma server_negotiates s h payload raw :
  first_packet h payload raw → srv_sessions s !! ConnectionID h = None → VersionNumber h ∉ Versions (srv_config s) →
  ∃ reply s1, ComposeVersionNegotiation (ConnectionID h) (Versions (srv_config s)) = Some reply ∧
    server_handlePacket newSession false raw s = Some (s1, None) ∧ srv_sent s1 = srv_sent s ++ [(raw_rcvPconn raw, raw_remoteAddr raw, reply)] ∧
    srv_sessions s1 = srv_sessions s ∧ srv_config s1 = srv_config s.
Proof using Type.
  intros Hp Hs Hv. destruct (first_packet_read h payload raw VersionUnknown Hp) as (Hparse & Hpeek & Hr & Hc).
  destruct (negotiation_bytes (ConnectionID h) (Versions (srv_config s))) as (reply & Hreply & _).
  exists reply. unfold server_handlePacket. rewrite Hpeek, Hs. cbn [mjoin option_join]. rewrite Hparse.
  cbn [received_header VersionFlag ResetFlag VersionNumber ConnectionID]. rewrite Hr. destruct Hp as (_ & -> & Hz & bs & _ & Hraw).
  destruct (IsSupportedVersion _ _) eqn:E; [by apply IsSupportedVersion_elem in E|]. cbn [negb andb].
  rewrite decide_False, Hreply.
  - eexists. split; [done|]. split; [reflexivity|]. by repeat split.
  - cbn [rawHeader packet_of]. rewrite Hraw, length_app, Nat.add_sub, take_app_length, zlen_app. lia.
Qed.

Lemma server_starts fails s h payload raw z :
  first_packet h payload raw → srv_sessions s !! ConnectionID h = None → VersionNumber h ∈ Versions (srv_config s) →
  newSession (raw_rcvPconn raw) (raw_remoteAddr raw) (VersionNumber h) (ConnectionID h) = Ok z →
  ∃ s1, server_handlePacket newSession fails raw s = Some (s1, None) ∧
    srv_sessions s1 = <[ConnectionID h := Some (ph_handlePacket (packet_of raw (received_header h) payload) z)]> (srv_sessions s).
Proof using Type.
  intros Hp Hs Hv Hn. destruct (first_packet_read h payload raw VersionUnknown Hp) as (Hparse & Hpeek & Hr & Hc).
  unfold server_handlePacket. rewrite Hpeek, Hs. cbn [mjoin option_join]. rewrite Hparse.
  cbn [received_header VersionFlag ResetFlag VersionNumber ConnectionID]. rewrite Hr. apply IsSupportedVersion_elem in Hv. rewrite Hv.
  cbn [negb]. rewrite andb_false_r, Hn. eexists. by split.
Qed.
End first.

(** * Witnesses *)

Definition sample_newSession (sock addr : UDPAddr) (version id : Z) : result HandshakeError (session fixedWindow) :=
  match session_setup sample_surroundings sample_config PerspectiveServer version id {| LocalAddr := sock; RemoteAddr := addr |} []
          100000 200000 (30 * Second) sample_crypto sample_open_packet with
  | Some s => Ok s
  | None => Err errHOL
  end.
Definition sample_first (id version : Z) : PublicHeader := {|
  ConnectionID := id; HPathID := 0; VersionFlag := true; ResetFlag := false; TruncateConnectionID := false; MultipathFlag := false;
  PacketNumberLen := 1; PacketNumber := 1; VersionNumber := version; SupportedVersionsField := []; DiversificationNonce := []
|}.
Definition raw_of (data : list byte) : receivedRawPacket := {|
  raw_rcvPconn := sample_address x01 1; raw_remoteAddr := sample_address x02 2; raw_data := data; raw_rcvTime := 7
|}.
Definition sample_payload : list byte := replicate 1024 x00.
Definition sample_offer (id version : Z) : receivedRawPacket :=
  match write_PublicHeader (sample_first id version) version PerspectiveClient with
  | Some (bs, _) => raw_of (bs ++ sample_payload)
  | None => raw_of []
  end.
Definition versions_config (versions : list Z) : Config := {|
  Versions := versions; cfg_RequestConnectionIDTruncation := false; HandshakeTimeout := 0; IdleTimeout := 0; AcceptCookie := None;
  MaxReceiveStreamFlowControlWindow := 0; MaxReceiveConnectionFlowControlWindow := 0; KeepAlive := false; cfg_CacheHandshake := false;
  CreatePaths := true
|}.

Lemma sample_offer_first id version : (1 ≤ id < 2 ^ 64)%Z → (0 ≤ version < 1000)%Z → first_packet (sample_first id version) sample_payload (sample_offer id version).
Proof.
  intros Hid Hv. assert (header_ok (sample_first id version) PerspectiveClient version) as Hh.
  { split; cbn [sample_first VersionFlag ResetFlag TruncateConnectionID ConnectionID MultipathFlag HPathID DiversificationNonce VersionNumber
      SupportedVersionsField]; try reflexivity; try exact Hid; [by left|repeat split; lia|].
    split; [by left|by vm_compute]. }
  split; [exact Hh|]. split; [reflexivity|]. split; [by vm_compute|].
  destruct (public_header_written _ _ _ version Hh I) as (len & _ & bs & Hw & _). exists bs. split; [exact Hw|].
  unfold sample_offer. unfold writes in Hw. by rewrite Hw.
Qed.

Lemma datagram_dispatched_witness : ∃ s' r,
  server_handlePacket sample_newSession false (sample_offer 77 38) (new_server None) = Some (s', r) ∧
  dispatched sample_newSession (sample_offer 77 38) (new_server None) s' r.
Proof. apply (datagram_dispatched sample_newSession false (sample_offer 77 38) (new_server None)). by vm_compute. Defined.

(** A session that was started and has ended. *)
Lemma closed_sessions_collected_witness : ∃ s,
  server_run sample_newSession (new_server None) s ∧ srv_sessions s !! 77%Z = Some None ∧ 77%Z ∈ srv_deletions s.
Proof.
  assert (∃ x, sample_newSession (sample_address x01 1) (sample_address x02 2) 38 77 = Ok x) as [x Hx] by (eexists; reflexivity).
  destruct (server_starts sample_newSession false (new_server None) (sample_first 77 38) sample_payload (sample_offer 77 38) x) as (s1 & H1 & Hs).
  - by apply sample_offer_first.
  - reflexivity.
  - apply (bool_decide_unpack _). vm_compute. exact I.
  - exact Hx.
  - exists (removeConnection 77 s1).
    assert (server_run sample_newSession (new_server None) (removeConnection 77 s1)) as Hrun.
    { eapply rtc_l; [by eapply step_server_packet|]. apply rtc_once. eapply step_session_ended. rewrite Hs. apply lookup_insert_eq. }
    split; [exact Hrun|]. assert (srv_sessions (removeConnection 77 s1) !! 77%Z = Some None) as He by apply lookup_insert_eq.
    split; [exact He|]. by apply (closed_sessions_collected sample_newSession None _ Hrun).
Defined.
