(* ===== verification/Dialer.v ===== *)
(** The dialer of a client (src/mp-quic: client.go).

    A dialer makes one session, hands it the packets that carry its connection ID, and if the server
    speaks none of the offered versions makes another in a version both speak.  What it needs of a
    session is the class [packetHandler] of Listener.v; the end of the file lets a dialer and a listener
    agree on a version. *)

From Stdlib Require Import ZArith Lia.
From Stdlib Require Import Strings.Byte.
From stdpp Require Import prelude numbers list gmap.
From S2P Require Import Prelude ByteOrder Protocol Wire FlowControl PublicHeader PacketUnpacker Handshake Path SessionState PathManager ServerConfig.
From S2P Require Import RTTStats SentPackets CryptoSetup Listener.

Open Scope Z_scope.

Definition InvalidVersion : Z := 20.
Definition PublicResetCode : Z := 19.

(** [Network] and [String] of two UDP addresses agree: an IPv4 address prints the same in its two forms. *)
Definition same_address (a b : UDPAddr) : bool :=
  bool_decide (default (addr_IP a) (To4 (addr_IP a)) = default (addr_IP b) (To4 (addr_IP b)) ∧ addr_Port a = addr_Port b).

Section client.
Context {S : Type} `{!packetHandler S}.
(** Makes a session for a remote address, a version, a connection ID, and the versions of the
    negotiation packet. *)
Context (newClientSession : UDPAddr → Z → Z → list Z → result SessionError S).

(** [dl_session] is [None] for a nil session; [dl_replaced] are the sessions that were closed for a new version. *)
Record client : Type := {
  dl_config : Config;
  dl_connectionID : Z;
  dl_version : Z;
  dl_versionNegotiated : bool;
  dl_receivedVersionNegotiationPacket : bool;
  dl_session : option S;
  dl_replaced : list S
}.
Implicit Types c : client.

Definition set_session c (x : option S) : client := {|
  dl_config := dl_config c; dl_connectionID := dl_connectionID c; dl_version := dl_version c; dl_versionNegotiated := dl_versionNegotiated c;
  dl_receivedVersionNegotiationPacket := dl_receivedVersionNegotiationPacket c; dl_session := x; dl_replaced := dl_replaced c
|}.
Definition set_negotiation c (negotiated received : bool) : client := {|
  dl_config := dl_config c; dl_connectionID := dl_connectionID c; dl_version := dl_version c; dl_versionNegotiated := negotiated;
  dl_receivedVersionNegotiationPacket := received; dl_session := dl_session c; dl_replaced := dl_replaced c
|}.
Definition set_version c (id version : Z) : client := {|
  dl_config := dl_config c; dl_connectionID := id; dl_version := version; dl_versionNegotiated := dl_versionNegotiated c;
  dl_receivedVersionNegotiationPacket := dl_receivedVersionNegotiationPacket c; dl_session := dl_session c; dl_replaced := dl_replaced c
|}.
Definition replaced c (x : S) : client := {|
  dl_config := dl_config c; dl_connectionID := dl_connectionID c; dl_version := dl_version c; dl_versionNegotiated := dl_versionNegotiated c;
  dl_receivedVersionNegotiationPacket := dl_receivedVersionNegotiationPacket c; dl_session := dl_session c; dl_replaced := dl_replaced c ++ [x]
|}.

Definition createNewSession (negotiatedVersions : list Z) (remoteAddr : UDPAddr) c : client * option SessionError :=
  match newClientSession remoteAddr (dl_version c) (dl_connectionID c) negotiatedVersions with
  | Ok x => (set_session c (Some x), None)
  | Err e => (set_session c None, Some e)
  end.

(** [fresh] is what [GenerateConnectionID] returns.  [None] is a panic. *)
Definition handlePacketWithVersionFlag (fresh : result SessionError Z) (hdr : PublicHeader) (remoteAddr : UDPAddr) c :
    option (client * option SessionError) :=
  if bool_decide (dl_version c ∈ SupportedVersionsField hdr) then Some (c, None)
  else
    let c := set_negotiation c (dl_versionNegotiated c) true in
    let newVersion := ChooseSupportedVersion (Versions (dl_config c)) (SupportedVersionsField hdr) in
    if decide (newVersion = VersionUnsupported) then Some (c, Some (SeWire (QuicError InvalidVersion)))
    else
      match fresh with
      | Err e => Some (set_version c 0 newVersion, Some e)
      | Ok id =>
          let c := set_version c id newVersion in
          oldSession ← dl_session c;
          let '(c, err) := createNewSession (SupportedVersionsField hdr) remoteAddr c in
          Some (replaced c (ph_Close errCloseSessionForNewVersion oldSession), err)
      end.

Definition client_handlePacket (fresh : result SessionError Z) (raw : receivedRawPacket) c : option client :=
  match ParsePublicHeader PerspectiveServer (dl_version c) (raw_data raw) with
  | Err _ => Some c
  | Ok (hdr, rest) =>
      if TruncateConnectionID hdr && negb (cfg_RequestConnectionIDTruncation (dl_config c)) then Some c
      else if negb (TruncateConnectionID hdr) && bool_decide (ConnectionID hdr ≠ dl_connectionID c) then Some c
      else if ResetFlag hdr then
        x ← dl_session c;
        cr ← ph_RemoteAddr x;
        if negb (same_address cr (raw_remoteAddr raw)) || bool_decide (ConnectionID hdr ≠ dl_connectionID c) then Some c
        else
          match ParsePublicReset rest with
          | Err _ => Some c
          | Ok _ => Some (set_session c (Some (ph_closeRemote (SeWire (QuicError PublicResetCode)) x)))
          end
      else if (dl_receivedVersionNegotiationPacket c || dl_versionNegotiated c) && VersionFlag hdr then Some c
      else
        let c := if negb (VersionFlag hdr) && negb (dl_versionNegotiated c)
                 then set_negotiation c true (dl_receivedVersionNegotiationPacket c) else c in
        if VersionFlag hdr then
          '(c, err) ← handlePacketWithVersionFlag fresh hdr (raw_remoteAddr raw) c;
          match err with
          | Some e => x ← dl_session c; Some (set_session c (Some (ph_Close e x)))
          | None => Some c
          end
        else
          x ← dl_session c;
          Some (set_session c (Some (ph_handlePacket (packet_of raw hdr rest) x)))
  end.

(** [DialNonFWSecure], up to its wait: the version is [Versions[0]]. *)
Definition dial (fresh : result SessionError Z) (config : option Config) (remoteAddr : UDPAddr) : option (result SessionError client) :=
  match fresh with
  | Err e => Some (Err e)
  | Ok connID =>
      let clientConfig := populateClientConfig config in
      version ← head (Versions clientConfig);
      let '(c, err) := createNewSession [] remoteAddr {|
        dl_config := clientConfig; dl_connectionID := connID; dl_version := version; dl_versionNegotiated := false;
        dl_receivedVersionNegotiationPacket := false; dl_session := None; dl_replaced := []
      |} in
      Some (match err with Some e => Err e | None => Ok c end)
  end.

(** [listen]: a packet or the failure of a socket, and whatever a session does by itself. *)
Inductive dialer_step : relation client :=
| dst_packet fresh raw c c' : client_handlePacket fresh raw c = Some c' → dialer_step c c'
| dst_error e x c : dl_session c = Some x → dialer_step c (set_session c (Some (ph_Close e x)))
| dst_session x x' c : dl_session c = Some x → dialer_step c (set_session c (Some x')).
Definition dialer_run : relation client := rtc dialer_step.

(** The session that the goroutine of [establishSecureConnection] runs after one ended with [runErr]. *)
Definition next_run (runErr : SessionError) c : option S :=
  match runErr with errCloseSessionForNewVersion => dl_session c | _ => None end.
End client.
#[global] Arguments client : clear implicits.

(** What [establishSecureConnection] makes of the first event of the handshake. *)
Inductive EstablishError : Type := EsSession (e : SessionError) | errNotSecure (encLevel : EncryptionLevel).
Definition secure_event (usesTLS : bool) (ev : result SessionError EncryptionLevel) : result EstablishError () :=
  match ev with
  | Err e => Err (EsSession e)
  | Ok EncryptionSecure => Ok ()
  | Ok encLevel => if usesTLS then Ok () else Err (errNotSecure encLevel)
  end.

Close Scope Z_scope.

(** * What can change a dialer *)

Section packets.
Context {S : Type} `{!packetHandler S} (newClientSession : UDPAddr → Z → Z → list Z → result SessionError S).
Implicit Types c : client S.

(** A datagram that the dialer acts on. *)
Record acceptable c (raw : receivedRawPacket) (hdr : PublicHeader) : Prop := {
  ac_id : if TruncateConnectionID hdr then cfg_RequestConnectionIDTruncation (dl_config c) = true else ConnectionID hdr = dl_connectionID c;
  ac_reset : ResetFlag hdr = true → ConnectionID hdr = dl_connectionID c ∧
    ∃ x addr, dl_session c = Some x ∧ ph_RemoteAddr x = Some addr ∧ same_address addr (raw_remoteAddr raw) = true;
  ac_negotiation : ResetFlag hdr = false → VersionFlag hdr = true →
    dl_receivedVersionNegotiationPacket c = false ∧ dl_versionNegotiated c = false ∧ dl_version c ∉ SupportedVersionsField hdr
}.

(** a dialer acts on a datagram only if it has its connection ID (or a truncated one, when it asked for that); on a public reset only if
    it comes from the address of its session, with the connection ID; and on a version negotiation packet only if it is the first, no
    other packet came before, and it does not list the version in use.  Every other datagram leaves it as it is. *)
Theorem spoofed_packets_ignored fresh raw c c' :
  client_handlePacket newClientSession fresh raw c = Some c' →
  c' = c ∨ ∃ hdr rest, ParsePublicHeader PerspectiveServer (dl_version c) (raw_data raw) = Ok (hdr, rest) ∧ acceptable c raw hdr.
Proof using Type.
  unfold client_handlePacket. destruct (ParsePublicHeader _ _ _) as [[hdr rest]|e] eqn:Ep; [|intros [= <-]; by left].
  destruct (TruncateConnectionID hdr && _) eqn:Et; [intros [= <-]; by left|].
  destruct (negb (TruncateConnectionID hdr) && _) eqn:Ei; [intros [= <-]; by left|].
  assert (if TruncateConnectionID hdr then cfg_RequestConnectionIDTruncation (dl_config c) = true else ConnectionID hdr = dl_connectionID c) as Hid.
  { destruct (TruncateConnectionID hdr); cbn in Et, Ei; [by destruct (cfg_RequestConnectionIDTruncation _)|].
    by apply bool_decide_eq_false, dec_stable in Ei. }
  destruct (ResetFlag hdr) eqn:Er.
  - destruct (dl_session c) as [x|] eqn:Ex; [cbn [mbind option_bind]|discriminate].
    destruct (ph_RemoteAddr x) as [addr|] eqn:Ea; [cbn [mbind option_bind]|discriminate].
    destruct (_ || _) eqn:Es; [intros [= <-]; by left|]. apply orb_false_iff in Es as [Es Ec]. intros _. right. exists hdr, rest. split; [done|].
    apply negb_false_iff in Es. apply bool_decide_eq_false, dec_stable in Ec. split; [done| |by rewrite Er]. intros _. split; [done|]. by exists x, addr.
  - destruct (_ && VersionFlag hdr) eqn:Ev; [intros [= <-]; by left|]. intros H.
    assert ((VersionFlag hdr = true → dl_version c ∈ SupportedVersionsField hdr) ∨ ¬ (VersionFlag hdr = true → dl_version c ∈ SupportedVersionsField hdr)) as [Hl|Hl].
    { destruct (VersionFlag hdr); [|by left]. destruct (decide (dl_version c ∈ SupportedVersionsField hdr)); [by left|right]. intros Hx. by apply n, Hx. }
    + destruct (VersionFlag hdr) eqn:Ef.
      * left. cbn [negb andb] in H. unfold handlePacketWithVersionFlag in H. rewrite bool_decide_true in H by by apply Hl. by injection H.
      * right. exists hdr, rest. split; [done|]. split; [done|by rewrite Er|by rewrite Ef].
    + right. exists hdr, rest. split; [done|]. split; [done|by rewrite Er|]. intros _ Ef. rewrite Ef, andb_true_r in Ev.
      apply orb_false_iff in Ev as [Ev1 Ev2]. repeat split; [done|done|]. intros Hin. by apply Hl.
Qed.
End packets.

(** * The version of a dialer *)

Section versions.
Context {S : Type} `{!packetHandler S} (newClientSession : UDPAddr → Z → Z → list Z → result SessionError S).
Implicit Types c : client S.

Definition settled c : bool := dl_versionNegotiated c || dl_receivedVersionNegotiationPacket c.

(** The version, the ID and the sessions that were given up. *)
Record same_version c c' : Prop := {
  sv_same_version : dl_version c' = dl_version c;
  sv_same_id : dl_connectionID c' = dl_connectionID c;
  sv_same_replaced : dl_replaced c' = dl_replaced c
}.
(** What a step keeps. *)
Record version_kept c c' : Prop := {
  vk_config : dl_config c' = dl_config c;
  vk_session : is_Some (dl_session c) → is_Some (dl_session c');
  vk_settled : settled c = true → settled c' = true ∧ same_version c c';
  vk_offered : settled c' = false → same_version c c';
  vk_version : dl_version c ∈ Versions (dl_config c) → dl_version c' ∈ Versions (dl_config c);
  vk_replaced : length (dl_replaced c') ≤ length (dl_replaced c) + 1
}.

#[global] Instance same_version_preorder : PreOrder same_version.
Proof using Type. split; [done|]. intros c1 c2 c3 [H1 H2 H3] [H4 H5 H6]. split; congruence. Qed.
Lemma kept_same c c' :
  dl_config c' = dl_config c → (is_Some (dl_session c) → is_Some (dl_session c')) → (settled c = true → settled c' = true) →
  same_version c c' → version_kept c c'.
Proof using Type. intros H1 H2 H3 H4. split; [done|done|auto|done| |]; destruct H4 as [E1 E2 E3]; [by rewrite E1|rewrite E3; lia]. Qed.
Lemma kept_session c x : version_kept c (set_session c (Some x)).
Proof using Type. by apply kept_same. Qed.

Lemma Choose_in_ours ours theirs : ChooseSupportedVersion ours theirs ≠ VersionUnsupported → ChooseSupportedVersion ours theirs ∈ ours.
Proof using Type. intros Hn. destruct (Choose_common ours theirs) as [(pre & post & E & _)|[E _]]; [|done]. rewrite E at 2. set_solver. Qed.

Lemma flag_kept fresh hdr addr c c' err :
  settled c = false → handlePacketWithVersionFlag newClientSession fresh hdr addr c = Some (c', err) →
  c' = c ∧ err = None ∨
  dl_config c' = dl_config c ∧ settled c' = true ∧ (dl_version c' ≠ dl_version c → dl_version c' ∈ Versions (dl_config c)) ∧
  length (dl_replaced c') ≤ length (dl_replaced c) + 1 ∧ (err = None → is_Some (dl_session c')).
Proof using Type.
  intros Hs. unfold handlePacketWithVersionFlag. destruct (bool_decide (dl_version c ∈ _)); [intros [= <- <-]; by left|].
  cbn [dl_config set_negotiation]. destruct (decide _) as [|Hn].
  { intros [= <- <-]. right. unfold settled. cbn. rewrite orb_true_r. repeat split; [done|lia|discriminate]. }
  assert (ChooseSupportedVersion (Versions (dl_config c)) (SupportedVersionsField hdr) ∈ Versions (dl_config c)) as Hin by by apply Choose_in_ours.
  destruct fresh as [id|e].
  - cbn [dl_session set_version]. destruct (dl_session _) as [x|]; [cbn [mbind option_bind]|discriminate].
    unfold createNewSession. destruct (newClientSession _ _ _ _) as [y|e]; intros [= <- <-]; right; unfold settled; cbn; rewrite orb_true_r, length_app; cbn.
    + repeat split; [by intros _|lia|by intros _; exists y].
    + repeat split; [by intros _|lia|discriminate].
  - intros [= <- <-]. right. unfold settled. cbn. rewrite orb_true_r. repeat split; [by intros _|lia|discriminate].
Qed.

Lemma packet_version_kept fresh raw c c' : client_handlePacket newClientSession fresh raw c = Some c' → version_kept c c'.
Proof using Type.
  assert (version_kept c c) as Hrefl by by apply kept_same.
  unfold client_handlePacket. destruct (ParsePublicHeader _ _ _) as [[hdr rest]|e]; [|by intros [= <-]].
  destruct (TruncateConnectionID hdr && _); [by intros [= <-]|]. destruct (negb (TruncateConnectionID hdr) && _); [by intros [= <-]|].
  destruct (ResetFlag hdr).
  { destruct (dl_session c) as [x|]; [cbn [mbind option_bind]|discriminate]. destruct (ph_RemoteAddr x); [cbn [mbind option_bind]|discriminate].
    destruct (_ || _); [by intros [= <-]|]. destruct (ParsePublicReset rest); intros [= <-]; [apply kept_session|done]. }
  destruct (VersionFlag hdr); cbn [negb andb].
  - rewrite andb_true_r, orb_comm. destruct (_ || _) eqn:Es; [by intros [= <-]|].
    destruct (handlePacketWithVersionFlag _ _ _ _ _) as [[c1 err]|] eqn:Ef; [cbn [mbind option_bind]|discriminate].
    destruct (flag_kept _ _ _ _ _ _ Es Ef) as [[-> ->]|(H1 & H2 & H3 & H4 & H5)]; [by intros [= <-]|].
    assert (dl_version c ∈ Versions (dl_config c) → dl_version c1 ∈ Versions (dl_config c)) as Hv.
    { intros Hc. destruct (decide (dl_version c1 = dl_version c)) as [->|Hn]; [done|by apply H3]. }
    destruct err as [e|].
    + destruct (dl_session c1) as [x|]; [cbn [mbind option_bind]|discriminate]. intros [= <-].
      split; [exact H1|done|intros E; unfold settled in E; congruence|intros E; change (settled c1 = false) in E; congruence|exact Hv|exact H4].
    + intros [= <-]. split; [exact H1|by intros _; apply H5|intros E; unfold settled in E; congruence|intros E; congruence|exact Hv|exact H4].
  - rewrite andb_false_r. destruct (negb (dl_versionNegotiated c)) eqn:En.
    + cbn [set_negotiation dl_session]. destruct (dl_session c) as [x|]; [cbn [mbind option_bind]|discriminate]. intros [= <-]. by apply kept_same.
    + destruct (dl_session c) as [x|]; [cbn [mbind option_bind]|discriminate]. intros [= <-]. apply kept_session.
Qed.

Lemma step_version_kept c c' : dialer_step newClientSession c c' → version_kept c c'.
Proof using Type.
  intros [fresh raw c1 c2 H|e x c1 _|x x' c1 _]; [by eapply packet_version_kept|apply kept_session..].
Qed.
Lemma run_settled c c' : dialer_run newClientSession c c' → settled c = true → settled c' = true ∧ same_version c c'.
Proof using Type.
  induction 1 as [c|c c1 c2 H _ IH]; intros Hs; [by split|]. apply step_version_kept in H. destruct (vk_settled _ _ H Hs) as [Hs1 H1].
  destruct (IH Hs1) as [Hs2 H2]. split; [done|]. by transitivity c1.
Qed.

(** What holds of a dialer that began as [c0]. *)
Record version_ok c0 c : Prop := {
  vo_config : dl_config c = dl_config c0;
  vo_version : dl_version c ∈ Versions (dl_config c0);
  vo_session : is_Some (dl_session c);
  vo_offered : settled c = false → same_version c0 c;
  vo_replaced : length (dl_replaced c) ≤ 1
}.
Lemma step_version_ok c0 c c' : dl_replaced c0 = [] → version_kept c c' → version_ok c0 c → version_ok c0 c'.
Proof using Type.
  intros H0 Hk [H1 H2 H3 H4 H5]. split.
  - by rewrite (vk_config _ _ Hk).
  - rewrite <-H1. apply (vk_version _ _ Hk). by rewrite H1.
  - by apply (vk_session _ _ Hk).
  - intros Hs. destruct (settled c) eqn:E.
    + destruct (vk_settled _ _ Hk E) as [E' _]. congruence.
    + transitivity c; [by apply H4|by apply (vk_offered _ _ Hk)].
  - destruct (settled c) eqn:E.
    + destruct (vk_settled _ _ Hk E) as [_ E']. by rewrite (sv_same_replaced _ _ E').
    + pose proof (vk_replaced _ _ Hk) as Hr. rewrite (sv_same_replaced _ _ (H4 eq_refl)), H0 in Hr. exact Hr.
Qed.

Lemma default_versions_head config : ∃ v, head (Versions (populateClientConfig config)) = Some v ∧ v ∈ Versions (populateClientConfig config).
Proof using Type.
  cbn. unfold default_versions. case_decide as H; [eexists; split; [reflexivity|by left]|]. destruct (Versions _) as [|v vs]; [done|]. exists v. split; [done|by left].
Qed.
Lemma dial_ok fresh config addr : ∃ r, dial newClientSession fresh config addr = Some r ∧
  match r with Ok c0 => version_ok c0 c0 ∧ dl_replaced c0 = [] | Err _ => True end.
Proof using Type.
  unfold dial. destruct fresh as [id|e]; [|by eexists]. destruct (default_versions_head config) as (v & -> & Hv). cbn [mbind option_bind].
  unfold createNewSession. cbn. destruct (newClientSession _ _ _ _) as [x|e]; [|by eexists]. eexists. split; [reflexivity|]. cbn.
  split; [|done]. split; [reflexivity|exact Hv|by exists x|reflexivity|cbn; lia].
Qed.

(** C20: dialing does not panic.  As long as a dialer has taken neither a version negotiation packet nor a packet of a server that
    accepts its version, it keeps the version and the ID it began with; from then on the version and the ID are settled and no
    session is replaced any more.  It always has a session, its version is one of its configuration, and it replaces at most one session. *)
Theorem version_settled fresh config addr :
  ∃ r, dial newClientSession fresh config addr = Some r ∧
  match r with
  | Err _ => True
  | Ok c0 => ∀ c, dialer_run newClientSession c0 c →
      dl_version c ∈ Versions (populateClientConfig config) ∧ is_Some (dl_session c) ∧ length (dl_replaced c) ≤ 1 ∧
      (settled c = false → same_version c0 c) ∧
      ∀ c', dialer_run newClientSession c c' → settled c = true → settled c' = true ∧ same_version c c'
  end.
Proof using Type.
  destruct (dial_ok fresh config addr) as (r & Hr & Hok). exists r. split; [done|]. destruct r as [c0|e]; [|done].
  assert (dl_config c0 = populateClientConfig config) as Hc.
  { unfold dial in Hr. destruct fresh as [id|]; [|done]. destruct (head _) as [v|]; [cbn [mbind option_bind] in Hr|done].
    unfold createNewSession in Hr. destruct (newClientSession _ _ _ _) in Hr; cbn in Hr; [by injection Hr as <-|discriminate]. }
  destruct Hok as [Hok H0]. intros c H. assert (version_ok c0 c) as [H1 H2 H3 H4 H5].
  { clear Hr Hc. assert (∀ c1, version_ok c0 c1 → ∀ c2, dialer_run newClientSession c1 c2 → version_ok c0 c2) as Hgo; [|by apply (Hgo c0)].
    intros c1 Hc1 c2 Hrun. induction Hrun as [c1|c1 c2 c3 Hs _ IH]; [done|]. apply IH. eapply step_version_ok; [done| |done].
    by apply step_version_kept. }
  rewrite <-Hc. split; [done|]. split; [done|]. split; [done|]. split; [done|]. intros c'. apply run_settled.
Qed.
End versions.

(** * A dialer and a listener agree on a version *)

Section negotiation.
Context {S T : Type} `{!packetHandler S} `{!packetHandler T}.
Context (newSession : UDPAddr → UDPAddr → Z → Z → result HandshakeError S).
Context (newClientSession : UDPAddr → Z → Z → list Z → result SessionError T).
Implicit Types (s : server S) (c : client T).

(** What the dialer becomes. *)
Definition refused (x : T) c : client T := set_session (set_negotiation c false true) (Some (ph_Close (SeWire (QuicError InvalidVersion)) x)).
Definition switched (id v : Z) (x y : T) c : client T :=
  replaced (set_session (set_version (set_negotiation c false true) id v) (Some y)) (ph_Close errCloseSessionForNewVersion x).

Lemma dialer_negotiates c versions raw id x :
  settled c = false → dl_session c = Some x → (1 ≤ dl_connectionID c < 2 ^ 64)%Z → Forall (λ v, (0 ≤ v < 1000)%Z) versions →
  ComposeVersionNegotiation (dl_connectionID c) versions = Some (raw_data raw) → dl_version c ∉ versions →
  let v := ChooseSupportedVersion (Versions (dl_config c)) versions in
  client_handlePacket newClientSession (Ok id) raw c =
    if decide (v = VersionUnsupported) then Some (refused x c)
    else match newClientSession (raw_remoteAddr raw) v id versions with
         | Ok y => Some (switched id v x y c)
         | Err _ => None
         end.
Proof using Type.
  intros Hs Hx Hc Hv Hreply Hnot v. destruct (negotiation_packet_read _ _ (dl_version c) Hc Hv) as (bs & Hbs & Hread).
  rewrite Hreply in Hbs. injection Hbs as <-. unfold client_handlePacket. rewrite Hread.
  cbn [negotiation_header TruncateConnectionID ConnectionID ResetFlag VersionFlag SupportedVersionsField negb andb].
  rewrite bool_decide_false by (intros H; by apply H). apply orb_false_iff in Hs as [Hs1 Hs2]. rewrite Hs1, Hs2. cbn [orb andb].
  unfold handlePacketWithVersionFlag. cbn [negotiation_header SupportedVersionsField]. rewrite bool_decide_false by done.
  cbn [dl_config set_negotiation]. fold v. rewrite Hs1. case_decide.
  - cbn. by rewrite Hx.
  - cbn. rewrite Hx. cbn. unfold createNewSession. cbn. destruct (newClientSession _ _ _ _) as [y|e]; cbn; reflexivity.
Qed.

(** C8: a listener that does not speak the version of a dialer's first packet answers with its versions and keeps no state; the dialer then
    makes a session with a new ID in its most preferred version that the listener speaks, closes the old session, and the first packet
    of the new session starts the session of that ID and version at the listener.  When there is no such version, it closes its session. *)
Theorem version_negotiated s c id x h payload raw :
  settled c = false → dl_session c = Some x → Forall (λ v, (0 ≤ v < 1000)%Z) (Versions (srv_config s)) →
  first_packet h payload raw → ConnectionID h = dl_connectionID c → VersionNumber h = dl_version c →
  srv_sessions s !! dl_connectionID c = None → dl_version c ∉ Versions (srv_config s) →
  ∃ reply s1, server_handlePacket newSession false raw s = Some (s1, None) ∧ srv_sessions s1 = srv_sessions s ∧
    srv_sent s1 = srv_sent s ++ [(raw_rcvPconn raw, raw_remoteAddr raw, reply)] ∧
  ∀ raw1, raw_data raw1 = reply →
  (∃ v pre post, Versions (dl_config c) = pre ++ v :: post ∧ v ∈ Versions (srv_config s) ∧ (∀ w, w ∈ pre → w ∉ Versions (srv_config s)) ∧
     ∀ y, newClientSession (raw_remoteAddr raw1) v id (Versions (srv_config s)) = Ok y →
     client_handlePacket newClientSession (Ok id) raw1 c = Some (switched id v x y c) ∧
     ∀ fails h2 payload2 raw2 z, first_packet h2 payload2 raw2 → ConnectionID h2 = id → VersionNumber h2 = v → srv_sessions s !! id = None →
       newSession (raw_rcvPconn raw2) (raw_remoteAddr raw2) v id = Ok z →
       ∃ s2, server_handlePacket newSession fails raw2 s1 = Some (s2, None) ∧
         srv_sessions s2 !! id = Some (Some (ph_handlePacket (packet_of raw2 (received_header h2) payload2) z))) ∨
  ((∀ v, v ∈ Versions (dl_config c) → v ∉ Versions (srv_config s)) ∧ client_handlePacket newClientSession (Ok id) raw1 c = Some (refused x c)).
Proof using Type.
  intros Hs Hx Hv Hp Hid Hver Hnone Hnot. rewrite <-Hid in Hnone. rewrite <-Hver in Hnot.
  destruct (server_negotiates newSession s h payload raw Hp Hnone Hnot) as (reply & s1 & Hreply & Hsrv & Hsent & Hsess & Hcfg).
  exists reply, s1. do 3 (split; [done|]). intros raw1 <-. destruct (first_packet_read h payload raw VersionUnknown Hp) as (_ & _ & _ & Hc).
  rewrite Hid in Hreply, Hc. rewrite Hver in Hnot.
  assert (∀ v, ChooseSupportedVersion (Versions (dl_config c)) (Versions (srv_config s)) = v → _) as Hd
    by (intros v Ev; exact (dialer_negotiates c _ raw1 id x Hs Hx Hc Hv Hreply Hnot)).
  destruct (Choose_common (Versions (dl_config c)) (Versions (srv_config s))) as [(pre & post & Hpre & Hin & Hbest)|[Hun Hno]]; specialize (Hd _ eq_refl); cbv zeta in Hd.
  - left. set (v := ChooseSupportedVersion _ _) in *. exists v, pre, post. do 3 (split; [done|]).
    intros y Hy. rewrite Forall_forall in Hv. pose proof (Hv v Hin) as Hrange. rewrite decide_False in Hd by (unfold VersionUnsupported; lia). rewrite Hy in Hd.
    split; [done|]. intros fails h2 payload2 raw2 z Hp2 Hid2 Hv2 Hnone2 Hz. rewrite <-Hid2 in *. rewrite <-Hv2 in Hz.
    destruct (server_starts newSession fails s1 h2 payload2 raw2 z Hp2) as (s2 & H2 & Hs2); rewrite ?Hsess, ?Hcfg, ?Hv2; try done; [by rewrite <-Hv2|].
    exists s2. split; [done|]. by rewrite Hs2, lookup_insert_eq.
  - right. split; [done|]. by rewrite decide_True in Hd.
Qed.
End negotiation.

(** * When a dialer panics *)

Section panics.
Context {S : Type} `{!packetHandler S} (newClientSession : UDPAddr → Z → Z → list Z → result SessionError S).
Implicit Types c : client S.

(** a dialer with a session whose first path is there panics on a datagram only in one way, and then it does: a version negotiation
    packet that it takes makes it switch, and the new session cannot be made; the nil session it is left with is then closed. *)
Theorem dialer_panics fresh raw c x :
  dl_session c = Some x → is_Some (ph_RemoteAddr x) →
  client_handlePacket newClientSession fresh raw c = None ↔
  ∃ hdr rest id e, ParsePublicHeader PerspectiveServer (dl_version c) (raw_data raw) = Ok (hdr, rest) ∧ acceptable c raw hdr ∧
    ResetFlag hdr = false ∧ VersionFlag hdr = true ∧ fresh = Ok id ∧
    ChooseSupportedVersion (Versions (dl_config c)) (SupportedVersionsField hdr) ≠ VersionUnsupported ∧
    newClientSession (raw_remoteAddr raw) (ChooseSupportedVersion (Versions (dl_config c)) (SupportedVersionsField hdr)) id
      (SupportedVersionsField hdr) = Err e.
Proof using Type.
  intros Hx [addr Ha]. split.
  - unfold client_handlePacket. destruct (ParsePublicHeader _ _ _) as [[hdr rest]|e] eqn:Ep; [|discriminate].
    destruct (TruncateConnectionID hdr && _) eqn:Et; [discriminate|].
    destruct (negb (TruncateConnectionID hdr) && _) eqn:Ei; [discriminate|]. rewrite Hx. cbn [mbind option_bind].
    destruct (ResetFlag hdr) eqn:Er.
    { rewrite Ha. cbn [mbind option_bind]. destruct (_ || _); [discriminate|]. by destruct (ParsePublicReset rest). }
    destruct (_ && VersionFlag hdr) eqn:Ev; [discriminate|].
    destruct (VersionFlag hdr) eqn:Ef; cbn [negb andb].
    2: { destruct (negb (dl_versionNegotiated c)); cbn [set_negotiation dl_session]; by rewrite Hx. }
    rewrite andb_true_r in Ev. apply orb_false_iff in Ev as [Ev1 Ev2].
    unfold handlePacketWithVersionFlag. destruct (bool_decide (dl_version c ∈ _)) eqn:Ein; [discriminate|]. apply bool_decide_eq_false in Ein.
    cbn [dl_config set_negotiation]. destruct (decide _) as [|Hn]; [cbn; by rewrite Hx|].
    destruct fresh as [id|e]; cbn; rewrite Hx; cbn; [|discriminate].
    unfold createNewSession. cbn. destruct (newClientSession _ _ _ _) as [y|e] eqn:En; cbn; [discriminate|]. intros _.
    exists hdr, rest, id, e. split; [done|]. split; [|by repeat split]. split; [|by rewrite Er|by intros _ _].
    destruct (TruncateConnectionID hdr); cbn in Et, Ei; [by destruct (cfg_RequestConnectionIDTruncation _)|by apply bool_decide_eq_false, dec_stable in Ei].
  - intros (hdr & rest & id & e & Ep & [Hid _ Hneg] & Er & Ef & -> & Hn & En). destruct (Hneg Er Ef) as (Ev1 & Ev2 & Hin).
    unfold client_handlePacket. rewrite Ep, Er, Ef, Ev1, Ev2. cbn [orb andb negb].
    replace (TruncateConnectionID hdr && _) with false by (destruct (TruncateConnectionID hdr); [by rewrite Hid|done]).
    replace (negb (TruncateConnectionID hdr) && _) with false
      by (destruct (TruncateConnectionID hdr); [done|cbn; symmetry; apply bool_decide_false; intros H; by apply H]).
    unfold handlePacketWithVersionFlag. rewrite bool_decide_false by done. cbn [dl_config set_negotiation]. rewrite decide_False by done.
    cbn. rewrite Hx. cbn. unfold createNewSession. cbn. by rewrite En.
Qed.
End panics.

(** * Witnesses *)

Open Scope Z_scope.
Definition sample_newClientSession (addr : UDPAddr) (version id : Z) (_ : list Z) : result SessionError (session fixedWindow) :=
  match session_setup sample_surroundings sample_config PerspectiveClient version id {| LocalAddr := sample_address x02 2; RemoteAddr := addr |} []
          100000 200000 (30 * Second) sample_crypto sample_open_packet with
  | Some s => Ok s
  | None => Err errGoaway
  end.
(** No session can be made in version 38. *)
Definition failing_newClientSession (addr : UDPAddr) (version id : Z) (vs : list Z) : result SessionError (session fixedWindow) :=
  if decide (version = 38) then Err (SeCrypto 1) else sample_newClientSession addr version id vs.
Definition sample_dial (versions : list Z) : option (result SessionError (client (session fixedWindow))) :=
  dial sample_newClientSession (Ok 77) (Some (versions_config versions)) (sample_address x01 1).
Definition negotiation_raw (id : Z) (versions : list Z) : receivedRawPacket := {|
  raw_rcvPconn := sample_address x02 2; raw_remoteAddr := sample_address x01 1;
  raw_data := default [] (ComposeVersionNegotiation id versions); raw_rcvTime := 7
|}.
Close Scope Z_scope.

Lemma sample_dialed : ∃ c x addr, sample_dial [39; 38]%Z = Some (Ok c) ∧ dl_session c = Some x ∧ ph_RemoteAddr x = Some addr ∧
  dl_connectionID c = 77%Z ∧ dl_version c = 39%Z ∧ Versions (dl_config c) = [39; 38]%Z ∧
  dl_versionNegotiated c = false ∧ dl_receivedVersionNegotiationPacket c = false.
Proof. eexists _, _, _. split; [reflexivity|]. repeat split. Qed.

(** A negotiation packet for another connection. *)
Lemma spoofed_packets_ignored_witness : ∃ c, sample_dial [39; 38]%Z = Some (Ok c) ∧
  client_handlePacket sample_newClientSession (Ok 78%Z) (negotiation_raw 99 [38]%Z) c = Some c ∧
  (c = c ∨ ∃ hdr rest, ParsePublicHeader PerspectiveServer (dl_version c) (raw_data (negotiation_raw 99 [38]%Z)) = Ok (hdr, rest) ∧
     acceptable c (negotiation_raw 99 [38]%Z) hdr).
Proof.
  destruct sample_dialed as (c & x & addr & Hd & _ & _ & Hid & _). exists c. split; [exact Hd|].
  assert (client_handlePacket sample_newClientSession (Ok 78%Z) (negotiation_raw 99 [38]%Z) c = Some c) as H.
  { destruct (negotiation_packet_read 99 [38]%Z (dl_version c)) as (bs & Hbs & Hr); [lia|repeat constructor; by vm_compute|].
    unfold client_handlePacket, negotiation_raw. cbn [raw_data]. rewrite Hbs. cbn [default from_option id]. rewrite Hr.
    cbn [negotiation_header TruncateConnectionID ConnectionID negb andb]. by rewrite bool_decide_true by (rewrite Hid; discriminate). }
  split; [exact H|]. by apply (spoofed_packets_ignored sample_newClientSession (Ok 78%Z) (negotiation_raw 99 [38]%Z) c c).
Defined.

(** A dialer whose session gets a packet. *)
Lemma version_settled_witness : ∃ c0 c, sample_dial [39; 38]%Z = Some (Ok c0) ∧ dialer_run sample_newClientSession c0 c ∧
  dl_version c ∈ [39; 38]%Z ∧ settled c = false ∧ same_version c0 c.
Proof.
  destruct sample_dialed as (c0 & x & addr & Hd & Hx & _ & _ & _ & _ & H1 & H2). exists c0, (set_session c0 (Some (ph_Close PeerGoingAway x))).
  assert (dialer_run sample_newClientSession c0 (set_session c0 (Some (ph_Close PeerGoingAway x)))) as Hrun by by apply rtc_once, dst_error.
  destruct (version_settled sample_newClientSession (Ok 77%Z) (Some (versions_config [39; 38]%Z)) (sample_address x01 1)) as (r & Hr & H).
  unfold sample_dial in Hd. rewrite Hd in Hr. injection Hr as <-. destruct (H _ Hrun) as (Hv & _ & _ & Hs & _).
  assert (settled (set_session c0 (Some (ph_Close PeerGoingAway x))) = false) as Hset by (unfold settled; cbn; by rewrite H1, H2).
  split; [exact Hd|]. split; [exact Hrun|]. split; [exact Hv|]. split; [exact Hset|]. by apply Hs.
Defined.

(** The dialer offers version 39, and the listener speaks 38. *)
Lemma version_negotiated_witness : ∃ c x reply s1, sample_dial [39; 38]%Z = Some (Ok c) ∧
  let s := new_server (S := session fixedWindow) (Some (versions_config [38]%Z)) in
  server_handlePacket sample_newSession false (sample_offer 77 39) s = Some (s1, None) ∧
  ∀ raw1, raw_data raw1 = reply → ∃ y z s2,
    client_handlePacket sample_newClientSession (Ok 78%Z) raw1 c = Some (switched 78 38 x y c) ∧
    server_handlePacket sample_newSession false (sample_offer 78 38) s1 = Some (s2, None) ∧
    srv_sessions s2 !! 78%Z = Some (Some (ph_handlePacket (packet_of (sample_offer 78 38) (received_header (sample_first 78 38)) sample_payload) z)).
Proof.
  destruct sample_dialed as (c & x & addr & Hd & Hx & _ & Hid & Hver & Hcfg & H1 & H2). exists c, x.
  pose proof (version_negotiated sample_newSession sample_newClientSession (new_server (Some (versions_config [38]%Z))) c 78 x (sample_first 77 39)
    sample_payload (sample_offer 77 39)) as H. rewrite Hid, Hver, Hcfg in H.
  destruct H as (reply & s1 & Hsrv & _ & _ & H); try reflexivity.
  - unfold settled. by rewrite H1, H2.
  - exact Hx.
  - repeat constructor; by vm_compute.
  - apply sample_offer_first; lia.
  - apply (bool_decide_unpack _). vm_compute. exact I.
  - exists reply, s1. split; [exact Hd|]. split; [exact Hsrv|]. intros raw1 Hraw.
    destruct (H raw1 Hraw) as [(v & pre & post & Hv & Hin & _ & Hgo)|[Hno _]].
    2: { exfalso. by apply (Hno 38%Z); apply (bool_decide_unpack _). }
    cbn in Hin. apply list_elem_of_singleton in Hin as ->.
    assert (∃ y, sample_newClientSession (raw_remoteAddr raw1) 38 78 [38]%Z = Ok y) as [y Hy] by (eexists; reflexivity).
    destruct (Hgo y Hy) as [Hc Hgo2].
    assert (∃ z, sample_newSession (raw_rcvPconn (sample_offer 78 38)) (raw_remoteAddr (sample_offer 78 38)) 38 78 = Ok z) as [z Hz]
      by (eexists; reflexivity).
    destruct (Hgo2 false (sample_first 78 38) sample_payload (sample_offer 78 38) z) as (s2 & Hs2 & Hsess); try reflexivity; [by apply sample_offer_first|exact Hz|].
    exists y, z, s2. split; [exact Hc|]. split; [exact Hs2|exact Hsess].
Defined.

(** The session in the negotiated version cannot be made. *)
Lemma dialer_panics_witness : ∃ c, sample_dial [39; 38]%Z = Some (Ok c) ∧
  client_handlePacket failing_newClientSession (Ok 78%Z) (negotiation_raw 77 [38]%Z) c = None.
Proof.
  destruct sample_dialed as (c & x & addr & Hd & Hx & Ha & Hid & Hver & Hcfg & H1 & H2). exists c. split; [exact Hd|].
  apply (dialer_panics failing_newClientSession (Ok 78%Z) (negotiation_raw 77 [38]%Z) c x Hx (ex_intro _ addr Ha)).
  destruct (negotiation_packet_read 77 [38]%Z (dl_version c)) as (bs & Hbs & Hr); [lia|repeat constructor; by vm_compute|].
  exists (negotiation_header 77 [38]%Z), [], 78%Z, (SeCrypto 1). unfold negotiation_raw. cbn [raw_data]. rewrite Hbs, Hcfg. split; [exact Hr|].
  split; [|by repeat split]. split; [by rewrite Hid|discriminate|]. intros _ _. split; [done|]. split; [done|]. rewrite Hver.
  apply (bool_decide_unpack _). vm_compute. exact I.
Defined.
