(* ===== verification/Float64.v ===== *)
(** Numbers of the player: float64 and the conversions of Go (src/godash, used by RateAdaptation.v and QoE.v).

    A float64 is an IEEE 754 number of 53 bits as the Standard Library specifies it, so that each
    operation rounds as the processor does.  Products are not fused with sums, which Go allows on
    some processors. *)

From Stdlib Require Import ZArith Lia SpecFloat.
From stdpp Require Import prelude numbers list.
From S2P Require Import Prelude.

Open Scope Z_scope.

Definition float64 : Type := spec_float.
Definition fadd : float64 → float64 → float64 := SFadd 53 1024.
Definition fsub : float64 → float64 → float64 := SFsub 53 1024.
Definition fmul : float64 → float64 → float64 := SFmul 53 1024.
Definition fdiv : float64 → float64 → float64 := SFdiv 53 1024.
Definition fsqrt : float64 → float64 := SFsqrt 53 1024.
Definition flt : float64 → float64 → bool := SFltb.
Definition fle : float64 → float64 → bool := SFleb.
Definition feq : float64 → float64 → bool := SFeqb.

Declare Scope float_scope.
Delimit Scope float_scope with F.
Infix "+" := fadd : float_scope.
Infix "-" := fsub : float_scope.
Infix "*" := fmul : float_scope.
Infix "/" := fdiv : float_scope.
Infix "<?" := flt : float_scope.
Infix "<=?" := fle : float_scope.

(** [float64(z)] rounds to the nearest; so does the literal [n/d], as the quotient of two numbers that are exact. *)
Definition of_int (z : Z) : float64 := binary_normalize 53 1024 z 0 false.
Definition literal (n d : Z) : float64 := fdiv (of_int n) (of_int d).

(** The integer part of a number that has one. *)
Definition ftrunc (x : float64) : option Z :=
  match x with
  | S754_zero _ => Some 0
  | S754_finite s m e => Some (cond_Zopp s (if decide (0 ≤ e) then Zpos m * 2 ^ e else Zpos m / 2 ^ (- e)))
  | _ => None
  end.
(** [int(x)]; [other] is what the processor makes of a number that does not fit. *)
Definition to_int (other : float64 → Z) (x : float64) : Z :=
  match ftrunc x with
  | Some z => if decide (- 2 ^ 63 ≤ z < 2 ^ 63) then z else other x
  | None => other x
  end.

(** [math.Ceil] and [math.Abs]. *)
Definition fceil (x : float64) : float64 :=
  match x with
  | S754_finite s m e =>
      if decide (0 ≤ e) then x
      else
        let z := - ((- cond_Zopp s (Zpos m)) / 2 ^ (- e)) in
        if decide (z = 0) then S754_zero s else of_int z
  | _ => x
  end.
Definition fabs : float64 → float64 := SFabs.

(** Indexing with an [int]: [None] panics. *)
Definition at_index {A} (l : list A) (i : Z) : option A := if decide (0 ≤ i) then l !! Z.to_nat i else None.

Close Scope Z_scope.

Lemma at_index_in {A} (l : list A) i : (0 ≤ i < zlen l)%Z → is_Some (at_index l i).
Proof. intros Hi. unfold at_index. rewrite decide_True by lia. apply lookup_lt_is_Some. unfold zlen in Hi. lia. Qed.

(** A product with zero is zero, and zero taken away changes nothing. *)
Lemma fmul_zero s x : match x with S754_zero _ | S754_finite _ _ _ => ∃ t, fmul (S754_zero s) x = S754_zero t | _ => True end.
Proof. destruct x as [t|t| |t m e]; [by eexists|done|done|by eexists]. Qed.
Lemma fsub_zero s x : match x with S754_zero _ => True | _ => fsub x (S754_zero s) = x end.
Proof. by destruct x as [t|t| |t m e]. Qed.
