(* ===== verification/RateAdaptation.v ===== *)
(** Rate adaptation of the DASH player (src/godash/algorithms, utils/calcFunctions.go).

    An algorithm takes the throughput of the last segment and chooses the representation of the next
    one, an index into the list of bandwidths, which goes from the highest to the lowest.  [math.Pow]
    and [math.Exp], what the processor makes of [int(x)] for a number that does not fit, and the sizes
    of segments, which are asked for over HTTP, are arguments.  [None] is a panic. *)

From Stdlib Require Import ZArith Lia SpecFloat.
From stdpp Require Import prelude numbers list gmap sorting.
From S2P Require Import Prelude Float64.

Open Scope Z_scope.

Definition Conversion1000 : Z := 1000.
Definition Max (x y : Z) : Z := if decide (x < y) then y else x.
Definition Min (x y : Z) : Z := if decide (x > y) then y else x.
Definition Abs (x : Z) : Z := if decide (x < 0) then i64 (- x) else x.
Definition MaxFloat (x y : float64) : float64 := if (x <? y)%F then y else x.
Definition FloatMin (a b : float64) : float64 := if (a <? b)%F then a else b.

(** Integer division panics at zero. *)
Definition quot_int (a b : Z) : option Z := if decide (b = 0) then None else Some (i64 (Z.quot a b)).

(** * Choosing a representation for a throughput *)

(** [n] is the length of the list, [i] the index of the head of [l]; the loop leaves out the last one,
    so that its second test never holds. *)
Fixpoint select_loop (n thr i : Z) (l : list Z) (repRate : Z) : Z :=
  match l with
  | b :: ((_ :: _) as l) =>
      if decide (b < thr) then i
      else select_loop n thr (i + 1) l (if decide (i = n - 1) then n - 1 else repRate)
  | _ => repRate
  end.
Definition SelectRepRateWithThroughtput (thr : Z) (bandwithList : list Z) (lowestMPDrepRateIndex : Z) : Z :=
  select_loop (zlen bandwithList) thr 0 bandwithList lowestMPDrepRateIndex.

Definition LowestBitrate (thrList : list Z) : option float64 :=
  lowest ← last thrList;
  Some (of_int (foldl (λ lowest t, if decide (t < lowest) then t else lowest) lowest thrList)).
Definition HighestBitrate (thrList : list Z) : option float64 :=
  highest ← head thrList;
  Some (of_int (foldl (λ highest t, if decide (t > highest) then t else highest) highest thrList)).

Section algorithms.
Context (other : float64 → Z) (Pow : float64 → float64 → float64) (Exp : float64 → float64).

Definition CalculateThroughtput (segmentSize time : Z) : Z := to_int other (of_int segmentSize / (of_int time / of_int Conversion1000))%F.

(** * Averages *)

Definition meanAverage (thrList : list Z) : float64 :=
  (foldl (λ average t, average + of_int t)%F (of_int 0) thrList / of_int (zlen thrList))%F.
Definition geomAverage (thrList : list Z) : float64 :=
  Pow (foldl (λ average t, average * of_int t)%F (of_int 1) thrList) (of_int 1 / of_int (zlen thrList))%F.
(** The last [num] of them; the slice panics for a negative [num]. *)
Definition harmonicAverage (num : Z) (thrList : list Z) : option float64 :=
  thrList ← (if decide (zlen thrList < num) then Some thrList
             else if decide (0 ≤ num) then Some (drop (length thrList - Z.to_nat num) thrList) else None);
  Some (of_int (zlen thrList) / foldl (λ average t, average + of_int 1 / of_int t)%F (of_int 0) thrList)%F.

(** The last [window] of them, the newest first; all of them for a negative [window]. *)
Definition last_samples (window : Z) (thrList : list Z) : list Z :=
  if decide (0 ≤ window) then take (Z.to_nat window) (reverse thrList) else reverse thrList.
(** The terms of the average; [i] is the index of the head. *)
Fixpoint weighted (ratio weightSum : float64) (n i : Z) (l : list Z) (average : float64) : float64 :=
  match l with
  | [] => average
  | t :: l =>
      let thisWeight := (ratio * Pow (of_int 1 - ratio) (of_int (n - 1 - i)) / weightSum)%F in
      weighted ratio weightSum n (i + 1) l (average + thisWeight * of_int t)%F
  end.
Definition ExpAverage (thrList : list Z) (ratio : float64) (window : Z) : float64 :=
  let lastThrList := last_samples window thrList in
  let n := zlen lastThrList in
  weighted ratio (of_int 1 - Pow (of_int 1 - ratio) (of_int n))%F n 0 lastThrList (of_int 0).

(** * Algorithms that follow the throughput *)

(** They return the list of throughputs and the index. *)
Definition by_average (average : list Z → float64) (thrList : list Z) (newThr : Z) (bandwithList : list Z) (lowest : Z) : list Z * Z :=
  let thrList := thrList ++ [newThr] in
  if decide (zlen thrList < 2) then (thrList, SelectRepRateWithThroughtput newThr bandwithList lowest)
  else (thrList, SelectRepRateWithThroughtput (to_int other (average thrList)) bandwithList lowest).
Definition MeanAverageAlgo : list Z → Z → list Z → Z → list Z * Z := by_average meanAverage.
Definition GeomAverageAlgo : list Z → Z → list Z → Z → list Z * Z := by_average geomAverage.
Definition EMWAAverageAlgo (exponentialRatio : float64) (window : Z) : list Z → Z → list Z → Z → list Z * Z :=
  by_average (λ l, ExpAverage l exponentialRatio window).

(** [thr] is the variable of the package, -1 before the first segment. *)
Definition Conventional (thr : Z) (thrList : list Z) (newThr : Z) (bandwithList : list Z) (lowest : Z) : Z * list Z * Z :=
  let thr := if decide (thr = -1) then newThr else i64 (i64 (Z.quot (i64 (8 * thr)) 10) + Z.quot (i64 (2 * newThr)) 10) in
  (thr, thrList ++ [thr], SelectRepRateWithThroughtput thr bandwithList lowest).

Definition ElasticAlgo (thrList : list Z) (newThr delTime maxBuffer : Z) (bandwithList : list Z) (staticAlgParameter : float64)
    (bufferLevel : Z) (kP kI : float64) (lowest : Z) : option (list Z * float64 * Z) :=
  let thrList := thrList ++ [newThr] in
  averageRateEstimate ← harmonicAverage 5 thrList;
  let k := of_int Conversion1000 in
  let staticAlgParameter := (staticAlgParameter + of_int delTime / k * (of_int bufferLevel / k - of_int maxBuffer))%F in
  let targetRate :=
    (averageRateEstimate / (of_int 1 - kP * of_int (Z.quot bufferLevel Conversion1000) - kI * staticAlgParameter))%F in
  Some (thrList, staticAlgParameter, SelectRepRateWithThroughtput (to_int other targetRate) bandwithList lowest).

(** * Algorithms that follow the buffer *)

(** The end of [LogisticFunction] and of [bba1VRAA]. *)
Definition limit_index (optRateIndex lastRateIndex highest lowest : Z) : Z :=
  let rateUindex := Max (lastRateIndex - 1) highest in
  let rateLindex := Min (lastRateIndex + 1) lowest in
  if decide (optRateIndex = 0) then
    if decide (lastRateIndex ≤ lowest) then lowest else lastRateIndex - 1
  else if decide (optRateIndex ≤ rateLindex) then optRateIndex
  else if decide (rateUindex ≤ optRateIndex) then optRateIndex - 1
  else optRateIndex.

(** The throughput for a buffer level. *)
Definition logistic_target (bufferLevel : Z) (low high : float64) : Z :=
  let low := (low / of_int 1024)%F in
  let high := (high / of_int 1024)%F in
  let targetRate := fceil (high / (of_int 1 + (high / low - of_int 1) * Exp (literal (-5) 100 * of_int bufferLevel / of_int 1000)))%F in
  to_int other ((targetRate + of_int 1) * of_int 1000)%F.
Definition LogisticFunction (lastRateIndex bufferLevel highest lowest maxBufferLevel : Z) (bandwithList : list Z) : option Z :=
  optRateIndex ←
    (if (literal 97 100 * of_int maxBufferLevel <=? of_int (Z.quot bufferLevel 1000))%F then Some 0
     else
       low ← LowestBitrate bandwithList;
       high ← HighestBitrate bandwithList;
       Some (SelectRepRateWithThroughtput (logistic_target bufferLevel low high) bandwithList lowest));
  Some (limit_index optRateIndex lastRateIndex highest lowest).
Definition calculateSelectedIndex (bandwithList : list Z) (bufferLevel repRate highest lowest maxBufferLevel : Z) : option Z :=
  LogisticFunction repRate bufferLevel highest lowest maxBufferLevel bandwithList.
Definition Logistic (thrList : list Z) (newThr repRate : Z) (bandwithList : list Z) (bufferLevel highest lowest maxBufferLevel : Z) :
    option (list Z * Z) :=
  repRate ← calculateSelectedIndex bandwithList bufferLevel repRate highest lowest maxBufferLevel;
  Some (thrList ++ [newThr], repRate).

(** ** BBA-2 *)

Definition bba_target (maxBufferLevel reservoir : Z) (low high : float64) : Z :=
  let low := (low / of_int 1024)%F in
  let high := (high / of_int 1024)%F in
  let targetRate := ((high - low) / (literal 9 10 * of_int maxBufferLevel - of_int reservoir))%F in
  to_int other ((targetRate + of_int 1) * of_int 1000)%F.
Definition bba1VRAA (lastRateIndex highest lowest maxBufferLevel bufferLevel : Z) (bandwithList : list Z) (reservoir : Z) : option Z :=
  optRateIndex ←
    (if (literal 9 10 * of_int maxBufferLevel <=? of_int (Z.quot bufferLevel 1000))%F then Some 0
     else
       low ← LowestBitrate bandwithList;
       high ← HighestBitrate bandwithList;
       Some (SelectRepRateWithThroughtput (bba_target maxBufferLevel reservoir low high) bandwithList lowest));
  Some (limit_index optRateIndex lastRateIndex highest lowest).

(** [contentLength r n] is the size of segment [n] of representation [r]. *)
Context (contentLength : Z → Z → Z).

(** The sizes of the large segments and of the others; [n] is how many are left. *)
Fixpoint segment_sizes (n : nat) (rate segment avgSegSize : Z) (sums : Z * Z) : Z * Z :=
  match n with
  | O => sums
  | S n =>
      let size := contentLength rate segment in
      let '(largeSeg, smallSeg) := sums in
      segment_sizes n rate (segment + 1) avgSegSize
        (if decide (size > avgSegSize) then (i64 (largeSeg + size), smallSeg) else (largeSeg, i64 (smallSeg + size)))
  end.
Definition bba1UpdateReservoir (lastRate lastRateIndex mpdDuration lastSegmentDuration maxBufferLevel segmentNumber : Z)
    (bandwithList : list Z) : option Z :=
  a ← quot_int (i64 (i64 (2 * maxBufferLevel) * 1000)) lastSegmentDuration;
  b ← quot_int mpdDuration lastSegmentDuration;
  let resvWin := Min a (i64 (b - lastRateIndex)) in
  bandwidth ← at_index bandwithList lastRate;
  let rate := Z.quot bandwidth Conversion1000 in
  let avgSegSize := Z.quot (i64 (rate * lastSegmentDuration)) 8000 in
  let '(largeSeg, smallSeg) := segment_sizes (Z.to_nat resvWin) lastRate segmentNumber avgSegSize (0, 0) in
  let reservoir := (of_int 8 * of_int (i64 (largeSeg - smallSeg)) / of_int rate)%F in
  let most := (literal 6 10 * of_int (i64 (maxBufferLevel * 1000)))%F in
  let reservoir :=
    if (reservoir <? of_int (i64 (2 * lastSegmentDuration)))%F then (of_int 2 * of_int lastSegmentDuration)%F
    else if (most <? reservoir)%F then most else reservoir in
  Some (to_int other reservoir).

(** [mStaticAlgPar] is 0 again at every call, and what is assigned to it at the end is lost. *)
Definition CalculateSelectedIndexBba (newThr lastDuration lastIndex maxBufferLevel lastRate : Z) (thrList : list Z)
    (mpdDuration segmentNumber downloadTime bufferLevel highest lowest : Z) (bandwithList : list Z) : option (list Z * Z) :=
  let thrList := thrList ++ [newThr] in
  let lowestBitrateIndex := zlen bandwithList - 1 in
  reservoir ← bba1UpdateReservoir lastRate lastIndex mpdDuration lastDuration maxBufferLevel segmentNumber bandwithList;
  let mStaticAlgPar := if decide (downloadTime > lastDuration) then 1 else 0 in
  retVal ←
    (if decide (bufferLevel < reservoir) then
       if decide (mStaticAlgPar ≠ 0) then Some lowestBitrateIndex
       else if (of_int downloadTime <? literal 125 1000 * of_int lastDuration)%F then Some (Max (lastRate - 1) 0)
       else Some lastRate
     else
       bba1RateIndex ← bba1VRAA lastRate highest lowest maxBufferLevel bufferLevel bandwithList reservoir;
       if decide (mStaticAlgPar ≠ 0) then Some bba1RateIndex
       else
         let lowestBitrateIndex :=
           if (of_int downloadTime <=? literal 5 10 * of_int lastDuration)%F then Max (lastRate - 1) 0 else lowestBitrateIndex in
         Some (Min bba1RateIndex lowestBitrateIndex));
  Some (thrList, retVal).

(** ** Arbiter+ *)

Definition DEFAULT_EXPONENT : float64 := literal 4 10.
Definition DEFAULT_MIN_BUFFER_FACTOR : float64 := literal 75 100.
Definition DEFAULT_MAX_BUFFER_FACTOR : float64 := literal 115 100.
Definition DEFAULT_HISTORIC_ESTIMATION_WINDOW : Z := 10.
Definition DEFAULT_MAXIMUM_SWITCH : Z := 2.
Definition DEFAULT_PREDICTIVE_ESTIMATION_WINDOW : Z := 5.

(** [http.SegHeadValues], the sizes that were loaded from a file: by adaptation set, representation and segment. *)
Definition SegHeadValues : Type := option (gmap Z (gmap Z (list Z))).

(** The sizes of the segments of the window, in bits; [n] is how many are left. *)
Fixpoint window_bits (size : Z → option Z) (n : nat) (segment total : Z) : option Z :=
  match n with
  | O => Some total
  | S n => s ← size segment; window_bits size n (segment + 1) (i64 (total + i64 (8 * s)))
  end.
Definition fits_rate (videoWindow lastDuration : Z) (estRate : float64) (totSegSize : Z) : bool :=
  (of_int totSegSize / (of_int lastDuration / of_int 1000 * of_int videoWindow) <=? estRate)%F.
Definition SmartConvHelper (qIndex videoWindow : Z) (estRate : float64) (segmentNumber lastDuration : Z) : option bool :=
  total ← window_bits (λ n, Some (contentLength qIndex n)) (Z.to_nat videoWindow) segmentNumber 0;
  Some (fits_rate videoWindow lastDuration estRate total).
Definition SmartConvHelperFromFile (heads : gmap Z (gmap Z (list Z))) (videoWindow : Z) (estRate : float64)
    (qRate segmentNumber lastDuration : Z) : option bool :=
  total ← window_bits (λ n, at_index (default [] (default ∅ (heads !! 0) !! qRate)) n) (Z.to_nat videoWindow) segmentNumber 0;
  Some (fits_rate videoWindow lastDuration estRate total).

(** The loop that lowers the quality until the next segments fit; [fuel] is how many steps are left. *)
Fixpoint lower_quality (fits : Z → option bool) (lowest : Z) (fuel : nat) (targetIndex : Z) : option Z :=
  match fuel with
  | O => Some targetIndex
  | S fuel =>
      if decide (targetIndex < lowest) then
        ok ← fits targetIndex;
        if (ok : bool) then Some targetIndex else lower_quality fits lowest fuel (targetIndex + 1)
      else Some targetIndex
  end.

(** The rate aimed at. *)
Definition arbiter_rate (thrList : list Z) (bufferLevel maxBufferLevel : Z) : float64 :=
  let bufferFullness := FloatMin (of_int 1) (of_int bufferLevel / of_int (i64 (maxBufferLevel * 1000)))%F in
  let bufferingFactor :=
    (DEFAULT_MIN_BUFFER_FACTOR + (DEFAULT_MAX_BUFFER_FACTOR - DEFAULT_MIN_BUFFER_FACTOR) * bufferFullness)%F in
  (ExpAverage thrList DEFAULT_EXPONENT DEFAULT_HISTORIC_ESTIMATION_WINDOW * bufferingFactor)%F.

(** The part for [switchingControl], which is always set. *)
Definition switching (lastRate targetIndex : Z) (targetRate : float64) (bandwithList : list Z) : option Z :=
  near ← (if decide (lastRate - targetIndex = 1) then
            b ← at_index bandwithList targetIndex;
            Some (targetRate <? (literal 1065 1000 - of_int (zlen bandwithList - targetIndex) * literal 15 1000) *
                                of_int (Z.quot b Conversion1000))%F
          else Some false);
  Some (if (near : bool) then targetIndex + 1
        else if decide (lastRate - targetIndex > DEFAULT_MAXIMUM_SWITCH) then Max (lastRate - DEFAULT_MAXIMUM_SWITCH) 0
        else targetIndex).

Definition arbiter_fits (heads : SegHeadValues) (videoWindow : Z) (targetRate : float64) (segmentNumber lastDuration targetIndex : Z) :
    option bool :=
  match heads with
  | None => SmartConvHelper targetIndex videoWindow targetRate segmentNumber lastDuration
  | Some heads => SmartConvHelperFromFile heads videoWindow targetRate targetIndex (segmentNumber - 1) lastDuration
  end.
Definition CalculateSelectedIndexArbiter (heads : SegHeadValues) (newThr lastDuration lastIndex maxBufferLevel lastRate : Z)
    (thrList : list Z) (mpdDuration segmentNumber bufferLevel lowest : Z) (bandwithList : list Z) : option (list Z * Z) :=
  let thrList := thrList ++ [newThr] in
  let targetRate := arbiter_rate thrList bufferLevel maxBufferLevel in
  targetIndex ← switching lastRate (SelectRepRateWithThroughtput (to_int other targetRate) bandwithList lowest) targetRate bandwithList;
  videoChunks ← quot_int mpdDuration lastDuration;
  let videoWindow := Min (i64 (videoChunks - lastIndex)) DEFAULT_PREDICTIVE_ESTIMATION_WINDOW in
  targetIndex ← lower_quality (arbiter_fits heads videoWindow targetRate segmentNumber lastDuration) lowest
                  (Z.to_nat (lowest - targetIndex)) targetIndex;
  Some (thrList, targetIndex).
End algorithms.

Close Scope Z_scope.

(** * The representation for a throughput *)

Lemma at_index_shift {A} (x : A) l i : (0 < i)%Z → at_index (x :: l) i = at_index l (i - 1).
Proof. intros Hi. unfold at_index. rewrite !decide_True by lia. by replace (Z.to_nat i) with (S (Z.to_nat (i - 1))) by lia. Qed.

Lemma select_loop_cons n thr i b b' l repRate :
  select_loop n thr i (b :: b' :: l) repRate =
    if decide (b < thr)%Z then i else select_loop n thr (i + 1) (b' :: l) (if decide (i = n - 1)%Z then (n - 1)%Z else repRate).
Proof. done. Qed.
Lemma select_loop_spec n thr i l repRate :
  (i + zlen l = n)%Z →
  let r := select_loop n thr i l repRate in
  ((i ≤ r < n - 1)%Z ∧ (∃ b, at_index l (r - i) = Some b ∧ (b < thr)%Z) ∧
     ∀ j c, (0 ≤ j < r - i)%Z → at_index l j = Some c → (thr ≤ c)%Z) ∨
  (r = repRate ∧ ∀ j c, (0 ≤ j < zlen l - 1)%Z → at_index l j = Some c → (thr ≤ c)%Z).
Proof.
  revert i repRate. induction l as [|b l IH]; intros i repRate Hn; cbn zeta; [right; split; [done|]; unfold zlen; cbn; intros; lia|].
  rewrite zlen_cons in *. destruct l as [|b' l]; [right; split; [done|]; cbn; unfold zlen; cbn; lia|].
  rewrite select_loop_cons. pose proof (zlen_nonneg l) as Hz. rewrite zlen_cons in *. destruct (decide (b < thr)%Z) as [Hb|Hb].
  - left. split; [lia|]. split; [|intros; lia]. exists b. by rewrite Z.sub_diag.
  - rewrite decide_False by lia.
    destruct (IH (i + 1)%Z repRate ltac:(lia)) as [(H1 & (c & H2 & H3) & H4)|[H1 H2]].
    + left. split; [lia|]. split.
      * exists c. split; [|done]. rewrite at_index_shift by lia. by replace (select_loop n thr (i + 1) (b' :: l) repRate - i - 1)%Z with
          (select_loop n thr (i + 1) (b' :: l) repRate - (i + 1))%Z by lia.
      * intros j d Hj Hd. destruct (decide (j = 0)%Z) as [->|Hj0]; [injection Hd as <-; lia|].
        rewrite at_index_shift in Hd by lia. apply (H4 (j - 1)%Z); [lia|done].
    + right. split; [done|]. intros j d Hj Hd. destruct (decide (j = 0)%Z) as [->|Hj0]; [injection Hd as <-; lia|].
      rewrite at_index_shift in Hd by lia. apply (H2 (j - 1)%Z); [lia|done].
Qed.

Lemma select_cases thr bws lowest :
  let r := SelectRepRateWithThroughtput thr bws lowest in
  ((0 ≤ r < zlen bws - 1)%Z ∧ (∃ b, at_index bws r = Some b ∧ (b < thr)%Z) ∧
     ∀ j c, (0 ≤ j < r)%Z → at_index bws j = Some c → (thr ≤ c)%Z) ∨
  (r = lowest ∧ ∀ j c, (0 ≤ j < zlen bws - 1)%Z → at_index bws j = Some c → (thr ≤ c)%Z).
Proof.
  pose proof (select_loop_spec (zlen bws) thr 0 bws lowest ltac:(lia)) as H. cbn zeta in *. rewrite Z.sub_0_r in H. exact H.
Qed.
Lemma select_range thr bws lowest :
  (0 ≤ lowest)%Z → (zlen bws ≤ lowest + 1)%Z → (0 ≤ SelectRepRateWithThroughtput thr bws lowest ≤ lowest)%Z.
Proof. intros H0 Hl. destruct (select_cases thr bws lowest) as [(H & _)|[H _]]; cbn zeta in *; lia. Qed.
Lemma select_monotone thr thr' bws lowest :
  (thr ≤ thr')%Z → (zlen bws ≤ lowest + 1)%Z → (SelectRepRateWithThroughtput thr' bws lowest ≤ SelectRepRateWithThroughtput thr bws lowest)%Z.
Proof.
  intros Ht Hl. destruct (select_cases thr bws lowest) as [(Hr & (b & Hb & Hlt) & Hbest)|[Hr Hall]], (select_cases thr' bws lowest)
    as [(Hr' & (b' & Hb' & Hlt') & Hbest')|[Hr' Hall']]; cbn zeta in *; try lia.
  - destruct (decide (SelectRepRateWithThroughtput thr bws lowest < SelectRepRateWithThroughtput thr' bws lowest)%Z) as [Hc|Hc]; [|lia].
    pose proof (Hbest' (SelectRepRateWithThroughtput thr bws lowest) b ltac:(lia) Hb). lia.
  - pose proof (Hall' (SelectRepRateWithThroughtput thr bws lowest) b Hr Hb). lia.
Qed.

Lemma falling_lookup (l : list Z) i j b c : StronglySorted Z.ge l → i < j → l !! i = Some b → l !! j = Some c → (c ≤ b)%Z.
Proof.
  intros Hs. revert i j. induction Hs as [|a l Hs IH Ha]; intros i j Hij Hi Hj; [done|]. destruct j as [|j]; [lia|]. cbn in Hj.
  destruct i as [|i]; [|apply (IH i j); [lia|done|done]]. injection Hi as <-. rewrite Forall_lookup in Ha. specialize (Ha j c Hj). lia.
Qed.

(** of a list that falls from the highest bandwidth to the lowest, the representation that is selected for a throughput has
    the highest bandwidth below it, or is the last one when there is none; and a higher throughput never selects a lower one. *)
Theorem selected_rate thr thr' bws lowest :
  StronglySorted Z.ge bws → (lowest + 1 = zlen bws)%Z → (0 ≤ lowest)%Z → (thr ≤ thr')%Z →
  let r := SelectRepRateWithThroughtput thr bws lowest in
  (∃ b, at_index bws r = Some b ∧ (b < thr ∨ r = lowest)%Z ∧ ∀ c, c ∈ bws → (c < thr)%Z → (c ≤ b)%Z) ∧
  (SelectRepRateWithThroughtput thr' bws lowest ≤ r)%Z.
Proof.
  intros Hs Hl H0 Ht r. split; [|apply select_monotone; lia].
  pose proof (select_range thr bws lowest H0 ltac:(lia)) as Hrange. fold r in Hrange.
  destruct (at_index_in bws r ltac:(lia)) as [b Hb]. exists b. split; [done|].
  assert (∀ j c, (0 ≤ j < r)%Z → at_index bws j = Some c → (thr ≤ c)%Z) as Hbefore.
  { destruct (select_cases thr bws lowest) as [(_ & _ & H)|[H Hall]]; cbn zeta in *; [exact H|]. intros j c Hj. apply Hall. fold r in H. lia. }
  split.
  - destruct (select_cases thr bws lowest) as [(_ & (b' & Hb' & Hlt) & _)|[H _]]; cbn zeta in *; [|by right].
    fold r in Hb'. rewrite Hb in Hb'. injection Hb' as <-. by left.
  - intros c [j Hj]%list_elem_of_lookup Hc. destruct (decide (Z.of_nat j < r)%Z) as [Hlt|Hge].
    { pose proof (Hbefore (Z.of_nat j) c ltac:(lia)) as H. unfold at_index in H. rewrite decide_True, Nat2Z.id in H by lia. specialize (H Hj). lia. }
    unfold at_index in Hb. rewrite decide_True in Hb by lia. destruct (decide (Z.to_nat r = j)) as [<-|Hne]; [rewrite Hj in Hb; injection Hb as <-; lia|].
    apply (falling_lookup bws (Z.to_nat r) j); [done|lia|done|done].
Qed.

(** * Indices stay in range *)

Lemma limit_range opt lastIndex highest lowest :
  (0 ≤ opt ≤ lowest)%Z → (0 ≤ lastIndex ≤ lowest)%Z →
  (0 ≤ limit_index opt lastIndex highest lowest ≤ lowest)%Z ∧
  ((0 < lowest)%Z → (1 ≤ limit_index opt lastIndex highest lowest)%Z) ∧ (opt = 0%Z → limit_index opt lastIndex highest lowest = lowest).
Proof.
  intros Ho Hl. unfold limit_index, Min, Max. cbv zeta. repeat case_decide; lia.
Qed.

Section choices.
Context (other : float64 → Z) (Pow : float64 → float64 → float64) (Exp : float64 → float64) (contentLength : Z → Z → Z).

Lemma highest_lowest bws : bws ≠ [] → is_Some (LowestBitrate bws) ∧ is_Some (HighestBitrate bws).
Proof using Type.
  intros Hn. unfold LowestBitrate, HighestBitrate. split; [|destruct bws; [done|by eexists]].
  destruct (last bws) eqn:E; [by eexists|by apply last_None in E].
Qed.
Lemma limit_bind (full : bool) bws f lastIndex highest lowest :
  (0 < zlen bws ≤ lowest + 1)%Z → (0 ≤ lastIndex ≤ lowest)%Z →
  ∃ r, (optRateIndex ← (if full then Some 0%Z else low ← LowestBitrate bws; high ← HighestBitrate bws;
          Some (SelectRepRateWithThroughtput (f low high) bws lowest));
        Some (limit_index optRateIndex lastIndex highest lowest)) = Some r ∧
    (0 ≤ r ≤ lowest)%Z ∧ ((0 < lowest)%Z → (1 ≤ r)%Z) ∧ (full = true → r = lowest).
Proof using Type.
  intros Hb Hl. destruct full.
  - eexists. split; [reflexivity|]. destruct (limit_range 0 lastIndex highest lowest) as (H1 & H2 & H3); [lia..|]. rewrite H3 by done. repeat split; lia.
  - assert (bws ≠ []) as Hne by (intros ->; unfold zlen in Hb; cbn in Hb; lia). destruct (highest_lowest bws Hne) as [[low ->] [high ->]]. cbn [mbind option_bind].
    eexists. split; [reflexivity|].
    destruct (limit_range (SelectRepRateWithThroughtput (f low high) bws lowest) lastIndex highest lowest) as (H1 & H2 & H3); [by apply select_range; lia|lia|].
    repeat split; [lia..|exact H2|discriminate].
Qed.

Lemma logistic_full thrList newThr repRate bws bufferLevel highest lowest maxBufferLevel :
  (zlen bws = lowest + 1)%Z → (0 ≤ lowest)%Z → (0 ≤ repRate ≤ lowest)%Z →
  ∃ r, Logistic other Exp thrList newThr repRate bws bufferLevel highest lowest maxBufferLevel = Some (thrList ++ [newThr], r) ∧
    (0 ≤ r ≤ lowest)%Z ∧ ((0 < lowest)%Z → (1 ≤ r)%Z) ∧
    ((literal 97 100 * of_int maxBufferLevel <=? of_int (Z.quot bufferLevel 1000))%F = true → r = lowest).
Proof using Type.
  intros Hb H0 Hr. unfold Logistic, calculateSelectedIndex, LogisticFunction.
  match goal with |- context [if ?b then Some 0%Z else _] => set (full := b) end.
  destruct (limit_bind full bws (logistic_target other Exp bufferLevel) repRate highest lowest) as (r & -> & H1 & H2 & H3); [lia|done|].
  exists r. by repeat split; try apply H1.
Qed.

Lemma logistic_range thrList newThr repRate bws bufferLevel highest lowest maxBufferLevel :
  (zlen bws = lowest + 1)%Z → (0 ≤ repRate ≤ lowest)%Z →
  ∃ r, Logistic other Exp thrList newThr repRate bws bufferLevel highest lowest maxBufferLevel = Some (thrList ++ [newThr], r) ∧ (0 ≤ r ≤ lowest)%Z.
Proof using Type.
  intros Hb Hr. destruct (logistic_full thrList newThr repRate bws bufferLevel highest lowest maxBufferLevel Hb ltac:(lia) Hr) as (r & H1 & H2 & _). by exists r.
Qed.

(** the logistic algorithm returns an index of the list, but never the first one, of the highest bandwidth; with a buffer that is full to
    97% it returns the last one, of the lowest bandwidth, whatever the throughput. *)
Theorem logistic_avoids_best thrList newThr repRate bws bufferLevel highest lowest maxBufferLevel :
  (zlen bws = lowest + 1)%Z → (0 < lowest)%Z → (0 ≤ repRate ≤ lowest)%Z →
  ∃ r, Logistic other Exp thrList newThr repRate bws bufferLevel highest lowest maxBufferLevel = Some (thrList ++ [newThr], r) ∧
    (1 ≤ r ≤ lowest)%Z ∧
    ((literal 97 100 * of_int maxBufferLevel <=? of_int (Z.quot bufferLevel 1000))%F = true → r = lowest).
Proof using Type.
  intros Hb H0 Hr. destruct (logistic_full thrList newThr repRate bws bufferLevel highest lowest maxBufferLevel Hb ltac:(lia) Hr) as (r & H1 & H2 & H3 & H4).
  exists r. split; [done|]. specialize (H3 H0). split; [lia|done].
Qed.

Lemma bba_VRAA_range repRate highest lowest maxBufferLevel bufferLevel bws reservoir :
  (zlen bws = lowest + 1)%Z → (0 ≤ repRate ≤ lowest)%Z →
  ∃ r, bba1VRAA other repRate highest lowest maxBufferLevel bufferLevel bws reservoir = Some r ∧ (0 ≤ r ≤ lowest)%Z.
Proof using Type.
  intros Hb Hr. unfold bba1VRAA. match goal with |- context [if ?b then Some 0%Z else _] => set (full := b) end.
  destruct (limit_bind full bws (bba_target other maxBufferLevel reservoir) repRate highest lowest) as (r & -> & H1 & _); [lia|done|]. by exists r.
Qed.
Lemma bba_range newThr lastDuration lastIndex maxBufferLevel repRate thrList mpdDuration segment downloadTime bufferLevel highest lowest bws :
  (zlen bws = lowest + 1)%Z → (0 ≤ repRate ≤ lowest)%Z → lastDuration ≠ 0%Z →
  ∃ r, CalculateSelectedIndexBba other contentLength newThr lastDuration lastIndex maxBufferLevel repRate thrList mpdDuration segment
         downloadTime bufferLevel highest lowest bws = Some (thrList ++ [newThr], r) ∧ (0 ≤ r ≤ lowest)%Z.
Proof using Type.
  intros Hb Hr Hd. unfold CalculateSelectedIndexBba, bba1UpdateReservoir, quot_int. destruct (decide (lastDuration = 0)%Z) as [|_]; [done|]. cbn [mbind option_bind].
  destruct (at_index_in bws repRate ltac:(lia)) as [b ->]. cbn [mbind option_bind]. destruct (segment_sizes _ _ _ _ _ _) as [large small].
  cbv zeta. match goal with |- context [Some (to_int other ?x)] => generalize (to_int other x) as reservoir; intros reservoir end.
  generalize (if decide (downloadTime > lastDuration)%Z then 1%Z else 0%Z) as par. intros par.
  cbn [mbind option_bind]. destruct (decide (bufferLevel < reservoir)%Z).
  - case_decide; [eexists; split; [reflexivity|lia]|]. destruct (_ <? _)%F; eexists; (split; [reflexivity|]); unfold Max; try case_decide; lia.
  - destruct (bba_VRAA_range repRate highest lowest maxBufferLevel bufferLevel bws reservoir Hb Hr) as (r & -> & H). cbn [mbind option_bind].
    case_decide; [by exists r|]. eexists. split; [reflexivity|]. destruct (_ <=? _)%F; unfold Min, Max; repeat case_decide; lia.
Qed.

(** ** Arbiter+ *)

(** The quality is lowered until the segments fit, and no further. *)
Lemma lower_quality_spec fits lowest fuel i :
  (lowest - i ≤ Z.of_nat fuel)%Z → (i ≤ lowest)%Z → (∀ j, (i ≤ j < lowest)%Z → is_Some (fits j)) →
  ∃ r, lower_quality fits lowest fuel i = Some r ∧ (i ≤ r ≤ lowest)%Z ∧ (fits r = Some true ∨ r = lowest) ∧
    ∀ j, (i ≤ j < r)%Z → fits j = Some false.
Proof using Type.
  revert i. induction fuel as [|fuel IH]; intros i Hf Hi Hfits.
  - exists i. split; [done|]. split; [lia|]. split; [right; lia|lia].
  - cbn [lower_quality]. destruct (decide (i < lowest)%Z) as [Hlt|Hge].
    2: { exists i. split; [done|]. split; [lia|]. split; [right; lia|lia]. }
    destruct (Hfits i ltac:(lia)) as [ok Hok]. rewrite Hok. cbn [mbind option_bind]. destruct ok.
    + exists i. split; [done|]. split; [lia|]. split; [by left|lia].
    + destruct (IH (i + 1)%Z) as (r & -> & H1 & H2 & H3); [lia|lia|intros j Hj; apply Hfits; lia|]. exists r. split; [done|]. split; [lia|]. split; [done|].
      intros j Hj. destruct (decide (j = i)) as [->|Hne]; [done|]. apply H3. lia.
Qed.

Lemma window_bits_total size n segment total :
  (∀ j, (segment ≤ j < segment + Z.of_nat n)%Z → is_Some (size j)) → is_Some (window_bits size n segment total).
Proof using Type.
  revert segment total. induction n as [|n IH]; intros segment total Hs; [by eexists|]. cbn [window_bits].
  destruct (Hs segment ltac:(lia)) as [s ->]. cbn [mbind option_bind]. apply IH. intros j Hj. apply Hs. lia.
Qed.

(** The table of sizes has every segment that is asked for. *)
Definition sizes_loaded (heads : SegHeadValues) (lowest segment videoWindow : Z) : Prop :=
  match heads with
  | None => True
  | Some heads => ∀ q j, (0 ≤ q < lowest)%Z → (segment - 1 ≤ j < segment - 1 + videoWindow)%Z →
      is_Some (at_index (default [] (default ∅ (heads !! 0%Z) !! q)) j)
  end.
Lemma arbiter_fits_total heads videoWindow targetRate segment lastDuration lowest q :
  sizes_loaded heads lowest segment videoWindow → (0 ≤ q < lowest)%Z →
  is_Some (arbiter_fits contentLength heads videoWindow targetRate segment lastDuration q).
Proof using Type.
  intros Hs Hq. unfold arbiter_fits. destruct heads as [heads|].
  - unfold SmartConvHelperFromFile. destruct (decide (0 ≤ videoWindow)%Z) as [Hv|Hv].
    + edestruct (window_bits_total) as [t ->]; [|by eexists]. intros j Hj. apply Hs; lia.
    + replace (Z.to_nat videoWindow) with 0 by lia. by eexists.
  - unfold SmartConvHelper. edestruct (window_bits_total) as [t ->]; by eexists.
Qed.

Lemma switching_range repRate target targetRate bws lowest :
  (zlen bws = lowest + 1)%Z → (0 ≤ target ≤ lowest)%Z → (0 ≤ repRate ≤ lowest)%Z →
  ∃ r, switching repRate target targetRate bws = Some r ∧ (0 ≤ r ≤ lowest)%Z ∧ (repRate - 2 ≤ r)%Z.
Proof using Type.
  intros Hb Ht Hr. unfold switching, Max, DEFAULT_MAXIMUM_SWITCH. destruct (decide (repRate - target = 1)%Z) as [E|E].
  - destruct (at_index_in bws target ltac:(lia)) as [b ->]. cbn [mbind option_bind]. eexists. split; [reflexivity|].
    destruct (_ <? _)%F; repeat case_decide; lia.
  - cbn [mbind option_bind]. eexists. split; [reflexivity|]. repeat case_decide; lia.
Qed.

Lemma arbiter_fit heads newThr lastDuration lastIndex maxBufferLevel repRate thrList mpdDuration segment bufferLevel lowest bws :
  (zlen bws = lowest + 1)%Z → (0 ≤ repRate ≤ lowest)%Z → lastDuration ≠ 0%Z →
  sizes_loaded heads lowest segment DEFAULT_PREDICTIVE_ESTIMATION_WINDOW →
  let rate := arbiter_rate Pow (thrList ++ [newThr]) bufferLevel maxBufferLevel in
  let videoWindow := Min (i64 (i64 (Z.quot mpdDuration lastDuration) - lastIndex)) DEFAULT_PREDICTIVE_ESTIMATION_WINDOW in
  let fits := arbiter_fits contentLength heads videoWindow rate segment lastDuration in
  ∃ start r, CalculateSelectedIndexArbiter other Pow contentLength heads newThr lastDuration lastIndex maxBufferLevel repRate thrList mpdDuration
         segment bufferLevel lowest bws = Some (thrList ++ [newThr], r) ∧
    (repRate - 2 ≤ start ≤ r)%Z ∧ (0 ≤ r ≤ lowest)%Z ∧ (fits r = Some true ∨ r = lowest) ∧ ∀ j, (start ≤ j < r)%Z → fits j = Some false.
Proof using Type.
  intros Hb Hr Hd Hs rate videoWindow fits. unfold CalculateSelectedIndexArbiter. fold rate.
  destruct (switching_range repRate (SelectRepRateWithThroughtput (to_int other rate) bws lowest) rate bws lowest) as (start & -> & H1 & H2);
    [done|apply select_range; lia|done|].
  cbn [mbind option_bind]. unfold quot_int. rewrite decide_False by done. cbn [mbind option_bind]. fold videoWindow fits.
  destruct (lower_quality_spec fits lowest (Z.to_nat (lowest - start)) start) as (r & -> & H3 & H4 & H5); [lia|lia| |].
  { intros j Hj. apply (arbiter_fits_total heads videoWindow rate segment lastDuration lowest); [|lia]. destruct heads as [heads|]; [|done].
    intros q k Hq Hk. apply Hs; [done|]. unfold videoWindow, Min in Hk. case_decide; lia. }
  exists start, r. split; [done|]. repeat split; [lia..|done|done].
Qed.

Lemma arbiter_range heads newThr lastDuration lastIndex maxBufferLevel repRate thrList mpdDuration segment bufferLevel lowest bws :
  (zlen bws = lowest + 1)%Z → (0 ≤ repRate ≤ lowest)%Z → lastDuration ≠ 0%Z →
  sizes_loaded heads lowest segment DEFAULT_PREDICTIVE_ESTIMATION_WINDOW →
  ∃ r, CalculateSelectedIndexArbiter other Pow contentLength heads newThr lastDuration lastIndex maxBufferLevel repRate thrList mpdDuration
         segment bufferLevel lowest bws = Some (thrList ++ [newThr], r) ∧ (0 ≤ r ≤ lowest)%Z.
Proof using Type.
  intros Hb Hr Hd Hs. destruct (arbiter_fit heads newThr lastDuration lastIndex maxBufferLevel repRate thrList mpdDuration segment bufferLevel
    lowest bws Hb Hr Hd Hs) as (_ & r & H1 & _ & H2 & _). by exists r.
Qed.

(** Arbiter+ returns, at most two steps up from the last index, the first one of which the next segments of the window fit into the
    rate it aims at, or the last index; it does so without a panic when the sizes it reads are there. *)
Theorem arbiter_first_fit heads newThr lastDuration lastIndex maxBufferLevel repRate thrList mpdDuration segment bufferLevel lowest bws :
  (zlen bws = lowest + 1)%Z → (0 ≤ repRate ≤ lowest)%Z → lastDuration ≠ 0%Z →
  sizes_loaded heads lowest segment DEFAULT_PREDICTIVE_ESTIMATION_WINDOW →
  let rate := arbiter_rate Pow (thrList ++ [newThr]) bufferLevel maxBufferLevel in
  let videoWindow := Min (i64 (i64 (Z.quot mpdDuration lastDuration) - lastIndex)) DEFAULT_PREDICTIVE_ESTIMATION_WINDOW in
  let fits := arbiter_fits contentLength heads videoWindow rate segment lastDuration in
  ∃ start r, CalculateSelectedIndexArbiter other Pow contentLength heads newThr lastDuration lastIndex maxBufferLevel repRate thrList mpdDuration
         segment bufferLevel lowest bws = Some (thrList ++ [newThr], r) ∧
    (repRate - 2 ≤ start ≤ r)%Z ∧ (0 ≤ r ≤ lowest)%Z ∧ (fits r = Some true ∨ r = lowest) ∧ ∀ j, (start ≤ j < r)%Z → fits j = Some false.
Proof using Type. apply arbiter_fit. Qed.

(** ** The conventional algorithm *)

(** The throughputs it smooths from [thr] on. *)
Fixpoint smoothed (thr : Z) (thrList samples : list Z) (bws : list Z) (lowest : Z) : Z * list Z :=
  match samples with
  | [] => (thr, thrList)
  | newThr :: samples => let '(thr, thrList, _) := Conventional thr thrList newThr bws lowest in smoothed thr thrList samples bws lowest
  end.

Lemma conventional_step m M thr thrList newThr bws lowest :
  (0 ≤ m)%Z → (M < 2 ^ 59)%Z → (thr = -1 ∨ 0 ≤ thr ∧ m - 9 ≤ thr ≤ M)%Z → (m ≤ newThr ≤ M)%Z →
  ∃ t, Conventional thr thrList newThr bws lowest = (t, thrList ++ [t], SelectRepRateWithThroughtput t bws lowest) ∧
    (0 ≤ t ∧ m - 9 ≤ t ≤ M)%Z.
Proof using Type.
  intros Hm HM Ht Hn. unfold Conventional. cbv zeta. destruct (decide (thr = -1)%Z) as [E|E]; [exists newThr; split; [done|lia]|].
  destruct Ht as [Ht|Ht]; [done|]. rewrite !(i64_small (_ * _)) by lia. rewrite !Z.quot_div_nonneg by lia.
  pose proof (Z.div_mod (8 * thr) 10 ltac:(lia)). pose proof (Z.mod_pos_bound (8 * thr) 10 ltac:(lia)).
  pose proof (Z.div_mod (2 * newThr) 10 ltac:(lia)). pose proof (Z.mod_pos_bound (2 * newThr) 10 ltac:(lia)).
  rewrite (i64_small (8 * thr / 10)) by lia. rewrite i64_small by lia. eexists. split; [reflexivity|]. lia.
Qed.

(** when the throughputs stay between two bounds, the conventional algorithm's smoothed ones do, up to 9 bit/s that its integer
    divisions lose, and the indices it chooses lie between those selected for the bounds. *)
Theorem conventional_smooths m M samples newThr bws lowest :
  (0 ≤ m)%Z → (M < 2 ^ 59)%Z → Forall (λ t, (m ≤ t ≤ M)%Z) (samples ++ [newThr]) → (zlen bws ≤ lowest + 1)%Z →
  let '(thr, thrList) := smoothed (-1) [] samples bws lowest in
  Forall (λ t, (m - 9 ≤ t ≤ M)%Z) thrList ∧
  let '(thr', _, r) := Conventional thr thrList newThr bws lowest in
  (m - 9 ≤ thr' ≤ M)%Z ∧ (SelectRepRateWithThroughtput M bws lowest ≤ r ≤ SelectRepRateWithThroughtput (m - 9) bws lowest)%Z.
Proof using Type.
  intros Hm HM [Hs Hn]%Forall_app Hl. rewrite Forall_singleton in Hn.
  assert (∀ thr thrList, (thr = -1 ∨ 0 ≤ thr ∧ m - 9 ≤ thr ≤ M)%Z → Forall (λ t, (m - 9 ≤ t ≤ M)%Z) thrList →
    ∃ thr' thrList', smoothed thr thrList samples bws lowest = (thr', thrList') ∧
      (thr' = -1 ∨ 0 ≤ thr' ∧ m - 9 ≤ thr' ≤ M)%Z ∧ Forall (λ t, (m - 9 ≤ t ≤ M)%Z) thrList') as Hgo.
  { clear Hn newThr. induction Hs as [|t samples Ht _ IH]; intros thr thrList Hthr Hlist; [by eexists _, _|]. cbn [smoothed].
    destruct (conventional_step m M thr thrList t bws lowest Hm HM Hthr Ht) as (t' & -> & Ht'). apply IH; [by right|].
    apply Forall_app. split; [done|]. apply Forall_singleton. lia. }
  destruct (Hgo (-1)%Z [] ltac:(by left) ltac:(done)) as (thr & thrList & -> & Hthr & Hlist). split; [done|].
  destruct (conventional_step m M thr thrList newThr bws lowest Hm HM Hthr Hn) as (t & -> & Ht). split; [lia|]. split; apply select_monotone; lia.
Qed.
End choices.

(** * The unit tests of the averages (algorithms/average_test.go) *)

Definition tested : list Z := [2843157; 6690325; 12242549; 13067956; 15247213; 20917735; 26063698; 27587342; 26106059; 23265265]%Z.
Definition tested_bandwidths : list Z :=
  [40276548; 25312752; 15193504; 4354160; 3894826; 3046114; 2386043; 1826811; 1089489; 767717; 576208; 390172; 247230]%Z.
(** What a processor of type amd64 makes of a number that does not fit, and powers with whole exponents. *)
Definition indefinite (_ : float64) : Z := (- 2 ^ 63)%Z.
Definition power (x y : float64) : float64 :=
  match ftrunc y with Some n => Nat.iter (Z.to_nat n) (fmul x) (of_int 1) | None => S754_nan end.

(** The mean and the representation selected for it are what the tests expect.  The harmonic mean is not: it is for the list
    in the reverse order; and the exponential average, which the tests expect to favour the new throughputs, favours the old ones. *)
Theorem averages_tested :
  meanAverage tested = literal 174031299 10 ∧
  SelectRepRateWithThroughtput (to_int indefinite (meanAverage tested)) tested_bandwidths 12 = 2%Z ∧
  (let expected := S754_finite false 6588660535370466 (-28) in
   harmonicAverage 5 tested = Some (S754_finite false 6588660535370465 (-28)) ∧
   harmonicAverage 5 (reverse (drop 5 tested)) = Some expected) ∧
  to_int indefinite (ExpAverage power [642; 545]%Z (literal 4 10) 10) = 605%Z ∧
  to_int indefinite (ExpAverage power [545; 642]%Z (literal 4 10) 10) = 581%Z.
Proof. vm_compute. repeat split. Qed.

(** * Witnesses *)

Lemma tested_falls : StronglySorted Z.ge tested_bandwidths.
Proof. unfold tested_bandwidths. repeat constructor; discriminate. Qed.
Lemma selected_rate_witness :
  let r := SelectRepRateWithThroughtput 17403129 tested_bandwidths 12 in
  (∃ b, at_index tested_bandwidths r = Some b ∧ (b < 17403129 ∨ r = 12)%Z ∧ ∀ c, c ∈ tested_bandwidths → (c < 17403129)%Z → (c ≤ b)%Z) ∧
  (SelectRepRateWithThroughtput 20000000 tested_bandwidths 12 ≤ r)%Z.
Proof. apply (selected_rate 17403129 20000000 tested_bandwidths 12); [exact tested_falls|reflexivity|lia|lia]. Defined.

(** 59 seconds of a buffer of 60. *)
Lemma logistic_avoids_best_witness :
  ∃ r, Logistic indefinite (λ _, of_int 1) [] 30000000 3 tested_bandwidths 59000 0 12 60 = Some ([30000000]%Z, r) ∧ (1 ≤ r ≤ 12)%Z ∧ r = 12%Z.
Proof.
  destruct (logistic_avoids_best indefinite (λ _, of_int 1) [] 30000000 3 tested_bandwidths 59000 0 12 60) as (r & H1 & H2 & H3); [reflexivity|lia|lia|].
  exists r. split; [exact H1|]. split; [exact H2|]. apply H3. vm_compute. reflexivity.
Defined.

Lemma arbiter_first_fit_witness :
  let rate := arbiter_rate power [5000000]%Z 20000 60 in
  let fits := arbiter_fits (λ r n, 100000 * (13 - r))%Z None 5 rate 7 4000 in
  ∃ start r, CalculateSelectedIndexArbiter indefinite power (λ r n, 100000 * (13 - r))%Z None 5000000 4000 7 60 3 [] 600000 7 20000 12
      tested_bandwidths = Some ([5000000]%Z, r) ∧
    (1 ≤ start ≤ r)%Z ∧ (0 ≤ r ≤ 12)%Z ∧ (fits r = Some true ∨ r = 12%Z) ∧ ∀ j, (start ≤ j < r)%Z → fits j = Some false.
Proof.
  apply (arbiter_first_fit indefinite power (λ r n, 100000 * (13 - r))%Z None 5000000 4000 7 60 3 [] 600000 7 20000 12 tested_bandwidths);
    [reflexivity|lia|discriminate|exact I].
Defined.

Lemma conventional_smooths_witness :
  let '(thr, thrList) := smoothed (-1) [] [5000000; 6000000]%Z tested_bandwidths 12 in
  Forall (λ t, (5000000 - 9 ≤ t ≤ 7000000)%Z) thrList ∧
  let '(thr', _, r) := Conventional thr thrList 7000000 tested_bandwidths 12 in
  (5000000 - 9 ≤ thr' ≤ 7000000)%Z ∧
  (SelectRepRateWithThroughtput 7000000 tested_bandwidths 12 ≤ r ≤ SelectRepRateWithThroughtput (5000000 - 9) tested_bandwidths 12)%Z.
Proof.
  apply (conventional_smooths 5000000 7000000 [5000000; 6000000]%Z 7000000 tested_bandwidths 12); [lia|reflexivity|repeat constructor; discriminate|].
  discriminate.
Defined.
