(* ===== verification/QoE.v ===== *)
(** Quality of experience of the DASH player (src/godash/qoe, the log of logging/debug.go).

    After every segment the scores of the session so far are computed from its log, the last entry of
    which they are written to.  [math.Log], the mean and the variance of gonum, and the score of the
    P.1203 program are arguments. *)

From Stdlib Require Import ZArith Lia SpecFloat.
From Stdlib Require Import Strings.String.
From stdpp Require Import prelude numbers list gmap strings.
From S2P Require Import Prelude Float64 RateAdaptation.

Open Scope Z_scope.

(** The fields that the scores are made of, and the scores. *)
Record SegPrintLogInformation : Type := {
  StallTime : Z; Bandwidth : Z; BufferLevel : Z; SegmentDuration : Z; PlaybackTime : Z;
  RepCodec : string; RepWidth : Z; RepHeight : Z; MimeType : string;
  SegmentRates : list float64; SumSegRate : float64; TotalStallDur : float64; NumStalls : Z; NumSwitches : Z;
  RateDifference : float64; SumRateChange : float64; RateChange : list float64;
  P1203 : float64; Clae : float64; Duanmu : float64; Yin : float64; Yu : float64
}.
Definition empty_entry : SegPrintLogInformation := {|
  StallTime := 0; Bandwidth := 0; BufferLevel := 0; SegmentDuration := 0; PlaybackTime := 0;
  RepCodec := ""; RepWidth := 0; RepHeight := 0; MimeType := "";
  SegmentRates := []; SumSegRate := of_int 0; TotalStallDur := of_int 0; NumStalls := 0; NumSwitches := 0;
  RateDifference := of_int 0; SumRateChange := of_int 0; RateChange := [];
  P1203 := of_int 0; Clae := of_int 0; Duanmu := of_int 0; Yin := of_int 0; Yu := of_int 0
|}.
Definition log_size (log : gmap Z SegPrintLogInformation) : Z := Z.of_nat (size log).
(** [log[i]] is an empty entry when there is none. *)
Definition entry (log : gmap Z SegPrintLogInformation) (i : Z) : SegPrintLogInformation := default empty_entry (log !! i).
Definition last_entry (log : gmap Z SegPrintLogInformation) : SegPrintLogInformation := entry log (log_size log).

Section scores.
Context (Log : float64 → float64) (Mean Variance : list float64 → float64).

Definition getClaye (log : gmap Z SegPrintLogInformation) (maxRepRate : Z) : float64 :=
  let e := last_entry log in
  let maxRate := of_int maxRepRate in
  let avgRate := Mean (SegmentRates e) in
  let sd := fsqrt (Variance (SegmentRates e)) in
  let rateQoE := (literal 567 100 * avgRate / maxRate)%F in
  let stallPenalty :=
    if decide (NumStalls e > 0) then
      let perStall := (TotalStallDur e / of_int (NumStalls e))%F in
      let stallDurElem := if (of_int 15 <? perStall)%F then of_int 1 else (perStall / of_int 15)%F in
      (literal 495 100 * (literal 875 1000 * (of_int 1 + Log (of_int (NumStalls e) / of_int (log_size log)) / of_int 6) +
                          literal 125 1000 * stallDurElem))%F
    else of_int 0 in
  let switchingPenalty := (literal 672 100 * sd / maxRate)%F in
  MaxFloat (of_int 0) (literal 17 100 + rateQoE - switchingPenalty - stallPenalty)%F.

(** The durations of the first segments. *)
Definition initial_delay (log : gmap Z SegPrintLogInformation) (initBuffer : Z) : Z :=
  foldl (λ initDelay i, i64 (initDelay + SegmentDuration (entry log i))) 0 (seqZ 1 initBuffer).

Definition getDuanmu (log : gmap Z SegPrintLogInformation) (initBuffer : Z) : float64 :=
  let e := last_entry log in
  let sessionDuration := if decide (PlaybackTime e = 0) then 1 else PlaybackTime e in
  let rebufferPercentage := (TotalStallDur e / of_int sessionDuration)%F in
  let avgRateSwitchMagnitude :=
    if decide (NumSwitches e = 0) then of_int 0 else (SumRateChange e / of_int 1000 / of_int (NumSwitches e))%F in
  let avgBitrate := (SumSegRate e / of_int 1000 / of_int (log_size log))%F in
  (literal (-23) 10 * of_int (initial_delay log initBuffer) - literal 565 10 * rebufferPercentage + literal 70 10000 * avgBitrate +
   literal 7 10000 * avgRateSwitchMagnitude + of_int 54)%F.

Definition getYin (log : gmap Z SegPrintLogInformation) (initBuffer : Z) : float64 :=
  let e := last_entry log in
  let avgRateSwitchMagnitude := if decide (NumSwitches e = 0) then of_int 0 else (SumRateChange e / of_int 1000)%F in
  let rates := (SumSegRate e / of_int 1000 - of_int 1 * avgRateSwitchMagnitude - of_int 3 * TotalStallDur e)%F in
  if decide (PlaybackTime e > 0) then rates else (rates - of_int 3000 * of_int (initial_delay log initBuffer))%F.

(** [w1] is the integer quotient of 1 and 3. *)
Definition yu_w1 : float64 := of_int (Z.quot 1 3).
Definition yu_w2 : float64 := of_int 20.
Definition display_time (log : gmap Z SegPrintLogInformation) : float64 :=
  foldl (λ t i, t + of_int (SegmentDuration (entry log i)))%F (of_int 0) (seqZ 1 (log_size log)).
Definition yu_magnitude (log : gmap Z SegPrintLogInformation) : float64 := (SumRateChange (last_entry log) / of_int 1000000 / of_int (log_size log))%F.
Definition yu_bitrate (log : gmap Z SegPrintLogInformation) : float64 := (SumSegRate (last_entry log) / of_int 1000000 / of_int (log_size log))%F.
Definition getYu (log : gmap Z SegPrintLogInformation) : float64 :=
  let e := last_entry log in
  let totalDisplayTime := (display_time log + TotalStallDur e)%F in
  let starvation := (TotalStallDur e / totalDisplayTime)%F in
  let switchingQoE := (yu_w1 * yu_magnitude log)%F in
  let starvationQoE := (yu_w2 * starvation)%F in
  (yu_bitrate log - switchingQoE - starvationQoE)%F.

(** * All scores *)

Definition P1203Header : string := "P.1203".
Definition ClaeHeader : string := "Clae".
Definition DuanmuHeader : string := "Duanmu".
Definition YinHeader : string := "Yin".
Definition YuHeader : string := "Yu".
Definition RepRateCodecAudio : string := "audio/mp4".
Definition RepRateCodecAVC : string := "h264".
Definition P1203maxWidth : Z := 1920.
Definition P1203maxHeight : Z := 1080.

Definition checkInputHeader (printHeadersData : gmap string string) (key : string) : bool :=
  match printHeadersData !! key with
  | Some val => bool_decide (val = "on" ∨ val = "On" ∨ val = "ON")
  | None => false
  end.

(** Whether P.1203 applies to all segments. *)
Definition p1203_compliant (log : gmap Z SegPrintLogInformation) : bool :=
  forallb (λ a, let e := entry log a in
     negb (bool_decide (RepCodec e ≠ RepRateCodecAVC ∨ RepWidth e > P1203maxWidth ∨ RepHeight e > P1203maxHeight))) (seqZ 1 (log_size log)).

Definition set_scores (e : SegPrintLogInformation) (p1203 clae duanmu yin yu : float64) : SegPrintLogInformation := {|
  StallTime := StallTime e; Bandwidth := Bandwidth e; BufferLevel := BufferLevel e; SegmentDuration := SegmentDuration e;
  PlaybackTime := PlaybackTime e; RepCodec := RepCodec e; RepWidth := RepWidth e; RepHeight := RepHeight e; MimeType := MimeType e;
  SegmentRates := SegmentRates e; SumSegRate := SumSegRate e; TotalStallDur := TotalStallDur e; NumStalls := NumStalls e;
  NumSwitches := NumSwitches e; RateDifference := RateDifference e; SumRateChange := SumRateChange e; RateChange := RateChange e;
  P1203 := p1203; Clae := clae; Duanmu := duanmu; Yin := yin; Yu := yu
|}.

(** The goroutines each send one number on a channel of their own, which is received when it was asked for. *)
Definition CreateQoE (p1203 : gmap Z SegPrintLogInformation → float64) (log : gmap Z SegPrintLogInformation) (initBuffer maxRepRate : Z) (printHeadersData : gmap string string) : gmap Z SegPrintLogInformation :=
  let AudioCheck := bool_decide (MimeType (last_entry log) = RepRateCodecAudio) in
  let asked key score := if checkInputHeader printHeadersData key && negb AudioCheck then score else of_int 0 in
  <[log_size log := set_scores (last_entry log)
      (if p1203_compliant log then asked P1203Header (p1203 log) else of_int 0)
      (asked ClaeHeader (getClaye log maxRepRate)) (asked DuanmuHeader (getDuanmu log initBuffer))
      (asked YinHeader (getYin log initBuffer)) (asked YuHeader (getYu log))]> log.
End scores.

Close Scope Z_scope.

(** * The weight of switches in Yu's score *)

Definition set_rate_change (e : SegPrintLogInformation) (x : float64) : SegPrintLogInformation := {|
  StallTime := StallTime e; Bandwidth := Bandwidth e; BufferLevel := BufferLevel e; SegmentDuration := SegmentDuration e;
  PlaybackTime := PlaybackTime e; RepCodec := RepCodec e; RepWidth := RepWidth e; RepHeight := RepHeight e; MimeType := MimeType e;
  SegmentRates := SegmentRates e; SumSegRate := SumSegRate e; TotalStallDur := TotalStallDur e; NumStalls := NumStalls e;
  NumSwitches := NumSwitches e; RateDifference := RateDifference e; SumRateChange := x; RateChange := RateChange e;
  P1203 := P1203 e; Clae := Clae e; Duanmu := Duanmu e; Yin := Yin e; Yu := Yu e
|}.
(** The log with another sum of rate changes in its last entry. *)
Definition with_rate_change (log : gmap Z SegPrintLogInformation) (x : float64) : gmap Z SegPrintLogInformation := <[log_size log := set_rate_change (last_entry log) x]> log.

Definition finite (x : float64) : Prop := match x with S754_zero _ | S754_finite _ _ _ => True | _ => False end.
Definition nonzero (x : float64) : Prop := match x with S754_zero _ => False | _ => True end.

Lemma no_weight a m : finite m → nonzero a → (a - yu_w1 * m)%F = a.
Proof. intros Hm Ha. destruct m as [s|s| |s m e]; [|done|done|]; destruct a as [t|t| |t n f]; done. Qed.

Lemma with_rate_change_size log x : log !! log_size log ≠ None → log_size (with_rate_change log x) = log_size log.
Proof.
  intros Hl. unfold with_rate_change, log_size. destruct (log !! Z.of_nat (size log)) as [e|] eqn:E; [|done].
  by rewrite (map_size_insert_Some _ _ _ (ex_intro _ e E)).
Qed.
Lemma with_rate_change_entry log x i :
  entry (with_rate_change log x) i = if decide (i = log_size log) then set_rate_change (last_entry log) x else entry log i.
Proof.
  unfold entry, with_rate_change. case_decide as E; [subst i; by rewrite lookup_insert_eq|by rewrite lookup_insert_ne by congruence].
Qed.

(** Yu's score does not depend on the sum of rate changes, the switches that it is meant to punish: the weight of one third is an
    integer quotient, and 0. *)
Theorem yu_ignores_switching log x :
  log !! log_size log ≠ None → nonzero (yu_bitrate log) → finite (yu_magnitude log) → finite (yu_magnitude (with_rate_change log x)) →
  getYu (with_rate_change log x) = getYu log.
Proof.
  intros Hl Hb Hm Hm'. pose proof (with_rate_change_size log x Hl) as Hs.
  assert (last_entry (with_rate_change log x) = set_rate_change (last_entry log) x) as He.
  { unfold last_entry at 1. rewrite Hs, with_rate_change_entry. by rewrite decide_True. }
  assert (display_time (with_rate_change log x) = display_time log) as Hd.
  { unfold display_time. rewrite Hs. generalize (of_int 0). induction (seqZ 1 (log_size log)) as [|i l IH]; intros t; [done|]. cbn [foldl].
    rewrite with_rate_change_entry. case_decide as E; [|apply IH]. rewrite E. apply IH. }
  assert (yu_bitrate (with_rate_change log x) = yu_bitrate log) as Hr by (unfold yu_bitrate; by rewrite Hs, He).
  unfold getYu. rewrite Hd, He, Hr, !no_weight by done. done.
Qed.

(** what is computed for a log changes nothing but the five scores of its last entry; a score that was not asked for is 0, and so
    are all scores of audio. *)
Theorem scores_of_last Log Mean Variance p1203 log initBuffer maxRepRate headers :
  log !! log_size log ≠ None →
  let log' := CreateQoE Log Mean Variance p1203 log initBuffer maxRepRate headers in
  (∀ i, i ≠ log_size log → log' !! i = log !! i) ∧ log_size log' = log_size log ∧
  (∃ a b c d e, last_entry log' = set_scores (last_entry log) a b c d e ∧
    ((∀ key, checkInputHeader headers key = false) ∨ MimeType (last_entry log) = RepRateCodecAudio →
     a = of_int 0 ∧ b = of_int 0 ∧ c = of_int 0 ∧ d = of_int 0 ∧ e = of_int 0)).
Proof.
  intros Hl log'. assert (log_size log' = log_size log) as Hs.
  { unfold log', CreateQoE, log_size in *. destruct (log !! Z.of_nat (size log)) as [e|] eqn:E; [|done].
    by rewrite (map_size_insert_Some _ _ _ (ex_intro _ e E)). }
  split; [intros i Hi; unfold log', CreateQoE; by rewrite lookup_insert_ne by congruence|]. split; [done|].
  do 5 eexists. split.
  - unfold last_entry at 1, entry. rewrite Hs. unfold log', CreateQoE. rewrite lookup_insert_eq. reflexivity.
  - intros Hno. assert (∀ key, checkInputHeader headers key && negb (bool_decide (MimeType (last_entry log) = RepRateCodecAudio)) = false) as Hz.
    { intros key. destruct Hno as [Hno|Hno]; [by rewrite Hno|rewrite bool_decide_true by done; apply andb_false_r]. }
    rewrite !Hz. by destruct (p1203_compliant log).
Qed.

(** * Witnesses *)

(** Ten seconds of 4 Mbit/s in two segments, with a total stall time. *)
Definition sample_entry (stall : Z) : SegPrintLogInformation := {|
  StallTime := stall; Bandwidth := 4000000; BufferLevel := 5000; SegmentDuration := 5; PlaybackTime := 5000;
  RepCodec := "h264"; RepWidth := 1280; RepHeight := 720; MimeType := "video/mp4";
  SegmentRates := [of_int 4000000; of_int 4000000]; SumSegRate := of_int 8000000; TotalStallDur := of_int stall; NumStalls := 0; NumSwitches := 0;
  RateDifference := of_int 0; SumRateChange := of_int 0; RateChange := [];
  P1203 := of_int 0; Clae := of_int 0; Duanmu := of_int 0; Yin := of_int 0; Yu := of_int 0
|}.
Definition sample_log (stall : Z) : gmap Z SegPrintLogInformation := <[2%Z := sample_entry stall]> {[1%Z := sample_entry 0]}.

(** A stall is logged as a negative time, and the scores of Yin and Duanmu, which subtract it, then rise. *)
Lemma stall_rewarded :
  (getYin (sample_log 0) 1 <? getYin (sample_log (-4000)) 1)%F = true ∧
  (getDuanmu (sample_log 0) 1 <? getDuanmu (sample_log (-4000)) 1)%F = true.
Proof. vm_compute. by split. Qed.

Lemma yu_ignores_switching_witness : getYu (with_rate_change (sample_log 0) (of_int 9000000)) = getYu (sample_log 0).
Proof. apply (yu_ignores_switching (sample_log 0) (of_int 9000000)); [by vm_compute|vm_compute; exact I..]. Defined.

Lemma scores_of_last_witness :
  let log' := CreateQoE (λ x, x) (λ _, of_int 0) (λ _, of_int 0) (λ _, of_int 0) (sample_log 0) 1 5000000 ∅ in
  (∀ i, i ≠ log_size (sample_log 0) → log' !! i = sample_log 0 !! i) ∧ log_size log' = log_size (sample_log 0) ∧
  (∃ a b c d e, last_entry log' = set_scores (last_entry (sample_log 0)) a b c d e ∧
    ((∀ key, checkInputHeader ∅ key = false) ∨ MimeType (last_entry (sample_log 0)) = RepRateCodecAudio →
     a = of_int 0 ∧ b = of_int 0 ∧ c = of_int 0 ∧ d = of_int 0 ∧ e = of_int 0)).
Proof. apply (scores_of_last (λ x, x) (λ _, of_int 0) (λ _, of_int 0) (λ _, of_int 0) (sample_log 0) 1 5000000 ∅). by vm_compute. Defined.
